(* ===== verification/_CoqProject ===== *)
-Q . S2P
Prelude.v
GoString.v
GoFloat.v
Schema.v
Sql.v
Label.v
Fixture.v
Storage.v
Names.v
Messages.v
Inboxes.v
Sessions.v
Cycles.v
ContextPolicy.v
Admission.v
CycleFixture.v
CycleProps.v
CycleOutcomes.v
CycleGates.v
Launches.v
Succession.v
SuccessionProps.v
Registrations.v
Retention.v
Wake.v
InboxProps.v
RetentionProps.v
WakeProps.v
Participants.v
Rooms.v
RoomPosts.v
RoomProps.v
TranscriptProps.v
Leases.v
LeaseProps.v
WorkViews.v
MemoryLimits.v
MemoryExpiry.v
WorkItems.v
WorkOps.v
Works.v
WorkNotices.v
WorkRequests.v
RequestProps.v
WorkFixture.v
WorkNoticeProps.v
WorkFacts.v
WorkProps.v
WorkSteps.v
WorkSpec.v
WorkOutcomes.v
WorkCases.v
Library.v
Markdown.v
BoardText.v
Decisions.v
Verdicts.v
DeepArchive.v
Sweeps.v
BoardProps.v
BoardSteps.v
VerdictProps.v
BoardInvariant.v
BoardLife.v
PendingProps.v
Retries.v
ArchiveSteps.v
ArchiveProps.v
ArchiveInvariant.v
ArchiveLife.v
ArchiveCases.v
LibraryDecisions.v
LibraryProps.v
Notes.v
Readers.v
Streams.v
ReaderSteps.v
ReaderProps.v
MemoryProps.v
MemoryCases.v
