(* ===== verification/Prelude.v ===== *)
(** * Verification of the Koinon daemon

    Koinon is a local daemon that lets the coding agents of one machine work together: it
    registers their sessions, gives them lasting names, carries their messages and rooms, keeps
    the memory, the work items and the decision cards of a repository, and renews the context of
    a long session.  All of it is one SQLite file behind one Go type, [core.Store].  This
    development models that core, src/internal/core, with the pure part of src/internal/library;
    every path below is under src/internal/core unless it says otherwise.

    ** How the model reads the code

    - A [State] (Schema) is the database: one finite map for each table, keyed by its primary
      key.  A statement (Sql) is a filter or an update of a map; an INSERT on a taken key fails.
    - A transaction is a [tx A] = [State → result error (A * State)] (Prelude, Sql): an error
      carries no state, as its transaction is rolled back.
    - A [Store] (Storage) is the file around the tables: its pages, its ceiling and whether it is
      blocked.  [write] is the one boundary (storage.go) that every write passes: admission,
      transaction, audit record, page ceiling less the debt of what is promised, commit.
    - Go strings are byte sequences (GoString), int64 is [Z] with its wrap-around where it
      matters, float64 is an IEEE binary64 number (GoFloat), JSON texts are written out where
      their bytes are counted, compared or hashed.
    - An operation takes the readings of the clock and the random IDs that it uses as arguments.
      Where the source holds a lock over several writes the model runs them in sequence; where
      others can come between, they are arguments or steps of a machine.

    ** The parts

    - Storage boundary: Storage, of storage.go and audit.go.
    - Names, participants, succession: Label and Names (names.go), Participants
      (participants.go), Sessions and Registrations (store.go, liveness.go), Launches
      (launch.go), Succession (succession.go).  A session has a peer name; a participant has an
      address with one holder; naming, liveness and a succession move the holder and fence the
      former one.
    - Messages and rooms: Messages (messages.go), Rooms (rooms.go), RoomPosts (room_posts.go, and
      the deletion of a room, in cleanup.go).
      A post is a message to the inbox of every member, in the transaction of the post.
    - Retention: Retention and Sweeps (retention.go) delete acknowledged messages and ended
      sessions after their periods, purge the sessions that the maintainer marked, and run the
      sweeps of the other parts in their order.
    - Wakes: Wake (wake.go, wake_health.go) tells a session that messages wait, retries, and
      fails a message that had its notices; the adapter that reaches an agent is an argument.
    - Context cycles: ContextPolicy (context_policy.go) selects, Admission and Cycles
      (context_cycle.go, context_cycle_retry.go, context_cycle_claims.go, cycle_pickup.go) run a
      cycle as a funded state machine.  A cycle protects the claims of its session and gives
      them to its successor.
    - Work: Leases (claims.go) is the lease engine; WorkViews, WorkItems, WorkOps and Works
      (work.go, work_role.go, work_verdict.go, work_maintenance.go, checkout_role.go) are the
      items, their operations, retries and due transitions; WorkRequests the decoding of a
      request; WorkNotices (work_notifications.go) tells the audiences of a work event that
      there is one.  A work event is an entry of the repository's memory stream.
    - Memory: MemoryLimits and MemoryExpiry (memory.go) are the limits and the expiry that notes
      and work share; Notes the record of a note; Readers the cursors, snapshots, deltas,
      acknowledgements and recall.
    - Decision board: BoardText, Decisions (decisions.go), Verdicts (decision_verdicts.go,
      decision_record.go), DeepArchive (decision_archive.go) with its log files and its crashes;
      Markdown (markdown.go) renders the text of a card for the dashboard.
    - Library: Library (src/internal/library) is the catalog, its queries and the text of a
      decision; LibraryDecisions (library_decision.go, library_project.go) stores the decision
      of a machine by compared revision, and validates that of a project, a memory note.

    Fixture, CycleFixture, WorkFixture and the [...Cases] files hold the concrete installations
    on which the theorems are applied.

    ** What is proved

    - Storage: every sequence of writes, refusals and recoveries keeps the file and its debt
      below the ceiling (store_stays_funded), so a promised control write commits however full
      the file is (funded_control_commits), and an ordinary write leaves the reserve
      (ordinary_keeps_reserve).
    - Inboxes: unique sequences without a gap from the oldest message left to the last, and
      bounded positions, in any interleaving (inbox_invariant) but for a read mark that outlives
      its inbox (late_mark shows what that does); paging ends and misses nothing
      (paging_complete); a new holder gets the unacknowledged messages again
      (holder_change_redelivers).
    - Retention: a message goes only a whole period after its own session was seen to have
      acknowledged it (acknowledged_waits); a deleted session had nothing left to read or to
      finish, and nothing else goes with it (session_deleted); a sweep that has budget left has
      deleted exactly what was due (sweep_complete).
    - Wakes: a notice reaches the session that reads the inbox and names only messages that are
      due, never into a terminal that a cycle owns (notice_guarded); what an attempt records
      (attempt_recorded); no message has more than four notices, in any interleaving, when the
      two looks of a submission read one millisecond (notices_bounded; fifth_notice shows what
      happens when they do not), and one that had them fails once and is reported (failed_once).
    - Names and succession: a replaced holder is fenced for good (former_holder_fenced), a holder
      is never arbitrary (assignNames_new_holder), a succession needs one of five proofs
      (succeed_evidence, succeed_refuses).
    - Rooms: the bounds and the consistency of rosters, posts and deliveries in any sequence of
      transactions (room_invariant); a post reaches each member once and its retries post nothing
      (room_post_delivers); a page shows every retained post (transcript_complete).
    - Cycles: the credit and event budget of every cycle (cycle_invariant), that its stages and
      its end commit (cycle_writes_commit), that it can end and ends once (cycle_can_end,
      ended_cycle_final), and the guards of each step (advance_spec, end_enable_spec,
      trigger_selects, admission_spec, pickup_spec).
    - Work: exclusive leases and agreement of items, claims, events and reports at every time
      (work_invariant); refinement of a schedule of labelled steps, label by label, to a machine of
      claims and verdicts (work_refines, over WorkSpec); the functional behaviour of a change, a verdict, a retry, an
      acquisition and a parsed request (mutation_spec, verdict_spec, retry_returns,
      acquire_spec, parse_typed).
    - Work notices: the audiences are exactly those that the kept events concern
      (audience_heads_exact); what the transaction over one audience does in every case
      (notice_spec); one notice of an audience waits at a time, in any schedule (one_notice).
    - Memory: the stream invariant over every operation (stream_invariant); that a delta and a
      snapshot page are exact runs (delta_exact, snapshot_page_exact), a snapshot holds the live
      notes up to the tail of their kind (members_exact), an acknowledgement passes only what was
      issued (ack_moves), a note is recorded once and replaces once (note_recorded) and an expiry
      takes all that has expired and nothing else (expiry_complete).
    - Board: refinement of a schedule of labelled transactions, label by label, to abstract cards
      (board_refines); verdicts, edits, pages of pending verdicts, acknowledgements and retries
      (verdict_exact, edit_supersedes, pending_complete, ack_exact, keyed_once); the deep archive
      keeps every card at every crash point, when no delivery of it waits as it is marked
      (archive_lossless, sweep_invariant; late_ack shows a delivery that does), and restores it
      exactly (restore_roundtrip); the dashboard shows nothing of a card's text but the fixed tags
      around its escaped text (markdown_safe).
    - Library: a machine decision is stored once over the revision it was compared with, in
      canonical text (library_compared).

    The invariants are by induction over step relations whose steps are the whole operations
    ([inbox_step], [cycle_step], [work_step], [board_step], [arch_step], [stream_step], ...),
    refusals and failures of the engine included.  Most have a step for the other components: any
    transaction that keeps the tables the invariant reads.

    ** Fuel and bounds

    Recursion is structural but for these loops.  [cull_loop] (RoomPosts) removes expired posts
    in batches and lowers its budget with every full batch: cull_loop_ends proves that the budget
    is enough fuel.  [expire_batches] (MemoryExpiry) takes batches of at most 200 entries and
    stops at a short one: expiry_complete proves that more fuel than entries have expired is
    enough, and the invariants hold for any fuel.  [drain] (Retention) takes batches of marked
    messages: its fuel is its budget, and sweep_complete, which holds of every run, says that it
    never ends for want of it.  [writeInline] and [render_lines] (Markdown) consume a byte or a line in every turn:
    markdown_safe, which accounts for every line of the text, holds at the length that the
    renderer passes as fuel.  The name candidates of Label and the page loops
    of Messages carry the bound that the source has.  The limits ([defaultMemoryLimits],
    [defaultMaxPages], [cycleCreditPages], [MaxTargets], ...) are those of the source; the theorems
    about memory hold for any limits that leave a page room.

    ** Parameters

    Code outside the repository is an argument: SHA-256 (class [Sha256], only the length of a sum
    is assumed), the process table, unicode.IsPrint, the letters and
    digits of Unicode outside ASCII, the shortest text of a float64, the decoding
    of JSON texts (the encodings are written out), SQLite's LIKE, and what the SQLite engine
    answers to a commit or a checkpoint ([Engine]).  The catalog that the binary embeds is an
    argument.  A crash ends the process between two effects; synced bytes stay.

    ** Not modelled

    The cycle controller and the provider adapters (context_cycle_controller.go, cycle_*.go),
    the observations and the wake adapters run terminals and foreign programs and parse their
    files.  The daemon's
    routes, the views of the dashboard, the cleanup commands, the MCP server, the command line, setup, install, upgrade and the
    platform layer are I/O around the operations above.  Migrations of older databases are
    left out. *)

From stdpp Require Export base gmap strings list sorting option fin_maps.
From Stdlib Require Export ZArith Lia.

(** ** Results

    A Go function that returns [(T, error)] returns [Ok] with the value or [Err] with the
    error; the value that Go returns next to a non-nil error is never read by its callers. *)

Inductive result (E A : Type) : Type :=
| Ok (a : A)
| Err (e : E).
Arguments Ok {E A} a.
Arguments Err {E A} e.

#[export] Instance result_eq_dec `{EqDecision E, EqDecision A} : EqDecision (result E A).
Proof. solve_decision. Defined.

(** ** Field update

    [r <| f := v |>] is [r] with the field [f] replaced.  A record type declares its
    eta-expansion once; the updater of each field is derived from it. *)

Class Eta (R : Type) := eta : R → R.
Class Updater {R T : Type} (proj : R → T) := upd : (T → T) → R → R.
Arguments upd {R T} proj {_} g r.

Ltac derive_updater :=
  match goal with
  | |- @Updater ?R ?T ?proj =>
      let h := constr:(fun (upd_fun : T → T) (upd_rec : R) =>
        ltac:(let e := constr:(@eta R _ upd_rec) in
              let e := eval cbv [eta] in e in
              let e := eval red in e in
              match (eval pattern (proj upd_rec) in e) with
              | ?k _ => let b := eval cbv beta in (k (upd_fun (proj upd_rec))) in exact b
              end)) in
      exact h
  end.

#[export] Hint Extern 1 (Updater _) => derive_updater : typeclass_instances.

Declare Scope koinon_scope.
Delimit Scope koinon_scope with koinon.
Notation "r <| f := v |>" := (upd f (λ _, v) r)
  (at level 1, f at level 9, left associativity) : koinon_scope.
Open Scope koinon_scope.
Open Scope Z_scope.


(** ** The state and error monad

    [M S E A] is a computation over a store [S]: it returns a value and the new store, or
    an error.  An error carries no store, because every caller rolls its transaction back. *)

Definition M (S E A : Type) : Type := S → result E (A * S).

Section monad.
Context {S E : Type}.

#[export] Instance M_ret : MRet (M S E) := λ A a s, Ok (a, s).
#[export] Instance M_bind : MBind (M S E) := λ A B k m s,
  match m s with
  | Ok (a, s') => k a s'
  | Err e => Err e
  end.

Definition throw {A} (e : E) : M S E A := λ _, Err e.
Definition gets {A} (f : S → A) : M S E A := λ s, Ok (f s, s).
Definition modify (f : S → S) : M S E unit := λ s, Ok (tt, f s).
(** [ensure b e] goes on when [b] holds and returns [e] otherwise. *)
Definition ensure (b : bool) (e : E) : M S E unit := λ s, if b then Ok (tt, s) else Err e.
(** [row o e] is the row of a query, or [e] when there is none. *)
Definition row {A} (o : option A) (e : E) : M S E A := λ s,
  match o with Some a => Ok (a, s) | None => Err e end.
(** [when b m] runs [m] only when [b] holds. *)
Definition when (b : bool) (m : M S E unit) : M S E unit := if b then m else mret tt.

(** [each l f] runs [f] on every element, in order, and stops at the first error. *)
Fixpoint each {A} (l : list A) (f : A → M S E unit) : M S E unit :=
  match l with
  | [] => mret tt
  | a :: l => f a ≫= λ _, each l f
  end.

Lemma bind_Ok {A B} (m : M S E A) (k : A → M S E B) s r :
  (m ≫= k) s = Ok r ↔ ∃ a s', m s = Ok (a, s') ∧ k a s' = Ok r.
Proof.
  unfold mbind, M_bind. destruct (m s) as [[a s']|e]; [|naive_solver].
  split; [eauto|]. intros (? & ? & [= <- <-] & ?). done.
Qed.

Lemma bind_run {A B} (m : M S E A) (k : A → M S E B) s a s' : m s = Ok (a, s') → (m ≫= k) s = k a s'.
Proof. unfold mbind, M_bind. by intros ->. Qed.

Lemma bind_err {A B} (m : M S E A) (k : A → M S E B) s e : m s = Err e → (m ≫= k) s = Err e.
Proof. unfold mbind, M_bind. by intros ->. Qed.

Lemma ret_Ok {A} (a : A) s r : (mret a : M S E A) s = Ok r ↔ r = (a, s).
Proof. unfold mret, M_ret. naive_solver. Qed.

Lemma gets_Ok {A} (f : S → A) s r : (gets f : M S E A) s = Ok r ↔ r = (f s, s).
Proof. unfold gets. naive_solver. Qed.

Lemma modify_Ok f s r : (modify f : M S E unit) s = Ok r ↔ r = (tt, f s).
Proof. unfold modify. naive_solver. Qed.

Lemma ensure_Ok b e s r : (ensure b e : M S E unit) s = Ok r ↔ b = true ∧ r = (tt, s).
Proof. unfold ensure. destruct b; naive_solver. Qed.

Lemma row_Ok {A} (o : option A) e s r : (row o e : M S E A) s = Ok r ↔ ∃ a, o = Some a ∧ r = (a, s).
Proof. unfold row. destruct o; naive_solver. Qed.

Lemma throw_Ok {A} (e : E) s r : (throw e : M S E A) s = Ok r ↔ False.
Proof. unfold throw. naive_solver. Qed.

(** The store after a run, to evaluate a computation on a concrete store. *)
Definition after {A} (m : M S E A) (s : S) : S := match m s with Ok (_, s') => s' | Err _ => s end.
Definition succeeds {A} (m : M S E A) (s : S) : bool := match m s with Ok _ => true | Err _ => false end.
Lemma run_after {A} (m : M S E A) s : succeeds m s = true → ∃ a, m s = Ok (a, after m s).
Proof. unfold succeeds, after. destruct (m s) as [[a s']|e]; [eauto|done]. Qed.

(** The answer of an operation on a concrete store *)
Lemma answers {B A C} (m : result B A * C) (P : A → bool) : match m with (Ok a, _) => P a | _ => false end = true → ∃ a, m = (Ok a, snd m) ∧ P a = true.
Proof. destruct m as [[a|e] st]; [by exists a|done]. Qed.

(** A relation between stores that every step of a loop keeps is kept by the loop. *)
Lemma each_preserves {A} (R : S → S → Prop) `{!PreOrder R} (f : A → M S E unit) l s s' u :
  (∀ a s s' u, a ∈ l → f a s = Ok (u, s') → R s s') → each l f s = Ok (u, s') → R s s'.
Proof.
  revert s. induction l as [|a l IH]; cbn; intros s Hf.
  - intros [= _ <-]. reflexivity.
  - intros (? & s1 & H1 & H2)%bind_Ok. etrans.
    + eapply Hf; [left|exact H1].
    + eapply IH; [|exact H2]. intros. eapply Hf; [by right|done].
Qed.
End monad.

Create HintDb monad.
#[export] Hint Rewrite @bind_Ok @ret_Ok @gets_Ok @modify_Ok @ensure_Ok @row_Ok @throw_Ok : monad.

(** [run H] takes a successful run [H] apart: one hypothesis for each step, with the
    conditions that the run satisfied.  It stops at a match that needs a case analysis, which
    [run_case H] does. *)
Ltac run_eq H :=
  first [ injection H as ? ?; subst | injection H as ?; subst | idtac ].
Ltac run_step H :=
  cbn beta in H;
  lazymatch type of H with
  | Err _ = Ok _ => discriminate H
  | Ok _ = Ok _ => run_eq H
  | mbind _ _ _ = Ok _ =>
      let a := fresh "a" in let s := fresh "s" in let E := fresh "R" in
      apply bind_Ok in H as (a & s & E & H); try (run_step E)
  | mret _ _ = Ok _ => apply ret_Ok in H; run_eq H
  | gets _ _ = Ok _ => apply gets_Ok in H; run_eq H
  | modify _ _ = Ok _ => apply modify_Ok in H; run_eq H
  | ensure _ _ _ = Ok _ => let E := fresh "G" in apply ensure_Ok in H as [E H]; run_eq H
  | row _ _ _ = Ok _ => let a := fresh "v" in let E := fresh "L" in apply row_Ok in H as (a & E & H); run_eq H
  | throw _ _ = Ok _ => apply throw_Ok in H; destruct H
  end.
Ltac run H := repeat (run_step H).
(** [runs H] also takes the plain steps inside a nested computation apart. *)
Ltac runs H :=
  run H;
  repeat match goal with
  | E : mbind _ _ _ = Ok _ |- _ => run E
  | E : mret _ _ = Ok _ |- _ => run E
  | E : gets _ _ = Ok _ |- _ => run E
  | E : modify _ _ = Ok _ |- _ => run E
  | E : ensure _ _ _ = Ok _ |- _ => run E
  | E : row _ _ _ = Ok _ |- _ => run E
  end.
Ltac run_case H :=
  lazymatch type of H with
  | context [match ?x with _ => _ end] => let E := fresh "C" in destruct x eqn:E
  end; try (run H).

(** ** Labelled schedules

    A schedule of steps with what each one does; a refinement maps it, label by label, to a
    schedule of an abstract machine. *)
Inductive trace_of {A S} (R : A → S → S → Prop) : S → list A → S → Prop :=
| run_nil s : trace_of R s [] s
| run_cons a s s1 l s' : R a s s1 → trace_of R s1 l s' → trace_of R s (a :: l) s'.
Lemma run_simulates {A S T} (R : A → S → S → Prop) (Q : A → T → T → Prop) (I : S → Prop) (f : S → T) s l s' :
  (∀ a s s', R a s s' → I s → I s' ∧ Q a (f s) (f s')) → I s → trace_of R s l s' → I s' ∧ trace_of Q (f s) l (f s').
Proof.
  intros H Hi Hr. induction Hr as [s|a s s1 l s' Ha _ IH]; [by split; [|constructor]|].
  destruct (H _ _ _ Ha Hi) as [Hi1 Hq]. destruct (IH Hi1) as [Hi' Hq']. split; [done|by eapply run_cons].
Qed.
Lemma run_covers {A S} (R : S → S → Prop) (Q : A → S → S → Prop) s s' : (∀ s s', R s s' → ∃ a, Q a s s') → rtc R s s' → ∃ l, trace_of Q s l s'.
Proof. intros H Hr. induction Hr as [s|s s1 s' Hs _ [l IH]]; [exists []; constructor|]. destruct (H _ _ Hs) as [a Ha]. exists (a :: l). by eapply run_cons. Qed.
