(* ===== verification/GoString.v ===== *)
(** * Go strings

    A Go string is a sequence of bytes, here [String.string]; [len] counts bytes.  This file
    defines what the daemon uses of the packages strings, strconv, unicode/utf8,
    encoding/hex and path/filepath (on Unix), with the lemmas about it. *)

From S2P Require Import Prelude.
From stdpp Require Export pretty.
From Stdlib Require Export Ascii.
Open Scope Z_scope.

Abbreviation bytes := (list ascii).
Definition to_bytes (s : string) : bytes := String.list_ascii_of_string s.
Definition of_bytes (b : bytes) : string := String.string_of_list_ascii b.
Definition len (s : string) : Z := Z.of_nat (String.length s).
Definition code (a : ascii) : Z := Z.of_N (N_of_ascii a).
Definition chr (n : Z) : ascii := ascii_of_N (Z.to_N n).

Lemma of_to_bytes s : of_bytes (to_bytes s) = s.
Proof. apply String.string_of_list_ascii_of_string. Qed.
Lemma to_of_bytes b : to_bytes (of_bytes b) = b.
Proof. apply String.list_ascii_of_string_of_list_ascii. Qed.
#[export] Instance to_bytes_inj : Inj (=) (=) to_bytes.
Proof. intros s t H. rewrite <-(of_to_bytes s), <-(of_to_bytes t). by rewrite H. Qed.
Lemma to_bytes_length s : length (to_bytes s) = String.length s.
Proof. unfold to_bytes. induction s as [|a s IH]; cbn; [done|by rewrite IH]. Qed.
Lemma of_bytes_length b : String.length (of_bytes b) = length b.
Proof. unfold of_bytes. induction b as [|a b IH]; cbn; [done|by rewrite IH]. Qed.
Lemma len_to_bytes s : len s = Z.of_nat (length (to_bytes s)).
Proof. unfold len, to_bytes. f_equal. induction s; simpl; congruence. Qed.
Lemma to_bytes_app s t : to_bytes (s +:+ t) = to_bytes s ++ to_bytes t.
Proof. unfold to_bytes. induction s; simpl; [done|congruence]. Qed.

(** ** strings *)

(** strings.HasPrefix *)
Definition has_prefix (s p : string) : bool := String.prefix p s.

Lemma prefix_app s t : String.prefix s (s +:+ t) = true.
Proof. induction s as [|a s IH]; simpl; [by destruct t|]. by destruct (Ascii.ascii_dec a a). Qed.
Lemma prefix_refl s : String.prefix s s = true.
Proof. induction s as [|a s IH]; simpl; [done|]. by destruct (Ascii.ascii_dec a a). Qed.
Lemma prefix_split p s : String.prefix p s = true → ∃ t, s = p +:+ t.
Proof.
  revert s. induction p as [|a p IH]; intros s; [by exists s|]. destruct s as [|b s]; [done|]. simpl.
  destruct (Ascii.ascii_dec a b) as [->|]; [|done]. intros (t & ->)%IH. by exists t.
Qed.

Fixpoint drop_prefix (p s : bytes) : option bytes :=
  match p, s with
  | [], _ => Some s
  | a :: p, b :: s => if Ascii.ascii_dec a b then drop_prefix p s else None
  | _ :: _, [] => None
  end.

(** strings.TrimPrefix and strings.TrimSuffix *)
Definition trim_prefix (s p : string) : string :=
  match drop_prefix (to_bytes p) (to_bytes s) with Some r => of_bytes r | None => s end.
Definition trim_suffix (s p : string) : string :=
  match drop_prefix (reverse (to_bytes p)) (reverse (to_bytes s)) with
  | Some r => of_bytes (reverse r)
  | None => s
  end.

(** strings.ContainsAny, for a set of ASCII characters *)
Definition contains_any (s : string) (chars : list ascii) : bool :=
  existsb (λ a, bool_decide (a ∈ chars)) (to_bytes s).

(** strings.TrimRight and strings.Trim, for one ASCII character *)
Fixpoint drop_while (p : ascii → bool) (b : bytes) : bytes :=
  match b with
  | [] => []
  | a :: b' => if p a then drop_while p b' else b
  end.
Definition trim_right (p : ascii → bool) (b : bytes) : bytes := reverse (drop_while p (reverse b)).
Definition trim (p : ascii → bool) (b : bytes) : bytes := trim_right p (drop_while p b).

Lemma drop_while_suffix p b : ∃ c, b = c ++ drop_while p b ∧ Forall (λ a, p a = true) c.
Proof.
  induction b as [|a b IH]; cbn; [by exists []|]. destruct (p a) eqn:E.
  - destruct IH as (c & Hc & Hf). exists (a :: c). split; [cbn; congruence|by constructor].
  - exists []. by split.
Qed.
Lemma drop_while_head p b a r : drop_while p b = a :: r → p a = false.
Proof. induction b as [|x b IH]; cbn; [done|]. destruct (p x) eqn:E; [done|]. congruence. Qed.
Lemma drop_while_all (P : ascii → Prop) p b : Forall P b → Forall P (drop_while p b).
Proof. intros H. destruct (drop_while_suffix p b) as (c & Hc & _). rewrite Hc in H. by apply Forall_app in H as [_ ?]. Qed.
Lemma drop_while_length p b : (length (drop_while p b) ≤ length b)%nat.
Proof. destruct (drop_while_suffix p b) as (c & Hc & _). rewrite Hc at 2. rewrite length_app. lia. Qed.

Lemma trim_right_prefix p b : ∃ c, b = trim_right p b ++ c ∧ Forall (λ a, p a = true) c.
Proof.
  destruct (drop_while_suffix p (reverse b)) as (c & Hc & Hf). exists (reverse c).
  unfold trim_right. rewrite <-reverse_app, <-Hc, reverse_involutive. split; [done|].
  by apply Forall_reverse.
Qed.
Lemma trim_right_all (P : ascii → Prop) p b : Forall P b → Forall P (trim_right p b).
Proof. intros H. destruct (trim_right_prefix p b) as (c & Hc & _). rewrite Hc in H. by apply Forall_app in H as [? _]. Qed.
Lemma trim_right_length p b : (length (trim_right p b) ≤ length b)%nat.
Proof. destruct (trim_right_prefix p b) as (c & Hc & _). rewrite Hc at 2. rewrite length_app. lia. Qed.
Lemma trim_right_last p b a : last (trim_right p b) = Some a → p a = false.
Proof.
  unfold trim_right. rewrite last_reverse. destruct (drop_while p (reverse b)) as [|x r] eqn:E; [done|].
  cbn. intros [= <-]. by eapply drop_while_head.
Qed.
Lemma trim_right_head p b a : head (trim_right p b) = Some a → head b = Some a.
Proof. intros H. destruct (trim_right_prefix p b) as (c & Hc & _). rewrite Hc. by destruct (trim_right p b). Qed.
Lemma drop_while_head_not p b a : head (drop_while p b) = Some a → p a = false.
Proof. destruct (drop_while p b) eqn:E; [done|]. intros [= <-]. by eapply drop_while_head. Qed.

(** strings.ToLower, up to the letters outside ASCII: the two runes outside ASCII whose lower
    case is an ASCII letter (U+212A, the Kelvin sign, and U+0130) become that letter, the other
    bytes outside ASCII stay outside ASCII. *)
Definition lower_ascii (a : ascii) : ascii :=
  if (65 <=? code a) && (code a <=? 90) then chr (code a + 32) else a.
Fixpoint to_lower (b : bytes) : bytes :=
  match b with
  | [] => []
  | a :: r =>
      match r with
      | [] => [lower_ascii a]
      | a1 :: r1 =>
          if (code a =? 196) && (code a1 =? 176) then "i"%char :: to_lower r1
          else match r1 with
               | [] => lower_ascii a :: to_lower r
               | a2 :: r2 =>
                   if (code a =? 226) && (code a1 =? 132) && (code a2 =? 170) then "k"%char :: to_lower r2
                   else lower_ascii a :: to_lower r
               end
      end
  end.

(** ** strconv and encoding/hex *)

(** strconv.Itoa and strconv.FormatInt in base 10 *)
Definition itoa (n : Z) : string := pretty n.

Definition hex_digit (n : Z) : ascii := if n <? 10 then chr (48 + n) else chr (87 + n).
(** hex.EncodeToString *)
Fixpoint hex_encode (b : bytes) : bytes :=
  match b with
  | [] => []
  | a :: b => hex_digit (code a / 16) :: hex_digit (code a mod 16) :: hex_encode b
  end.
Definition is_hex (a : ascii) : bool :=
  ((48 <=? code a) && (code a <=? 57)) || ((97 <=? code a) && (code a <=? 102)) || ((65 <=? code a) && (code a <=? 70)).

Lemma hex_encode_length b : length (hex_encode b) = (2 * length b)%nat.
Proof. induction b; cbn; lia. Qed.

(** ** unicode/utf8 *)

Definition cont (lo hi : Z) (a : ascii) : bool := (lo <=? code a) && (code a <=? hi).

(** utf8.ValidString: no surrogate, no overlong form, nothing above U+10FFFF. *)
Fixpoint valid_utf8 (b : bytes) : bool :=
  match b with
  | [] => true
  | a :: r =>
      if code a <? 128 then valid_utf8 r
      else match r with
      | [] => false
      | a1 :: r1 =>
          if cont 194 223 a then cont 128 191 a1 && valid_utf8 r1
          else match r1 with
          | [] => false
          | a2 :: r2 =>
              if code a =? 224 then cont 160 191 a1 && cont 128 191 a2 && valid_utf8 r2
              else if code a =? 237 then cont 128 159 a1 && cont 128 191 a2 && valid_utf8 r2
              else if cont 225 239 a then cont 128 191 a1 && cont 128 191 a2 && valid_utf8 r2
              else match r2 with
              | [] => false
              | a3 :: r3 =>
                  if code a =? 240 then cont 144 191 a1 && cont 128 191 a2 && cont 128 191 a3 && valid_utf8 r3
                  else if code a =? 244 then cont 128 143 a1 && cont 128 191 a2 && cont 128 191 a3 && valid_utf8 r3
                  else if cont 241 243 a then cont 128 191 a1 && cont 128 191 a2 && cont 128 191 a3 && valid_utf8 r3
                  else false
              end
          end
      end
  end.
Definition valid_string (s : string) : bool := valid_utf8 (to_bytes s).

(** encoding/json: the text of a string, with the escapes of HTML characters.  The runes
    outside ASCII that need an escape are U+2028 and U+2029; an invalid byte becomes U+FFFD. *)
Definition u00 (a : ascii) : bytes := to_bytes "\u00" ++ hex_encode [a].
Definition json_escape (a : ascii) : bytes :=
  if (code a =? 34) || (code a =? 92) then [chr 92; a]
  else if code a =? 8 then to_bytes "\b"
  else if code a =? 12 then to_bytes "\f"
  else if code a =? 10 then to_bytes "\n"
  else if code a =? 13 then to_bytes "\r"
  else if code a =? 9 then to_bytes "\t"
  else if (code a <? 32) || (code a =? 60) || (code a =? 62) || (code a =? 38) then u00 a
  else [a].
(** The length of the valid rune outside ASCII that [b] starts with, or 0 *)
Definition rune_len (b : bytes) : nat :=
  if negb (valid_utf8 (take 2 b)) then
    if negb (valid_utf8 (take 3 b)) then if negb (valid_utf8 (take 4 b)) then 0 else 4
    else if bool_decide (length (take 3 b) = 3%nat) then 3 else 0
  else if bool_decide (length (take 2 b) = 2%nat) then 2 else 0.
Fixpoint json_body (fuel : nat) (b : bytes) : bytes :=
  match fuel, b with
  | S fuel, a :: r =>
      if code a <? 128 then json_escape a ++ json_body fuel r
      else match rune_len b with
           | O => to_bytes "\ufffd" ++ json_body fuel r
           | n =>
               let rune := take n b in
               let text :=
                 if bool_decide (rune = [chr 226; chr 128; chr 168]) then to_bytes "\u2028"
                 else if bool_decide (rune = [chr 226; chr 128; chr 169]) then to_bytes "\u2029"
                 else rune in
               text ++ json_body fuel (drop n b)
           end
  | _, _ => []
  end.
(** Each step consumes at least one byte, so the length of the string is enough fuel. *)
Definition json_string (s : string) : string :=
  of_bytes (chr 34 :: json_body (String.length s) (to_bytes s) ++ [chr 34]).

(** The JSON of an array, of an object with its fields in order, of a boolean and of a pointer *)
Definition comma_sep (l : list string) : string :=
  match l with [] => "" | x :: l => foldl (λ acc y, acc +:+ "," +:+ y) x l end.
Definition json_array (l : list string) : string := "[" +:+ comma_sep l +:+ "]".
Definition json_object (l : list (string * string)) : string :=
  "{" +:+ comma_sep ((λ kv, json_string kv.1 +:+ ":" +:+ kv.2) <$> l) +:+ "}".
Definition json_bool (b : bool) : string := if b then "true" else "false".
Definition json_or_null {A} (f : A → string) (o : option A) : string := match o with Some x => f x | None => "null" end.

Example json_string_examples :
  json_string "a<b" = of_bytes (chr 34 :: to_bytes "a\u003cb" ++ [chr 34]) ∧
  json_string (of_bytes [chr 34; chr 226; chr 128; chr 168; chr 200; chr 195; chr 169]) =
    of_bytes (chr 34 :: chr 92 :: chr 34 :: to_bytes "\u2028\ufffd" ++ [chr 195; chr 169; chr 34]).
Proof. vm_compute. done. Qed.

(** strconv.Quote.  [is_print] is unicode.IsPrint outside ASCII, a table of the Unicode standard. *)
Definition rune_value (b : bytes) : Z :=
  match code <$> b with
  | [x; y] => (x - 192) * 64 + (y - 128)
  | [x; y; z] => (x - 224) * 4096 + (y - 128) * 64 + (z - 128)
  | [x; y; z; w] => (x - 240) * 262144 + (y - 128) * 4096 + (z - 128) * 64 + (w - 128)
  | _ => 0
  end.
Definition hex_value (width : nat) (n : Z) : bytes :=
  (λ i, hex_digit (n `div` 16 ^ (Z.of_nat (width - 1 - i)) mod 16)) <$> seq 0 width.
Definition quote_ascii (a : ascii) : bytes :=
  if (code a =? 34) || (code a =? 92) then [chr 92; a]
  else if (32 <=? code a) && (code a <? 127) then [a]
  else if code a =? 7 then to_bytes "\a"
  else if code a =? 8 then to_bytes "\b"
  else if code a =? 12 then to_bytes "\f"
  else if code a =? 10 then to_bytes "\n"
  else if code a =? 13 then to_bytes "\r"
  else if code a =? 9 then to_bytes "\t"
  else if code a =? 11 then to_bytes "\v"
  else to_bytes "\x" ++ hex_value 2 (code a).
Definition quote_rune (is_print : Z → bool) (rune : bytes) : bytes :=
  let v := rune_value rune in
  if is_print v then rune
  else if v <? 65536 then to_bytes "\u" ++ hex_value 4 v else to_bytes "\U" ++ hex_value 8 v.
Fixpoint quote_body (is_print : Z → bool) (fuel : nat) (b : bytes) : bytes :=
  match fuel, b with
  | S fuel, a :: r =>
      if code a <? 128 then quote_ascii a ++ quote_body is_print fuel r
      else match rune_len b with
           | O => to_bytes "\x" ++ hex_value 2 (code a) ++ quote_body is_print fuel r
           | n => quote_rune is_print (take n b) ++ quote_body is_print fuel (drop n b)
           end
  | _, _ => []
  end.
Definition strconv_quote (is_print : Z → bool) (s : string) : string :=
  of_bytes (chr 34 :: quote_body is_print (String.length s) (to_bytes s) ++ [chr 34]).

(** *** Runes

    The runes of a string, each invalid byte as U+FFFD; each step consumes at least one byte,
    so the length of the string is enough fuel. *)
Fixpoint runes_of (fuel : nat) (b : bytes) : list Z :=
  match fuel, b with
  | S fuel, a :: r =>
      if code a <? 128 then code a :: runes_of fuel r
      else match rune_len b with
           | O => 65533 :: runes_of fuel r
           | n => rune_value (take n b) :: runes_of fuel (drop n b)
           end
  | _, _ => []
  end.
Definition runes (s : string) : list Z := runes_of (String.length s) (to_bytes s).
(** utf8.RuneCountInString *)
Definition rune_count (s : string) : Z := Z.of_nat (length (runes s)).
(** unicode.IsControl *)
Definition is_control (r : Z) : bool := (r <? 32) || ((127 <=? r) && (r <? 160)).
(** unicode.IsSpace *)
Definition is_unicode_space (r : Z) : bool :=
  ((9 <=? r) && (r <=? 13)) || (r =? 32) || (r =? 133) || (r =? 160) || (r =? 5760) || ((8192 <=? r) && (r <=? 8202)) ||
  (r =? 8232) || (r =? 8233) || (r =? 8239) || (r =? 8287) || (r =? 12288).
(** strings.TrimSpace(s) == "" *)
Definition blank (s : string) : bool := forallb is_unicode_space (runes s).

Example rune_examples :
  runes (of_bytes [chr 65; chr 195; chr 169; chr 226; chr 128; chr 168; chr 200]) = [65; 233; 8232; 65533] ∧ blank (of_bytes [chr 32; chr 194; chr 160]) = true.
Proof. vm_compute. done. Qed.

Example strconv_quote_examples :
  strconv_quote (λ _, true) (of_bytes [chr 34; chr 195; chr 169; chr 200; chr 127]) =
    of_bytes (chr 34 :: chr 92 :: chr 34 :: chr 195 :: chr 169 :: to_bytes "\xc8\x7f" ++ [chr 34]) ∧
  strconv_quote (λ _, false) (of_bytes [chr 226; chr 128; chr 168; chr 10]) = of_bytes (chr 34 :: to_bytes "\u2028\n" ++ [chr 34]).
Proof. vm_compute. done. Qed.

(** ** fmt and strconv with a width *)

Definition digit (n : Z) : ascii := chr (48 + n).
(** The last [w] decimal digits of [n]: fmt's %0[w]d for [0 <= n < 10^w] *)
Fixpoint fixed_digits (w : nat) (n : Z) : bytes :=
  match w with
  | O => []
  | S w => fixed_digits w (n / 10) ++ [digit (n mod 10)]
  end.
(** fmt's %-[w]s, of an ASCII string *)
Definition pad_right (w : nat) (s : string) : string :=
  s +:+ of_bytes (replicate (w - String.length s) (chr 32)).

Definition is_digit (a : ascii) : bool := (48 <=? code a) && (code a <=? 57).
Definition is_lower_hex (a : ascii) : bool := is_digit a || ((97 <=? code a) && (code a <=? 102)).
Definition digits_value (b : bytes) : Z := foldl (λ acc a, acc * 10 + (code a - 48)) 0 b.
(** strconv.ParseInt in base 10 and 64 bits; [None] is an error. *)
Definition parse_int (s : string) : option Z :=
  let '(neg, b) := match to_bytes s with
                   | a :: r => if code a =? 45 then (true, r) else if code a =? 43 then (false, r) else (false, a :: r)
                   | [] => (false, [])
                   end in
  if bool_decide (b = []) || negb (forallb is_digit b) then None
  else let v := if neg : bool then - digits_value b else digits_value b in
       if (-(2 ^ 63) <=? v) && (v <? 2 ^ 63) then Some v else None.

(** strings.Fields, of an ASCII string: [word] is the field that the scan is in, newest byte
    first. *)
Definition is_space (a : ascii) : bool := (code a =? 32) || ((9 <=? code a) && (code a <=? 13)).
Fixpoint fields_go (word : bytes) (b : bytes) : list bytes :=
  match b with
  | [] => match word with [] => [] | _ => [reverse word] end
  | a :: r => if is_space a then match word with [] => fields_go [] r | _ => reverse word :: fields_go [] r end
              else fields_go (a :: word) r
  end.
Definition fields (s : string) : list string := of_bytes <$> fields_go [] (to_bytes s).

(** The fields of two words with one space between them and spaces after them *)
Lemma fields_go_word w word rest : Forall (λ a, is_space a = false) w → fields_go word (w ++ rest) = fields_go (reverse w ++ word) rest.
Proof.
  revert word. induction w as [|a w IH]; intros word Hw; [done|]. inversion_clear Hw as [|? ? Ha Hw'].
  rewrite reverse_cons, <-app_assoc. cbn [app fields_go]. by rewrite Ha, IH.
Qed.
Lemma fields_go_spaces n : fields_go [] (replicate n (chr 32)) = [].
Proof. induction n; [done|]. exact IHn. Qed.
Lemma fields_two w1 w2 n : w1 ≠ [] → w2 ≠ [] → Forall (λ a, is_space a = false) w1 → Forall (λ a, is_space a = false) w2 →
  fields (of_bytes (w1 ++ chr 32 :: w2 ++ replicate n (chr 32))) = [of_bytes w1; of_bytes w2].
Proof.
  intros N1 N2 H1 H2. unfold fields. rewrite to_of_bytes, fields_go_word, app_nil_r by done.
  assert (∀ w (l : list bytes), w ≠ [] → match reverse w with [] => l | _ => reverse (reverse w) :: l end = w :: l) as Hne.
  { intros w l Hw. rewrite reverse_involutive. destruct (reverse w) eqn:E; [|done].
    exfalso. apply Hw. rewrite <-(reverse_involutive w), E. done. }
  cbn [fields_go]. change (is_space (chr 32)) with true. cbn iota. rewrite Hne by done.
  rewrite fields_go_word, app_nil_r by done. destruct n as [|n]; cbn [replicate fields_go].
  - by rewrite Hne.
  - change (is_space (chr 32)) with true. cbn iota. by rewrite Hne, fields_go_spaces.
Qed.

Lemma code_chr n : 0 ≤ n < 256 → code (chr n) = n.
Proof. intros Hn. unfold code, chr. rewrite N_ascii_embedding; lia. Qed.
Lemma fixed_digits_length w n : length (fixed_digits w n) = w.
Proof. revert n. induction w; intros n; [done|]. cbn. rewrite length_app, IHw. cbn. lia. Qed.
Lemma fixed_digits_digit w n : Forall (λ a, is_digit a = true) (fixed_digits w n).
Proof.
  revert n. induction w; intros n; [done|]. cbn. apply Forall_app_2; [done|]. apply Forall_singleton.
  pose proof (Z.mod_pos_bound n 10 ltac:(lia)). unfold is_digit, digit. rewrite code_chr by lia. lia.
Qed.
Lemma digits_value_fixed w n : digits_value (fixed_digits w n) = n mod 10 ^ Z.of_nat w.
Proof.
  revert n. induction w as [|w IH]; intros n; [by rewrite Z.mod_1_r|]. cbn [fixed_digits]. unfold digits_value in *.
  rewrite foldl_app, IH. cbn [foldl]. pose proof (Z.mod_pos_bound n 10 ltac:(lia)). unfold digit. rewrite code_chr by lia.
  rewrite Nat2Z.inj_succ, Z.pow_succ_r by lia. pose proof (Z.pow_pos_nonneg 10 (Z.of_nat w) ltac:(lia) ltac:(lia)).
  rewrite Z.rem_mul_r by lia. lia.
Qed.
Lemma digit_not_space a : is_digit a = true → is_space a = false.
Proof. unfold is_digit, is_space. lia. Qed.
Lemma parse_int_fixed w n : w ≠ 0%nat → 0 ≤ n < 10 ^ Z.of_nat w → n < 2 ^ 63 → parse_int (of_bytes (fixed_digits w n)) = Some n.
Proof.
  intros Hw Hn H63. unfold parse_int. rewrite to_of_bytes. pose proof (fixed_digits_digit w n) as Hd.
  pose proof (digits_value_fixed w n) as Hv. rewrite Z.mod_small in Hv by done. pose proof (fixed_digits_length w n) as Hlen.
  destruct (fixed_digits w n) as [|a r] eqn:E; [cbn in Hlen; lia|].
  pose proof (Forall_inv Hd) as Ha. cbn beta in Ha. unfold is_digit in Ha.
  destruct (Z.eqb_spec (code a) 45); [lia|]. destruct (Z.eqb_spec (code a) 43); [lia|]. cbn iota.
  rewrite bool_decide_eq_false_2 by done. assert (forallb is_digit (a :: r) = true) as ->.
  { apply forallb_forall. intros x Hx%list_elem_of_In. by apply (proj1 (Forall_forall _ _) Hd). }
  cbn [negb orb]. cbv zeta iota. rewrite Hv. assert ((-(2 ^ 63) <=? n) && (n <? 2 ^ 63) = true) as -> by lia. done.
Qed.

(** ** time *)

(** The date of a day, counted from 1970-01-01, in the Gregorian calendar *)
Definition civil (days : Z) : Z * Z * Z :=
  let z := days + 719468 in
  let era := z / 146097 in
  let doe := z - era * 146097 in
  let yoe := (doe - doe / 1460 + doe / 36524 - doe / 146096) / 365 in
  let doy := doe - (365 * yoe + yoe / 4 - yoe / 100) in
  let mp := (5 * doy + 2) / 153 in
  let d := doy - (153 * mp + 2) / 5 + 1 in
  let m := if mp <? 10 then mp + 3 else mp - 9 in
  (yoe + era * 400 + (if m <=? 2 then 1 else 0), m, d).
(** time.UnixMilli(ms).UTC().Format("2006-01-02 15:04:05 UTC"), for the years 0 to 9999 *)
Definition format_utc (ms : Z) : string :=
  let sec := ms / 1000 in
  let '(y, m, d) := civil (sec / 86400) in
  let t := sec mod 86400 in
  let two n := of_bytes (fixed_digits 2 n) in
  of_bytes (fixed_digits 4 y) +:+ "-" +:+ two m +:+ "-" +:+ two d +:+ " " +:+
  two (t / 3600) +:+ ":" +:+ two (t / 60 mod 60) +:+ ":" +:+ two (t mod 60) +:+ " UTC".

Example format_utc_examples : (format_utc 0, format_utc 951827696789, format_utc 4102444799000) =
  ("1970-01-01 00:00:00 UTC", "2000-02-29 12:34:56 UTC", "2099-12-31 23:59:59 UTC")%string.
Proof. vm_compute. done. Qed.

(** ** path/filepath on Unix *)

Definition slash : ascii := "/"%char.
Definition is_slash (a : ascii) : bool := bool_decide (a = slash).

(** [split b] is the list of the elements of [b] between slashes. *)
Fixpoint split (b : bytes) : list bytes :=
  match b with
  | [] => [[]]
  | a :: r =>
      if is_slash a then [] :: split r
      else match split r with
           | e :: es => (a :: e) :: es
           | [] => [[a]]
           end
  end.

Definition dot : bytes := to_bytes ".".
Definition dotdot : bytes := to_bytes "..".

(** [clean_step rooted out e] adds the element [e] to the cleaned elements [out], newest
    first. *)
Definition clean_step (rooted : bool) (out : list bytes) (e : bytes) : list bytes :=
  if bool_decide (e = [] ∨ e = dot) then out
  else if bool_decide (e = dotdot) then
    match out with
    | [] => if rooted then [] else [dotdot]
    | x :: out' => if bool_decide (x = dotdot) then dotdot :: out else out'
    end
  else e :: out.

Fixpoint join (es : list bytes) : bytes :=
  match es with
  | [] => []
  | [e] => e
  | e :: es => e ++ slash :: join es
  end.

(** filepath.Clean *)
Definition clean (b : bytes) : bytes :=
  match b with
  | [] => dot
  | a :: _ =>
      let rooted := is_slash a in
      let out := reverse (foldl (clean_step rooted) [] (split b)) in
      if rooted then slash :: join out
      else match out with [] => dot | _ => join out end
  end.

(** [last_element b] is what follows the last slash of [b]. *)
Definition last_element (b : bytes) : bytes := default [] (last (split b)).

(** filepath.Base *)
Definition base (b : bytes) : bytes :=
  match b with
  | [] => dot
  | _ => match last_element (trim_right is_slash b) with [] => [slash] | e => e end
  end.

(** filepath.Dir: the cleaned path up to and including the last slash *)
Definition dir (b : bytes) : bytes := clean (take (length b - length (last_element b)) b).

Example base_dir_examples :
  (of_bytes (base (to_bytes "/x/repo/.git")), of_bytes (dir (to_bytes "/x/repo/.git")),
   of_bytes (base (to_bytes "/x/y//")), of_bytes (base (to_bytes "/")), of_bytes (base []),
   of_bytes (dir (to_bytes "/a/b/../c/x")), of_bytes (clean (to_bytes "../a/./../../b/"))) =
  (".git", "/x/repo", "y", "/", ".", "/a/c", "../../b")%string.
Proof. vm_compute. reflexivity. Qed.
