(* ===== verification/GoFloat.v ===== *)
(** * Go floats

    A Go float64 is an IEEE 754 binary64 number, here [spec_float] with the precision 53 and
    the exponent bound 1024: the operations that the daemon applies to the seconds of claim
    expiries and post deadlines. *)

From S2P Require Import Prelude.
From Stdlib Require Import Floats.SpecFloat.
Open Scope Z_scope.

Definition float : Type := spec_float.
#[export] Instance float_eq_dec : EqDecision float.
Proof. unfold EqDecision, Decision, float. decide equality; try apply Z.eq_dec; try apply Pos.eq_dec; apply bool_dec. Defined.
Definition prec : Z := 53.
Definition emax : Z := 1024.

(** float64(n) *)
Definition of_int (n : Z) : float := binary_normalize prec emax n 0 false.
Definition fadd (x y : float) : float := SFadd prec emax x y.
Definition fmul (x y : float) : float := SFmul prec emax x y.
Definition fdiv (x y : float) : float := SFdiv prec emax x y.
Definition fltb (x y : float) : bool := SFltb x y.
Definition fleb (x y : float) : bool := SFleb x y.

(** math.IsNaN and math.IsInf *)
Definition is_finite (x : float) : bool := match x with S754_nan | S754_infinity _ => false | _ => true end.

(** int64(x), of a finite float in the range of int64: the truncation toward zero *)
Definition trunc (x : float) : Z :=
  match x with
  | S754_finite neg m e =>
      let v := if 0 <=? e then Z.pos m * 2 ^ e else Z.pos m / 2 ^ (- e) in
      if neg then - v else v
  | _ => 0
  end.
(** max(x, y) and MAX(x, y) of two numbers *)
Definition fmax (x y : float) : float := if fltb x y then y else x.

(** *** Order

    [SFcompare] orders the floats, besides NaN, as extended integers compare
    lexicographically: by sign, exponent and mantissa. *)
Definition rank (x : float) : Z * Z * Z :=
  match x with
  | S754_infinity true => (-2, 0, 0)
  | S754_finite true m e => (-1, - e, - Z.pos m)
  | S754_zero _ => (0, 0, 0)
  | S754_finite false m e => (1, e, Z.pos m)
  | S754_infinity false => (2, 0, 0)
  | S754_nan => (3, 0, 0)
  end.
Definition is_number (x : float) : Prop := x ≠ S754_nan.
Definition below (x y : Z * Z * Z) : Prop :=
  x.1.1 < y.1.1 ∨ x.1.1 = y.1.1 ∧ (x.1.2 < y.1.2 ∨ x.1.2 = y.1.2 ∧ x.2 < y.2).

Lemma compare_rank x y : is_number x → is_number y →
  ∃ c, SFcompare x y = Some c ∧ match c with Lt => below (rank x) (rank y) | Eq => rank x = rank y | Gt => below (rank y) (rank x) end.
Proof.
  unfold is_number, below. intros Hx Hy. destruct x as [sx|sx| |sx mx ex], y as [sy|sy| |sy my ey]; try done; cbn;
    try (eexists; split; [reflexivity|]; destruct sx, sy; cbn; lia || (f_equal; lia) || done);
    try (eexists; split; [reflexivity|]; destruct sx; cbn; lia); try (eexists; split; [reflexivity|]; destruct sy; cbn; lia).
  destruct sx, sy; cbn; (eexists; split; [reflexivity|]); cbn; try lia;
    destruct (Z.compare_spec ex ey); cbn; try lia; change (Pos.compare_cont Eq mx my) with (Pos.compare mx my); destruct (Pos.compare_spec mx my); cbn;
    subst; try done; try lia.
Qed.
Lemma fltb_number x y : fltb x y = true → is_number x ∧ is_number y.
Proof. unfold fltb, SFltb, is_number. destruct x, y; done. Qed.
Lemma fleb_number x y : fleb x y = true → is_number x ∧ is_number y.
Proof. unfold fleb, SFleb, is_number. destruct x, y; done. Qed.
Lemma fltb_below x y : is_number x → is_number y → fltb x y = true ↔ below (rank x) (rank y).
Proof.
  intros Hx Hy. destruct (compare_rank x y Hx Hy) as (c & E & Hc). unfold fltb, SFltb. rewrite E. unfold below in *.
  destruct c; [rewrite Hc| |]; split; try done; intros; lia.
Qed.
Lemma fleb_below x y : is_number x → is_number y → fleb x y = true ↔ ¬ below (rank y) (rank x).
Proof.
  intros Hx Hy. destruct (compare_rank x y Hx Hy) as (c & E & Hc). unfold fleb, SFleb. rewrite E. unfold below in *.
  destruct c; [rewrite Hc| |]; split; try done; intros; lia.
Qed.
(** What is later than a time is later than every time before. *)
Lemma fle_lt_trans x y z : fleb x y = true → fltb y z = true → fltb x z = true.
Proof.
  intros H1 H2. destruct (fleb_number _ _ H1) as [Hx Hy], (fltb_number _ _ H2) as [_ Hz].
  apply fleb_below in H1; [|done..]. apply fltb_below in H2; [|done..]. apply fltb_below; [done..|]. unfold below in *. lia.
Qed.
Lemma fleb_trans x y z : fleb x y = true → fleb y z = true → fleb x z = true.
Proof.
  intros H1 H2. destruct (fleb_number _ _ H1) as [Hx Hy], (fleb_number _ _ H2) as [_ Hz].
  apply fleb_below in H1; [|done..]. apply fleb_below in H2; [|done..]. apply fleb_below; [done..|]. unfold below in *. lia.
Qed.
Lemma fleb_negb x y : is_number x → is_number y → fleb x y = negb (fltb y x).
Proof.
  intros Hx Hy. apply eq_bool_prop_intro. rewrite !Is_true_true, negb_true_iff. rewrite fleb_below by done.
  rewrite <-not_true_iff_false, fltb_below by done. done.
Qed.

Example float_examples :
  fltb (of_int 1) (of_int 2) = true ∧ fleb (fdiv (of_int 1500) (of_int 1000)) (of_int 1) = false ∧
  fadd (fdiv (of_int 1500) (of_int 1000)) (of_int 60) = fdiv (of_int 61500) (of_int 1000) ∧
  trunc (fmul (fdiv (of_int 1999) (of_int 1000)) (of_int 1000)) = 1999 ∧ trunc (fdiv (of_int (-7)) (of_int 2)) = -3.
Proof. vm_compute. done. Qed.
