(* ===== verification/Schema.v ===== *)
(** * The state database

    The tables of internal/core/store.go that the modelled operations read and write, as
    finite maps from their primary keys, and the SQL statements that several components
    share.  A [State] also carries the audit record that the request's context holds
    (internal/core/audit.go) and the latches of selected context crossings (context_policy.go,
    [contextLatches]), which change only when a transaction commits.  Timestamps are Unix milliseconds; the columns that hold JSON
    are kept decoded. *)

From S2P Require Import Prelude GoString GoFloat.
Open Scope Z_scope.

(** ** Keys *)

(** A session's key (messages.go, [Key]). *)
Record Key := mkKey { Family : string; ID : string }.
#[export] Instance Key_eq_dec : EqDecision Key.
Proof. solve_decision. Defined.
#[export] Instance Key_countable : Countable Key.
Proof.
  refine (inj_countable' (λ k, (Family k, ID k)) (λ p, mkKey p.1 p.2) _).
  abstract (by intros []).
Defined.

(** ** Errors *)

(** The details of a refusal of a work operation (claims.go, [WorkRefusal]) *)
Inductive WorkDetails :=
| NoDetails
| HeldBy (work_id consumer : string) (generation : Z) (expires_at : float) (kind key : string)
| CurrentRevision (revision : Z)
| CurrentClaimRevision (revision : Z)
| CurrentReportSeq (seq : option Z)
| RoleState (state : string)
| MovedAt (at_ : Z)
| CurrentDecision (revision : option Z).
#[export] Instance WorkDetails_eq_dec : EqDecision WorkDetails.
Proof. solve_decision. Defined.

(** The errors that the operations return.  [Refusal] is a typed refusal with its code, and
    [WorkRefusal] one of a work operation with its code and details;
    [NoRows] is an unexpected sql.ErrNoRows, [Constraint] a violated constraint of a table, and
    [Declined] the rollback of a function that returns without an error. *)
Inductive error :=
| ErrInvalid | ErrMissing | ErrConflict
| SessionConflict (state : string) (fenced : bool)
| ErrPeerNotFound | ErrAliasUnheld | ErrRecipientInactive | InactiveRecipient (reason : string)
| ErrCallerInactive | ErrAckBeyondLast | ErrMessageNotFound
| Refusal (code : string)
| WorkRefusal (code : string) (details : WorkDetails)
| HolderWait (reason holder : string) (retry_after_ms : Z)
| ErrNoFreeName | ErrCycleEventLimit | ErrPickupPromptWait
| NoRows | Constraint | EngineError | Declined.
#[export] Instance error_eq_dec : EqDecision error.
Proof. solve_decision. Defined.

Definition ErrCapacity := Refusal "capacity".
Definition ErrStorageBlocked := Refusal "storage_blocked".
Definition ErrStaleHolder := Refusal "stale_holder".
Definition ErrNotParticipant := Refusal "not_participant".
Definition ErrHolderNotActive := Refusal "session_not_active".
Definition ErrHolderRevisionChanged := Refusal "revision_changed".
Definition ErrCycleChanged := Refusal "cycle_changed".
Definition ErrCycleNotFound := Refusal "cycle_not_found".
Definition ErrCycleEpoch := Refusal "cycle_epoch_unverified".
Definition ErrCyclePickupNotReady := Refusal "cycle_pickup_not_ready".
Definition ErrCycleReceiptPending := Refusal "cycle_receipt_pending".
Definition ErrContextCycleUnavailable := Refusal "context_cycle_unavailable".
Definition ErrNotLaunched := Refusal "not_launched".
Definition ErrLaunchPending := Refusal "launch_pending".
Definition ErrIdentityUnavailable := Refusal "identity_unavailable".
Definition ErrEnableChanged := Refusal "context_enable_changed".

(** ** Rows *)

(** The fields of the wake_target column that the modelled code decodes. *)

Record WakeTarget := mkWakeTarget {
  wt_launch_id : string;
  wt_host_pid : Z;
  wt_claude_pid : Z;
  wt_dsh_url : string;
  wt_dsh_credentials : string
}.
#[export] Instance WakeTarget_eta : Eta WakeTarget := λ r,
  mkWakeTarget (wt_launch_id r) (wt_host_pid r) (wt_claude_pid r) (wt_dsh_url r) (wt_dsh_credentials r).

(** A session's last succession result (succession.go, [Succession]). *)
Record Succession := mkSuccession {
  suc_Result : string;
  suc_Reason : string;
  suc_Address : string;
  suc_Holder : string;
  suc_At : Z;
  suc_RetryAfterMS : Z
}.
#[export] Instance Succession_eta : Eta Succession := λ r,
  mkSuccession (suc_Result r) (suc_Reason r) (suc_Address r) (suc_Holder r) (suc_At r) (suc_RetryAfterMS r).

(** A row of the table sessions: a native session, the maintainer, or a participant's inbox. *)
Record SessionRow := mkSessionRow {
  s_repository : string;
  s_directory : string;
  s_wake_target : WakeTarget;
  s_registered_at : Z;
  s_renewed_at : Z;
  s_expires_at : Z;
  s_retired_at : Z;
  s_purge_at : Z;
  s_revision : Z;
  s_last_seq : Z;
  s_acked_through : Z;
  s_acked_by : string;
  s_ack_mark : Z;
  s_ack_mark_at : Z;
  s_read_through : Z;
  s_subagent : bool;
  s_role : string;
  s_host_pid : Z;
  s_host_start : Z;
  s_tmux_socket : string;
  s_tmux_pane : string;
  s_tmux_path : string;
  s_succession : option Succession
}.
#[export] Instance SessionRow_eta : Eta SessionRow := λ r,
  mkSessionRow (s_repository r) (s_directory r) (s_wake_target r) (s_registered_at r) (s_renewed_at r) (s_expires_at r) (s_retired_at r) (s_purge_at r) (s_revision r) (s_last_seq r) (s_acked_through r) (s_acked_by r) (s_ack_mark r) (s_ack_mark_at r) (s_read_through r) (s_subagent r) (s_role r) (s_host_pid r) (s_host_start r) (s_tmux_socket r) (s_tmux_pane r) (s_tmux_path r) (s_succession r).

Inductive NameKind := Peer | Alias.
#[export] Instance NameKind_eq_dec : EqDecision NameKind.
Proof. solve_decision. Defined.

(** A row of the table names, a peer name or a participant's address.  [n_conflict] is the
    JSON array of the column conflict, or [[]] for the empty column. *)
Record NameRow := mkNameRow {
  n_kind : NameKind;
  n_family : string;
  n_session_id : string;
  n_repository : string;
  n_holder_id : string;
  n_role : string;
  n_conflict : list string
}.
#[export] Instance NameRow_eta : Eta NameRow := λ r,
  mkNameRow (n_kind r) (n_family r) (n_session_id r) (n_repository r) (n_holder_id r) (n_role r) (n_conflict r).

Inductive DeliveryState := Waiting | Notified | Uncertain | Failed.
#[export] Instance DeliveryState_eq_dec : EqDecision DeliveryState.
Proof. solve_decision. Defined.

(** A row of the table messages. *)
Record MessageRow := mkMessageRow {
  m_recipient : Key;
  m_seq : Z;
  m_sender : Key;
  m_sender_name : string;
  m_body : string;
  m_created_at : Z;
  m_delivery_state : DeliveryState;
  m_delivery_reason : string;
  m_delivery_updated_at : Z;
  m_wake_attempts : Z;
  m_wake_next_at : Z;
  m_wake_reason : string;
  m_wake_notices : Z;
  m_maintainer_ack : bool;
  m_ack_session : string;
  m_ack_via : string;
  m_room_id : string;
  m_room_revision : Z;
  m_room_event : string;
  m_room_seq : Z;
  m_room_origin : string;
  m_system_kind : string;
  m_cycle_id : string;
  m_cycle_enable_revision : Z;
  m_decision_verdict : Z
}.
#[export] Instance MessageRow_eta : Eta MessageRow := λ r,
  mkMessageRow (m_recipient r) (m_seq r) (m_sender r) (m_sender_name r) (m_body r) (m_created_at r) (m_delivery_state r) (m_delivery_reason r) (m_delivery_updated_at r) (m_wake_attempts r) (m_wake_next_at r) (m_wake_reason r) (m_wake_notices r) (m_maintainer_ack r) (m_ack_session r) (m_ack_via r) (m_room_id r) (m_room_revision r) (m_room_event r) (m_room_seq r) (m_room_origin r) (m_system_kind r) (m_cycle_id r) (m_cycle_enable_revision r) (m_decision_verdict r).

(** A row of the table participant_events, without its automatic ID. *)
Record ParticipantEvent := mkParticipantEvent {
  pe_at : Z;
  pe_address : string;
  pe_former : string;
  pe_holder : string;
  pe_reason : string;
  pe_actor : string;
  pe_details : string
}.
#[export] Instance ParticipantEvent_eta : Eta ParticipantEvent := λ r,
  mkParticipantEvent (pe_at r) (pe_address r) (pe_former r) (pe_holder r) (pe_reason r) (pe_actor r) (pe_details r).

(** A row of the table audit, without its automatic ID. *)
Record AuditRow := mkAuditRow {
  au_at : Z;
  au_action : string;
  au_target : string;
  au_result : string;
  au_reason : string
}.
#[export] Instance AuditRow_eta : Eta AuditRow := λ r,
  mkAuditRow (au_at r) (au_action r) (au_target r) (au_result r) (au_reason r).

(** The record of one action that a request's context carries (audit.go, [pendingAudit]). *)
Record PendingAudit := mkPendingAudit {
  pa_action : string;
  pa_target : string;
  pa_origin : string
}.
#[export] Instance PendingAudit_eta : Eta PendingAudit := λ r,
  mkPendingAudit (pa_action r) (pa_target r) (pa_origin r).

(** A row of the table rooms, without the columns that nothing reads. *)
Record RoomRow := mkRoomRow {
  r_name : string;
  r_revision : Z;
  r_post_head : Z;
  r_created_at : Z;
  r_create_key : string
}.
#[export] Instance RoomRow_eta : Eta RoomRow := λ r,
  mkRoomRow (r_name r) (r_revision r) (r_post_head r) (r_created_at r) (r_create_key r).

Record MemberRow := mkMemberRow {
  rm_member : Key;
  rm_label : string;
  rm_active : bool;
  rm_revision : Z;
  rm_start_seq : Z;
  rm_changed_at : Z
}.
#[export] Instance MemberRow_eta : Eta MemberRow := λ r,
  mkMemberRow (rm_member r) (rm_label r) (rm_active r) (rm_revision r) (rm_start_seq r) (rm_changed_at r).

Record PostRow := mkPostRow {
  rp_room_id : string;
  rp_seq : Z;
  rp_sender : Key;
  rp_sender_name : string;
  rp_origin : string;
  rp_body : string;
  rp_created_at : Z
}.
#[export] Instance PostRow_eta : Eta PostRow := λ r,
  mkPostRow (rp_room_id r) (rp_seq r) (rp_sender r) (rp_sender_name r) (rp_origin r) (rp_body r) (rp_created_at r).

Record DeliveryRow := mkDeliveryRow {
  rd_member : Key;
  rd_label : string;
  rd_outcome : string;
  rd_reason : string;
  rd_message_id : option Z
}.
#[export] Instance DeliveryRow_eta : Eta DeliveryRow := λ r,
  mkDeliveryRow (rd_member r) (rd_label r) (rd_outcome r) (rd_reason r) (rd_message_id r).

(** A poster's receipt (room_posts.go, [RoomPostResult]) and its retry record. *)
Record RoomPostResult := mkRoomPostResult {
  rr_RoomID : string;
  rr_Seq : Z;
  rr_Queued : Z;
  rr_Skipped : Z;
  rr_Duplicate : bool
}.
#[export] Instance RoomPostResult_eta : Eta RoomPostResult := λ r,
  mkRoomPostResult (rr_RoomID r) (rr_Seq r) (rr_Queued r) (rr_Skipped r) (rr_Duplicate r).
Record ReplayRow := mkReplayRow {
  ry_fingerprint : string;
  ry_deadline : float;
  ry_result : RoomPostResult
}.
#[export] Instance ReplayRow_eta : Eta ReplayRow := λ r,
  mkReplayRow (ry_fingerprint r) (ry_deadline r) (ry_result r).

(** A row of the table context_cycles (context_cycle.go, [cycleRow]). *)
Record cycleRow := mkCycleRow {
  c_State : string;
  c_PromptFrom : string;
  c_Reason : string;
  c_Peer : string;
  c_Address : string;
  c_Mode : string;
  c_Epoch : string;
  c_Family : string;
  c_SessionID : string;
  c_Socket : string;
  c_Pane : string;
  c_Revision : Z;
  c_HostPID : Z;
  c_HostStart : Z;
  c_EnableRevision : Z;
  c_Threshold : Z;
  c_Used : Z;
  c_Limit : Z;
  c_SourceAt : Z;
  c_ConfirmedAt : Z;
  c_MessageSeq : Z;
  c_CreatedAt : Z;
  c_UpdatedAt : Z;
  c_StageDeadline : Z;
  c_CycleDeadline : Z;
  c_Artifact : string;
  c_ArtifactDev : Z;
  c_ArtifactIno : Z;
  c_ArtifactSize : Z;
  c_ArtifactMtime : Z;
  c_Adapter : string;
  c_CatalogDigest : string;
  c_SuccessorID : string;
  c_SuccessorEpoch : string;
  c_Outcome : string;
  c_Report : string;
  c_Events : Z;
  c_FinishedAt : Z;
  c_Credit : Z;
  c_Held : bool;
  c_AdapterPin : string;
  c_ReadyRefusal : string
}.
#[export] Instance cycleRow_eta : Eta cycleRow := λ r,
  mkCycleRow (c_State r) (c_PromptFrom r) (c_Reason r) (c_Peer r) (c_Address r) (c_Mode r) (c_Epoch r) (c_Family r) (c_SessionID r) (c_Socket r) (c_Pane r) (c_Revision r) (c_HostPID r) (c_HostStart r) (c_EnableRevision r) (c_Threshold r) (c_Used r) (c_Limit r) (c_SourceAt r) (c_ConfirmedAt r) (c_MessageSeq r) (c_CreatedAt r) (c_UpdatedAt r) (c_StageDeadline r) (c_CycleDeadline r) (c_Artifact r) (c_ArtifactDev r) (c_ArtifactIno r) (c_ArtifactSize r) (c_ArtifactMtime r) (c_Adapter r) (c_CatalogDigest r) (c_SuccessorID r) (c_SuccessorEpoch r) (c_Outcome r) (c_Report r) (c_Events r) (c_FinishedAt r) (c_Credit r) (c_Held r) (c_AdapterPin r) (c_ReadyRefusal r).

Record CycleEvent := mkCycleEvent {
  ce_at : Z;
  ce_stage : string;
  ce_result : string;
  ce_reason : string
}.
#[export] Instance CycleEvent_eta : Eta CycleEvent := λ r,
  mkCycleEvent (ce_at r) (ce_stage r) (ce_result r) (ce_reason r).

(** A launch (launch.go, [LaunchTarget]), with the fields that admission reads; the address
    and its credential never leave the launch's row. *)
Record LaunchTarget := mkLaunchTarget {
  lt_HostPID : Z;
  lt_Background : bool;
  lt_JobID : string;
  lt_Role : string;
  lt_SessionID : string
}.
#[export] Instance LaunchTarget_eta : Eta LaunchTarget := λ r,
  mkLaunchTarget (lt_HostPID r) (lt_Background r) (lt_JobID r) (lt_Role r) (lt_SessionID r).
Record LaunchRow := mkLaunchRow {
  la_family : string;
  la_directory : string;
  la_target : LaunchTarget
}.
#[export] Instance LaunchRow_eta : Eta LaunchRow := λ r,
  mkLaunchRow (la_family r) (la_directory r) (la_target r).

(** A refused ready report of a cycle (context_cycle_refusals). *)
Record RefusalRow := mkRefusalRow {
  rf_revision : Z;
  rf_at : Z;
  rf_code : string;
  rf_message : string
}.
#[export] Instance RefusalRow_eta : Eta RefusalRow := λ r,
  mkRefusalRow (rf_revision r) (rf_at r) (rf_code r) (rf_message r).

(** A row of the table context_enables: a session's Enable switch for context cycles. *)
Record EnableRow := mkEnableRow {
  e_enabled : bool;
  e_revision : Z;
  e_session_revision : Z;
  e_address : string;
  e_host_pid : Z;
  e_host_start : Z;
  e_tmux_socket : string;
  e_tmux_pane : string;
  e_updated_at : Z;
  e_threshold : Z;
  e_kept_epoch : string;
  e_kept_revision : Z;
  e_kept_read : bool
}.
#[export] Instance EnableRow_eta : Eta EnableRow := λ r,
  mkEnableRow (e_enabled r) (e_revision r) (e_session_revision r) (e_address r) (e_host_pid r) (e_host_start r) (e_tmux_socket r) (e_tmux_pane r) (e_updated_at r) (e_threshold r) (e_kept_epoch r) (e_kept_revision r) (e_kept_read r).

(** *** Messages' outcomes *)

Inductive OutcomeState := Stored (d : DeliveryState) | Deleted.
#[export] Instance OutcomeState_eq_dec : EqDecision OutcomeState.
Proof. solve_decision. Defined.

(** What became of a message (messages.go, [Outcome]). *)
Record Outcome := mkOutcome {
  o_ID : Z;
  o_Recipient : string;
  o_Seq : Z;
  o_DeliveryState : OutcomeState;
  o_DeliveryReason : string;
  o_WakeReason : string;
  o_Notices : Z;
  o_UpdatedAt : Z;
  o_Acknowledged : bool;
  o_AcknowledgedBy : string;
  o_AcknowledgedSession : string;
  o_AcknowledgedVia : string
}.
#[export] Instance Outcome_eta : Eta Outcome := λ r,
  mkOutcome (o_ID r) (o_Recipient r) (o_Seq r) (o_DeliveryState r) (o_DeliveryReason r) (o_WakeReason r) (o_Notices r) (o_UpdatedAt r) (o_Acknowledged r) (o_AcknowledgedBy r) (o_AcknowledgedSession r) (o_AcknowledgedVia r).
#[export] Instance Outcome_eq_dec : EqDecision Outcome.
Proof. solve_decision. Defined.

(** *** Memory stores (memory.go)

    The times are float64 seconds. *)

(** A row of the table memory_stores, by its repository *)
Record StoreRow := mkStoreRow {
  sto_store_id : string;
  sto_head : Z;
  sto_floor : Z;
  sto_library_floor : Z;
  sto_work_counter : Z;
  sto_claim_counter : Z
}.
#[export] Instance StoreRow_eta : Eta StoreRow := λ r,
  mkStoreRow (sto_store_id r) (sto_head r) (sto_floor r) (sto_library_floor r) (sto_work_counter r) (sto_claim_counter r).

(** A row of the table memory_entries, by its repository and sequence *)
Record EntryRow := mkEntryRow {
  en_ts : float;
  en_type : string;
  en_scope : string;
  en_scope_target : option string;
  en_path : option string;
  en_body : string;
  en_author : option string;
  en_writer_family : string;
  en_writer_name : string;
  en_consumer : string;
  en_revision : Z;
  en_supersedes : option Z;
  en_revokes : option Z;
  en_superseded_by : option Z;
  en_revoked_by : option Z;
  en_conflicts_with : option Z;
  en_expires : option float
}.
#[export] Instance EntryRow_eta : Eta EntryRow := λ r,
  mkEntryRow (en_ts r) (en_type r) (en_scope r) (en_scope_target r) (en_path r) (en_body r) (en_author r) (en_writer_family r) (en_writer_name r) (en_consumer r) (en_revision r) (en_supersedes r) (en_revokes r) (en_superseded_by r) (en_revoked_by r) (en_conflicts_with r) (en_expires r).

(** The retry records, cursors, tombstones and snapshots of the readers *)
Record IdemRow := mkIdemRow {
  id_scheme : string;
  id_fingerprint : string;
  id_seq : Z;
  id_ts : float;
  id_deadline : float
}.
#[export] Instance IdemRow_eta : Eta IdemRow := λ r,
  mkIdemRow (id_scheme r) (id_fingerprint r) (id_seq r) (id_ts r) (id_deadline r).
Record CursorRow := mkCursorRow {
  cu_seq : Z;
  cu_issued : Z;
  cu_snapshot : option string;
  cu_bootstrapped : bool;
  cu_resnapshot : bool;
  cu_updated : float;
  cu_actor : string
}.
#[export] Instance CursorRow_eta : Eta CursorRow := λ r,
  mkCursorRow (cu_seq r) (cu_issued r) (cu_snapshot r) (cu_bootstrapped r) (cu_resnapshot r) (cu_updated r) (cu_actor r).
Record RetiredRow := mkRetiredRow {
  rt_seq : Z;
  rt_at : float
}.
#[export] Instance RetiredRow_eta : Eta RetiredRow := λ r,
  mkRetiredRow (rt_seq r) (rt_at r).
Record SnapshotRow := mkSnapshotRow {
  sn_repository : string;
  sn_consumer : string;
  sn_head : Z;
  sn_created : float;
  sn_items : Z;
  sn_issued : Z;
  sn_acked : bool;
  sn_acked_at : option float
}.
#[export] Instance SnapshotRow_eta : Eta SnapshotRow := λ r,
  mkSnapshotRow (sn_repository r) (sn_consumer r) (sn_head r) (sn_created r) (sn_items r) (sn_issued r) (sn_acked r) (sn_acked_at r).
Record SnapshotItem := mkSnapshotItem {
  si_seq : Z;
  si_payload : string;
  si_bytes : Z
}.
#[export] Instance SnapshotItem_eta : Eta SnapshotItem := λ r,
  mkSnapshotItem (si_seq r) (si_payload r) (si_bytes r).

(** *** Work (work.go, claims.go) *)

(** A routing proposal (work_role.go, [WorkRole]) and its resolution *)
Record WorkRole := mkWorkRole {
  wk_Family : string;
  wk_Role : string
}.
#[export] Instance WorkRole_eta : Eta WorkRole := λ r,
  mkWorkRole (wk_Family r) (wk_Role r).
#[export] Instance WorkRole_eq_dec : EqDecision WorkRole.
Proof. solve_decision. Defined.
Record WorkRoleResolution := mkWorkRoleResolution {
  wx_State : string;
  wx_Address : string;
  wx_Holder : string
}.
#[export] Instance WorkRoleResolution_eta : Eta WorkRoleResolution := λ r,
  mkWorkRoleResolution (wx_State r) (wx_Address r) (wx_Holder r).

(** A claim's resource (claims.go, [claimResource]) *)
Record claimResource := mkResource { Kind : string; ResourceKey : string }.
#[export] Instance claimResource_eq_dec : EqDecision claimResource.
Proof. solve_decision. Defined.

(** A row of the table claim_bundles (claims.go, [heldBundle]), by its store and generation *)
Record BundleRow := mkBundleRow {
  b_work_id : string;
  b_consumer : string;
  b_revision : Z;
  b_issued_at : float;
  b_renewed_at : float;
  b_expires_at : float;
  b_progress_epoch : Z;
  b_overdue_recorded : bool;
  b_active : bool;
  b_overdue_credit : bool;
  b_end_credit : bool;
  b_native_actor : string
}.
#[export] Instance BundleRow_eta : Eta BundleRow := λ r,
  mkBundleRow (b_work_id r) (b_consumer r) (b_revision r) (b_issued_at r) (b_renewed_at r) (b_expires_at r) (b_progress_epoch r) (b_overdue_recorded r) (b_active r) (b_overdue_credit r) (b_end_credit r) (b_native_actor r).

(** The frozen report of a reported event ([workReport]) *)
Record workReport := mkWorkReport {
  wp_Summary : string;
  wp_References : option (list string);
  wp_ScopeRevision : Z;
  wp_ClaimGeneration : Z;
  wp_ParticipantRole : option WorkRole
}.
#[export] Instance workReport_eta : Eta workReport := λ r,
  mkWorkReport (wp_Summary r) (wp_References r) (wp_ScopeRevision r) (wp_ClaimGeneration r) (wp_ParticipantRole r).

(** A work item ([workItem]), which is also the row of the table work_items, by its store and ID;
    [w_report] and [w_evidence] belong to the event that is being written, and a row has none. *)
Record workItem := mkWorkItem {
  w_WorkID : string;
  w_Revision : Z;
  w_Lifecycle : string;
  w_Title : string;
  w_Criteria : string;
  w_NonGoals : string;
  w_ProposedAssignee : option string;
  w_ProposedRole : option WorkRole;
  w_CreatedAt : float;
  w_CreatedConsumer : string;
  w_FirstStartRevision : option Z;
  w_ScopeRevision : Z;
  w_ProgressEpoch : Z;
  w_LastProgressAt : option float;
  w_ProgressDeadline : option float;
  w_Progress : string;
  w_Checkpoint : string;
  w_NextArtifact : string;
  w_Blocker : string;
  w_LastWriter : option string;
  w_LastGeneration : option Z;
  w_LastLeaseExpires : option float;
  w_LeaseExpired : bool;
  w_Outcome : option string;
  w_Reason : string;
  w_References : option (list string);
  w_FinishedAt : option float;
  w_ExpiresAt : option float;
  w_LatestSeq : Z;
  w_ReportSeq : option Z;
  w_ReportConsumer : option string;
  w_Verdict : option string;
  w_VerdictSeq : option Z;
  w_ReportActor : string;
  w_VerdictCredit : bool;
  w_report : option workReport;
  w_evidence : option Z
}.
#[export] Instance workItem_eta : Eta workItem := λ r,
  mkWorkItem (w_WorkID r) (w_Revision r) (w_Lifecycle r) (w_Title r) (w_Criteria r) (w_NonGoals r) (w_ProposedAssignee r) (w_ProposedRole r) (w_CreatedAt r) (w_CreatedConsumer r) (w_FirstStartRevision r) (w_ScopeRevision r) (w_ProgressEpoch r) (w_LastProgressAt r) (w_ProgressDeadline r) (w_Progress r) (w_Checkpoint r) (w_NextArtifact r) (w_Blocker r) (w_LastWriter r) (w_LastGeneration r) (w_LastLeaseExpires r) (w_LeaseExpired r) (w_Outcome r) (w_Reason r) (w_References r) (w_FinishedAt r) (w_ExpiresAt r) (w_LatestSeq r) (w_ReportSeq r) (w_ReportConsumer r) (w_Verdict r) (w_VerdictSeq r) (w_ReportActor r) (w_VerdictCredit r) (w_report r) (w_evidence r).

(** A row of the table work_scope_revisions *)
Record ScopeRow := mkScopeRow {
  sc_ts : float;
  sc_consumer : string;
  sc_author : option string;
  sc_title : string;
  sc_criteria : string;
  sc_non_goals : string
}.
#[export] Instance ScopeRow_eta : Eta ScopeRow := λ r,
  mkScopeRow (sc_ts r) (sc_consumer r) (sc_author r) (sc_title r) (sc_criteria r) (sc_non_goals r).

(** A live claim and a work item as a reader observes them ([workClaimView], [WorkView]) *)
Record workClaimView := mkClaimView {
  wc_Consumer : string;
  wc_Generation : Z;
  wc_Revision : Z;
  wc_ExpiresAt : float;
  wc_Resources : list claimResource;
  wc_Ownership : string
}.
#[export] Instance workClaimView_eta : Eta workClaimView := λ r,
  mkClaimView (wc_Consumer r) (wc_Generation r) (wc_Revision r) (wc_ExpiresAt r) (wc_Resources r) (wc_Ownership r).
Record WorkView := mkWorkView {
  v_item : workItem;
  v_Seq : Z;
  v_ObservedAt : float;
  v_ObservedLeaseExpires : option float;
  v_CurrentClaim : option workClaimView;
  v_LeaseValid : bool;
  v_ProgressOverdue : bool;
  v_ProgressUnverified : bool;
  v_ProgressUnverifiedReasons : list string;
  v_ScopeRevisions : list Z;
  v_CriteriaChangedAfterStart : bool;
  v_RoleResolution : option WorkRoleResolution;
  v_Report : option workReport;
  v_VerdictEvidence : option Z
}.
#[export] Instance WorkView_eta : Eta WorkView := λ r,
  mkWorkView (v_item r) (v_Seq r) (v_ObservedAt r) (v_ObservedLeaseExpires r) (v_CurrentClaim r) (v_LeaseValid r) (v_ProgressOverdue r) (v_ProgressUnverified r) (v_ProgressUnverifiedReasons r) (v_ScopeRevisions r) (v_CriteriaChangedAfterStart r) (v_RoleResolution r) (v_Report r) (v_VerdictEvidence r).

(** A row of the table work_events, by its store and sequence *)
Record WorkEventRow := mkWorkEventRow {
  we_work_id : string;
  we_revision : Z;
  we_kind : string;
  we_payload : WorkView;
  we_actor : string
}.
#[export] Instance WorkEventRow_eta : Eta WorkEventRow := λ r,
  mkWorkEventRow (we_work_id r) (we_revision r) (we_kind r) (we_payload r) (we_actor r).

(** A lease, the result of a work mutation, and its row in the table work_replays *)
Record lease := mkLease {
  le_Generation : Z;
  le_Revision : Z;
  le_ExpiresAt : float
}.
#[export] Instance lease_eta : Eta lease := λ r,
  mkLease (le_Generation r) (le_Revision r) (le_ExpiresAt r).
Record WorkResult := mkWorkResult {
  wr_WorkID : string;
  wr_Revision : Z;
  wr_Seq : option Z;
  wr_Duplicate : bool;
  wr_Claim : option lease;
  wr_Message : option Outcome;
  wr_RoleReleased : bool
}.
#[export] Instance WorkResult_eta : Eta WorkResult := λ r,
  mkWorkResult (wr_WorkID r) (wr_Revision r) (wr_Seq r) (wr_Duplicate r) (wr_Claim r) (wr_Message r) (wr_RoleReleased r).
Record WorkReplayRow := mkWorkReplayRow {
  wq_operation : string;
  wq_scheme : string;
  wq_fingerprint : string;
  wq_seq : option Z;
  wq_ts : float;
  wq_deadline : float;
  wq_result : WorkResult;
  wq_native_actor : string
}.
#[export] Instance WorkReplayRow_eta : Eta WorkReplayRow := λ r,
  mkWorkReplayRow (wq_operation r) (wq_scheme r) (wq_fingerprint r) (wq_seq r) (wq_ts r) (wq_deadline r) (wq_result r) (wq_native_actor r).

(** A row of the table work_audiences *)
Record AudienceRow := mkAudienceRow {
  wa_data : string;
  wa_head : Z;
  wa_notice_head : Z;
  wa_message_id : option Z;
  wa_reason : string
}.
#[export] Instance AudienceRow_eta : Eta AudienceRow := λ r,
  mkAudienceRow (wa_data r) (wa_head r) (wa_notice_head r) (wa_message_id r) (wa_reason r).

(** *** The decision board (decisions.go, decision_verdicts.go) *)

(** A named recipient and its resolution *)
Record DecisionRecipient := mkDecisionRecipient {
  dr_Name : string;
  dr_Kind : string;
  dr_Resolved : bool;
  dr_Reason : string
}.
#[export] Instance DecisionRecipient_eta : Eta DecisionRecipient := λ r,
  mkDecisionRecipient (dr_Name r) (dr_Kind r) (dr_Resolved r) (dr_Reason r).
#[export] Instance DecisionRecipient_eq_dec : EqDecision DecisionRecipient.
Proof. solve_decision. Defined.
(** The text that the maintainer saw when giving a verdict *)
Record DecisionSnapshot := mkDecisionSnapshot {
  ds_Title : string;
  ds_Where : string;
  ds_Context : string;
  ds_Recommendation : string;
  ds_Commands : list string
}.
#[export] Instance DecisionSnapshot_eta : Eta DecisionSnapshot := λ r,
  mkDecisionSnapshot (ds_Title r) (ds_Where r) (ds_Context r) (ds_Recommendation r) (ds_Commands r).
#[export] Instance DecisionSnapshot_eq_dec : EqDecision DecisionSnapshot.
Proof. solve_decision. Defined.
(** One recipient's delivery record of a verdict, and a verdict as a reader sees it *)
Record DecisionDelivery := mkDecisionDelivery {
  dy_Name : string;
  dy_Kind : string;
  dy_Outcome : string;
  dy_Reason : string;
  dy_AcknowledgedAt : Z
}.
#[export] Instance DecisionDelivery_eta : Eta DecisionDelivery := λ r,
  mkDecisionDelivery (dy_Name r) (dy_Kind r) (dy_Outcome r) (dy_Reason r) (dy_AcknowledgedAt r).
#[export] Instance DecisionDelivery_eq_dec : EqDecision DecisionDelivery.
Proof. solve_decision. Defined.
Record DecisionVerdictView := mkDecisionVerdict {
  dv_ID : Z;
  dv_Revision : Z;
  dv_Verdict : string;
  dv_Note : string;
  dv_At : Z;
  dv_SupersededAt : Z;
  dv_Snapshot : DecisionSnapshot;
  dv_Deliveries : list DecisionDelivery;
  dv_Via : string
}.
#[export] Instance DecisionVerdictView_eta : Eta DecisionVerdictView := λ r,
  mkDecisionVerdict (dv_ID r) (dv_Revision r) (dv_Verdict r) (dv_Note r) (dv_At r) (dv_SupersededAt r) (dv_Snapshot r) (dv_Deliveries r) (dv_Via r).
#[export] Instance DecisionVerdictView_eq_dec : EqDecision DecisionVerdictView.
Proof. solve_decision. Defined.
(** An agent withdrawal of an item as a reader sees it *)
Record DecisionWithdrawal := mkDecisionWithdrawal {
  wd_ID : Z;
  wd_Revision : Z;
  wd_By : string;
  wd_Family : string;
  wd_Reason : string;
  wd_At : Z;
  wd_ReopenedAt : Z;
  wd_ReopenedBy : string
}.
#[export] Instance DecisionWithdrawal_eta : Eta DecisionWithdrawal := λ r,
  mkDecisionWithdrawal (wd_ID r) (wd_Revision r) (wd_By r) (wd_Family r) (wd_Reason r) (wd_At r) (wd_ReopenedAt r) (wd_ReopenedBy r).
#[export] Instance DecisionWithdrawal_eq_dec : EqDecision DecisionWithdrawal.
Proof. solve_decision. Defined.
(** The record instruction of a verdict read (decision_record.go) *)
Record DecisionRecord := mkDecisionRecord {
  re_Instruction : string;
  re_Entry : string
}.
#[export] Instance DecisionRecord_eta : Eta DecisionRecord := λ r,
  mkDecisionRecord (re_Instruction r) (re_Entry r).
#[export] Instance DecisionRecord_eq_dec : EqDecision DecisionRecord.
Proof. solve_decision. Defined.
(** The full record of an item *)
Record DecisionItem := mkDecisionItem {
  de_Reference : string;
  de_Order : Z;
  de_Title : string;
  de_Where : string;
  de_AgentText : string;
  de_Context : string;
  de_Recommendation : string;
  de_Kind : string;
  de_State : string;
  de_Revision : Z;
  de_Commands : list string;
  de_HiddenCommands : Z;
  de_Recipients : list DecisionRecipient;
  de_AuthorFamily : string;
  de_AuthorName : string;
  de_AuthorRepository : string;
  de_CreatedAt : Z;
  de_UpdatedAt : Z;
  de_ArchivedAt : Z;
  de_ClosedBy : string;
  de_ClosedAt : Z;
  de_OutcomeNote : string;
  de_Verdict : option DecisionVerdictView;
  de_Verdicts : Z;
  de_Withdrawals : list DecisionWithdrawal;
  de_WithdrawalCount : Z;
  de_Record : option DecisionRecord;
  de_Withdrawn : bool
}.
#[export] Instance DecisionItem_eta : Eta DecisionItem := λ r,
  mkDecisionItem (de_Reference r) (de_Order r) (de_Title r) (de_Where r) (de_AgentText r) (de_Context r) (de_Recommendation r) (de_Kind r) (de_State r) (de_Revision r) (de_Commands r) (de_HiddenCommands r) (de_Recipients r) (de_AuthorFamily r) (de_AuthorName r) (de_AuthorRepository r) (de_CreatedAt r) (de_UpdatedAt r) (de_ArchivedAt r) (de_ClosedBy r) (de_ClosedAt r) (de_OutcomeNote r) (de_Verdict r) (de_Verdicts r) (de_Withdrawals r) (de_WithdrawalCount r) (de_Record r) (de_Withdrawn r).
#[export] Instance DecisionItem_eq_dec : EqDecision DecisionItem.
Proof. solve_decision. Defined.
(** The result of a create, also returned to a retry *)
Record DecisionCreated := mkDecisionCreated {
  dc_Reference : string;
  dc_Revision : Z;
  dc_State : string;
  dc_Recipients : list DecisionRecipient;
  dc_Duplicate : bool
}.
#[export] Instance DecisionCreated_eta : Eta DecisionCreated := λ r,
  mkDecisionCreated (dc_Reference r) (dc_Revision r) (dc_State r) (dc_Recipients r) (dc_Duplicate r).
#[export] Instance DecisionCreated_eq_dec : EqDecision DecisionCreated.
Proof. solve_decision. Defined.

(** A row of the table decision_items, by its ID *)
Record DecisionItemRow := mkDecisionItemRow {
  di_reference : string;
  di_order : Z;
  di_title : string;
  di_location : string;
  di_agent_text : string;
  di_context : string;
  di_recommendation : string;
  di_kind : string;
  di_state : string;
  di_commands : list string;
  di_revision : Z;
  di_author_family : string;
  di_author_name : string;
  di_created_at : Z;
  di_updated_at : Z;
  di_archived_at : Z;
  di_closed_by : string;
  di_closed_at : Z;
  di_outcome_note : string;
  di_mark_revision : Z;
  di_mark_file : string;
  di_mark_offset : Z;
  di_verdict_count : Z;
  di_author_participant : string
}.
#[export] Instance DecisionItemRow_eta : Eta DecisionItemRow := λ r,
  mkDecisionItemRow (di_reference r) (di_order r) (di_title r) (di_location r) (di_agent_text r) (di_context r) (di_recommendation r) (di_kind r) (di_state r) (di_commands r) (di_revision r) (di_author_family r) (di_author_name r) (di_created_at r) (di_updated_at r) (di_archived_at r) (di_closed_by r) (di_closed_at r) (di_outcome_note r) (di_mark_revision r) (di_mark_file r) (di_mark_offset r) (di_verdict_count r) (di_author_participant r).
(** A row of the table decision_verdicts, by its ID *)
Record VerdictRow := mkVerdictRow {
  ve_item_id : Z;
  ve_revision : Z;
  ve_verdict : string;
  ve_note : string;
  ve_created_at : Z;
  ve_snapshot : DecisionSnapshot;
  ve_superseded_at : Z;
  ve_via : string
}.
#[export] Instance VerdictRow_eta : Eta VerdictRow := λ r,
  mkVerdictRow (ve_item_id r) (ve_revision r) (ve_verdict r) (ve_note r) (ve_created_at r) (ve_snapshot r) (ve_superseded_at r) (ve_via r).
(** A row of the table decision_deliveries, by its verdict and ordinal *)
Record VerdictDeliveryRow := mkVerdictDeliveryRow {
  vd_kind : string;
  vd_name : string;
  vd_outcome : string;
  vd_reason : string;
  vd_message_id : Z;
  vd_acknowledged_at : Z
}.
#[export] Instance VerdictDeliveryRow_eta : Eta VerdictDeliveryRow := λ r,
  mkVerdictDeliveryRow (vd_kind r) (vd_name r) (vd_outcome r) (vd_reason r) (vd_message_id r) (vd_acknowledged_at r).
(** A row of the table decision_recipients, by its item and ordinal *)
Record RecipientRow := mkRecipientRow {
  dp_name : string;
  dp_kind : string;
  dp_reason : string
}.
#[export] Instance RecipientRow_eta : Eta RecipientRow := λ r,
  mkRecipientRow (dp_name r) (dp_kind r) (dp_reason r).
(** A row of the table decision_withdrawals, by its ID *)
Record WithdrawalRow := mkWithdrawalRow {
  dw_item_id : Z;
  dw_revision : Z;
  dw_family : string;
  dw_name : string;
  dw_reason : string;
  dw_at : Z;
  dw_reopened_at : Z;
  dw_reopened_by : string
}.
#[export] Instance WithdrawalRow_eta : Eta WithdrawalRow := λ r,
  mkWithdrawalRow (dw_item_id r) (dw_revision r) (dw_family r) (dw_name r) (dw_reason r) (dw_at r) (dw_reopened_at r) (dw_reopened_by r).
(** The stored result of a keyed create, or of a keyed close or withdrawal *)
Inductive DecisionReceipt := CreatedReceipt (c : DecisionCreated) | ItemReceipt (i : DecisionItem).
(** A row of the table decision_replays, by its caller and key *)
Record DecisionReplayRow := mkDecisionReplayRow {
  dq_fingerprint : string;
  dq_deadline : float;
  dq_result : DecisionReceipt
}.
#[export] Instance DecisionReplayRow_eta : Eta DecisionReplayRow := λ r,
  mkDecisionReplayRow (dq_fingerprint r) (dq_deadline r) (dq_result r).
(** A row of the table decision_deep_archive, by its reference *)
Record LocatorRow := mkLocatorRow {
  dl_file : string;
  dl_offset : Z;
  dl_length : Z;
  dl_moved_at : Z
}.
#[export] Instance LocatorRow_eta : Eta LocatorRow := λ r,
  mkLocatorRow (dl_file r) (dl_offset r) (dl_length r) (dl_moved_at r).
(** The tables of the board.  An automatic ID is the next after the last one issued. *)
Record Board := mkBoard {
  decision_items : gmap Z DecisionItemRow;
  decision_items_issued : Z;
  decision_recipients : gmap (Z * Z) RecipientRow;
  decision_verdicts : gmap Z VerdictRow;
  decision_verdicts_issued : Z;
  decision_deliveries : gmap (Z * Z) VerdictDeliveryRow;
  decision_withdrawals : gmap Z WithdrawalRow;
  decision_withdrawals_issued : Z;
  decision_replays : gmap (Key * string) DecisionReplayRow;
  decision_deep_archive : gmap string LocatorRow
}.
#[export] Instance Board_eta : Eta Board := λ r,
  mkBoard (decision_items r) (decision_items_issued r) (decision_recipients r) (decision_verdicts r) (decision_verdicts_issued r) (decision_deliveries r) (decision_withdrawals r) (decision_withdrawals_issued r) (decision_replays r) (decision_deep_archive r).

(** A row of the table library_decisions (library_decision.go), by its family, root digest and item *)
Record LibraryRow := mkLibraryRow {
  lb_revision : Z;
  lb_body : string;
  lb_writer : string;
  lb_updated_at : float
}.
#[export] Instance LibraryRow_eta : Eta LibraryRow := λ r,
  mkLibraryRow (lb_revision r) (lb_body r) (lb_writer r) (lb_updated_at r).

(** ** The state

    A row of the table settings is its value, [None] when it is not an integer, and the time
    of its last change. *)

Record State := mkState {
  sessions : gmap Key SessionRow;
  names : gmap string NameRow;
  messages : gmap Z MessageRow;
  messages_issued : Z;
  fences : gmap (string * Key) (Z * string);
  participant_events : list ParticipantEvent;
  audit : list AuditRow;
  change_versions : gmap string Z;
  rooms : gmap string RoomRow;
  room_members : gmap (string * Z) MemberRow;
  room_posts : gmap Z PostRow;
  room_posts_issued : Z;
  room_deliveries : gmap (Z * Z) DeliveryRow;
  room_replays : gmap (Key * string) ReplayRow;
  cycles : gmap string cycleRow;
  cycle_events : gmap (string * Z) CycleEvent;
  enables : gmap Key EnableRow;
  cycle_refusals : gmap (string * Z) RefusalRow;
  memory_stores : gmap string StoreRow;
  memory_entries : gmap (string * Z) EntryRow;
  memory_idem : gmap (string * string * string) IdemRow;
  memory_cursors : gmap (string * string) CursorRow;
  memory_retired : gmap (string * string) RetiredRow;
  memory_snapshots : gmap string SnapshotRow;
  memory_snapshot_items : gmap (string * Z) SnapshotItem;
  work_items : gmap (string * string) workItem;
  work_scope_revisions : gmap (string * string * Z) ScopeRow;
  claim_bundles : gmap (string * Z) BundleRow;
  claim_resources : gmap (string * Z * Z) claimResource;
  work_events : gmap (string * Z) WorkEventRow;
  work_replays : gmap (string * string * string) WorkReplayRow;
  work_audiences : gmap (string * string) AudienceRow;
  settings : gmap string (option Z * Z);
  latches : gmap Key string;
  launches : gmap string LaunchRow;
  board : Board;
  library_decisions : gmap (string * string * string) LibraryRow;
  pending : option PendingAudit
}.
#[export] Instance State_eta : Eta State := λ r,
  mkState (sessions r) (names r) (messages r) (messages_issued r) (fences r) (participant_events r) (audit r) (change_versions r) (rooms r) (room_members r) (room_posts r) (room_posts_issued r) (room_deliveries r) (room_replays r) (cycles r) (cycle_events r) (enables r) (cycle_refusals r) (memory_stores r) (memory_entries r) (memory_idem r) (memory_cursors r) (memory_retired r) (memory_snapshots r) (memory_snapshot_items r) (work_items r) (work_scope_revisions r) (claim_bundles r) (claim_resources r) (work_events r) (work_replays r) (work_audiences r) (settings r) (latches r) (launches r) (board r) (library_decisions r) (pending r).

(** A new database (store.go): the built-in maintainer session with its name, and the counters
    of the maintainer's topics. *)
Definition maintainer_row : SessionRow :=
  mkSessionRow "" "" (mkWakeTarget "" 0 0 "" "") 0 0 9007199254740991 0 0 1 0 0 "" 0 0 0 false "" 0 0 "" "" "" None.
Definition fresh_state : State :=
  mkState {[mkKey "maintainer" "maintainer" := maintainer_row]}
    {["maintainer"%string := mkNameRow Peer "maintainer" "maintainer" "" "" "" []]}
    ∅ 0 ∅ [] [] (<["inbox"%string := 1]> {["decisions"%string := 1]}) ∅ ∅ ∅ 0 ∅ ∅ ∅ ∅ ∅ ∅ ∅ ∅ ∅ ∅ ∅ ∅ ∅ ∅ ∅ ∅ ∅ ∅ ∅ ∅ ∅ ∅ ∅ (mkBoard ∅ 0 ∅ ∅ 0 ∅ ∅ 0 ∅ ∅) ∅ None.
