(* ===== verification/Sql.v ===== *)
(** * Statements on the state database

    The forms of SQL statement that the daemon runs, over the tables of Schema: a SELECT is a
    filter of a finite map, an UPDATE with a WHERE clause changes the selected rows in place,
    an INSERT fails on a violated key.  An operation is a computation [tx A] over the state;
    an error rolls its transaction back, so it carries no state. *)

From S2P Require Import Prelude GoString Schema.
Open Scope Z_scope.

Abbreviation tx := (M State error).

(** ** Generic statements *)

Section statements.
Context {K V : Type} `{Countable K}.
Implicit Types (m : gmap K V) (P : K → V → bool).

(** [SELECT ... WHERE P], in no particular order *)
Definition select P m : list (K * V) := filter (λ kv, P kv.1 kv.2 = true) (map_to_list m).
(** [SELECT EXISTS (... WHERE P)] *)
Definition exists_where P m : bool := existsb (λ kv, P kv.1 kv.2) (map_to_list m).
(** [SELECT COUNT] of the rows with [P] *)
Definition count_where P m : Z := Z.of_nat (length (select P m)).
(** [UPDATE ... SET f WHERE P] *)
Definition update_where P (f : V → V) m : gmap K V := map_imap (λ k v, Some (if P k v then f v else v)) m.
(** [SELECT SUM] of [f] over the rows with [P] *)
Definition sum_where P (f : K → V → Z) m : Z := foldr (λ kv acc, f kv.1 kv.2 + acc) 0 (select P m).
(** [SELECT SUM] of [f] *)
Definition sum_of (f : V → Z) m : Z := map_fold (λ _ v acc, f v + acc) 0 m.

Lemma elem_of_select P m k v : (k, v) ∈ select P m ↔ m !! k = Some v ∧ P k v = true.
Proof. unfold select. rewrite list_elem_of_filter, elem_of_map_to_list. cbn. tauto. Qed.

Lemma exists_where_true P m : exists_where P m = true ↔ ∃ k v, m !! k = Some v ∧ P k v = true.
Proof.
  unfold exists_where. rewrite existsb_exists. split.
  - intros ([k v] & Hin%list_elem_of_In%elem_of_map_to_list & HP). eauto.
  - intros (k & v & Hl & HP). exists (k, v). split; [|done].
    by apply list_elem_of_In, elem_of_map_to_list.
Qed.

Lemma exists_where_false P m : exists_where P m = false ↔ ∀ k v, m !! k = Some v → P k v = false.
Proof.
  split.
  - intros He k v Hl. destruct (P k v) eqn:E; [|done].
    assert (exists_where P m = true) by (apply exists_where_true; eauto). congruence.
  - intros Ha. destruct (exists_where P m) eqn:E; [|done].
    apply exists_where_true in E as (k & v & Hl & HP). rewrite (Ha k v Hl) in HP. done.
Qed.

Lemma lookup_update_where P f m k :
  update_where P f m !! k = (λ v, if P k v then f v else v) <$> m !! k.
Proof. unfold update_where. rewrite map_lookup_imap. by destruct (m !! k). Qed.

Lemma lookup_update_where_Some P f m k v' :
  update_where P f m !! k = Some v' ↔ ∃ v, m !! k = Some v ∧ v' = if P k v then f v else v.
Proof. rewrite lookup_update_where, fmap_Some. naive_solver. Qed.

Lemma update_where_none P f m : (∀ k v, m !! k = Some v → P k v = false) → update_where P f m = m.
Proof.
  intros HP. apply map_eq. intros k. rewrite lookup_update_where. destruct (m !! k) as [v|] eqn:E; cbn; [|done].
  by rewrite HP.
Qed.
End statements.

(** *** Counts of rows *)

Lemma count_where_nonneg {K V} `{Countable K} (P : K → V → bool) (m : gmap K V) : 0 ≤ count_where P m.
Proof. unfold count_where. lia. Qed.
Lemma count_where_fresh {K V} `{Countable K} (P : K → V → bool) (m : gmap K V) k v : m !! k = None →
  count_where P (<[k:=v]> m) = (if P k v then 1 else 0) + count_where P m.
Proof.
  intros Hk. unfold count_where, select. rewrite map_to_list_insert by done. cbn [filter].
  rewrite filter_cons. cbn. destruct (P k v); [rewrite decide_True by done|rewrite decide_False by done]; cbn [length]; lia.
Qed.
Lemma count_where_delete {K V} `{Countable K} (P : K → V → bool) (m : gmap K V) k v : m !! k = Some v →
  count_where P m = (if P k v then 1 else 0) + count_where P (delete k m).
Proof. intros Hk. rewrite <-(count_where_fresh P (delete k m) k v) by apply lookup_delete_eq. by rewrite insert_delete_id. Qed.
Lemma count_where_change {K V} `{Countable K} (P : K → V → bool) (m : gmap K V) k v (f : V → V) : m !! k = Some v →
  count_where P (alter f k m) = count_where P m - (if P k v then 1 else 0) + (if P k (f v) then 1 else 0).
Proof.
  intros Hk. rewrite (count_where_delete P m k v Hk), (count_where_delete P (alter f k m) k (f v)) by (by rewrite lookup_alter_eq, Hk).
  rewrite delete_alter_eq. lia.
Qed.
Lemma count_where_ext {K V} `{Countable K} (P Q : K → V → bool) (m : gmap K V) : (∀ k v, m !! k = Some v → P k v = Q k v) →
  count_where P m = count_where Q m.
Proof.
  intros HPQ. induction m as [|k v m Hk Hf IH] using map_first_key_ind; [done|]. rewrite !count_where_fresh by done.
  rewrite (HPQ k v) by apply lookup_insert_eq. rewrite IH; [done|]. intros k' v' Hl. apply HPQ.
  rewrite lookup_insert_ne; [done|]. intros ->. congruence.
Qed.

(** A check of every row of a concrete table *)
Lemma all_rows {K V} `{Countable K} (P : K → V → bool) (m : gmap K V) :
  forallb (λ kv, P kv.1 kv.2) (map_to_list m) = true → ∀ k v, m !! k = Some v → P k v = true.
Proof. rewrite forallb_forall. intros H0 k v Hl%elem_of_map_to_list%list_elem_of_In. exact (H0 (k, v) Hl). Qed.

(** The head of a selection: the row of a query that expects at most one. *)
Definition first_key {K V} `{Countable K} (P : K → V → bool) (m : gmap K V) : option K := fst <$> head (select P m).

Lemma first_key_Some {K V} `{Countable K} (P : K → V → bool) (m : gmap K V) k :
  first_key P m = Some k → ∃ v, m !! k = Some v ∧ P k v = true.
Proof.
  unfold first_key. intros ([k' v] & E & ->)%fmap_Some. exists v. apply elem_of_select.
  destruct (select P m); [done|]. injection E as ->. left.
Qed.

Lemma first_key_None {K V} `{Countable K} (P : K → V → bool) (m : gmap K V) :
  first_key P m = None → ∀ k v, m !! k = Some v → P k v = false.
Proof.
  unfold first_key. intros E k v Hl. destruct (P k v) eqn:HP; [|done].
  assert ((k, v) ∈ select P m) as Hin by by apply elem_of_select.
  destruct (select P m); [by apply elem_of_nil in Hin|done].
Qed.

(** [ORDER BY] an integer column *)
Definition by_Z {A} (f : A → Z) (x y : A) : Prop := f x ≤ f y.
#[export] Instance by_Z_dec {A} (f : A → Z) : RelDecision (by_Z f).
Proof. intros x y. unfold by_Z. apply _. Defined.
#[export] Instance by_Z_total {A} (f : A → Z) : Total (by_Z f).
Proof. intros x y. unfold by_Z. lia. Qed.
#[export] Instance by_Z_trans {A} (f : A → Z) : Transitive (by_Z f).
Proof. intros x y z. unfold by_Z. lia. Qed.
Definition order_by {A} (f : A → Z) (l : list A) : list A := merge_sort (by_Z f) l.

Lemma elem_of_order_by {A} (f : A → Z) l x : x ∈ order_by f l ↔ x ∈ l.
Proof. unfold order_by. by rewrite merge_sort_Permutation. Qed.
Lemma length_order_by {A} (f : A → Z) (l : list A) : length (order_by f l) = length l.
Proof. unfold order_by. by rewrite merge_sort_Permutation. Qed.
Lemma order_by_sorted {A} (f : A → Z) l : StronglySorted (by_Z f) (order_by f l).
Proof. apply StronglySorted_merge_sort; apply _. Qed.

(** [ORDER BY] a text column, in SQLite's binary collation *)
Definition by_string {A} (f : A → string) (x y : A) : Prop := String.leb (f x) (f y) = true.
#[export] Instance by_string_dec {A} (f : A → string) : RelDecision (by_string f).
Proof. intros x y. unfold by_string. apply _. Defined.
Definition order_by_name {A} (f : A → string) (l : list A) : list A := merge_sort (by_string f) l.

Lemma elem_of_order_by_name {A} (f : A → string) l x : x ∈ order_by_name f l ↔ x ∈ l.
Proof. unfold order_by_name. by rewrite merge_sort_Permutation. Qed.
Lemma length_order_by_name {A} (f : A → string) (l : list A) : length (order_by_name f l) = length l.
Proof. unfold order_by_name. by rewrite merge_sort_Permutation. Qed.

(** *** Sums *)

Lemma sum_of_insert {K V} `{Countable K} (f : V → Z) k v (m : gmap K V) : m !! k = None → sum_of f (<[k := v]> m) = f v + sum_of f m.
Proof. intros Hn. unfold sum_of. apply (map_fold_insert_L (λ (_ : K) v acc, f v + acc)); [intros; lia|done]. Qed.
Lemma sum_of_change {K V} `{Countable K} (f : V → Z) (m : gmap K V) k v :
  sum_of f (<[k:=v]> m) = sum_of f m - from_option f 0 (m !! k) + f v.
Proof.
  destruct (m !! k) as [w|] eqn:E; cbn; [|rewrite sum_of_insert by done; lia].
  rewrite <-(insert_delete_id m k w E) at 2. rewrite <-insert_delete_eq. rewrite !sum_of_insert by apply lookup_delete_eq. lia.
Qed.

(** ** Conditions *)

Definition seqb (a b : string) : bool := bool_decide (a = b).
Definition keqb (a b : Key) : bool := bool_decide (a = b).
Lemma seqb_true a b : seqb a b = true ↔ a = b.
Proof. apply bool_decide_eq_true. Qed.
Lemma seqb_false a b : seqb a b = false ↔ a ≠ b.
Proof. apply bool_decide_eq_false. Qed.
Lemma keqb_true a b : keqb a b = true ↔ a = b.
Proof. apply bool_decide_eq_true. Qed.
Lemma keqb_false a b : keqb a b = false ↔ a ≠ b.
Proof. apply bool_decide_eq_false. Qed.

(** [retired_at=0 AND expires_at>now] *)
Definition active_row (now : Z) (r : SessionRow) : bool := (s_retired_at r =? 0) && (now <? s_expires_at r).

(** ** Shared statements *)

(** [UPDATE sessions SET f WHERE family=? AND id=?] *)
Definition update_session (k : Key) (f : SessionRow → SessionRow) : tx unit :=
  modify (λ s, s <| sessions := alter f k (sessions s) |>).

(** [UPDATE sessions SET last_seq=last_seq+1 ... RETURNING last_seq], of an active row *)
Definition take_seq (k : Key) (now : Z) : tx (option Z) := λ s,
  match sessions s !! k with
  | Some r =>
      if active_row now r then
        Ok (Some (s_last_seq r + 1),
            s <| sessions := <[k := r <| s_last_seq := s_last_seq r + 1 |> ]> (sessions s) |>)
      else Ok (None, s)
  | None => Ok (None, s)
  end.

(** [INSERT INTO messages]: the row gets the next automatic ID; the recipient and the
    sequence are unique together. *)
Definition insert_message (m : MessageRow) : tx Z := λ s,
  if exists_where (λ _ m', keqb (m_recipient m') (m_recipient m) && (m_seq m' =? m_seq m)) (messages s)
  then Err Constraint
  else let id := messages_issued s + 1 in
       Ok (id, s <| messages := <[id := m]> (messages s) |> <| messages_issued := id |>).

(** [INSERT INTO names]: the name is unique, and so is the key of its partial index. *)
Definition name_clash (n : NameRow) (n' : NameRow) : bool :=
  bool_decide (n_kind n' = n_kind n) && seqb (n_family n') (n_family n) &&
  match n_kind n with
  | Peer => seqb (n_session_id n') (n_session_id n)
  | Alias => seqb (n_repository n') (n_repository n) && seqb (n_role n') (n_role n)
  end.
Definition insert_name (name : string) (n : NameRow) : tx unit := λ s,
  if bool_decide (is_Some (names s !! name)) || exists_where (λ _ n', name_clash n n') (names s)
  then Err Constraint
  else Ok (tt, s <| names := <[name := n]> (names s) |>).

Definition insert_audit (a : AuditRow) : tx unit := modify (λ s, s <| audit := audit s ++ [a] |>).

(** maintainer_changes.go, [bumpChange] *)
Definition changeInbox : string := "inbox".
Definition changeDecisions : string := "decisions".
Definition bumpChange (topic : string) : tx unit :=
  modify (λ s, s <| change_versions := alter (λ v, v + 1) topic (change_versions s) |>).

(** audit.go, [setAuditTarget] *)
Definition setAuditTarget (target : string) : tx unit :=
  modify (λ s, s <| pending := (λ p, p <| pa_target := target |>) <$> pending s |>).

Lemma take_seq_Ok k now s o s' :
  take_seq k now s = Ok (o, s') ↔
  (∃ r, sessions s !! k = Some r ∧ active_row now r = true ∧ o = Some (s_last_seq r + 1) ∧
        s' = s <| sessions := <[k := r <| s_last_seq := s_last_seq r + 1 |> ]> (sessions s) |>) ∨
  (o = None ∧ s' = s ∧ ∀ r, sessions s !! k = Some r → active_row now r = false).
Proof.
  unfold take_seq. destruct (sessions s !! k) as [r|]; [destruct (active_row now r) eqn:E|]; split; intros Hx.
  - injection Hx as <- <-. left. eauto.
  - destruct Hx as [(r' & [= <-] & ? & -> & ->)|(_ & _ & Hr)]; [done|]. by rewrite Hr in E.
  - injection Hx as <- <-. right. naive_solver.
  - destruct Hx as [(r' & [= <-] & ? & -> & ->)|(-> & -> & _)]; congruence.
  - injection Hx as <- <-. right. naive_solver.
  - destruct Hx as [(r' & ? & _)|(-> & -> & _)]; congruence.
Qed.

Lemma insert_message_Ok m s id s' :
  insert_message m s = Ok (id, s') ↔
  id = messages_issued s + 1 ∧
  s' = s <| messages := <[id := m]> (messages s) |> <| messages_issued := id |> ∧
  ∀ i m', messages s !! i = Some m' → m_recipient m' = m_recipient m → m_seq m' ≠ m_seq m.
Proof.
  unfold insert_message. destruct (exists_where _ _) eqn:E; split.
  - done.
  - intros (_ & _ & Hu). apply exists_where_true in E as (i & m' & Hl & HP).
    apply andb_true_iff in HP as [Hk%keqb_true Hs%Z.eqb_eq]. by destruct (Hu i m' Hl Hk).
  - intros [= <- <-]. split_and!; [done..|]. intros i m' Hl Hk Hs.
    pose proof (proj1 (exists_where_false _ _) E i m' Hl) as HP. cbn in HP.
    apply andb_false_iff in HP as [HP%keqb_false|HP%Z.eqb_neq]; done.
  - by intros (-> & -> & _).
Qed.

Lemma insert_name_Ok name n s u s' :
  insert_name name n s = Ok (u, s') ↔
  s' = s <| names := <[name := n]> (names s) |> ∧ names s !! name = None ∧
  ∀ k n', names s !! k = Some n' → name_clash n n' = false.
Proof.
  unfold insert_name. destruct u. destruct (bool_decide _ || _) eqn:E; split.
  - done.
  - intros (_ & Hn & Hc). apply orb_true_iff in E as [E%bool_decide_eq_true|E].
    + rewrite Hn in E. by destruct E.
    + apply exists_where_true in E as (k & n' & Hl & HP). by rewrite (Hc k n' Hl) in HP.
  - intros [= <-]. apply orb_false_iff in E as [E%bool_decide_eq_false E2].
    split_and!; [done|by apply eq_None_not_Some|]. by apply exists_where_false.
  - by intros (-> & _ & _).
Qed.

(** ** Frames

    [Keeps f m]: a successful run of [m] leaves the part [f] of the state as it was.  The
    instances follow the structure of a computation; [keeps] closes such a goal for a
    computation whose steps change other tables. *)

Class Keeps {A B} (f : State → B) (m : tx A) : Prop := keeps_run s a s' : m s = Ok (a, s') → f s' = f s.

Section keeps.
Context {B : Type} (f : State → B).

Lemma keeps_ret {A} (a : A) : Keeps f (mret a).
Proof. intros s x s' H. by run H. Qed.
Lemma keeps_gets {A} (g : State → A) : Keeps f (gets g).
Proof. intros s x s' H. by run H. Qed.
Lemma keeps_ensure b e : Keeps f (ensure b e).
Proof. intros s x s' H. by run H. Qed.
Lemma keeps_row {A} (o : option A) e : Keeps f (row o e).
Proof. intros s x s' H. by run H. Qed.
Lemma keeps_throw {A} e : Keeps f (throw e : tx A).
Proof. intros s x s' H. by run H. Qed.
Lemma keeps_modify g : (∀ s, f (g s) = f s) → Keeps f (modify g).
Proof. intros Hg s x s' H. run H. apply Hg. Qed.
Lemma keeps_bind {A C} (m : tx A) (k : A → tx C) : Keeps f m → (∀ a, Keeps f (k a)) → Keeps f (m ≫= k).
Proof. intros Hm Hk s x s' H. run H. rewrite (Hk _ _ _ _ H). eauto. Qed.
Lemma keeps_when b m : Keeps f m → Keeps f (when b m).
Proof. intros Hm. unfold when. destruct b; [done|apply keeps_ret]. Qed.
Lemma keeps_each {A} (l : list A) g : (∀ a, Keeps f (g a)) → Keeps f (each l g).
Proof. intros Hg. induction l; cbn; [apply keeps_ret|]. by apply keeps_bind. Qed.
Lemma keeps_take_seq k now : (∀ s g, f (upd sessions g s) = f s) → Keeps f (take_seq k now).
Proof. intros Hf s x s' [(r & _ & _ & _ & ->)|(_ & -> & _)]%take_seq_Ok; [apply Hf|done]. Qed.
Lemma keeps_insert_message m :
  (∀ s g i, f (s <| messages := g |> <| messages_issued := i |>) = f s) → Keeps f (insert_message m).
Proof. intros Hf s x s' (_ & -> & _)%insert_message_Ok. apply Hf. Qed.
Lemma keeps_insert_name name n : (∀ s g, f (s <| names := g |>) = f s) → Keeps f (insert_name name n).
Proof. intros Hf s x s' (-> & _)%insert_name_Ok. apply Hf. Qed.
End keeps.

Create HintDb frame.
#[export] Hint Resolve keeps_ret keeps_gets keeps_ensure keeps_row keeps_throw : frame.

Ltac keeps_step :=
  lazymatch goal with
  | |- ∀ _, _ => intro
  | |- Keeps _ (mbind _ _) => apply keeps_bind
  | |- Keeps _ (when _ _) => apply keeps_when
  | |- Keeps _ (each _ _) => apply keeps_each
  | |- Keeps _ (modify _) => apply keeps_modify; intros; repeat case_match; reflexivity
  | |- Keeps _ (take_seq _ _) => apply keeps_take_seq; intros; reflexivity
  | |- Keeps _ (insert_message _) => apply keeps_insert_message; intros; reflexivity
  | |- Keeps _ (insert_name _ _) => apply keeps_insert_name; intros; reflexivity
  | |- Keeps _ (match _ with _ => _ end) => case_match
  | |- Keeps _ (update_session _ _) => unfold update_session
  | |- Keeps _ (insert_audit _) => unfold insert_audit
  | |- Keeps _ (bumpChange _) => unfold bumpChange
  | |- Keeps _ (setAuditTarget _) => unfold setAuditTarget
  end.
Ltac keeps := repeat first [ solve [eauto 2 with frame] | keeps_step ].

(** ** Invariants *)

(** [Maintains I m]: a successful run of [m] takes a state with [I] to a state with [I]. *)
Class Maintains {A} (I : State → Prop) (m : tx A) : Prop := maintains_run s a s' : I s → m s = Ok (a, s') → I s'.

Section maintains.
Context (I : State → Prop).

Lemma maintains_bind {A C} (m : tx A) (k : A → tx C) : Maintains I m → (∀ a, Maintains I (k a)) → Maintains I (m ≫= k).
Proof. intros Hm Hk s x s' Hs H. run H. exact (Hk _ _ _ _ (Hm _ _ _ Hs R) H). Qed.
Lemma maintains_when b m : (b = true → Maintains I m) → Maintains I (when b m).
Proof. intros Hm. unfold when. destruct b; [by apply Hm|]. intros s x s' Hs H. by run H. Qed.
Lemma maintains_each {A} (l : list A) g : (∀ a, a ∈ l → Maintains I (g a)) → Maintains I (each l g).
Proof.
  intros Hg s x s' Hs H. revert s Hs H. induction l as [|a l IH]; cbn; intros s Hs H; [by run H|].
  run H. refine (IH _ _ (Hg a (list_elem_of_here _ _) _ _ _ Hs R) H). intros b Hb. apply Hg. by right.
Qed.
(** What keeps everything that the invariant reads keeps the invariant. *)
Lemma maintains_keeps {A B} (f : State → B) (m : tx A) : (∀ s s', f s' = f s → I s → I s') → Keeps f m → Maintains I m.
Proof. intros Hf Hm s a s' Hs Hr. eapply Hf; [|exact Hs]. by eapply Hm. Qed.
Lemma maintains_modify g : (∀ s, I s → I (g s)) → Maintains I (modify g).
Proof. intros Hg s x s' Hs H. run H. by apply Hg. Qed.
End maintains.

(** A table whose selected rows all come from selected rows of another has at most as many. *)
Lemma count_where_le {K V} `{Countable K} (P : K → V → bool) (m m' : gmap K V) :
  (∀ k v', m' !! k = Some v' → P k v' = true → ∃ v, m !! k = Some v ∧ P k v = true) → count_where P m' ≤ count_where P m.
Proof.
  intros HP. unfold count_where. apply Nat2Z.inj_le. rewrite <-(length_fmap fst (select P m')), <-(length_fmap fst (select P m)).
  apply submseteq_length, NoDup_submseteq.
  - apply NoDup_fmap_fst; [|apply NoDup_filter, NoDup_map_to_list].
    intros k v v' [H1 _]%elem_of_select [H2 _]%elem_of_select. congruence.
  - intros k ([k' v'] & -> & Hin)%list_elem_of_fmap. apply elem_of_select in Hin as [Hl Hv].
    destruct (HP _ _ Hl Hv) as (v & Hv1 & Hv2). apply list_elem_of_fmap. exists (k', v). split; [done|]. by apply elem_of_select.
Qed.
Lemma elem_of_first {K V} `{Countable K} (P : K → V → bool) (m : gmap K V) k v :
  head (select P m) = Some (k, v) → m !! k = Some v ∧ P k v = true.
Proof. intros E. apply elem_of_select. destruct (select P m); [done|]. injection E as ->. left. Qed.
Lemma first_None {K V} `{Countable K} (P : K → V → bool) (m : gmap K V) :
  head (select P m) = None → ∀ k v, m !! k = Some v → P k v = false.
Proof. intros E. apply first_key_None. unfold first_key. by rewrite E. Qed.
