(* ===== verification/Label.v ===== *)
(** * Labels and candidate names (internal/core/names.go)

    The pure part of naming: the label of a session's directory, the base of a participant's
    address, and the candidate names that [firstFree] tries in order.  SHA-256 is a parameter
    with the length of its sum. *)

From S2P Require Import Prelude GoString.
Open Scope Z_scope.

(** crypto/sha256: a sum has 32 bytes. *)
Class Sha256 := {
  sha256 : bytes → bytes;
  sha256_length : ∀ b, length (sha256 b) = 32%nat }.

Definition dash : ascii := "-"%char.
Definition is_dash (a : ascii) : bool := bool_decide (a = dash).

(** The class [a-z0-9-], whose complement is [unsafeLabel]. *)
Definition safe_label (a : ascii) : bool :=
  ((97 <=? code a) && (code a <=? 122)) || ((48 <=? code a) && (code a <=? 57)) || is_dash a.

(** [unsafeLabel.ReplaceAllString(b, "-")]: each maximal run of other characters becomes one
    dash. *)
Fixpoint replace_unsafe (in_run : bool) (b : bytes) : bytes :=
  match b with
  | [] => []
  | a :: r =>
      if safe_label a then a :: replace_unsafe false r
      else if in_run then replace_unsafe true r else dash :: replace_unsafe true r
  end.

(** The cut of a label at 32 bytes. *)
Definition cap_label (b : bytes) : bytes :=
  if bool_decide (32 < length b)%nat then trim_right is_dash (take 32 b) else b.

Definition label (repository directory : string) : string :=
  let base_ :=
    if bool_decide (repository = ""%string) then base (to_bytes directory)
    else let b := base (to_bytes repository) in
         if bool_decide (b = to_bytes ".git") then base (dir (to_bytes repository))
         else to_bytes (trim_suffix (of_bytes b) ".git") in
  match cap_label (trim is_dash (replace_unsafe false (to_lower base_))) with [] => "session"%string | b => of_bytes b end.

(** [lengths base digest]: the base with each even prefix of the digest from four digits on *)
Definition lengths (base digest : string) : list string :=
  (λ i, base +:+ "-" +:+ of_bytes (take (4 + 2 * i) (to_bytes digest))) <$> seq 0 ((String.length digest - 2) / 2).

Definition AddressBase (family repository directory role : string) : string :=
  let base := family +:+ "-" +:+ label repository directory in
  if bool_decide (role = ""%string) then base else base +:+ "-" +:+ role.

Section candidates.
Context `{SHA : Sha256}.

Definition hex_sum (b : bytes) : string := of_bytes (hex_encode (sha256 b)).
Definition nul : ascii := chr 0.

(** The candidates of [peerName]: the base with one byte in two hexadecimal digits, all 256
    of them from the first byte of the sum on, then the longer prefixes of the sum. *)
Definition peer_candidates (family id repository directory : string) : list string :=
  let sum := sha256 (to_bytes family ++ nul :: to_bytes id) in
  let base := family +:+ "-" +:+ label repository directory in
  ((λ offset, base +:+ "-" +:+
      of_bytes (hex_encode [chr ((match sum with a :: _ => code a | [] => 0 end + Z.of_nat offset) mod 256)]))
     <$> seq 0 256) ++ lengths base (of_bytes (hex_encode sum)).

(** The candidates of [createAddress] *)
Definition address_candidates (family repository directory role : string) : list string :=
  let base := AddressBase family repository directory role in
  let seed := if bool_decide (role = ""%string) then to_bytes repository
              else to_bytes repository ++ nul :: to_bytes role in
  base :: lengths base (hex_sum seed).
End candidates.

(** ** Properties *)

(** A label as it appears in names and tmux session names. *)
Definition label_ok (b : bytes) : Prop :=
  b ≠ [] ∧ (length b ≤ 32)%nat ∧ Forall (λ a, safe_label a = true) b ∧
  head b ≠ Some dash ∧ last b ≠ Some dash.

Lemma is_dash_false a : is_dash a = false → a ≠ dash.
Proof. by intros ?%bool_decide_eq_false. Qed.

Lemma replace_unsafe_safe run b : Forall (λ a, safe_label a = true) (replace_unsafe run b).
Proof.
  revert run. induction b as [|a b IH]; intros run; cbn; [constructor|].
  destruct (safe_label a) eqn:E; [by constructor|]. destruct run; [done|]. by constructor.
Qed.

Lemma trim_safe b : Forall (λ a, safe_label a = true) b →
  Forall (λ a, safe_label a = true) (trim is_dash b) ∧ head (trim is_dash b) ≠ Some dash ∧ last (trim is_dash b) ≠ Some dash.
Proof.
  intros Hb. unfold trim. split_and!.
  - by apply trim_right_all, drop_while_all.
  - intros Hh%trim_right_head%drop_while_head_not%is_dash_false. done.
  - intros Hl%trim_right_last%is_dash_false. done.
Qed.

Lemma head_take {A} (l : list A) n : n ≠ 0%nat → head (take n l) = head l.
Proof. by destruct l, n. Qed.

Lemma cap_label_ok r : Forall (λ a, safe_label a = true) r → head r ≠ Some dash → last r ≠ Some dash →
  (length (cap_label r) ≤ 32)%nat ∧ Forall (λ a, safe_label a = true) (cap_label r) ∧
  head (cap_label r) ≠ Some dash ∧ last (cap_label r) ≠ Some dash.
Proof.
  intros Hs Hh Hl. unfold cap_label. case_bool_decide as Hlen; [|split_and!; auto; lia]. split_and!.
  - etrans; [apply trim_right_length|]. rewrite length_take. lia.
  - by apply trim_right_all, Forall_take.
  - intros E%trim_right_head. by rewrite head_take in E.
  - by intros E%trim_right_last%is_dash_false.
Qed.

(** Whatever the directory names are, a label is a non-empty string of at most 32
    lower-case letters, digits and dashes that neither starts nor ends with a dash. *)
Theorem label_wellformed repository directory : label_ok (to_bytes (label repository directory)).
Proof.
  unfold label. set (b0 := if bool_decide (repository = _) then _ else _). clearbody b0.
  destruct (trim_safe _ (replace_unsafe_safe false (to_lower b0))) as (Hs & Hh & Hl).
  destruct (cap_label_ok _ Hs Hh Hl) as (H1 & H2 & H3 & H4).
  destruct (cap_label _) as [|a r'].
  - unfold label_ok. split_and!; [done|cbn; lia| |done|done]. by repeat constructor.
  - rewrite to_of_bytes. by split_and!.
Qed.

Example label_examples :
  (label "/x/repo/.git" "/tmp", label "/x/My Repo.git" "/tmp", label "" "/home/user/--Scratch Space--",
   label "/" "/", label "/x/0123456789012345678901234567890-tail" "/")
  = ("repo", "my-repo", "scratch-space", "session", "0123456789012345678901234567890")%string.
Proof. vm_compute. reflexivity. Qed.

Section candidate_lemmas.
Context `{SHA : Sha256}.

Lemma lengths_length base digest : length (lengths base digest) = ((String.length digest - 2) / 2)%nat.
Proof. unfold lengths. by rewrite length_fmap, length_seq. Qed.

Lemma hex_sum_length b : String.length (hex_sum b) = 64%nat.
Proof.
  apply Nat2Z.inj. fold (len (hex_sum b)). rewrite len_to_bytes. unfold hex_sum.
  rewrite to_of_bytes, hex_encode_length, sha256_length. done.
Qed.

(** A participant's address has the readable base as its first candidate and 31 longer
    ones, and every candidate extends the base. *)
Theorem address_candidates_spec family repository directory role :
  length (address_candidates family repository directory role) = 32%nat ∧
  head (address_candidates family repository directory role) = Some (AddressBase family repository directory role) ∧
  ∀ c, c ∈ address_candidates family repository directory role →
    String.prefix (AddressBase family repository directory role) c = true.
Proof.
  unfold address_candidates. split_and!; [|done|].
  { rewrite length_cons, lengths_length, hex_sum_length. done. }
  intros c. rewrite elem_of_cons. intros [-> | (i & -> & _)%list_elem_of_fmap];
    [apply prefix_refl|apply prefix_app].
Qed.
End candidate_lemmas.
