(* ===== verification/Fixture.v ===== *)
(** * A small installation

    The concrete state that the witnesses evaluate: two plain peers of one repository, and a
    participant with its address, its holder and an inbox. *)

From S2P Require Import Prelude GoString Schema Label.
Open Scope Z_scope.

Definition plain_row (repository role launch : string) : SessionRow :=
  mkSessionRow repository repository (mkWakeTarget launch 0 0 "" "") 10 10 5000 0 0 1 0 0 "" 0 0 0 false role 41 7 "" "" "" None.

Definition peer_a : Key := mkKey "claude" "a".
Definition peer_b : Key := mkKey "codex" "b".
Definition holder_h : Key := mkKey "claude" "h".

Definition small_state : State :=
  fresh_state
    <| sessions := <[peer_a := plain_row "/r/x/.git" "" ""]> (<[peer_b := plain_row "/r/x/.git" "" ""]>
         (<[holder_h := plain_row "/r/x/.git" "dev" "launch-1"]> (sessions fresh_state))) |>
    <| names := <["claude-x-0a"%string := mkNameRow Peer "claude" "a" "/r/x/.git" "" "" []]>
         (<["codex-x-0b"%string := mkNameRow Peer "codex" "b" "/r/x/.git" "" "" []]>
         (<["claude-x-0c"%string := mkNameRow Peer "claude" "h" "/r/x/.git" "" "" []]>
         (<["claude-x-dev"%string := mkNameRow Alias "claude" "" "/r/x/.git" "h" "dev" []]> (names fresh_state)))) |>.

(** A function that stands for SHA-256 where a witness needs one: 32 zero bytes. *)
Definition zero_sum : Sha256.
Proof. refine {| sha256 := λ _, replicate 32 (chr 0) |}. intros _. reflexivity. Defined.
