(* ===== verification/Storage.v ===== *)
(** * The storage boundary (internal/core/storage.go)

    Every write of the daemon runs in one write transaction inside the storage boundary:
    [begin] proves the write-ahead log empty and admits the write, [Commit] enforces the page
    ceiling of its class minus the page debt of the funded obligations.  The SQLite engine is
    not part of the repository: what the code reads of it (the log checkpoint, the page
    counts, a refusal of the engine ceiling) is the argument [engine] of each operation. *)

From S2P Require Import Prelude GoString Schema Sql Label Fixture.
Open Scope Z_scope.

(** ** Bounds *)

Definition pageSize : Z := 4096.
Definition frameBytes : Z := 24 + pageSize.
Definition maxSectorSize : Z := 0x10000.
Definition padFrames : Z := (maxSectorSize - 1 + frameBytes - 1) `quot` frameBytes.
Definition maxPhysicalBytes : Z := Z.shiftl 1 30.
Definition defaultMaxPages : Z := (maxPhysicalBytes - 32 - padFrames * frameBytes) `quot` (pageSize + frameBytes).
Definition reservePages : Z := 2048.
Definition commitSlack : Z := 2.
Definition appendAllowance : Z := 8.

Inductive writeClass := ordinary | control.
#[export] Instance writeClass_eq_dec : EqDecision writeClass.
Proof. solve_decision. Defined.

Definition overdueCreditPages : Z := 576.
Definition endCreditPages : Z := 768.
Definition verdictCreditPages : Z := 1024.

Definition b2z (b : bool) : Z := if b then 1 else 0.

(** The page debt of every funded work obligation and context cycle. *)
Definition debtPages (s : State) : Z :=
  sum_of (λ b, b2z (b_overdue_credit b)) (claim_bundles s) * overdueCreditPages +
  sum_of (λ b, b2z (b_end_credit b)) (claim_bundles s) * endCreditPages +
  sum_of (λ w, b2z (w_VerdictCredit w)) (work_items s) * verdictCreditPages +
  sum_of c_Credit (cycles s).

(** ** The store *)

(** The store: its committed tables, the page count of the database file, the engine's page
    ceiling and the reason of a block. *)
Record Store := mkStore {
  tables : State;
  page_count : Z;
  maxPages : Z;
  blocked : option string }.
#[export] Instance Store_eta : Eta Store := λ r,
  mkStore (tables r) (page_count r) (maxPages r) (blocked r).

Definition ceiling (st : Store) (class : writeClass) : Z :=
  match class with
  | control => maxPages st - commitSlack
  | ordinary => maxPages st - reservePages - commitSlack
  end.

(** What a log proof found: an empty log, an ended request context, or a failure. *)
Inductive LogProof := LogEmpty | ContextEnded | LogNotEmpty (why : string).

(** The engine's answers during one write or recovery. *)
Record Engine := mkEngine {
  (** the log proof at the start, and the one after free pages were returned *)
  en_log : LogProof;
  en_log_after : LogProof;
  (** the page count after PRAGMA incremental_vacuum, from the one before *)
  en_vacuum : Z → Z;
  (** the page count inside the transaction, from the tables it writes *)
  en_pages : State → Z;
  (** a statement of the body, or the commit, reported SQLITE_FULL *)
  en_full_body : bool;
  en_full_commit : bool }.

(** [resetLog] and [proofFailed]: the outcome of a log proof, and the block it records. *)
Definition prove_log (p : LogProof) (st : Store) : result error unit * Store :=
  match p with
  | LogEmpty => (Ok tt, st)
  | ContextEnded => (Err EngineError, st)
  | LogNotEmpty why => (Err ErrStorageBlocked, st <| blocked := Some why |>)
  end.

(** [reclaim]: returns free pages and proves the log empty again. *)
Definition reclaim (en : Engine) (st : Store) : result error unit * Store :=
  prove_log (en_log_after en) (st <| page_count := en_vacuum en (page_count st) |>).

(** [enter]: refuses while blocked, proves the log empty and admits an ordinary write only
    below its ceiling, reclaiming once first. *)
Definition enter (class : writeClass) (en : Engine) (st : Store) : result error unit * Store :=
  match blocked st with
  | Some _ => (Err ErrStorageBlocked, st)
  | None =>
      match prove_log (en_log en) st with
      | (Err e, st1) => (Err e, st1)
      | (Ok _, st1) =>
          match class with
          | control => (Ok tt, st1)
          | ordinary =>
              let limit := ceiling st1 ordinary - debtPages (tables st1) - appendAllowance in
              if page_count st1 >? limit then
                match reclaim en st1 with
                | (Err e, st2) => (Err e, st2)
                | (Ok _, st2) => if page_count st2 >? limit then (Err ErrCapacity, st2) else (Ok tt, st2)
                end
              else (Ok tt, st1)
          end
      end
  end.

(** [full]: an engine-full error is a refusal; in a control write it blocks the store. *)
Definition full (class : writeClass) (st : Store) : error * Store :=
  match class with
  | control => (ErrStorageBlocked, st <| blocked := Some "the engine ceiling refused a reserved write"%string |>)
  | ordinary => (ErrCapacity, st)
  end.

(** audit.go, [recordTarget] *)
Definition recordTarget (p : PendingAudit) : string :=
  if seqb (pa_origin p) "" then pa_target p else pa_target p +:+ " by " +:+ pa_origin p.

(** audit.go, [writeAudit]: the pending record of the context joins a transaction that is
    marked [audited]. *)
Definition writeAudit (audited : bool) (at_ : Z) (s : State) : State :=
  match pending s with
  | Some p =>
      if audited then s <| audit := audit s ++ [mkAuditRow at_ (pa_action p) (recordTarget p) "accepted" ""] |>
      else s
  | None => s
  end.

(** [Commit]: the audit record, the page check against the ceiling minus the debt, and the
    engine's commit. *)
Definition commit (class : writeClass) (audited : bool) (at_ : Z) (en : Engine) (s : State) (st : Store) :
    result error unit * Store :=
  let s' := writeAudit audited at_ s in
  let pages := en_pages en s' in
  if pages >? ceiling st class - debtPages s' then (Err ErrCapacity, st)
  else if en_full_commit en then let '(e, st') := full class st in (Err e, st')
  else (Ok tt, st <| tables := s' <| pending := None |> |> <| page_count := pages |>).

(** The parameters of one write: its class, the time of its audit record, the engine's
    answers, whether it is marked audited, the record that its context carries, and the
    participant guard of its context (participants.go, [checkParticipantCall]). *)
Record Write := mkWrite {
  w_class : writeClass;
  w_audited : bool;
  w_at : Z;
  w_audit : option PendingAudit;
  w_guard : State → option error }.

(** One whole write: [begin], the body, and [Commit] or [Rollback]. *)
Definition write {A} (w : Write) (en : Engine) (body : tx A) (st : Store) : result error A * Store :=
  match w_guard w (tables st) with
  | Some e => (Err e, st)
  | None =>
      match enter (w_class w) en st with
      | (Err e, st1) => (Err e, st1)
      | (Ok _, st1) =>
          match w_guard w (tables st1) with
          | Some e => (Err e, st1)
          | None =>
              if en_full_body en then let '(e, st2) := full (w_class w) st1 in (Err e, st2)
              else match body ((tables st1) <| pending := w_audit w |>) with
                   | Err e => (Err e, st1)
                   | Ok (a, s) =>
                       match commit (w_class w) (w_audited w) (w_at w) en s st1 with
                       | (Err e, st2) => (Err e, st2)
                       | (Ok _, st2) => (Ok a, st2)
                       end
                   end
          end
      end
  end.

(** A read transaction. *)
Definition read {A} (body : tx A) (st : Store) : result error A :=
  match body (tables st) with Ok (a, _) => Ok a | Err e => Err e end.

(** [recoverLocked]: proves the log empty, returns free pages, proves the log empty again
    and clears a block. *)
Definition recoverLocked (en : Engine) (st : Store) : result error unit * Store :=
  match prove_log (en_log en) st with
  | (Err e, st1) => (Err e, st1)
  | (Ok _, st1) =>
      let after := en_vacuum en (page_count st1) in
      match prove_log (en_log_after en) (st1 <| page_count := after |>) with
      | (Err e, st2) => (Err e, st2)
      | (Ok _, st2) =>
          if after >? page_count st
          then (Err ErrStorageBlocked, st2 <| blocked := Some "reclamation grew the database"%string |>)
          else (Ok tt, st2 <| blocked := None |>)
      end
  end.

(** [StorageStatus], without the size of the log file *)
Record StorageStatus := mkStorageStatus {
  Pages : Z; MaxPages : Z; OrdinaryMaxPages : Z; ReservePages : Z; PageBytes : Z;
  WorkDebtPages : Z; Blocked : option string }.
Definition storageStatus (st : Store) : StorageStatus :=
  mkStorageStatus (page_count st) (maxPages st) (maxPages st - reservePages) reservePages pageSize
    (debtPages (tables st)) (blocked st).

(** ** The boundary is atomic and keeps the ceiling *)

Lemma prove_log_tables p st r st' : prove_log p st = (r, st') →
  tables st' = tables st ∧ maxPages st' = maxPages st ∧ page_count st' = page_count st ∧
  (r = Ok tt → st' = st).
Proof. destruct p; intros [= <- <-]; cbn; split_and!; try done. Qed.

(** Admission changes no table: it can only return free pages and record a block. *)
Lemma enter_spec class en st r st' : enter class en st = (r, st') →
  tables st' = tables st ∧ maxPages st' = maxPages st ∧
  (page_count st' = page_count st ∨ page_count st' = en_vacuum en (page_count st)) ∧
  (r = Ok tt → blocked st = None ∧ blocked st' = None).
Proof.
  unfold enter. destruct (blocked st) as [why|] eqn:Eb; [intros [= <- <-]; split_and!; auto; done|].
  destruct (prove_log (en_log en) st) as [[u|e] st1] eqn:E1; apply prove_log_tables in E1 as (Ht & Hm & Hp & Hok);
    [|intros [= <- <-]; split_and!; auto; done].
  rewrite (Hok ltac:(by destruct u)). destruct class; [|intros [= <- <-]; split_and!; auto].
  destruct (page_count st >? _); [|intros [= <- <-]; split_and!; auto].
  unfold reclaim. destruct (prove_log (en_log_after en) _) as [[u'|e] st2] eqn:E2;
    apply prove_log_tables in E2 as (Ht2 & Hm2 & Hp2 & Hok2); cbn in *.
  - rewrite (Hok2 ltac:(by destruct u')). cbn.
    destruct (en_vacuum en (page_count st) >? _); intros [= <- <-]; split_and!; cbn; auto; done.
  - intros [= <- <-]. rewrite Ht2, Hm2, Hp2. split_and!; auto; done.
Qed.

Lemma full_spec class st e st' : full class st = (e, st') →
  tables st' = tables st ∧ maxPages st' = maxPages st ∧ page_count st' = page_count st.
Proof. destruct class; intros [= <- <-]; done. Qed.

Lemma commit_Ok class audited at_ en s st u st' : commit class audited at_ en s st = (Ok u, st') →
  st' = st <| tables := (writeAudit audited at_ s) <| pending := None |> |>
           <| page_count := en_pages en (writeAudit audited at_ s) |> ∧
  en_pages en (writeAudit audited at_ s) ≤ ceiling st class - debtPages (writeAudit audited at_ s).
Proof.
  unfold commit. destruct (_ >? _) eqn:E; [done|]. destruct (en_full_commit en); [by destruct (full class st)|].
  intros [= <- <-]. split; [done|lia].
Qed.

Lemma commit_Err class audited at_ en s st e st' : commit class audited at_ en s st = (Err e, st') →
  tables st' = tables st ∧ maxPages st' = maxPages st ∧ page_count st' = page_count st.
Proof.
  unfold commit. destruct (_ >? _); [by intros [= <- <-]|]. destruct (en_full_commit en); [|done].
  destruct (full class st) as [e' st2] eqn:E. apply full_spec in E. by intros [= <- <-].
Qed.

Lemma debtPages_pending s p : debtPages (s <| pending := p |>) = debtPages s.
Proof. done. Qed.
Lemma debtPages_audit audited at_ s : debtPages (writeAudit audited at_ s) = debtPages s.
Proof. unfold writeAudit. destruct (pending s); [destruct audited|]; done. Qed.

(** What a committed write is: its body ran on the committed tables, and the file is within
    the ceiling of its class minus the debt that the new tables promise. *)
Lemma write_Ok {A} (w : Write) en (body : tx A) st a st' : write w en body st = (Ok a, st') →
  ∃ s, body ((tables st) <| pending := w_audit w |>) = Ok (a, s) ∧
    tables st' = (writeAudit (w_audited w) (w_at w) s) <| pending := None |> ∧
    blocked st = None ∧ blocked st' = None ∧ maxPages st' = maxPages st ∧ w_guard w (tables st) = None ∧
    page_count st' ≤ ceiling st (w_class w) - debtPages (tables st').
Proof.
  unfold write. destruct (w_guard w (tables st)) eqn:Eg; [done|].
  destruct (enter (w_class w) en st) as [[u|e] st1] eqn:E1; [|done].
  apply enter_spec in E1 as (Ht & Hm & _ & Hb). destruct (Hb ltac:(by destruct u)) as [Hb0 Hb1].
  rewrite Ht, Eg. destruct (en_full_body en); [by destruct (full (w_class w) st1)|].
  destruct (body _) as [[a' s]|e] eqn:Ebody; [|done].
  destruct (commit _ _ _ en s st1) as [[u2|e] st2] eqn:E2; [|done]. intros [= <- <-].
  apply commit_Ok in E2 as [-> Hle]. exists s. cbn. split_and!; auto.
  rewrite debtPages_pending. unfold ceiling in *. by rewrite Hm in Hle.
Qed.

(** A refused write changed no table, whatever refused it. *)
Lemma write_Err {A} (w : Write) en (body : tx A) st e st' : write w en body st = (Err e, st') →
  tables st' = tables st ∧ maxPages st' = maxPages st ∧
  (page_count st' = page_count st ∨ page_count st' = en_vacuum en (page_count st)).
Proof.
  unfold write. destruct (w_guard w (tables st)) eqn:Eg; [intros [= <- <-]; auto|].
  destruct (enter (w_class w) en st) as [[u|e1] st1] eqn:E1;
    apply enter_spec in E1 as (Ht & Hm & Hp & _); [|intros [= <- <-]; auto].
  destruct (w_guard w (tables st1)); [intros [= <- <-]; auto|].
  destruct (en_full_body en).
  { destruct (full (w_class w) st1) as [e2 st2] eqn:E2. apply full_spec in E2 as (H1 & H2 & H3).
    intros [= <- <-]. rewrite H1, H2, H3. auto. }
  destruct (body _) as [[a s]|e2]; [|intros [= <- <-]; auto].
  destruct (commit _ _ _ en s st1) as [[u2|e2] st2] eqn:E2; [done|].
  apply commit_Err in E2 as (H1 & H2 & H3). intros [= <- <-]. rewrite H1, H2, H3. auto.
Qed.

(** ** Properties *)

(** Every obligation that the tables promise fits below the control ceiling. *)
Definition funded (st : Store) : Prop := page_count st ≤ ceiling st control - debtPages (tables st).

(** The engine's documented behaviour: an incremental vacuum never grows the file. *)
Definition vacuum_shrinks (en : Engine) : Prop := ∀ p, en_vacuum en p ≤ p.

(** One step of the store: a write of any class with any body, or a recovery. *)
Inductive store_step (st st' : Store) : Prop :=
| step_write {A} (w : Write) (en : Engine) (body : tx A) (r : result error A) :
    vacuum_shrinks en → write w en body st = (r, st') → store_step st st'
| step_recover (en : Engine) (r : result error unit) :
    vacuum_shrinks en → recoverLocked en st = (r, st') → store_step st st'.

Lemma ceiling_le st class : ceiling st class ≤ ceiling st control.
Proof. unfold ceiling, reservePages. destruct class; lia. Qed.

Lemma write_funded_step {A} (w : Write) en (body : tx A) st r st' :
  vacuum_shrinks en → funded st → write w en body st = (r, st') → funded st'.
Proof.
  unfold funded. intros Hv Hf Hw. destruct r as [a|e].
  - apply write_Ok in Hw as (s & _ & _ & _ & _ & Hm & _ & Hle).
    pose proof (ceiling_le st (w_class w)). unfold ceiling in *. rewrite Hm. lia.
  - apply write_Err in Hw as (Ht & Hm & Hp). unfold ceiling in *. rewrite Ht, Hm.
    pose proof (Hv (page_count st)). destruct Hp as [-> | ->]; lia.
Qed.

Lemma recover_spec en st r st' : recoverLocked en st = (r, st') →
  tables st' = tables st ∧ maxPages st' = maxPages st ∧
  (page_count st' = page_count st ∨ page_count st' = en_vacuum en (page_count st)) ∧
  (r = Ok tt → blocked st' = None ∧ en_log en = LogEmpty ∧ en_log_after en = LogEmpty ∧
     page_count st' ≤ page_count st).
Proof.
  unfold recoverLocked. destruct (en_log en) eqn:E1; cbn; try (intros [= <- <-]; cbn; split_and!; auto; done).
  destruct (en_log_after en) eqn:E2; cbn; try (intros [= <- <-]; cbn; split_and!; auto; done).
  destruct (_ >? _) eqn:E; intros [= <- <-]; cbn; split_and!; auto; [done|].
  intros _. split_and!; auto. lia.
Qed.

(** C2: whatever writes and recoveries ran, in any order and with any outcome, the pages of
    the file and the page debt of the promised obligations fit below the control ceiling. *)
Theorem store_stays_funded st st' : funded st → rtc store_step st st' → funded st'.
Proof.
  intros Hf Hs. induction Hs as [|st st1 st' Hstep Hs IH]; [done|]. apply IH.
  destruct Hstep as [A w en body r Hv Hw|en r Hv Hr]; [by eapply write_funded_step|].
  apply recover_spec in Hr as (Ht & Hm & Hp & _). unfold funded, ceiling in *. rewrite Ht, Hm.
  pose proof (Hv (page_count st)). destruct Hp as [-> | ->]; lia.
Qed.

(** A control write from a funded store commits; its callers bound its growth. *)
Lemma control_commits {A} (w : Write) en (body : tx A) st a s :
  funded st → blocked st = None → w_class w = control → w_guard w (tables st) = None →
  en_log en = LogEmpty → en_full_body en = false → en_full_commit en = false →
  body ((tables st) <| pending := w_audit w |>) = Ok (a, s) →
  en_pages en (writeAudit (w_audited w) (w_at w) s) ≤ page_count st + (debtPages (tables st) - debtPages s) →
  ∃ st', write w en body st = (Ok a, st') ∧ funded st' ∧
    tables st' = (writeAudit (w_audited w) (w_at w) s) <| pending := None |>.
Proof.
  intros Hf Hb Hc Hg Hl Hfb Hfc Hbody Hgrow. unfold write, enter, commit. rewrite Hg, Hb, Hl, Hc. cbn.
  rewrite Hg, Hfb, Hbody, Hfc, debtPages_audit. unfold funded, ceiling in *.
  destruct (_ >? _) eqn:E; [lia|]. eexists. split_and!; [done| |done].
  cbn. rewrite debtPages_pending, debtPages_audit. lia.
Qed.

(** C3: a control write whose growth is at most the credit that it releases is never refused
    for capacity: from a funded store it commits, and the store stays funded. *)
Theorem funded_control_commits {A} (w : Write) en (body : tx A) st a s :
  funded st → blocked st = None → w_class w = control → w_guard w (tables st) = None →
  en_log en = LogEmpty → en_full_body en = false → en_full_commit en = false →
  body ((tables st) <| pending := w_audit w |>) = Ok (a, s) →
  en_pages en (writeAudit (w_audited w) (w_at w) s) ≤ page_count st + (debtPages (tables st) - debtPages s) →
  ∃ st', write w en body st = (Ok a, st') ∧ funded st' ∧
    tables st' = (writeAudit (w_audited w) (w_at w) s) <| pending := None |>.
Proof. apply control_commits. Qed.

(** C40: a committed ordinary write leaves the whole reserve, the commit slack and the page
    debt free, and a file of the default bound with the log of one transaction over all its
    pages stays within the physical bound. *)
Theorem ordinary_keeps_reserve {A} (w : Write) en (body : tx A) st a st' :
  w_class w = ordinary → maxPages st = defaultMaxPages → write w en body st = (Ok a, st') →
  page_count st' + debtPages (tables st') + reservePages + commitSlack ≤ defaultMaxPages ∧
  (0 ≤ debtPages (tables st') →
   page_count st' * pageSize + (32 + (page_count st' + padFrames) * frameBytes) ≤ maxPhysicalBytes).
Proof.
  intros Hc Hm Hw. apply write_Ok in Hw as (s & _ & _ & _ & _ & _ & _ & Hle).
  rewrite Hc in Hle. unfold ceiling in Hle. rewrite Hm in Hle.
  assert (defaultMaxPages = 130681) as Hd by (vm_compute; reflexivity). rewrite Hd in *.
  change reservePages with 2048 in *. change commitSlack with 2 in *. split; [lia|].
  change pageSize with 4096. change frameBytes with 4120. change padFrames with 16.
  change maxPhysicalBytes with 1073741824. lia.
Qed.

(** a blocked store refuses every write with storage_blocked and changes nothing; only a
    recovery that proved the log empty twice, without growing the file, lifts the block. *)
Theorem blocked_until_recovered st why : blocked st = Some why →
  (∀ A (w : Write) en (body : tx A), w_guard w (tables st) = None →
     write w en body st = (Err ErrStorageBlocked, st)) ∧
  (∀ en st', recoverLocked en st = (Ok tt, st') →
     blocked st' = None ∧ tables st' = tables st ∧ en_log en = LogEmpty ∧ en_log_after en = LogEmpty ∧
     page_count st' ≤ page_count st) ∧
  (∀ en e st', recoverLocked en st = (Err e, st') → blocked st' ≠ None ∧ tables st' = tables st).
Proof.
  intros Hb. split_and!.
  - intros A w en body Hg. unfold write, enter. by rewrite Hg, Hb.
  - intros en st' Hr. apply recover_spec in Hr as (Ht & _ & _ & Hok). destruct (Hok eq_refl) as (? & ? & ? & ?). auto.
  - intros en e st' Hr. split; [|by apply recover_spec in Hr as (? & _)]. revert Hr. unfold recoverLocked.
    destruct (en_log en); cbn; try (intros [= <- <-]; cbn; congruence).
    destruct (en_log_after en); cbn; try (intros [= <- <-]; cbn; congruence).
    destruct (_ >? _); [|done]. intros [= <- <-]. done.
Qed.

(** ** Witnesses *)

(** An engine that finds its log empty and a file of 1000 pages *)
Definition engine_ok : Engine := mkEngine LogEmpty LogEmpty (λ p, p) (λ _, 1000) false false.
Definition small_store : Store := mkStore small_state 1000 defaultMaxPages None.
Definition plain_write (class : writeClass) : Write := mkWrite class false 5 None (λ _, None).

Lemma store_stays_funded_witness : funded (snd (write (plain_write ordinary) engine_ok (bumpChange changeInbox) small_store)).
Proof.
  refine (store_stays_funded small_store _ _ (rtc_once _ _ (step_write _ _ (plain_write ordinary) engine_ok (bumpChange changeInbox) _ _ (surjective_pairing _)))).
  - unfold funded. vm_compute. discriminate.
  - intros p. reflexivity.
Defined.
Lemma funded_control_commits_witness : ∃ st', write (plain_write control) engine_ok (bumpChange changeInbox) small_store = (Ok tt, st') ∧ funded st'.
Proof.
  set (s := after (bumpChange changeInbox) (small_state <| pending := None |>)).
  assert (funded small_store) as Hf by (unfold funded; vm_compute; discriminate).
  assert (en_pages engine_ok (writeAudit false 5 s) ≤ page_count small_store + (debtPages (tables small_store) - debtPages s)) as Hg
    by (vm_compute; discriminate).
  destruct (funded_control_commits (plain_write control) engine_ok (bumpChange changeInbox) small_store tt s
    Hf eq_refl eq_refl eq_refl eq_refl eq_refl eq_refl eq_refl Hg) as (st' & H & Hf' & _).
  exists st'. split; [exact H|exact Hf'].
Defined.
Lemma ordinary_keeps_reserve_witness : ∃ st', write (plain_write ordinary) engine_ok (bumpChange changeInbox) small_store = (Ok tt, st') ∧
  page_count st' + debtPages (tables st') + reservePages + commitSlack ≤ defaultMaxPages.
Proof.
  destruct (write (plain_write ordinary) engine_ok (bumpChange changeInbox) small_store) as [r st'] eqn:E.
  assert (r = Ok tt) as -> by (change r with (r, st').1; rewrite <-E; vm_compute; reflexivity).
  exists st'. split; [reflexivity|].
  exact (proj1 (ordinary_keeps_reserve (plain_write ordinary) engine_ok (bumpChange changeInbox) small_store tt st' eq_refl eq_refl E)).
Defined.
Lemma blocked_until_recovered_witness :
  write (plain_write control) engine_ok (bumpChange changeInbox) (small_store <| blocked := Some "log not empty"%string |>)
  = (Err ErrStorageBlocked, small_store <| blocked := Some "log not empty"%string |>).
Proof.
  exact (proj1 (blocked_until_recovered (small_store <| blocked := Some "log not empty"%string |>) "log not empty" eq_refl)
    unit (plain_write control) engine_ok (bumpChange changeInbox) eq_refl).
Defined.
