(* ===== verification/Names.v ===== *)
(** * Names, participants and fences (internal/core/names.go, participants.go)

    The daemon-held names: a session's permanent peer name, a participant's address, its
    holder, its conflict and the fences of its former holders.  Peer names and addresses share
    one name space.  The public operations on participants are in Participants. *)

From S2P Require Import Prelude GoString Schema Sql Label Fixture.
Open Scope Z_scope.

(** ** Keys (store.go, participants.go, context_cycle.go) *)

Definition maintainerKey : Key := mkKey "maintainer" "maintainer".
Definition overwatchKey : Key := mkKey "overwatch" "overwatch".
Definition overwatchName : string := "overwatch".
Definition participantPrefix : string := "participant:".
Definition participantKey (address : string) : string := participantPrefix +:+ address.
Definition isParticipantID (id : string) : bool := has_prefix id participantPrefix.

(** capabilities.go, [Families] *)
Definition SupportedFamilies : list string := ["agy"; "claude"; "codex"; "deepseek"; "grok"; "opencode"]%string.

Definition validKey (family id : string) : bool :=
  bool_decide (family ∈ SupportedFamilies) &&
  (negb (seqb id "") && (len id <=? 256) && negb (contains_any id [chr 0; chr 13; chr 10]) &&
   negb (has_prefix id participantPrefix)).

(** ** Conditions on session rows *)

(** [notParticipantRow] *)
Definition notParticipantRow (k : Key) : bool := negb (isParticipantID (ID k)).
(** [participantQualifier] *)
Definition participantQualifier (k : Key) (r : SessionRow) : bool :=
  seqb (Family k) "deepseek" || negb (seqb (wt_launch_id (s_wake_target r)) "").

(** The session [k] belongs to the participant of [family], [repository] and [role] now. *)
Definition belongs (now : Z) (repository role : string) (k : Key) (r : SessionRow) : bool :=
  seqb (s_repository r) repository && seqb (s_role r) role && negb (s_subagent r) &&
  active_row now r && participantQualifier k r.

(** ** Names *)

Definition nameTaken (name : string) (s : State) : bool :=
  seqb name overwatchName || bool_decide (is_Some (names s !! name)).

Fixpoint firstFree (candidates : list string) (insert : string → tx unit) : tx string :=
  match candidates with
  | [] => throw ErrNoFreeName
  | candidate :: candidates =>
      taken ← gets (nameTaken candidate);
      if (taken : bool) then firstFree candidates insert
      else insert candidate ≫= λ _, mret candidate
  end.

(** [SELECT name FROM names WHERE kind='peer' AND family=? AND session_id=?] *)
Definition is_peer_of (k : Key) (_ : string) (n : NameRow) : bool :=
  bool_decide (n_kind n = Peer) && seqb (n_family n) (Family k) && seqb (n_session_id n) (ID k).
Definition peer_name_of (k : Key) (s : State) : option string := first_key (is_peer_of k) (names s).

(** [SELECT ... FROM names WHERE kind='alias' AND family=? AND repository=? AND role=?] *)
Definition is_address_of (family repository role : string) (_ : string) (n : NameRow) : bool :=
  bool_decide (n_kind n = Alias) && seqb (n_family n) family && seqb (n_repository n) repository && seqb (n_role n) role.
Definition address_of (family repository role : string) (s : State) : option string :=
  first_key (is_address_of family repository role) (names s).

(** [peerOf] *)
Definition peerOf (family id : string) (s : State) : string :=
  if seqb id "" then "" else default "" (peer_name_of (mkKey family id) s).

(** [participantEvent] *)
Definition participantEvent (now : Z) (address former holder reason actor details : string) : tx unit :=
  modify (λ s, s <| participant_events :=
    participant_events s ++ [mkParticipantEvent now address former holder reason actor details] |>).

(** [fence] *)
Definition fence (now : Z) (address family id reason : string) : tx unit :=
  modify (λ s, s <| fences := <[(address, mkKey family id) := (now, reason)]> (fences s) |>).
Definition fenced (address : string) (k : Key) (s : State) : bool :=
  bool_decide (is_Some (fences s !! (address, k))).

(** [holds] *)
Definition holds (now : Z) (family id repository role : string) (s : State) : bool :=
  match sessions s !! mkKey family id with
  | Some r => belongs now repository role (mkKey family id) r
  | None => false
  end.

(** [heldAddress]: the first address recorded for the caller that it holds now, or "" *)
Definition held_by (now : Z) (caller : Key) (s : State) (_ : string) (n : NameRow) : bool :=
  bool_decide (n_kind n = Alias) && seqb (n_family n) (Family caller) && seqb (n_holder_id n) (ID caller) &&
  holds now (Family caller) (ID caller) (n_repository n) (n_role n) s.
Definition heldAddress (now : Z) (caller : Key) (s : State) : string :=
  default "" (head (order_by_name id (fst <$> select (held_by now caller s) (names s)))).

(** [staleHolder] *)
Definition staleHolder (now : Z) (caller : Key) (s : State) : error :=
  match sessions s !! caller with
  | None => ErrStaleHolder
  | Some r =>
      match s_succession r with
      | None => ErrStaleHolder
      | Some last =>
          if negb (seqb (suc_Result last) "refused") || (suc_RetryAfterMS last <=? 0) then ErrStaleHolder
          else let left := suc_At last + suc_RetryAfterMS last - now in
               if 0 <? left then HolderWait (suc_Reason last) (suc_Holder last) left else ErrStaleHolder
      end
  end.

(** [requireHolder]: [None] when the caller holds [address] now *)
Definition requireHolder (now : Z) (caller : Key) (address : string) (s : State) : option error :=
  let held := heldAddress now caller s in
  if seqb held "" then Some (staleHolder now caller s)
  else if seqb held address then None else Some ErrStaleHolder.

(** [ensureParticipantInbox] *)
Definition never : Z := 9007199254740991.
Definition inbox_row (now : Z) (n : NameRow) : SessionRow :=
  mkSessionRow (n_repository n) "" (mkWakeTarget "" 0 0 "" "") now now never 0 0 1 0 0 "" 0 0 0 false (n_role n) 0 0 "" "" "" None.
Definition ensureParticipantInbox (now : Z) (address : string) : tx unit :=
  o ← gets (λ s, names s !! address);
  n ← row (o : option NameRow) NoRows;
  _ ← ensure (bool_decide (n_kind n = Alias)) NoRows;
  modify (λ s,
    let k := mkKey (n_family n) (participantKey address) in
    match sessions s !! k with
    | Some _ => s
    | None => s <| sessions := <[k := inbox_row now n]> (sessions s) |>
    end).

(** ** Assignment of names *)

(** What [assignNames] needs of a session ([participant]). *)
Record participant := mkParticipant {
  p_family : string; p_id : string; p_repository : string; p_directory : string; p_role : string;
  p_subagent : bool; p_wasActive : bool }.

(** [SELECT 1 ... retired_at=0 AND expires_at>now] as an UPDATE that retires the row *)
Definition retire_active (now : Z) (k : Key) : tx unit :=
  update_session k (λ r, if active_row now r
    then r <| s_retired_at := now |> <| s_revision := s_revision r + 1 |> else r).

(** A notice that was accepted for the former holder never reaches the new one: the
    unacknowledged messages of the participant's inbox wait for a new wake. *)
Definition unhandled (inbox : Key) (acked : Z) (_ : Z) (m : MessageRow) : bool :=
  keqb (m_recipient m) inbox && bool_decide (m_delivery_state m ≠ Waiting) && (acked <? m_seq m).
Definition await_wake (now : Z) (m : MessageRow) : MessageRow :=
  m <| m_delivery_state := Waiting |> <| m_delivery_reason := "" |> <| m_delivery_updated_at := now |>
    <| m_wake_reason := "" |> <| m_wake_attempts := 0 |> <| m_wake_next_at := 0 |> <| m_wake_notices := 0 |>.
Definition reset_inbox (now : Z) (inbox : Key) : tx unit :=
  _ ← update_session inbox (λ r, r <| s_read_through := s_acked_through r |>);
  modify (λ s, match sessions s !! inbox with
               | Some r => s <| messages := update_where (unhandled inbox (s_acked_through r)) (await_wake now) (messages s) |>
               | None => s
               end).

(** [setHolder] *)
Definition setHolder (now : Z) (address former id reason actor details : string) : tx unit :=
  _ ← modify (λ s, s <| names := alter (λ n, n <| n_holder_id := id |> <| n_conflict := [] |>) address (names s) |>);
  o ← gets (λ s, names s !! address);
  n ← row (o : option NameRow) NoRows;
  let family := n_family n in
  _ ← when (negb (seqb former "") && negb (seqb former id))
        (_ ← retire_active now (mkKey family former); fence now address family former reason);
  _ ← when (negb (seqb former id)) (reset_inbox now (mkKey family (participantKey address)));
  formerName ← gets (peerOf family former);
  holderName ← gets (peerOf family id);
  participantEvent now address formerName holderName reason actor details.

(** [releaseAddress] *)
Definition recorded_holder (family id : string) (_ : string) (n : NameRow) : bool :=
  bool_decide (n_kind n = Alias) && seqb (n_family n) family && seqb (n_holder_id n) id.
Definition releaseAddress (now : Z) (family id reason actor : string) : tx unit :=
  addresses ← gets (λ s, order_by_name (λ a, a) (fst <$> select (recorded_holder family id) (names s)));
  when (negb (bool_decide (addresses = [])))
    (_ ← modify (λ s, s <| names := update_where (recorded_holder family id) (λ n, n <| n_holder_id := "" |>) (names s) |>);
     former ← gets (peerOf family id);
     each addresses (λ address, participantEvent now address former "" reason actor "")).

(** The text of a JSON array of names, which hold only letters, digits and dashes. *)
Definition quote : string := String (chr 34) EmptyString.
Definition json_names (l : list string) : string :=
  "[" +:+ String.concat "," ((λ n, quote +:+ n +:+ quote) <$> l) +:+ "]".

(** The active sessions that qualify for a participant and are not fenced, with their peer
    names, in name order; at most 33 *)
Definition qualifies (now : Z) (address family repository role : string) (s : State) (k : Key) (r : SessionRow) : bool :=
  seqb (Family k) family && belongs now repository role k r && notParticipantRow k && negb (fenced address k s).
Definition qualifiers (now : Z) (address family repository role : string) (s : State) : list (string * string) :=
  take 33 (order_by_name snd
    ((λ kr, (ID kr.1, default "" (peer_name_of kr.1 s))) <$> select (qualifies now address family repository role s) (sessions s))).

Section naming.
Context `{SHA : Sha256}.

(** [peerName] *)
Definition peerName (family id repository directory : string) : tx unit :=
  peer ← gets (peer_name_of (mkKey family id));
  match peer with
  | Some _ => mret tt
  | None =>
      _ ← firstFree (peer_candidates family id repository directory)
            (λ name, insert_name name (mkNameRow Peer family id repository "" "" []));
      mret tt
  end.

(** [createAddress] *)
Definition createAddress (p : participant) : tx string :=
  firstFree (address_candidates (p_family p) (p_repository p) (p_directory p) (p_role p))
    (λ name, insert_name name (mkNameRow Alias (p_family p) "" (p_repository p) "" (p_role p) [])).

(** The conflict branch of [assignNames]: more than one session qualifies *)
Definition record_conflict (now : Z) (p : participant) (address holder : string) (conflict peers : list string) : tx unit :=
  if bool_decide (peers = conflict) && seqb holder "" then mret tt
  else
    _ ← modify (λ s, s <| names := alter (λ n, n <| n_conflict := peers |> <| n_holder_id := "" |>) address (names s) |>);
    _ ← when (negb (seqb holder ""))
          (_ ← retire_active now (mkKey (p_family p) holder); fence now address (p_family p) holder "conflict");
    former ← gets (peerOf (p_family p) holder);
    participantEvent now address former "" "conflict" "session" (json_names peers).

(** The choice of a holder, once the recorded one holds nothing *)
Definition choose_qualifier (now : Z) (p : participant) (address holder : string) (conflict : list string) : tx unit :=
  qs ← gets (qualifiers now address (p_family p) (p_repository p) (p_role p));
  match (qs : list (string * string)) with
  | [] => mret tt
  | [(id, _)] =>
      if seqb id (p_id p) then
        if seqb holder (p_id p) then mret tt
        else setHolder now address holder (p_id p) "only_qualifier" "session" ""
      else mret tt
  | _ => record_conflict now p address holder conflict (snd <$> qs)
  end.

(** [assignNames] *)
Definition assignNames (now : Z) (p : participant) : tx unit :=
  _ ← peerName (p_family p) (p_id p) (p_repository p) (p_directory p);
  if p_subagent p then releaseAddress now (p_family p) (p_id p) "subagent" "daemon"
  else
    o ← gets (λ s, sessions s !! mkKey (p_family p) (p_id p));
    r ← row (o : option SessionRow) NoRows;
    if negb (participantQualifier (mkKey (p_family p) (p_id p)) r)
    then releaseAddress now (p_family p) (p_id p) "plain_peer" "daemon"
    else if seqb (p_repository p) "" then mret tt
    else
      found ← gets (address_of (p_family p) (p_repository p) (p_role p));
      address ← match found with Some a => mret a | None => createAddress p end;
      o ← gets (λ s, names s !! address);
      n ← row (o : option NameRow) NoRows;
      let holder := n_holder_id n in
      if seqb holder (p_id p) && p_wasActive p then mret tt
      else
        valid ← gets (holds now (p_family p) holder (p_repository p) (p_role p));
        if negb (seqb holder "") && negb (seqb holder (p_id p)) && valid then mret tt
        else choose_qualifier now p address holder (n_conflict n).
End naming.

(** ** Name records *)

(** The unique keys of the table names, and the reserved name. *)
Definition names_wf (s : State) : Prop :=
  (∀ a b n m, names s !! a = Some n → names s !! b = Some m → name_clash n m = true → a = b) ∧
  names s !! overwatchName = None.

Lemma name_clash_sym n m : name_clash n m = name_clash m n.
Proof.
  unfold name_clash. destruct (n_kind n), (n_kind m); cbn; unfold seqb; repeat case_bool_decide; cbn; congruence.
Qed.

Lemma insert_name_wf name n s u s' :
  names_wf s → name ≠ overwatchName → insert_name name n s = Ok (u, s') → names_wf s'.
Proof.
  intros [Hu Ho] Hn (-> & Hfree & Hc)%insert_name_Ok. split; cbn.
  - intros a b x y. rewrite !lookup_insert. repeat case_decide; subst; intros Ha Hb Hclash.
    + done.
    + injection Ha as <-. rewrite (Hc b y) in Hclash; done.
    + injection Hb as <-. rewrite name_clash_sym, (Hc a x) in Hclash; done.
    + by eapply Hu.
  - by rewrite lookup_insert_ne.
Qed.

(** [firstFree] inserts one candidate, the first that no name holds. *)
Lemma firstFree_Ok l ins s c s' : firstFree l ins s = Ok (c, s') →
  ∃ l1 l2, l = l1 ++ c :: l2 ∧ Forall (λ x, nameTaken x s = true) l1 ∧ nameTaken c s = false ∧ ins c s = Ok (tt, s').
Proof.
  revert s. induction l as [|x l IH]; intros s; cbn; [done|]. intros H. run H.
  destruct (nameTaken x s) eqn:E.
  - apply IH in H as (l1 & l2 & -> & Hf & Hc & Hi). exists (x :: l1), l2. split_and!; auto.
  - run H. destruct a. exists [], l. split_and!; auto.
Qed.

Lemma firstFree_total l ins s c :
  c ∈ l → nameTaken c s = false → (∀ x, nameTaken x s = false → ∃ s', ins x s = Ok (tt, s')) →
  ∃ x s', firstFree l ins s = Ok (x, s').
Proof.
  intros Hc Hf Hins. induction l as [|x l IH]; [by apply elem_of_nil in Hc|]. cbn. unfold mbind, M_bind, gets.
  destruct (nameTaken x s) eqn:E.
  - apply IH. apply elem_of_cons in Hc as [-> | Hc]; [congruence|done].
  - destruct (Hins x E) as [s' Hs]. rewrite Hs. by exists x, s'.
Qed.

Lemma nameTaken_false c s : nameTaken c s = false ↔ c ≠ overwatchName ∧ names s !! c = None.
Proof.
  unfold nameTaken. rewrite orb_false_iff, seqb_false, bool_decide_eq_false. by rewrite eq_None_not_Some.
Qed.

Lemma peer_name_of_Some k s name : peer_name_of k s = Some name →
  ∃ n, names s !! name = Some n ∧ n_kind n = Peer ∧ n_family n = Family k ∧ n_session_id n = ID k.
Proof.
  intros (n & Hl & HP)%first_key_Some. exists n. unfold is_peer_of in HP.
  rewrite !andb_true_iff, bool_decide_eq_true, !seqb_true in HP. naive_solver.
Qed.

Lemma address_of_Some f r o s a : address_of f r o s = Some a →
  ∃ n, names s !! a = Some n ∧ n_kind n = Alias ∧ n_family n = f ∧ n_repository n = r ∧ n_role n = o.
Proof.
  intros (n & Hl & HP)%first_key_Some. exists n. unfold is_address_of in HP.
  rewrite !andb_true_iff, bool_decide_eq_true, !seqb_true in HP. naive_solver.
Qed.

Lemma belongs_true now repo role k r : belongs now repo role k r = true ↔
  s_repository r = repo ∧ s_role r = role ∧ s_subagent r = false ∧ active_row now r = true ∧ participantQualifier k r = true.
Proof. unfold belongs. rewrite !andb_true_iff, negb_true_iff, !seqb_true. tauto. Qed.

Lemma holds_true now family id repo role s : holds now family id repo role s = true ↔
  ∃ r, sessions s !! mkKey family id = Some r ∧ belongs now repo role (mkKey family id) r = true.
Proof. unfold holds. destruct (sessions s !! _); naive_solver. Qed.

(** ** Held addresses *)

Lemma heldAddress_spec now k s a : heldAddress now k s = a → a ≠ ""%string →
  ∃ n r, names s !! a = Some n ∧ n_kind n = Alias ∧ n_family n = Family k ∧ n_holder_id n = ID k ∧
    sessions s !! k = Some r ∧ belongs now (n_repository n) (n_role n) k r = true.
Proof.
  unfold heldAddress. intros Ha Hne. destruct (head _) as [b|] eqn:E; cbn in Ha; [subst b|done].
  assert (a ∈ order_by_name id (fst <$> select (held_by now k s) (names s))) as Hin
    by (destruct (order_by_name _ _); [done|injection E as ->; left]).
  apply elem_of_order_by_name, list_elem_of_fmap in Hin as ([a' n] & -> & Hin%elem_of_select).
  destruct Hin as [Hl HP]. unfold held_by in HP.
  rewrite !andb_true_iff, bool_decide_eq_true, !seqb_true, holds_true in HP. cbn in *.
  destruct HP as [[[? ?] ?] (r & Hr & Hb)]. destruct k. by exists n, r.
Qed.

(** No name record's holder is a participant's own inbox: a registered session cannot take
    that form of ID ([validKey]). *)
Definition holders_native (s : State) : Prop := ∀ a n, names s !! a = Some n → isParticipantID (n_holder_id n) = false.

(** *** What each step leaves alone *)

Section frames.
Context {B : Type} (f : State → B).

Lemma keeps_participantEvent now a b c d e g :
  (∀ s x, f (s <| participant_events := x |>) = f s) → Keeps f (participantEvent now a b c d e g).
Proof. intros Hf. unfold participantEvent. apply keeps_modify. intros; apply Hf. Qed.
Lemma keeps_fence now a b c d : (∀ s x, f (s <| fences := x |>) = f s) → Keeps f (fence now a b c d).
Proof. intros Hf. unfold fence. apply keeps_modify. intros; apply Hf. Qed.
Lemma keeps_firstFree l ins : (∀ c, Keeps f (ins c)) → Keeps f (firstFree l ins).
Proof.
  intros Hi. induction l as [|c l IH]; cbn; [apply keeps_throw|]. apply keeps_bind; [apply keeps_gets|].
  intros [|]; [done|]. apply keeps_bind; [done|]. intros; apply keeps_ret.
Qed.
End frames.
Ltac names_keeps :=
  repeat first
    [ solve [eauto 2 with frame]
    | lazymatch goal with
      | |- Keeps _ (participantEvent _ _ _ _ _ _ _) => apply keeps_participantEvent; intros; reflexivity
      | |- Keeps _ (fence _ _ _ _ _) => apply keeps_fence; intros; reflexivity
      | |- Keeps _ (firstFree _ _) => apply keeps_firstFree; intro
      end
    | keeps_step ].

Lemma retire_active_keeps {B} (f : State → B) now k :
  (∀ s g, f (upd sessions g s) = f s) → Keeps f (retire_active now k).
Proof. intros Hf. apply keeps_modify. intros. apply Hf. Qed.
Lemma reset_inbox_keeps_names now k : Keeps names (reset_inbox now k).
Proof. unfold reset_inbox. keeps. Qed.
Lemma retire_active_keeps_names now k : Keeps names (retire_active now k).
Proof. by apply retire_active_keeps. Qed.
#[export] Hint Resolve reset_inbox_keeps_names retire_active_keeps_names : frame.

(** [setHolder] writes the record of its address, and no other. *)
Lemma setHolder_names now address former id reason actor details s u s' :
  setHolder now address former id reason actor details s = Ok (u, s') →
  ∃ n, names s !! address = Some n ∧
    names s' = <[address := n <| n_holder_id := id |> <| n_conflict := [] |> ]> (names s).
Proof.
  unfold setHolder. intros H. run H. rewrite lookup_alter_eq in L.
  destruct (names s !! address) as [n|] eqn:En; [|done]. exists n. split; [done|].
  apply (keeps_participantEvent names) in H; [|done].
  assert (Keeps names (when (negb (seqb former id)) (reset_inbox now (mkKey (n_family v) (participantKey address))))) as K by keeps.
  apply K in R0. clear K.
  assert (∀ b m, Keeps names m → Keeps names (when b m)) as K by (intros; by apply keeps_when).
  eapply K in R; [|names_keeps]. rewrite H, R0, R. cbn. apply map_eq. intros b.
  destruct (decide (b = address)) as [-> |]; [by rewrite lookup_alter_eq, lookup_insert_eq, En|].
  by rewrite lookup_alter_ne, lookup_insert_ne.
Qed.

(** [releaseAddress] clears the session as the recorded holder, everywhere. *)
Lemma releaseAddress_names now family id reason actor s u s' :
  releaseAddress now family id reason actor s = Ok (u, s') →
  names s' = update_where (recorded_holder family id) (λ n, n <| n_holder_id := "" |>) (names s).
Proof.
  unfold releaseAddress. intros H. run H. unfold when in H. destruct (negb _) eqn:E.
  - run H. apply (keeps_each names) in H; [by rewrite H|]. intros. by apply keeps_participantEvent.
  - run H. apply negb_false_iff, bool_decide_eq_true in E. symmetry. apply update_where_none. intros a n Hl.
    destruct (recorded_holder family id a n) eqn:Er; [|done]. exfalso.
    apply (elem_of_nil a). rewrite <-E. apply elem_of_order_by_name, list_elem_of_fmap.
    exists (a, n). split; [done|]. by apply elem_of_select.
Qed.

(** The names of [s'] are those of [s] and new records without a holder. *)
Definition names_extend (s s' : State) : Prop :=
  names s ⊆ names s' ∧
  ∀ a n, names s' !! a = Some n → names s !! a = None → n_holder_id n = ""%string.

#[export] Instance names_extend_preorder : PreOrder names_extend.
Proof.
  split; [split; [done|congruence]|]. intros s1 s2 s3 [H1 N1] [H2 N2]. split; [by etrans|].
  intros a n Hn H0. destruct (names s2 !! a) as [m|] eqn:E; [|eauto].
  pose proof (lookup_weaken _ _ _ _ E H2). replace n with m by congruence. eauto.
Qed.

Lemma insert_name_extend name n s u s' : insert_name name n s = Ok (u, s') → n_holder_id n = ""%string → names_extend s s'.
Proof.
  intros (-> & Hf & _)%insert_name_Ok Hn. split; cbn; [by apply insert_subseteq|].
  intros a m. rewrite lookup_insert. case_decide; [congruence|]. congruence.
Qed.

Section naming_lemmas.
Context `{SHA : Sha256}.

Lemma peerName_keeps {B} (f : State → B) fam id repo d : (∀ s g, f (s <| names := g |>) = f s) → Keeps f (peerName fam id repo d).
Proof. intros Hf. unfold peerName. names_keeps. by apply keeps_insert_name. Qed.
Lemma createAddress_keeps {B} (f : State → B) p : (∀ s g, f (s <| names := g |>) = f s) → Keeps f (createAddress p).
Proof. intros Hf. unfold createAddress. names_keeps. by apply keeps_insert_name. Qed.

Lemma peerName_extend fam id repo d s u s' : peerName fam id repo d s = Ok (u, s') → names_extend s s'.
Proof.
  unfold peerName. intros H. run H. destruct (peer_name_of _ s); run H; [reflexivity|].
  apply firstFree_Ok in R as (_ & _ & _ & _ & _ & R). by eapply insert_name_extend.
Qed.

Lemma createAddress_extend p s a s' : createAddress p s = Ok (a, s') → names_extend s s'.
Proof. intros (_ & _ & _ & _ & _ & R)%firstFree_Ok. by eapply insert_name_extend. Qed.

Lemma peerName_wf fam id repo d s u s' : names_wf s → peerName fam id repo d s = Ok (u, s') → names_wf s'.
Proof.
  unfold peerName. intros Hwf H. run H. destruct (peer_name_of _ s); run H; [done|].
  apply firstFree_Ok in R as (_ & _ & _ & _ & [Hc _]%nameTaken_false & R). by eapply insert_name_wf.
Qed.

Lemma createAddress_wf p s a s' : names_wf s → createAddress p s = Ok (a, s') → names_wf s'.
Proof. intros Hwf (_ & _ & _ & _ & [Hc _]%nameTaken_false & R)%firstFree_Ok. by eapply insert_name_wf. Qed.

(** The outcome of [choose_qualifier] on the names. *)
Inductive chosen (now : Z) (p : participant) (a : string) (n : NameRow) (s s' : State) : Prop :=
| chosen_none : names s' = names s → chosen now p a n s s'
| chosen_self name :
    qualifiers now a (p_family p) (p_repository p) (p_role p) s = [(p_id p, name)] →
    names s' = <[a := n <| n_holder_id := p_id p |> <| n_conflict := [] |> ]> (names s) → chosen now p a n s s'
| chosen_conflict peers :
    names s' = <[a := n <| n_conflict := peers |> <| n_holder_id := "" |> ]> (names s) → chosen now p a n s s'.

Lemma record_conflict_names now p a holder conflict peers n s u s' :
  names s !! a = Some n → record_conflict now p a holder conflict peers s = Ok (u, s') → chosen now p a n s s'.
Proof.
  intros Hn. unfold record_conflict. destruct (_ && _); intros Hr; run Hr; [by apply chosen_none|].
  apply (keeps_participantEvent names) in Hr; [|done].
  match type of R with when ?b ?m _ = _ =>
    assert (Keeps names (when b m)) as K by names_keeps end.
  apply K in R. apply (chosen_conflict _ _ _ _ _ _ peers). rewrite Hr, R. cbn.
  apply map_eq. intros b. rewrite lookup_alter, lookup_insert. case_decide; subst; [by rewrite Hn|done].
Qed.

Lemma choose_qualifier_names now p a holder conflict n s u s' :
  names s !! a = Some n → choose_qualifier now p a holder conflict s = Ok (u, s') → chosen now p a n s s'.
Proof.
  intros Hn. unfold choose_qualifier. intros Hr. run Hr.
  destruct (qualifiers now a _ _ _ s) as [|[id name] [|q qs]] eqn:Eq.
  - run Hr. by apply chosen_none.
  - destruct (seqb id (p_id p)) eqn:E1; [|run Hr; by apply chosen_none].
    destruct (seqb holder (p_id p)) eqn:E2; [run Hr; by apply chosen_none|].
    apply seqb_true in E1 as ->. apply setHolder_names in Hr as (n' & Hn' & Hns). rewrite Hn in Hn'. injection Hn' as <-.
    by eapply chosen_self.
  - by eapply record_conflict_names.
Qed.

(** The outcome of [assignNames] on the names, relative to a state [s1] with the names of
    [s] and new ones. *)
Inductive assigned (now : Z) (p : participant) (s s' : State) : Prop :=
| assigned_none : names_extend s s' → (names_wf s → names_wf s') → assigned now p s s'
| assigned_released s1 :
    names_extend s s1 → (names_wf s → names_wf s1) →
    names s' = update_where (recorded_holder (p_family p) (p_id p)) (λ n, n <| n_holder_id := "" |>) (names s1) →
    assigned now p s s'
| assigned_chosen s1 a n :
    names_extend s s1 → (names_wf s → names_wf s1) → sessions s1 = sessions s → fences s1 = fences s →
    names s1 !! a = Some n → n_kind n = Alias → n_family n = p_family p → n_repository n = p_repository p → n_role n = p_role p →
    (n_holder_id n = "" ∨ n_holder_id n = p_id p ∨
       holds now (p_family p) (n_holder_id n) (p_repository p) (p_role p) s = false)%string →
    chosen now p a n s1 s' → assigned now p s s'.

Lemma found_address_Ok found p s a s1 :
  address_of (p_family p) (p_repository p) (p_role p) s = found →
  match found with Some b => mret b | None => createAddress p end s = Ok (a, s1) →
  names_extend s s1 ∧ (names_wf s → names_wf s1) ∧ sessions s1 = sessions s ∧ fences s1 = fences s ∧
  ∃ n, names s1 !! a = Some n ∧ n_kind n = Alias ∧ n_family n = p_family p ∧ n_repository n = p_repository p ∧ n_role n = p_role p.
Proof.
  intros Hf Hr. destruct found as [b|].
  - run Hr. apply address_of_Some in Hf as (n & ? & ? & ? & ? & ?). split_and!; [reflexivity|done|done|done|]. by exists n.
  - split_and!; [by eapply createAddress_extend|intros; by eapply createAddress_wf|by eapply (createAddress_keeps sessions)|by eapply (createAddress_keeps fences)|].
    apply firstFree_Ok in Hr as (_ & _ & _ & _ & _ & (-> & _)%insert_name_Ok). cbn.
    eexists. rewrite lookup_insert_eq. by split_and!.
Qed.

Lemma assignNames_names now p s u s' : assignNames now p s = Ok (u, s') → assigned now p s s'.
Proof.
  unfold assignNames. intros Hr. run Hr. rename s0 into s1.
  pose proof (peerName_extend _ _ _ _ _ _ _ R) as He.
  pose proof (λ Hwf, peerName_wf _ _ _ _ _ _ _ Hwf R) as Hw.
  pose proof (peerName_keeps sessions _ _ _ _ (λ _ _, eq_refl) _ _ _ R) as Hs.
  pose proof (peerName_keeps fences _ _ _ _ (λ _ _, eq_refl) _ _ _ R) as Hf.
  destruct (p_subagent p); [eapply assigned_released; [done|done|by eapply releaseAddress_names]|]. run Hr.
  destruct (negb _); [eapply assigned_released; [done|done|by eapply releaseAddress_names]|].
  destruct (seqb _ ""); run Hr; [by apply assigned_none|].
  apply (found_address_Ok _ _ _ _ _ eq_refl) in R0 as (He2 & Hw2 & Hs2 & Hf2 & n & Hn & Hk & H1 & H2 & H3).
  rewrite Hn in L0. injection L0 as <-.
  assert (names_extend s s0) as He3 by by etrans.
  assert (names_wf s → names_wf s0) as Hw3 by auto.
  destruct (seqb (n_holder_id n) (p_id p) && _) eqn:E1; run Hr; [by apply assigned_none|].
  destruct (_ && holds _ _ _ _ _ _) eqn:E2; run Hr; [by apply assigned_none|].
  eapply (assigned_chosen _ _ _ _ s0 a0 n); try done; try congruence.
  - rewrite !andb_false_iff, !negb_false_iff, !seqb_true in E2.
    destruct E2 as [[?|?]|?]; auto. right; right. unfold holds in *. by rewrite <-Hs, <-Hs2.
  - by eapply choose_qualifier_names.
Qed.
End naming_lemmas.

(** ** Properties of the assignment *)

(** The part of a record that the unique indexes read. *)
Definition same_key (n n' : NameRow) : Prop :=
  n_kind n' = n_kind n ∧ n_family n' = n_family n ∧ n_session_id n' = n_session_id n ∧
  n_repository n' = n_repository n ∧ n_role n' = n_role n.

Lemma names_wf_same_keys s s' : names_wf s →
  (∀ a n', names s' !! a = Some n' → ∃ n, names s !! a = Some n ∧ same_key n n') → names_wf s'.
Proof.
  intros [Hu Ho] Hk. split.
  - intros a b n' m' Ha Hb Hc. destruct (Hk _ _ Ha) as (n & Hn & K1 & K2 & K3 & K4 & K5).
    destruct (Hk _ _ Hb) as (m & Hm & L1 & L2 & L3 & L4 & L5). apply (Hu a b n m Hn Hm).
    unfold name_clash in *. by rewrite K1, K2, K3, K4, K5, L1, L2, L3, L4, L5 in Hc.
  - destruct (names s' !! overwatchName) eqn:E; [|done]. destruct (Hk _ _ E) as (? & ? & _). congruence.
Qed.

Lemma chosen_same_keys now p a n s s' : names s !! a = Some n → chosen now p a n s s' →
  ∀ b n', names s' !! b = Some n' → ∃ m, names s !! b = Some m ∧ same_key m n'.
Proof.
  intros Hn Hc b n' Hb. destruct Hc as [Hs|name _ Hs|peers Hs]; rewrite Hs in Hb.
  - exists n'. by split_and!.
  - rewrite lookup_insert in Hb. case_decide; subst; [|exists n'; by split_and!].
    injection Hb as <-. exists n. by split_and!.
  - rewrite lookup_insert in Hb. case_decide; subst; [|exists n'; by split_and!].
    injection Hb as <-. exists n. by split_and!.
Qed.

Lemma released_same_keys f i s s' :
  names s' = update_where (recorded_holder f i) (λ n, n <| n_holder_id := "" |>) (names s) →
  ∀ b n', names s' !! b = Some n' → ∃ m, names s !! b = Some m ∧ same_key m n'.
Proof.
  intros -> b n' (m & Hm & ->)%lookup_update_where_Some. exists m. split; [done|]. destruct (recorded_holder _ _ _ _); by split_and!.
Qed.

Section assignment_properties.
Context `{SHA : Sha256}.

(** A session that becomes the holder of an address was its only qualifier. *)
Lemma qualifiers_single now a f r o s i name : qualifiers now a f r o s = [(i, name)] →
  qualifies now a f r o s (mkKey f i) <$> sessions s !! mkKey f i = Some true ∧
  ∀ k row, sessions s !! k = Some row → qualifies now a f r o s k row = true → k = mkKey f i.
Proof.
  unfold qualifiers. intros Hq. set (l := _ <$> select _ _) in Hq.
  assert (order_by_name snd l = [(i, name)]) as Ho.
  { destruct (order_by_name snd l) as [|x [|y t]] eqn:E; cbn in Hq; congruence. }
  assert (∀ x, x ∈ l → x = (i, name)) as Hall.
  { intros x Hx. apply (elem_of_order_by_name snd) in Hx. rewrite Ho in Hx. by apply list_elem_of_singleton in Hx. }
  assert ((i, name) ∈ l) as Hin.
  { apply (elem_of_order_by_name snd). rewrite Ho. left. }
  assert (∀ k row, qualifies now a f r o s k row = true → Family k = f) as Hfam.
  { intros k row Hk. unfold qualifies in Hk. rewrite !andb_true_iff, seqb_true in Hk. naive_solver. }
  split.
  - unfold l in Hin. apply list_elem_of_fmap in Hin as ([k row] & [= -> _] & [Hl HP]%elem_of_select).
    pose proof (Hfam _ _ HP) as <-. destruct k as [f i]. cbn in *. by rewrite Hl; cbn; rewrite HP.
  - intros k row Hl HP.
    assert ((ID k, default ""%string (peer_name_of k s)) ∈ l) as Hk.
    { apply list_elem_of_fmap. exists (k, row). split; [done|]. by apply elem_of_select. }
    apply Hall in Hk as [= <- _]. rewrite <-(Hfam _ _ HP). by destruct k.
Qed.

(** naming a session never makes an arbitrary session a holder.  Every holder after
    [assignNames] was the recorded holder before, or it is the assigned session itself and
    the only active, unfenced session that qualifies for the participant; so the order of
    registrations never decides, and a fenced session never takes its participant. *)
Theorem assignNames_new_holder now p s u s' a n' :
  assignNames now p s = Ok (u, s') → names s' !! a = Some n' → n_holder_id n' ≠ ""%string →
  (∃ n, names s !! a = Some n ∧ n_holder_id n = n_holder_id n') ∨
  (n_holder_id n' = p_id p ∧ n_family n' = p_family p ∧
   let me := mkKey (p_family p) (p_id p) in
   fenced a me s = false ∧ notParticipantRow me = true ∧
   (∃ r, sessions s !! me = Some r ∧ belongs now (p_repository p) (p_role p) me r = true) ∧
   ∀ k r, sessions s !! k = Some r →
     qualifies now a (p_family p) (p_repository p) (p_role p) s k r = true → k = me).
Proof.
  intros Hr Hn' Hne.
  assert (∀ s1 m, names_extend s s1 → names s1 !! a = Some m → n_holder_id m ≠ ""%string → ∃ n, names s !! a = Some n ∧ n_holder_id n = n_holder_id m) as Hext.
  { intros s1 m [Hsub Hnew] Hm Hh. destruct (names s !! a) as [n|] eqn:E; [|by destruct Hh; eapply Hnew].
    pose proof (lookup_weaken _ _ _ _ E Hsub). exists n. split; [done|congruence]. }
  apply assignNames_names in Hr as [He _|s1 He _ Hs|s1 b n He _ Hss Hff Hn Hk H1 H2 H3 Hold Hc].
  - left. by eapply Hext.
  - rewrite Hs in Hn'. apply lookup_update_where_Some in Hn' as (m & Hm & ->).
    destruct (recorded_holder _ _ _ _); [done|]. left. by eapply Hext.
  - destruct Hc as [Hs|name Hq Hs|peers Hs]; rewrite Hs in Hn'.
    + left. by eapply Hext.
    + rewrite lookup_insert in Hn'. case_decide; subst; [|left; by eapply Hext].
      injection Hn' as <-. right. cbn. split_and!; [done|done|..];
        apply qualifiers_single in Hq as [Hq Hall]; unfold qualifies in Hq, Hall; rewrite Hss in Hq, Hall;
        unfold fenced in Hq, Hall; rewrite Hff in Hq, Hall; apply fmap_Some in Hq as (r & Hr & Hq);
        symmetry in Hq; rewrite !andb_true_iff, !negb_true_iff in Hq.
      * unfold fenced. tauto.
      * tauto.
      * exists r. tauto.
      * exact Hall.
    + rewrite lookup_insert in Hn'. case_decide; subst; [|left; by eapply Hext].
      injection Hn' as <-. by destruct Hne.
Qed.

(** A valid holder stays: while the recorded holder of an address is active and still of
    its participant, the registration or renewal of any other session leaves the address as
    it is. *)
Theorem assignNames_keeps_holder now p s u s' a n :
  names_wf s → assignNames now p s = Ok (u, s') → names s !! a = Some n → n_kind n = Alias →
  n_holder_id n ≠ ""%string → n_holder_id n ≠ p_id p →
  holds now (n_family n) (n_holder_id n) (n_repository n) (n_role n) s = true →
  names s' !! a = Some n.
Proof.
  intros Hwf Hr Hn Hka Hne Hother Hh.
  apply assignNames_names in Hr as [[Hsub _] _|s1 [Hsub _] _ Hs|s1 b m [Hsub Hnew] _ Hss Hff Hm Hk H1 H2 H3 Hold Hc].
  - by eapply lookup_weaken.
  - rewrite Hs, lookup_update_where, (lookup_weaken _ _ _ _ Hn Hsub). cbn. unfold recorded_holder.
    apply seqb_false in Hother. rewrite Hother. by rewrite andb_false_r.
  - pose proof (lookup_weaken _ _ _ _ Hn Hsub) as Hn1.
    destruct (decide (a = b)) as [-> |Hab].
    + exfalso. rewrite Hm in Hn1. injection Hn1 as ->. rewrite H1, H2, H3 in *. destruct Hold as [?|[?|?]]; congruence.
    + destruct Hc as [-> |name _ -> |peers ->]; [done|by rewrite lookup_insert_ne..].
Qed.

(** names stay unique.  Naming a session keeps every name with its kind, family, session
    and participant, gives no record a key that another has, and never gives out the
    reserved name overwatch; peer names and addresses share the one name space. *)
Theorem assignNames_names_unique now p s u s' :
  names_wf s → assignNames now p s = Ok (u, s') →
  names_wf s' ∧ ∀ a n, names s !! a = Some n → ∃ n', names s' !! a = Some n' ∧ same_key n n'.
Proof.
  intros Hwf Hr.
  apply assignNames_names in Hr as [[Hsub _] Hw|s1 [Hsub _] Hw Hs|s1 b m [Hsub _] Hw _ _ Hm _ _ _ _ _ Hc].
  - split; [auto|]. intros a n Hn. exists n. split; [by eapply lookup_weaken|by split_and!].
  - split; [eapply (names_wf_same_keys s1); [auto|by eapply released_same_keys]|].
    intros a n Hn. rewrite Hs, lookup_update_where, (lookup_weaken _ _ _ _ Hn Hsub). eexists. split; [done|].
    destruct (recorded_holder _ _ _ _); by split_and!.
  - split; [eapply (names_wf_same_keys s1); [auto|by eapply chosen_same_keys]|].
    intros a n Hn. pose proof (lookup_weaken _ _ _ _ Hn Hsub) as Hn1.
    destruct Hc as [-> |name _ -> |peers ->]; [exists n; split; [done|by split_and!]|..];
      rewrite lookup_insert; case_decide; subst; (eexists; split; [done|]);
      try (rewrite Hn1 in Hm; injection Hm as <-); by split_and!.
Qed.

(** Peer names never run out early: a session that has no peer name gets one whenever one
    of its 287 candidates is free, the first free one; a session that has one keeps it. *)
Theorem peerName_total fam i repo d s :
  (∀ name, peer_name_of (mkKey fam i) s = Some name → peerName fam i repo d s = Ok (tt, s)) ∧
  (peer_name_of (mkKey fam i) s = None → length (peer_candidates fam i repo d) = 287%nat ∧
   ((∃ c, c ∈ peer_candidates fam i repo d ∧ nameTaken c s = false) →
    ∃ c s' l1 l2, peerName fam i repo d s = Ok (tt, s') ∧ peer_candidates fam i repo d = l1 ++ c :: l2 ∧
      Forall (λ x, nameTaken x s = true) l1 ∧ nameTaken c s = false ∧
      names s' = <[c := mkNameRow Peer fam i repo "" "" []]> (names s))).
Proof.
  split; [intros name E; unfold peerName, mbind, M_bind, gets; by rewrite E|]. intros E. split.
  - unfold peer_candidates. rewrite length_app, length_fmap, length_seq, lengths_length.
    assert (String.length (of_bytes (hex_encode (sha256 (to_bytes fam ++ nul :: to_bytes i)))) = 64%nat) as ->; [|done].
    apply (hex_sum_length (to_bytes fam ++ nul :: to_bytes i)).
  - intros (c & Hc & Hf). pose proof (first_key_None _ _ E) as Hnone.
    assert (∀ x, nameTaken x s = false → ∃ s', insert_name x (mkNameRow Peer fam i repo "" "" []) s = Ok (tt, s')) as Hins.
    { intros x [_ Hx]%nameTaken_false. eexists. apply insert_name_Ok. split_and!; [done|done|].
      intros k n' Hl. specialize (Hnone k n' Hl). unfold is_peer_of in Hnone. unfold name_clash. cbn in *. exact Hnone. }
    destruct (firstFree_total _ (λ x, insert_name x (mkNameRow Peer fam i repo "" "" [])) s c Hc Hf Hins) as (x & s' & Hx).
    pose proof Hx as (l1 & l2 & Hl & Ht & Hfr & (-> & _)%insert_name_Ok)%firstFree_Ok.
    exists x, (s <| names := <[x := mkNameRow Peer fam i repo "" "" []]> (names s) |>), l1, l2.
    split_and!; auto. unfold peerName, mbind, M_bind, gets. by rewrite E, Hx.
Qed.
End assignment_properties.

(** ** Exclusive and fenced holders *)

(** An address has at most one holder at a time, and it is an active session of the
    address's family, repository and role. *)
Theorem address_exclusive now k1 k2 s a :
  heldAddress now k1 s = a → heldAddress now k2 s = a → a ≠ ""%string → k1 = k2.
Proof.
  intros H1 H2 Hne. apply heldAddress_spec in H1 as (n1 & r1 & Hn1 & _ & Hf1 & Hi1 & _); [|done].
  apply heldAddress_spec in H2 as (n2 & r2 & Hn2 & _ & Hf2 & Hi2 & _); [|done]. destruct k1, k2. cbn in *. congruence.
Qed.

Definition retire_if_active (now : Z) (r : SessionRow) : SessionRow :=
  if active_row now r then r <| s_retired_at := now |> <| s_revision := s_revision r + 1 |> else r.

Lemma retired_row now r now' : 0 < now → now ≤ now' → active_row now' (retire_if_active now r) = false.
Proof.
  intros Hnow Hle. unfold retire_if_active. destruct (active_row now r) eqn:E; unfold active_row in *; cbn.
  - by destruct (Z.eqb_spec now 0); [lia|].
  - apply andb_false_iff in E as [E|E%Z.ltb_ge]; [by rewrite E|]. rewrite andb_comm.
    by destruct (Z.ltb_spec now' (s_expires_at r)); [lia|].
Qed.

(** The rows and messages after an inbox was reset for a new holder. *)
Lemma reset_inbox_spec now k s u s' : reset_inbox now k s = Ok (u, s') →
  sessions s' = alter (λ r, r <| s_read_through := s_acked_through r |>) k (sessions s) ∧
  fences s' = fences s ∧ names s' = names s ∧
  messages s' = match sessions s !! k with
                | Some r => update_where (unhandled k (s_acked_through r)) (await_wake now) (messages s)
                | None => messages s
                end.
Proof.
  unfold reset_inbox, update_session. intros H. run H. cbn. rewrite lookup_alter_eq.
  by destruct (sessions s !! k).
Qed.

(** [setHolder] on a real change of holder: the sessions, the fences and the messages. *)
Lemma setHolder_change now address former id reason actor details s u s' n :
  former ≠ id → names s !! address = Some n →
  setHolder now address former id reason actor details s = Ok (u, s') →
  let f := mkKey (n_family n) former in
  let inbox := mkKey (n_family n) (participantKey address) in
  let retired := if seqb former "" then sessions s else alter (retire_if_active now) f (sessions s) in
  sessions s' = alter (λ r, r <| s_read_through := s_acked_through r |>) inbox retired ∧
  fences s' = (if seqb former "" then fences s else <[(address, f) := (now, reason)]> (fences s)) ∧
  messages s' = match retired !! inbox with
                | Some r => update_where (unhandled inbox (s_acked_through r)) (await_wake now) (messages s)
                | None => messages s
                end.
Proof.
  intros Hne%seqb_false Hn Hr. unfold setHolder in Hr. run Hr. cbn in L. rewrite lookup_alter_eq, Hn in L.
  injection L as <-. cbn in *. rewrite Hne in *. cbn in *. apply reset_inbox_spec in R0 as (H1 & H2 & _ & H4).
  pose proof (keeps_participantEvent sessions _ _ _ _ _ _ _ (λ _ _, eq_refl) _ _ _ Hr) as K1.
  pose proof (keeps_participantEvent fences _ _ _ _ _ _ _ (λ _ _, eq_refl) _ _ _ Hr) as K2.
  pose proof (keeps_participantEvent messages _ _ _ _ _ _ _ (λ _ _, eq_refl) _ _ _ Hr) as K3.
  rewrite K1, K2, K3, H1, H2, H4.
  destruct (seqb former ""); cbn in R.
  - run R. done.
  - unfold retire_active, update_session, fence in R. run R. done.
Qed.

(** a replaced holder can act no more.  When another session takes an address from a
    recorded holder, that holder is fenced for the address and inactive from now on, so at no
    later time does it hold any address or pass as the holder, until it registers again. *)
Theorem former_holder_fenced now address former id reason actor details s u s' n :
  0 < now → former ≠ ""%string → former ≠ id → names s !! address = Some n →
  former ≠ participantKey address →
  setHolder now address former id reason actor details s = Ok (u, s') →
  let k := mkKey (n_family n) former in
  fenced address k s' = true ∧
  ∀ now', now ≤ now' →
    (∀ r, sessions s' !! k = Some r → active_row now' r = false) ∧
    heldAddress now' k s' = ""%string ∧ ∀ a, requireHolder now' k a s' ≠ None.
Proof.
  intros Hnow Hf1 Hf2 Hn Hpk Hr k. eapply setHolder_change in Hr as (Hs & Hf & _); [|done..].
  apply seqb_false in Hf1. rewrite Hf1 in Hs, Hf. split.
  { unfold fenced. rewrite Hf, lookup_insert_eq. by apply bool_decide_eq_true. }
  intros now' Hle.
  assert (∀ r, sessions s' !! k = Some r → active_row now' r = false) as Hin.
  { intros r. rewrite Hs, lookup_alter_ne by (unfold k; congruence). rewrite lookup_alter_eq.
    intros (r0 & _ & ->)%fmap_Some. by apply retired_row. }
  assert (heldAddress now' k s' = ""%string) as Hh.
  { destruct (decide (heldAddress now' k s' = "")) as [|Hne]; [done|].
    destruct (heldAddress_spec now' k s' _ eq_refl Hne) as (m & r & _ & _ & _ & _ & Hr & Hb).
    apply belongs_true in Hb as (_ & _ & _ & Ha & _). by rewrite (Hin r Hr) in Ha. }
  split_and!; [done|done|]. intros a. unfold requireHolder. by rewrite Hh.
Qed.

(** ** Witnesses *)

(** The name records of a state, checked pair by pair *)
Definition names_check (s : State) : bool :=
  bool_decide (names s !! overwatchName = None) &&
  forallb (λ x, forallb (λ y, seqb x.1 y.1 || negb (name_clash x.2 y.2)) (map_to_list (names s))) (map_to_list (names s)).
Lemma names_check_wf s : names_check s = true → names_wf s.
Proof.
  unfold names_check. rewrite andb_true_iff, bool_decide_eq_true. intros [Ho H]. split; [|done].
  intros a b n m Ha%elem_of_map_to_list%list_elem_of_In Hb%elem_of_map_to_list%list_elem_of_In Hc.
  rewrite forallb_forall in H. specialize (H _ Ha). rewrite forallb_forall in H. specialize (H _ Hb). cbn in H.
  rewrite Hc, orb_false_r in H. by apply seqb_true.
Qed.

(** A session of a participant that has no address yet, before and after it is named *)
Definition ops : participant := mkParticipant "claude" "o" "/r/x/.git" "/r/x" "ops" false false.
Definition unnamed : State :=
  small_state <| sessions := <[mkKey "claude" "o" := plain_row "/r/x/.git" "ops" "launch-2"]> (sessions small_state) |>.
Definition named : State := after (@assignNames zero_sum 20 ops) unnamed.

Lemma assignNames_new_holder_witness : ∃ n', names named !! "claude-x-ops"%string = Some n' ∧ n_holder_id n' = "o"%string ∧
  ((∃ n, names unnamed !! "claude-x-ops"%string = Some n ∧ n_holder_id n = n_holder_id n') ∨
   (n_holder_id n' = "o"%string ∧ ∀ k r, sessions unnamed !! k = Some r →
     qualifies 20 "claude-x-ops" "claude" "/r/x/.git" "ops" unnamed k r = true → k = mkKey "claude" "o")).
Proof.
  destruct (run_after (@assignNames zero_sum 20 ops) unnamed) as [u E]; [by vm_compute|].
  assert (∃ n', names named !! "claude-x-ops"%string = Some n' ∧ n_holder_id n' = "o"%string) as (n' & Hn & Hh).
  { eexists. split; [vm_compute; reflexivity|]. reflexivity. }
  exists n'. split; [exact Hn|]. split; [exact Hh|].
  assert (n_holder_id n' ≠ ""%string) as Hne by (rewrite Hh; discriminate).
  destruct (@assignNames_new_holder zero_sum 20 ops unnamed u named _ n' E Hn Hne) as [?|(H1 & _ & _ & _ & _ & H2)];
    [left; assumption|right; split; [exact H1|exact H2]].
Defined.
Lemma assignNames_keeps_holder_witness : ∃ n, names unnamed !! "claude-x-dev"%string = Some n ∧ names named !! "claude-x-dev"%string = Some n.
Proof.
  destruct (run_after (@assignNames zero_sum 20 ops) unnamed) as [u E]; [by vm_compute|].
  exists (mkNameRow Alias "claude" "" "/r/x/.git" "h" "dev" []).
  assert (names_wf unnamed) as Hwf by (apply names_check_wf; vm_compute; reflexivity).
  assert (names unnamed !! "claude-x-dev"%string = Some (mkNameRow Alias "claude" "" "/r/x/.git" "h" "dev" [])) as Hn by (vm_compute; reflexivity).
  split; [exact Hn|].
  refine (@assignNames_keeps_holder zero_sum 20 ops unnamed u named _ _ Hwf E Hn eq_refl _ _ _); [discriminate|discriminate|vm_compute; reflexivity].
Defined.
Lemma assignNames_names_unique_witness : names_wf named.
Proof.
  destruct (run_after (@assignNames zero_sum 20 ops) unnamed) as [u E]; [by vm_compute|].
  assert (names_wf unnamed) as Hwf by (apply names_check_wf; vm_compute; reflexivity).
  exact (proj1 (@assignNames_names_unique zero_sum 20 ops unnamed u named Hwf E)).
Defined.
Lemma address_exclusive_witness : heldAddress 20 holder_h small_state = "claude-x-dev"%string ∧ holder_h = mkKey "claude" "h".
Proof.
  assert (heldAddress 20 holder_h small_state = "claude-x-dev"%string) as H by (vm_compute; reflexivity).
  split; [exact H|]. refine (address_exclusive 20 holder_h (mkKey "claude" "h") small_state _ H H _). discriminate.
Defined.
Definition replaced : State := after (setHolder 30 "claude-x-dev" "h" "a" "maintainer" "maintainer" "") small_state.
Lemma former_holder_fenced_witness : fenced "claude-x-dev" holder_h replaced = true ∧ heldAddress 31 holder_h replaced = ""%string.
Proof.
  destruct (run_after (setHolder 30 "claude-x-dev" "h" "a" "maintainer" "maintainer" "") small_state) as [u E]; [by vm_compute|].
  assert (names small_state !! "claude-x-dev"%string = Some (mkNameRow Alias "claude" "" "/r/x/.git" "h" "dev" [])) as Hn by (vm_compute; reflexivity).
  assert ("h"%string ≠ ""%string ∧ "h"%string ≠ "a"%string ∧ "h"%string ≠ participantKey "claude-x-dev") as (N1 & N2 & N3) by (split_and!; discriminate).
  destruct (former_holder_fenced 30 "claude-x-dev" "h" "a" "maintainer" "maintainer" "" small_state u replaced _ ltac:(lia) N1 N2 Hn N3 E) as (H1 & H2).
  split; [exact H1|]. destruct (H2 31 ltac:(lia)) as (_ & H3 & _). exact H3.
Defined.
Lemma peerName_total_witness : length (@peer_candidates zero_sum "claude" "o" "/r/x/.git" "/r/x") = 287%nat ∧
  @peerName zero_sum "claude" "a" "/r/x/.git" "/r/x" small_state = Ok (tt, small_state).
Proof.
  split.
  - refine (proj1 (proj2 (@peerName_total zero_sum "claude" "o" "/r/x/.git" "/r/x" small_state) _)). vm_compute. reflexivity.
  - refine (proj1 (@peerName_total zero_sum "claude" "a" "/r/x/.git" "/r/x" small_state) "claude-x-0a" _). vm_compute. reflexivity.
Defined.
