(* ===== verification/Messages.v ===== *)
(** * Messages and inboxes (internal/core/messages.go)

    Sending, paged reading, acknowledgement and delivery state.  An inbox is a row of the
    table sessions (a native session, the maintainer or a participant) with the messages
    whose recipient it is. *)

From S2P Require Import Prelude GoString Schema Sql Storage Label Names.
Open Scope Z_scope.

Definition maxBody : Z := 65536.

(** ** Data *)

(** The typed room metadata of a message (rooms.go, [RoomEvent]). *)
Record RoomEvent := mkRoomEvent { ev_RoomID : string; ev_Revision : Z; ev_Event : string; ev_Seq : Z; ev_Origin : string }.

Inductive InboxKind := OfSession | OfParticipant.
#[export] Instance InboxKind_eq_dec : EqDecision InboxKind.
Proof. solve_decision. Defined.

Record Message := mkMessage {
  ms_ID : Z; ms_Seq : Z; ms_SenderFamily : string; ms_SenderName : string; ms_Body : string; ms_CreatedAt : Z;
  ms_DeliveryState : DeliveryState; ms_DeliveryReason : string; ms_Acknowledged : bool; ms_AcknowledgedBy : string;
  ms_AcknowledgedSession : string; ms_AcknowledgedVia : string; ms_Room : option RoomEvent;
  ms_SystemKind : string; ms_CycleID : string; ms_CycleEnableRevision : Z; ms_Inbox : InboxKind }.
#[export] Instance Message_eta : Eta Message := λ r,
  mkMessage (ms_ID r) (ms_Seq r) (ms_SenderFamily r) (ms_SenderName r) (ms_Body r) (ms_CreatedAt r)
    (ms_DeliveryState r) (ms_DeliveryReason r) (ms_Acknowledged r) (ms_AcknowledgedBy r)
    (ms_AcknowledgedSession r) (ms_AcknowledgedVia r) (ms_Room r) (ms_SystemKind r) (ms_CycleID r)
    (ms_CycleEnableRevision r) (ms_Inbox r).

Record ParticipantInbox := mkParticipantInbox { pi_Address : string; pi_LastSeq : Z; pi_AckedThrough : Z; pi_More : bool }.
Record Inbox := mkInbox {
  i_Messages : list Message; i_LastSeq : Z; i_AckedThrough : Z; i_More : bool; i_Participant : option ParticipantInbox }.

Definition acknowledgedBy (acknowledged maintainer : bool) : string :=
  if negb acknowledged then "" else if maintainer then "maintainer" else "recipient".

(** ** The caller and the recipient *)

(** [activeCaller]: [None] when the caller is an active session *)
Definition activeCaller (now : Z) (caller : Key) (dashboard : bool) (s : State) : option error :=
  if negb (validKey (Family caller) (ID caller)) && negb (dashboard && keqb caller maintainerKey) then Some ErrInvalid
  else match sessions s !! caller with
       | Some r => if active_row now r then None else Some ErrCallerInactive
       | None => Some ErrCallerInactive
       end.
Definition active (now : Z) (caller : Key) (s : State) : option error := activeCaller now caller false s.

(** [check f] goes on when [f] returns no error. *)
Definition check (f : State → option error) : tx unit := λ s,
  match f s with None => Ok (tt, s) | Some e => Err e end.

(** platform.ProcessStart: the start time of the process with an ID *)
Inductive ProcessStart := ProcessGone | ProcessUnreadable | StartedAt (t : Z).

(** liveness.go, [inactiveReason] *)
Definition inactiveReason (processStart : Z → ProcessStart) (k : Key) (s : State) : error :=
  match sessions s !! k with
  | None => ErrRecipientInactive
  | Some r =>
      InactiveRecipient
        (if negb (s_retired_at r =? 0) then "retired"
         else if s_subagent r || (s_host_pid r <=? 0) || (s_host_start r <=? 0) then "no_liveness_evidence"
         else match processStart (s_host_pid r) with
              | ProcessGone => "ended"
              | StartedAt t => if t =? s_host_start r then "lapsed" else "ended"
              | ProcessUnreadable => "no_liveness_evidence"
              end)
  end.

(** maintainer_changes.go, [bumpInbox] *)
Definition bumpInbox (inbox : Key) : tx unit := when (keqb inbox maintainerKey) (bumpChange changeInbox).

(** ** Send *)

(** The row of a new message: every column that the INSERT does not name has its default. *)
Definition new_message (recipient : Key) (seq : Z) (sender : Key) (sender_name body : string) (now : Z) : MessageRow :=
  mkMessageRow recipient seq sender sender_name body now Waiting "" now 0 0 "" 0 false "" "" "" 0 "" 0 "" "" "" 0 0.

(** The recipient session of a name, and whether it is a participant's inbox. *)
Definition recipient_of (now : Z) (to : string) (n : NameRow) : tx string :=
  match n_kind n with
  | Alias =>
      held ← gets (λ s, negb (seqb (n_holder_id n) "") &&
                        holds now (n_family n) (n_holder_id n) (n_repository n) (n_role n) s);
      _ ← ensure held ErrAliasUnheld;
      _ ← ensureParticipantInbox now to;
      mret (participantKey to)
  | Peer => mret (n_session_id n)
  end.

(** The name that the caller sends under: the address it holds, otherwise its peer name. *)
Definition sender_of (now : Z) (caller : Key) : tx string :=
  held ← gets (heldAddress now caller);
  if seqb held "" then o ← gets (peer_name_of caller); row (o : option string) NoRows else mret held.

Definition sendTx (processStart : Z → ProcessStart) (now : Z) (caller : Key) (to body : string) (dashboard : bool) : tx Outcome :=
  _ ← check (activeCaller now caller dashboard);
  o ← gets (λ s, names s !! to);
  n ← row (o : option NameRow) ErrPeerNotFound;
  session_id ← recipient_of now to n;
  sender ← sender_of now caller;
  let recipient := mkKey (n_family n) session_id in
  taken ← take_seq recipient now;
  match taken with
  | None => reason ← gets (inactiveReason processStart recipient); throw reason
  | Some seq =>
      id ← insert_message (new_message recipient seq caller sender body now);
      _ ← bumpInbox recipient;
      shown ← (if isParticipantID session_id then mret to
               else o ← gets (peer_name_of recipient); row (o : option string) NoRows);
      _ ← when dashboard (setAuditTarget ("to " +:+ shown +:+ " bytes " +:+ itoa (len body) +:+ " message " +:+ itoa id +:+
             (if seqb to shown then "" else " via " +:+ to)));
      mret (mkOutcome id shown seq (Stored Waiting) "" "" 0 now false "" "" "")
  end.

(** The checks of [send] on its arguments. *)
Definition send_valid (to body : string) : bool :=
  negb (seqb to "") && (len to <=? 256) && negb (seqb body "") && (len body <=? maxBody) && valid_string body.

Definition send (processStart : Z → ProcessStart) (now at_ : Z) (audit : option PendingAudit) (en : Engine)
    (caller : Key) (to body : string) (dashboard : bool) (st : Store) : result error Outcome * Store :=
  if negb (send_valid to body) then (Err ErrInvalid, st)
  else write (mkWrite ordinary true at_ audit (λ _, None)) en (sendTx processStart now caller to body dashboard) st.

(** ** Read *)

(** The pending rows of an inbox after a sequence, in sequence order *)
Definition pending_rows (inbox : Key) (after : Z) (s : State) : list (Z * MessageRow) :=
  order_by (λ im, m_seq im.2) (select (λ _ m, keqb (m_recipient m) inbox && (after <? m_seq m)) (messages s)).

(** The size of a message in the bound of a page: its body with its room and system metadata *)
Definition message_size (m : MessageRow) : Z :=
  len (m_body m) + (len (m_room_id m) + len (m_room_event m) + len (m_system_kind m) + len (m_cycle_id m)).

(** The loop of [readMessages] over the scanned rows: [count] messages with [size] bytes are
    in the page already. *)
Fixpoint fill_page (limit size count : Z) (rows : list (Z * MessageRow)) : list (Z * MessageRow) * bool :=
  match rows with
  | [] => ([], false)
  | im :: rows =>
      if (count =? limit) || ((0 <? count) && (size + message_size im.2 >? Z.shiftl 1 20)) then ([], true)
      else let '(page, more) := fill_page limit (size + message_size im.2) (count + 1) rows in (im :: page, more)
  end.

Definition room_event_of (m : MessageRow) : option RoomEvent :=
  if seqb (m_room_id m) "" then None
  else Some (mkRoomEvent (m_room_id m) (m_room_revision m) (m_room_event m) (m_room_seq m) (m_room_origin m)).

(** One row as [readMessages] returns it *)
Definition view_message (acked : Z) (kind : InboxKind) (im : Z * MessageRow) : Message :=
  let m := im.2 in
  let acknowledged := m_seq m <=? acked in
  mkMessage im.1 (m_seq m) (Family (m_sender m)) (m_sender_name m) (m_body m) (m_created_at m)
    (m_delivery_state m) (m_delivery_reason m) acknowledged (acknowledgedBy acknowledged (m_maintainer_ack m))
    (if acknowledged then m_ack_session m else "") (if acknowledged then m_ack_via m else "") (room_event_of m)
    (m_system_kind m) (m_cycle_id m) (m_cycle_enable_revision m) kind.

Definition readMessages (inbox : Key) (after limit : Z) (kind : InboxKind) : tx (list Message * (Z * Z * bool)) :=
  o ← gets (λ s, sessions s !! inbox);
  r ← row (o : option SessionRow) NoRows;
  rows ← gets (λ s, take (Z.to_nat (limit + 1)) (pending_rows inbox after s));
  let '(page, more) := fill_page limit 0 0 rows in
  mret (view_message (s_acked_through r) kind <$> page, (s_last_seq r, s_acked_through r, more)).

(** [agentAckVia] *)
Definition agentAckVia (via : string) : string :=
  if seqb via "dashboard" || has_prefix via "mcp:" then "maintainer" else via.
Definition hide_client (m : Message) : Message := m <| ms_AcknowledgedVia := agentAckVia (ms_AcknowledgedVia m) |>.

(** The read transaction of [ReadInboxes] *)
Definition readInboxes (now : Z) (caller : Key) (after : Z) (participantAfter : option Z) (limit : Z) : tx (Inbox * string) :=
  let limit := if limit =? 0 then 50 else limit in
  _ ← ensure (negb ((after <? 0) || (limit <? 1) || (100 <? limit) ||
        match participantAfter with Some p => p <? 0 | None => false end)) ErrInvalid;
  _ ← check (active now caller);
  address ← gets (heldAddress now caller);
  stale ← gets (staleHolder now caller);
  _ ← ensure (negb (bool_decide (is_Some participantAfter) && seqb address "")) stale;
  own ← readMessages caller after limit OfSession;
  let '(ms, (last, acked, more)) := own in
  if seqb address "" then mret (mkInbox (hide_client <$> ms) last acked more None, address)
  else
    let inbox := mkKey (Family caller) (participantKey address) in
    exists_ ← gets (λ s, bool_decide (is_Some (sessions s !! inbox)));
    if (exists_ : bool) then
      theirs ← readMessages inbox (default 0 participantAfter) limit OfParticipant;
      let '(ps, (plast, packed, pmore)) := theirs in
      mret (mkInbox (hide_client <$> (ms ++ ps)) last acked more (Some (mkParticipantInbox address plast packed pmore)), address)
    else mret (mkInbox (hide_client <$> ms) last acked more (Some (mkParticipantInbox address 0 0 false)), address).

(** The highest sequence that a read returned from one kind of inbox, with the sequence that
    it started after; [None] when it returned no message of that kind *)
Definition read_of (kind : InboxKind) (ms : list Message) : option Z :=
  match filter (λ m, ms_Inbox m = kind) ms with
  | [] => None
  | l => Some (foldr (λ m z, z `max` ms_Seq m) 0 l)
  end.

Definition mark (inbox : Key) (after through : Z) : tx unit :=
  update_session inbox (λ r,
    if (s_read_through r <? through) && (after <=? s_read_through r `max` s_acked_through r)
    then r <| s_read_through := through |> else r).

(** The write of [markRead] *)
Definition markReadTx (now : Z) (caller : Key) (address : string) (after : Z) (participantAfter : option Z) (ms : list Message) : tx unit :=
  held ← gets (heldAddress now caller);
  _ ← match read_of OfSession ms with Some through => mark caller after through | None => mret tt end;
  match read_of OfParticipant ms with
  | Some through =>
      when (negb (negb (seqb address "") && negb (seqb held address)))
        (mark (mkKey (Family caller) (participantKey address)) (default 0 participantAfter) through)
  | None => mret tt
  end.

(** [markRead]: a read that returned nothing writes nothing, and a failed write is dropped. *)
Definition markRead (now : Z) (en : Engine) (caller : Key) (address : string) (after : Z) (participantAfter : option Z)
    (ms : list Message) (st : Store) : Store :=
  match ms with
  | [] => st
  | _ => snd (write (mkWrite control false now None (λ _, None)) en (markReadTx now caller address after participantAfter ms) st)
  end.

(** ** Acknowledge *)

(** [ackedBy] *)
Definition ackedBy (caller : Key) (s : State) : string :=
  if keqb caller maintainerKey then "maintainer" else default (Family caller) (peer_name_of caller s).

(** The messages of an inbox that an acknowledgement from [acked] through [through] covers *)
Definition newly_acked (inbox : Key) (acked through : Z) (_ : Z) (m : MessageRow) : bool :=
  keqb (m_recipient m) inbox && (acked <? m_seq m) && (m_seq m <=? through).

(** [ackIf], inside its transaction: [through] below zero means the newest sequence, and
    [origin] is the maintainer client of the request's context. *)
Definition ackTx (now : Z) (caller : Key) (through : Z) (dashboard : bool) (revision : Z) (origin : string) : tx Z :=
  _ ← when (negb dashboard) (check (active now caller));
  o ← gets (λ s, sessions s !! caller);
  r ← row (o : option SessionRow) (if dashboard then ErrMissing else NoRows);
  _ ← ensure (negb ((0 <? revision) && negb (s_revision r =? revision))) ErrConflict;
  let last := s_last_seq r in
  let acked := s_acked_through r in
  let through := if through <? 0 then last else through in
  _ ← ensure (through <=? last) ErrAckBeyondLast;
  if acked <? through then
    _ ← update_session caller (λ r, r <| s_acked_through := through |>);
    name ← gets (λ s, if dashboard then "maintainer"%string else ackedBy caller s);
    let via := if dashboard then (if seqb origin "" then "dashboard" else origin)%string else "ack"%string in
    _ ← modify (λ s, s <| messages := update_where (newly_acked caller acked through)
           (λ m, m <| m_maintainer_ack := m_maintainer_ack m || dashboard |> <| m_ack_session := name |> <| m_ack_via := via |>)
           (messages s) |>);
    _ ← bumpInbox caller;
    mret through
  else mret acked.

Definition ackIf (now at_ : Z) (audit : option PendingAudit) (en : Engine) (caller : Key) (through : Z) (dashboard : bool)
    (revision : Z) (origin : string) (st : Store) : result error Z * Store :=
  if (through <? 0) && negb dashboard then (Err ErrInvalid, st)
  else write (mkWrite control true at_ audit (λ _, None)) en (ackTx now caller through dashboard revision origin) st.

(** [Ack] and [ackAt] *)
Definition Ack now at_ audit en caller through := ackIf now at_ audit en caller through false 0 "".
Definition ackAt (now at_ : Z) audit en (k : Key) (revision : Z) (origin : string) (st : Store) : result error Z * Store :=
  if revision <? 1 then (Err ErrInvalid, st) else ackIf now at_ audit en k (-1) true revision origin st.

(** [AckParticipant], inside its transaction *)
Definition ackParticipantTx (now : Z) (caller : Key) (through : Z) : tx (string * Z) :=
  _ ← check (active now caller);
  address ← gets (heldAddress now caller);
  stale ← gets (staleHolder now caller);
  _ ← ensure (negb (seqb address "")) stale;
  _ ← ensureParticipantInbox now address;
  let inbox := mkKey (Family caller) (participantKey address) in
  o ← gets (λ s, sessions s !! inbox);
  r ← row (o : option SessionRow) NoRows;
  let acked := s_acked_through r in
  _ ← ensure (through <=? s_last_seq r) ErrAckBeyondLast;
  if acked <? through then
    _ ← update_session inbox (λ r, r <| s_acked_through := through |> <| s_acked_by := Family caller +:+ ":" +:+ ID caller |>);
    name ← gets (ackedBy caller);
    _ ← modify (λ s, s <| messages := update_where (newly_acked inbox acked through)
           (λ m, m <| m_ack_session := name |> <| m_ack_via := "participant_ack" |>) (messages s) |>);
    mret (address, through)
  else mret (address, acked).

Definition AckParticipant (now at_ : Z) (audit : option PendingAudit) (en : Engine) (caller : Key) (through : Z) (st : Store) :
    result error (string * Z) * Store :=
  if through <? 0 then (Err ErrInvalid, st)
  else write (mkWrite control true at_ audit (λ _, None)) en (ackParticipantTx now caller through) st.

(** ** Outcomes and delivery state *)

Definition MessageOutcome (now : Z) (caller : Key) (id : Z) : tx Outcome :=
  _ ← check (active now caller);
  s ← gets (λ s, s);
  match messages s !! id with
  | Some m =>
      match sessions s !! m_recipient m with
      | Some r =>
          if keqb (m_sender m) caller then
            let acknowledged := m_seq m <=? s_acked_through r in
            let recipient :=
              if isParticipantID (ID (m_recipient m)) then trim_prefix (ID (m_recipient m)) participantPrefix
              else default ""%string (peer_name_of (m_recipient m) s) in
            mret (mkOutcome id recipient (m_seq m) (Stored (m_delivery_state m)) (m_delivery_reason m) (m_wake_reason m)
                    (m_wake_notices m) (m_delivery_updated_at m) acknowledged (acknowledgedBy acknowledged (m_maintainer_ack m))
                    (if acknowledged then m_ack_session m else "") (if acknowledged then agentAckVia (m_ack_via m) else ""))
          else throw ErrMessageNotFound
      | None => throw ErrMessageNotFound
      end
  | None =>
      if (0 <? id) && (id <=? messages_issued s)
      then mret (mkOutcome id "" 0 Deleted "" "" 0 0 false "" "" "")
      else throw ErrMessageNotFound
  end.

(** The check of [SetDelivery]: a failed state carries a reason, the others carry none. *)
Definition delivery_valid (state : DeliveryState) (reason : string) : bool :=
  match state with
  | Failed => negb (seqb reason "") && (len reason <=? 256)
  | Waiting | Notified | Uncertain => seqb reason ""
  end.

Definition setDeliveryTx (now : Z) (id : Z) (state : DeliveryState) (reason : string) : tx unit :=
  found ← gets (λ s, bool_decide (is_Some (messages s !! id)));
  _ ← modify (λ s, s <| messages := alter (λ m,
         m <| m_delivery_state := state |> <| m_delivery_reason := reason |> <| m_delivery_updated_at := now |>) id (messages s) |>);
  ensure found ErrMessageNotFound.

Definition SetDelivery (now : Z) (en : Engine) (id : Z) (state : DeliveryState) (reason : string) (st : Store) :
    result error unit * Store :=
  if negb (delivery_valid state reason) then (Err ErrInvalid, st)
  else write (mkWrite control false now None (λ _, None)) en (setDeliveryTx now id state reason) st.
