(* ===== verification/Inboxes.v ===== *)
(** * The inbox invariant

    What every operation that writes inboxes keeps: message IDs are issued once, the messages of
    an inbox hold one sequence each, without a gap up to its last sequence (the retention removes
    the oldest first), and the acknowledgement and read positions never pass the last sequence. *)

From S2P Require Import Prelude GoString Schema Sql Storage Label Names Messages.
Open Scope Z_scope.

(** ** Invariants of computations *)

(** ** The invariant *)

(** The inbox [k] has a message with the sequence [q]. *)
Definition has_seq (s : State) (k : Key) (q : Z) : Prop := ∃ i m, messages s !! i = Some m ∧ m_recipient m = k ∧ m_seq m = q.

Record inbox_wf (s : State) : Prop := {
  wf_ids : ∀ i m, messages s !! i = Some m → 1 ≤ i ≤ messages_issued s;
  wf_issued : 0 ≤ messages_issued s;
  wf_seqs : ∀ i m, messages s !! i = Some m →
    1 ≤ m_seq m ∧ ∃ r, sessions s !! m_recipient m = Some r ∧ m_seq m ≤ s_last_seq r;
  wf_unique : ∀ i j m n, messages s !! i = Some m → messages s !! j = Some n →
    m_recipient m = m_recipient n → m_seq m = m_seq n → i = j;
  wf_gapless : ∀ i m r q, messages s !! i = Some m → sessions s !! m_recipient m = Some r → m_seq m ≤ q ≤ s_last_seq r → has_seq s (m_recipient m) q;
  wf_positions : ∀ k r, sessions s !! k = Some r →
    0 ≤ s_acked_through r ≤ s_last_seq r ∧ s_read_through r ≤ s_last_seq r }.

(** What the invariant reads. *)
Definition inbox_view (s : State) := (sessions s, messages s, messages_issued s).
Lemma inbox_wf_view s s' : inbox_view s' = inbox_view s → inbox_wf s → inbox_wf s'.
Proof. unfold inbox_view. intros [= H1 H2 H3] [W1 W2 W3 W4 W5 W6]. split; unfold has_seq in *; rewrite ?H1, ?H2, ?H3; done. Qed.

Lemma wf_of_keeps {A} (m : tx A) : Keeps inbox_view m → Maintains inbox_wf m.
Proof. apply maintains_keeps, inbox_wf_view. Qed.

(** A change of session rows that keeps each row's sequence and does not move its positions
    past it. *)
Definition positions_le (r r' : SessionRow) : Prop :=
  s_last_seq r' = s_last_seq r ∧ 0 ≤ s_acked_through r' ≤ s_last_seq r ∧ s_read_through r' ≤ s_last_seq r.

Lemma inbox_wf_sessions s s' : inbox_wf s → messages s' = messages s → messages_issued s' = messages_issued s →
  (∀ k r, sessions s !! k = Some r → ∃ r', sessions s' !! k = Some r' ∧ positions_le r r') →
  (∀ k r', sessions s' !! k = Some r' → sessions s !! k = None → s_last_seq r' = 0 ∧ s_acked_through r' = 0 ∧ s_read_through r' ≤ 0) →
  inbox_wf s'.
Proof.
  intros [W1 W2 W3 W4 W5 W6] Hm Hi Hold Hnew. split; rewrite ?Hm, ?Hi; auto.
  - intros i m Hl. destruct (W3 i m Hl) as (H1 & r & Hr & Hle). split; [done|].
    destruct (Hold _ _ Hr) as (r' & Hr' & Hl' & _). exists r'. by rewrite Hl'.
  - intros i m r' q Hm' Hr' Hq. destruct (W3 _ _ Hm') as (_ & r & Hr & _). destruct (Hold _ _ Hr) as (r2 & Hr2 & Hl & _).
    unfold has_seq. rewrite Hm. apply (W5 i m r q); [done|done|]. rewrite Hr' in Hr2. injection Hr2 as <-. lia.
  - intros k r' Hr'. destruct (sessions s !! k) as [r|] eqn:E.
    + destruct (Hold _ _ E) as (r2 & Hr2 & Hl & Ha & Hrd). rewrite Hr' in Hr2. injection Hr2 as <-. lia.
    + destruct (Hnew _ _ Hr' E) as (? & ? & ?). lia.
Qed.

(** A change of messages that keeps each one's inbox and sequence. *)
Lemma inbox_wf_messages s s' f : inbox_wf s → sessions s' = sessions s → messages_issued s' = messages_issued s →
  (∀ i, messages s' !! i = f i <$> messages s !! i) →
  (∀ i m, m_recipient (f i m) = m_recipient m ∧ m_seq (f i m) = m_seq m) → inbox_wf s'.
Proof.
  intros [W1 W2 W3 W4 W5 W6] Hs Hi Hm Hf. split; rewrite ?Hs, ?Hi; auto.
  - intros i m'. rewrite Hm. intros (m & Hl & ->)%fmap_Some. eauto.
  - intros i m'. rewrite Hm. intros (m & Hl & ->)%fmap_Some. destruct (Hf i m) as [-> ->]. eauto.
  - intros i j m' n'. rewrite !Hm. intros (m & Hl & ->)%fmap_Some (n & Hj & ->)%fmap_Some.
    destruct (Hf i m) as [-> ->], (Hf j n) as [-> ->]. eauto.
  - intros i m' r q. rewrite Hm. intros (m & Hl & ->)%fmap_Some. destruct (Hf i m) as [-> ->]. intros Hr Hq. destruct (W5 i m r q Hl Hr Hq) as (j & n & Hj & H1 & H2).
    exists j, (f j n). rewrite Hm, Hj. destruct (Hf j n) as [-> ->]. done.
Qed.

Lemma wf_update_messages P f : (∀ m, m_recipient (f m) = m_recipient m ∧ m_seq (f m) = m_seq m) →
  Maintains inbox_wf (modify (λ s, s <| messages := update_where P f (messages s) |>)).
Proof.
  intros Hf. apply maintains_modify. intros s Hs.
  eapply (inbox_wf_messages s _ (λ i m, if P i m then f m else m)); [done..| |].
  - intros i. cbn. by rewrite lookup_update_where.
  - intros i m. destruct (P i m); auto.
Qed.

Lemma wf_update_session k f : (∀ r, 0 ≤ s_acked_through r ≤ s_last_seq r → s_read_through r ≤ s_last_seq r → positions_le r (f r)) →
  Maintains inbox_wf (update_session k f).
Proof.
  intros Hf. unfold update_session. apply maintains_modify. intros s Hs.
  eapply (inbox_wf_sessions s); [done..| |]; cbn.
  - intros k' r Hr. destruct (wf_positions _ Hs _ _ Hr). rewrite lookup_alter. case_decide; subst; rewrite Hr; cbn.
    + eexists. split; [done|]. by apply Hf.
    + exists r. split; [done|]. unfold positions_le. lia.
  - intros k' r. rewrite lookup_alter. case_decide; subst; [|congruence]. intros (? & ? & _)%fmap_Some. congruence.
Qed.

(** ** Delivery: a sequence is taken and its message inserted *)

Lemma deliver_row_wf k r m s i s2 :
  inbox_wf s → sessions s !! k = Some r → m_recipient m = k → m_seq m = s_last_seq r + 1 →
  insert_message m (s <| sessions := <[k := r <| s_last_seq := s_last_seq r + 1 |> ]> (sessions s) |>) = Ok (i, s2) → inbox_wf s2.
Proof.
  intros [W1 W2 W3 W4 W5 W6] Hr Hk Hq.
  intros (-> & -> & _)%insert_message_Ok. cbn.
  pose proof (W6 _ _ Hr) as Hpos.
  assert (messages s !! (messages_issued s + 1) = None) as Hfresh.
  { destruct (messages s !! _) eqn:E; [|done]. apply W1 in E. lia. }
  split; cbn.
  - intros i m'. rewrite lookup_insert. case_decide; [intros [= <-]; lia|]. intros Hl%W1. lia.
  - lia.
  - intros i m'. rewrite lookup_insert. case_decide; [intros [= <-]|intros Hl].
    + rewrite Hq, Hk, lookup_insert_eq. split; [lia|]. eexists. split; [done|]. cbn. lia.
    + destruct (W3 _ _ Hl) as (H1 & r' & Hr' & Hle). split; [done|]. rewrite lookup_insert. case_decide; [|eauto].
      eexists. split; [done|]. cbn. replace r with r' by congruence. lia.
  - intros i j a b. rewrite !lookup_insert. repeat case_decide; intros Ha Hb Hrec Hseq; subst; try lia.
    + injection Ha as <-. destruct (W3 _ _ Hb) as (_ & r' & Hr' & Hle). rewrite <-Hrec in Hr'.
      replace r' with r in Hle by congruence. lia.
    + injection Hb as <-. destruct (W3 _ _ Ha) as (_ & r' & Hr' & Hle). rewrite Hrec in Hr'.
      replace r' with r in Hle by congruence. lia.
    + eauto.
  - intros i m' r' q' Hm' Hr' Hq'. rewrite lookup_insert in Hm'. rewrite lookup_insert in Hr'. unfold has_seq. cbn.
    assert (m_recipient m' = k → q' = s_last_seq r + 1 → ∃ i0 m0, <[messages_issued s + 1:=m]> (messages s) !! i0 = Some m0 ∧ m_recipient m0 = m_recipient m' ∧ m_seq m0 = q') as Hlast.
    { intros Hk' ->. exists (messages_issued s + 1), m. rewrite lookup_insert_eq. split_and!; congruence. }
    destruct (decide (messages_issued s + 1 = i)) as [Hi|Hi]; [injection Hm' as <-; destruct (decide (k = m_recipient m)); [|congruence]; injection Hr' as <-; cbn in Hq'; apply Hlast; [done|lia]|].
    assert (∃ r0, sessions s !! m_recipient m' = Some r0 ∧ (m_recipient m' = k → q' ≠ s_last_seq r + 1 → q' ≤ s_last_seq r0) ∧ (m_recipient m' ≠ k → r0 = r')) as (r0 & Hr0 & Hb1 & Hb2).
    { destruct (decide (k = m_recipient m')) as [Hkk|Hkk]; [injection Hr' as <-; cbn in Hq'; exists r; rewrite <-Hkk|exists r']; (split; [done|split]); try done; try congruence; intros; lia. }
    destruct (decide (m_recipient m' = k ∧ q' = s_last_seq r + 1)) as [[? ?]|Hnot]; [by apply Hlast|].
    destruct (W5 i m' r0 q' Hm' Hr0) as (j & n & Hj & ? & ?).
    { split; [lia|]. destruct (decide (m_recipient m' = k)) as [Hk'|Hk']; [apply Hb1; [done|naive_solver]|]. rewrite (Hb2 Hk'). lia. }
    exists j, n. rewrite lookup_insert_ne; [done|]. intros <-. congruence.
  - intros k' r'. rewrite lookup_insert. case_decide; [intros [= <-]; cbn; lia|]. apply W6.
Qed.
Lemma deliver_wf k now q m s s1 i s2 :
  inbox_wf s → take_seq k now s = Ok (Some q, s1) → m_recipient m = k → m_seq m = q →
  insert_message m s1 = Ok (i, s2) → inbox_wf s2.
Proof. intros Hwf [(r & Hr & _ & [= ->] & ->)|(? & _)]%take_seq_Ok Hk Hq; [|done]. by eapply deliver_row_wf. Qed.

(** A message to an inbox, when it takes one *)
Lemma send_copy_wf {A} k now (text : Z → MessageRow) (none : A) (some : Z → A) :
  (∀ q, m_recipient (text q) = k ∧ m_seq (text q) = q) →
  Maintains inbox_wf (taken ← take_seq k now; match (taken : option Z) with None => mret none | Some q => id ← insert_message (text q); mret (some id) end).
Proof.
  intros Ht s a s' Hwf H. apply bind_Ok in H as ([q|] & s1 & Hq & H).
  - apply bind_Ok in H as (id & s2 & Hi & H). run H. destruct (Ht q). by eapply deliver_wf.
  - apply take_seq_Ok in Hq as [(? & _ & _ & ? & _)|(_ & -> & _)]; [done|]. by run H.
Qed.

(** In a well-formed state the insert cannot fail. *)
Lemma deliver_row_total k r m s :
  inbox_wf s → sessions s !! k = Some r → m_recipient m = k → m_seq m = s_last_seq r + 1 →
  ∃ s2, insert_message m (s <| sessions := <[k := r <| s_last_seq := s_last_seq r + 1 |> ]> (sessions s) |>) = Ok (messages_issued s + 1, s2).
Proof.
  intros Hs Hr Hk Hq. eexists. apply insert_message_Ok. cbn.
  split_and!; [done|done|]. intros i m' Hl Hrec. destruct (wf_seqs _ Hs _ _ Hl) as (_ & r' & Hr' & Hle).
  rewrite Hrec, Hk in Hr'. replace r' with r in Hle by congruence. lia.
Qed.
Lemma deliver_total k now q m s s1 :
  inbox_wf s → take_seq k now s = Ok (Some q, s1) → m_recipient m = k → m_seq m = q →
  ∃ s2, insert_message m s1 = Ok (messages_issued s + 1, s2).
Proof. intros Hs [(r & Hr & _ & [= ->] & ->)|(? & _)]%take_seq_Ok Hk Hq; [|done]. by eapply deliver_row_total. Qed.

(** ** The operations keep the invariant *)

Lemma keeps_check {B} (f : State → B) g : Keeps f (check g).
Proof. intros s x s' H. unfold check in H. destruct (g s); [done|]. by run H. Qed.
Lemma check_Ok g s r : check g s = Ok r ↔ g s = None ∧ r = (tt, s).
Proof. unfold check. destruct (g s); naive_solver. Qed.
Lemma keeps_id {A B} (f : State → B) (m : tx A) : (∀ s a s', m s = Ok (a, s') → s' = s) → Keeps f m.
Proof. intros Hm s a s' H. by rewrite (Hm _ _ _ H). Qed.
#[export] Hint Resolve keeps_check : frame.

Ltac maintains_step :=
  lazymatch goal with
  | |- ∀ _, _ => intro
  | |- Maintains _ (mbind _ _) => apply maintains_bind
  | |- Maintains _ (when _ _) => apply maintains_when; intros _
  | |- Maintains _ (each _ _) => apply maintains_each; intros ? _
  | |- Maintains _ (match _ with _ => _ end) => case_match
  end.
Create HintDb inbox.
Ltac maintains :=
  repeat first [ solve [eauto 2 with inbox] | solve [apply wf_of_keeps; names_keeps] | maintains_step ].

(** Rows whose sequence and positions a change does not touch. *)
Lemma positions_same r r' : s_last_seq r' = s_last_seq r → s_acked_through r' = s_acked_through r →
  s_read_through r' = s_read_through r → 0 ≤ s_acked_through r ≤ s_last_seq r → s_read_through r ≤ s_last_seq r → positions_le r r'.
Proof. unfold positions_le. intros -> -> ->. lia. Qed.

Lemma wf_ensureParticipantInbox now a : Maintains inbox_wf (ensureParticipantInbox now a).
Proof.
  intros s u s' Hs H. unfold ensureParticipantInbox in H. run H. set (k := mkKey _ _).
  destruct (sessions s !! k) eqn:E; [done|]. eapply (inbox_wf_sessions s); [done..| |]; cbn.
  - intros k' r Hr. exists r. rewrite lookup_insert_ne by congruence. destruct (wf_positions _ Hs _ _ Hr).
    split; [done|]. unfold positions_le. lia.
  - intros k' r. rewrite lookup_insert. destruct (decide (k = k')); [intros [= <-] _; cbn; lia|congruence].
Qed.

Lemma wf_retire_active now k : Maintains inbox_wf (retire_active now k).
Proof. apply wf_update_session. intros r ? ?. destruct (active_row now r); by apply positions_same. Qed.

Lemma wf_reset_inbox now k : Maintains inbox_wf (reset_inbox now k).
Proof.
  unfold reset_inbox. apply maintains_bind.
  - apply wf_update_session. intros r ? ?. unfold positions_le. cbn. lia.
  - intros _ s u s' Hs H. run H. destruct (sessions s !! k); [|done].
    refine (wf_update_messages _ _ _ s tt _ Hs eq_refl). done.
Qed.
#[export] Hint Resolve wf_ensureParticipantInbox wf_retire_active wf_reset_inbox : inbox.

Lemma wf_setHolder now a f i r ac d : Maintains inbox_wf (setHolder now a f i r ac d).
Proof. unfold setHolder. maintains. Qed.
Lemma wf_releaseAddress now f i r ac : Maintains inbox_wf (releaseAddress now f i r ac).
Proof. apply wf_of_keeps. unfold releaseAddress. names_keeps. Qed.
#[export] Hint Resolve wf_setHolder wf_releaseAddress : inbox.

Lemma wf_assignNames `{SHA : Sha256} now p : Maintains inbox_wf (assignNames now p).
Proof.
  unfold assignNames, choose_qualifier, record_conflict. apply maintains_bind.
  { apply wf_of_keeps. by apply peerName_keeps. }
  intros _. maintains. apply wf_of_keeps. by apply createAddress_keeps.
Qed.

(** *** Send *)

(** The row that a message to the record [n] of the name [to] is appended to *)
Definition recipient_key (to : string) (n : NameRow) : Key :=
  mkKey (n_family n) (match n_kind n with Peer => n_session_id n | Alias => participantKey to end).
Definition recipient_row (now : Z) (to : string) (n : NameRow) (s : State) : option SessionRow :=
  match n_kind n with
  | Peer => sessions s !! recipient_key to n
  | Alias => Some (default (inbox_row now n) (sessions s !! recipient_key to n))
  end.

Lemma recipient_of_Ok now to n s sid s1 : names s !! to = Some n → recipient_of now to n s = Ok (sid, s1) →
  mkKey (n_family n) sid = recipient_key to n ∧
  sessions s1 !! recipient_key to n = recipient_row now to n s ∧
  (∀ k, k ≠ recipient_key to n → sessions s1 !! k = sessions s !! k) ∧
  names s1 = names s ∧ messages s1 = messages s ∧ messages_issued s1 = messages_issued s ∧
  (n_kind n = Alias → holds now (n_family n) (n_holder_id n) (n_repository n) (n_role n) s = true).
Proof.
  intros Hn H. unfold recipient_of, recipient_row, recipient_key in *. destruct (n_kind n) eqn:Ek; run H; [by split_and!|].
  apply andb_true_iff in G as [_ G]. unfold ensureParticipantInbox in R. run R. rewrite Hn in L. injection L as <-.
  destruct (sessions s !! _) eqn:E; cbn; rewrite ?E; split_and!; try done.
  - by rewrite lookup_insert_eq.
  - intros k Hk. by rewrite lookup_insert_ne.
Qed.

Lemma sender_of_Ok now caller s sender s1 : sender_of now caller s = Ok (sender, s1) →
  s1 = s ∧ sender = if seqb (heldAddress now caller s) "" then default "" (peer_name_of caller s) else heldAddress now caller s.
Proof. unfold sender_of. intros H. run H. destruct (seqb _ ""); run H; [by rewrite L|done]. Qed.

(** What a message changes, once its recipient's row is known: the row's sequence and one new
    message.  [s0] is the state with the participant's inbox in place. *)
Record delivered (now : Z) (k : Key) (r : SessionRow) (m : MessageRow) (s s' : State) : Prop := {
  dl_active : active_row now r = true;
  dl_session : sessions s' !! k = Some (r <| s_last_seq := s_last_seq r + 1 |>);
  dl_others : ∀ k', k' ≠ k → sessions s' !! k' = sessions s !! k';
  dl_messages : messages s' = <[messages_issued s + 1 := m]> (messages s);
  dl_issued : messages_issued s' = messages_issued s + 1;
  dl_recipient : m_recipient m = k;
  dl_seq : m_seq m = s_last_seq r + 1 }.

Lemma keeps_shown {B} (f : State → B) sid to k :
  Keeps f (if isParticipantID sid then mret to else o ← gets (peer_name_of k); row o NoRows).
Proof. keeps. Qed.

Lemma sendTx_steps ps now caller to body dashboard s out s' :
  sendTx ps now caller to body dashboard s = Ok (out, s') →
  activeCaller now caller dashboard s = None ∧
  ∃ n sid s1 q s2 s3 sender,
    names s !! to = Some n ∧ recipient_of now to n s = Ok (sid, s1) ∧ sender_of now caller s1 = Ok (sender, s1) ∧
    take_seq (mkKey (n_family n) sid) now s1 = Ok (Some q, s2) ∧
    insert_message (new_message (mkKey (n_family n) sid) q caller sender body now) s2 = Ok (o_ID out, s3) ∧
    out = mkOutcome (o_ID out) (o_Recipient out) q (Stored Waiting) "" "" 0 now false "" "" "" ∧
    o_Recipient out = (if isParticipantID sid then to else default ""%string (peer_name_of (mkKey (n_family n) sid) s')) ∧
    inbox_view s' = inbox_view s3 ∧ names s' = names s1 ∧ fences s' = fences s1.
Proof.
  intros H. unfold sendTx in H. run H. rename R into Rc. apply check_Ok in Rc as [Hc Heq]. injection Heq as -> ->.
  split; [done|]. pose proof (sender_of_Ok _ _ _ _ _ R1) as [-> _].
  destruct a2 as [q|]; run H. exists v, a0, s1, q, s3, s0, a1. cbn.
  set (view := λ s, (inbox_view s, names s, fences s)).
  assert (Keeps view (bumpInbox (mkKey (n_family v) a0))) as K3 by (unfold bumpInbox; keeps).
  apply K3 in R3. pose proof R4 as Hshown. apply (keeps_shown view) in R4.
  match type of R5 with ?m _ = _ => assert (Keeps view m) as K5 by keeps end. apply K5 in R5.
  assert (Keeps (λ s, (names s, fences s)) (take_seq (mkKey (n_family v) a0) now)) as K2 by keeps. apply K2 in R2 as K2'.
  assert (∀ m, Keeps (λ s, (names s, fences s)) (insert_message m)) as K0 by (intros; keeps). apply K0 in R as K0'.
  unfold view in *. cbn in *. rewrite R4, R3 in R5. split_and!; try congruence.
  assert (names s5 = names s2) as Hnm by congruence. unfold peer_name_of in *. rewrite Hnm.
  destruct (isParticipantID a0); run Hshown; [done|]. by match goal with L : first_key _ _ = Some _ |- _ => rewrite L end.
Qed.

Lemma sendTx_delivered ps now caller to body dashboard s out s' :
  sendTx ps now caller to body dashboard s = Ok (out, s') →
  ∃ n r sender, names s !! to = Some n ∧ recipient_row now to n s = Some r ∧
    delivered now (recipient_key to n) r (new_message (recipient_key to n) (s_last_seq r + 1) caller sender body now) s s' ∧
    o_ID out = messages_issued s + 1 ∧ o_Seq out = s_last_seq r + 1 ∧
    (n_kind n = Alias → holds now (n_family n) (n_holder_id n) (n_repository n) (n_role n) s = true).
Proof.
  intros (_ & n & sid & s1 & q & s2 & s3 & sender & Hn & Hrec & _ & Ht & Hi & Hout & _ & Hv & _)%sendTx_steps.
  apply (recipient_of_Ok _ _ _ _ _ _ Hn) in Hrec as (Hk & Hrow & Hoth & _ & Hm & Hiss & Hh). rewrite Hk in *.
  apply take_seq_Ok in Ht as [(r & Hr & Ha & [= ->] & ->)|(? & _)]; [|done].
  apply insert_message_Ok in Hi as (Hid & -> & _). cbn in *. unfold inbox_view in Hv. cbn in Hv. injection Hv as V1 V2 V3.
  rewrite Hrow in Hr. rewrite Hm, Hiss in *.
  exists n, r, sender. assert (o_Seq out = s_last_seq r + 1) by (by rewrite Hout). split_and!; try done. split; cbn; rewrite ?V1, ?V2, ?V3; try done.
  - apply lookup_insert_eq.
  - intros k' Hk'. rewrite lookup_insert_ne by congruence. by apply Hoth.
  - by rewrite Hid.
Qed.

Lemma sendTx_wf ps now caller to body dashboard : Maintains inbox_wf (sendTx ps now caller to body dashboard).
Proof.
  intros s out s' Hs (_ & n & sid & s1 & q & s2 & s3 & sender & Hn & Hrec & _ & Ht & Hi & _ & _ & Hv & _)%sendTx_steps.
  apply (inbox_wf_view s3); [done|].
  assert (inbox_wf s1) as Hs1.
  { unfold recipient_of in Hrec. destruct (n_kind n); run Hrec; [done|]. by eapply wf_ensureParticipantInbox. }
  eapply deliver_wf; [exact Hs1|exact Ht| | |exact Hi]; done.
Qed.

(** *** Acknowledgement, read marks and delivery state *)

Lemma mark_wf k a t s u s' : inbox_wf s → (∀ r, sessions s !! k = Some r → t ≤ s_last_seq r) →
  mark k a t s = Ok (u, s') → inbox_wf s'.
Proof.
  intros Hs Ht H. unfold mark, update_session in H. run H. eapply (inbox_wf_sessions s); [done..| |]; cbn.
  - intros k' r Hr. destruct (wf_positions _ Hs _ _ Hr). rewrite lookup_alter. destruct (decide (k = k')) as [<- |].
    + rewrite Hr. cbn. eexists. split; [done|]. specialize (Ht _ Hr). unfold positions_le. destruct (_ && _); cbn; lia.
    + exists r. split; [done|]. unfold positions_le. lia.
  - intros k' r. rewrite lookup_alter. destruct (decide (k = k')); [|congruence]. intros (? & ? & _)%fmap_Some. congruence.
Qed.

Lemma wf_ack_write k through f :
  (∀ r, s_last_seq (f r) = s_last_seq r ∧ s_acked_through (f r) = through ∧ s_read_through (f r) = s_read_through r) →
  ∀ s s' r u, inbox_wf s → sessions s !! k = Some r → 0 ≤ through ≤ s_last_seq r → update_session k f s = Ok (u, s') → inbox_wf s'.
Proof.
  intros Hf s s' r u Hs Hr Ht H. unfold update_session in H. run H. eapply (inbox_wf_sessions s); [done..| |]; cbn.
  - intros k' r' Hr'. destruct (wf_positions _ Hs _ _ Hr'). rewrite lookup_alter. destruct (decide (k = k')) as [<- |].
    + rewrite Hr'. cbn. eexists. split; [done|]. destruct (Hf r') as (? & ? & ?). replace r' with r in * by congruence.
      unfold positions_le. lia.
    + exists r'. split; [done|]. unfold positions_le. lia.
  - intros k' r'. rewrite lookup_alter. destruct (decide (k = k')); [|congruence]. intros (? & ? & _)%fmap_Some. congruence.
Qed.

Lemma ackTx_wf now caller through dashboard revision origin : Maintains inbox_wf (ackTx now caller through dashboard revision origin).
Proof.
  intros s z s' Hs H. unfold ackTx in H. run H.
  assert (s = s0) as <-. { unfold when in R. destruct (negb dashboard); run R; [|done]. by apply check_Ok in R as [_ [= _ ->]]. }
  destruct (wf_positions _ Hs _ _ L) as [Hp _].
  match type of H with (if ?acked <? ?t then _ else _) _ = _ => set (through' := t) in *; destruct (acked <? through') eqn:E end; run H; [|done].
  eapply (wf_ack_write caller through') in R0; [|by intros r1|exact Hs|exact L|lia].
  refine (wf_of_keeps (bumpInbox caller) _ _ _ _ _ R1); [unfold bumpInbox; keeps|].
  refine (wf_update_messages _ _ _ _ tt _ R0 eq_refl). done.
Qed.

Lemma ackParticipantTx_wf now caller through : 0 ≤ through → Maintains inbox_wf (ackParticipantTx now caller through).
Proof.
  intros Ht s z s' Hs H. unfold ackParticipantTx in H. run H. apply check_Ok in R as [_ [= _ ->]].
  pose proof (wf_ensureParticipantInbox _ _ _ _ _ Hs R0) as Hs1. destruct (wf_positions _ Hs1 _ _ L) as [Hp _].
  destruct (_ <? through) eqn:E; run H; [|done].
  eapply (wf_ack_write _ through) in R; [|by intros r1|exact Hs1|exact L|lia].
  refine (wf_update_messages _ _ _ _ tt _ R eq_refl). done.
Qed.

Lemma setDeliveryTx_wf now id st reason : Maintains inbox_wf (setDeliveryTx now id st reason).
Proof.
  intros s u s' Hs H. unfold setDeliveryTx in H. run H.
  refine (inbox_wf_messages s _ (λ i m, if decide (i = id) then
    m <| m_delivery_state := st |> <| m_delivery_reason := reason |> <| m_delivery_updated_at := now |> else m) Hs _ _ _ _); try done.
  - intros i. cbn. rewrite lookup_alter. repeat case_decide; subst; try done. by destruct (messages s !! i).
  - intros i m. by case_decide.
Qed.

(** A read marks no more than it returned: every page holds stored messages of its inbox. *)
Lemma fill_page_subset limit size count rows im : im ∈ (fill_page limit size count rows).1 → im ∈ rows.
Proof.
  revert size count. induction rows as [|x rows IH]; intros size count; cbn; [done|].
  destruct (_ || _); [by intros ?%elem_of_nil|]. destruct (fill_page _ _ _ _) as [p more] eqn:E. cbn.
  rewrite !elem_of_cons. intros [-> |Hin]; [by left|]. right. eapply (IH _ _). by rewrite E.
Qed.

Lemma elem_of_pending_rows inbox after s i m : (i, m) ∈ pending_rows inbox after s ↔
  messages s !! i = Some m ∧ m_recipient m = inbox ∧ after < m_seq m.
Proof.
  unfold pending_rows. rewrite elem_of_order_by, elem_of_select, andb_true_iff, keqb_true, Z.ltb_lt. tauto.
Qed.

Lemma readMessages_Ok inbox after limit kind s ms last acked more s' :
  readMessages inbox after limit kind s = Ok ((ms, (last, acked, more)), s') →
  s' = s ∧ ∃ r, sessions s !! inbox = Some r ∧ last = s_last_seq r ∧ acked = s_acked_through r ∧
    let '(page, more') := fill_page limit 0 0 (take (Z.to_nat (limit + 1)) (pending_rows inbox after s)) in
    ms = view_message acked kind <$> page ∧ more = more'.
Proof.
  unfold readMessages. intros H. run H. destruct (fill_page _ _ _ _) as [page more'] eqn:E. run H.
  split; [done|]. exists v. split_and!; done.
Qed.

Lemma readMessages_stored inbox after limit kind s ms p s' m :
  readMessages inbox after limit kind s = Ok ((ms, p), s') → m ∈ ms →
  ms_Inbox m = kind ∧ ∃ row_, messages s !! ms_ID m = Some row_ ∧ m_recipient row_ = inbox ∧ m_seq row_ = ms_Seq m.
Proof.
  destruct p as [[last acked] more]. intros (-> & r & _ & _ & _ & H)%readMessages_Ok Hm.
  destruct (fill_page _ _ _ _) as [page more'] eqn:E. destruct H as [-> _].
  apply list_elem_of_fmap in Hm as ([i row_] & -> & Hin). cbn. split; [done|].
  assert ((i, row_) ∈ (fill_page limit 0 0 (take (Z.to_nat (limit + 1)) (pending_rows inbox after s))).1) as Hin' by by rewrite E.
  apply fill_page_subset, (elem_of_take _ _) in Hin' as (j & Hj & _).
  apply list_elem_of_lookup_2, elem_of_pending_rows in Hj. exists row_. tauto.
Qed.

(** ** The pending messages of an inbox are a run of consecutive sequences *)

Lemma NoDup_select {K V} `{Countable K} (P : K → V → bool) (m : gmap K V) : NoDup (select P m).
Proof. apply NoDup_filter, NoDup_map_to_list. Qed.

Lemma seqZ_sorted a n : StronglySorted Z.le (seqZ a n).
Proof.
  unfold seqZ. generalize (Z.to_nat n) 0%nat. clear n. intros n. induction n as [|n IH]; intros o; cbn; constructor; [apply IH|].
  apply Forall_fmap, Forall_forall. intros i [? ?]%elem_of_seq. cbn. lia.
Qed.

(** A strictly increasing list that has every later value up to [top] is the run up to it. *)
Lemma run_up top l : StronglySorted Z.lt l → (∀ x, x ∈ l → x ≤ top) → (∀ x y, x ∈ l → x < y ≤ top → y ∈ l) →
  l = seqZ (top - Z.of_nat (length l) + 1) (Z.of_nat (length l)).
Proof.
  induction 1 as [|x l Hl IH Hx]; intros Hb Hup; [done|]. rewrite Forall_forall in Hx. rewrite length_cons, seqZ_cons by lia.
  assert (l = seqZ (top - Z.of_nat (length l) + 1) (Z.of_nat (length l))) as E.
  { apply IH; [intros y Hy; apply Hb; by right|]. intros y z Hy Hz. pose proof (Hup y z ltac:(by right) Hz) as [->|?]%elem_of_cons; [|done]. apply Hx in Hy. lia. }
  assert (x = top - Z.of_nat (length l)) as ->.
  { assert (x ≤ top) by (apply Hb; left). assert (∀ z, x < z ≤ top → z ∈ l) as Hin by (intros z Hz; pose proof (Hup x z ltac:(left) Hz) as [->|?]%elem_of_cons; [lia|done]).
    assert (top - Z.of_nat (length l) ≤ x).
    { destruct (Z.le_gt_cases (top - Z.of_nat (length l)) x) as [|Hgt]; [done|]. specialize (Hin (top - Z.of_nat (length l)) ltac:(lia)). rewrite E, length_seqZ, Nat2Z.id in Hin. apply elem_of_seqZ in Hin. lia. }
    destruct (decide (x = top - Z.of_nat (length l))) as [|Hne]; [done|exfalso]. assert (x ∈ l) as Hxl by (rewrite E; apply elem_of_seqZ; lia). apply Hx in Hxl. lia. }
  f_equal; [lia|]. rewrite E at 1. f_equal; lia.
Qed.
Lemma pending_rows_run s k r after : inbox_wf s → sessions s !! k = Some r →
  (λ im, m_seq im.2) <$> pending_rows k after s = seqZ (s_last_seq r - Z.of_nat (length (pending_rows k after s)) + 1) (Z.of_nat (length (pending_rows k after s))).
Proof.
  intros Hs Hr. rewrite <-(length_fmap (λ im : Z * MessageRow, m_seq im.2)). apply run_up.
  - pose proof (order_by_sorted (λ im : Z * MessageRow, m_seq im.2) (select (λ _ m, keqb (m_recipient m) k && (after <? m_seq m)) (messages s))) as Hso.
    fold (pending_rows k after s) in Hso. assert (NoDup (pending_rows k after s)) as Hnd by (unfold pending_rows, order_by; rewrite merge_sort_Permutation; apply NoDup_select).
    assert (∀ x, x ∈ pending_rows k after s → messages s !! x.1 = Some x.2 ∧ m_recipient x.2 = k) as Hin by (intros [i m] Hin; apply elem_of_pending_rows in Hin as (? & ? & _); done).
    induction Hso as [|x l Hl IH Hx]; cbn; [constructor|]. apply NoDup_cons in Hnd as [Hn Hnd]. constructor; [apply IH; [done|]; intros y Hy; apply Hin; by right|].
    apply Forall_fmap, Forall_forall. rewrite Forall_forall in Hx. intros y Hy. specialize (Hx y Hy). unfold by_Z in Hx. cbn in *. destruct (decide (m_seq x.2 = m_seq y.2)) as [E|]; [|lia].
    destruct (Hin x ltac:(left)) as [H1 H2], (Hin y ltac:(by right)) as [H3 H4]. pose proof (wf_unique _ Hs _ _ _ _ H1 H3 ltac:(congruence) E) as Ei.
    destruct Hn. destruct x as [i m], y as [j n]. cbn in *. subst j. by replace m with n by congruence.
  - intros q ([i m] & -> & (Hl & Hk & Hq)%elem_of_pending_rows)%list_elem_of_fmap. cbn. destruct (wf_seqs _ Hs _ _ Hl) as (_ & r' & Hr' & Hle). rewrite Hk in Hr'. by replace r with r' by congruence.
  - intros x q ([i m] & -> & (Hl & Hk & Hq)%elem_of_pending_rows)%list_elem_of_fmap Hx. cbn in *. destruct (wf_gapless _ Hs i m r q Hl ltac:(by rewrite Hk)) as (j & n & Hj & Hk2 & <-); [lia|].
    apply list_elem_of_fmap. exists (j, n). split; [done|]. apply elem_of_pending_rows. cbn. split_and!; [done|congruence|lia].
Qed.
(** Where the messages of an inbox after a sequence begin: there, or at the oldest that is left *)
Definition first_after (k : Key) (after : Z) (s : State) : Z := from_option s_last_seq 0 (sessions s !! k) - Z.of_nat (length (pending_rows k after s)).
Lemma pending_rows_seqs s k r after : inbox_wf s → sessions s !! k = Some r → 0 ≤ after ≤ s_last_seq r → let from := first_after k after s in
  (λ im, m_seq im.2) <$> pending_rows k after s = seqZ (from + 1) (s_last_seq r - from) ∧ after ≤ from ≤ s_last_seq r ∧
  ∀ i m, messages s !! i = Some m → m_recipient m = k → after < m_seq m → from < m_seq m.
Proof.
  intros Hs Hr Ha. cbn zeta. pose proof (pending_rows_run s k r after Hs Hr) as H. unfold first_after. rewrite Hr. cbn. set (n := Z.of_nat (length (pending_rows k after s))) in *.
  assert (∀ q, q ∈ seqZ (s_last_seq r - n + 1) n → after < q) as Hall.
  { intros q. rewrite <-H. by intros ([i m] & -> & (_ & _ & ?)%elem_of_pending_rows)%list_elem_of_fmap. }
  split; [rewrite H; f_equal; lia|]. split.
  - split; [|lia]. destruct (decide (n = 0)) as [|Hn]; [lia|]. specialize (Hall (s_last_seq r - n + 1) ltac:(apply elem_of_seqZ; lia)). lia.
  - intros i m Hl Hk Hq. assert (m_seq m ∈ seqZ (s_last_seq r - n + 1) n) as Hin; [|apply elem_of_seqZ in Hin; lia].
    rewrite <-H. apply list_elem_of_fmap. exists (i, m). split; [done|]. by apply elem_of_pending_rows.
Qed.

(** A page is a prefix of the rows, complete when [more] is false. *)
Lemma fill_page_spec limit size count rows page more : fill_page limit size count rows = (page, more) →
  ∃ rest, rows = page ++ rest ∧ (more = false ↔ rest = []) ∧ (count ≤ limit → count + Z.of_nat (length page) ≤ limit).
Proof.
  revert size count page more. induction rows as [|im rows IH]; cbn; intros size count page more.
  - intros [= <- <-]. exists []. split_and!; [done..|cbn; lia].
  - destruct (_ || _) eqn:E.
    + intros [= <- <-]. exists (im :: rows). split_and!; [done..|cbn; lia].
    + destruct (fill_page _ _ _ _) as [p m] eqn:Ep. intros [= <- <-].
      destruct (IH _ _ _ _ Ep) as (rest & -> & Hm & Hl). exists rest. split_and!; [done..|].
      apply orb_false_iff in E as [E%Z.eqb_neq _]. intros Hle. specialize (Hl ltac:(lia)). rewrite length_cons. lia.
Qed.

(** The first row always fits, and the page stays within one mebibyte from the second on. *)
Definition page_size (page : list (Z * MessageRow)) : Z := foldr (λ im z, message_size im.2 + z) 0 page.
Lemma fill_page_size limit size count rows page more : fill_page limit size count rows = (page, more) →
  0 < count → page = [] ∨ size + page_size page ≤ Z.shiftl 1 20.
Proof.
  revert size count page more. induction rows as [|im rows IH]; cbn; intros size count page more.
  - intros [= <- <-]. by left.
  - destruct (_ || _) eqn:E; [intros [= <- <-]; by left|].
    destruct (fill_page _ _ _ _) as [p m] eqn:Ep. intros [= <- <-] Hc. right.
    apply orb_false_iff in E as [_ E]. apply andb_false_iff in E as [E%Z.ltb_ge|E]; [lia|].
    destruct (IH _ _ _ _ Ep ltac:(lia)) as [-> |Hle]; cbn; unfold page_size in *; lia.
Qed.
