(* ===== verification/Sessions.v ===== *)
(** * The view of a session (internal/core/store.go)

    [scanSession] over [sessionQuery]: a session with its peer name, its participant's address,
    whether it holds it now, its conflict, fence and last succession, and its state at a time.
    Reads of every session: List and Counts.  The timing settings (internal/core/settings.go)
    and the lifetime of a registration. *)

From S2P Require Import Prelude GoString Schema Sql Label Fixture Storage Names.
Open Scope Z_scope.

(** ** Settings *)

Record Settings := mkSettings { LifetimeSeconds : Z; RenewalSeconds : Z; GuardSeconds : Z }.
Definition DefaultSettings : Settings := mkSettings 900 300 30.
Definition Valid (v : Settings) : bool :=
  (60 <=? LifetimeSeconds v) && (LifetimeSeconds v <=? 3600) &&
  (30 <=? RenewalSeconds v) && (RenewalSeconds v <=? LifetimeSeconds v `quot` 2) &&
  (30 <=? GuardSeconds v) && (GuardSeconds v <=? 600).

(** [loadSettings]: the stored values, the default of one that is not stored, and the defaults of
    a set that is not valid as a whole; [None] when a stored value is no integer. *)
Definition setting (name : string) (old : Z) (s : State) : option Z :=
  match settings s !! name with None => Some old | Some (v, _) => v end.
Definition load_settings (s : State) : option Settings :=
  lifetime ← setting "lifetime_seconds" (LifetimeSeconds DefaultSettings) s;
  renewal ← setting "renewal_seconds" (RenewalSeconds DefaultSettings) s;
  guard ← setting "guard_seconds" (GuardSeconds DefaultSettings) s;
  let v := mkSettings lifetime renewal guard in
  Some (if Valid v then v else DefaultSettings).
(** [SetSettings]; the values in force are those of the last commit. *)
Definition set_setting (now : Z) (name : string) (v : Z) : tx unit :=
  modify (λ s, s <| settings := <[name := (Some v, now)]> (settings s) |>).
Definition setSettingsTx (now : Z) (v : Settings) : tx unit :=
  _ ← set_setting now "lifetime_seconds" (LifetimeSeconds v);
  _ ← set_setting now "renewal_seconds" (RenewalSeconds v);
  set_setting now "guard_seconds" (GuardSeconds v).
Definition SetSettings (now at_ : Z) (audit : option PendingAudit) (en : Engine) (v : Settings) (st : Store) : result error unit * Store :=
  if negb (Valid v) then (Err ErrInvalid, st)
  else write (mkWrite ordinary true at_ audit (λ _, None)) en (setSettingsTx now v) st.

(** [ttl]: a registration's lifetime in milliseconds, or [None] for a refused one *)
Definition ttl (v : Settings) (seconds : Z) : option Z :=
  let seconds := if seconds =? 0 then LifetimeSeconds v else seconds in
  if (seconds <? 60) || (3600 <? seconds) then None else Some (seconds * 1000).

(** ** The view *)

Inductive SessionState := Active | Expired | Retired.
#[export] Instance SessionState_eq_dec : EqDecision SessionState.
Proof. solve_decision. Defined.

Record Session := mkSession {
  ss_Key : Key; ss_Repository : string; ss_Directory : string; ss_WakeTarget : WakeTarget;
  ss_RegisteredAt : Z; ss_RenewedAt : Z; ss_ExpiresAt : Z; ss_RetiredAt : Z; ss_PurgeAt : Z; ss_Revision : Z;
  ss_State : SessionState; ss_Name : string; ss_Alias : string; ss_Subagent : bool; ss_Role : string;
  ss_Address : string; ss_HoldsAddress : bool; ss_Conflict : list string; ss_Fenced : bool;
  ss_Succession : option Succession; ss_HostHolder : bool; ss_Liveness : bool }.

(** [launched] *)
Definition launched (r : SessionRow) : bool := negb (seqb (wt_launch_id (s_wake_target r)) "").

(** The join of [sessionQuery]: the participant of a session with a repository that is not a
    sub-agent and qualifies *)
Definition participant_of (k : Key) (r : SessionRow) (s : State) : option (string * NameRow) :=
  if negb (seqb (s_repository r) "") && negb (s_subagent r) && participantQualifier k r
  then a ← address_of (Family k) (s_repository r) (s_role r) s; n ← names s !! a; Some (a, n)
  else None.

Definition state_at (now : Z) (r : SessionRow) : SessionState :=
  if negb (s_retired_at r =? 0) then Retired else if s_expires_at r <=? now then Expired else Active.

Definition view_session (now : Z) (k : Key) (r : SessionRow) (s : State) : Session :=
  let p := participant_of k r s in
  let address := from_option fst ""%string p in
  let holder := from_option (λ p, n_holder_id p.2) ""%string p in
  let st := state_at now r in
  let holding := bool_decide (st = Active) && negb (seqb address "") && seqb holder (ID k) in
  mkSession k (s_repository r) (s_directory r) (s_wake_target r) (s_registered_at r) (s_renewed_at r) (s_expires_at r)
    (s_retired_at r) (s_purge_at r) (s_revision r) st (default ""%string (peer_name_of k s))
    (if holding then address else "") (s_subagent r) (s_role r) address holding
    (from_option (λ p, n_conflict p.2) [] p) (from_option (λ p, fenced p.1 k s) false p) (s_succession r) false
    ((0 <? s_host_pid r) && (0 <? s_host_start r) && negb (s_subagent r) && launched r).

(** [scanSession] of [sessionQuery] with a key; [None] is ErrMissing *)
Definition scanSession (now : Z) (k : Key) (s : State) : option Session :=
  (λ r, view_session now k r s) <$> sessions s !! k.

(** [SELECT host_pid,host_start,tmux_socket,tmux_pane FROM sessions WHERE family=? AND id=?] *)
Definition hosted (k : Key) (s : State) : option (Z * Z * string * string) :=
  (λ r, (s_host_pid r, s_host_start r, s_tmux_socket r, s_tmux_pane r)) <$> sessions s !! k.

(** ** List and Counts *)

(** [s.family!='maintainer' AND notParticipantRow] *)
Definition agent_row (k : Key) (_ : SessionRow) : bool := negb (seqb (Family k) "maintainer") && notParticipantRow k.

(** [ORDER BY s.family,s.id] *)
Definition key_le (x y : Key * SessionRow) : Prop :=
  if bool_decide (Family x.1 = Family y.1) then String.leb (ID x.1) (ID y.1) = true else String.leb (Family x.1) (Family y.1) = true.
#[export] Instance key_le_dec : RelDecision key_le.
Proof. intros x y. unfold key_le. case_bool_decide; apply _. Defined.

Definition List_ (now : Z) (s : State) : list Session * bool :=
  let rows := take 1001 (merge_sort key_le (select agent_row (sessions s))) in
  let result := (λ kr, view_session now kr.1 kr.2 s) <$> rows in
  (take 1000 result, bool_decide (1000 < length result)%nat).

Record SessionCounts := mkCounts { total : Z; active_count : Z; expired_count : Z; retired_count : Z }.
Definition Counts (now : Z) (s : State) : SessionCounts :=
  let count st := count_where (λ k r, agent_row k r && bool_decide (state_at now r = st)) (sessions s) in
  mkCounts (count Active + count Expired + count Retired) (count Active) (count Expired) (count Retired).

(** ** Lemmas *)

Lemma state_at_active now r : state_at now r = Active ↔ active_row now r = true.
Proof.
  unfold state_at, active_row. destruct (Z.eqb_spec (s_retired_at r) 0); cbn; [|done].
  destruct (Z.leb_spec (s_expires_at r) now), (Z.ltb_spec now (s_expires_at r)); try done; lia.
Qed.

(** A session holds its address exactly when [holds] says so and it is the recorded holder. *)
Lemma view_holds now k r s : ss_HoldsAddress (view_session now k r s) = true → sessions s !! k = Some r →
  ∃ n, names s !! ss_Address (view_session now k r s) = Some n ∧ n_kind n = Alias ∧ n_family n = Family k ∧
    n_holder_id n = ID k ∧ n_repository n = s_repository r ∧ n_role n = s_role r ∧
    holds now (Family k) (ID k) (n_repository n) (n_role n) s = true.
Proof.
  cbn. rewrite !andb_true_iff, bool_decide_eq_true, negb_true_iff, seqb_true. intros [[Ha Hne] Hh] Hr.
  unfold participant_of in *. destruct (negb (seqb (s_repository r) "") && _ && _) eqn:E; [|done].
  rewrite !andb_true_iff, !negb_true_iff in E. destruct E as [[E1 E2] E3].
  destruct (address_of (Family k) (s_repository r) (s_role r) s) as [a|] eqn:Eo; cbn in *; [|done].
  apply address_of_Some in Eo as (n & Hn & Hk & Hf & Hrp & Hro). rewrite Hn in *. cbn in *.
  exists n. split_and!; try done. unfold holds. destruct k as [f i]. cbn in *. rewrite Hr. unfold belongs.
  apply state_at_active in Ha. rewrite Hrp, Hro, E2, E3, Ha. unfold seqb. by rewrite !bool_decide_eq_true_2.
Qed.
