(* ===== verification/Cycles.v ===== *)
(** * Managed context cycles (internal/core/context_cycle.go)

    A context cycle is a durable state machine: it is admitted with a page credit that funds
    every later stage, each stage spends one event slot and one stage credit in a control
    write, and it ends once, with the rest of the credit.  The file also holds the retry of a
    ready timeout (context_cycle_retry.go), the protection of the session's claims
    (context_cycle_claims.go) and the refused ready reports.  The guards and answers that come
    from the native host (its pane, its files) are arguments. *)

From S2P Require Import Prelude GoString GoFloat Schema Sql Label Fixture Storage Names Messages Sessions.
Open Scope Z_scope.

(** ** States *)

Definition cycleRequested : string := "requested".
Definition cycleWaitingReady : string := "waiting_ready".
Definition cycleReady : string := "ready".
Definition cycleClearIntent : string := "clear_intent".
Definition cycleClearReceived : string := "clear_received".
Definition cycleResetVerified : string := "reset_verified".
Definition cyclePickupIntent : string := "pickup_intent".
Definition cycleWaitingPickup : string := "waiting_pickup".
Definition cycleWaitingPrompt : string := "waiting_prompt".
Definition cyclePromptIntent : string := "prompt_intent".
Definition cycleBootstrapIntent : string := "bootstrap_intent".
Definition cycleBootstrapVerified : string := "bootstrap_verified".
Definition cycleCompactWaiting : string := "compact_waiting".
Definition cycleCompactIntent : string := "compact_intent".
Definition cycleCompactSent : string := "compact_sent".
Definition cycleComplete : string := "complete".
Definition cycleCancelled : string := "cancelled".
Definition cycleFailed : string := "failed".
Definition cycleUncertain : string := "uncertain".

Definition one_of (x : string) (l : list string) : bool := existsb (seqb x) l.
Lemma one_of_true x l : one_of x l = true ↔ x ∈ l.
Proof.
  unfold one_of. rewrite existsb_exists, list_elem_of_In. split.
  - intros (y & Hy & ->%seqb_true). done.
  - intros Hx. exists x. split; [done|]. by apply seqb_true.
Qed.

Definition cycleTerminal (state : string) : bool :=
  one_of state [cycleComplete; cycleCancelled; cycleFailed; cycleUncertain].
Definition cycleHoldsPane (state : string) : bool :=
  one_of state [cycleReady; cycleBootstrapIntent; cycleBootstrapVerified; cycleClearIntent; cycleClearReceived;
    cycleResetVerified; cyclePickupIntent; cycleWaitingPickup; cycleWaitingPrompt; cyclePromptIntent; cycleCompactIntent;
    cycleCompactSent].
Definition cycleIntent (state : string) : bool :=
  one_of state [cycleBootstrapIntent; cycleClearIntent; cyclePickupIntent; cyclePromptIntent; cycleCompactIntent].
Definition cycleInputUnproven (state : string) : bool := cycleIntent state || seqb state cycleClearReceived.

(** ** Bounds *)

Definition maxActiveCycles : Z := 16.
Definition maxCycleEvents : Z := 16.
Definition minute : Z := 60000.
Definition cycleReadyWait : Z := 15 * minute.
Definition cycleReceiptWait : Z := 2 * minute.
Definition cyclePickupWait : Z := 5 * minute.
Definition cyclePromptWait : Z := 10 * minute.
Definition cycleCompactConfirm : Z := 10 * minute.
Definition cycleLifetime : Z := 30 * minute.
Definition maxPickupReport : Z := 1024.
Definition maxCycleRefusals : Z := 8.

Definition cycleStagePages : Z := 280.
Definition cycleTerminalPages : Z := 491.
Definition cycleFundedStages : Z := maxCycleEvents - 2.
Definition cycleCreditPages : Z := cycleFundedStages * cycleStagePages + cycleTerminalPages.

(** ** Modes (context_policy.go) *)

Definition ContextObserve : string := "observe".
Definition ContextNativeCompaction : string := "native_compaction".
Definition ContextHandoffCycle : string := "handoff_cycle".

(** ** Adapters

    The families whose registered adapter implements HostlessAdapter (cycle_deepseek.go) and
    DisplayAdapter (cycle_opencode.go) *)
Definition hostless (family : string) : bool := seqb family "deepseek".
Definition display (family : string) : bool := seqb family "opencode".

(** ** Events *)

(** The events of a cycle, in no particular order *)
Definition events_of (id : string) (s : State) : list (Z * CycleEvent) :=
  (λ e, (e.1.2, e.2)) <$> select (λ k _, seqb k.1 id) (cycle_events s).
Definition insert_cycle_event (id : string) (ordinal : Z) (e : CycleEvent) : tx unit := λ s,
  match cycle_events s !! (id, ordinal) with
  | Some _ => Err Constraint
  | None => Ok (tt, s <| cycle_events := <[(id, ordinal) := e]> (cycle_events s) |>)
  end.

(** [cycleEvent]: the last slot is kept for the terminal outcome. *)
Definition cycleEvent (now : Z) (id : string) (c : cycleRow) (stage result reason : string) : tx cycleRow :=
  if negb (cycleTerminal stage) && (maxCycleEvents - 1 <=? c_Events c) then throw ErrCycleEventLimit
  else
    let c := c <| c_Events := c_Events c + 1 |> in
    _ ← insert_cycle_event id (c_Events c) (mkCycleEvent now stage result reason);
    mret c.

Definition min_at (l : list Z) : option Z := match l with [] => None | x :: l => Some (foldr Z.min x l) end.
Definition max_at (l : list Z) : option Z := match l with [] => None | x :: l => Some (foldr Z.max x l) end.

(** [pickupDisplayed] *)
Definition pickupDisplayedReason : string := "pickup_displayed".
Definition pickupDisplayed (id : string) (s : State) : bool :=
  existsb (λ e, seqb (ce_stage e.2) cycleWaitingPickup && seqb (ce_reason e.2) pickupDisplayedReason) (events_of id s).

(** [awaitingPickup] and [acceptsPickupReport] *)
Definition in_prompt (c : cycleRow) : bool := seqb (c_State c) cycleWaitingPrompt || seqb (c_State c) cyclePromptIntent.
Definition awaitingPickup (c : cycleRow) : bool :=
  seqb (c_State c) cycleWaitingPickup || (in_prompt c && seqb (c_PromptFrom c) cycleWaitingPickup).
Definition acceptsPickupReport (c : cycleRow) : bool :=
  awaitingPickup c || seqb (c_State c) cycleResetVerified || (in_prompt c && seqb (c_PromptFrom c) cycleResetVerified).

(** [cycleUnproven] *)
Definition cycleUnproven (id : string) (c : cycleRow) (s : State) : bool :=
  cycleInputUnproven (c_State c) ||
  (display (c_Family c) && awaitingPickup c && negb (pickupDisplayed id s)).

(** ** Rows *)

(** The columns that [updateCycle] writes, from [c], in the stored row [r] *)
Definition update_columns (c r : cycleRow) : cycleRow :=
  r <| c_Credit := c_Credit c |> <| c_Revision := c_Revision c |> <| c_State := c_State c |> <| c_PromptFrom := c_PromptFrom c |>
    <| c_Reason := c_Reason c |> <| c_UpdatedAt := c_UpdatedAt c |> <| c_StageDeadline := c_StageDeadline c |>
    <| c_Artifact := c_Artifact c |> <| c_ArtifactDev := c_ArtifactDev c |> <| c_ArtifactIno := c_ArtifactIno c |>
    <| c_ArtifactSize := c_ArtifactSize c |> <| c_ArtifactMtime := c_ArtifactMtime c |> <| c_SuccessorID := c_SuccessorID c |>
    <| c_SuccessorEpoch := c_SuccessorEpoch c |> <| c_Outcome := c_Outcome c |> <| c_Report := c_Report c |>
    <| c_Events := c_Events c |> <| c_FinishedAt := c_FinishedAt c |>.
Definition updateCycle (id : string) (c : cycleRow) : tx unit :=
  modify (λ s, s <| cycles := alter (update_columns c) id (cycles s) |>).

Definition cycleAudit (now : Z) (id : string) (c : cycleRow) (result reason : string) : tx unit :=
  insert_audit (mkAuditRow now "context-cycle" ("cycle " +:+ id +:+ " peer " +:+ c_Peer c) result reason).

(** The row of a cycle; an absent one is sql.ErrNoRows. *)
Definition read_cycle (id : string) : tx cycleRow := o ← gets (λ s, cycles s !! id); row (o : option cycleRow) NoRows.

(** [activeCycle] *)
Definition unfinished (c : cycleRow) : bool := negb (cycleTerminal (c_State c)).

(** ** The Enable of a session *)

Definition requester (c : cycleRow) : Key := mkKey (c_Family c) (c_SessionID c).
Definition cycleEnabled (c : cycleRow) (s : State) : bool :=
  match enables s !! requester c with
  | Some e => e_enabled e && (e_revision e =? c_EnableRevision c)
  | None => false
  end.

Definition disable (now : Z) (k : Key) : tx unit :=
  modify (λ s, s <| enables := alter (λ e, if e_enabled e
    then e <| e_enabled := false |> <| e_revision := e_revision e + 1 |> <| e_updated_at := now |> else e) k (enables s) |>).

(** [readyTimeoutKeepsEnable] *)
Definition cycleEnableKept : string := "enable_kept".
Definition readyTimeoutKeepsEnable (id : string) (c : cycleRow) (outcome reason : string) (s : State) : bool :=
  seqb outcome cycleFailed && seqb (c_State c) cycleWaitingReady && has_prefix reason (cycleWaitingReady +:+ "_timeout") &&
  negb (existsb (λ e, one_of (ce_stage e.2) [cycleBootstrapIntent; cycleClearIntent; cyclePickupIntent; cyclePromptIntent; cycleCompactIntent])
          (events_of id s)) &&
  match enables s !! requester c with
  | Some e => e_enabled e && (e_revision e =? c_EnableRevision c) &&
              negb ((e_kept_revision e =? e_revision e) && seqb (e_kept_epoch e) (c_Epoch c))
  | None => false
  end.

Definition keepEnableTx (c : cycleRow) : tx unit :=
  modify (λ s, s <| enables := alter (λ e, if e_revision e =? c_EnableRevision c
    then e <| e_kept_epoch := c_Epoch c |> <| e_kept_revision := e_revision e |> <| e_kept_read := false |> else e)
    (requester c) (enables s) |>).

Definition awaitingRead (k : Key) (enableRevision : Z) (epoch : string) (s : State) : bool :=
  match enables s !! k with
  | Some e => e_enabled e && (e_revision e =? enableRevision) && (e_kept_revision e =? e_revision e) &&
              negb (e_kept_read e) && (seqb epoch "" || seqb (e_kept_epoch e) epoch)
  | None => false
  end.

(** [rearm] *)
Definition rearm (k : Key) : tx unit := modify (λ s, s <| latches := delete k (latches s) |>).

(** The write of [noteCycleInboxRead] *)
Definition noteCycleInboxReadTx (caller : Key) : tx unit :=
  due ← gets (λ s, match enables s !! caller with
                   | Some e => e_enabled e && (e_kept_revision e =? e_revision e) && negb (e_kept_read e)
                   | None => false
                   end);
  when due
    (_ ← modify (λ s, s <| enables := alter (λ e, e <| e_kept_read := true |>) caller (enables s) |>);
     rearm caller).

(** ** The end of a cycle *)

Definition compactionKeepsEnable (c : cycleRow) (reason : string) : bool :=
  seqb (c_Mode c) ContextNativeCompaction && (seqb (c_State c) cycleCompactWaiting || seqb reason "epoch_changed").

(** [endCycleTx] *)
Definition endCycleTx (now : Z) (id : string) (c : cycleRow) (outcome reason : string) (carry : tx unit) : tx cycleRow :=
  unproven ← gets (cycleUnproven id c);
  let outcome := if negb (seqb outcome cycleComplete) && unproven then cycleUncertain else outcome in
  let keep := compactionKeepsEnable c reason in
  keepTimeout ← gets (readyTimeoutKeepsEnable id c outcome reason);
  c1 ← cycleEvent now id c outcome outcome reason;
  let c2 := if keepTimeout : bool then c1 <| c_Events := c_Events c1 + 1 |> else c1 in
  _ ← when keepTimeout (insert_cycle_event id (c_Events c2) (mkCycleEvent now cycleEnableKept cycleEnableKept reason));
  let c3 := c2 <| c_Revision := c_Revision c2 + 1 |> <| c_State := outcome |> <| c_Reason := reason |> <| c_Outcome := outcome |>
              <| c_UpdatedAt := now |> <| c_FinishedAt := now |> <| c_Credit := 0 |> in
  _ ← updateCycle id c3;
  _ ← (if seqb outcome cycleComplete then carry
       else if keep then rearm (requester c)
       else if keepTimeout then keepEnableTx c
       else disable now (requester c));
  _ ← cycleAudit now id c3 outcome reason;
  mret c3.

(** [endCycle], inside its transaction; revision 0 accepts every revision *)
Definition endTx (now : Z) (id : string) (revision : Z) (outcome reason : string) : tx cycleRow :=
  c ← read_cycle id;
  _ ← ensure (negb (cycleTerminal (c_State c) || (negb (revision =? 0) && negb (c_Revision c =? revision)))) ErrCycleChanged;
  endCycleTx now id c outcome reason (mret tt).
Definition endCycle (now : Z) (en : Engine) (id : string) (revision : Z) (outcome reason : string) (st : Store) :
    result error cycleRow * Store :=
  write (mkWrite control false now None (λ _, None)) en (endTx now id revision outcome reason) st.

(** [fenceCyclesTx]: ends the unfinished cycles that [where_] selects. *)
Definition fenceCyclesTx (now : Z) (reason : string) (where_ : cycleRow → bool) : tx unit :=
  found ← gets (λ s, select (λ _ c, unfinished c && where_ c) (cycles s));
  each (found : list (string * cycleRow)) (λ idc, _ ← endCycleTx now idc.1 idc.2 cycleCancelled reason (mret tt); mret tt).

(** ** The retention of finished cycles (context_cycle_controller.go) *)

Definition maxTerminalCycles : nat := 1024.
Definition terminalCycleRetention : Z := 30 * 24 * 60 * minute.
(** [ORDER BY finished_at DESC, cycle_id] *)
Definition newest_first (x y : string * cycleRow) : Prop :=
  c_FinishedAt y.2 < c_FinishedAt x.2 ∨ (c_FinishedAt x.2 = c_FinishedAt y.2 ∧ String.leb x.1 y.1 = true).
#[export] Instance newest_first_dec : RelDecision newest_first.
Proof. intros x y. unfold newest_first. apply _. Defined.
Definition finished_cycle (_ : string) (c : cycleRow) : bool := 0 <? c_FinishedAt c.
(** The finished cycles past the retention, or beyond the newest [maxTerminalCycles] *)
Definition trimmed (now : Z) (s : State) : list string :=
  let old := drop maxTerminalCycles (merge_sort newest_first (select finished_cycle (cycles s))) in
  fst <$> select (λ id c, finished_cycle id c && ((c_FinishedAt c <? now - terminalCycleRetention) || one_of id old.*1)) (cycles s).
(** [trimCycles], inside its transaction *)
Definition trimTx (now : Z) : tx unit := modify (λ s,
  let selected := trimmed now s in
  s <| cycle_events := filter (λ ke, one_of ke.1.1 selected = false) (cycle_events s) |>
    <| cycle_refusals := filter (λ kr, one_of kr.1.1 selected = false) (cycle_refusals s) |>
    <| cycles := filter (λ kc, one_of kc.1 selected = false) (cycles s) |>).
Definition trimCycles (now : Z) (en : Engine) (st : Store) : result error unit * Store :=
  write (mkWrite control false now None (λ _, None)) en (trimTx now) st.

(** ** Who a cycle belongs to *)

Definition same_host (c : cycleRow) (h : Z * Z * string * string) : bool :=
  let '(pid, start, socket, pane) := h in
  (pid =? c_HostPID c) && (start =? c_HostStart c) && seqb socket (c_Socket c) && seqb pane (c_Pane c).

(** [requesterPinned] *)
Definition requesterPinned (now : Z) (c : cycleRow) (s : State) : bool :=
  match scanSession now (requester c) s, hosted (requester c) s with
  | Some session, Some h =>
      bool_decide (ss_State session = Active) && same_host c h && seqb (ss_Address session) (c_Address c) &&
      (negb (c_Held c) || ss_HoldsAddress session)
  | _, _ => false
  end.

(** [pinnedRequester]: the guard of a requester's own report *)
Definition pinnedRequester (c : cycleRow) (now : Z) (s : State) : option error :=
  if requesterPinned now c s then None else Some ErrCycleChanged.

(** [overwatchNameHeld] *)
Definition overwatchNameHeld (s : State) : bool := bool_decide (is_Some (names s !! overwatchName)).

Section owners.
Context `{SHA : Sha256}.

(** cycle_deepseek.go, [deepSeekTargetPrint] and [deepSeekPinTarget]: the pin column is kept as
    the fingerprint of its target, empty for an absent pin. *)
Definition deepSeekTargetPrint (t : WakeTarget) : string :=
  hex_sum (to_bytes "dsh" ++ nul :: to_bytes (wt_dsh_url t) ++ nul :: to_bytes (wt_dsh_credentials t)).
Definition deepSeekPinTarget (pin : string) (t : WakeTarget) : bool := negb (seqb pin "") && seqb pin (deepSeekTargetPrint t).
(** [hostlessTargets] *)
Definition hostlessTargets (id : string) (ks : list Key) (s : State) : bool :=
  match cycles s !! id with
  | Some c => forallb (λ k, match sessions s !! k with Some r => deepSeekPinTarget (c_AdapterPin c) (s_wake_target r) | None => false end) ks
  | None => false
  end.

(** [successorOf] *)
Definition successorOf (now : Z) (id : string) (c : cycleRow) (caller : Key) (s : State) : bool :=
  one_of (c_State c) [cycleResetVerified; cyclePickupIntent; cycleWaitingPickup; cycleWaitingPrompt; cyclePromptIntent] &&
  match scanSession now caller s, hosted caller s with
  | Some session, Some h =>
      (negb (hostless (c_Family c)) ||
         ((c_HostStart c =? 0) && seqb (ID caller) (c_SuccessorEpoch c) && hostlessTargets id [caller; requester c] s)) &&
      bool_decide (ss_State session = Active) && same_host c h && negb (seqb (c_Address c) "") &&
      seqb (ss_Address session) (c_Address c) && ss_HoldsAddress session
  | _, _ => false
  end.

Inductive CycleRole := Requester | Successor.
#[local] Instance CycleRole_eq_dec : EqDecision CycleRole.
Proof. solve_decision. Defined.

(** [cycleOfCaller] *)
Definition cycleOfCaller (now : Z) (caller : Key) (id : string) (s : State) : result error (cycleRow * CycleRole) :=
  match cycles s !! id with
  | Some c =>
      if negb (seqb (c_Family c) (Family caller)) then Err ErrCycleNotFound
      else if seqb (c_SessionID c) (ID caller) then Ok (c, Requester)
      else if seqb (c_SuccessorID c) (ID caller) then Ok (c, Successor)
      else if successorOf now id c caller s then Ok (c, Successor)
      else Err ErrCycleNotFound
  | None => Err ErrCycleNotFound
  end.
End owners.

(** ** Advancing a cycle *)

(** [cycleRequestedAt]: the newest repeated request, or the admission.  LIKE ignores the case
    of ASCII letters. *)
Definition like_not_idle (reason : string) : bool := has_prefix (of_bytes (lower_ascii <$> to_bytes reason)) "not_idle.".
Definition cycleRequestedAt (id : string) (c : cycleRow) (s : State) : Z :=
  default (c_CreatedAt c)
    (max_at ((λ e, ce_at e.2) <$> filter (λ e, seqb (ce_stage e.2) cycleWaitingReady && like_not_idle (ce_reason e.2) = true) (events_of id s))).

(** [pickupPromptDeadline]: the prompt wait from the first dialog after the pickup *)
Definition pickupPromptDeadline (id : string) (s : State) : option Z :=
  let events := events_of id s in
  pickup ← min_at (fst <$> filter (λ e, seqb (ce_stage e.2) cycleWaitingPickup = true) events);
  first_ ← min_at ((λ e, ce_at e.2) <$>
             filter (λ e, seqb (ce_stage e.2) cycleWaitingPrompt && (pickup <? e.1) = true) events);
  Some (first_ + cyclePromptWait).

(** The stage deadline of the stage [to], before it is cut at the cycle's deadline; [c] has the
    new state. *)
Definition stage_deadline (now : Z) (id from to : string) (c : cycleRow) (s : State) : result error Z :=
  if seqb from to then Ok (c_StageDeadline c)
  else if seqb (c_PromptFrom c) cycleWaitingPickup && (seqb to cycleWaitingPrompt || seqb to cyclePromptIntent) then
    match pickupPromptDeadline id s with
    | Some wait => Ok (if seqb to cyclePromptIntent then Z.min (now + cycleReceiptWait) wait else wait)
    | None => Err ErrPickupPromptWait
    end
  else if seqb to cycleWaitingReady then Ok (cycleRequestedAt id c s + cycleReadyWait)
  else if seqb to cycleWaitingPrompt then Ok (now + cyclePromptWait)
  else if seqb to cycleCompactWaiting then Ok (c_CreatedAt c + cycleReadyWait)
  else if seqb to cycleCompactSent then Ok (now + cycleCompactConfirm)
  else if seqb to cycleWaitingPickup then Ok (now + cyclePickupWait)
  else Ok (now + cycleReceiptWait).

Definition lift {A} (r : result error A) : tx A := λ s, match r with Ok a => Ok (a, s) | Err e => Err e end.

(** [advanceCycle], inside its transaction.  [guard] is the caller's own check, [change] what
    the caller records in the row. *)
Definition advanceTx (now : Z) (id : string) (revision : Z) (from to reason : string)
    (guard : cycleRow → Z → State → option error) (change : cycleRow → cycleRow) : tx cycleRow :=
  c ← read_cycle id;
  _ ← ensure (negb (negb (c_Revision c =? revision) || negb (seqb (c_State c) from) || (c_StageDeadline c <=? now) ||
              (c_CycleDeadline c <=? now))) ErrCycleChanged;
  enabled ← gets (cycleEnabled c);
  _ ← ensure enabled ErrCycleChanged;
  _ ← check (guard c now);
  _ ← ensure (negb (c_Credit c <? cycleStagePages + cycleTerminalPages)) ErrCycleEventLimit;
  c1 ← cycleEvent now id c to "entered" reason;
  let c2 := c1 <| c_Revision := c_Revision c1 + 1 |> <| c_Credit := c_Credit c1 - cycleStagePages |> <| c_State := to |>
              <| c_Reason := reason |> <| c_UpdatedAt := now |> in
  wait ← gets (stage_deadline now id from to c2);
  deadline ← lift wait;
  let c3 := change (c2 <| c_StageDeadline := Z.min deadline (c_CycleDeadline c2) |>) in
  _ ← updateCycle id c3;
  _ ← cycleAudit now id c3 to reason;
  mret c3.

(** [advanceCycle]: a stage that would take the slot of the terminal outcome ends the cycle in
    a second write. *)
Definition advanceCycle (w : Write) (en en_end : Engine) (now now_end : Z) (id : string) (revision : Z) (from to reason : string)
    (guard : cycleRow → Z → State → option error) (change : cycleRow → cycleRow) (st : Store) : result error cycleRow * Store :=
  match write w en (advanceTx now id revision from to reason guard change) st with
  | (Err ErrCycleEventLimit, st1) => endCycle now_end en_end id revision cycleFailed "event_limit" st1
  | r => r
  end.

(** ** The request of a cycle *)

(** context_cycle_artifact.go, [handoffFacts] and [cycleAgent] *)
Definition handoffFacts : string := ".koinon/skills/handoff.md".
Definition cycleAgent (family role : string) : string := if seqb role "" then family else family +:+ "-" +:+ role.

Definition cycleRequestBody (id : string) (revision : Z) (family agent : string) (deadline : Z) : string :=
  let by_ := format_utc deadline in
  let '(ready, reset, idle) :=
    if seqb family "deepseek" then ("run koinon cycle-ready --as deepseek:$DSH_SESSION_ID",
      "starts a new harness session for the pickup once this session is idle", "session")%string
    else ("call context_cycle_ready", "clears your context at your idle prompt", "pane")%string in
  let subagents :=
    if seqb family "claude" then
      ("The clear does not stop your background subagents: do not stop them or wait for them. In the handoff, " +:+
       "list each one that still runs, with its task and where its result goes; the new session gets each result as a message.")%string
    else
      ("Let running background subagents finish, or stop them, so that the handoff holds their results; " +:+
       "stop any that will not finish with enough time left to update the handoff and report ready by " +:+ by_ +:+ ".")%string in
  "overwatch: managed context cycle " +:+ id +:+ " revision " +:+ itoa revision +:+
  " requests your handoff. Report ready by " +:+ by_ +:+ ". Pause your work at the next safe stopping point and start no new work. " +:+
  "This pause is for this cycle only; the handoff does not record it as a rule for the next session. " +:+ subagents +:+ " Write your handoff " +:+
  "with your canonical handoff procedure into _handoff/" +:+ agent +:+ "/ of the main checkout (outside a Git checkout, of the directory " +:+
  "where this session started), or into the directory that the Handoff path fact of " +:+ handoffFacts +:+ " names, then " +:+ ready +:+ " with this cycle ID, " +:+
  "its revision and the handoff file name. Then end your turn and stay idle: overwatch " +:+ reset +:+ ", and asks again " +:+
  "if your " +:+ idle +:+ " does not become idle. See the Managed cycle reporting section of koinon guide.".

Definition cycleRequestKind : string := "context_cycle_request".
(** The typed request in the requester's inbox, from overwatch *)
Definition request_message (k : Key) (seq : Z) (id : string) (c : cycleRow) (role : string) (now : Z) : MessageRow :=
  (new_message k seq overwatchKey overwatchName
     (cycleRequestBody id (c_Revision c) (c_Family c) (cycleAgent (c_Family c) role) (c_StageDeadline c)) now)
    <| m_system_kind := cycleRequestKind |> <| m_cycle_id := id |> <| m_cycle_enable_revision := c_EnableRevision c |>.

(** [UPDATE sessions SET last_seq=last_seq+1 ... RETURNING last_seq,role], of any row *)
Definition next_seq (k : Key) : tx (Z * string) := λ s,
  match sessions s !! k with
  | Some r => Ok ((s_last_seq r + 1, s_role r), s <| sessions := <[k := r <| s_last_seq := s_last_seq r + 1 |> ]> (sessions s) |>)
  | None => Err NoRows
  end.

(** [cycleRepeatable] *)
Definition cycleRepeatable (seen : string) : bool :=
  negb (one_of seen [""; "tmux_unavailable"; "pane_unproven"; "pane_in_mode"; "pane_unreadable"; "home_unknown"; "rollout_unreadable";
    "harness_unreadable"; "harness_changed"; "history_unread"; "input_queued"]%string).

(** [repeatCycleRequest], inside its transaction *)
Definition repeatTx (now : Z) (id : string) (revision : Z) (seen : string) : tx unit :=
  c ← read_cycle id;
  _ ← ensure (negb (negb (c_Revision c =? revision) || negb (seqb (c_State c) cycleReady) || (c_CycleDeadline c <=? now))) ErrCycleChanged;
  enabled ← gets (cycleEnabled c);
  _ ← ensure enabled ErrCycleChanged;
  pinned ← gets (requesterPinned now c);
  _ ← ensure pinned ErrCycleChanged;
  _ ← ensure (negb (c_Credit c <? cycleStagePages + cycleTerminalPages)) ErrCycleEventLimit;
  let reason := "not_idle." +:+ seen in
  c1 ← cycleEvent now id c cycleWaitingReady "entered" reason;
  let c2 := c1 <| c_Revision := c_Revision c1 + 1 |> <| c_Credit := c_Credit c1 - cycleStagePages |> <| c_State := cycleWaitingReady |>
              <| c_Reason := reason |> <| c_UpdatedAt := now |> <| c_StageDeadline := Z.min (now + cycleReadyWait) (c_CycleDeadline c1) |>
              <| c_Artifact := ""%string |> <| c_ArtifactDev := 0 |> <| c_ArtifactIno := 0 |> <| c_ArtifactSize := 0 |> <| c_ArtifactMtime := 0 |> in
  taken ← next_seq (requester c);
  let '(seq, role) := taken in
  _ ← insert_message (request_message (requester c) seq id c2 role now);
  _ ← updateCycle id c2;
  _ ← modify (λ s, s <| cycles := alter (λ r, r <| c_MessageSeq := seq |>) id (cycles s) |>);
  cycleAudit now id c2 cycleWaitingReady reason.

Definition repeatCycleRequest (now : Z) (en : Engine) (id : string) (revision : Z) (seen : string) (st : Store) : result error unit * Store :=
  write (mkWrite ordinary false now None (λ _, None)) en (repeatTx now id revision seen) st.

(** ** Ready reports *)

(** The facts of a verified artifact file; verifying it reads the session's checkout. *)
Record artifactFile := mkArtifactFile { af_dev : Z; af_ino : Z; af_size : Z; af_mtime : Z }.
Definition report_artifact (artifact : string) (f : artifactFile) (c : cycleRow) : cycleRow :=
  c <| c_Artifact := artifact |> <| c_ArtifactDev := af_dev f |> <| c_ArtifactIno := af_ino f |>
    <| c_ArtifactSize := af_size f |> <| c_ArtifactMtime := af_mtime f |>.

(** The fixed-width slot of the newest refused report *)
Definition refusalSlotWidth : nat := 96.
Definition refusalSlot (revision : Z) (code : string) : string :=
  of_bytes (fixed_digits 20 revision) +:+ " " +:+ pad_right 75 code.
Definition parseRefusalSlot (slot : string) : Z * string :=
  match fields slot with
  | [r; code] =>
      if bool_decide (String.length slot = refusalSlotWidth)
      then match parse_int r with Some revision => (revision, code) | None => (0, ""%string) end
      else (0, ""%string)
  | _ => (0, ""%string)
  end.

(** The write of [writeRefusalSlot] *)
Definition waits_at (revision : Z) (c : cycleRow) : bool := seqb (c_State c) cycleWaitingReady && (c_Revision c =? revision).
Definition writeRefusalSlotTx (id : string) (revision : Z) (code : string) : tx unit :=
  modify (λ s, s <| cycles := alter (λ r,
    if waits_at revision r && bool_decide (String.length (c_ReadyRefusal r) = refusalSlotWidth)
    then r <| c_ReadyRefusal := refusalSlot revision code |> else r) id (cycles s) |>).
Definition slot_code (code : string) : bool :=
  (len code <=? 75) && negb (contains_any code [chr 32; chr 9; chr 13; chr 10]).

(** [readyRefusalCode] *)
Definition readyRefusalCode (id : string) (c : cycleRow) (s : State) : option string :=
  r ← cycles s !! id;
  Some (let '(revision, code) := parseRefusalSlot (c_ReadyRefusal r) in if revision =? c_Revision c then code else ""%string).

(** The second write of [recordReadyRefusal]: the text joins the history, whose newest
    [maxCycleRefusals] entries stay. *)
Definition recordRefusalTx (now : Z) (id : string) (revision : Z) (code message : string) : tx unit :=
  c ← read_cycle id;
  _ ← ensure (waits_at revision c) NoRows;
  ordinal ← gets (λ s, default 0 (max_at ((λ r, r.1.2) <$> select (λ k _, seqb k.1 id) (cycle_refusals s))) + 1);
  modify (λ s, s <| cycle_refusals :=
    filter (λ kr, negb (seqb kr.1.1 id && (kr.1.2 <=? ordinal - maxCycleRefusals)) = true)
      (<[(id, ordinal) := mkRefusalRow revision now code message]> (cycle_refusals s)) |>).

(** ** Pickup reports *)

(** [pickupRevision]: a revision that the successor can read while the cycle accepts its
    report is the ordinal of that stage's event. *)
Definition pickupRevision (id : string) (revision : Z) (s : State) : bool :=
  match cycle_events s !! (id, revision),
        min_at (fst <$> filter (λ e, one_of (ce_stage e.2) [cycleResetVerified; cycleWaitingPickup] = true) (events_of id s)) with
  | Some e, Some first_ =>
      one_of (ce_stage e) [cycleResetVerified; cycleWaitingPickup; cycleWaitingPrompt; cyclePromptIntent] && (first_ <=? revision)
  | _, _ => false
  end.

(** The Enable that [carry] gives to the successor [r] *)
Definition carried_enable (now : Z) (c : cycleRow) (threshold : Z) (r : SessionRow) (old : option EnableRow) : EnableRow :=
  match old with
  | None => mkEnableRow true 1 (s_revision r) (c_Address c) (s_host_pid r) (s_host_start r) (s_tmux_socket r) (s_tmux_pane r) now threshold "" 0 false
  | Some e =>
      e <| e_enabled := true |> <| e_revision := e_revision e + 1 |> <| e_session_revision := s_revision r |> <| e_address := c_Address c |>
        <| e_host_pid := s_host_pid r |> <| e_host_start := s_host_start r |> <| e_tmux_socket := s_tmux_socket r |>
        <| e_tmux_pane := s_tmux_pane r |> <| e_updated_at := now |> <| e_threshold := threshold |>
  end.

(** [carry]: the Enable moves to the proven successor; a retained caller keeps its own. *)
Definition carryEnable (now : Z) (c : cycleRow) (caller : Key) : tx unit :=
  if seqb (ID caller) (c_SessionID c) then mret tt
  else
    threshold ← gets (λ s, from_option e_threshold 0 (enables s !! requester c));
    o ← gets (λ s, sessions s !! caller);
    _ ← match (o : option SessionRow) with
        | Some r => modify (λ s, s <| enables := <[caller := carried_enable now c threshold r (enables s !! caller)]> (enables s) |>)
        | None => mret tt
        end;
    disable now (requester c).

Section pickup.
Context `{SHA : Sha256}.

(** The checks of [ContextCyclePickup] on its arguments, without the artifact's name and the
    epoch's form *)
Definition pickup_valid (id : string) (revision : Z) (outcome report : string) : bool :=
  negb (seqb id "") && (1 <=? revision) && (seqb outcome "resumed" || seqb outcome "paused") &&
  negb (seqb report "") && (len report <=? maxPickupReport) && valid_string report.

(** What the reads before the write of [ContextCyclePickup] decide: [None] goes on to the
    write with the cycle as it was read. *)
Definition pickupCheck (caller : Key) (epoch artifact outcome report : string) (id : string) (revision : Z) (c : cycleRow) (s : State) :
    option (result error cycleRow) :=
  let read_ := pickupRevision id revision s in
  if seqb (c_State c) cycleComplete && ((c_Revision c =? revision + 1) || read_) && seqb (c_SuccessorID c) (ID caller) then
    Some (if negb (seqb (c_SuccessorEpoch c) epoch) || negb (seqb (c_Artifact c) artifact) || negb (seqb (c_Reason c) outcome) ||
             negb (seqb (c_Report c) report)
          then Err ErrCycleChanged else Ok c)
  else if negb (acceptsPickupReport c) || negb read_ || negb (seqb (c_Artifact c) artifact) then
    Some (Err (if negb (cycleTerminal (c_State c)) && negb (acceptsPickupReport c) then ErrCyclePickupNotReady else ErrCycleChanged))
  else if seqb epoch (c_Epoch c) || (negb (seqb (c_SuccessorEpoch c) "") && negb (seqb epoch (c_SuccessorEpoch c))) then Some (Err ErrCycleEpoch)
  else None.

(** The write of [ContextCyclePickup]; [c] is the cycle that the reads before it found. *)
Definition pickupTx (now now_end : Z) (caller : Key) (role : CycleRole) (epoch artifact outcome report : string) (id : string) (c : cycleRow) : tx cycleRow :=
  current ← read_cycle id;
  _ ← ensure (negb (negb (cycleTerminal (c_State current)) && negb (acceptsPickupReport current))) ErrCyclePickupNotReady;
  _ ← ensure (negb (negb (acceptsPickupReport current) || negb (seqb (c_Artifact current) artifact) ||
              negb (seqb (c_Epoch current) (c_Epoch c)) || negb (seqb (c_SuccessorEpoch current) (c_SuccessorEpoch c)) ||
              (c_StageDeadline current <=? now) || (c_CycleDeadline current <=? now))) ErrCycleChanged;
  pinned ← gets (λ s, cycleEnabled current s &&
                      match role with
                      | Successor => successorOf now id current caller s
                      | Requester => requesterPinned now current s
                      end);
  _ ← ensure pinned ErrCycleChanged;
  let done := current <| c_SuccessorID := ID caller |> <| c_SuccessorEpoch := epoch |> <| c_Report := report |> in
  endCycleTx now_end id done cycleComplete outcome (carryEnable now done caller).
End pickup.

(** ** Claims during a cycle (context_cycle_claims.go) *)

Definition cycleClaimGrace : Z := 60.

Section claims.
Context `{SHA : Sha256}.

(** work_role.go, [nativeWorkActorForKey] *)
Definition nativeWorkActorForKey (k : Key) : string :=
  if validKey (Family k) (ID k)
  then hex_sum (to_bytes ("[" +:+ json_string (Family k) +:+ "," +:+ json_string (ID k) +:+ "]"))
  else "".

(** [cycleClaimMatch] *)
Definition cycleClaimMatch (c : cycleRow) (b : BundleRow) : bool :=
  seqb (b_consumer b) (c_Peer c) || seqb (b_consumer b) (c_Family c +:+ ":" +:+ c_SessionID c) ||
  (negb (seqb (b_native_actor b) "") && seqb (b_native_actor b) (nativeWorkActorForKey (requester c))) ||
  (c_Held c && negb (seqb (c_Address c) "") && seqb (b_consumer b) (participantKey (c_Address c))).

(** [protectCycleClaims] *)
Definition protect_floor (c : cycleRow) : float := fadd (fdiv (of_int (c_CycleDeadline c)) (of_int 1000)) (of_int cycleClaimGrace).
Definition protectCycleClaims (now : Z) (id : string) (c : cycleRow) (repository : string) : tx unit :=
  if seqb repository "" then mret tt
  else
    store ← gets (λ s, from_option sto_store_id ""%string (memory_stores s !! repository));
    if seqb store "" then mret tt
    else modify (λ s, s <| claim_bundles := update_where (λ k b,
           seqb k.1 store && b_active b && fltb (fdiv (of_int now) (of_int 1000)) (b_expires_at b) &&
           fltb (b_expires_at b) (protect_floor c) &&
           match cycles s !! id with Some c' => cycleClaimMatch c' b | None => false end)
           (λ b, b <| b_expires_at := protect_floor c |>) (claim_bundles s) |>).
End claims.
