(* ===== verification/ContextPolicy.v ===== *)
(** * The context policy and the admission of cycles (internal/core/context_policy.go,
      context_cycle.go)

    A family's mode and threshold from the settings, a session's Enable switch and threshold,
    the pure selection of a context crossing, and [admitContextCycle], which turns a selected
    crossing into a funded cycle. *)

From S2P Require Import Prelude GoString GoFloat Schema Sql Label Fixture Storage Names Messages Sessions Cycles.
Open Scope Z_scope.

(** ** Family policies *)

Record ContextFamilyPolicy := mkPolicy { Mode : string; Threshold : Z; PolicyError : string }.

Definition contextModeValue (mode : string) : option Z :=
  if seqb mode ContextObserve then Some 0
  else if seqb mode ContextNativeCompaction then Some 1
  else if seqb mode ContextHandoffCycle then Some 2 else None.
Definition modeOfValue (v : Z) : string :=
  if v =? 0 then ContextObserve else if v =? 1 then ContextNativeCompaction else if v =? 2 then ContextHandoffCycle else "".

Definition contextDefaultThreshold : Z := 75.
Definition defaultContextPolicy (family : string) : ContextFamilyPolicy :=
  mkPolicy (if seqb family "claude" then ContextHandoffCycle else if seqb family "codex" then ContextNativeCompaction else ContextObserve)
    contextDefaultThreshold "".

Definition validContextPolicy (family mode : string) (threshold : Z) : bool :=
  bool_decide (is_Some (contextModeValue mode)) && (1 <=? threshold) && (threshold <=? 100) &&
  (negb (seqb mode ContextNativeCompaction) || seqb family "codex").

Definition contextFamily (family : string) : bool := bool_decide (family ∈ SupportedFamilies).

(** [loadContextPolicy], for one family: a stored pair that is not valid keeps the default. *)
Definition stored_policy (family : string) (s : State) : ContextFamilyPolicy :=
  let p := defaultContextPolicy family in
  let invalid := mkPolicy (Mode p) (Threshold p) "stored_value_invalid" in
  let mode := fst <$> settings s !! ("context_mode_" +:+ family)%string in
  let threshold := fst <$> settings s !! ("context_threshold_" +:+ family)%string in
  match mode, threshold with
  | Some None, _ | _, Some None => invalid
  | None, None => p
  | Some (Some m), Some (Some t) =>
      if validContextPolicy family (modeOfValue m) t then mkPolicy (modeOfValue m) t "" else invalid
  | _, _ => invalid
  end.
(** [familyContextPolicy]: a family that is not supported has its default. *)
Definition familyContextPolicy (family : string) (s : State) : ContextFamilyPolicy :=
  if contextFamily family then stored_policy family s else defaultContextPolicy family.

(** [SetContextPolicy], inside its transaction *)
Definition setContextPolicyTx (now now_end : Z) (family mode : string) (threshold : Z) : tx unit :=
  _ ← set_setting now ("context_mode_" +:+ family)%string (default 0 (contextModeValue mode));
  _ ← set_setting now ("context_threshold_" +:+ family)%string threshold;
  _ ← fenceCyclesTx now_end "mode_changed" (λ c, seqb (c_Family c) family && negb (seqb (c_Mode c) mode));
  setAuditTarget ("context " +:+ family +:+ " mode " +:+ mode +:+ " threshold " +:+ itoa threshold).
Definition SetContextPolicy (now now_end at_ : Z) (audit : option PendingAudit) (en : Engine) (family mode : string) (threshold : Z) (st : Store) :
    result error unit * Store :=
  if negb (contextFamily family) || negb (validContextPolicy family mode threshold) then (Err ErrInvalid, st)
  else write (mkWrite control true at_ audit (λ _, None)) en (setContextPolicyTx now now_end family mode threshold) st.

(** ** Enable *)

(** [contextEnableOf]: the Enable of a session, all zero when it has none *)
Record ContextEnable := mkContextEnable { Enabled : bool; EnableRevision : Z; EnableUpdatedAt : Z; EnableThreshold : Z }.
Definition contextEnableOf (k : Key) (s : State) : ContextEnable :=
  match enables s !! k with
  | Some e => mkContextEnable (e_enabled e) (e_revision e) (e_updated_at e) (e_threshold e)
  | None => mkContextEnable false 0 0 0
  end.

Definition sessionContextPolicy (family : string) (enable : ContextEnable) (s : State) : ContextFamilyPolicy :=
  let p := familyContextPolicy family s in
  if 0 <? EnableThreshold enable then mkPolicy (Mode p) (EnableThreshold enable) (PolicyError p) else p.

(** The session that a context change names by its peer name *)
Definition contextPeer (peer : string) (s : State) : option Key :=
  match names s !! peer with
  | Some n => if bool_decide (n_kind n = Peer) && negb (seqb (n_family n) "maintainer") then Some (mkKey (n_family n) (n_session_id n)) else None
  | None => None
  end.

(** The answer of the family adapter's probe of the host, the pane and the pickup entry; the
    pin is decoded, with the length of its text *)
Record CycleProbe := mkCycleProbe { probe_Reason : string; probe_Entry : string; probe_Pin : string; probe_PinBytes : Z }.

Definition on_off (b : bool) : string := if b then "on" else "off".

(** The Enable still names the session's revision, participant, host and pane. *)
Definition pinned_enable (e : EnableRow) (session : Session) (h : Z * Z * string * string) : bool :=
  let '(pid, start, socket, pane) := h in
  (e_session_revision e =? ss_Revision session) && seqb (e_address e) (ss_Address session) && (e_host_pid e =? pid) &&
  (e_host_start e =? start) && seqb (e_tmux_socket e) socket && seqb (e_tmux_pane e) pane.

Definition set_enable (now : Z) (k : Key) (enabled : bool) (revision : Z) (session : Session) (h : Z * Z * string * string) (old : option EnableRow) : EnableRow :=
  let '(pid, start, socket, pane) := h in
  match old with
  | None => mkEnableRow enabled revision (ss_Revision session) (ss_Address session) pid start socket pane now 0 "" 0 false
  | Some e =>
      e <| e_enabled := enabled |> <| e_revision := revision |> <| e_session_revision := ss_Revision session |>
        <| e_address := ss_Address session |> <| e_host_pid := pid |> <| e_host_start := start |> <| e_tmux_socket := socket |>
        <| e_tmux_pane := pane |> <| e_updated_at := now |>
  end.

(** [SetContextEnable], inside its transaction *)
Definition setContextEnableTx (now now_end : Z) (probe : CycleProbe) (peer : string) (sessionRevision ifRevision : Z) (enabled : bool) : tx ContextEnable :=
  o ← gets (contextPeer peer);
  k ← row (o : option Key) ErrPeerNotFound;
  o ← gets (scanSession now k);
  session ← row (o : option Session) ErrMissing;
  o ← gets (hosted k);
  h ← row (o : option (Z * Z * string * string)) NoRows;
  _ ← ensure (ss_Revision session =? sessionRevision) ErrHolderRevisionChanged;
  current ← gets (contextEnableOf k);
  _ ← ensure (EnableRevision current =? ifRevision) ErrEnableChanged;
  _ ← when enabled
        (_ ← check (active now k);
         ensure (negb (negb (seqb (probe_Reason probe) "") || seqb (probe_Entry probe) "")) ErrContextCycleUnavailable);
  if (EnableRevision current =? 0) && negb enabled then
    _ ← setAuditTarget ("context enable " +:+ peer +:+ " off unchanged");
    mret current
  else
    old ← gets (λ s, enables s !! k);
    if enabled && Enabled current && match (old : option EnableRow) with Some e => pinned_enable e session h | None => false end then
      _ ← setAuditTarget ("context enable " +:+ peer +:+ " on unchanged");
      mret current
    else
      let next := mkContextEnable enabled (EnableRevision current + 1) now (EnableThreshold current) in
      _ ← (if negb enabled then fenceCyclesTx now_end "disabled" (λ c, keqb (requester c) k)
           else when (negb (Enabled current)) (rearm k));
      _ ← modify (λ s, s <| enables := <[k := set_enable now k enabled (EnableRevision next) session h (enables s !! k)]> (enables s) |>);
      _ ← setAuditTarget ("context enable " +:+ peer +:+ " " +:+ on_off enabled +:+ " revision " +:+ itoa (EnableRevision next));
      mret next.
Definition SetContextEnable (now now_end at_ : Z) (audit : option PendingAudit) (en : Engine) (probe : CycleProbe) (peer : string)
    (sessionRevision ifRevision : Z) (enabled : bool) (st : Store) : result error ContextEnable * Store :=
  if seqb peer "" || (sessionRevision <? 1) || (ifRevision <? 0) then (Err ErrInvalid, st)
  else write (mkWrite (if enabled then ordinary else control) true at_ audit (λ _, None)) en
         (setContextEnableTx now now_end probe peer sessionRevision ifRevision enabled) st.

(** [SetContextThreshold], inside its transaction *)
Definition setContextThresholdTx (now : Z) (peer : string) (threshold : Z) : tx ContextEnable :=
  o ← gets (contextPeer peer);
  k ← row (o : option Key) ErrPeerNotFound;
  current ← gets (contextEnableOf k);
  let target := if 0 <? threshold then itoa threshold else "family"%string in
  if EnableThreshold current =? threshold then
    _ ← setAuditTarget ("context threshold " +:+ peer +:+ " " +:+ target +:+ " unchanged");
    mret current
  else
    next ← (if EnableRevision current =? 0 then
              o ← gets (scanSession now k);
              session ← row (o : option Session) ErrMissing;
              o ← gets (hosted k);
              h ← row (o : option (Z * Z * string * string)) NoRows;
              let '(pid, start, socket, pane) := h in
              held ← gets (λ s, bool_decide (is_Some (enables s !! k)));
              _ ← ensure (negb held) Constraint;
              _ ← modify (λ s, s <| enables := <[k := mkEnableRow false 1 (ss_Revision session) (ss_Address session) pid start socket pane now threshold "" 0 false]> (enables s) |>);
              mret (mkContextEnable false 1 now 0)
            else
              _ ← modify (λ s, s <| enables := alter (λ e, e <| e_threshold := threshold |>) k (enables s) |>);
              mret current);
    _ ← setAuditTarget ("context threshold " +:+ peer +:+ " " +:+ target);
    mret (mkContextEnable (Enabled next) (EnableRevision next) (EnableUpdatedAt next) threshold).
Definition SetContextThreshold (now at_ : Z) (audit : option PendingAudit) (en : Engine) (peer : string) (threshold : Z) (st : Store) :
    result error ContextEnable * Store :=
  if seqb peer "" || (threshold <? 0) || (100 <? threshold) then (Err ErrInvalid, st)
  else write (mkWrite ordinary true at_ audit (λ _, None)) en (setContextThresholdTx now peer threshold) st.

(** ** The selection *)

Definition contextSourceMaxAge : Z := 120000.
Definition contextConfirmationMaxAge : Z := 90000.

(** A context observation: [End] says that the confirmation carries a caught-up mark, [Current]
    that it proves the reading current. *)
Record ContextEvidence := mkEvidence {
  Found : bool; UsedTokens : option Z; LimitTokens : option Z; Epoch : string; SourceAt : Z; ConfirmedAt : Z; End_ : bool; Current : bool }.

Record ContextTriggerInput := mkTrigger {
  ti_Active : bool; ti_Enabled : bool; ti_Policy : ContextFamilyPolicy; ti_CycleAvailable : bool; ti_OverwatchConflict : bool;
  ti_Evidence : ContextEvidence; ti_Now : Z; ti_LatchedEpoch : string; ti_AwaitingRead : bool }.

Definition currentReading (mode : string) (e : ContextEvidence) : bool :=
  if seqb mode ContextNativeCompaction then End_ e
  else if seqb mode ContextHandoffCycle then End_ e || Current e else false.

(** int64 arithmetic wraps around. *)
Definition int64 (z : Z) : Z := (z + 2 ^ 63) mod 2 ^ 64 - 2 ^ 63.

(** [SelectContextTrigger]: [None] selects the crossing, otherwise the fixed reason. *)
Definition SelectContextTrigger (i : ContextTriggerInput) : option string :=
  let e := ti_Evidence i in
  let mode := Mode (ti_Policy i) in
  if negb (ti_Active i) then Some "session_inactive"%string
  else if negb (seqb mode ContextHandoffCycle) && negb (seqb mode ContextNativeCompaction) then Some ("mode_" +:+ mode)
  else if negb (ti_Enabled i) then Some "not_enabled"%string
  else if negb (ti_CycleAvailable i) then Some "context_cycle_unavailable"%string
  else if ti_OverwatchConflict i && seqb mode ContextHandoffCycle then Some "overwatch_name_conflict"%string
  else if negb (Found e) then Some "context_unknown"%string
  else match UsedTokens e, LimitTokens e with
  | Some used, Some limit =>
      if (limit <=? 0) || (used <? 0) then Some "context_counts_invalid"%string
      else if seqb (Epoch e) "" then Some "epoch_unverified"%string
      else if (ti_Now i <? SourceAt e) || (ti_Now i <? ConfirmedAt e) then Some "observation_future"%string
      else if (contextSourceMaxAge <? ti_Now i - SourceAt e) && negb (currentReading mode e) then Some "source_stale"%string
      else if contextConfirmationMaxAge <? ti_Now i - ConfirmedAt e then Some "confirmation_stale"%string
      else if int64 (used * 100) <? int64 (Threshold (ti_Policy i) * limit) then Some "below_threshold"%string
      else if ti_AwaitingRead i then Some "awaiting_inbox_read"%string
      else if seqb (ti_LatchedEpoch i) (Epoch e) then Some "already_selected_for_epoch"%string
      else None
  | _, _ => Some "context_counts_unavailable"%string
  end.

(** [contextLatches.latched]: the epoch of a selected crossing, cleared by a new epoch or by
    usage below the threshold *)
Definition stale_latch (latched : string) (e : ContextEvidence) (threshold : Z) : bool :=
  negb (seqb (Epoch e) latched) ||
  match UsedTokens e, LimitTokens e with Some used, Some limit => int64 (used * 100) <? int64 (threshold * limit) | _, _ => false end.
Definition latched (k : Key) (e : ContextEvidence) (threshold : Z) : tx string := λ s,
  match latches s !! k with
  | Some l =>
      if seqb l "" then Ok (""%string, s)
      else if stale_latch l e threshold then Ok (""%string, s <| latches := delete k (latches s) |>) else Ok (l, s)
  | None => Ok (""%string, s)
  end.
(** [contextLatches.mark] *)
Definition mark_latch (k : Key) (epoch : string) : tx unit := modify (λ s, s <| latches := <[k := epoch]> (latches s) |>).
