(* ===== verification/Admission.v ===== *)
(** * The admission of context cycles (internal/core/context_cycle.go)

    [admitContextCycle]: a session whose context crossed its threshold gets a funded cycle,
    with its typed request, in one ordinary write; a refusal stores nothing. *)

From S2P Require Import Prelude GoString GoFloat Schema Sql Label Fixture Storage Names Messages Sessions Cycles ContextPolicy.
Open Scope Z_scope.

(** The versions of the registered adapters (cycle_claude.go, cycle_codex.go, cycle_agy.go,
    cycle_opencode.go, cycle_grok.go, cycle_deepseek.go) *)
Definition adapterVersion (family : string) : option string :=
  if seqb family "claude" then Some "claude-tmux-1"%string
  else if seqb family "codex" then Some "codex-tmux-1"%string
  else if seqb family "agy" then Some "agy-tmux-1"%string
  else if seqb family "opencode" then Some "opencode-server-1"%string
  else if seqb family "grok" then Some "grok-tmux-1"%string
  else if seqb family "deepseek" then Some "dsh-session-1"%string
  else None.

(** [cycleCode], the pattern of a version: [^[a-z0-9][a-z0-9._-]{0,63}$] *)
Definition code_char (a : ascii) : bool := ((97 <=? code a) && (code a <=? 122)) || is_digit a.
Definition cycleCode (s : string) : bool :=
  match to_bytes s with
  | a :: r => code_char a && (Z.of_nat (length r) <=? 63) &&
              forallb (λ a, code_char a || (code a =? 46) || (code a =? 95) || (code a =? 45)) r
  | [] => false
  end.

Definition cyclePinMax : Z := 640.

(** [insertCycle] and the write of the adapter's pin *)
Definition insertCycle (id : string) (c : cycleRow) : tx unit := λ s,
  match cycles s !! id with
  | Some _ => Err Constraint
  | None => Ok (tt, s <| cycles := <[id := c <| c_ReadyRefusal := refusalSlot 0 "" |> ]> (cycles s) |>)
  end.

(** The row of a new cycle *)
Definition new_cycle (now : Z) (k : Key) (session : Session) (h : Z * Z * string * string) (enable : ContextEnable)
    (policy : ContextFamilyPolicy) (e : ContextEvidence) (version digest : string) : cycleRow :=
  let '(pid, start, socket, pane) := h in
  mkCycleRow cycleWaitingReady "" "" (ss_Name session) (ss_Address session) (Mode policy) (Epoch e) (Family k) (ID k) socket pane
    1 pid start (EnableRevision enable) (Threshold policy) (default 0 (UsedTokens e)) (default 0 (LimitTokens e))
    (SourceAt e) (ConfirmedAt e) 0 now now (now + cycleReadyWait) (now + cycleLifetime) "" 0 0 0 0 version digest "" "" "" "" 0 0
    cycleCreditPages (ss_HoldsAddress session) "" "".

(** One unfinished cycle per session, and per host *)
Definition occupied (k : Key) (h : Z * Z * string * string) (_ : string) (c : cycleRow) : bool :=
  let '(pid, start, _, _) := h in
  unfinished c && (keqb (requester c) k || ((0 <? start) && (c_HostPID c =? pid) && (c_HostStart c =? start))).

(** The host that the Enable pinned is still the session's. *)
Definition pinned_host (e : EnableRow) (h : Z * Z * string * string) : bool :=
  let '(pid, start, socket, pane) := h in
  (pid =? e_host_pid e) && (start =? e_host_start e) && seqb socket (e_tmux_socket e) && seqb pane (e_tmux_pane e).
Definition launched_host (h : Z * Z * string * string) : bool :=
  let '(pid, start, socket, pane) := h in (0 <? pid) && (0 <? start) && negb (seqb pane "").

Section admission.
Context `{SHA : Sha256}.

(** The request of a handoff cycle and the protection of the session's claims *)
Definition admit_handoff (now : Z) (id : string) (c : cycleRow) (session : Session) : tx cycleRow :=
  taken ← next_seq (requester c);
  let '(seq, _) := taken in
  let c := c <| c_MessageSeq := seq |> in
  _ ← insert_message (request_message (requester c) seq id c (ss_Role session) now);
  _ ← insertCycle id c;
  _ ← protectCycleClaims now id c (ss_Repository session);
  mret c.
Definition admit_compaction (id : string) (c : cycleRow) : tx cycleRow :=
  let c := c <| c_State := cycleCompactWaiting |> <| c_CatalogDigest := ""%string |> in
  _ ← insertCycle id c;
  mret c.

(** [admitContextCycle], inside its transaction *)
Definition admitTx (now : Z) (k : Key) (id digest version : string) (evidence : ContextEvidence) (latched_ : string)
    (probe : CycleProbe) : tx unit :=
  o ← gets (scanSession now k);
  session ← row (o : option Session) ErrMissing;
  enable ← gets (contextEnableOf k);
  conflict ← gets overwatchNameHeld;
  policy ← gets (sessionContextPolicy (Family k) enable);
  awaiting ← gets (awaitingRead k (EnableRevision enable) (Epoch evidence));
  _ ← ensure (bool_decide (SelectContextTrigger (mkTrigger (bool_decide (ss_State session = Active)) (Enabled enable) policy true conflict
                evidence now latched_ awaiting) = None)) Declined;
  o ← gets (λ s, enables s !! k);
  pin ← row (o : option EnableRow) NoRows;
  o ← gets (hosted k);
  h ← row (o : option (Z * Z * string * string)) NoRows;
  _ ← ensure (pinned_host pin h && (hostless (Family k) || launched_host h)) Declined;
  current ← gets (λ s, exists_where (occupied k h) (cycles s));
  _ ← ensure (negb current) Declined;
  active ← gets (λ s, count_where (λ _ c, unfinished c) (cycles s));
  _ ← ensure (negb (maxActiveCycles <=? active)) Declined;
  let c := new_cycle now k session h enable policy evidence version digest in
  c ← (if seqb (Mode policy) ContextNativeCompaction then admit_compaction id c else admit_handoff now id c session);
  c ← cycleEvent now id c cycleRequested "admitted" "";
  _ ← modify (λ s, s <| cycles := alter (λ r, r <| c_Events := c_Events c |> <| c_AdapterPin := probe_Pin probe |>) id (cycles s) |>);
  cycleAudit now id c "requested" "".

(** The reads before the write: [None] enters it, with the latched epoch. *)
Definition admission_reads (now : Z) (k : Key) (evidence : ContextEvidence) (probe : CycleProbe) (s : State) : option (string * string) * State :=
  match adapterVersion (Family k) with
  | Some version =>
      let enable := contextEnableOf k s in
      if negb (cycleCode version) || negb (Enabled enable) then (None, s)
      else
        let policy := sessionContextPolicy (Family k) enable s in
        match latched k evidence (Threshold policy) s with
        | Ok (latched_, s') =>
            let input := mkTrigger true true policy true (overwatchNameHeld s) evidence now latched_
                           (awaitingRead k (EnableRevision enable) (Epoch evidence) s) in
            if negb (bool_decide (SelectContextTrigger input = None)) then (None, s')
            else if negb (seqb (probe_Reason probe) "") || (hostless (Family k) && ((probe_PinBytes probe =? 0) || (cyclePinMax <? probe_PinBytes probe)))
            then (None, s')
            else (Some (version, latched_), s')
        | Err _ => (None, s)
        end
  | None => (None, s)
  end.

(** [admitContextCycle]: whether a cycle was admitted *)
Definition admitContextCycle (now : Z) (en : Engine) (k : Key) (id digest : string) (evidence : ContextEvidence) (probe : CycleProbe)
    (st : Store) : result error bool * Store :=
  let '(entered, s) := admission_reads now k evidence probe (tables st) in
  let st := st <| tables := s |> in
  match entered with
  | None => (Ok false, st)
  | Some (version, latched_) =>
      match write (mkWrite ordinary false now None (λ _, None)) en (admitTx now k id digest version evidence latched_ probe) st with
      | (Ok _, st') => (Ok true, st' <| tables := after (mark_latch k (Epoch evidence)) (tables st') |>)
      | (Err Declined, st') => (Ok false, st')
      | (Err e, st') => (Err e, st')
      end
  end.
End admission.
