(* ===== verification/CycleFixture.v ===== *)
(** * A small managed cycle

    The concrete states on which the witnesses evaluate the cycle operations: the holder of the
    small installation runs in a pane, its Enable is turned on, its context crosses the
    threshold, a handoff cycle is admitted, and the session reports ready. *)

From S2P Require Import Prelude GoString GoFloat Schema Sql Label Fixture Storage Names Messages Sessions Cycles ContextPolicy Admission.
Open Scope Z_scope.

(** The holder in a tmux pane *)
Definition paned : State :=
  small_state <| sessions := alter (λ r, r <| s_tmux_socket := "/s"%string |> <| s_tmux_pane := "%1"%string |>) holder_h (sessions small_state) |>.

Definition probe_ok : CycleProbe := mkCycleProbe "" "koinon-pickup" "" 0.
Definition crossing : ContextEvidence := mkEvidence true (Some 80) (Some 100) "epoch-1" 24 24 false true.

Definition switched_on : State := after (setContextEnableTx 20 20 probe_ok "claude-x-0c" 1 0 true) paned.
Definition admit_h : tx unit := @admitTx zero_sum 25 holder_h "c1" "d" "claude-tmux-1" crossing "" probe_ok.
Definition admitted : State := after admit_h switched_on.

Definition no_guard (c : cycleRow) (now : Z) (s : State) : option error := None.
Definition report : cycleRow → cycleRow := report_artifact "handoff.md" (mkArtifactFile 1 2 3 4).
Definition advance_ready : tx cycleRow := advanceTx 30 "c1" 1 cycleWaitingReady cycleReady "" pinnedRequester report.
Definition reported : State := after advance_ready admitted.
Definition advance_clear : tx cycleRow := advanceTx 31 "c1" 2 cycleReady cycleClearIntent "" pinnedRequester (λ c, c).
Definition clearing : State := after advance_clear reported.
Definition advance_received : tx cycleRow := advanceTx 32 "c1" 3 cycleClearIntent cycleClearReceived "" no_guard (λ c, c).
Definition advance_reset : tx cycleRow :=
  advanceTx 33 "c1" 4 cycleClearReceived cycleResetVerified "" no_guard (λ c, c <| c_SuccessorEpoch := "epoch-2"%string |>).
Definition was_reset : State := after advance_reset (after advance_received clearing).

Definition st_of (s : State) : Store := mkStore s 1000 defaultMaxPages None.

Example fixture_runs :
  (c_State <$> cycles admitted !! "c1"%string) = Some cycleWaitingReady ∧ (c_State <$> cycles reported !! "c1"%string) = Some cycleReady ∧
  (c_State <$> cycles was_reset !! "c1"%string) = Some cycleResetVerified ∧ (c_Credit <$> cycles was_reset !! "c1"%string) = Some (4411 - 4 * 280).
Proof. vm_compute. done. Qed.
