(* ===== verification/CycleProps.v ===== *)
(** * Properties of context cycles

    The invariant of the cycle tables over every operation that changes them, the page credit
    of a cycle against the store's debt, the end of a cycle and the Enable that follows it,
    admission, and the pickup report. *)

From S2P Require Import Prelude GoString GoFloat Schema Sql Label Fixture Storage Names Messages Inboxes Sessions Cycles ContextPolicy Admission CycleFixture.
Open Scope Z_scope.

(** ** What an operation writes *)

(** The event of a stage or outcome *)
Definition record_event (id : string) (ordinal : Z) (e : CycleEvent) (s : State) : State :=
  s <| cycle_events := <[(id, ordinal) := e]> (cycle_events s) |>.

Lemma cycleEvent_Ok now id c stage result reason s c' s' : cycleEvent now id c stage result reason s = Ok (c', s') →
  (cycleTerminal stage = true ∨ c_Events c < maxCycleEvents - 1) ∧ cycle_events s !! (id, c_Events c + 1) = None ∧
  c' = c <| c_Events := c_Events c + 1 |> ∧ s' = record_event id (c_Events c + 1) (mkCycleEvent now stage result reason) s.
Proof.
  unfold cycleEvent. destruct (negb (cycleTerminal stage) && _) eqn:E; [done|]. intros H. run H.
  unfold insert_cycle_event in R. cbn in R. destruct (cycle_events s !! _) eqn:El; [done|]. run R.
  split_and!; try done. destruct (cycleTerminal stage); [by left|right]. cbn in E. lia.
Qed.

(** A stage that a cycle enters *)
Definition entered (now : Z) (to reason : string) (c : cycleRow) : cycleRow :=
  c <| c_Events := c_Events c + 1 |> <| c_Revision := c_Revision c + 1 |> <| c_Credit := c_Credit c - cycleStagePages |>
    <| c_State := to |> <| c_Reason := reason |> <| c_UpdatedAt := now |>.

Lemma advanceTx_Ok now id revision from to reason guard change s c' s' :
  advanceTx now id revision from to reason guard change s = Ok (c', s') →
  ∃ c deadline, cycles s !! id = Some c ∧ c_Revision c = revision ∧ c_State c = from ∧
    now < c_StageDeadline c ∧ now < c_CycleDeadline c ∧ cycleEnabled c s = true ∧ guard c now s = None ∧
    cycleStagePages + cycleTerminalPages ≤ c_Credit c ∧ (cycleTerminal to = true ∨ c_Events c < maxCycleEvents - 1) ∧
    cycle_events s !! (id, c_Events c + 1) = None ∧
    let s1 := record_event id (c_Events c + 1) (mkCycleEvent now to "entered" reason) s in
    stage_deadline now id from to (entered now to reason c) s1 = Ok deadline ∧
    c' = change ((entered now to reason c) <| c_StageDeadline := Z.min deadline (c_CycleDeadline c) |>) ∧
    s' = s1 <| cycles := alter (update_columns c') id (cycles s) |>
            <| audit := audit s ++ [mkAuditRow now "context-cycle" ("cycle " +:+ id +:+ " peer " +:+ c_Peer c') to reason] |>.
Proof.
  unfold advanceTx, read_cycle, updateCycle, cycleAudit, insert_audit. intros H. runs H.
  apply check_Ok in R0 as [Hg [= _ <-]]. apply cycleEvent_Ok in R1 as (Hb & He & -> & ->).
  unfold lift in R2. destruct (stage_deadline _ _ _ _ _ _) as [d|] eqn:Ed; [|done]. run R2.
  apply negb_true_iff in G, G1. rewrite !orb_false_iff, !negb_false_iff, seqb_true in G.
  destruct G as [[[G3 G4] G5] G6]. eexists _, _. split; [done|]. cbv zeta. fold (entered now to reason v).
  split_and!; try done; lia.
Qed.

(** The end of a cycle: the state that its outcome becomes, and the rows it writes *)
Definition end_state (id : string) (c : cycleRow) (outcome : string) (s : State) : string :=
  if negb (seqb outcome cycleComplete) && cycleUnproven id c s then cycleUncertain else outcome.
Definition end_events (id : string) (c : cycleRow) (outcome reason : string) (s : State) : Z :=
  if readyTimeoutKeepsEnable id c (end_state id c outcome s) reason s then c_Events c + 2 else c_Events c + 1.
Definition ended (now : Z) (id : string) (c : cycleRow) (outcome reason : string) (s : State) : cycleRow :=
  c <| c_Events := end_events id c outcome reason s |> <| c_Revision := c_Revision c + 1 |> <| c_State := end_state id c outcome s |>
    <| c_Reason := reason |> <| c_Outcome := end_state id c outcome s |> <| c_UpdatedAt := now |> <| c_FinishedAt := now |> <| c_Credit := 0 |>.
Definition end_ledger (now : Z) (id : string) (c : cycleRow) (outcome reason : string) (s : State) : State :=
  let st := end_state id c outcome s in
  let s1 := record_event id (c_Events c + 1) (mkCycleEvent now st st reason) s in
  (if readyTimeoutKeepsEnable id c st reason s
   then record_event id (c_Events c + 2) (mkCycleEvent now cycleEnableKept cycleEnableKept reason) s1 else s1)
  <| cycles := alter (update_columns (ended now id c outcome reason s)) id (cycles s) |>.
(** The Enable after the end *)
Definition end_enable (now : Z) (id : string) (c : cycleRow) (outcome reason : string) (carry : tx unit) (s : State) : tx unit :=
  let st := end_state id c outcome s in
  if seqb st cycleComplete then carry
  else if compactionKeepsEnable c reason then rearm (requester c)
  else if readyTimeoutKeepsEnable id c st reason s then keepEnableTx c
  else disable now (requester c).

Lemma endCycleTx_Ok now id c outcome reason carry s c' s' : endCycleTx now id c outcome reason carry s = Ok (c', s') →
  (cycleTerminal (end_state id c outcome s) = true ∨ c_Events c < maxCycleEvents - 1) ∧
  c' = ended now id c outcome reason s ∧
  cycle_events s !! (id, c_Events c + 1) = None ∧
  ∃ s2, end_enable now id c outcome reason carry s (end_ledger now id c outcome reason s) = Ok (tt, s2) ∧
    s' = s2 <| audit := audit s2 ++ [mkAuditRow now "context-cycle" ("cycle " +:+ id +:+ " peer " +:+ c_Peer c) (end_state id c outcome s) reason] |>.
Proof.
  unfold endCycleTx, cycleAudit, insert_audit, updateCycle. intros H. run H.
  fold (end_state id c outcome s) in *. apply cycleEvent_Ok in R as (Hb & He & -> & ->).
  unfold end_ledger, end_enable, ended, end_events. set (st := end_state id c outcome s) in *.
  split; [done|]. destruct (readyTimeoutKeepsEnable id c st reason s) eqn:Ek; cbn in R0.
  - unfold insert_cycle_event in R0. cbn in R0. destruct (_ !! _) in R0; [done|]. run R0. cbn in *.
    replace (c_Events c + 1 + 1) with (c_Events c + 2) in * by lia.
    split; [done|]. split; [done|]. eexists. split; [|done].
    match goal with u : unit |- _ => destruct u end. exact R1.
  - run R0. cbn in *. split; [done|]. split; [done|]. eexists. split; [|done]. match goal with u : unit |- _ => destruct u end. exact R1.
Qed.

(** ** The invariant *)

(** The part of the state that an operation on other tables leaves *)
Definition ledger (s : State) := (cycles s, cycle_events s).

Definition events_upto (id : string) (n : Z) (s : State) : Prop := ∀ k, is_Some (cycle_events s !! (id, k)) ↔ 1 ≤ k ≤ n.

(** A running cycle has spent one event and one stage credit for each stage since its
    admission; an ended one holds no credit. *)
Record running (c : cycleRow) : Prop := {
  run_events : 1 ≤ c_Events c ≤ maxCycleEvents - 1;
  run_credit : c_Credit c = (maxCycleEvents - 1 - c_Events c) * cycleStagePages + cycleTerminalPages;
  run_revision : c_Revision c = c_Events c;
  run_open : c_FinishedAt c = 0 ∧ c_Outcome c = ""%string;
  run_deadline : c_StageDeadline c ≤ c_CycleDeadline c }.
Record over (c : cycleRow) : Prop := {
  over_events : 2 ≤ c_Events c ≤ maxCycleEvents + 1;
  over_revision : 2 ≤ c_Revision c ≤ maxCycleEvents;
  over_credit : c_Credit c = 0;
  over_outcome : c_Outcome c = c_State c }.
Definition cycle_wf (id : string) (c : cycleRow) (s : State) : Prop :=
  events_upto id (c_Events c) s ∧ if unfinished c then running c else over c.

(** Two unfinished cycles share no session and no host. *)
Definition apart (c1 c2 : cycleRow) : Prop :=
  requester c1 ≠ requester c2 ∧ ((0 < c_HostStart c1) → c_HostPID c1 = c_HostPID c2 → c_HostStart c1 ≠ c_HostStart c2).

Record cycles_inv (s : State) : Prop := {
  inv_cycles : ∀ id c, cycles s !! id = Some c → cycle_wf id c s;
  inv_events : ∀ id n, is_Some (cycle_events s !! (id, n)) → is_Some (cycles s !! id);
  inv_apart : ∀ id1 id2 c1 c2, cycles s !! id1 = Some c1 → cycles s !! id2 = Some c2 → id1 ≠ id2 →
    unfinished c1 = true → unfinished c2 = true → apart c1 c2;
  inv_count : count_where (λ _ c, unfinished c) (cycles s) ≤ maxActiveCycles }.

Lemma inv_of_ledger s s' : ledger s' = ledger s → cycles_inv s → cycles_inv s'.
Proof.
  unfold ledger. intros [= Hc He] [H1 H2 H3 H4]. split; unfold cycle_wf, events_upto in *; rewrite ?Hc, ?He; auto.
Qed.
Lemma inv_keeps {A} (m : tx A) : Keeps ledger m → Maintains cycles_inv m.
Proof. apply maintains_keeps. apply inv_of_ledger. Qed.

(** What identifies a cycle's requester and host never changes. *)
Definition same_owner (c c' : cycleRow) : Prop :=
  requester c' = requester c ∧ c_HostPID c' = c_HostPID c ∧ c_HostStart c' = c_HostStart c.
Lemma update_columns_owner c r : same_owner r (update_columns c r).
Proof. done. Qed.

Lemma count_where_alter {K V} `{Countable K} (P : K → V → bool) (f : V → V) k (m : gmap K V) :
  (∀ v, m !! k = Some v → P k (f v) = true → P k v = true) → count_where P (alter f k m) ≤ count_where P m.
Proof.
  intros Hf. unfold count_where. apply inj_le.
  transitivity (length ((λ kv : K * V, (kv.1, if decide (kv.1 = k) then f kv.2 else kv.2)) <$> select P m)); [|by rewrite length_fmap].
  apply submseteq_length, NoDup_submseteq.
  - apply NoDup_select.
  - intros [k' v'] [Hl HP]%elem_of_select. apply list_elem_of_fmap.
    destruct (decide (k' = k)) as [->|Hne].
    + rewrite lookup_alter_eq in Hl. apply fmap_Some in Hl as (v & Hl & ->). exists (k, v). cbn.
      rewrite decide_True by done. split; [done|]. apply elem_of_select. eauto.
    + rewrite lookup_alter_ne in Hl by done. exists (k', v'). cbn. rewrite decide_False by done. split; [done|].
      by apply elem_of_select.
Qed.

Lemma events_upto_record id n e s : 0 ≤ n → events_upto id n s → events_upto id (n + 1) (record_event id (n + 1) e s).
Proof.
  intros Hn Hu k. cbn. destruct (decide (k = n + 1)) as [->|Hk].
  - rewrite lookup_insert. rewrite decide_True by done. split; [lia|eauto].
  - rewrite lookup_insert_ne by congruence. specialize (Hu k). rewrite Hu. lia.
Qed.
Lemma events_upto_eq id n s s' : (∀ k, cycle_events s' !! (id, k) = cycle_events s !! (id, k)) → events_upto id n s → events_upto id n s'.
Proof. intros He Hu k. rewrite He. apply Hu. Qed.

(** A write of one unfinished cycle: its row, and events of its own *)
Lemma inv_write id c c' s s' :
  cycles_inv s → cycles s !! id = Some c → unfinished c = true →
  cycles s' = alter (update_columns c') id (cycles s) →
  (∀ id' n, id' ≠ id → cycle_events s' !! (id', n) = cycle_events s !! (id', n)) →
  cycle_wf id (update_columns c' c) s' → cycles_inv s'.
Proof.
  intros [H1 H2 H3 H4] Hl Hu Hc He Hwf.
  assert (∀ i r, cycles s' !! i = Some r → (i = id ∧ r = update_columns c' c) ∨ (i ≠ id ∧ cycles s !! i = Some r)) as Hrow.
  { intros i r. rewrite Hc. destruct (decide (i = id)) as [->|Hne].
    - rewrite lookup_alter_eq, Hl. intros [= <-]. by left.
    - rewrite lookup_alter_ne by done. by right. }
  assert (∀ i r, cycles s' !! i = Some r → ∃ r0, cycles s !! i = Some r0 ∧ same_owner r0 r ∧ (unfinished r = true → unfinished r0 = true)) as Hold.
  { intros i r [[-> ->]|[_ Hr]]%Hrow; eexists; (split; [done|]); [|done]. split; [|done]. apply update_columns_owner. }
  split.
  - intros i r [[-> ->]|[Hne Hr]]%Hrow; [done|]. destruct (H1 _ _ Hr) as [Hev Hs]. split; [|done].
    eapply events_upto_eq; [|done]. intros. by apply He.
  - intros i n. destruct (decide (i = id)) as [->|Hne].
    + intros _. rewrite Hc, lookup_alter_eq, Hl. eauto.
    + rewrite He by done. intros Hi%H2. by rewrite Hc, lookup_alter_ne.
  - intros i1 i2 r1 r2 (q1 & Q1 & (A1 & B1 & D1) & U1)%Hold (q2 & Q2 & (A2 & B2 & D2) & U2)%Hold Hne V1 V2.
    destruct (H3 _ _ _ _ Q1 Q2 Hne (U1 V1) (U2 V2)) as [Hk Hh]. unfold apart. by rewrite A1, A2, B1, B2, D1, D2.
  - rewrite Hc. etrans; [|exact H4]. apply count_where_alter. intros r. rewrite Hl. intros [= <-] _. done.
Qed.

Lemma end_state_terminal id c outcome s : cycleTerminal outcome = true → cycleTerminal (end_state id c outcome s) = true.
Proof. intros Ho. unfold end_state. by destruct (_ && _). Qed.

(** Every end keeps the invariant, whatever the caller carries to the Enable. *)
Lemma endCycleTx_inv now id c r outcome reason carry s c' s' :
  cycles_inv s → cycles s !! id = Some r → unfinished r = true → c_Events c = c_Events r → c_Revision c = c_Revision r → cycleTerminal outcome = true →
  Keeps ledger carry → endCycleTx now id c outcome reason carry s = Ok (c', s') →
  cycles_inv s' ∧ cycles s' = alter (update_columns c') id (cycles s) ∧ c' = ended now id c outcome reason s.
Proof.
  intros Hinv Hr Hu Hev Hrv Ho Hk (_ & -> & He & s2 & Hs2 & ->)%endCycleTx_Ok.
  assert (ledger s2 = ledger (end_ledger now id c outcome reason s)) as [= Hc2 He2].
  { refine (keeps_run _ _ _ Hs2). unfold end_enable, rearm, keepEnableTx, disable. keeps. }
  assert (cycles s2 = alter (update_columns (ended now id c outcome reason s)) id (cycles s)) as Hc.
  { rewrite Hc2. unfold end_ledger. cbn. by destruct (readyTimeoutKeepsEnable _ _ _ _ _). }
  split; [|done]. destruct (inv_cycles _ Hinv _ _ Hr) as [Hupto Hrun]. rewrite Hu in Hrun. destruct Hrun as [H1 H2 H3 H4 H5].
  assert (unfinished (update_columns (ended now id c outcome reason s) r) = false) as Hover.
  { unfold unfinished. change (negb (cycleTerminal (end_state id c outcome s)) = false). by rewrite end_state_terminal. }
  eapply inv_write; [done|done|done|exact Hc| |].
  - intros id' n Hne. cbn. rewrite He2. unfold end_ledger. cbn.
    destruct (readyTimeoutKeepsEnable _ _ _ _ _); cbn; rewrite ?lookup_insert_ne by congruence; done.
  - unfold cycle_wf. rewrite Hover. split.
    + eapply (events_upto_eq _ _ (end_ledger now id c outcome reason s)); [intros; cbn; by rewrite He2|].
      unfold end_ledger. cbn. unfold end_events. rewrite Hev in *. destruct (readyTimeoutKeepsEnable _ _ _ _ _).
      * replace (c_Events r + 2) with (c_Events r + 1 + 1) by lia.
        eapply (events_upto_eq _ _ (record_event _ _ _ (record_event _ _ _ s))); [intros; reflexivity|].
        apply events_upto_record; [lia|]. apply events_upto_record; [lia|done].
      * eapply (events_upto_eq _ _ (record_event _ _ _ s)); [intros; reflexivity|]. apply events_upto_record; [lia|done].
    + unfold maxCycleEvents in *.
      split; cbn; unfold end_events, maxCycleEvents; [destruct (readyTimeoutKeepsEnable _ _ _ _ _); lia|rewrite Hrv; lia|done|done].
Qed.

(** What a caller records in a row when it advances a cycle leaves the counters to the advance. *)
Definition counters (c : cycleRow) :=
  (c_State c, c_Events c, c_Credit c, c_Revision c, c_FinishedAt c, c_Outcome c, c_StageDeadline c).
Definition records (change : cycleRow → cycleRow) : Prop := ∀ c, counters (change c) = counters c.

Lemma advanceTx_inv now id revision from to reason guard change s c' s' :
  cycles_inv s → records change → cycleTerminal to = false → cycleTerminal from = false →
  advanceTx now id revision from to reason guard change s = Ok (c', s') → cycles_inv s'.
Proof.
  intros Hinv Hch Hto Hfrom (c & d & Hl & Hrev & Hst & _ & _ & _ & _ & Hcr & Hlt & _ & _ & Hc' & Hs')%advanceTx_Ok.
  pose proof (Hch ((entered now to reason c) <| c_StageDeadline := Z.min d (c_CycleDeadline c) |>)) as Hcnt. rewrite <-Hc' in Hcnt.
  cbn in Hcnt. unfold counters in Hcnt. injection Hcnt as E1 E2 E3 E4 E5 E6 E7.
  assert (unfinished c = true) as Hu by (unfold unfinished; by rewrite Hst, Hfrom).
  destruct (inv_cycles _ Hinv _ _ Hl) as [Hupto Hrun]. rewrite Hu in Hrun. destruct Hrun as [H1 H2 H3 [H4 H5] H6].
  destruct Hlt as [Hlt|Hlt]; [congruence|].
  eapply inv_write; [done|done|done|by rewrite Hs'| |].
  - intros id' n Hne. rewrite Hs'. cbn. by rewrite lookup_insert_ne by congruence.
  - assert (unfinished (update_columns c' c) = true) as Hu'.
    { unfold unfinished. change (negb (cycleTerminal (c_State c')) = true). by rewrite E1, Hto. }
    unfold cycle_wf. rewrite Hu'. split.
    + cbn. rewrite E2. eapply events_upto_eq; [|apply events_upto_record; [|exact Hupto]; lia]. intros. by rewrite Hs'.
    + unfold cycleStagePages, maxCycleEvents, cycleTerminalPages in *.
      split; unfold cycleStagePages, maxCycleEvents, cycleTerminalPages; cbn; rewrite ?E2, ?E3, ?E4, ?E5, ?E6, ?E7; [lia|lia|lia|done|lia].
Qed.

Lemma endTx_inv now id revision outcome reason s c' s' : cycles_inv s → cycleTerminal outcome = true →
  endTx now id revision outcome reason s = Ok (c', s') → cycles_inv s'.
Proof.
  intros Hinv Ho H. unfold endTx, read_cycle in H. runs H. apply negb_true_iff, orb_false_iff in G as [G _].
  assert (unfinished v = true) as Hu by (unfold unfinished; by rewrite G).
  apply (endCycleTx_inv _ _ _ v) in H as (? & _); [done..|apply keeps_ret].
Qed.

(** Fencing ends each selected cycle once: an end leaves the rows of the others. *)
Lemma each_endCycleTx_inv now reason (l : list (string * cycleRow)) s u s' :
  cycles_inv s → NoDup l.*1 → (∀ id c, (id, c) ∈ l → cycles s !! id = Some c ∧ unfinished c = true) →
  each l (λ idc, _ ← endCycleTx now idc.1 idc.2 cycleCancelled reason (mret tt); mret tt) s = Ok (u, s') → cycles_inv s'.
Proof.
  revert s. induction l as [|[id c] l IH]; intros s Hinv Hnd Hl H; cbn in H; [by run H|]. runs H.
  inversion_clear Hnd as [|? ? Hni Hnd'].
  destruct (Hl id c (list_elem_of_here _ _)) as [Hc Hu].
  apply (endCycleTx_inv _ _ _ c) in R0 as (Hinv' & Hcs & _); [|done..|apply keeps_ret].
  eapply IH; [exact Hinv'|done| |exact H]. intros i r Hin. destruct (Hl i r (list_elem_of_further _ _ _ Hin)) as [Hr Hur].
  split; [|done]. rewrite Hcs, lookup_alter_ne; [done|]. intros ->. apply Hni, list_elem_of_fmap. by exists (i, r).
Qed.

Lemma fenceCyclesTx_inv now reason where_ : Maintains cycles_inv (fenceCyclesTx now reason where_).
Proof.
  intros s u s' Hinv H. unfold fenceCyclesTx in H. runs H. eapply each_endCycleTx_inv; [done| | |exact H].
  - apply NoDup_fmap_fst; [|apply NoDup_select]. intros i c1 c2 [H1 _]%elem_of_select [H2 _]%elem_of_select. congruence.
  - intros id c [Hl HP]%elem_of_select. apply andb_true_iff in HP as [HP _]. done.
Qed.

(** A change of columns that no clause of the invariant reads *)
Lemma inv_cosmetic id (f : cycleRow → cycleRow) s s' :
  cycles_inv s → (∀ c, counters (f c) = counters c ∧ c_CycleDeadline (f c) = c_CycleDeadline c ∧ same_owner c (f c)) →
  cycles s' = alter f id (cycles s) → cycle_events s' = cycle_events s → cycles_inv s'.
Proof.
  intros [H1 H2 H3 H4] Hf Hc He.
  assert (∀ c, unfinished (f c) = unfinished c) as Hu.
  { intros c. destruct (Hf c) as [[= E _] _]. unfold unfinished. by rewrite E. }
  assert (∀ i r, cycles s' !! i = Some r → ∃ r0, cycles s !! i = Some r0 ∧ (r = r0 ∨ r = f r0)) as Hold.
  { intros i r. rewrite Hc, lookup_alter. case_decide as E; [subst i|eauto].
    intros (r0 & Hr & ->)%fmap_Some. eauto. }
  split.
  - intros i r (r0 & Hr & Hor)%Hold. destruct (H1 _ _ Hr) as [Hev Hs]. unfold cycle_wf.
    rewrite <-He in *. destruct Hor as [->| ->].
    + split; [|done]. intros k. specialize (Hev k). by rewrite He.
    + destruct (Hf r0) as [Hcnt [Hd _]]. rewrite Hu. unfold counters in Hcnt. injection Hcnt as E1 E2 E3 E4 E5 E6 E7. split.
      * rewrite E2. intros k. specialize (Hev k). by rewrite He.
      * destruct (unfinished r0); destruct Hs; split; rewrite ?E1, ?E2, ?E3, ?E4, ?E5, ?E6, ?E7, ?Hd; done.
  - intros i n. rewrite He, Hc. intros Hi%H2. by apply lookup_alter_is_Some.
  - intros i1 i2 r1 r2 (q1 & Q1 & O1)%Hold (q2 & Q2 & O2)%Hold Hne V1 V2.
    assert (same_owner q1 r1 ∧ unfinished q1 = true) as [(A1 & B1 & D1) U1].
    { destruct O1 as [->| ->]; [done|]. destruct (Hf q1) as (_ & _ & ?). by rewrite <-Hu. }
    assert (same_owner q2 r2 ∧ unfinished q2 = true) as [(A2 & B2 & D2) U2].
    { destruct O2 as [->| ->]; [done|]. destruct (Hf q2) as (_ & _ & ?). by rewrite <-Hu. }
    destruct (H3 _ _ _ _ Q1 Q2 Hne U1 U2) as [Hk Hh]. unfold apart. by rewrite A1, A2, B1, B2, D1, D2.
  - rewrite Hc. etrans; [|exact H4]. apply count_where_alter. intros r _. by rewrite Hu.
Qed.

Lemma next_seq_Ok k s seq role s' : next_seq k s = Ok ((seq, role), s') →
  ∃ r, sessions s !! k = Some r ∧ seq = s_last_seq r + 1 ∧ role = s_role r ∧
    s' = s <| sessions := <[k := r <| s_last_seq := s_last_seq r + 1 |> ]> (sessions s) |>.
Proof. unfold next_seq. destruct (sessions s !! k) as [r|]; [|done]. intros [= <- <- <-]. eauto. Qed.
Lemma keeps_next_seq {B} (f : State → B) k : (∀ s g, f (upd sessions g s) = f s) → Keeps f (next_seq k).
Proof. intros Hf s [seq role] s' (r & _ & _ & _ & ->)%next_seq_Ok. apply Hf. Qed.

Lemma alter_twice {K V} `{Countable K} (f g : V → V) k (m : gmap K V) : alter f k (alter g k m) = alter (λ v, f (g v)) k m.
Proof.
  apply map_eq. intros i. destruct (decide (i = k)) as [->|Hne].
  - rewrite !lookup_alter_eq. by destruct (m !! k).
  - by rewrite !lookup_alter_ne.
Qed.

Definition repeated (now : Z) (seen : string) (c : cycleRow) : cycleRow :=
  (entered now cycleWaitingReady ("not_idle." +:+ seen) c) <| c_StageDeadline := Z.min (now + cycleReadyWait) (c_CycleDeadline c) |>
    <| c_Artifact := ""%string |> <| c_ArtifactDev := 0 |> <| c_ArtifactIno := 0 |> <| c_ArtifactSize := 0 |> <| c_ArtifactMtime := 0 |>.
Lemma repeatTx_Ok now id revision seen s u s' : repeatTx now id revision seen s = Ok (u, s') →
  ∃ c seq, cycles s !! id = Some c ∧ c_Revision c = revision ∧ c_State c = cycleReady ∧ now < c_CycleDeadline c ∧
    cycleEnabled c s = true ∧ requesterPinned now c s = true ∧ cycleStagePages + cycleTerminalPages ≤ c_Credit c ∧
    c_Events c < maxCycleEvents - 1 ∧
    cycle_events s' = cycle_events (record_event id (c_Events c + 1) (mkCycleEvent now cycleWaitingReady "entered" ("not_idle." +:+ seen)) s) ∧
    cycles s' = alter (λ r, (update_columns (repeated now seen c) r) <| c_MessageSeq := seq |>) id (cycles s).
Proof.
  unfold repeatTx, read_cycle, updateCycle, cycleAudit, insert_audit. intros H. runs H. destruct a1 as [seq role]. runs H.
  apply next_seq_Ok in R1 as (r & Hr & -> & -> & ->).
  match goal with E : insert_message _ _ = _ |- _ => apply insert_message_Ok in E as (-> & -> & _) end.
  apply negb_true_iff in G, G2. rewrite !orb_false_iff, !negb_false_iff, seqb_true in G. destruct G as [[G3 G4] G5].
  apply cycleEvent_Ok in R0 as (Hb & He & -> & ->). destruct Hb as [Hb|Hb]; [done|].
  eexists _, _. split; [done|]. split_and!; try done; try lia.
  cbn. by rewrite alter_twice.
Qed.

Lemma repeatTx_inv now id revision seen : Maintains cycles_inv (repeatTx now id revision seen).
Proof.
  intros s u s' Hinv (c & seq & Hl & Hrev & Hst & _ & _ & _ & Hcr & Hlt & He & Hc)%repeatTx_Ok.
  assert (unfinished c = true) as Hu by (unfold unfinished; by rewrite Hst).
  destruct (inv_cycles _ Hinv _ _ Hl) as [Hupto Hrun]. rewrite Hu in Hrun. destruct Hrun as [H1 H2 H3 [H4 H5] H6].
  set (s1 := s <| cycle_events := cycle_events s' |> <| cycles := alter (update_columns (repeated now seen c)) id (cycles s) |>).
  assert (cycles_inv s1) as Hs1.
  { eapply (inv_write id c (repeated now seen c) s); [done..| |].
    - intros id' n Hne. cbn. rewrite He. cbn. by rewrite lookup_insert_ne by congruence.
    - split; [|split; unfold cycleStagePages, maxCycleEvents, cycleTerminalPages in *; cbn; unfold cycleStagePages; try done; lia].
      eapply events_upto_eq; [|apply events_upto_record; [|exact Hupto]; lia]. intros. cbn. by rewrite He. }
  eapply (inv_cosmetic id (λ r, r <| c_MessageSeq := seq |>) s1); [done..| |done].
  cbn. by rewrite alter_twice.
Qed.

Lemma writeRefusalSlotTx_inv id revision code_ : Maintains cycles_inv (writeRefusalSlotTx id revision code_).
Proof.
  intros s u s' Hinv H. unfold writeRefusalSlotTx in H. run H.
  eapply (inv_cosmetic id); [done| |reflexivity|done]. intros c. cbn beta. by destruct (_ && _).
Qed.

Lemma accepts_unfinished c : acceptsPickupReport c = true → unfinished c = true.
Proof.
  intros G. destruct (unfinished c) eqn:E; [done|]. unfold unfinished in E. apply negb_false_iff in E.
  exfalso. revert E G. unfold cycleTerminal, acceptsPickupReport, awaitingPickup, in_prompt, one_of. cbn [existsb].
  unfold seqb. rewrite !orb_true_iff, !andb_true_iff, ?orb_true_iff, !bool_decide_eq_true.
  intros [-> | [-> | [-> | [-> | ?]]]]; naive_solver.
Qed.

Lemma pickupTx_inv `{SHA : Sha256} now now_end caller role epoch artifact outcome report id c s c' s' :
  cycles_inv s → pickupTx now now_end caller role epoch artifact outcome report id c s = Ok (c', s') → cycles_inv s'.
Proof.
  intros Hinv H. unfold pickupTx, read_cycle in H. runs H.
  apply negb_true_iff in G0. rewrite !orb_false_iff, !negb_false_iff in G0. destruct G0 as [[[[[G0 _] _] _] _] _].
  pose proof (accepts_unfinished _ G0).
  apply (endCycleTx_inv _ _ _ v) in H as (? & _); [done..|]. unfold carryEnable, disable. keeps.
Qed.

(** ** Admission *)

Section admission.
Context `{SHA : Sha256}.

Lemma keeps_protect {B} (f : State → B) now id c repository :
  (∀ s g, f (upd claim_bundles g s) = f s) → Keeps f (protectCycleClaims now id c repository).
Proof.
  intros Hf. unfold protectCycleClaims. destruct (seqb repository ""); [apply keeps_ret|].
  apply keeps_bind; [apply keeps_gets|]. intros store. destruct (seqb store ""); [apply keeps_ret|].
  apply keeps_modify. intros s. apply (Hf s).
Qed.

Lemma insertCycle_Ok id c s u s' : insertCycle id c s = Ok (u, s') →
  cycles s !! id = None ∧ s' = s <| cycles := <[id := c <| c_ReadyRefusal := refusalSlot 0 "" |> ]> (cycles s) |>.
Proof. unfold insertCycle. destruct (cycles s !! id); [done|]. by intros [= <- <-]. Qed.

(** The two ways of an admission write the same row but for its state, its message and its catalog. *)
Lemma admit_row now id c session s c1 s1 (compact : bool) :
  (if compact then admit_compaction id c else admit_handoff now id c session) s = Ok (c1, s1) →
  cycles s !! id = None ∧ cycles s1 = <[id := c1 <| c_ReadyRefusal := refusalSlot 0 "" |> ]> (cycles s) ∧
  cycle_events s1 = cycle_events s ∧
  (if compact then c1 = c <| c_State := cycleCompactWaiting |> <| c_CatalogDigest := ""%string |>
   else ∃ r, sessions s !! requester c = Some r ∧ c1 = c <| c_MessageSeq := s_last_seq r + 1 |>).
Proof.
  destruct compact.
  - unfold admit_compaction. intros H. run H. apply insertCycle_Ok in R as [Hn ->]. done.
  - unfold admit_handoff. intros H. run H. destruct a as [seq role]. runs H.
    apply next_seq_Ok in R as (r & Hr & -> & -> & ->).
    repeat match goal with
    | E : insert_message _ _ = _ |- _ => apply insert_message_Ok in E as (-> & -> & _)
    | E : insertCycle _ _ _ = _ |- _ => apply insertCycle_Ok in E as [Hn ->]
    end.
    match goal with E : protectCycleClaims _ _ _ _ _ = Ok (_, ?s) |- _ =>
      pose proof (keeps_run (Keeps := keeps_protect ledger now id _ (ss_Repository session) (λ s g, eq_refl)) _ _ _ E) as Hk end.
    injection Hk as Hk1 Hk2. rewrite Hk1, Hk2. cbn. split_and!; eauto.
Qed.

(** What an admission found and wrote *)
Lemma admitTx_Ok now k id digest version evidence latched_ probe s u s' :
  admitTx now k id digest version evidence latched_ probe s = Ok (u, s') →
  ∃ session h e c, scanSession now k s = Some session ∧ hosted k s = Some h ∧ enables s !! k = Some e ∧
    let enable := contextEnableOf k s in
    let policy := sessionContextPolicy (Family k) enable s in
    let base := new_cycle now k session h enable policy evidence version digest in
    SelectContextTrigger (mkTrigger (bool_decide (ss_State session = Active)) (Enabled enable) policy true (overwatchNameHeld s) evidence now
      latched_ (awaitingRead k (EnableRevision enable) (Epoch evidence) s)) = None ∧
    pinned_host e h && (hostless (Family k) || launched_host h) = true ∧
    exists_where (occupied k h) (cycles s) = false ∧
    count_where (λ _ c, unfinished c) (cycles s) < maxActiveCycles ∧
    cycles s !! id = None ∧ cycle_events s !! (id, 1) = None ∧
    cycle_events s' = <[(id, 1) := mkCycleEvent now cycleRequested "admitted" ""]> (cycle_events s) ∧
    cycles s' = <[id := c]> (cycles s) ∧
    if seqb (Mode policy) ContextNativeCompaction then
      c = base <| c_State := cycleCompactWaiting |> <| c_CatalogDigest := ""%string |> <| c_ReadyRefusal := refusalSlot 0 "" |>
            <| c_Events := 1 |> <| c_AdapterPin := probe_Pin probe |>
    else ∃ r, sessions s !! k = Some r ∧
      c = base <| c_MessageSeq := s_last_seq r + 1 |> <| c_ReadyRefusal := refusalSlot 0 "" |>
            <| c_Events := 1 |> <| c_AdapterPin := probe_Pin probe |>.
Proof.
  unfold admitTx, cycleAudit, insert_audit. intros H. runs H.
  match goal with E : cycleEvent _ _ _ _ _ _ _ = _ |- _ => apply cycleEvent_Ok in E as (_ & He & -> & ->) end.
  match goal with E : (if _ then _ else _) _ = Ok _ |- _ => apply admit_row in E as (Hn & Hc & Hev & Hrow) end.
  destruct v1 as [[[pid start] socket] pane], k as [f i].
  assert (c_Events a = 0) as H0 by (destruct (seqb _ _) in Hrow; [by subst|]; by destruct Hrow as (r & _ & ->)).
  rewrite H0, Hev in *. eexists _, _, _, _. split; [done|]. split; [done|]. split; [done|]. cbv zeta.
  split; [by apply bool_decide_eq_true in G|]. split; [done|]. apply negb_true_iff in G1, G2.
  split; [done|]. split; [lia|]. split; [done|]. split; [done|]. cbn. rewrite Hev, Hc, alter_insert_eq.
  split; [done|]. split; [done|]. destruct (seqb _ _) in Hrow |- *.
  - by rewrite Hrow.
  - destruct Hrow as (r & Hr & ->). exists r. done.
Qed.

Lemma admitTx_inv now k id digest version evidence latched_ probe : Maintains cycles_inv (admitTx now k id digest version evidence latched_ probe).
Proof.
  intros s u s' [H1 H2 H3 H4] (session & h & e & c & _ & _ & _ & H)%admitTx_Ok. cbv zeta in H.
  destruct H as (_ & _ & Hocc & Hcnt & Hn & Hne & He & Hc & Hrow). destruct h as [[[pid start] socket] pane], k as [f i].
  assert (running c ∧ requester c = mkKey f i ∧ c_HostPID c = pid ∧ c_HostStart c = start ∧ c_Events c = 1 ∧ unfinished c = true) as (Hrun & Hk & Hp & Hs & Hev & Hu).
  { destruct (seqb _ _) in Hrow; [subst c|destruct Hrow as (r & _ & ->)]; (split; [split; try (vm_compute; lia)|]); try done;
      cbn; unfold cycleReadyWait, cycleLifetime, minute; lia. }
  assert (∀ n, cycle_events s !! (id, n) = None) as Hnone.
  { intros n. destruct (cycle_events s !! (id, n)) eqn:E; [|done].
    destruct (H2 id n) as [x Hx]; [by rewrite E|]. congruence. }
  split.
  - intros j r. rewrite Hc. destruct (decide (j = id)) as [->|Hj].
    + rewrite lookup_insert_eq. intros [= <-]. unfold cycle_wf. rewrite Hu. split; [|done]. rewrite Hev. intros n. rewrite He.
      destruct (decide (n = 1)) as [->|Hn1]; [rewrite lookup_insert_eq; split; [lia|eauto]|].
      rewrite lookup_insert_ne, Hnone by congruence. split; [by intros []|lia].
    + rewrite lookup_insert_ne by done. intros Hr. destruct (H1 _ _ Hr) as [Hup Hst]. split; [|done]. intros n. rewrite He.
      rewrite lookup_insert_ne by congruence. apply Hup.
  - intros j n. rewrite He, Hc. destruct (decide (j = id)) as [->|Hj]; [rewrite lookup_insert_eq; eauto|].
    rewrite !lookup_insert_ne by congruence. apply H2.
  - assert (∀ j r, cycles s !! j = Some r → unfinished r = true → apart c r ∧ apart r c) as Hfree.
    { intros j r Hr Hur. pose proof (proj1 (exists_where_false _ _) Hocc j r Hr) as Ho. unfold occupied in Ho. rewrite Hur in Ho. cbn in Ho.
      apply orb_false_iff in Ho as [Ho1 Ho2]. apply keqb_false in Ho1. unfold apart. rewrite Hk, Hp, Hs.
      assert (0 < start → c_HostPID r = pid → c_HostStart r ≠ start) as Hh.
      { intros Hpos E1 E2. revert Ho2. rewrite E1, E2, !Z.eqb_refl. destruct (Z.ltb_spec 0 start); [done|lia]. }
      split; (split; [congruence|]); [intros Hpos E1 E2; by apply Hh|]. intros Hpos E1 E2. apply Hh; congruence. }
    intros j1 j2 r1 r2. rewrite Hc. destruct (decide (j1 = id)) as [->|N1], (decide (j2 = id)) as [->|N2];
      rewrite ?lookup_insert_eq, ?lookup_insert_ne by done.
    + done.
    + intros [= <-] Hr _ _ U2. by apply (Hfree _ _ Hr).
    + intros Hr [= <-] _ U1 _. by apply (Hfree _ _ Hr).
    + apply H3.
  - rewrite Hc. unfold count_where, select in *. rewrite map_to_list_insert by done. cbn [filter]. rewrite filter_cons.
    case_decide; cbn [length]; lia.
Qed.
End admission.

(** ** Retention and the other writes *)

(** Only finished cycles are trimmed. *)
Lemma trimmed_spec now s id : id ∈ trimmed now s → ∃ c, cycles s !! id = Some c ∧ 0 < c_FinishedAt c.
Proof.
  unfold trimmed. intros ([i c] & -> & [Hl HP]%elem_of_select)%list_elem_of_fmap. exists c. split; [done|].
  apply andb_true_iff in HP as [HP _]. unfold finished_cycle in HP. lia.
Qed.

Lemma trimTx_inv now : Maintains cycles_inv (trimTx now).
Proof.
  intros s u s' [H1 H2 H3 H4] H. unfold trimTx in H. run H. set (sel := trimmed now s).
  assert (∀ j r, filter (λ kc : string * cycleRow, one_of kc.1 sel = false) (cycles s) !! j = Some r →
    cycles s !! j = Some r ∧ one_of j sel = false) as Hrow by (intros j r [? ?]%map_lookup_filter_Some; done).
  split; cbn.
  - intros j r [Hr Hj]%Hrow. destruct (H1 _ _ Hr) as [Hup Hst]. split; [|done]. intros n. rewrite <-(Hup n). cbn.
    rewrite map_lookup_filter. destruct (cycle_events s !! (j, n)); cbn; [|done]. rewrite option_guard_True by done. done.
  - intros j n [e [He Hj]%map_lookup_filter_Some]. destruct (H2 j n) as [r Hr]; [eauto|].
    exists r. apply map_lookup_filter_Some. done.
  - intros j1 j2 r1 r2 [Hr1 _]%Hrow [Hr2 _]%Hrow. by apply H3.
  - etrans; [|exact H4]. unfold count_where. apply inj_le, submseteq_length, NoDup_submseteq; [apply NoDup_select|].
    intros [j r] [[Hr _]%Hrow Hu]%elem_of_select. by apply elem_of_select.
Qed.

Lemma recordRefusalTx_inv now id revision code_ message : Maintains cycles_inv (recordRefusalTx now id revision code_ message).
Proof. apply inv_keeps. unfold recordRefusalTx, read_cycle. keeps. Qed.

Lemma inv_modify_keeps (g : State → State) : (∀ s, ledger (g s) = ledger s) → Maintains cycles_inv (modify g).
Proof. intros Hg. apply inv_keeps, keeps_modify. exact Hg. Qed.

Lemma noteCycleInboxReadTx_inv k : Maintains cycles_inv (noteCycleInboxReadTx k).
Proof. apply inv_keeps. unfold noteCycleInboxReadTx, rearm. keeps. Qed.

Create HintDb cycles.
#[export] Hint Resolve fenceCyclesTx_inv : cycles.
Ltac inv_tac :=
  repeat first [ solve [eauto 2 with cycles] | solve [apply inv_keeps; unfold setAuditTarget, set_setting, rearm; keeps] | maintains_step ].

Lemma setContextPolicyTx_inv now now_end family mode threshold : Maintains cycles_inv (setContextPolicyTx now now_end family mode threshold).
Proof. unfold setContextPolicyTx. inv_tac. Qed.
Lemma setContextEnableTx_inv now now_end probe peer srev irev enabled :
  Maintains cycles_inv (setContextEnableTx now now_end probe peer srev irev enabled).
Proof. unfold setContextEnableTx. inv_tac. Qed.
Lemma setContextThresholdTx_inv now peer threshold : Maintains cycles_inv (setContextThresholdTx now peer threshold).
Proof. unfold setContextThresholdTx. inv_tac. Qed.

(** ** Every transaction on the cycle tables *)

Section steps.
Context `{SHA : Sha256}.

(** One committed transaction: an operation on cycles, or any other one, which leaves their
    tables alone. *)
Inductive cycle_step (s s' : State) : Prop :=
| step_admit now k id digest version evidence latched_ probe u :
    admitTx now k id digest version evidence latched_ probe s = Ok (u, s') → cycle_step s s'
| step_advance now id revision from to reason guard change c :
    records change → cycleTerminal from = false → cycleTerminal to = false →
    advanceTx now id revision from to reason guard change s = Ok (c, s') → cycle_step s s'
| step_repeat now id revision seen u : repeatTx now id revision seen s = Ok (u, s') → cycle_step s s'
| step_end now id revision outcome reason c :
    cycleTerminal outcome = true → endTx now id revision outcome reason s = Ok (c, s') → cycle_step s s'
| step_fence now reason where_ u : fenceCyclesTx now reason where_ s = Ok (u, s') → cycle_step s s'
| step_pickup now now_end caller role epoch artifact outcome report id c c' :
    pickupTx now now_end caller role epoch artifact outcome report id c s = Ok (c', s') → cycle_step s s'
| step_refusal_slot id revision code_ u : writeRefusalSlotTx id revision code_ s = Ok (u, s') → cycle_step s s'
| step_refusal now id revision code_ message u : recordRefusalTx now id revision code_ message s = Ok (u, s') → cycle_step s s'
| step_policy now now_end family mode threshold u : setContextPolicyTx now now_end family mode threshold s = Ok (u, s') → cycle_step s s'
| step_enable now now_end probe peer srev irev enabled e :
    setContextEnableTx now now_end probe peer srev irev enabled s = Ok (e, s') → cycle_step s s'
| step_threshold now peer threshold e : setContextThresholdTx now peer threshold s = Ok (e, s') → cycle_step s s'
| step_inbox_read k u : noteCycleInboxReadTx k s = Ok (u, s') → cycle_step s s'
| step_trim now u : trimTx now s = Ok (u, s') → cycle_step s s'
| step_other {A} (m : tx A) a : Keeps ledger m → m s = Ok (a, s') → cycle_step s s'.

Lemma cycle_step_inv s s' : cycle_step s s' → cycles_inv s → cycles_inv s'.
Proof.
  intros Hst Hinv. destruct Hst;
    lazymatch goal with
    | H : admitTx _ _ _ _ _ _ _ _ _ = _ |- _ => exact (admitTx_inv _ _ _ _ _ _ _ _ _ _ _ Hinv H)
    | H : advanceTx _ _ _ _ _ _ _ _ _ = _ |- _ => refine (advanceTx_inv _ _ _ _ _ _ _ _ _ _ _ Hinv _ _ _ H); assumption
    | H : repeatTx _ _ _ _ _ = _ |- _ => exact (repeatTx_inv _ _ _ _ _ _ _ Hinv H)
    | H : endTx _ _ _ _ _ _ = _ |- _ => refine (endTx_inv _ _ _ _ _ _ _ _ Hinv _ H); assumption
    | H : fenceCyclesTx _ _ _ _ = _ |- _ => exact (fenceCyclesTx_inv _ _ _ _ _ _ Hinv H)
    | H : pickupTx _ _ _ _ _ _ _ _ _ _ _ = _ |- _ => exact (pickupTx_inv _ _ _ _ _ _ _ _ _ _ _ _ _ Hinv H)
    | H : writeRefusalSlotTx _ _ _ _ = _ |- _ => exact (writeRefusalSlotTx_inv _ _ _ _ _ _ Hinv H)
    | H : recordRefusalTx _ _ _ _ _ _ = _ |- _ => exact (recordRefusalTx_inv _ _ _ _ _ _ _ _ Hinv H)
    | H : setContextPolicyTx _ _ _ _ _ _ = _ |- _ => exact (setContextPolicyTx_inv _ _ _ _ _ _ _ _ Hinv H)
    | H : setContextEnableTx _ _ _ _ _ _ _ _ = _ |- _ => exact (setContextEnableTx_inv _ _ _ _ _ _ _ _ _ _ Hinv H)
    | H : setContextThresholdTx _ _ _ _ = _ |- _ => exact (setContextThresholdTx_inv _ _ _ _ _ _ Hinv H)
    | H : noteCycleInboxReadTx _ _ = _ |- _ => exact (noteCycleInboxReadTx_inv _ _ _ _ Hinv H)
    | H : trimTx _ _ = _ |- _ => exact (trimTx_inv _ _ _ _ Hinv H)
    | K : Keeps ledger ?m, H : ?m _ = Ok _ |- _ => exact (inv_keeps _ K _ _ _ Hinv H)
    end.
Qed.

(** C4: in any sequence of transactions, every unfinished cycle has spent exactly one event
    and one stage credit for each stage since its admission and still owns the credit of every
    remaining stage and of its end, an ended cycle owns none, at most sixteen cycles are
    unfinished, and no two of them share a session or a host. *)
Theorem cycle_invariant s s' : cycles_inv s → rtc cycle_step s s' → cycles_inv s'.
Proof. intros Hinv Hr. induction Hr; [done|]. eauto using cycle_step_inv. Qed.
End steps.

(** ** The page debt of cycles *)

Definition cycle_debt (s : State) : Z := sum_of c_Credit (cycles s).

Lemma sum_of_le (m : gmap string cycleRow) b :
  (∀ id c, m !! id = Some c → 0 ≤ c_Credit c ∧ (if unfinished c then c_Credit c ≤ b else c_Credit c = 0)) → 0 ≤ b →
  0 ≤ sum_of c_Credit m ≤ count_where (λ _ c, unfinished c) m * b.
Proof.
  intros Hm Hb. revert Hm. unfold sum_of, count_where, select. induction m as [|id c m Hn Hfst IH] using map_first_key_ind; intros Hm.
  { rewrite map_fold_empty, map_to_list_empty. cbn. lia. }
  rewrite map_fold_insert_first_key by done. rewrite map_to_list_insert by done. rewrite filter_cons. cbn.
  destruct (Hm id c) as [H0 H1]; [by rewrite lookup_insert_eq|].
  destruct IH as [IH1 IH2]; [intros i r Hr; apply (Hm i); rewrite lookup_insert_ne; [done|congruence]|].
  case_decide as E; cbn [length]; [rewrite E in H1|destruct (unfinished c); [done|]]; lia.
Qed.

(** The page debt of all cycles together is never negative and at most 16 credits, 70,576
    pages (docs/CONTEXT-CYCLE-STORAGE.md). *)
Theorem cycle_debt_bounded s : cycles_inv s → 0 ≤ cycle_debt s ≤ 70576.
Proof.
  intros Hinv. assert (0 ≤ cycle_debt s ≤ count_where (λ _ c, unfinished c) (cycles s) * cycleCreditPages) as [H1 H2].
  { apply sum_of_le; [|vm_compute; done]. intros id c Hl. destruct (inv_cycles _ Hinv _ _ Hl) as [_ Hs].
    destruct (unfinished c) eqn:Hu.
    - destruct Hs as [He Hc _ _ _]. rewrite Hc. unfold cycleCreditPages, cycleFundedStages, cycleStagePages, cycleTerminalPages, maxCycleEvents in *. lia.
    - destruct Hs as [_ _ -> _]. lia. }
  pose proof (inv_count _ Hinv) as H3. unfold maxActiveCycles in H3. change cycleCreditPages with 4411 in *. nia.
Qed.

(** ** Witnesses *)

Lemma inv_empty s : cycles s = ∅ → cycle_events s = ∅ → cycles_inv s.
Proof.
  intros Hc He. split.
  - intros id c. by rewrite Hc, lookup_empty.
  - intros id n. rewrite He, lookup_empty. by intros [].
  - intros id1 id2 c1 c2. by rewrite Hc, lookup_empty.
  - rewrite Hc. vm_compute. discriminate.
Qed.
Lemma switched_on_inv : cycles_inv switched_on.
Proof. apply inv_empty; vm_compute; reflexivity. Qed.
Lemma admitted_inv : cycles_inv admitted.
Proof.
  destruct (run_after admit_h switched_on) as [[] E]; [vm_compute; reflexivity|].
  exact (admitTx_inv _ _ _ _ _ _ _ _ _ _ _ switched_on_inv E).
Qed.
Lemma records_id : records (λ c, c).
Proof. intros c. reflexivity. Qed.
Lemma records_report : records report.
Proof. intros c. reflexivity. Qed.
Lemma reported_inv : cycles_inv reported.
Proof.
  destruct (run_after advance_ready admitted) as [c E]; [vm_compute; reflexivity|].
  exact (advanceTx_inv 30 "c1" 1 cycleWaitingReady cycleReady _ _ _ _ _ _ admitted_inv records_report eq_refl eq_refl E).
Qed.

Lemma cycle_invariant_witness : cycles_inv admitted ∧ (c_Credit <$> cycles admitted !! "c1"%string) = Some cycleCreditPages.
Proof.
  destruct (run_after admit_h switched_on) as [[] E]; [vm_compute; reflexivity|].
  refine (conj (@cycle_invariant zero_sum switched_on admitted switched_on_inv
    (rtc_once switched_on admitted (step_admit switched_on admitted 25 holder_h "c1" "d" "claude-tmux-1" crossing "" probe_ok tt E))) _).
  vm_compute. reflexivity.
Defined.
Lemma cycle_debt_bounded_witness : cycle_debt admitted = 4411 ∧ 0 ≤ cycle_debt admitted ≤ 70576.
Proof. refine (conj _ (cycle_debt_bounded admitted admitted_inv)). vm_compute. reflexivity. Defined.
