(* ===== verification/CycleOutcomes.v ===== *)
(** * The stages and the end of a context cycle

    That the page credit of a cycle carries each of its stages and its end through a full
    store, what an advance and an end write, that an ended cycle is never changed again, what
    an end does to the session's Enable, and the report of a pickup. *)

From S2P Require Import Prelude GoString GoFloat Schema Sql Label Fixture Storage Names Messages Inboxes Sessions Cycles ContextPolicy Admission CycleFixture CycleProps.
Open Scope Z_scope.

(** ** The credit of a cycle in the debt of the store *)

Lemma sum_of_alter {K V} `{Countable K} (f : V → Z) g k v (m : gmap K V) : m !! k = Some v → sum_of f (alter g k m) = sum_of f m - f v + f (g v).
Proof.
  intros Hl. assert (alter g k m = <[k := g v]> (delete k m)) as ->.
  { apply map_eq. intros i. destruct (decide (i = k)) as [->|Hne].
    - by rewrite lookup_alter_eq, lookup_insert_eq, Hl.
    - by rewrite lookup_alter_ne, lookup_insert_ne, lookup_delete_ne. }
  rewrite <-(insert_delete_id m k v Hl) at 2. rewrite !sum_of_insert by (by rewrite lookup_delete_eq). lia.
Qed.

(** The tables of the debt besides cycles *)
Definition work_debt (s : State) := (claim_bundles s, work_items s).
Lemma debtPages_cycles s s' d : work_debt s' = work_debt s → sum_of c_Credit (cycles s') = sum_of c_Credit (cycles s) - d →
  debtPages s' = debtPages s - d.
Proof. unfold work_debt, debtPages. intros [= -> ->] ->. lia. Qed.

Lemma advance_releases now id revision from to reason guard change s c' s' : records change →
  advanceTx now id revision from to reason guard change s = Ok (c', s') → debtPages s' = debtPages s - cycleStagePages.
Proof.
  intros Hch (c & d & Hl & _ & _ & _ & _ & _ & _ & _ & _ & _ & _ & -> & ->)%advanceTx_Ok. apply debtPages_cycles; [done|].
  cbn -[sum_of alter update_columns]. rewrite (sum_of_alter _ _ _ c) by done.
  pose proof (Hch ((entered now to reason c) <| c_StageDeadline := Z.min d (c_CycleDeadline c) |>)) as Hcnt.
  unfold counters in Hcnt. injection Hcnt as _ _ E _ _ _ _. cbn. rewrite E. cbn. lia.
Qed.

Lemma end_releases now id revision outcome reason s c' s' :
  endTx now id revision outcome reason s = Ok (c', s') →
  ∃ c, cycles s !! id = Some c ∧ unfinished c = true ∧ debtPages s' = debtPages s - c_Credit c.
Proof.
  unfold endTx, read_cycle. intros H. runs H. apply negb_true_iff, orb_false_iff in G as [G _].
  exists v. split; [done|]. split; [by unfold unfinished; rewrite G|].
  apply endCycleTx_Ok in H as (_ & -> & _ & s2 & Hs2 & ->).
  assert (debtPages s2 = debtPages (end_ledger now id v outcome reason s)) as Hd.
  { refine (keeps_run (Keeps := _ : Keeps debtPages _) _ _ _ Hs2). unfold end_enable, rearm, keepEnableTx, disable. keeps. }
  change (debtPages s2 = debtPages s - c_Credit v). rewrite Hd. apply debtPages_cycles.
  - unfold end_ledger. cbn. by destruct (readyTimeoutKeepsEnable _ _ _ _ _).
  - unfold end_ledger. destruct (readyTimeoutKeepsEnable _ _ _ _ _); cbn -[sum_of alter update_columns];
      rewrite (sum_of_alter _ _ _ v) by done; cbn; lia.
Qed.

(** C31: from a funded, unblocked store, a stage whose growth is within its 280 pages and an
    end whose growth is within its 491 pages always commit, however full the file is, and the
    store stays funded for every other promised obligation. *)
Theorem cycle_writes_commit w en st : cycles_inv (tables st) → funded st → blocked st = None →
  w_class w = control → w_guard w (tables st) = None → en_log en = LogEmpty → en_full_body en = false → en_full_commit en = false →
  (∀ now id revision from to reason guard change c s, records change →
     advanceTx now id revision from to reason guard change ((tables st) <| pending := w_audit w |>) = Ok (c, s) →
     en_pages en (writeAudit (w_audited w) (w_at w) s) ≤ page_count st + cycleStagePages →
     ∃ st', write w en (advanceTx now id revision from to reason guard change) st = (Ok c, st') ∧ funded st' ∧
       debtPages (tables st') = debtPages (tables st) - cycleStagePages) ∧
  (∀ now id revision outcome reason c s,
     endTx now id revision outcome reason ((tables st) <| pending := w_audit w |>) = Ok (c, s) →
     en_pages en (writeAudit (w_audited w) (w_at w) s) ≤ page_count st + cycleTerminalPages →
     ∃ st', write w en (endTx now id revision outcome reason) st = (Ok c, st') ∧ funded st' ∧
       debtPages (tables st') ≤ debtPages (tables st) - cycleTerminalPages).
Proof.
  intros Hinv Hf Hb Hc Hg Hl Hfb Hfc. split.
  - intros now id revision from to reason guard change c s Hch Hrun Hgrow.
    pose proof (advance_releases _ _ _ _ _ _ _ _ _ _ _ Hch Hrun) as Hd. rewrite debtPages_pending in Hd.
    destruct (control_commits w en _ st c s Hf Hb Hc Hg Hl Hfb Hfc Hrun) as (st' & Hw & Hf' & Ht); [lia|].
    exists st'. split; [done|]. split; [done|]. rewrite Ht, debtPages_pending, debtPages_audit. lia.
  - intros now id revision outcome reason c s Hrun Hgrow.
    destruct (end_releases _ _ _ _ _ _ _ _ Hrun) as (r & Hr & Hu & Hd). rewrite debtPages_pending in Hd.
    assert (cycleTerminalPages ≤ c_Credit r) as Hle.
    { destruct (inv_cycles _ Hinv _ _ Hr) as [_ Hs]. rewrite Hu in Hs. destruct Hs as [He -> _ _ _].
      unfold cycleStagePages, maxCycleEvents in *. lia. }
    destruct (control_commits w en _ st c s Hf Hb Hc Hg Hl Hfb Hfc Hrun) as (st' & Hw & Hf' & Ht); [lia|].
    exists st'. split; [done|]. split; [done|]. rewrite Ht, debtPages_pending, debtPages_audit. lia.
Qed.

(** ** History *)

(** [s'] keeps every ended cycle and every recorded event of [s]. *)
Definition extends (s s' : State) : Prop :=
  (∀ id c, cycles s !! id = Some c → unfinished c = false → cycles s' !! id = Some c) ∧ cycle_events s ⊆ cycle_events s'.
#[export] Instance extends_preorder : PreOrder extends.
Proof.
  split.
  - intros s. split; [done|reflexivity].
  - intros s1 s2 s3 [H1 H2] [H3 H4]. split; [|by etrans]. intros id c Hl Hu. apply H3; [by apply H1|done].
Qed.

Lemma extends_ledger s s' : ledger s' = ledger s → extends s s'.
Proof. unfold ledger. intros [= Hc He]. split; [by rewrite Hc|by rewrite He]. Qed.
Lemma extends_keeps {A} (m : tx A) s a s' : Keeps ledger m → m s = Ok (a, s') → extends s s'.
Proof. intros Hk H. apply extends_ledger. exact (Hk _ _ _ H). Qed.

Lemma extends_write id c f s s' : cycles s !! id = Some c → unfinished c = true → cycles s' = alter f id (cycles s) →
  cycle_events s ⊆ cycle_events s' → extends s s'.
Proof.
  intros Hl Hu Hc He. split; [|done]. intros i r Hr Hur. rewrite Hc, lookup_alter_ne; [done|]. intros ->. congruence.
Qed.

Lemma upto_fresh id n k s : events_upto id n s → n < k → cycle_events s !! (id, k) = None.
Proof. intros Hu Hk. destruct (cycle_events s !! (id, k)) eqn:E; [|done]. destruct (proj1 (Hu k)); [by rewrite E|lia]. Qed.

Lemma endCycleTx_extends now id c r outcome reason carry s c' s' :
  cycles_inv s → cycles s !! id = Some r → unfinished r = true → c_Events c = c_Events r → Keeps ledger carry →
  endCycleTx now id c outcome reason carry s = Ok (c', s') → extends s s'.
Proof.
  intros Hinv Hr Hu Hev Hk (_ & -> & He & s2 & Hs2 & ->)%endCycleTx_Ok.
  assert (ledger s2 = ledger (end_ledger now id c outcome reason s)) as [= Hc2 He2].
  { refine (keeps_run _ _ _ Hs2). unfold end_enable, rearm, keepEnableTx, disable. keeps. }
  destruct (inv_cycles _ Hinv _ _ Hr) as [Hupto _].
  eapply extends_write; [done|done| |].
  - cbn. rewrite Hc2. unfold end_ledger. by destruct (readyTimeoutKeepsEnable _ _ _ _ _).
  - cbn. rewrite He2. unfold end_ledger. destruct (readyTimeoutKeepsEnable _ _ _ _ _); cbn.
    + etrans; [|apply insert_subseteq]; [by apply insert_subseteq|].
      rewrite lookup_insert_ne by (intros [=]; lia). eapply upto_fresh; [done|lia].
    + by apply insert_subseteq.
Qed.

Lemma fenceCyclesTx_extends now reason where_ s u s' : cycles_inv s → fenceCyclesTx now reason where_ s = Ok (u, s') → extends s s'.
Proof.
  intros Hinv H. unfold fenceCyclesTx in H. runs H.
  assert (NoDup (select (λ (_ : string) c, unfinished c && where_ c) (cycles s)).*1) as Hnd.
  { apply NoDup_fmap_fst; [|apply NoDup_select]. intros i c1 c2 [H1 _]%elem_of_select [H2 _]%elem_of_select. congruence. }
  assert (∀ id c, (id, c) ∈ select (λ (_ : string) c, unfinished c && where_ c) (cycles s) → cycles s !! id = Some c ∧ unfinished c = true) as Hl.
  { intros id c [Hl [HP _]%andb_true_iff]%elem_of_select. done. }
  revert Hnd Hl H. generalize (select (λ (_ : string) c, unfinished c && where_ c) (cycles s)) as l. intros l.
  revert s Hinv. induction l as [|[id c] l IH]; intros s Hinv Hnd Hl H; cbn in H; [by run H|]. runs H.
  inversion_clear Hnd as [|? ? Hni Hnd']. destruct (Hl id c (list_elem_of_here _ _)) as [Hc Hu].
  pose proof (endCycleTx_extends _ _ _ c _ _ _ _ _ _ Hinv Hc Hu eq_refl (keeps_ret _ _) R0) as Hx.
  apply (endCycleTx_inv _ _ _ c) in R0 as (Hinv' & Hcs & _); [|done..|apply keeps_ret].
  etrans; [exact Hx|]. apply IH; [done..| |done]. intros i r Hin. destruct (Hl i r (list_elem_of_further _ _ _ Hin)) as [Hr Hur].
  split; [|done]. rewrite Hcs, lookup_alter_ne; [done|]. intros ->. apply Hni, list_elem_of_fmap. by exists (i, r).
Qed.

Lemma advanceTx_extends now id revision from to reason guard change s c' s' : cycleTerminal from = false →
  advanceTx now id revision from to reason guard change s = Ok (c', s') → extends s s'.
Proof.
  intros Hfrom (c & d & Hl & _ & Hst & _ & _ & _ & _ & _ & _ & He & _ & _ & ->)%advanceTx_Ok.
  eapply extends_write; [done|by unfold unfinished; rewrite Hst, Hfrom|done|]. by apply insert_subseteq.
Qed.

Lemma repeatTx_extends now id revision seen s u s' : cycles_inv s → repeatTx now id revision seen s = Ok (u, s') → extends s s'.
Proof.
  intros Hinv (c & seq & Hl & _ & Hst & _ & _ & _ & _ & _ & He & Hc)%repeatTx_Ok. destruct (inv_cycles _ Hinv _ _ Hl) as [Hupto _].
  eapply extends_write; [done|by unfold unfinished; rewrite Hst|done|]. rewrite He. apply insert_subseteq. eapply upto_fresh; [done|lia].
Qed.

(** What every transaction but the retention keeps *)
Definition hist (s0 s : State) : Prop := cycles_inv s ∧ extends s0 s.
Lemma hist_keeps {A} s0 (m : tx A) : Keeps ledger m → Maintains (hist s0) m.
Proof.
  apply maintains_keeps. intros s s' Hl [H1 H2]. split; [by eapply inv_of_ledger|]. etrans; [exact H2|]. by apply extends_ledger.
Qed.
Lemma hist_run {A} s0 (m : tx A) :
  Maintains cycles_inv m → (∀ s a s', cycles_inv s → m s = Ok (a, s') → extends s s') → Maintains (hist s0) m.
Proof. intros Hm Hx s a s' [H1 H2] H. split; [by eapply Hm|]. etrans; [exact H2|]. by eapply Hx. Qed.
Lemma hist_fence s0 now reason where_ : Maintains (hist s0) (fenceCyclesTx now reason where_).
Proof. apply hist_run; [apply fenceCyclesTx_inv|]. intros. by eapply fenceCyclesTx_extends. Qed.
#[export] Hint Resolve hist_fence : cycles.
Ltac hist_tac :=
  repeat first [ solve [eauto 2 with cycles] | solve [apply hist_keeps; unfold setAuditTarget, set_setting, rearm; keeps] | maintains_step ].

Lemma endTx_extends now id revision outcome reason s c' s' : cycles_inv s → endTx now id revision outcome reason s = Ok (c', s') → extends s s'.
Proof.
  intros Hinv H. unfold endTx, read_cycle in H. runs H. apply negb_true_iff, orb_false_iff in G as [G _].
  eapply (endCycleTx_extends _ _ _ v); [done|done|by unfold unfinished; rewrite G|done| |exact H]. apply keeps_ret.
Qed.

Section history.
Context `{SHA : Sha256}.

Lemma pickupTx_extends now now_end caller role epoch artifact outcome report id c s c' s' :
  cycles_inv s → pickupTx now now_end caller role epoch artifact outcome report id c s = Ok (c', s') → extends s s'.
Proof.
  intros Hinv H. unfold pickupTx, read_cycle in H. runs H.
  apply negb_true_iff in G0. rewrite !orb_false_iff, !negb_false_iff in G0. destruct G0 as [[[[[G0 _] _] _] _] _].
  refine (endCycleTx_extends _ _ _ v _ _ _ _ _ _ Hinv L (accepts_unfinished _ G0) _ _ H); [done|]. unfold carryEnable, disable. keeps.
Qed.

Lemma admitTx_extends now k id digest version evidence latched_ probe s u s' : cycles_inv s →
  admitTx now k id digest version evidence latched_ probe s = Ok (u, s') → extends s s'.
Proof.
  intros Hinv (session & h & e & c & _ & _ & _ & H)%admitTx_Ok. cbv zeta in H. destruct H as (_ & _ & _ & _ & Hn & Hne & He & Hc & _).
  split.
  - intros i r Hr _. rewrite Hc, lookup_insert_ne; [done|]. intros ->. congruence.
  - rewrite He. by apply insert_subseteq.
Qed.

Lemma writeRefusalSlotTx_extends id revision code_ s u s' : writeRefusalSlotTx id revision code_ s = Ok (u, s') → extends s s'.
Proof.
  intros H. unfold writeRefusalSlotTx in H. run H. split; [|done]. intros i r Hr Hu. cbn.
  destruct (decide (i = id)) as [->|Hne]; [|by rewrite lookup_alter_ne]. rewrite lookup_alter_eq, Hr. cbn.
  destruct (waits_at revision r) eqn:Ew; [|done]. unfold waits_at in Ew. apply andb_true_iff in Ew as [Ew%seqb_true _].
  unfold unfinished in Hu. by rewrite Ew in Hu.
Qed.

(** an ended cycle is final: no transaction changes its row, the only one that removes
    it is the retention, and none of its recorded events is changed either. *)
Theorem ended_cycle_final s s' id c : cycles_inv s → cycle_step s s' → cycles s !! id = Some c → unfinished c = false →
  (cycles s' !! id = Some c ∧ ∀ n e, cycle_events s !! (id, n) = Some e → cycle_events s' !! (id, n) = Some e) ∨
  (cycles s' !! id = None ∧ (∀ n, cycle_events s' !! (id, n) = None) ∧ ∃ now, id ∈ trimmed now s).
Proof.
  intros Hinv Hst Hl Hu.
  assert (extends s s' ∨ ∃ now u, trimTx now s = Ok (u, s')) as [[Hx1 Hx2]|(now & u & Ht)].
  { destruct Hst;
      lazymatch goal with
      | H : trimTx _ _ = _ |- _ => right; eauto
      | H : admitTx _ _ _ _ _ _ _ _ _ = _ |- _ => left; exact (admitTx_extends _ _ _ _ _ _ _ _ _ _ _ Hinv H)
      | H : advanceTx _ _ _ _ _ _ _ _ _ = _ |- _ => left; refine (advanceTx_extends _ _ _ _ _ _ _ _ _ _ _ _ H); assumption
      | H : repeatTx _ _ _ _ _ = _ |- _ => left; exact (repeatTx_extends _ _ _ _ _ _ _ Hinv H)
      | H : endTx _ _ _ _ _ _ = _ |- _ => left; exact (endTx_extends _ _ _ _ _ _ _ _ Hinv H)
      | H : fenceCyclesTx _ _ _ _ = _ |- _ => left; exact (fenceCyclesTx_extends _ _ _ _ _ _ Hinv H)
      | H : pickupTx _ _ _ _ _ _ _ _ _ _ _ = _ |- _ => left; exact (pickupTx_extends _ _ _ _ _ _ _ _ _ _ _ _ _ Hinv H)
      | H : writeRefusalSlotTx _ _ _ _ = _ |- _ => left; exact (writeRefusalSlotTx_extends _ _ _ _ _ _ H)
      | K : Keeps ledger ?m, H : ?m _ = Ok _ |- _ => left; exact (extends_keeps _ _ _ _ K H)
      | H : ?m s = _ |- _ =>
          left; assert (Maintains (hist s) m) as Hm by
            (unfold recordRefusalTx, read_cycle, setContextPolicyTx, setContextEnableTx, setContextThresholdTx, noteCycleInboxReadTx; hist_tac);
          exact (proj2 (Hm _ _ _ (conj Hinv (reflexivity s)) H))
      end. }
  - left. split; [by apply Hx1|]. intros n e He. by eapply lookup_weaken.
  - unfold trimTx in Ht. run Ht. cbn. rewrite !map_lookup_filter, Hl. cbn. destruct (one_of id (trimmed now s)) eqn:Eo.
    + right. split; [by rewrite option_guard_False|]. split.
      * intros n. rewrite map_lookup_filter. destruct (cycle_events s !! (id, n)); cbn; [|done].
        rewrite option_guard_False; [done|]. cbn. by rewrite Eo.
      * exists now. by apply one_of_true.
    + left. split; [by rewrite option_guard_True|]. intros n e He. apply map_lookup_filter_Some. done.
Qed.
End history.

(** ** An unfinished cycle can always end *)

Lemma cycleEvent_run now id c stage result reason s : (cycleTerminal stage = true ∨ c_Events c < maxCycleEvents - 1) →
  cycle_events s !! (id, c_Events c + 1) = None →
  cycleEvent now id c stage result reason s =
    Ok (c <| c_Events := c_Events c + 1 |>, record_event id (c_Events c + 1) (mkCycleEvent now stage result reason) s).
Proof.
  intros Hb He. unfold cycleEvent. assert (negb (cycleTerminal stage) && (maxCycleEvents - 1 <=? c_Events c) = false) as ->.
  { destruct Hb as [->|Hb]; [done|]. apply andb_false_iff. right. lia. }
  cbn zeta. erewrite bind_run; [reflexivity|]. unfold insert_cycle_event. cbn. by rewrite He.
Qed.

Lemma endCycleTx_run now id c r outcome reason s : cycles_inv s → cycles s !! id = Some r → unfinished r = true →
  c_Events c = c_Events r → cycleTerminal outcome = true →
  ∃ c' s', endCycleTx now id c outcome reason (mret tt) s = Ok (c', s') ∧ c_State c' = end_state id c outcome s.
Proof.
  intros Hinv Hr Hu Hev Ho. destruct (inv_cycles _ Hinv _ _ Hr) as [Hupto _]. unfold endCycleTx.
  rewrite (bind_run _ _ _ _ _ eq_refl). fold (end_state id c outcome s). set (st := end_state id c outcome s).
  rewrite (bind_run _ _ _ _ _ eq_refl).
  erewrite bind_run by (apply cycleEvent_run; [left; by apply end_state_terminal|rewrite Hev; eapply upto_fresh; [done|lia]]).
  cbv zeta. destruct (readyTimeoutKeepsEnable id c st reason s).
  - erewrite bind_run by (unfold when, insert_cycle_event; cbn; rewrite lookup_insert_ne by (intros [=]; lia);
      rewrite Hev, (upto_fresh id (c_Events r)); [reflexivity|done|lia]).
    rewrite (bind_run _ _ _ _ _ eq_refl).
    destruct (seqb st cycleComplete); [|destruct (compactionKeepsEnable c reason)]; eexists _, _; (split; [reflexivity|done]).
  - rewrite (bind_run _ _ _ _ _ eq_refl), (bind_run _ _ _ _ _ eq_refl).
    destruct (seqb st cycleComplete); [|destruct (compactionKeepsEnable c reason)]; eexists _, _; (split; [reflexivity|done]).
Qed.

Lemma endTx_run now id revision outcome reason s c : cycles_inv s → cycles s !! id = Some c → unfinished c = true →
  revision = 0 ∨ revision = c_Revision c → cycleTerminal outcome = true →
  ∃ c' s', endTx now id revision outcome reason s = Ok (c', s') ∧ c_State c' = end_state id c outcome s.
Proof.
  intros Hinv Hl Hu Hrev Ho. unfold endTx, read_cycle.
  erewrite bind_run by (erewrite bind_run by reflexivity; unfold row; rewrite Hl; reflexivity).
  erewrite bind_run. 2:{ unfold ensure. unfold unfinished in Hu. apply negb_true_iff in Hu. rewrite Hu.
    assert (negb (revision =? 0) && negb (c_Revision c =? revision) = false) as ->; [|reflexivity].
    destruct Hrev as [->| ->]; [done|]. rewrite Z.eqb_refl. apply andb_false_r. }
  by eapply endCycleTx_run.
Qed.

Lemma update_ended now id c outcome reason s : update_columns (ended now id c outcome reason s) c = ended now id c outcome reason s.
Proof.
  unfold ended. generalize (end_events id c outcome reason s), (end_state id c outcome s). intros n st. destruct c. vm_compute. reflexivity.
Qed.

Lemma update_pickup now id c successor epoch report outcome reason s :
  let dn := c <| c_SuccessorID := successor |> <| c_SuccessorEpoch := epoch |> <| c_Report := report |> in
  update_columns (ended now id dn outcome reason s) c = ended now id dn outcome reason s.
Proof.
  cbv zeta. unfold ended. set (dn := upd _ _ _). generalize (end_events id dn outcome reason s), (end_state id dn outcome s). intros n st.
  subst dn. destruct c. vm_compute. reflexivity.
Qed.

(** An engine that refuses nothing and whose file grows by at most [growth] *)
Definition calm (en : Engine) (growth : Z) (st : Store) : Prop :=
  en_log en = LogEmpty ∧ en_full_body en = false ∧ en_full_commit en = false ∧ ∀ s, en_pages en s ≤ page_count st + growth.

(** an unfinished cycle can always end: from a funded, unblocked store, [endCycle] at its
    revision commits one terminal state, the asked outcome, or uncertain after an input whose
    effect is not proven. *)
Theorem cycle_can_end now en id outcome reason st c : cycles_inv (tables st) → funded st → blocked st = None →
  calm en cycleTerminalPages st → cycles (tables st) !! id = Some c → unfinished c = true → cycleTerminal outcome = true →
  ∃ c' st', endCycle now en id (c_Revision c) outcome reason st = (Ok c', st') ∧ cycles (tables st') !! id = Some c' ∧ funded st' ∧
    c_State c' = (if negb (seqb outcome cycleComplete) && cycleUnproven id c (tables st) then cycleUncertain else outcome) ∧
    c_Credit c' = 0.
Proof.
  intros Hinv Hf Hb (Hl & Hfb & Hfc & Hg) Hc Hu Ho. unfold endCycle.
  assert (cycles_inv ((tables st) <| pending := None |>)) as Hinv' by (eapply inv_of_ledger; [|exact Hinv]; done).
  destruct (endTx_run now id (c_Revision c) outcome reason ((tables st) <| pending := None |>) c) as (c' & s' & Hrun & Hst); [exact Hinv'|exact Hc|exact Hu|by right|exact Ho|].
  destruct (end_releases _ _ _ _ _ _ _ _ Hrun) as (r & Hr & Hur & Hd). rewrite debtPages_pending in Hd.
  assert (r = c) as -> by (cbn in Hr; congruence).
  assert (cycleTerminalPages ≤ c_Credit c) as Hle.
  { destruct (inv_cycles _ Hinv _ _ Hc) as [_ Hs]. rewrite Hu in Hs. destruct Hs as [He -> _ _ _].
    unfold cycleStagePages, maxCycleEvents in *. lia. }
  destruct (control_commits (mkWrite control false now None (λ _, None)) en _ st c' s' Hf Hb eq_refl eq_refl Hl Hfb Hfc Hrun) as (st' & Hw & Hf' & Ht).
  { specialize (Hg (writeAudit false now s')). cbn. lia. }
  exists c', st'. split; [done|].
  assert (cycles (tables st') = cycles s') as Ecs by (rewrite Ht; unfold writeAudit; cbn; by destruct (pending s')).
  unfold endTx, read_cycle in Hrun. runs Hrun. cbn in L. rewrite Hc in L. injection L as <-.
  apply (endCycleTx_inv _ _ _ c) in Hrun as (_ & Hcs & Hc'); [|done..|apply keeps_ret].
  split; [|split; [exact Hf'|split; [exact Hst|by rewrite Hc']]].
  rewrite Ecs, Hcs, lookup_alter_eq. change (cycles ((tables st) <| pending := None |>)) with (cycles (tables st)).
  rewrite Hc, Hc'. exact (f_equal Some (update_ended _ _ _ _ _ _)).
Qed.

(** ** Advancing *)

(** a stage starts only from the revision and stage that the caller saw, before both
    deadlines, under the Enable that admitted the cycle, with the caller's check and with the
    page credit of the stage and of the end; it then takes the next revision, records its event
    and never moves the cycle's deadline. Otherwise nothing changes, and a stale revision or
    stage, a passed deadline or another Enable is [cycle_changed]. *)
Theorem advance_spec now id revision from to reason guard change s : records change →
  (∀ c' s', advanceTx now id revision from to reason guard change s = Ok (c', s') →
     ∃ c, cycles s !! id = Some c ∧ c_Revision c = revision ∧ c_State c = from ∧
       now < c_StageDeadline c ∧ now < c_CycleDeadline c ∧ cycleEnabled c s = true ∧ guard c now s = None ∧
       cycleStagePages + cycleTerminalPages ≤ c_Credit c ∧
       c_State c' = to ∧ c_Revision c' = revision + 1 ∧ c_Events c' = c_Events c + 1 ∧ c_Credit c' = c_Credit c - cycleStagePages ∧
       cycles s' = alter (update_columns c') id (cycles s) ∧ c_StageDeadline c' ≤ c_CycleDeadline c ∧
       cycle_events s' = <[(id, c_Events c + 1) := mkCycleEvent now to "entered" reason]> (cycle_events s) ∧
       (enables s', messages s', sessions s', names s', latches s') = (enables s, messages s, sessions s, names s, latches s)) ∧
  (∀ c, cycles s !! id = Some c →
     c_Revision c ≠ revision ∨ c_State c ≠ from ∨ c_StageDeadline c ≤ now ∨ c_CycleDeadline c ≤ now ∨ cycleEnabled c s = false →
     advanceTx now id revision from to reason guard change s = Err ErrCycleChanged).
Proof.
  intros Hch. split.
  - intros c' s' (c & d & Hl & Hrev & Hst & Hsd & Hcd & Hen & Hg & Hcr & _ & _ & _ & -> & ->)%advanceTx_Ok.
    pose proof (Hch ((entered now to reason c) <| c_StageDeadline := Z.min d (c_CycleDeadline c) |>)) as Hcnt.
    unfold counters in Hcnt. injection Hcnt as E1 E2 E3 E4 E5 E6 E7. exists c. rewrite E1, E2, E3, E4, E7. cbn.
    split_and!; try done; lia.
  - intros c Hl Hbad. unfold advanceTx, read_cycle.
    erewrite bind_run by (erewrite bind_run by reflexivity; unfold row; rewrite Hl; reflexivity).
    destruct (negb (negb (c_Revision c =? revision) || negb (seqb (c_State c) from) || (c_StageDeadline c <=? now) ||
                (c_CycleDeadline c <=? now))) eqn:E.
    + apply negb_true_iff in E. rewrite !orb_false_iff, !negb_false_iff, seqb_true in E. destruct E as [[[E1 E2] E3] E4].
      destruct Hbad as [Hb|[Hb|[Hb|[Hb|Hb]]]]; try (exfalso; (done || lia)).
      rewrite (bind_run _ _ _ _ _ eq_refl), (bind_run _ _ _ _ _ eq_refl), Hb. by apply bind_err.
    + by apply bind_err.
Qed.

(** ** The Enable after an end *)

Definition off (now : Z) (e : EnableRow) : EnableRow :=
  e <| e_enabled := false |> <| e_revision := e_revision e + 1 |> <| e_updated_at := now |>.

(** an end that is not a completion turns the requester's Enable off, except a compaction
    that ended before its input or under another epoch, and the first timeout of the ready
    report in an epoch; it touches no other session's Enable. *)
Theorem end_enable_spec now id revision outcome reason s c c' s' :
  endTx now id revision outcome reason s = Ok (c', s') → cycles s !! id = Some c →
  (∀ k, k ≠ requester c → enables s' !! k = enables s !! k) ∧
  (c_State c' ≠ cycleComplete → compactionKeepsEnable c reason = false →
   readyTimeoutKeepsEnable id c (c_State c') reason s = false →
   ∀ e, enables s !! requester c = Some e → e_enabled e = true → enables s' !! requester c = Some (off now e)) ∧
  (c_State c' = cycleComplete ∨ compactionKeepsEnable c reason = true → enables s' = enables s) ∧
  (c_State c' ≠ cycleComplete → compactionKeepsEnable c reason = false →
   readyTimeoutKeepsEnable id c (c_State c') reason s = true →
   ∃ e, enables s !! requester c = Some e ∧ e_enabled e = true ∧
     enables s' !! requester c = Some (e <| e_kept_epoch := c_Epoch c |> <| e_kept_revision := e_revision e |> <| e_kept_read := false |>) ∧
     awaitingRead (requester c) (e_revision e) (c_Epoch c) s' = true ∧
     (∀ id2 c2 out2 reason2, requester c2 = requester c → c_Epoch c2 = c_Epoch c →
        readyTimeoutKeepsEnable id2 c2 out2 reason2 s' = false)).
Proof.
  intros H Hl. unfold endTx, read_cycle in H. runs H. assert (v = c) as -> by congruence.
  apply endCycleTx_Ok in H as (_ & -> & _ & s2 & Hs2 & ->).
  change (c_State (ended now id c outcome reason s)) with (end_state id c outcome s).
  assert (enables (end_ledger now id c outcome reason s) = enables s) as Een
    by (unfold end_ledger; cbn; by destruct (readyTimeoutKeepsEnable _ _ _ _ _)).
  revert Een Hs2. generalize (end_ledger now id c outcome reason s) as sl. intros sl Een Hs2.
  unfold end_enable in Hs2. destruct (seqb (end_state id c outcome s) cycleComplete) eqn:Ec.
  { apply seqb_true in Ec. run Hs2. cbn. rewrite Een. split_and!; try done; intros; done. }
  apply seqb_false in Ec. destruct (compactionKeepsEnable c reason) eqn:Eco.
  { unfold rearm in Hs2. run Hs2. cbn. rewrite Een. split_and!; try done; intros; done. }
  destruct (readyTimeoutKeepsEnable id c (end_state id c outcome s) reason s) eqn:Er.
  - unfold keepEnableTx in Hs2. run Hs2. cbn -[awaitingRead readyTimeoutKeepsEnable]. rewrite Een. split_and!; try done.
    + intros k Hk. by rewrite lookup_alter_ne.
    + by intros [?|?].
    + intros _ _ _. pose proof Er as Er'. unfold readyTimeoutKeepsEnable in Er'. rewrite !andb_true_iff in Er'. destruct Er' as [_ He].
      destruct (enables s !! requester c) as [e|] eqn:Ee; [|done]. rewrite !andb_true_iff in He. destruct He as [[He1 He2] He3].
      exists e. split; [done|]. split; [done|]. rewrite lookup_alter_eq, Ee. cbn -[awaitingRead readyTimeoutKeepsEnable]. rewrite He2. split; [done|].
      assert (seqb (c_Epoch c) (c_Epoch c) = true) as Hep by (by apply seqb_true). split.
      * unfold awaitingRead. cbn. rewrite ?Een, lookup_alter_eq, Ee. cbn. rewrite He2. cbn. by rewrite He1, !Z.eqb_refl, Hep, orb_true_r.
      * intros id2 c2 out2 reason2 Hk Hce. unfold readyTimeoutKeepsEnable. cbn -[events_of]. rewrite ?Een, Hk, Hce, lookup_alter_eq, Ee. cbn. rewrite He2. cbn. rewrite Z.eqb_refl, Hep. cbn.
        by rewrite !andb_false_r.
  - unfold disable in Hs2. run Hs2. cbn. rewrite Een. split_and!; try done.
    + intros k Hk. by rewrite lookup_alter_ne.
    + intros _ _ _ e He Hon. rewrite lookup_alter_eq, He. cbn. by rewrite Hon.
    + by intros [?|?].
Qed.

(** ** The slot of the newest refused report *)

(** the refusal slot always has its fixed width, so that the overwrite allocates no page,
    and reading it returns the revision and the code that were written; the empty slot of an
    admission reads as revision 0. *)
Theorem refusal_slot_roundtrip revision code_ : 0 ≤ revision < 2 ^ 63 → code_ ≠ ""%string → (String.length code_ ≤ 75)%nat →
  Forall (λ a, is_space a = false) (to_bytes code_) →
  parseRefusalSlot (refusalSlot revision code_) = (revision, code_) ∧
  String.length (refusalSlot revision code_) = refusalSlotWidth ∧ parseRefusalSlot (refusalSlot 0 "") = (0, ""%string).
Proof.
  intros Hr Hne Hlen Hsp.
  assert (refusalSlot revision code_ =
    of_bytes (fixed_digits 20 revision ++ chr 32 :: to_bytes code_ ++ replicate (75 - String.length code_) (chr 32))) as E.
  { rewrite <-(of_to_bytes (refusalSlot revision code_)). f_equal. unfold refusalSlot, pad_right.
    rewrite !to_bytes_app, !to_of_bytes. done. }
  assert (String.length (refusalSlot revision code_) = refusalSlotWidth) as Hw.
  { rewrite E, of_bytes_length, length_app, fixed_digits_length. cbn [length].
    rewrite length_app, length_replicate, to_bytes_length. unfold refusalSlotWidth. lia. }
  split; [|by split]. unfold parseRefusalSlot. rewrite (bool_decide_eq_true_2 _ Hw). rewrite E, fields_two.
  - rewrite parse_int_fixed, of_to_bytes by (try done; lia). done.
  - intros Hn. pose proof (fixed_digits_length 20 revision) as Hl. by rewrite Hn in Hl.
  - intros Hn. apply Hne. by rewrite <-(of_to_bytes code_), Hn.
  - eapply Forall_impl; [apply fixed_digits_digit|]. apply digit_not_space.
  - done.
Qed.

(** ** Witnesses *)

Definition control_write : Write := mkWrite control false 30 None (λ _, None).
Definition engine_at (pages : Z) : Engine := mkEngine LogEmpty LogEmpty (λ p, p) (λ _, pages) false false.
(** A store that is full for every ordinary write *)
Definition full_store (s : State) : Store := mkStore s (defaultMaxPages - commitSlack - debtPages s) defaultMaxPages None.

Lemma cycle_writes_commit_witness : ∃ c st', write control_write (engine_at (page_count (full_store admitted) + 280)) advance_ready (full_store admitted) = (Ok c, st') ∧
  debtPages (tables st') = 4131.
Proof.
  assert (funded (full_store admitted)) as Hf by (vm_compute; discriminate).
  assert (advance_ready ((tables (full_store admitted)) <| pending := w_audit control_write |>) = advance_ready admitted) as Eq by (vm_compute; reflexivity).
  destruct (run_after advance_ready admitted) as [c E]; [vm_compute; reflexivity|].
  destruct (proj1 (cycle_writes_commit control_write (engine_at (page_count (full_store admitted) + 280)) (full_store admitted) admitted_inv Hf
    eq_refl eq_refl eq_refl eq_refl eq_refl eq_refl) 30 "c1" 1 cycleWaitingReady cycleReady "" pinnedRequester report c reported
    records_report (eq_trans Eq E)) as (st' & Hw & _ & Hd).
  { vm_compute. discriminate. }
  exists c, st'. refine (conj Hw _). rewrite Hd. vm_compute. reflexivity.
Defined.

Definition cancel_reported : tx cycleRow := endTx 40 "c1" 2 cycleCancelled "disabled".
Definition cancelled : State := after cancel_reported reported.
Lemma ended_cycle_final_witness : (c_State <$> cycles cancelled !! "c1"%string) = Some cycleCancelled ∧
  cycles (after (trimTx 50) cancelled) !! "c1"%string = cycles cancelled !! "c1"%string.
Proof.
  split; [vm_compute; reflexivity|].
  destruct (run_after cancel_reported reported) as [c' E]; [vm_compute; reflexivity|].
  assert (cycles_inv cancelled) as Hinv by exact (endTx_inv 40 "c1" 2 cycleCancelled _ _ _ _ reported_inv eq_refl E).
  destruct (run_after (trimTx 50) cancelled) as [u Et]; [vm_compute; reflexivity|].
  destruct (cycles cancelled !! "c1"%string) as [c|] eqn:El; [|vm_compute in El; discriminate].
  assert (unfinished c = false) as Hu by (revert El; vm_compute; intros [= <-]; reflexivity).
  destruct (@ended_cycle_final zero_sum cancelled (after (trimTx 50) cancelled) "c1" c Hinv (step_trim _ _ 50 u Et) El Hu) as [[H _]|[H _]];
    [exact H|]. exfalso. revert H. vm_compute. discriminate.
Defined.

Lemma cycle_can_end_witness : ∃ c' st', endCycle 40 (engine_at 1200) "c1" 3 cycleFailed "cycle_timeout" (st_of clearing) = (Ok c', st') ∧ c_State c' = cycleUncertain.
Proof.
  destruct (run_after advance_clear reported) as [c0 E]; [vm_compute; reflexivity|].
  assert (cycles_inv clearing) as Hinv by exact (advanceTx_inv 31 "c1" 2 cycleReady cycleClearIntent _ _ _ _ _ _ reported_inv records_id eq_refl eq_refl E).
  destruct (cycles clearing !! "c1"%string) as [c|] eqn:El; [|vm_compute in El; discriminate].
  assert (unfinished c = true ∧ c_Revision c = 3 ∧ cycleUnproven "c1" c clearing = true) as (Hu & Hr & Hp)
    by (revert El; vm_compute; intros [= <-]; split_and!; reflexivity).
  assert (funded (st_of clearing)) as Hf by (vm_compute; discriminate).
  assert (calm (engine_at 1200) cycleTerminalPages (st_of clearing)) as Hc by (split_and!; [reflexivity..|intros s; vm_compute; discriminate]).
  destruct (cycle_can_end 40 (engine_at 1200) "c1" cycleFailed "cycle_timeout" (st_of clearing) c Hinv Hf eq_refl Hc El Hu eq_refl) as (c' & st' & Hw & _ & _ & Hst & _).
  rewrite Hr in Hw. exists c', st'. refine (conj Hw _). rewrite Hst. cbn [tables st_of]. rewrite Hp. reflexivity.
Defined.

Lemma advance_spec_witness : ∃ c' s', advance_ready admitted = Ok (c', s') ∧ c_State c' = cycleReady ∧ c_Revision c' = 2.
Proof.
  destruct (run_after advance_ready admitted) as [c' E]; [vm_compute; reflexivity|].
  destruct (proj1 (advance_spec 30 "c1" 1 cycleWaitingReady cycleReady "" pinnedRequester report admitted records_report) c' reported E)
    as (c & _ & _ & _ & _ & _ & _ & _ & _ & Hs & Hr & _).
  exists c', reported. refine (conj E (conj Hs Hr)).
Defined.

Definition ready_timeout : tx cycleRow := endTx 900100 "c1" 1 cycleFailed "waiting_ready_timeout.unread".
Lemma end_enable_spec_witness : awaitingRead holder_h 1 "epoch-1" (after ready_timeout admitted) = true ∧
  (e_enabled <$> enables cancelled !! holder_h) = Some false.
Proof.
  split.
  - destruct (run_after ready_timeout admitted) as [c' E]; [vm_compute; reflexivity|].
    destruct (cycles admitted !! "c1"%string) as [c|] eqn:El; [|vm_compute in El; discriminate].
    destruct (end_enable_spec 900100 "c1" 1 cycleFailed "waiting_ready_timeout.unread" admitted c c' _ E El) as (_ & _ & _ & H).
    assert (c_State c' = cycleFailed) as Hst by (revert E; vm_compute; intros [= <-]; reflexivity).
    revert El H. rewrite Hst. vm_compute (cycles admitted !! _). intros [= <-] H.
    destruct H as (e & He & _ & _ & Ha & _); [discriminate|reflexivity|vm_compute; reflexivity|].
    revert He Ha. vm_compute (enables admitted !! _). intros [= <-] Ha. exact Ha.
  - vm_compute. reflexivity.
Defined.

Lemma refusal_slot_roundtrip_witness : parseRefusalSlot (refusalSlot 3 "cycle_artifact_invalid") = (3, "cycle_artifact_invalid"%string).
Proof.
  assert (Forall (λ a, is_space a = false) (to_bytes "cycle_artifact_invalid")) as H by (repeat constructor).
  assert (0 ≤ 3 < 2 ^ 63) as Hr by lia. assert ((String.length "cycle_artifact_invalid" ≤ 75)%nat) as Hl by (cbn; lia).
  exact (proj1 (refusal_slot_roundtrip 3 "cycle_artifact_invalid" Hr ltac:(discriminate) Hl H)).
Defined.
