(* ===== verification/CycleGates.v ===== *)
(** * The gates of a context cycle

    What selects a context crossing, what an admission promises, who completes a cycle with a
    pickup report and what it gives the successor, and which claims a cycle protects. *)

From S2P Require Import Prelude GoString GoFloat Schema Sql Label Fixture Storage Names Messages Inboxes Sessions Cycles ContextPolicy Admission CycleProps CycleOutcomes CycleFixture.
Open Scope Z_scope.

(** ** The selection *)

(** The counts of an observation are at most 2^53-1 (observations.go, [maxSafeInt]). *)
Definition safe_counts (i : ContextTriggerInput) : Prop :=
  (∀ u, UsedTokens (ti_Evidence i) = Some u → u ≤ 2 ^ 53 - 1) ∧ (∀ l, LimitTokens (ti_Evidence i) = Some l → l ≤ 2 ^ 53 - 1) ∧
  0 ≤ Threshold (ti_Policy i) ≤ 100.

Lemma int64_small z : - 2 ^ 63 ≤ z < 2 ^ 63 → int64 z = z.
Proof. intros Hz. unfold int64. rewrite Z.mod_small by lia. lia. Qed.

(** C32: an observation selects a crossing exactly when the session is active and enabled in a
    managed mode, its cycle can run, the reading is of a known epoch, neither in the future nor
    stale, its use is at the threshold, and neither an awaited inbox read nor an earlier
    selection in the same epoch holds it back; the percentage is exact for every count that an
    observation can carry. *)
Theorem trigger_selects i : safe_counts i →
  SelectContextTrigger i = None ↔
  let e := ti_Evidence i in let mode := Mode (ti_Policy i) in
  ti_Active i = true ∧ (mode = ContextHandoffCycle ∨ mode = ContextNativeCompaction) ∧ ti_Enabled i = true ∧ ti_CycleAvailable i = true ∧
  (mode = ContextHandoffCycle → ti_OverwatchConflict i = false) ∧ Found e = true ∧ Epoch e ≠ ""%string ∧
  (∃ used limit, UsedTokens e = Some used ∧ LimitTokens e = Some limit ∧ 0 ≤ used ∧ 0 < limit ∧ Threshold (ti_Policy i) * limit ≤ used * 100) ∧
  SourceAt e ≤ ti_Now i ∧ ti_Now i - contextConfirmationMaxAge ≤ ConfirmedAt e ≤ ti_Now i ∧
  (ti_Now i - contextSourceMaxAge ≤ SourceAt e ∨ currentReading mode e = true) ∧
  ti_AwaitingRead i = false ∧ ti_LatchedEpoch i ≠ Epoch e.
Proof.
  intros (Hsu & Hsl & Hth). cbv zeta. unfold SelectContextTrigger. set (e := ti_Evidence i) in *. set (mode := Mode (ti_Policy i)).
  destruct (ti_Active i); cbn [negb]; [|split; [done|intros [? _]; done]].
  destruct (negb (seqb mode ContextHandoffCycle) && negb (seqb mode ContextNativeCompaction)) eqn:Em.
  { split; [done|]. intros (_ & Hm & _). exfalso. rewrite andb_true_iff, !negb_true_iff, !seqb_false in Em. tauto. }
  assert (mode = ContextHandoffCycle ∨ mode = ContextNativeCompaction) as Hm.
  { rewrite andb_false_iff, !negb_false_iff, !seqb_true in Em. done. }
  destruct (ti_Enabled i); cbn [negb]; [|split; [done|intros (_ & _ & ? & _); done]].
  destruct (ti_CycleAvailable i); cbn [negb]; [|split; [done|intros (_ & _ & _ & ? & _); done]].
  destruct (ti_OverwatchConflict i && seqb mode ContextHandoffCycle) eqn:Eo.
  { split; [done|]. intros (_ & _ & _ & _ & H & _). exfalso. apply andb_true_iff in Eo as [Eo1 Eo2%seqb_true]. rewrite H in Eo1; done. }
  assert (mode = ContextHandoffCycle → ti_OverwatchConflict i = false) as Hov.
  { intros Hh. rewrite andb_false_iff, seqb_false in Eo. tauto. }
  destruct (Found e); cbn [negb]; [|split; [done|intros (_ & _ & _ & _ & _ & ? & _); done]].
  destruct (UsedTokens e) as [used|] eqn:Eu; [|split; [done|intros (_ & _ & _ & _ & _ & _ & _ & (? & ? & ? & _) & _); done]].
  destruct (LimitTokens e) as [limit|] eqn:El; [|split; [done|intros (_ & _ & _ & _ & _ & _ & _ & (? & ? & _ & ? & _) & _); done]].
  specialize (Hsu _ eq_refl). specialize (Hsl _ eq_refl).
  destruct ((limit <=? 0) || (used <? 0)) eqn:Ec.
  { split; [done|]. intros (_ & _ & _ & _ & _ & _ & _ & (u & l & [= <-] & [= <-] & ? & ? & _) & _). exfalso. lia. }
  destruct (seqb (Epoch e) "") eqn:Ee; [apply seqb_true in Ee; split; [done|]; intros (_ & _ & _ & _ & _ & _ & ? & _); done|].
  apply seqb_false in Ee.
  destruct ((ti_Now i <? SourceAt e) || (ti_Now i <? ConfirmedAt e)) eqn:Ef.
  { split; [done|]. intros (_ & _ & _ & _ & _ & _ & _ & _ & ? & ? & _). exfalso. lia. }
  destruct ((contextSourceMaxAge <? ti_Now i - SourceAt e) && negb (currentReading mode e)) eqn:Es.
  { split; [done|]. intros (_ & _ & _ & _ & _ & _ & _ & _ & _ & _ & H & _). exfalso.
    apply andb_true_iff in Es as [Es1 Es2%negb_true_iff]. rewrite Es2 in H. destruct H; [lia|done]. }
  assert (ti_Now i - contextSourceMaxAge ≤ SourceAt e ∨ currentReading mode e = true) as Hcur.
  { destruct (currentReading mode e); [by right|]. rewrite andb_false_iff in Es. destruct Es; [left; lia|done]. }
  destruct (contextConfirmationMaxAge <? ti_Now i - ConfirmedAt e) eqn:Ek.
  { split; [done|]. intros (_ & _ & _ & _ & _ & _ & _ & _ & _ & ? & _). exfalso. lia. }
  rewrite !int64_small by nia.
  destruct (used * 100 <? Threshold (ti_Policy i) * limit) eqn:Et.
  { split; [done|]. intros (_ & _ & _ & _ & _ & _ & _ & (u & l & [= <-] & [= <-] & _ & _ & ?) & _). exfalso. lia. }
  destruct (ti_AwaitingRead i); [split; [done|]; naive_solver|].
  destruct (seqb (ti_LatchedEpoch i) (Epoch e)) eqn:Elt; [apply seqb_true in Elt; split; [done|]; naive_solver|]. apply seqb_false in Elt.
  split; [|done]. intros _. split_and!; try done; try lia. exists used, limit. split_and!; try done; lia.
Qed.

(** ** Admission *)

Lemma trigger_on i : SelectContextTrigger i = None → ti_Active i = true ∧ ti_Enabled i = true.
Proof.
  unfold SelectContextTrigger. destruct (ti_Active i); [|done]. cbn [negb]. destruct (_ && _); [done|].
  by destruct (ti_Enabled i).
Qed.

Section gates.
Context `{SHA : Sha256}.

(** an admitted cycle is the only unfinished one of its session and of its host and at
    most the sixteenth in all, of an active session whose Enable is on for the same host and
    pane, at the policy in force; its whole credit is promised below the ordinary ceiling in
    the same write, and its deadlines are 15 and 30 minutes away. *)
Theorem admission_spec now k id digest version evidence latched_ probe en st u st' :
  write (mkWrite ordinary false now None (λ _, None)) en (admitTx now k id digest version evidence latched_ probe) st = (Ok u, st') →
  ∃ session h e c, scanSession now k (tables st) = Some session ∧ hosted k (tables st) = Some h ∧ enables (tables st) !! k = Some e ∧
    ss_State session = Active ∧ e_enabled e = true ∧ pinned_host e h = true ∧ (hostless (Family k) = true ∨ launched_host h = true) ∧
    cycles (tables st) !! id = None ∧ cycles (tables st') = <[id := c]> (cycles (tables st)) ∧
    requester c = k ∧ unfinished c = true ∧ c_EnableRevision c = e_revision e ∧ c_Epoch c = Epoch evidence ∧
    c_Mode c = Mode (sessionContextPolicy (Family k) (contextEnableOf k (tables st)) (tables st)) ∧
    c_StageDeadline c = now + cycleReadyWait ∧ c_CycleDeadline c = now + cycleLifetime ∧ c_Credit c = cycleCreditPages ∧
    (∀ id' c', cycles (tables st) !! id' = Some c' → unfinished c' = true →
       requester c' ≠ k ∧ (0 < c_HostStart c → ¬ (c_HostPID c' = c_HostPID c ∧ c_HostStart c' = c_HostStart c))) ∧
    count_where (λ _ c, unfinished c) (cycles (tables st)) < maxActiveCycles ∧
    page_count st' + debtPages (tables st') ≤ maxPages st - reservePages - commitSlack.
Proof.
  intros (s & Hrun & Ht & _ & _ & _ & _ & Hle)%write_Ok. cbn in Hle.
  apply admitTx_Ok in Hrun as (session & h & e & c & Hs & Hh & He & H). cbv zeta in H.
  destruct H as (Htr & Hpin & Hocc & Hcnt & Hn & _ & _ & Hc & Hrow).
  cbn [w_audit w_audited w_at] in *.
  assert (bool_decide (ss_State session = Active) = true ∧ Enabled (contextEnableOf k (tables st)) = true) as [Ha Hon].
  { exact (trigger_on _ Htr). }
  apply bool_decide_eq_true in Ha. apply andb_true_iff in Hpin as [Hp1 Hp2%orb_true_iff].
  unfold contextEnableOf in Hon. cbn in He. rewrite He in Hon. cbn in Hon.
  destruct h as [[[pid start] socket] pane], k as [f i].
  assert (cycles (tables st') = cycles s) as Ecs by (rewrite Ht; unfold writeAudit; cbn; by destruct (pending s)).
  exists session, (pid, start, socket, pane), e, c. split; [exact Hs|]. split; [exact Hh|]. split; [exact He|].
  split; [exact Ha|]. split; [exact Hon|]. split; [exact Hp1|]. split; [exact Hp2|]. split; [exact Hn|]. split; [by rewrite Ecs|].
  assert (requester c = mkKey f i ∧ unfinished c = true ∧ c_EnableRevision c = e_revision e ∧ c_Epoch c = Epoch evidence ∧
    c_Mode c = Mode (sessionContextPolicy f (contextEnableOf (mkKey f i) (tables st)) (tables st)) ∧
    c_StageDeadline c = now + cycleReadyWait ∧ c_CycleDeadline c = now + cycleLifetime ∧ c_Credit c = cycleCreditPages ∧
    c_HostPID c = pid ∧ c_HostStart c = start) as (H1 & H2 & H3 & H4 & H5 & H6 & H7 & H8 & H9 & H10).
  { assert (EnableRevision (contextEnableOf (mkKey f i) (tables st)) = e_revision e) as Er by (unfold contextEnableOf; by rewrite He).
    destruct (seqb _ _) in Hrow; [rewrite Hrow|destruct Hrow as (r & _ & ->)]; rewrite <-Er; repeat split; reflexivity. }
  split_and!; [exact H1|exact H2|exact H3|exact H4|exact H5|exact H6|exact H7|exact H8| |exact Hcnt|lia].
  intros id' c' Hl' Hu'. pose proof (proj1 (exists_where_false _ _) Hocc id' c' Hl') as Ho. unfold occupied in Ho. rewrite Hu' in Ho.
  cbn in Ho. apply orb_false_iff in Ho as [Ho1 Ho2]. apply keqb_false in Ho1. split; [exact Ho1|].
  rewrite H9, H10. intros Hpos [E1 E2]. revert Ho2. rewrite E1, E2, !Z.eqb_refl. destruct (Z.ltb_spec 0 start); [done|lia].
Qed.

(** ** The pickup report *)

Lemma pickupTx_Ok now now_end caller role epoch artifact outcome report_ id c0 s c' s' :
  pickupTx now now_end caller role epoch artifact outcome report_ id c0 s = Ok (c', s') →
  ∃ c s2, cycles s !! id = Some c ∧ acceptsPickupReport c = true ∧ c_Artifact c = artifact ∧ now < c_StageDeadline c ∧ now < c_CycleDeadline c ∧
    cycleEnabled c s = true ∧ (match role with Successor => successorOf now id c caller s | Requester => requesterPinned now c s end) = true ∧
    let done := c <| c_SuccessorID := ID caller |> <| c_SuccessorEpoch := epoch |> <| c_Report := report_ |> in
    c' = ended now_end id done cycleComplete outcome s ∧
    carryEnable now done caller (end_ledger now_end id done cycleComplete outcome s) = Ok (tt, s2) ∧
    s' = s2 <| audit := audit s2 ++ [mkAuditRow now_end "context-cycle" ("cycle " +:+ id +:+ " peer " +:+ c_Peer c) cycleComplete outcome] |>.
Proof.
  unfold pickupTx, read_cycle. intros H. runs H.
  apply negb_true_iff in G0. rewrite !orb_false_iff, !negb_false_iff in G0. destruct G0 as [[[[[G0 Ha%seqb_true] _] _] Hsd] Hcd].
  apply andb_true_iff in G1 as [Hen Hp]. apply endCycleTx_Ok in H as (_ & Hc' & _ & s2 & Hs2 & Hs').
  unfold end_enable in Hs2. change (seqb (end_state id _ cycleComplete s) cycleComplete) with true in Hs2.
  exists v, s2. split_and!; try done; lia.
Qed.

(** only the cycle's own successor, or the requester in its own host, completes a cycle,
    with the handoff file that the cycle holds, while the Enable is on and before the
    deadlines; the completion moves the Enable to the successor with its threshold, and leaves
    the Enable of every other session alone. *)
Theorem pickup_spec now now_end caller role epoch artifact outcome report_ id c0 s c c' s' :
  pickupTx now now_end caller role epoch artifact outcome report_ id c0 s = Ok (c', s') → cycles s !! id = Some c →
  acceptsPickupReport c = true ∧ c_Artifact c = artifact ∧ now < c_StageDeadline c ∧ now < c_CycleDeadline c ∧ cycleEnabled c s = true ∧
  (match role with Successor => successorOf now id c caller s | Requester => requesterPinned now c s end) = true ∧
  c_State c' = cycleComplete ∧ c_SuccessorID c' = ID caller ∧ c_SuccessorEpoch c' = epoch ∧ c_Report c' = report_ ∧ c_Reason c' = outcome ∧
  (ID caller = c_SessionID c → enables s' = enables s) ∧
  (∀ k, k ≠ requester c → k ≠ caller → enables s' !! k = enables s !! k) ∧
  (ID caller ≠ c_SessionID c → Family caller = c_Family c → ∀ r, sessions s !! caller = Some r →
     ∃ e e', enables s !! requester c = Some e ∧ enables s' !! caller = Some e' ∧ e_enabled e' = true ∧ e_threshold e' = e_threshold e ∧
       e_address e' = c_Address c ∧ (e_host_pid e', e_host_start e', e_tmux_pane e') = (s_host_pid r, s_host_start r, s_tmux_pane r) ∧
       enables s' !! requester c = Some (off now e)).
Proof.
  intros (c2 & s2 & Hl & Hacc & Hart & Hsd & Hcd & Hen & Hp & -> & Hs2 & ->)%pickupTx_Ok Hl'. assert (c2 = c) as -> by congruence.
  set (dn := c <| c_SuccessorID := ID caller |> <| c_SuccessorEpoch := epoch |> <| c_Report := report_ |>) in *.
  assert (enables (end_ledger now_end id dn cycleComplete outcome s) = enables s ∧ sessions (end_ledger now_end id dn cycleComplete outcome s) = sessions s) as [E1 E2]
    by (unfold end_ledger; cbn; by destruct (readyTimeoutKeepsEnable _ _ _ _ _)).
  revert Hs2 E1 E2. generalize (end_ledger now_end id dn cycleComplete outcome s) as sl. intros sl Hs2 E1 E2.
  unfold carryEnable, disable in Hs2.
  change (c_SessionID dn) with (c_SessionID c) in Hs2. change (requester dn) with (requester c) in Hs2.
  split_and!; try done; destruct (seqb (ID caller) (c_SessionID c)) eqn:Eid; run Hs2;
    [apply seqb_true in Eid|apply seqb_false in Eid|apply seqb_true in Eid|apply seqb_false in Eid|apply seqb_true in Eid|apply seqb_false in Eid]; try done.
  - intros k H1 H2. cbn. by rewrite E1.
  - intros k H1 H2. rewrite E2 in *. destruct (sessions s !! caller); run R; cbn; rewrite lookup_alter_ne by done; [|by rewrite E1].
    rewrite lookup_insert_ne by done. by rewrite E1.
  - intros _ Hf r Hr. rewrite E2, Hr in R. run R. cbn. unfold cycleEnabled in Hen.
    destruct (enables s !! requester c) as [e|] eqn:Ee; [|done]. apply andb_true_iff in Hen as [Hon _].
    assert (requester c ≠ caller) as Hne by (intros <-; done).
    exists e. eexists. split; [done|]. rewrite lookup_alter_ne, lookup_insert_eq by done. split; [done|].
    rewrite lookup_alter_eq, lookup_insert_ne, E1, Ee by done. cbn. rewrite Hon.
    destruct (enables s !! caller); done.
Qed.

(** A pickup report can be repeated: the same report after its completion reads the
    completed cycle and writes nothing, and another report of that session is refused. *)
Theorem pickup_repeats now now_end caller role epoch artifact outcome report_ id c0 s c c' s' ep ar out rep :
  pickupTx now now_end caller role epoch artifact outcome report_ id c0 s = Ok (c', s') → cycles s !! id = Some c →
  cycles s' !! id = Some c' ∧
  pickupCheck caller ep ar out rep id (c_Revision c) c' s' =
    Some (if bool_decide ((ep, ar, out, rep) = (epoch, artifact, outcome, report_)) then Ok c' else Err ErrCycleChanged).
Proof.
  intros (c2 & s2 & Hl & Hacc & Hart & Hsd & Hcd & Hen & Hp & -> & Hs2 & ->)%pickupTx_Ok Hl'. assert (c2 = c) as -> by congruence.
  set (dn := c <| c_SuccessorID := ID caller |> <| c_SuccessorEpoch := epoch |> <| c_Report := report_ |>) in *. split.
  - assert (cycles s2 = cycles (end_ledger now_end id dn cycleComplete outcome s)) as Hk.
    { refine (keeps_run (Keeps := _ : Keeps cycles _) _ _ _ Hs2). unfold carryEnable, disable. keeps. }
    cbn -[end_ledger ended]. rewrite Hk. unfold end_ledger.
    assert (alter (update_columns (ended now_end id dn cycleComplete outcome s)) id (cycles s) !! id = Some (ended now_end id dn cycleComplete outcome s)) as Ha.
    { rewrite lookup_alter_eq, Hl. apply (f_equal Some). unfold dn. apply update_pickup. }
    by destruct (readyTimeoutKeepsEnable _ _ _ _ _).
  - unfold pickupCheck. set (c' := ended now_end id dn cycleComplete outcome s).
    assert (seqb (c_State c') cycleComplete && ((c_Revision c' =? c_Revision c + 1) || pickupRevision id (c_Revision c)
      (s2 <| audit := audit s2 ++ [mkAuditRow now_end "context-cycle" ("cycle " +:+ id +:+ " peer " +:+ c_Peer c) cycleComplete outcome] |>)) &&
      seqb (c_SuccessorID c') (ID caller) = true) as ->.
    { change (c_State c') with cycleComplete. change (c_Revision c') with (c_Revision c + 1). change (c_SuccessorID c') with (ID caller).
      rewrite Z.eqb_refl. cbn. by apply seqb_true. }
    f_equal. change (c_SuccessorEpoch c') with epoch. change (c_Artifact c') with (c_Artifact c). rewrite Hart.
    change (c_Reason c') with outcome. change (c_Report c') with report_. unfold seqb.
    repeat case_bool_decide; cbn; congruence.
Qed.
End gates.

(** ** Claims *)

Section claims.
Context `{SHA : Sha256}.

(** an admission touches only the running claims of the requesting session in its own
    repository's store, and only later: a claim that would expire within a minute after the
    cycle's deadline expires exactly then, every other one keeps its expiry. *)
Theorem claims_protected now id c repository s u s' key b : protectCycleClaims now id c repository s = Ok (u, s') →
  claim_bundles s !! key = Some b →
  ∃ b', claim_bundles s' !! key = Some b' ∧
    (b' = b ∨
     (b' = b <| b_expires_at := protect_floor c |> ∧ fltb (b_expires_at b) (protect_floor c) = true ∧
      b_active b = true ∧ fltb (fdiv (of_int now) (of_int 1000)) (b_expires_at b) = true ∧
      repository ≠ ""%string ∧ sto_store_id <$> memory_stores s !! repository = Some key.1 ∧
      ∃ c', cycles s !! id = Some c' ∧ cycleClaimMatch c' b = true)).
Proof.
  intros H Hb.
  assert (∀ P : BundleRow → Prop, ∃ b', Some b = Some b' ∧ (b' = b ∨ P b')) as Hsame by (intros P; exists b; auto).
  unfold protectCycleClaims in H. destruct (seqb repository "") eqn:Er; [run H; rewrite Hb; apply Hsame|]. runs H.
  set (store := from_option sto_store_id ""%string (memory_stores s !! repository)) in H.
  destruct (seqb store "") eqn:Es; [run H; rewrite Hb; apply Hsame|]. apply seqb_false in Es.
  assert (sto_store_id <$> memory_stores s !! repository = Some store) as Em by (unfold store in *; by destruct (memory_stores s !! repository)).
  run H. cbn. rewrite lookup_update_where, Hb. cbn.
  destruct (_ && _) eqn:E; [|apply Hsame]. eexists. split; [done|]. right. rewrite !andb_true_iff, seqb_true in E.
  destruct E as [[[[E1 E2] E3] E4] E5]. apply seqb_false in Er. destruct (cycles s !! id) as [c'|] eqn:Ec; [|done].
  split_and!; [done|done|done|done|done|by rewrite E1|]. exists c'. done.
Qed.
End claims.

(** ** Witnesses *)

Definition crossing_input : ContextTriggerInput :=
  mkTrigger true true (defaultContextPolicy "claude") true false crossing 25 "" false.
Lemma trigger_selects_witness : SelectContextTrigger crossing_input = None.
Proof.
  assert (safe_counts crossing_input) as Hs.
  { split; [intros u [= <-]; lia|]. split; [intros l [= <-]; lia|]. vm_compute. split; discriminate. }
  refine (proj2 (trigger_selects crossing_input Hs) _). cbn.
  split_and!; try reflexivity; try discriminate; try lia; try (by left); try (by right).
  exists 80, 100. vm_compute. split_and!; try reflexivity; discriminate.
Defined.

Definition admit_write : Write := mkWrite ordinary false 25 None (λ _, None).
Lemma admission_spec_witness : ∃ st' c, write admit_write (engine_at 1300) admit_h (st_of switched_on) = (Ok tt, st') ∧
  cycles (tables st') !! "c1"%string = Some c ∧ c_CycleDeadline c = 1800025 ∧ c_Credit c = 4411.
Proof.
  destruct (write admit_write (engine_at 1300) admit_h (st_of switched_on)) as [r st'] eqn:E.
  assert (r = Ok tt) as -> by (change r with (r, st').1; rewrite <-E; vm_compute; reflexivity).
  destruct (@admission_spec zero_sum 25 holder_h "c1" "d" "claude-tmux-1" crossing "" probe_ok (engine_at 1300) (st_of switched_on) tt st' E)
    as (_ & _ & _ & c & _ & _ & _ & _ & _ & _ & _ & _ & Hc & _ & _ & _ & _ & _ & _ & Hd & Hcr & _).
  exists st', c. refine (conj eq_refl (conj _ (conj _ _))); [rewrite Hc; apply lookup_insert_eq|rewrite Hd; reflexivity|rewrite Hcr; reflexivity].
Defined.

(** The holder reports its own pickup under its new epoch. *)
Definition pickup_h (c0 : cycleRow) : tx cycleRow :=
  @pickupTx zero_sum 40 40 holder_h Requester "epoch-2" "handoff.md" "resumed" "done" "c1" c0.
Definition row_c1 (s : State) (c : cycleRow) : Prop := cycles s !! "c1"%string = Some c.
Lemma picked_up c : row_c1 was_reset c → ∃ c' s', pickup_h c was_reset = Ok (c', s').
Proof.
  intros Hc. destruct (run_after (pickup_h c) was_reset) as [c' E]; [|eauto]. revert Hc. unfold row_c1. vm_compute (cycles was_reset !! _).
  intros [= <-]. vm_compute. reflexivity.
Qed.
Lemma pickup_spec_witness : ∃ c c' s', row_c1 was_reset c ∧ pickup_h c was_reset = Ok (c', s') ∧ c_State c' = cycleComplete ∧ enables s' = enables was_reset.
Proof.
  destruct (cycles was_reset !! "c1"%string) as [c|] eqn:El; [|vm_compute in El; discriminate].
  destruct (picked_up c El) as (c' & s' & E).
  destruct (@pickup_spec zero_sum 40 40 holder_h Requester "epoch-2" "handoff.md" "resumed" "done" "c1" c was_reset c c' s' E El)
    as (_ & _ & _ & _ & _ & _ & Hst & _ & _ & _ & _ & Hen & _).
  assert (ID holder_h = c_SessionID c) as Hid by (revert El; vm_compute; intros [= <-]; reflexivity).
  exists c, c', s'. refine (conj El (conj E (conj Hst (Hen Hid)))).
Defined.
Lemma pickup_repeats_witness : ∃ c c' s', pickup_h c was_reset = Ok (c', s') ∧
  pickupCheck holder_h "epoch-2" "handoff.md" "resumed" "done" "c1" (c_Revision c) c' s' = Some (Ok c') ∧
  pickupCheck holder_h "epoch-2" "handoff.md" "paused" "done" "c1" (c_Revision c) c' s' = Some (Err ErrCycleChanged).
Proof.
  destruct (cycles was_reset !! "c1"%string) as [c|] eqn:El; [|vm_compute in El; discriminate].
  destruct (picked_up c El) as (c' & s' & E). exists c, c', s'. refine (conj E (conj _ _)).
  - rewrite (proj2 (@pickup_repeats zero_sum 40 40 holder_h Requester "epoch-2" "handoff.md" "resumed" "done" "c1" c was_reset c c' s'
      "epoch-2" "handoff.md" "resumed" "done" E El)). rewrite bool_decide_eq_true_2 by reflexivity. reflexivity.
  - rewrite (proj2 (@pickup_repeats zero_sum 40 40 holder_h Requester "epoch-2" "handoff.md" "resumed" "done" "c1" c was_reset c c' s'
      "epoch-2" "handoff.md" "paused" "done" E El)). rewrite bool_decide_eq_false_2 by discriminate. reflexivity.
Defined.

(** A claim of the holder that would expire before the cycle's end *)
Definition held_claim : BundleRow :=
  mkBundleRow "00000000000000000000000000000001" "claude-x-0c" 1 (of_int 0) (of_int 0) (of_int 600) 1 true true false true "".
Definition claimed : State :=
  reported <| memory_stores := {["/r/x/.git"%string := mkStoreRow "store" 0 0 0 0 7]} |>
           <| claim_bundles := {[("store"%string, 7) := held_claim]} |>.
Definition claim_cycle : cycleRow :=
  match cycles reported !! "c1"%string with
  | Some c => c
  | None => mkCycleRow "" "" "" "" "" "" "" "" "" "" "" 0 0 0 0 0 0 0 0 0 0 0 0 0 0 "" 0 0 0 0 "" "" "" "" "" "" 0 0 0 false "" ""
  end.
Definition protect_c1 : tx unit := @protectCycleClaims zero_sum 30 "c1" claim_cycle "/r/x/.git".
Lemma claims_protected_witness :
  (∃ b', claim_bundles (after protect_c1 claimed) !! ("store"%string, 7) = Some b') ∧
  (b_expires_at <$> claim_bundles (after protect_c1 claimed) !! ("store"%string, 7)) = Some (fadd (fdiv (of_int 1800025) (of_int 1000)) (of_int 60)).
Proof.
  split; [|vm_compute; reflexivity].
  destruct (run_after protect_c1 claimed) as [[] E]; [vm_compute; reflexivity|].
  assert (claim_bundles claimed !! ("store"%string, 7) = Some (held_claim)) as Hb by (vm_compute; reflexivity).
  destruct (@claims_protected zero_sum 30 "c1" claim_cycle "/r/x/.git" claimed tt (after protect_c1 claimed) ("store"%string, 7) _ E Hb) as (b' & Hb' & _).
  exists b'. exact Hb'.
Defined.
