(* ===== verification/Launches.v ===== *)
(** * Launches (internal/core/launch.go)

    The admission of a registration by the launch that it names, the job of a background
    launch, and the valid role names.  Creating a launch checks the launcher's files and is
    not modelled. *)

From S2P Require Import Prelude GoString Schema Sql Label Fixture Storage Names.
Open Scope Z_scope.

(** ** Names of roles and jobs *)

Definition is_lower (a : ascii) : bool := (97 <=? code a) && (code a <=? 122).
Definition is_hyphen (a : ascii) : bool := code a =? 45.

(** [ValidRole]: lower-case letters, digits and hyphens from a letter, and not only
    hexadecimal *)
Definition ValidRole (role : string) : bool :=
  match to_bytes role with
  | a :: r => is_lower a && (Z.of_nat (length r) <=? 23) && forallb (λ a, is_lower a || is_digit a || is_hyphen a) r
  | [] => false
  end && negb (forallb (λ a, is_lower_hex a || is_hyphen a) (to_bytes role)).

(** The groups of a job ID: 8 hexadecimal digits, and then 4, 4, 4 and 12 *)
Definition hex_group (n : nat) (b : bytes) : bool := bool_decide (length b = n) && forallb is_lower_hex b.
Definition ShortJobID (s : string) : bool := hex_group 8 (to_bytes s).
Definition FullJobID (s : string) : bool :=
  let b := to_bytes s in
  let at_ i n := hex_group n (take n (drop i b)) in
  let dash_at i := match b !! i with Some a => is_hyphen a | None => false end in
  bool_decide (length b = 36%nat) && at_ 0%nat 8%nat && dash_at 8%nat && at_ 9%nat 4%nat && dash_at 13%nat && at_ 14%nat 4%nat &&
  dash_at 18%nat && at_ 19%nat 4%nat && dash_at 23%nat && at_ 24%nat 12%nat.

Example job_ids :
  ShortJobID "0a1b2c3d" = true ∧ FullJobID "0a1b2c3d-0000-1111-2222-333344445555" = true ∧ FullJobID "0a1b2c3d-0000-1111-2222-33334444555g" = false ∧
  ValidRole "dev" = true ∧ ValidRole "fade-ad" = false ∧ ValidRole "2x" = false.
Proof. vm_compute. done. Qed.

(** ** The admission of a registration *)

(** The wake target of a registration: the length of its JSON, whether it is valid, whether it
    is empty or [{}], the claude_pid that the strict decoding of a Claude server's report
    gives, and the fields that the lenient decoding of a stored target reads *)
Record RawTarget := mkRawTarget {
  raw_bytes : Z; raw_valid : bool; raw_empty : bool; raw_claude : option Z; raw_target : WakeTarget }.

Record Registration := mkRegistration {
  rg_Family : string; rg_ID : string; rg_Repository : string; rg_Directory : string; rg_WakeTarget : RawTarget; rg_TTLSeconds : Z;
  rg_LaunchID : string; rg_Ancestors : list Z; rg_Subagent : bool; rg_Tmux : option (string * string * string); rg_ToolCall : bool; rg_Clear : bool }.
Definition rg_key (r : Registration) : Key := mkKey (rg_Family r) (rg_ID r).

Definition maxAncestors : nat := 256.

(** A session has registered through the launch. *)
Definition launch_used (family launch : string) (s : State) : bool :=
  exists_where (λ k r, seqb (Family k) family && seqb (wt_launch_id (s_wake_target r)) launch) (sessions s).

(** A background launch admits the session that its job ID names; a foreground launch's host
    is the caller's ancestor, for Claude the Claude process itself. *)
Definition job_admits (job id : string) : bool :=
  (FullJobID job && seqb id job) || (ShortJobID job && FullJobID id && has_prefix id (job +:+ "-")).
Definition host_admits (r : Registration) (claudePID : Z) (target : LaunchTarget) : bool :=
  existsb (Z.eqb (lt_HostPID target)) (rg_Ancestors r) && negb (seqb (rg_Family r) "claude" && negb (claudePID =? lt_HostPID target)).

Definition admitLaunch (r : Registration) (directory : string) : tx (WakeTarget * string) :=
  _ ← ensure (negb ((negb (seqb (rg_LaunchID r) "") && negb (len (rg_LaunchID r) =? 64)) || bool_decide (maxAncestors < length (rg_Ancestors r))%nat)) ErrNotLaunched;
  claudePID ← (if seqb (rg_Family r) "claude"
               then match raw_claude (rg_WakeTarget r) with
                    | Some pid => _ ← ensure (0 <? pid) ErrInvalid; mret pid
                    | None => throw ErrInvalid
                    end
               else _ ← ensure (raw_empty (rg_WakeTarget r)) ErrInvalid; mret 0);
  if seqb (rg_LaunchID r) "" then mret (raw_target (rg_WakeTarget r), ""%string)
  else
    o ← gets (λ s, launches s !! rg_LaunchID r);
    l ← row (o : option LaunchRow) ErrNotLaunched;
    let target := la_target l in
    _ ← ensure (seqb (la_family l) (rg_Family r) && seqb (la_directory l) directory) ErrNotLaunched;
    _ ← when (negb (seqb (lt_SessionID target) "") && negb (seqb (rg_ID r) (lt_SessionID target)))
          (used ← gets (launch_used (rg_Family r) (rg_LaunchID r)); ensure used ErrIdentityUnavailable);
    _ ← (if lt_Background target
         then _ ← ensure (negb (seqb (lt_JobID target) "")) ErrLaunchPending;
              ensure (job_admits (lt_JobID target) (rg_ID r)) ErrNotLaunched
         else ensure (host_admits r claudePID target) ErrNotLaunched);
    mret (mkWakeTarget (rg_LaunchID r) (lt_HostPID target) claudePID "" "", lt_Role target).

(** ** The job of a background launch *)

Definition backgroundLaunch (id : string) : tx LaunchRow :=
  o ← gets (λ s, launches s !! id);
  l ← row (o : option LaunchRow) ErrMissing;
  _ ← ensure (lt_Background (la_target l)) ErrInvalid;
  mret l.

Definition setLaunchJobTx (id job : string) : tx unit :=
  l ← backgroundLaunch id;
  if seqb (lt_JobID (la_target l)) job then mret tt
  else
    _ ← ensure (seqb (lt_JobID (la_target l)) "") ErrConflict;
    modify (λ s, s <| launches := <[id := l <| la_target := (la_target l) <| lt_JobID := job |> |> ]> (launches s) |>).
Definition SetLaunchJob (at_ : Z) (en : Engine) (id job : string) (st : Store) : result error unit * Store :=
  if negb (len id =? 64) || (negb (ShortJobID job) && negb (FullJobID job)) then (Err ErrInvalid, st)
  else write (mkWrite ordinary false at_ None (λ _, None)) en (setLaunchJobTx id job) st.

Definition retireLaunchTx (id : string) : tx unit :=
  l ← backgroundLaunch id;
  _ ← ensure (seqb (lt_JobID (la_target l)) "") ErrConflict;
  modify (λ s, s <| launches := delete id (launches s) |>).
Definition RetireLaunch (at_ : Z) (en : Engine) (id : string) (st : Store) : result error unit * Store :=
  if negb (len id =? 64) then (Err ErrInvalid, st)
  else write (mkWrite control false at_ None (λ _, None)) en (retireLaunchTx id) st.
