(* ===== verification/Succession.v ===== *)
(** * Succession (internal/core/succession.go)

    A session that registers through its own tool call takes its participant from the active
    holder only on evidence from the host records.  The processes of the host are read through
    platform.ProcessStart, the argument [processStart] of Messages; the record of tool calls
    is in memory and is passed as a value. *)

From S2P Require Import Prelude GoString Schema Sql Label Fixture Storage Names Messages Sessions Cycles Launches.
Open Scope Z_scope.

(** ** Tool calls *)

Record toolCalls := mkToolCalls { tc_at : gmap Key Z; tc_since : Z }.

(** [Store.ToolCall]: a full record drops the calls that the guard no longer counts. *)
Definition guard (v : Settings) : Z := GuardSeconds v * 1000.
Definition ToolCall (now guard : Z) (caller : Key) (c : toolCalls) : toolCalls :=
  let at_ := if bool_decide (4096 ≤ size (tc_at c))%nat then filter (λ ka : Key * Z, now - ka.2 < guard) (tc_at c) else tc_at c in
  mkToolCalls (<[caller := now]> at_) (tc_since c).

(** [Store.guardLeft]: a call that is not recorded is at 0. *)
Definition call_left (now guard at_ : Z) (left : Z) : Z :=
  if negb (at_ =? 0) && (left <? guard - (now - at_)) then guard - (now - at_) else left.
Definition guardLeft (guard now : Z) (k : Key) (c : toolCalls) : Z :=
  call_left now guard (tc_since c) (call_left now guard (default 0 (tc_at c !! k)) 0).

(** ** Host records *)

Record host := mkHost { h_pid : Z; h_start : Z; h_socket : string; h_pane : string; h_executable : string }.

Definition hostPID (t : WakeTarget) : Z := if 0 <? wt_claude_pid t then wt_claude_pid t else wt_host_pid t.

Section hosts.
Variable processStart : Z → ProcessStart.

Definition recordHost (pid : Z) (pane : option (string * string * string)) : host :=
  let '(pid, start) := if 0 <? pid then match processStart pid with
                                        | StartedAt t => if 0 <? t then (pid, t) else (0, 0)
                                        | _ => (0, 0)
                                        end
                       else (0, 0) in
  match pane with
  | Some (socket, p, executable) => mkHost pid start socket p executable
  | None => mkHost pid start "" "" ""
  end.

(** [hostEnded]: a process that cannot be read is not proven ended. *)
Definition hostEnded (h : host) : bool :=
  match processStart (h_pid h) with ProcessGone => true | StartedAt t => negb (t =? h_start h) | ProcessUnreadable => false end.

Definition host_of_row (r : SessionRow) : host :=
  mkHost (s_host_pid r) (s_host_start r) (s_tmux_socket r) (s_tmux_pane r) (s_tmux_path r).
Definition hostOf (k : Key) : tx host := o ← gets (λ s, sessions s !! k); r ← row (o : option SessionRow) NoRows; mret (host_of_row r).

Definition same_process (r : SessionRow) (h : host) : bool := (s_host_pid r =? h_pid h) && (s_host_start r =? h_start h).

(** [holdsElsewhere]: another active session of the host holds a participant other than
    [address] *)
Definition holdsElsewhere (now : Z) (k : Key) (h : host) (address : string) (s : State) : bool :=
  negb (h_start h =? 0) &&
  exists_where (λ k' r, seqb (Family k') (Family k) && negb (seqb (ID k') (ID k)) && same_process r h && active_row now r &&
    exists_where (λ a n, bool_decide (n_kind n = Alias) && seqb (n_family n) (Family k') && seqb (n_holder_id n) (ID k') && negb (seqb a address)) (names s))
    (sessions s).
Definition hostHolder (now : Z) (k : Key) : tx bool := h ← hostOf k; gets (holdsElsewhere now k h "").

(** ** The links of a managed cycle *)

Definition deepSeekCycleVersion : string := "dsh-session-1".
Definition cycleReceiptRetry : Z := 1000.

(** The joined conditions that both links share: the holder's unfinished cycle of this
    address, under the Enable that admitted it and before its deadlines, whose successor is
    [k] *)
Definition links (now : Z) (k : Key) (address holder : string) (s : State) (_ : string) (c : cycleRow) : bool :=
  (c_FinishedAt c =? 0) && seqb (c_Family c) (Family k) && seqb (c_Address c) address && seqb (c_SessionID c) holder &&
  seqb (c_SuccessorEpoch c) (ID k) && cycleEnabled c s && (now <? c_StageDeadline c) && (now <? c_CycleDeadline c).

(** [cycleResetLink] *)
Definition reset_stage (c : cycleRow) : bool :=
  one_of (c_State c) [cycleResetVerified; cyclePickupIntent; cycleWaitingPickup] ||
  (one_of (c_State c) [cycleWaitingPrompt; cyclePromptIntent] && one_of (c_PromptFrom c) [cycleResetVerified; cyclePickupIntent; cycleWaitingPickup]).
Definition cycleResetLink (now : Z) (k : Key) (address holder : string) (sh : host) (s : State) : bool :=
  exists_where (λ id c, links now k address holder s id c && (c_HostPID c =? h_pid sh) && (c_HostStart c =? h_start sh) &&
    seqb (c_Socket c) (h_socket sh) && seqb (c_Pane c) (h_pane sh) && reset_stage c) (cycles s).

(** [hostlessCycleLink] *)
Inductive CycleLink := NoLink | PendingLink | Linked.
#[export] Instance CycleLink_eq_dec : EqDecision CycleLink.
Proof. solve_decision. Defined.

Context `{SHA : Sha256}.

Definition hostless_cycle (now : Z) (k : Key) (address holder : string) (s : State) : option (string * cycleRow) :=
  head (select (λ id c, links now k address holder s id c && seqb (c_Adapter c) deepSeekCycleVersion && (c_HostPID c =? 0) &&
    (c_HostStart c =? 0) && seqb (c_Socket c) "" && seqb (c_Pane c) "") (cycles s)).
Definition hostlessCycleLink (now : Z) (k : Key) (address holder : string) (s : State) : CycleLink :=
  match hostless_cycle now k address holder s, sessions s !! k with
  | Some (id, c), Some r =>
      if negb (deepSeekPinTarget (c_AdapterPin c) (s_wake_target r)) then NoLink
      else if negb (hostlessTargets id [mkKey (Family k) holder] s) then NoLink
      else if exists_where (λ a n, bool_decide (n_kind n = Alias) && seqb (n_family n) (Family k) && seqb (n_holder_id n) (ID k) && negb (seqb a address)) (names s)
      then NoLink
      else if seqb (c_State c) cyclePickupIntent then PendingLink
      else if awaitingPickup c then Linked
      else NoLink
  | _, _ => NoLink
  end.

(** ** The Enable of a same-host succession *)

(** The Enable that [carrySameHostEnable] inserts or updates *)
Definition same_host_enable (now : Z) (address : string) (r : SessionRow) (e : EnableRow) (old : option EnableRow) : EnableRow :=
  let kept := e_kept_revision e =? e_revision e in
  match old with
  | None => mkEnableRow true 1 (s_revision r) address (s_host_pid r) (s_host_start r) (s_tmux_socket r) (s_tmux_pane r) now
              (e_threshold e) (e_kept_epoch e) (if kept then 1 else 0) (e_kept_read e)
  | Some e0 =>
      mkEnableRow true (e_revision e0 + 1) (s_revision r) address (s_host_pid r) (s_host_start r) (s_tmux_socket r) (s_tmux_pane r) now
        (e_threshold e) (e_kept_epoch e) (if kept then e_revision e0 + 1 else 0) (e_kept_read e)
  end.
(** The former holder's Enable is on for the address and still pinned to its host and pane. *)
Definition carries (address : string) (old : SessionRow) (e : EnableRow) : bool :=
  e_enabled e && seqb (e_address e) address && (e_host_pid e =? s_host_pid old) && (e_host_start e =? s_host_start old) &&
  seqb (e_tmux_socket e) (s_tmux_socket old) && seqb (e_tmux_pane e) (s_tmux_pane old).
Definition carrySameHostEnable (now : Z) (k : Key) (address former : string) : tx unit :=
  let fk := mkKey (Family k) former in
  found ← gets (λ s, r ← sessions s !! k; old ← sessions s !! fk; e ← enables s !! fk;
                     if carries address old e then Some (r, e) else None);
  match (found : option (SessionRow * EnableRow)) with
  | Some (r, e) =>
      _ ← modify (λ s, s <| enables := <[k := same_host_enable now address r e (enables s !! k)]> (enables s) |>);
      disable now fk
  | None => mret tt
  end.

(** ** The decision *)

Inductive verdict := Evidence (evidence : string) | Refused (reason : string) (retry : Z).
#[export] Instance verdict_eq_dec : EqDecision verdict.
Proof. solve_decision. Defined.

Definition sameHost (sh hh : host) : bool := negb (h_start sh =? 0) && (h_pid sh =? h_pid hh) && (h_start sh =? h_start hh).
Definition samePane (sh hh : host) : bool := negb (seqb (h_pane sh) "") && seqb (h_socket sh) (h_socket hh) && seqb (h_pane sh) (h_pane hh).

(** The switch of [succeed]: [left] is what the guard leaves of the holder's last call. *)
Definition judge (isfenced subagent : bool) (session : CycleLink) (sh hh : host) (other link clear : bool) (left : Z) : verdict :=
  if isfenced then Refused "fenced" 0
  else if subagent then Refused "subagent" 0
  else if bool_decide (session = Linked) then Evidence "cycle_session"
  else if bool_decide (session = PendingLink) then Refused "cycle_receipt_pending" cycleReceiptRetry
  else if (h_start sh =? 0) || (h_start hh =? 0) then Refused "no_host" 0
  else if other then Refused "other_participant" 0
  else if link then Evidence "cycle_reset"
  else if sameHost sh hh && clear then Evidence "host_cleared"
  else if sameHost sh hh then if 0 <? left then Refused "holder_active" left else Evidence "same_host"
  else if samePane sh hh then if hostEnded hh then Evidence "same_pane" else Refused "host_running" 0
  else Refused "other_pane" 0.

(** The details of a participant event: a JSON object with its keys in order *)
Definition member (name value : string) : string := json_string name +:+ ":" +:+ value.
Definition details (candidate : string) (v : verdict) (sh : host) : string :=
  "{" +:+ String.concat ","
    [member "candidate" (json_string candidate);
     member "evidence" (json_string (match v with Evidence e => e | Refused _ _ => "" end));
     member "host_pid" (itoa (h_pid sh));
     member "pane" (json_string (h_pane sh));
     member "refused" (json_string (match v with Evidence _ => "" | Refused r _ => r end))] +:+ "}".

(** The link of the holder's cycle is read only when nothing before it decides. *)
Definition reset_link (now : Z) (k : Key) (address holder : string) (isfenced subagent other : bool) (sh hh : host) (s : State) : bool :=
  negb isfenced && negb subagent && negb (h_start sh =? 0) && negb (h_start hh =? 0) && negb other && sameHost sh hh && samePane sh hh &&
  cycleResetLink now k address holder sh s.
Definition session_link (now : Z) (k : Key) (address holder : string) (isfenced subagent : bool) (sh hh : host) (s : State) : CycleLink :=
  if seqb (Family k) "deepseek" && negb isfenced && negb subagent && (h_start sh =? 0) && (h_start hh =? 0)
  then hostlessCycleLink now k address holder s else NoLink.
Definition judge_in (now guard : Z) (calls : toolCalls) (k : Key) (address holder : string) (subagent clear : bool) (sh hh : host) (s : State) : verdict :=
  let isfenced := fenced address k s in
  let other := holdsElsewhere now k sh address s in
  judge isfenced subagent (session_link now k address holder isfenced subagent sh hh s) sh hh other
    (reset_link now k address holder isfenced subagent other sh hh s) clear (guardLeft guard now (mkKey (Family k) holder) calls).

(** A repeated refusal for the same reason and holder *)
Definition repeated (stored : option Succession) (r : Succession) : bool :=
  match stored with
  | Some l => seqb (suc_Result l) (suc_Result r) && seqb (suc_Reason l) (suc_Reason r) && seqb (suc_Address l) (suc_Address r) && seqb (suc_Holder l) (suc_Holder r)
  | None => false
  end.

(** The pane of the former holder, for a thread that its host's clear started *)
Definition keep_pane (k : Key) (hh : host) : tx unit :=
  update_session k (λ r, r <| s_tmux_socket := h_socket hh |> <| s_tmux_pane := h_pane hh |> <| s_tmux_path := h_executable hh |>).

(** The active holder of the participant, when it is another session *)
Definition other_holder (now : Z) (k : Key) (repository role : string) (s : State) : option (string * string) :=
  if seqb repository "" then None
  else address ← address_of (Family k) repository role s;
       n ← names s !! address;
       let holder := n_holder_id n in
       if seqb holder "" || seqb holder (ID k) then None
       else if holds now (Family k) holder repository role s then Some (address, holder) else None.

Definition succeed (now guard : Z) (calls : toolCalls) (k : Key) (repository role : string) (subagent clear : bool) : tx (option Succession) :=
  held ← gets (other_holder now k repository role);
  match (held : option (string * string)) with
  | None => mret None
  | Some (address, holder) =>
      sh ← hostOf k;
      hh ← hostOf (mkKey (Family k) holder);
      v ← gets (judge_in now guard calls k address holder subagent clear sh hh);
      _ ← when (bool_decide (v = Evidence "host_cleared") && seqb (h_pane sh) "" && negb (seqb (h_pane hh) "")) (keep_pane k hh);
      holderName ← gets (peerOf (Family k) holder);
      candidate ← gets (peerOf (Family k) (ID k));
      let text := details candidate v sh in
      match v with
      | Evidence e =>
          _ ← when (seqb e "same_host" && samePane sh hh && negb (seqb (h_socket sh) "")) (carrySameHostEnable now k address holder);
          _ ← setHolder now address holder (ID k) e "session" text;
          mret (Some (mkSuccession "succeeded" e address holderName now 0))
      | Refused reason retry =>
          let result := mkSuccession "refused" reason address holderName now retry in
          o ← gets (λ s, sessions s !! k);
          r ← row (o : option SessionRow) NoRows;
          _ ← when (negb (repeated (s_succession r) result)) (participantEvent now address "" holderName "succession_refused" "session" text);
          mret (Some result)
      end
  end.
End hosts.
