(* ===== verification/SuccessionProps.v ===== *)
(** * Properties of a succession

    A session takes a participant from its active holder only on evidence, a refusal changes
    nothing but its record, and the record of tool calls keeps every call that the guard
    counts. *)

From S2P Require Import Prelude GoString Schema Sql Label Fixture Storage Names Messages Sessions Cycles Launches Succession.
Open Scope Z_scope.

(** ** The guard *)

Lemma call_left_spec now guard at_ lft : 0 ≤ lft →
  call_left now guard at_ lft = if at_ =? 0 then lft else Z.max lft (guard - (now - at_)).
Proof. intros Hl. unfold call_left. destruct (at_ =? 0); cbn; [done|]. destruct (Z.ltb_spec lft (guard - (now - at_))); lia. Qed.

Lemma guardLeft_spec guard now k c :
  guardLeft guard now k c =
    let lft := if default 0 (tc_at c !! k) =? 0 then 0 else Z.max 0 (guard - (now - default 0 (tc_at c !! k))) in
    if tc_since c =? 0 then lft else Z.max lft (guard - (now - tc_since c)).
Proof. unfold guardLeft. rewrite (call_left_spec _ _ _ 0), call_left_spec; [done| |]; repeat case_match; lia. Qed.

(** What the guard leaves is 0 exactly when every known call, the daemon's start among them,
    is at least the guard old. *)
Lemma guardLeft_zero guard now k c : guardLeft guard now k c ≤ 0 →
  ∀ t, tc_at c !! k = Some t ∨ t = tc_since c → t ≠ 0 → t + guard ≤ now.
Proof.
  rewrite guardLeft_spec. cbn. intros Hg t [E| ->] Hne.
  - rewrite E in Hg. cbn in Hg. destruct (Z.eqb_spec t 0); [done|]. destruct (_ =? 0); lia.
  - destruct (Z.eqb_spec (tc_since c) 0); [done|]. lia.
Qed.

(** the record of tool calls never forgets a call that the guard still counts: recording
    a call changes what the guard leaves of no other session, now or later, and gives its own
    caller the full guard, even when a full record drops its old calls. *)
Theorem guard_kept now guard caller c k now' : now ≤ now' → now ≠ 0 →
  (k ≠ caller → guardLeft guard now' k (ToolCall now guard caller c) = guardLeft guard now' k c) ∧
  guard - (now' - now) ≤ guardLeft guard now' caller (ToolCall now guard caller c).
Proof.
  intros Hle Hnow. split.
  - intros Hk. rewrite !guardLeft_spec. unfold ToolCall. cbn. rewrite lookup_insert_ne by done.
    destruct (bool_decide _); [|done].
    destruct (tc_at c !! k) as [t|] eqn:E; cbn.
    + destruct (decide (now - t < guard)).
      * rewrite (map_lookup_filter_Some_2 _ _ _ t) by (done || (cbn; lia)). done.
      * rewrite (proj2 (map_lookup_filter_None _ _ _)) by (right; intros x Hx; cbn; rewrite E in Hx; injection Hx as <-; lia). cbn.
        destruct (Z.eqb_spec t 0); [done|]. by replace (Z.max 0 (guard - (now' - t))) with 0 by lia.
    + rewrite (proj2 (map_lookup_filter_None _ _ _)) by (by left). done.
  - rewrite guardLeft_spec. unfold ToolCall. cbn. rewrite lookup_insert_eq. cbn.
    destruct (Z.eqb_spec now 0); [done|]. destruct (_ =? 0); lia.
Qed.

(** ** The evidence *)

Section evidence.
Context `{SHA : Sha256}.
Variable processStart : Z → ProcessStart.

(** What proves that [k] may take [address] from [holder], for each evidence *)
Inductive proven (now guard : Z) (calls : toolCalls) (k : Key) (address holder : string) (clear : bool) (sh hh : host) (s : State) : string → Prop :=
| proven_session id c : Family k = "deepseek"%string → cycles s !! id = Some c → links now k address holder s id c = true → awaitingPickup c = true →
    proven now guard calls k address holder clear sh hh s "cycle_session"
| proven_reset id c : sameHost sh hh = true → samePane sh hh = true → cycles s !! id = Some c → links now k address holder s id c = true → reset_stage c = true →
    proven now guard calls k address holder clear sh hh s "cycle_reset"
| proven_clear : sameHost sh hh = true → clear = true → proven now guard calls k address holder clear sh hh s "host_cleared"
| proven_host : sameHost sh hh = true →
    (∀ t, tc_at calls !! mkKey (Family k) holder = Some t ∨ t = tc_since calls → t ≠ 0 → t + guard ≤ now) →
    proven now guard calls k address holder clear sh hh s "same_host"
| proven_pane : samePane sh hh = true → hostEnded processStart hh = true → proven now guard calls k address holder clear sh hh s "same_pane".

Lemma hostlessCycleLink_linked now k address holder s : hostlessCycleLink now k address holder s = Linked →
  ∃ id c, cycles s !! id = Some c ∧ links now k address holder s id c = true ∧ awaitingPickup c = true.
Proof.
  unfold hostlessCycleLink, hostless_cycle. destruct (head _) as [[id c]|] eqn:E; [|done].
  apply head_Some_elem_of, elem_of_select in E as [Hl HP]. rewrite !andb_true_iff in HP.
  destruct (sessions s !! k); [|done]. repeat case_match; try done. intros _. exists id, c. naive_solver.
Qed.

Lemma cycleResetLink_true now k address holder sh s : cycleResetLink now k address holder sh s = true →
  ∃ id c, cycles s !! id = Some c ∧ links now k address holder s id c = true ∧ reset_stage c = true.
Proof. intros (id & c & Hl & HP)%exists_where_true. rewrite !andb_true_iff in HP. exists id, c. naive_solver. Qed.

Lemma judge_evidence now guard calls k address holder subagent clear sh hh s e :
  judge_in processStart now guard calls k address holder subagent clear sh hh s = Evidence e →
  fenced address k s = false ∧ subagent = false ∧ proven now guard calls k address holder clear sh hh s e.
Proof.
  unfold judge_in, judge. destruct (fenced address k s) eqn:Ef; [done|]. destruct subagent; [done|].
  destruct (bool_decide (_ = Linked)) eqn:El.
  { intros [= <-]. split_and!; [done..|]. apply bool_decide_eq_true in El. unfold session_link in El.
    destruct (_ && _) eqn:E in El; [|done]. rewrite !andb_true_iff, seqb_true in E.
    apply hostlessCycleLink_linked in El as (id & c & ? & ? & ?). destruct E as [[[[E _] _] _] _]. eapply proven_session; done. }
  destruct (bool_decide (_ = PendingLink)); [done|]. destruct ((h_start sh =? 0) || (h_start hh =? 0)); [done|].
  destruct (holdsElsewhere _ _ _ _ _); [done|].
  destruct (reset_link _ _ _ _ _ _ _ _ _ _) eqn:Er.
  { intros [= <-]. split_and!; [done..|]. unfold reset_link in Er. rewrite !andb_true_iff in Er.
    destruct Er as ((? & Hp) & Hc). apply cycleResetLink_true in Hc as (id & c & ? & ? & ?).
    eapply proven_reset; try done; tauto. }
  destruct (sameHost sh hh) eqn:Eh; cbn.
  - destruct clear; cbn; [intros [= <-]; split_and!; [done..|]; by apply proven_clear|].
    destruct (Z.ltb_spec 0 (guardLeft guard now (mkKey (Family k) holder) calls)); [done|].
    intros [= <-]. split_and!; [done..|]. apply proven_host; [done|]. by apply guardLeft_zero.
  - destruct (samePane sh hh) eqn:Ep; cbn; [|done]. destruct (hostEnded processStart hh) eqn:Ee; [|done].
    intros [= <-]. split_and!; [done..|]. by apply proven_pane.
Qed.

(** ** The succession *)

Lemma other_holder_Some now k repository role s address holder : other_holder now k repository role s = Some (address, holder) →
  ∃ n, names s !! address = Some n ∧ n_kind n = Alias ∧ n_family n = Family k ∧ n_holder_id n = holder ∧ holder ≠ ""%string ∧ holder ≠ ID k.
Proof.
  unfold other_holder. destruct (seqb repository ""); [done|].
  destruct (address_of (Family k) repository role s) as [a|] eqn:Ea; cbn; [|done].
  apply address_of_Some in Ea as (n & Hn & Hk & Hf & _). rewrite Hn. cbn.
  destruct (seqb (n_holder_id n) "" || seqb (n_holder_id n) (ID k)) eqn:E; [done|].
  apply orb_false_iff in E as [E1%seqb_false E2%seqb_false].
  destruct (holds _ _ _ _ _ _); [|done]. intros [= <- <-]. by exists n.
Qed.

Lemma hostOf_Ok k s h s' : hostOf k s = Ok (h, s') → ∃ r, sessions s !! k = Some r ∧ h = host_of_row r ∧ s' = s.
Proof. unfold hostOf. intros H. run H. eauto. Qed.

(** The steps before the holder changes write only the successor's pane and the Enables. *)
Lemma keep_pane_keeps {B} (f : State → B) k hh : (∀ s g, f (upd sessions g s) = f s) → Keeps f (keep_pane k hh).
Proof. intros Hf. apply keeps_modify. intros. apply Hf. Qed.
Lemma carry_keeps {B} (f : State → B) now k address former : (∀ s g, f (upd enables g s) = f s) → Keeps f (carrySameHostEnable now k address former).
Proof.
  intros Hf. unfold carrySameHostEnable, disable. apply keeps_bind; [apply keeps_gets|]. intros [[r e]|]; [|apply keeps_ret].
  apply keeps_bind; intros; (apply keeps_modify; intros; repeat case_match; try apply Hf; reflexivity).
Qed.

(** A successful succession, taken apart: its evidence, and the state in which the holder
    changes. *)
Lemma succeed_taken now guard calls k repository role subagent clear s r s' :
  succeed processStart now guard calls k repository role subagent clear s = Ok (Some r, s') → suc_Result r = "succeeded"%string →
  ∃ address holder sr hr s0 text,
    other_holder now k repository role s = Some (address, holder) ∧ suc_Address r = address ∧
    sessions s !! k = Some sr ∧ sessions s !! mkKey (Family k) holder = Some hr ∧
    judge_in processStart now guard calls k address holder subagent clear (host_of_row sr) (host_of_row hr) s = Evidence (suc_Reason r) ∧
    names s0 = names s ∧ fences s0 = fences s ∧ setHolder now address holder (ID k) (suc_Reason r) "session" text s0 = Ok (tt, s').
Proof.
  unfold succeed. intros H Hr. run H. destruct (other_holder now k repository role s) as [[address holder]|] eqn:Eo; [|by run H].
  apply bind_Ok in H as (sh & s1 & (sr & Hsr & -> & ->)%hostOf_Ok & H).
  apply bind_Ok in H as (hh & s1 & (hr & Hhr & -> & ->)%hostOf_Ok & H). run H.
  destruct (judge_in _ _ _ _ _ _ _ _ _ _ _ _) as [e|reason retry] eqn:Ej.
  - run H. exists address, holder, sr, hr, s1. eexists. cbn in *.
    split_and!; try done.
    + eapply (keeps_when names) in R; [|by apply keep_pane_keeps]. eapply (keeps_when names) in R0; [|by apply carry_keeps]. congruence.
    + eapply (keeps_when fences) in R; [|by apply keep_pane_keeps]. eapply (keeps_when fences) in R0; [|by apply carry_keeps]. congruence.
    + by destruct a1.
  - run H. done.
Qed.

(** C36: a session takes a participant from its active holder only on evidence.  A succession
    succeeds only for a session that is not fenced and no sub-agent, and only on one of five
    proofs: the cycle of the holder names it as its successor, the holder's host is its own and
    reported a clear or heard no tool call of the holder for the guard, or it shows the
    holder's pane whose process has ended.  Then the address is its own, every other name record
    is unchanged, and the former holder is fenced and inactive from then on. *)
Theorem succeed_evidence now guard calls k repository role subagent clear s r s' :
  0 < now → holders_native s →
  succeed processStart now guard calls k repository role subagent clear s = Ok (Some r, s') → suc_Result r = "succeeded"%string →
  ∃ holder n sr hr, let address := suc_Address r in let former := mkKey (Family k) holder in
    names s !! address = Some n ∧ n_holder_id n = holder ∧ holder ≠ ID k ∧ sessions s !! k = Some sr ∧ sessions s !! former = Some hr ∧
    fenced address k s = false ∧ subagent = false ∧
    proven now guard calls k address holder clear (host_of_row sr) (host_of_row hr) s (suc_Reason r) ∧
    names s' = <[address := n <| n_holder_id := ID k |> <| n_conflict := [] |> ]> (names s) ∧
    fenced address former s' = true ∧
    ∀ now' r', now ≤ now' → sessions s' !! former = Some r' → active_row now' r' = false.
Proof.
  intros Hnow Hp H Hr. apply succeed_taken in H as (address & holder & sr & hr & s0 & text & Ho & <- & Hsr & Hhr & Hj & Hn0 & Hf0 & Hset); [|done].
  apply other_holder_Some in Ho as (n & Hn & Hk & Hf & Hh & Hne & Hne').
  apply judge_evidence in Hj as (Hfe & Hsub & Hpr). exists holder, n, sr, hr. cbn.
  pose proof Hset as Hset2. apply setHolder_names in Hset2 as (n' & Hn' & Hnames). rewrite Hn0, Hn in Hn'. injection Hn' as <-.
  eapply setHolder_change in Hset as (Hs & Hfs & _); [|done|by rewrite Hn0]. rewrite Hf, (proj2 (seqb_false holder "") Hne) in *.
  assert (holder ≠ participantKey (suc_Address r)) as Hpk.
  { intros ->. specialize (Hp _ _ Hn). rewrite Hh in Hp. unfold isParticipantID, participantKey, has_prefix in Hp. by rewrite prefix_app in Hp. }
  split_and!; try done.
  - by rewrite Hnames, Hn0.
  - unfold fenced. rewrite Hfs, lookup_insert_eq. by apply bool_decide_eq_true.
  - intros now' r' Hle. rewrite Hs, lookup_alter_ne by congruence. rewrite lookup_alter_eq.
    intros (r0 & _ & ->)%fmap_Some. by apply retired_row.
Qed.

(** a refused succession changes nothing: the holder keeps its participant and only one
    participant event is recorded, and none when the session's last succession was the same
    refusal.  A refusal that waits for the holder's guard names a wait after which, unless the
    holder calls a tool, the guard refuses no more. *)
Theorem succeed_refuses now guard calls k repository role subagent clear s r s' :
  succeed processStart now guard calls k repository role subagent clear s = Ok (Some r, s') → suc_Result r ≠ "succeeded"%string →
  ∃ row, sessions s !! k = Some row ∧ suc_Result r = "refused"%string ∧
    (if repeated (s_succession row) r then s' = s
     else ∃ e, pe_reason e = "succession_refused"%string ∧ pe_address e = suc_Address r ∧ pe_holder e = suc_Holder r ∧
       s' = s <| participant_events := participant_events s ++ [e] |>) ∧
    (suc_Reason r = "holder_active"%string → 0 < suc_RetryAfterMS r ∧ ∃ n, names s !! suc_Address r = Some n ∧
       ∀ later, now + suc_RetryAfterMS r ≤ later → guardLeft guard later (mkKey (Family k) (n_holder_id n)) calls ≤ 0).
Proof.
  unfold succeed. intros H Hr. run H. destruct (other_holder now k repository role s) as [[address holder]|] eqn:Eo; [|by run H].
  apply bind_Ok in H as (sh & s1 & (sr & Hsr & -> & ->)%hostOf_Ok & H).
  apply bind_Ok in H as (hh & s1 & (hr & Hhr & -> & ->)%hostOf_Ok & H). run H.
  destruct (judge_in _ _ _ _ _ _ _ _ _ _ _ _) as [e|reason retry] eqn:Ej; [by run H|].
  rewrite (bool_decide_eq_false_2 (Refused reason retry = _)) in R by done. cbn in R. run R. run H.
  rewrite Hsr in L. injection L as <-. exists sr. split_and!; [done|done| |].
  - cbn in *. destruct (repeated _ _); cbn in R; [by run R|unfold participantEvent in R; run R]. eexists. by refine (conj _ (conj _ (conj _ eq_refl))).
  - cbn. intros ->. apply other_holder_Some in Eo as (n & Hn & _ & _ & <- & _).
    unfold judge_in, judge in Ej. repeat (case_match; [done|]). case_match; [|by repeat case_match].
    case_match; [|done]. injection Ej as <-. split; [lia|]. exists n. split; [done|]. intros later. rewrite !guardLeft_spec. cbn.
    repeat case_match; lia.
Qed.
End evidence.

(** ** Witnesses *)

(** A session in the host of [holder_h], which the daemon heard last at 10 *)
Definition successor_n : Key := mkKey "claude" "n".
Definition two_in_host : State := small_state <| sessions := <[successor_n := plain_row "/r/x/.git" "dev" "launch-1"]> (sessions small_state) |>.
Definition heard_at (at_ : Z) : toolCalls := mkToolCalls {[holder_h := at_]} 0.
Definition no_process (_ : Z) : ProcessStart := ProcessGone.
Definition take_over (now : Z) : tx (option Succession) :=
  @succeed no_process zero_sum now 1000 (heard_at 10) successor_n "/r/x/.git" "dev" false false.

Lemma guard_kept_witness : guardLeft 30000 60 holder_h (ToolCall 50 30000 successor_n (heard_at 10)) = 29950.
Proof.
  destruct (guard_kept 50 30000 successor_n (heard_at 10) holder_h 60 ltac:(lia) ltac:(lia)) as [H _].
  rewrite (H ltac:(discriminate)). vm_compute. reflexivity.
Defined.

Lemma no_inbox_holds : holders_native two_in_host.
Proof.
  assert (forallb (λ an, negb (isParticipantID (n_holder_id an.2))) (map_to_list (names two_in_host)) = true) as H by (vm_compute; reflexivity).
  intros a n Hl. exact (proj1 (negb_true_iff _) (all_rows (λ _ n, negb (isParticipantID (n_holder_id n))) (names two_in_host) H a n Hl)).
Qed.
Lemma succeed_evidence_witness : ∃ n, names (after (take_over 2010) two_in_host) !! "claude-x-dev"%string = Some n ∧ n_holder_id n = "n"%string ∧
  fenced "claude-x-dev" holder_h (after (take_over 2010) two_in_host) = true.
Proof.
  destruct (run_after (take_over 2010) two_in_host) as [o E]; [vm_compute; reflexivity|].
  assert (o = Some (mkSuccession "succeeded" "same_host" "claude-x-dev" "claude-x-0c" 2010 0)) as ->.
  { cut (match take_over 2010 two_in_host with Ok (a, _) => a = Some (mkSuccession "succeeded" "same_host" "claude-x-dev" "claude-x-0c" 2010 0) | Err _ => False end);
      [rewrite E; exact id|vm_compute; reflexivity]. }
  destruct (@succeed_evidence zero_sum no_process 2010 1000 (heard_at 10) successor_n "/r/x/.git" "dev" false false two_in_host _ _
    ltac:(lia) no_inbox_holds E eq_refl) as (holder & n & sr & hr & Hn & Hh & _ & _ & _ & _ & _ & _ & Hnames & Hf & _).
  cbn [suc_Address] in Hn, Hnames, Hf.
  assert (n_holder_id <$> names two_in_host !! "claude-x-dev"%string = Some "h"%string) as Hd by (vm_compute; reflexivity).
  rewrite Hn in Hd. injection Hd as Hd. rewrite Hh in Hd. rewrite Hd in Hf.
  eexists. rewrite Hnames, lookup_insert_eq. split; [reflexivity|]. split; [reflexivity|exact Hf].
Defined.

Lemma succeed_refuses_witness : ∃ e, participant_events (after (take_over 510) two_in_host) = [e] ∧ pe_reason e = "succession_refused"%string.
Proof.
  destruct (run_after (take_over 510) two_in_host) as [o E]; [vm_compute; reflexivity|].
  assert (o = Some (mkSuccession "refused" "holder_active" "claude-x-dev" "claude-x-0c" 510 500)) as ->.
  { cut (match take_over 510 two_in_host with Ok (a, _) => a = Some (mkSuccession "refused" "holder_active" "claude-x-dev" "claude-x-0c" 510 500) | Err _ => False end);
      [rewrite E; exact id|vm_compute; reflexivity]. }
  destruct (@succeed_refuses zero_sum no_process 510 1000 (heard_at 10) successor_n "/r/x/.git" "dev" false false two_in_host _ _ E
    ltac:(discriminate)) as (row & Hrow & _ & He & _).
  assert (s_succession <$> sessions two_in_host !! successor_n = Some None) as Hd by (vm_compute; reflexivity).
  rewrite Hrow in Hd. injection Hd as Hs.
  rewrite Hs in He. destruct He as (e & He1 & _ & _ & He2). exists e. rewrite He2. split; [reflexivity|exact He1].
Defined.
