(* ===== verification/Registrations.v ===== *)
(** * Registrations (internal/core/store.go, internal/core/liveness.go)

    Register, the renewal and the retirement of a session, and the sweep that keeps the
    sessions whose host process still runs.  The file system, Git and the process table are
    not part of the repository: a resolved directory, a discovered repository and a process's
    start time are arguments. *)

From S2P Require Import Prelude GoString Schema Sql Label Fixture Storage Names Messages Sessions Cycles Launches Succession.
Open Scope Z_scope.

(** ** Validation *)

Definition control_byte (a : ascii) : bool := (code a <? 32) || (code a =? 127).
Definition is_abs (path : string) : bool := has_prefix path "/".
(** platform.CleanAbsolutePath *)
Definition CleanAbsolutePath (path : string) : bool :=
  is_abs path && bool_decide (clean (to_bytes path) = to_bytes path) && (len path <=? 4096) && negb (existsb control_byte (to_bytes path)).

(** [TmuxPane.valid] *)
Definition pane_id (s : string) : bool :=
  match to_bytes s with
  | a :: digits => bool_decide (a = "%"%char) && bool_decide (1 ≤ length digits ≤ 9)%nat && forallb is_digit digits
  | [] => false
  end.
Definition pane_valid (pane : option (string * string * string)) : bool :=
  match pane with
  | None => true
  | Some (socket, p, executable) => pane_id p && CleanAbsolutePath socket && (seqb executable "" || CleanAbsolutePath executable)
  end.

Definition line_chars : list ascii := [nul; chr 13; chr 10].
Definition path_text (path : string) : bool := (len path <=? 4096) && negb (contains_any path line_chars).

Definition register_valid (r : Registration) : bool :=
  validKey (rg_Family r) (rg_ID r) && (raw_bytes (rg_WakeTarget r) <=? 8192) && pane_valid (rg_Tmux r) &&
  negb (rg_Clear r && (negb (rg_ToolCall r) || negb (seqb (rg_Family r) "codex"))).

(** What the file system answers: the directory with its links resolved, and whether it is a
    directory *)
Record Directory := mkDirectory { d_path : string; d_is_dir : bool }.

(** [repository]: the common Git directory of a path *)
Definition repository (discover : string → result error string) (path : string) : result error string :=
  if is_abs path && path_text path then discover path else Err ErrInvalid.

(** The checks of [Register] before its transaction, in their order: the lifetime, the directory and the
    common Git directory *)
Definition register_checks (v : Settings) (resolved : option Directory) (discover : string → result error string) (r : Registration) :
    result error (Z * string * string) :=
  if negb (register_valid r) then Err ErrInvalid
  else match ttl v (rg_TTLSeconds r), resolved with
       | Some duration, Some d =>
           if negb (is_abs (rg_Directory r) && d_is_dir d && path_text (d_path d)) then Err ErrInvalid
           else
             match (if seqb (rg_Repository r) "" then Ok ""%string
                    else match repository discover (rg_Repository r) with
                         | Err e => Err e
                         | Ok common => match repository discover (d_path d) with
                                        | Err e => Err e
                                        | Ok of_dir => if seqb common of_dir then Ok common else Err ErrInvalid
                                        end
                         end) with
             | Err e => Err e
             | Ok common => if raw_valid (rg_WakeTarget r) then Ok (duration, d_path d, common) else Err ErrInvalid
             end
       | _, _ => Err ErrInvalid
       end.

(** ** Registration *)

Section registration.
Context `{SHA : Sha256}.
Variable processStart : Z → ProcessStart.

(** DeepSeek keeps command registration: no launch and no sub-agent. *)
Definition admit_launch (r : Registration) (directory : string) : tx (WakeTarget * string) :=
  if seqb (rg_Family r) "deepseek"
  then _ ← ensure (seqb (rg_LaunchID r) "" && negb (rg_Subagent r)) ErrInvalid; mret (raw_target (rg_WakeTarget r), ""%string)
  else admitLaunch r directory.

(** The INSERT with its ON CONFLICT: a session keeps its inbox, its cursors and its
    registration time, and stays a sub-agent. *)
Definition upsert (now duration : Z) (r : Registration) (common directory : string) (target : WakeTarget) (role : string) (h : host)
    (old : option SessionRow) : SessionRow :=
  match old with
  | None => mkSessionRow common directory target now now (now + duration) 0 0 1 0 0 "" 0 0 0 (rg_Subagent r) role
              (h_pid h) (h_start h) (h_socket h) (h_pane h) (h_executable h) None
  | Some o => mkSessionRow common directory target (s_registered_at o) now (now + duration) 0 (s_purge_at o) (s_revision o + 1)
                (s_last_seq o) (s_acked_through o) (s_acked_by o) (s_ack_mark o) (s_ack_mark_at o) (s_read_through o) (s_subagent o || rg_Subagent r) role
                (h_pid h) (h_start h) (h_socket h) (h_pane h) (h_executable h) (s_succession o)
  end.

(** A session's view, with whether another session holds its host *)
Definition viewed (now : Z) (k : Key) (at_host : bool) (s : State) : option Session :=
  (λ v, mkSession (ss_Key v) (ss_Repository v) (ss_Directory v) (ss_WakeTarget v) (ss_RegisteredAt v) (ss_RenewedAt v) (ss_ExpiresAt v)
     (ss_RetiredAt v) (ss_PurgeAt v) (ss_Revision v) (ss_State v) (ss_Name v) (ss_Alias v) (ss_Subagent v) (ss_Role v) (ss_Address v)
     (ss_HoldsAddress v) (ss_Conflict v) (ss_Fenced v) (ss_Succession v) at_host (ss_Liveness v)) <$> scanSession now k s.

Definition takes_part (r : Registration) : bool := rg_ToolCall r && (seqb (rg_Family r) "deepseek" || negb (seqb (rg_LaunchID r) "")).
Definition plain_registration (r : Registration) : bool := seqb (rg_LaunchID r) "" && negb (seqb (rg_Family r) "deepseek").

(** The succession of a registration: a result replaces the stored one, and a plain peer keeps
    none. *)
Definition record_succession (now guard : Z) (calls : toolCalls) (r : Registration) (common role : string) (subagent : bool) : tx unit :=
  let k := rg_key r in
  if takes_part r
  then succession ← succeed processStart now guard calls k common role subagent (rg_Clear r);
       match (succession : option Succession) with
       | Some x => update_session k (λ row, row <| s_succession := Some x |>)
       | None => mret tt
       end
  else when (plain_registration r) (update_session k (λ row, row <| s_succession := None |>)).

Definition registerTx (now guard : Z) (calls : toolCalls) (duration : Z) (directory common : string) (r : Registration) : tx Session :=
  let k := rg_key r in
  '(target, role) ← admit_launch r directory;
  old ← gets (λ s, sessions s !! k);
  let wasActive := from_option (active_row now) false (old : option SessionRow) in
  let h := if seqb (rg_LaunchID r) "" then mkHost 0 0 "" "" "" else recordHost processStart (hostPID target) (rg_Tmux r) in
  let row0 := upsert now duration r common directory target role h old in
  _ ← modify (λ s, s <| sessions := <[k := row0]> (sessions s) |>);
  _ ← assignNames now (mkParticipant (rg_Family r) (rg_ID r) common directory role (s_subagent row0) wasActive);
  _ ← record_succession now guard calls r common role (s_subagent row0);
  at_host ← hostHolder now k;
  o ← gets (viewed now k at_host);
  row (o : option Session) ErrMissing.

(** The tool call of a registration is in the daemon's memory once its launch is admitted,
    whatever becomes of the transaction. *)
Definition admitted_in (en : Engine) (r : Registration) (directory : string) (st : Store) : bool :=
  match enter ordinary en st with (Ok _, st1) => succeeds (admit_launch r directory) (tables st1) | _ => false end.

Definition Register (v : Settings) (resolved : option Directory) (discover : string → result error string) (now now_call at_ : Z)
    (en : Engine) (r : Registration) (st : Store) (calls : toolCalls) : result error Session * Store * toolCalls :=
  match register_checks v resolved discover r with
  | Err e => (Err e, st, calls)
  | Ok (duration, directory, common) =>
      let calls1 := if rg_ToolCall r && admitted_in en r directory st then ToolCall now_call (guard v) (rg_key r) calls else calls in
      (write (mkWrite ordinary false at_ None (λ _, None)) en (registerTx now (guard v) calls1 duration directory common r) st, calls1)
  end.

(** ** Renewal and retirement *)

Record Mutation := mkMutation { mu_Family : string; mu_ID : string; mu_IfRevision : Z; mu_TTLSeconds : Z }.

Definition state_text (st : SessionState) : string := match st with Active => "active" | Expired => "expired" | Retired => "retired" end.
Definition ended_with (k : Key) (c : cycleRow) : bool := seqb (c_Family c) (Family k) && (seqb (c_SessionID c) (ID k) || seqb (c_SuccessorID c) (ID k)).

(** A retained record from before launches becomes a plain peer. *)
Definition plain_peer (row : SessionRow) : SessionRow :=
  row <| s_role := ""%string |> <| s_host_pid := 0 |> <| s_host_start := 0 |> <| s_tmux_socket := ""%string |> <| s_tmux_pane := ""%string |>
    <| s_tmux_path := ""%string |> <| s_succession := None |>.

Definition mutateTx (now now_end duration : Z) (m : Mutation) (retire : bool) : tx Session :=
  let k := mkKey (mu_Family m) (mu_ID m) in
  o ← gets (scanSession now k);
  current ← row (o : option Session) ErrMissing;
  let active := bool_decide (ss_State current = Active) in
  _ ← ensure (active || retire) (SessionConflict (state_text (ss_State current)) (ss_Fenced current));
  _ ← ensure ((ss_Revision current =? mu_IfRevision m) && active) ErrConflict;
  if retire then
    _ ← update_session k (λ r, r <| s_retired_at := now |> <| s_revision := s_revision r + 1 |>);
    _ ← fenceCyclesTx now_end "retired" (ended_with k);
    o ← gets (scanSession now k);
    row (o : option Session) ErrMissing
  else
    let plain := negb (seqb (mu_Family m) "deepseek") && seqb (wt_launch_id (ss_WakeTarget current)) "" in
    _ ← when plain (update_session k plain_peer);
    _ ← update_session k (λ r, r <| s_renewed_at := now |> <| s_expires_at := now + duration |> <| s_revision := s_revision r + 1 |>);
    _ ← assignNames now (mkParticipant (mu_Family m) (mu_ID m) (ss_Repository current) (ss_Directory current)
                           (if plain then ""%string else ss_Role current) (ss_Subagent current) true);
    at_host ← hostHolder now k;
    o ← gets (viewed now k at_host);
    row (o : option Session) ErrMissing.

Definition Mutate (v : Settings) (now now_end at_ : Z) (audit : option PendingAudit) (en : Engine) (m : Mutation) (retire : bool) (st : Store) :
    result error Session * Store :=
  if negb (validKey (mu_Family m) (mu_ID m)) || (mu_IfRevision m <? 1) then (Err ErrInvalid, st)
  else match ttl v (mu_TTLSeconds m) with
       | None => (Err ErrInvalid, st)
       | Some duration => write (mkWrite control true at_ audit (λ _, None)) en (mutateTx now now_end duration m retire) st
       end.

(** ** Liveness *)

Definition workSweepInterval : Z := 30000.

(** The sessions that a sweep reads: active and launched, with a host record, no sub-agent *)
Definition candidate (now : Z) (_ : Key) (r : SessionRow) : bool :=
  active_row now r && negb (s_subagent r) && (0 <? s_host_pid r) && (0 <? s_host_start r) && launched r.
Definition host_runs (r : SessionRow) : bool :=
  match processStart (s_host_pid r) with StartedAt t => t =? s_host_start r | _ => false end.

(** The extension of one session: the row that was read, still active, at its revision *)
Definition extend (now lifetime : Z) (kr : Key * SessionRow) : tx unit :=
  update_session kr.1 (λ r,
    if (s_revision r =? s_revision kr.2) && (s_retired_at r =? 0) && negb (s_subagent r) && (now <? s_expires_at r) && (s_expires_at r <? now + lifetime) &&
       (s_host_pid r =? s_host_pid kr.2) && (s_host_start r =? s_host_start kr.2)
    then r <| s_expires_at := now + lifetime |> else r).

Definition due (lifetime : Z) (due_at : Key → Z) (kr : Key * SessionRow) : bool :=
  host_runs kr.2 && (s_expires_at kr.2 - due_at kr.1 <? Z.max (lifetime `quot` 2) (2 * workSweepInterval)).

(** [liveness]: when the sweep last read each host as running.  [read_at] is the clock at a
    session's read, [due_at] at its test, and [now_write] inside the write. *)
Definition verified (read_at : Key → Z) (rows : list (Key * SessionRow)) : gmap Key Z :=
  list_to_map ((λ kr, (kr.1, read_at kr.1)) <$> filter (λ kr, host_runs kr.2 = true) rows).
Definition MaintainLiveness (v : Settings) (now now_write at_ : Z) (read_at due_at : Key → Z) (en : Engine) (st st_write : Store) :
    result error unit * Store * gmap Key Z :=
  let lifetime := LifetimeSeconds v * 1000 in
  let rows := select (candidate now) (sessions (tables st)) in
  let found := filter (λ kr, due lifetime due_at kr = true) rows in
  (if bool_decide (found = []) then (Ok tt, st_write)
   else write (mkWrite control false at_ None (λ _, None)) en (each found (extend now_write lifetime)) st_write,
   verified read_at rows).
End registration.
