(* ===== verification/Retention.v ===== *)
(** * The retention of messages and sessions (internal/core/retention.go)

    The maintenance sweep deletes acknowledged messages and inactive sessions after their
    periods.  Each deletion is one control write; between two of them anything else may run,
    which is [tn_other] of the turn that comes next.  The purge of marked sessions, which also
    releases claims, is in Sweeps. *)

From S2P Require Import Prelude GoString GoFloat Schema Sql Label Fixture Storage Names Messages Sessions Cycles Launches Registrations.
Open Scope Z_scope.

Definition messageRetention : Z := 30 * 24 * 60 * minute.
Definition sessionRetention : Z := 30 * 24 * 60 * minute.
Definition cullBatch : Z := 500.
Definition cullBudget : Z := 20 * cullBatch.
Definition cullSessions : nat := 100.

(** The periods; zero means the default ([retentionPeriods]). *)
Record Periods := mkPeriods { pe_messages : Z; pe_sessions : Z }.
Definition retentionPeriods (p : Periods) : Z * Z :=
  (if pe_messages p =? 0 then messageRetention else pe_messages p, if pe_sessions p =? 0 then sessionRetention else pe_sessions p).

Record RetentionCounts := mkCounts {
  MessagesByRetention : Z; MessagesByPurge : Z; SessionsByRetention : Z; SessionsByPurge : Z; HeldUnacknowledged : Z; HeldClaims : Z }.
#[export] Instance RetentionCounts_eta : Eta RetentionCounts := λ r,
  mkCounts (MessagesByRetention r) (MessagesByPurge r) (SessionsByRetention r) (SessionsByPurge r) (HeldUnacknowledged r) (HeldClaims r).

(** One transaction of a sweep: what ran since the one before, two readings of the clock and the
    engine *)
Record Turn := mkTurn { tn_other : Store → Store; tn_now : Z; tn_later : Z; tn_engine : Engine }.
Definition control_write : Write := mkWrite control false 0 None (λ _, None).
(** A transaction that ends without a commit answers [none]. *)
Definition attempt {A} (t : Turn) (none : A) (body : tx A) (st : Store) : result error A * Store :=
  match write control_write (tn_engine t) body (tn_other t st) with
  | (Err Declined, st') => (Ok none, st')
  | r => r
  end.

(** ** Acknowledged messages *)

(** [ORDER BY f,family,id] *)
Definition time_order (f : SessionRow → Z) (x y : Key * SessionRow) : Prop := f x.2 < f y.2 ∨ f x.2 = f y.2 ∧ key_le x y.
#[export] Instance time_order_dec f : RelDecision (time_order f).
Proof. intros x y. unfold time_order. apply _. Defined.
Definition sessionKeys (f : SessionRow → Z) (P : Key → SessionRow → bool) (s : State) : list Key :=
  take cullSessions (fst <$> merge_sort (time_order f) (select P (sessions s))).

Definition due_mark (cutoff : Z) (r : SessionRow) : bool := negb (s_ack_mark_at r =? 0) && (s_ack_mark_at r <=? cutoff).
(** [DELETE FROM messages WHERE id IN (SELECT id ... ORDER BY seq LIMIT ?)] *)
Definition oldest (k : Key) (P : MessageRow → bool) (limit : Z) (s : State) : list (Z * MessageRow) :=
  take (Z.to_nat limit) (order_by (λ im, m_seq im.2) (select (λ _ m, keqb (m_recipient m) k && P m) (messages s))).
Definition delete_messages (ids : list Z) : tx unit := modify (λ s, s <| messages := filter (λ im, im.1 ∉ ids) (messages s) |>).
(** [deleteMarked]: the number of deleted messages, and whether the mark is finished *)
Definition deleteMarkedTx (k : Key) (cutoff limit : Z) : tx (Z * bool) :=
  o ← gets (λ s, sessions s !! k);
  match (o : option SessionRow) with
  | None => throw Declined
  | Some r =>
      _ ← ensure (due_mark cutoff r) Declined;
      found ← gets (oldest k (λ m, m_seq m <=? s_ack_mark r) limit);
      let rows := found : list (Z * MessageRow) in
      _ ← delete_messages rows.*1;
      let deleted := Z.of_nat (length rows) in
      _ ← when (0 <? deleted) (bumpInbox k);
      let done := deleted <? limit in
      _ ← when done (update_session k (λ r, r <| s_ack_mark_at := 0 |>));
      mret (deleted, done)
  end.
Definition deleteMarked (t : Turn) (k : Key) (cutoff limit : Z) (st : Store) : result error (Z * bool) * Store :=
  attempt t (0, true) (deleteMarkedTx k cutoff limit) st.

(** The batches of one inbox, while the budget lasts; [deleted] is the count so far.  A batch that
    does not finish is full, so the budget is fuel for all of them. *)
Fixpoint drain (batch : Turn → Z → Store → result error (Z * bool) * Store) (fuel : nat) (turn : nat → Turn) (budget deleted : Z) (st : Store) :
    result error (Z * Z) * Store :=
  match fuel with
  | O => (Ok (budget, deleted), st)
  | S fuel =>
      if budget <=? 0 then (Ok (budget, deleted), st)
      else match batch (turn fuel) (Z.min cullBatch budget) st with
           | (Err e, st') => (Err e, st')
           | (Ok (n, done), st') =>
               if done : bool then (Ok (budget - n, deleted + n), st') else drain batch fuel turn (budget - n) (deleted + n) st'
           end
  end.
(** The due inboxes; the answer's flag says that the budget ended the sweep. *)
Fixpoint drain_due (cutoff : Z) (turns : Key → nat → Turn) (due : list Key) (budget deleted : Z) (st : Store) : result error (Z * Z * bool) * Store :=
  match due with
  | [] => (Ok (budget, deleted, false), st)
  | k :: due =>
      match drain (λ t, deleteMarked t k cutoff) (Z.to_nat budget) (turns k) budget deleted st with
      | (Err e, st') => (Err e, st')
      | (Ok (budget, deleted), st') => if budget <=? 0 then (Ok (budget, deleted, true), st') else drain_due cutoff turns due budget deleted st'
      end
  end.
(** The new marks *)
Definition markAcknowledgedTx (now : Z) : tx unit := modify (λ s, s <| sessions :=
  update_where (λ _ r, (s_ack_mark_at r =? 0) && (s_ack_mark r <? s_acked_through r)) (λ r, r <| s_ack_mark := s_acked_through r |> <| s_ack_mark_at := now |>) (sessions s) |>).
(** [deleteAcknowledged]: the budget that is left and the number of deleted messages *)
Definition deleteAcknowledged (p : Periods) (now : Z) (turns : Key → nat → Turn) (marking : Turn) (budget : Z) (st : Store) : result error (Z * Z) * Store :=
  let cutoff := now - fst (retentionPeriods p) in
  match drain_due cutoff turns (sessionKeys s_ack_mark_at (λ _, due_mark cutoff) (tables st)) budget 0 st with
  | (Err e, st1) => (Err e, st1)
  | (Ok (budget, deleted, spent), st1) =>
      if spent : bool then (Ok (budget, deleted), st1)
      else match write control_write (tn_engine marking) (markAcknowledgedTx (tn_now marking)) (tn_other marking st1) with
           | (Err e, st2) => (Err e, st2)
           | (Ok _, st2) => (Ok (budget, deleted), st2)
           end
  end.

(** ** Inactive sessions *)

Section sessions.
Context `{SHA : Sha256}.

(** [inactiveSince] *)
Definition inactiveSince (cutoff : Z) (r : SessionRow) : bool :=
  (negb (s_retired_at r =? 0) && (s_retired_at r <=? cutoff)) || ((s_retired_at r =? 0) && (s_expires_at r <=? cutoff)).
(** [liveClaim]; koinon_native_work_actor is [nativeWorkActorForKey]. *)
Definition holds_bundle (k : Key) (b : BundleRow) : bool :=
  b_active b && (seqb (b_consumer b) (Family k +:+ ":" +:+ ID k) || negb (seqb (b_native_actor b) "") && seqb (b_native_actor b) (nativeWorkActorForKey k)).
Definition liveClaim (k : Key) (s : State) : bool := exists_where (λ _ b, holds_bundle k b) (claim_bundles s).
(** [anyMessage] *)
Definition anyMessage (k : Key) (s : State) : bool := exists_where (λ _ m, keqb (m_recipient m) k) (messages s).
Definition no_maintainer (k : Key) : bool := negb (seqb (Family k) "maintainer").
Definition deletable (condition : SessionRow → bool) (k : Key) (s : State) : bool :=
  match sessions s !! k with
  | Some r => no_maintainer k && condition r && negb (liveClaim k s) && negb (anyMessage k s)
  | None => false
  end.
(** [deleteSession] *)
Definition deleteSessionTx (now later : Z) (k : Key) (condition : SessionRow → bool) : tx bool :=
  _ ← fenceCyclesTx now "session_deleted" (ended_with k);
  found ← gets (deletable condition k);
  _ ← ensure found Declined;
  _ ← modify (λ s, s <| sessions := delete k (sessions s) |>);
  _ ← releaseAddress later (Family k) (ID k) "session_deleted" "daemon";
  _ ← modify (λ s, s <| names := filter (λ an, bool_decide (n_kind an.2 = Peer ∧ n_family an.2 = Family k ∧ n_session_id an.2 = ID k) = false) (names s) |>);
  _ ← modify (λ s, s <| enables := delete k (enables s) |>);
  mret true.
Definition deleteSession (t : Turn) (k : Key) (condition : SessionRow → bool) (st : Store) : result error bool * Store :=
  attempt t false (deleteSessionTx (tn_now t) (tn_later t) k condition) st.

Definition retained (cutoff : Z) (r : SessionRow) : bool := (s_purge_at r =? 0) && inactiveSince cutoff r.
(** The sessions that the sweep keeps for unacknowledged messages or claims *)
Definition held (cutoff : Z) (why : Key → SessionRow → bool) (s : State) : Z :=
  count_where (λ k r, no_maintainer k && retained cutoff r && why k r) (sessions s).
Definition idle_session (cutoff : Z) (r : SessionRow) : bool := (s_purge_at r =? 0) && (s_last_seq r =? s_acked_through r) && inactiveSince cutoff r.
Fixpoint delete_all (condition : SessionRow → bool) (turns : Key → Turn) (keys : list Key) (deleted : Z) (st : Store) : result error Z * Store :=
  match keys with
  | [] => (Ok deleted, st)
  | k :: keys =>
      match deleteSession (turns k) k condition st with
      | (Err e, st') => (Err e, st')
      | (Ok gone, st') => delete_all condition turns keys (if gone : bool then deleted + 1 else deleted) st'
      end
  end.
(** [deleteInactive]: the kept sessions with unacknowledged messages, those with claims, and the
    deleted ones *)
Definition deleteInactive (p : Periods) (now : Z) (turns : Key → Turn) (st : Store) : result error (Z * Z * Z) * Store :=
  let cutoff := now - snd (retentionPeriods p) in
  let s := tables st in
  let unacknowledged := held cutoff (λ _ r, s_acked_through r <? s_last_seq r) s in
  let claims := held cutoff (λ k _, liveClaim k s) s in
  let keys := sessionKeys (λ _, 0) (λ k r, no_maintainer k && idle_session cutoff r && negb (liveClaim k s) && negb (anyMessage k s)) s in
  match delete_all (idle_session cutoff) turns keys 0 st with
  | (Err e, st') => (Err e, st')
  | (Ok deleted, st') => (Ok (unacknowledged, claims, deleted), st')
  end.
End sessions.

(** ** The purge mark *)

(** [deletePurgedBatch] *)
Definition deletePurgedTx (k : Key) (limit : Z) : tx Z :=
  o ← gets (λ s, sessions s !! k);
  let marked := match (o : option SessionRow) with Some r => negb (s_purge_at r =? 0) | None => false end in
  found ← gets (oldest k (λ _, marked) limit);
  let rows := found : list (Z * MessageRow) in
  _ ← delete_messages rows.*1;
  mret (Z.of_nat (length rows)).
(** A batch and whether it is the last; the loop of [purgeMarked] *)
Definition deletePurgedBatch (k : Key) (t : Turn) (limit : Z) (st : Store) : result error (Z * bool) * Store :=
  match write control_write (tn_engine t) (deletePurgedTx k limit) (tn_other t st) with
  | (Err e, st') => (Err e, st')
  | (Ok n, st') => (Ok (n, n <? limit), st')
  end.

(** [markPurge] *)
Definition purge_row (now : Z) (r : SessionRow) : SessionRow :=
  r <| s_purge_at := now |> <| s_retired_at := if (s_retired_at r =? 0) && (now <? s_expires_at r) then now else s_retired_at r |>
    <| s_revision := s_revision r + 1 |>.
Definition markPurgeTx (now now_end : Z) (k : Key) (revision : Z) (mark : bool) : tx unit :=
  o ← gets (scanSession now k);
  current ← row (o : option Session) ErrMissing;
  _ ← ensure ((ss_Revision current =? revision) && negb (Bool.eqb (negb (ss_PurgeAt current =? 0)) mark)) ErrConflict;
  if mark then
    _ ← update_session k (purge_row now);
    fenceCyclesTx now_end "purged" (ended_with k)
  else update_session k (λ r, r <| s_purge_at := 0 |> <| s_revision := s_revision r + 1 |>).
Definition markPurge (now now_end at_ : Z) (audit : option PendingAudit) (en : Engine) (k : Key) (revision : Z) (mark : bool) (st : Store) : result error unit * Store :=
  if negb (validKey (Family k) (ID k)) || (revision <? 1) then (Err ErrInvalid, st)
  else write (mkWrite control true at_ audit (λ _, None)) en (markPurgeTx now now_end k revision mark) st.
Definition purgeMarkStands (k : Key) (s : State) : bool := match sessions s !! k with Some r => negb (s_purge_at r =? 0) | None => false end.
(** The sessions that wait for a purge ([RetentionStatus]) *)
Definition markedForPurge (s : State) : Z := count_where (λ _ r, negb (s_purge_at r =? 0)) (sessions s).
