(* ===== verification/Wake.v ===== *)
(** * Wakes (internal/core/wake.go, wake_health.go)

    The daemon tells a session that messages wait in its inbox: a notice that names a range of
    sequences and nothing else.  A message that had its notices and was not read fails, and the
    maintainer hears of it.  Submissions run one at a time under the lock that acknowledgements,
    registrations and retirements also take; what else may run between two of their
    transactions is an argument ([tn_other], [lk_other]).  The adapter that reaches the agent is
    an argument too. *)

From S2P Require Import Prelude GoString GoFloat Schema Sql Label Fixture Storage Names Messages Sessions Cycles Launches Registrations Retention.
Open Scope Z_scope.

(** ** Waits *)

Definition wakeBackoffMax : Z := 5 * minute.
Definition wakeBusyPoll : Z := 3000.
Definition wakeReadWait : Z := 2 * minute.
Definition wakeReadWaitMax : Z := 16 * minute.
Definition wakeNoticeLimit : Z := 4.

(** [readWait]: the loop doubles until the maximum. *)
Fixpoint double_wait (turns : nat) (wait : Z) : Z :=
  match turns with
  | O => wait
  | S turns => if wait <? wakeReadWaitMax then double_wait turns (wait * 2) else wait
  end.
Definition readWait (notices : Z) : Z := Z.min (double_wait (Z.to_nat (notices - 1)) wakeReadWait) wakeReadWaitMax.
Definition wakeBackoff (attempts : Z) : Z :=
  let attempts := if attempts <? 1 then 1 else attempts in
  if 9 <? attempts then wakeBackoffMax
  else let delay := 1000 * Z.shiftl 1 (attempts - 1) in if wakeBackoffMax <? delay then wakeBackoffMax else delay.

Record wakeResult := mkWakeResult { wr_State : DeliveryState; wr_Reason : string }.
Definition attempt_in_progress : string := "attempt_in_progress".
Definition reachedAgent (r : wakeResult) : bool :=
  match wr_State r with
  | Notified => true
  | Uncertain => negb (seqb (wr_Reason r) attempt_in_progress) && negb (seqb (wr_Reason r) "invalid_adapter_result")
  | Waiting | Failed => false
  end.
(** The check of an adapter's answer in [submitWake] *)
Definition adapter_result (answer : string * string) : wakeResult :=
  let '(state, reason) := answer in
  if seqb state "waiting" then mkWakeResult Waiting reason
  else if seqb state "notified" then mkWakeResult Notified reason
  else if seqb state "uncertain" then mkWakeResult Uncertain reason
  else mkWakeResult Uncertain "invalid_adapter_result".

(** ** Due messages *)

(** The highest sequence that the recipient has handled *)
Definition handled (r : SessionRow) : Z := Z.max (s_acked_through r) (s_read_through r).
(** wake.go, [unhandled], over the join of messages with sessions *)
Definition awaits_reader (m : MessageRow) (s : State) : bool :=
  match sessions s !! m_recipient m with Some r => handled r <? m_seq m | None => false end.
(** [dueWake] with the arguments of [dueArgs] *)
Definition wakeable (m : MessageRow) : bool :=
  match m_delivery_state m with Waiting | Uncertain | Notified => true | Failed => false end.
Definition dueWake (now : Z) (m : MessageRow) : bool :=
  wakeable m && ((m_wake_next_at m <=? now) || (now + Z.max wakeBackoffMax wakeReadWaitMax <? m_wake_next_at m)).

(** MIN and MAX of a column *)
Definition least (l : list Z) : option Z := head (order_by id l).
Definition greatest (l : list Z) : option Z := last (order_by id l).

(** ** The batch *)

Record wakeBatch := mkWakeBatch { wb_Session : Session; wb_First : Z; wb_Last : Z; wb_Attempts : Z; wb_Notices : Z; wb_Target : Session }.

(** [wakeRecipient]; [None] while a notice has nobody to reach *)
Definition wakeRecipient (now later : Z) (k : Key) (s : State) : result error (option (Session * Session)) :=
  match scanSession now k s with
  | None => Ok None
  | Some session =>
      if negb (bool_decide (ss_State session = Active)) then Ok None
      else if isParticipantID (ID k) then
        let address := trim_prefix (ID k) participantPrefix in
        match names s !! address with
        | Some n =>
            if negb (bool_decide (n_kind n = Alias)) then Err NoRows
            else if seqb (n_holder_id n) "" then Ok None
            else match scanSession later (mkKey (Family k) (n_holder_id n)) s with
                 | None => Err ErrMissing
                 | Some target =>
                     if negb (bool_decide (ss_State target = Active)) || negb (seqb (ss_Address target) address) || negb (ss_HoldsAddress target)
                     then Ok None else Ok (Some (session, target))
                 end
        | None => Err NoRows
        end
      else Ok (Some (session, session))
  end.

(** The unhandled messages of an inbox, and the first run of due ones *)
Definition pending_of (k : Key) (s : State) : list MessageRow :=
  snd <$> select (λ _ m, keqb (m_recipient m) k && awaits_reader m s) (messages s).
Definition due_run (now : Z) (pending : list MessageRow) : list MessageRow :=
  match least (m_seq <$> filter (λ m, dueWake now m) pending) with
  | None => []
  | Some first =>
      let gap := least (m_seq <$> filter (λ m, negb (dueWake now m) && (first <? m_seq m)) pending) in
      filter (λ m, dueWake now m && match gap with Some g => m_seq m <? g | None => true end) pending
  end.
Definition batch_of (now : Z) (session target : Session) (s : State) : option wakeBatch :=
  let run := due_run now (pending_of (ss_Key session) s) in
  match least (m_seq <$> run), greatest (m_seq <$> run) with
  | Some first, Some last =>
      Some (mkWakeBatch session first last (default 0 (greatest (m_wake_attempts <$> run))) (default 0 (greatest (m_wake_notices <$> run))) target)
  | _, _ => None
  end.

(** [pendingWake], two reads with their clocks *)
Record Look := mkLook { lk_other : Store → Store; lk_now : Z; lk_later : Z; lk_between : Store → Store; lk_due : Z }.
Definition pendingWake (t : Look) (k : Key) (st : Store) : result error (option wakeBatch) * Store :=
  let st := lk_other t st in
  match wakeRecipient (lk_now t) (lk_later t) k (tables st) with
  | Err e => (Err e, st)
  | Ok None => (Ok None, st)
  | Ok (Some (session, target)) => let st := lk_between t st in (Ok (batch_of (lk_due t) session target (tables st)), st)
  end.

(** ** The record of an attempt *)

Definition in_batch (b : wakeBatch) (m : MessageRow) (s : State) : bool :=
  keqb (m_recipient m) (ss_Key (wb_Session b)) && (wb_First b <=? m_seq m) && (m_seq m <=? wb_Last b) &&
  match sessions s !! ss_Key (wb_Session b) with Some r => handled r <? m_seq m | None => false end.
(** The messages that a record writes: the due ones at the start of an attempt, those that the
    start marked at its end *)
Definition marked_by (start : bool) (due : Z) (m : MessageRow) : bool :=
  if start then dueWake due m else bool_decide (m_delivery_state m = Uncertain) && seqb (m_wake_reason m) attempt_in_progress.
Definition record_row (now delay attempts : Z) (r : wakeResult) (m : MessageRow) : MessageRow :=
  let reached := reachedAgent r in
  m <| m_delivery_state := wr_State r |> <| m_delivery_updated_at := now |>
    <| m_delivery_reason := if reached then "" else if (0 <? m_wake_notices m) && seqb (m_delivery_reason m) "" then "not_read" else m_delivery_reason m |>
    <| m_wake_reason := wr_Reason r |> <| m_wake_attempts := attempts |> <| m_wake_notices := m_wake_notices m + (if reached then 1 else 0) |>
    <| m_wake_next_at := if negb reached then now + delay
                         else if m_wake_notices m =? 0 then now + readWait 1
                         else if m_wake_notices m =? 1 then now + readWait 2
                         else if m_wake_notices m =? 2 then now + readWait 3 else now + readWait 4 |>.
Definition busy (r : wakeResult) : bool := bool_decide (wr_State r = Waiting) && seqb (wr_Reason r) "receiver_busy".
Definition recordWakeTx (now due : Z) (b : wakeBatch) (r : wakeResult) (attempts : Z) : tx unit := modify (λ s,
  let delay := if busy r then wakeBusyPoll else wakeBackoff attempts in
  let attempts := if busy r then wb_Attempts b else attempts in
  s <| messages := update_where (λ _ m, in_batch b m s && marked_by (seqb (wr_Reason r) attempt_in_progress) due m) (record_row now delay attempts r) (messages s) |>).
Definition recordWake (t : Turn) (b : wakeBatch) (r : wakeResult) (attempts : Z) (st : Store) : result error unit * Store :=
  write control_write (tn_engine t) (recordWakeTx (tn_now t) (tn_later t) b r attempts) (tn_other t st).

(** ** Messages that had their notices *)

(** [noticeMaintainer] *)
Definition koinon_key : Key := mkKey "koinon" "koinon".
Definition noticeMaintainer (now : Z) (body : string) : tx unit :=
  o ← gets (λ s, sessions s !! maintainerKey);
  r ← row (o : option SessionRow) NoRows;
  let seq := s_last_seq r + 1 in
  _ ← modify (λ s, s <| sessions := <[maintainerKey := r <| s_last_seq := seq |> ]> (sessions s) |>);
  _ ← insert_message (new_message maintainerKey seq koinon_key "koinon" body now);
  bumpChange changeInbox.
Definition plural (n : Z) (one many : string) : string := if n =? 1 then one else many.
Definition comma_list (l : list string) : string := String.concat ", " l.
(** The body of a notice of failed messages *)
Definition failed_body (ids : list Z) (reasons : list string) (recipient : string) : string :=
  let n := Z.of_nat (length ids) in
  let listed := (itoa <$> take 10 ids) ++ (if 10 <? n then ["and " +:+ itoa (n - 10) +:+ " more"] else []) in
  "Koinon: " +:+ plural n "Message" "Messages" +:+ " " +:+ comma_list listed +:+ " to " +:+ recipient +:+ " " +:+ plural n "was" "were" +:+
  " not handled after " +:+ itoa wakeNoticeLimit +:+ " notices (" +:+ comma_list reasons +:+ "). Delivery state: failed.".
Definition exhausted (now : Z) (k : Key) (s : State) (_ : Z) (m : MessageRow) : bool :=
  keqb (m_recipient m) k && awaits_reader m s && dueWake now m && (wakeNoticeLimit <=? m_wake_notices m).
Definition fail_row (now : Z) (m : MessageRow) : MessageRow :=
  m <| m_delivery_state := Failed |> <| m_delivery_updated_at := now |> <| m_wake_next_at := 0 |>
    <| m_delivery_reason := if seqb (m_delivery_reason m) "" then "not_read" else m_delivery_reason m |>.
Definition failUnhandledTx (now : Z) (name : string) (k : Key) : tx unit :=
  found ← gets (λ s, select (exhausted now k s) (messages s));
  let rows := found : list (Z * MessageRow) in
  _ ← modify (λ s, s <| messages := update_where (exhausted now k s) (λ m, fail_row now m) (messages s) |>);
  _ ← ensure (negb (bool_decide (rows = []))) Declined;
  let reasons := order_by_name id (remove_dups ((λ im, m_delivery_reason (fail_row now im.2)) <$> rows)) in
  let recipient := if isParticipantID (ID k) then trim_prefix (ID k) participantPrefix else name in
  noticeMaintainer now (failed_body (order_by id rows.*1) reasons recipient).
(** [failUnhandled]: the session is read at [tn_later] before the transaction. *)
Definition failUnhandled (t : Turn) (k : Key) (st : Store) : result error unit * Store :=
  let st := tn_other t st in
  match scanSession (tn_later t) k (tables st) with
  | None => (Err ErrMissing, st)
  | Some session => attempt (mkTurn (λ st, st) (tn_now t) (tn_later t) (tn_engine t)) tt (failUnhandledTx (tn_now t) (ss_Name session) k) st
  end.

(** ** Texts *)

Definition wakeNotice (b : wakeBatch) : string :=
  "Koinon inbox " +:+ json_string (Family (ss_Key (wb_Session b))) +:+ ":" +:+ json_string (ID (ss_Key (wb_Session b))) +:+
  " has waiting sequence range " +:+ itoa (wb_First b) +:+ "-" +:+ itoa (wb_Last b) +:+ ". Read your Koinon inbox.".
Definition in_range (b : wakeBatch) (m : MessageRow) : bool :=
  keqb (m_recipient m) (ss_Key (wb_Session b)) && (wb_First b <=? m_seq m) && (m_seq m <=? wb_Last b).
Definition decisionNoticeIDs : nat := 8.
Definition verdictNoticeSuffix (b : wakeBatch) (s : State) : string :=
  let ids := (λ im : Z * MessageRow, m_decision_verdict im.2) <$> order_by (λ im, m_seq im.2) (select (λ _ m, in_range b m && (0 <? m_decision_verdict m)) (messages s)) in
  match ids with
  | [] => ""
  | _ => " Decision verdicts " +:+ comma_list (itoa <$> take decisionNoticeIDs ids) +:+
         (if (decisionNoticeIDs <? length ids)%nat then " +" +:+ itoa (Z.of_nat (length ids - decisionNoticeIDs)) +:+ " more" else "") +:+ "."
  end.
Definition cycle_request (b : wakeBatch) (s : State) (_ : Z) (m : MessageRow) : bool :=
  in_range b m && seqb (m_system_kind m) cycleRequestKind && match cycles s !! m_cycle_id m with Some c => unfinished c | None => false end.
Definition cycleNoticeSuffix (b : wakeBatch) (s : State) : string :=
  match last (order_by (λ im, m_seq im.2) (select (cycle_request b s) (messages s))) with
  | Some im => " Managed context-cycle request " +:+ m_cycle_id im.2 +:+ ": answer it before other work."
  | None => ""
  end.

(** ** Submission *)

(** context_cycle_controller.go, [paneHeldByCycle]: the states from ready through pickup *)
Definition pane_states : list string :=
  [cycleReady; cycleBootstrapIntent; cycleBootstrapVerified; cycleClearIntent; cycleClearReceived; cycleResetVerified; cyclePickupIntent;
   cycleWaitingPickup; cycleWaitingPrompt; cyclePromptIntent; cycleCompactIntent; cycleCompactSent].
Definition holds_pane (k : Key) (r : SessionRow) (c : cycleRow) : bool :=
  bool_decide (c_State c ∈ pane_states) &&
  ((0 <? c_HostStart c) && (c_HostPID c =? s_host_pid r) && (c_HostStart c =? s_host_start r) && seqb (c_Socket c) (s_tmux_socket r) && seqb (c_Pane c) (s_tmux_pane r) ||
   (c_HostStart c =? 0) && seqb (c_Family c) (Family k) && seqb (c_SessionID c) (ID k)).
Definition paneHeldByCycle (k : Key) (s : State) : bool :=
  match sessions s !! k with Some r => exists_where (λ _ c, holds_pane k r c) (cycles s) | None => false end.

(** The parts of a submission: the first look, what runs before the pane is read, the failing of
    messages and the second look, and, of the batch, the record of its start, what runs before
    its texts are read, and the record of its end *)
Record SubmitTurn := mkSubmitTurn {
  su_look : Look; su_pane : Store → Store; su_fail : Turn; su_again : Look; su_start : Turn; su_texts : Store → Store; su_end : Turn }.
(** The transport of a notice to a target; [None] when the daemon has none *)
Definition Adapter := option (Session → string → string * string).
Definition stop_offered : wakeResult := mkWakeResult Uncertain "stop_offered".
Definition notice_of (b : wakeBatch) (s : State) : string := wakeNotice b +:+ verdictNoticeSuffix b s +:+ cycleNoticeSuffix b s.
Definition next_attempt (b : wakeBatch) : Z := Z.min (wb_Attempts b + 1) 64.
Definition submit_batch (t : SubmitTurn) (send : Adapter) (b : wakeBatch) (offer : bool) (st : Store) : result error string * Store :=
  let attempts := next_attempt b in
  match recordWake (su_start t) b (mkWakeResult Uncertain attempt_in_progress) attempts st with
  | (Err e, st1) => (Err e, st1)
  | (Ok _, st1) =>
      let st2 := su_texts t st1 in
      let notice := notice_of b (tables st2) in
      let answer := if offer then stop_offered
                    else adapter_result (match send with Some f => f (wb_Target b) notice | None => ("waiting", "adapter_unavailable") end)%string in
      match recordWake (su_end t) b answer attempts st2 with
      | (Err e, st3) => (Err e, st3)
      | (Ok _, st3) => (Ok notice, st3)
      end
  end.
(** [submitWake] *)
Definition submitWake (t : SubmitTurn) (send : Adapter) (k : Key) (offer : bool) (st : Store) : result error string * Store :=
  match pendingWake (su_look t) k st with
  | (Err e, st1) => (Err e, st1)
  | (Ok None, st1) => (Ok ""%string, st1)
  | (Ok (Some b), st1) =>
      if negb (Bool.eqb (seqb (Family (ss_Key (wb_Target b))) "agy") offer) then (Ok ""%string, st1)
      else
        let st2 := su_pane t st1 in
        if paneHeldByCycle (ss_Key (wb_Target b)) (tables st2) then (Ok ""%string, st2)
        else if wakeNoticeLimit <=? wb_Notices b then
          match failUnhandled (su_fail t) k st2 with
          | (Err e, st3) => (Err e, st3)
          | (Ok _, st3) =>
              match pendingWake (su_again t) k st3 with
              | (Err e, st4) => (Err e, st4)
              | (Ok None, st4) => (Ok ""%string, st4)
              | (Ok (Some b), st4) => submit_batch t send b offer st4
              end
          end
        else submit_batch t send b offer st2
  end.
(** [offerWake]: the own inbox, then that of the participant that the session holds *)
Definition offerWake (own theirs : SubmitTurn) (other : Store → Store) (now : Z) (caller : Key) (st : Store) : result error string * Store :=
  match submitWake own None caller true st with
  | (Err e, st1) => (Err e, st1)
  | (Ok notice, st1) =>
      if negb (seqb notice "") then (Ok notice, st1)
      else
        let st2 := other st1 in
        let address := heldAddress now caller (tables st2) in
        if seqb address "" then (Ok ""%string, st2)
        else submitWake theirs None (mkKey (Family caller) (participantKey address)) true st2
  end.

(** ** Failed turns *)

(** [recordTurnFailure] *)
Definition turn_failed (k : Key) (at_ : Z) (s : State) (_ : Z) (m : MessageRow) : bool :=
  keqb (m_recipient m) k && awaits_reader m s && bool_decide (m_delivery_state m = Notified ∨ m_delivery_state m = Uncertain) &&
  (0 <? m_wake_notices m) && seqb (m_delivery_reason m) "" && negb (seqb (m_wake_reason m) attempt_in_progress) && (m_delivery_updated_at m <? at_).
Definition turn_row (code : string) (now : Z) (m : MessageRow) : MessageRow :=
  m <| m_delivery_reason := "turn_failed:" +:+ code |> <| m_delivery_updated_at := now |>
    <| m_wake_next_at := if wakeNoticeLimit <=? m_wake_notices m then now else m_wake_next_at m |>.
Definition recordTurnFailureTx (k : Key) (code : string) (at_ now : Z) : tx unit := modify (λ s,
  s <| messages := update_where (turn_failed k at_ s) (turn_row code now) (messages s) |>).
Definition recordTurnFailure (t : Turn) (k : Key) (code : string) (at_ : Z) (st : Store) : result error unit * Store :=
  write control_write (tn_engine t) (recordTurnFailureTx k code at_ (tn_now t)) (tn_other t st).

(** [checkTurns]: the failures that the observations report, in some order, and the time of the
    last applied one of each session *)
Record failure := mkFailure { fl_key : Key; fl_code : string; fl_at : Z }.
Fixpoint record_inboxes (turns : Key → Turn) (f : failure) (inboxes : list Key) (st : Store) : result error unit * Store :=
  match inboxes with
  | [] => (Ok tt, st)
  | k :: inboxes =>
      match recordTurnFailure (turns k) k (fl_code f) (fl_at f) st with
      | (Err e, st') => (Err e, st')
      | (Ok _, st') => record_inboxes turns f inboxes st'
      end
  end.
Fixpoint check_all (turns : Key → Turn) (done : gmap Key Z) (failures : list failure) (seen : gmap Key Z) (st : Store) : result error (gmap Key Z) * Store :=
  match failures with
  | [] => (Ok seen, st)
  | f :: failures =>
      let k := fl_key f in
      if default 0 (done !! k) =? fl_at f then check_all turns done failures (<[k := fl_at f]> seen) st
      else
        let st := tn_other (turns k) st in
        match scanSession (tn_later (turns k)) k (tables st) with
        | None => check_all turns done failures seen st
        | Some session =>
            let inboxes := k :: (if seqb (ss_Alias session) "" then [] else [mkKey (Family k) (participantKey (ss_Alias session))]) in
            match (if bool_decide (ss_State session = Active) then record_inboxes turns f inboxes st else (Ok tt, st)) with
            | (Err e, st') => (Err e, st')
            | (Ok _, st') => check_all turns done failures (<[k := fl_at f]> seen) st'
            end
        end
  end.
(** The new times; a pass that fails keeps the old ones. *)
Definition checkTurns (turns : Key → Turn) (failures : list failure) (done : gmap Key Z) (st : Store) : result error unit * Store * gmap Key Z :=
  match check_all turns done failures ∅ st with
  | (Ok seen, st') => (Ok tt, st', seen)
  | (Err e, st') => (Err e, st', done)
  end.

(** ** The pass *)

(** [wakeKeys] *)
Definition wakeKeys (agy : bool) (condition : MessageRow → bool) (now : Z) (s : State) : list Key :=
  take 16 (fst <$> merge_sort key_le (select (λ k r,
    exists_where (λ _ m, keqb (m_recipient m) k && condition m && (handled r <? m_seq m)) (messages s) && active_row now r &&
    negb (seqb (Family k) "maintainer") && (agy || negb (seqb (Family k) "agy"))) (sessions s))).
(** The error of a pass names its stage ([wakePassError]). *)
Inductive wakeStage := CheckTurns | ListExhausted | FailUnhandled | ListDue | SubmitWake.
Fixpoint fail_all (turns : Key → Turn) (keys : list Key) (st : Store) : result error unit * Store :=
  match keys with
  | [] => (Ok tt, st)
  | k :: keys => match failUnhandled (turns k) k st with (Err e, st') => (Err e, st') | (Ok _, st') => fail_all turns keys st' end
  end.
Fixpoint submit_all (turns : Key → SubmitTurn) (send : Adapter) (keys : list Key) (st : Store) : result error unit * Store :=
  match keys with
  | [] => (Ok tt, st)
  | k :: keys => match submitWake (turns k) send k false st with (Err e, st') => (Err e, st') | (Ok _, st') => submit_all turns send keys st' end
  end.
(** [wakeStep]; the context of a pass ends only when the daemon stops. *)
Record PassTurns := mkPassTurns {
  ps_turns : Key → Turn; ps_before : Store → Store; ps_due : Z; ps_active : Z; ps_fail : Key → Turn;
  ps_between : Store → Store; ps_active_due : Z; ps_submit : Key → SubmitTurn }.
Definition wakeStep (t : PassTurns) (send : Adapter) (failures : list failure) (done : gmap Key Z) (st : Store) :
    result (wakeStage * error) unit * Store * gmap Key Z :=
  match checkTurns (ps_turns t) failures done st with
  | (Err e, st1, done) => (Err (CheckTurns, e), st1, done)
  | (Ok _, st1, done) =>
      let st1 := ps_before t st1 in
      match fail_all (ps_fail t) (wakeKeys true (λ m, dueWake (ps_due t) m && (wakeNoticeLimit <=? m_wake_notices m)) (ps_active t) (tables st1)) st1 with
      | (Err e, st2) => (Err (FailUnhandled, e), st2, done)
      | (Ok _, st2) =>
          let st2 := ps_between t st2 in
          match submit_all (ps_submit t) send (wakeKeys false (dueWake (ps_due t)) (ps_active_due t) (tables st2)) st2 with
          | (Err e, st3) => (Err (SubmitWake, e), st3, done)
          | (Ok _, st3) => (Ok tt, st3, done)
          end
      end
  end.

(** [WakeHealth]: the unhandled messages to sessions that are not retired, by state and reason *)
Definition waits_in (s : State) (P : Key → MessageRow → bool) : Z :=
  count_where (λ _ m, match sessions s !! m_recipient m with Some r => (handled r <? m_seq m) && (s_retired_at r =? 0) && P (m_recipient m) m | None => false end) (messages s).
Record Health := mkHealth { wh_waiting : Z; wh_uncertain : Z; wh_notified : Z; wh_failed : Z; wh_reasons : string → Z }.
Definition WakeHealth (s : State) : Health :=
  let counted st := waits_in s (λ k m, negb (seqb (Family k) "maintainer") && bool_decide (m_delivery_state m = st)) in
  mkHealth (counted Waiting) (counted Uncertain) (counted Notified) (counted Failed)
    (λ reason, if seqb reason "" then 0 else waits_in s (λ _ m, seqb (m_wake_reason m) reason)).

(** ** The health of the pass (wake_health.go) *)

Record wakeFault := mkFault { wf_Class : string; wf_Stage : string; wf_At : Z; wf_ErrorTypes : list string; wf_SQLiteCode : option Z }.
(** [sameWakeFault]: everything but the time *)
Definition sameWakeFault (a : option wakeFault) (b : wakeFault) : bool :=
  match a with
  | None => false
  | Some a => seqb (wf_Class a) (wf_Class b) && seqb (wf_Stage a) (wf_Stage b) && bool_decide (wf_SQLiteCode a = wf_SQLiteCode b) &&
              seqb (String.concat (String nul "") (wf_ErrorTypes a)) (String.concat (String nul "") (wf_ErrorTypes b))
  end.
Record wakeFaults := mkFaults { fs_fault : string; fs_current : option wakeFault; fs_last : option wakeFault }.
(** [recordWakePass]: the fault of a failed pass, and the event that is logged *)
Definition recordWakePass (fault : option wakeFault) (h : wakeFaults) : wakeFaults * option (string * wakeFault) :=
  match fault with
  | Some f => (mkFaults (wf_Class f) (Some f) (Some f), if sameWakeFault (fs_current h) f then None else Some ("wake_fault"%string, f))
  | None => match fs_current h with
            | Some previous => (mkFaults "" None (fs_last h), Some ("wake_recovered"%string, previous))
            | None => (h, None)
            end
  end.
