(* ===== verification/InboxProps.v ===== *)
(** * What the inbox operations promise

    The properties of internal/core/messages.go over the definitions of Messages and the
    invariant of Inboxes: sends, acknowledgements, reads and the retention in any interleaving,
    the functional behaviour of each operation, paging, and the redelivery to a new holder. *)

From S2P Require Import Prelude GoString Schema Sql Storage Label Names Fixture Messages Inboxes Sessions Cycles Launches Registrations Retention Wake.
Open Scope Z_scope.

(** ** Sequences only grow *)

(** [above floor s]: every inbox of [floor] exists and its last sequence is at least that. *)
Definition above (floor : gmap Key Z) (s : State) : Prop :=
  ∀ k q, floor !! k = Some q → ∃ r, sessions s !! k = Some r ∧ q ≤ s_last_seq r.

Section above.
Context (floor : gmap Key Z).

Lemma above_sessions {A} (m : tx A) : Keeps sessions m → Maintains (above floor) m.
Proof. apply maintains_keeps. unfold above. intros s s' ->. done. Qed.

Lemma above_update k f : (∀ r, s_last_seq r ≤ s_last_seq (f r)) → Maintains (above floor) (update_session k f).
Proof.
  intros Hf s u s' Hs H. unfold update_session in H. run H. intros k' q Hq. destruct (Hs _ _ Hq) as (r & Hr & Hle). cbn.
  rewrite lookup_alter. destruct (decide (k = k')); subst; rewrite Hr; eexists; (split; [done|]); [specialize (Hf r)|]; lia.
Qed.

Lemma above_take_seq k now : Maintains (above floor) (take_seq k now).
Proof.
  intros s o s' Hs [(r & Hr & _ & _ & ->)|(_ & -> & _)]%take_seq_Ok; [|done]. intros k' q Hq.
  destruct (Hs _ _ Hq) as (r' & Hr' & Hle). cbn. rewrite lookup_insert.
  destruct (decide (k = k')); subst; [|by eauto]. eexists. split; [done|]. cbn. replace r' with r in Hle by congruence. lia.
Qed.

Lemma above_ensure now a : Maintains (above floor) (ensureParticipantInbox now a).
Proof.
  intros s u s' Hs H. unfold ensureParticipantInbox in H. run H. destruct (sessions s !! _) eqn:E; [done|].
  intros k q Hq. destruct (Hs _ _ Hq) as (r & Hr & Hle). exists r. cbn. by rewrite lookup_insert_ne by congruence.
Qed.
End above.

Lemma above_mark floor k a t : Maintains (above floor) (mark k a t).
Proof. apply above_update. intros r. destruct (_ && _); cbn; lia. Qed.
#[export] Hint Resolve above_take_seq above_ensure above_mark : inbox.
#[export] Hint Extern 1 (Maintains (above _) (update_session _ _)) =>
  apply above_update; intros; repeat case_match; cbn; lia : inbox.
#[export] Hint Extern 2 (Maintains (above _) _) => apply above_sessions; solve [names_keeps] : inbox.

Lemma above_sendTx ps floor now caller to body d : Maintains (above floor) (sendTx ps now caller to body d).
Proof.
  unfold sendTx, recipient_of, sender_of, bumpInbox. maintains.
Qed.
Lemma above_ackTx floor now caller t d rev o : Maintains (above floor) (ackTx now caller t d rev o).
Proof. unfold ackTx, bumpInbox. maintains. Qed.
Lemma above_ackParticipantTx floor now caller t : Maintains (above floor) (ackParticipantTx now caller t).
Proof. unfold ackParticipantTx. maintains. Qed.
Lemma above_markReadTx floor now c a after p ms : Maintains (above floor) (markReadTx now c a after p ms).
Proof. unfold markReadTx. maintains. Qed.
Lemma above_setDeliveryTx floor now id st r : Maintains (above floor) (setDeliveryTx now id st r).
Proof. unfold setDeliveryTx. maintains. Qed.
Lemma above_retire_active floor now k : Maintains (above floor) (retire_active now k).
Proof. apply above_update. intros r. destruct (active_row now r); cbn; lia. Qed.
#[export] Hint Resolve above_retire_active : inbox.
Lemma above_setHolder floor now a f i r ac d : Maintains (above floor) (setHolder now a f i r ac d).
Proof. unfold setHolder, reset_inbox. maintains. Qed.
Lemma above_releaseAddress floor now f i r ac : Maintains (above floor) (releaseAddress now f i r ac).
Proof. unfold releaseAddress. maintains. Qed.
#[export] Hint Resolve above_setHolder above_releaseAddress : inbox.
Lemma above_assignNames `{SHA : Sha256} floor now p : Maintains (above floor) (assignNames now p).
Proof.
  unfold assignNames, choose_qualifier, record_conflict. apply maintains_bind.
  { apply above_sessions. by apply peerName_keeps. }
  intros _. maintains. apply above_sessions. by apply createAddress_keeps.
Qed.

(** ** The retention *)

Lemma keeps_cycle_event {B} (f : State → B) id slot e : (∀ s x, f (s <| cycle_events := x |>) = f s) → Keeps f (insert_cycle_event id slot e).
Proof. intros Hf s a s' H. unfold insert_cycle_event in H. destruct (cycle_events s !! _); [done|]. injection H as _ <-. apply Hf. Qed.
Lemma fence_inboxes now reason where_ : Keeps inbox_view (fenceCyclesTx now reason where_).
Proof.
  unfold fenceCyclesTx. apply keeps_bind; [apply keeps_gets|]. intros l. apply keeps_each. intros [id c].
  unfold endCycleTx, cycleEvent, updateCycle, rearm, keepEnableTx, disable, cycleAudit. keeps; by apply keeps_cycle_event.
Qed.

(** What is deleted of an inbox is older than what is kept of it. *)
Lemma inbox_wf_deleted s s' : inbox_wf s → sessions s' = sessions s → messages_issued s' = messages_issued s → messages s' ⊆ messages s →
  (∀ i m j n, messages s !! i = Some m → messages s' !! i = None → messages s' !! j = Some n → m_recipient m = m_recipient n → m_seq m < m_seq n) → inbox_wf s'.
Proof.
  intros [W1 W2 W3 W4 W5 W6] Hs Hi Hsub Hold. split; rewrite ?Hs, ?Hi; try done.
  - intros i m Hl. eapply W1, lookup_weaken; done.
  - intros i m Hl. eapply W3, lookup_weaken; done.
  - intros i j m n Hl1 Hl2. eapply W4; by eapply lookup_weaken.
  - intros i m r q Hl Hr Hq. pose proof (lookup_weaken _ _ _ _ Hl Hsub) as Hl0. destruct (W5 i m r q Hl0 Hr Hq) as (j & n & Hj & Hk & <-). exists j, n.
    destruct (messages s' !! j) as [n'|] eqn:E; [pose proof (lookup_weaken _ _ _ _ E Hsub); split; [congruence|done]|].
    specialize (Hold j n i m Hj E Hl Hk). lia.
Qed.
Lemma oldest_rows k P limit s i m : (i, m) ∈ oldest k P limit s → messages s !! i = Some m ∧ m_recipient m = k ∧ P m = true.
Proof.
  unfold oldest. intros H. apply elem_of_take in H as (j & Hj & _). apply list_elem_of_lookup_2, elem_of_order_by, elem_of_select in Hj as [Hl [Hk%keqb_true HP]%andb_true_iff]. done.
Qed.
(** The oldest of the messages that [P] selects are older than every other message of the inbox,
    when [P] selects whatever is older than a selected one. *)
Lemma oldest_below k P limit s i m j n : inbox_wf s → (∀ x y, P x = true → m_seq y ≤ m_seq x → P y = true) →
  (i, m) ∈ oldest k P limit s → messages s !! j = Some n → m_recipient n = k → (j, n) ∉ oldest k P limit s → m_seq m < m_seq n.
Proof.
  intros Hwf Hdown Hin Hj Hk Hout. destruct (oldest_rows _ _ _ _ _ _ Hin) as (Hi & Hki & HP). destruct (Z.lt_ge_cases (m_seq m) (m_seq n)) as [|Hge]; [done|exfalso].
  assert (m_seq m ≠ m_seq n) as Hne.
  { intros E. pose proof (wf_unique _ Hwf _ _ _ _ Hi Hj ltac:(congruence) E) as ->. apply Hout. by replace n with m by congruence. }
  set (rows := order_by (λ im : Z * MessageRow, m_seq im.2) (select (λ _ m, keqb (m_recipient m) k && P m) (messages s))) in *.
  assert ((j, n) ∈ rows) as Hrow.
  { apply elem_of_order_by, elem_of_select. split; [done|]. apply andb_true_iff. split; [by apply keqb_true|]. by eapply Hdown. }
  unfold oldest in Hin, Hout. fold rows in Hin, Hout. rewrite <-(take_drop (Z.to_nat limit) rows) in Hrow. apply elem_of_app in Hrow as [|Hrow]; [done|].
  pose proof (order_by_sorted (λ im : Z * MessageRow, m_seq im.2) (select (λ _ m, keqb (m_recipient m) k && P m) (messages s))) as Hso. fold rows in Hso.
  rewrite <-(take_drop (Z.to_nat limit) rows) in Hso. pose proof (StronglySorted_app_1_elem_of _ _ _ _ _ Hso Hin Hrow) as Hle. unfold by_Z in Hle. cbn in Hle. lia.
Qed.
Lemma delete_oldest_wf k P limit s : inbox_wf s → (∀ x y, P x = true → m_seq y ≤ m_seq x → P y = true) →
  inbox_wf (s <| messages := filter (λ im, im.1 ∉ (oldest k P limit s).*1) (messages s) |>).
Proof.
  intros Hwf Hdown. eapply inbox_wf_deleted; [done..| |]; cbn; [apply map_filter_subseteq|]. intros i m j n Hi Hgone [Hj Hn]%map_lookup_filter_Some Hk. cbn in Hn.
  apply map_lookup_filter_None in Hgone as [?|Hgone]; [congruence|]. specialize (Hgone _ Hi). cbn in Hgone. apply dec_stable, list_elem_of_fmap in Hgone as ([i' m'] & -> & Hin). cbn in *.
  destruct (oldest_rows _ _ _ _ _ _ Hin) as (Hl & Hm' & _). assert (m' = m) as -> by congruence. eapply (oldest_below k P limit s); [done|done|exact Hin|exact Hj|congruence|].
  intros Hin2. apply Hn, list_elem_of_fmap. by exists (j, n).
Qed.

Lemma wf_bumpInbox k : Maintains inbox_wf (bumpInbox k).
Proof. apply wf_of_keeps. unfold bumpInbox. keeps. Qed.
Lemma deleteMarkedTx_wf k cutoff limit : Maintains inbox_wf (deleteMarkedTx k cutoff limit).
Proof.
  intros s a s' Hwf H. unfold deleteMarkedTx in H. apply bind_Ok in H as (o & s1 & [= -> ->]%gets_Ok & H). destruct (sessions s !! k) as [r|]; [|done].
  run H. unfold delete_messages in R. run R.
  assert (inbox_wf (s <| messages := filter (λ im, im.1 ∉ (oldest k (λ m, m_seq m <=? s_ack_mark r) limit s).*1) (messages s) |>)) as Hwf1.
  { apply delete_oldest_wf; [done|]. intros x y Hx Hy. lia. }
  assert (inbox_wf s1) as Hwf2 by (eapply (maintains_when inbox_wf _ (bumpInbox k)); [intros _; apply wf_bumpInbox|exact Hwf1|exact R0]).
  unfold when in R1. destruct (_ <? limit); [|by run R1]. eapply wf_update_session; [|exact Hwf2|exact R1]. intros x Hx Hy. unfold positions_le. cbn. lia.
Qed.
Lemma deletePurgedTx_wf k limit : Maintains inbox_wf (deletePurgedTx k limit).
Proof.
  intros s a s' Hwf H. unfold deletePurgedTx in H. run H. unfold delete_messages in R. run R. by apply delete_oldest_wf.
Qed.
Lemma markTx_wf now : Maintains inbox_wf (markAcknowledgedTx now).
Proof.
  intros s a s' Hwf H. unfold markAcknowledgedTx in H. run H. eapply (inbox_wf_sessions s); [done..| |]; cbn; intros k r Hr.
  - rewrite lookup_update_where, Hr. cbn. eexists. split; [done|]. pose proof (wf_positions _ Hwf _ _ Hr). unfold positions_le. case_match; cbn; lia.
  - intros Hn. rewrite lookup_update_where, Hn in Hr. done.
Qed.
Lemma markPurgeTx_wf now now_end k revision mark : Maintains inbox_wf (markPurgeTx now now_end k revision mark).
Proof.
  intros s a s' Hwf H. unfold markPurgeTx in H. run H. destruct mark; [|eapply wf_update_session; [|exact Hwf|exact H]; intros x Hx Hy; unfold positions_le; cbn; lia].
  apply bind_Ok in H as (u & s2 & H1 & H2). eapply (wf_of_keeps _ (fence_inboxes _ _ _)); [|exact H2]. eapply wf_update_session; [|exact Hwf|exact H1]. intros x Hx Hy. unfold positions_le. cbn. lia.
Qed.
Section deletion.
Context `{SHA : Sha256}.
Lemma anyMessage_none k s i m : anyMessage k s = false → messages s !! i = Some m → m_recipient m ≠ k.
Proof. unfold anyMessage. intros H Hl E. pose proof (proj1 (exists_where_false _ _) H _ _ Hl) as Hn. cbn in Hn. by apply keqb_false in Hn. Qed.
(** An accepted deletion *)
Lemma deleteSessionTx_Ok now later k condition s a s' : deleteSessionTx now later k condition s = Ok (a, s') →
  a = true ∧ ∃ s1, fenceCyclesTx now "session_deleted" (ended_with k) s = Ok (tt, s1) ∧ deletable condition k s1 = true ∧
    inbox_view s' = (delete k (sessions s1), messages s1, messages_issued s1).
Proof.
  intros H. unfold deleteSessionTx in H. apply bind_Ok in H as ([] & s1 & H1 & H). run H. split; [done|]. exists s1. split; [done|]. split; [done|].
  assert (Keeps inbox_view (releaseAddress later (Family k) (ID k) "session_deleted" "daemon")) as Hk by (unfold releaseAddress; names_keeps).
  apply Hk in R. unfold inbox_view in *. cbn. exact R.
Qed.
Lemma deleteSessionTx_wf now later k condition : Maintains inbox_wf (deleteSessionTx now later k condition).
Proof.
  intros s a s' Hwf H. apply deleteSessionTx_Ok in H as (_ & s1 & H1 & Hd & Hv). pose proof (wf_of_keeps _ (fence_inboxes _ _ _) _ _ _ Hwf H1) as [W1 W2 W3 W4 W5 W6].
  unfold deletable in Hd. destruct (sessions s1 !! k) as [r|]; [|done]. rewrite !andb_true_iff, !negb_true_iff in Hd. destruct Hd as [_ Hm].
  injection Hv as Es Em Ei. split; unfold has_seq; rewrite ?Es, ?Em, ?Ei; try done.
  - intros i m Hl. destruct (W3 _ _ Hl) as (Hq & x & Hx & Hle). split; [done|]. exists x. rewrite lookup_delete_ne; [done|]. intros E. by eapply anyMessage_none.
  - intros i m x q Hl [_ Hx]%lookup_delete_Some Hq. by eapply W5.
  - intros k' x [_ Hx]%lookup_delete_Some. by eapply W6.
Qed.
End deletion.

Lemma above_mark_due floor now : Maintains (above floor) (markAcknowledgedTx now).
Proof.
  intros s a s' Hs H. unfold markAcknowledgedTx in H. run H. intros k q Hq. destruct (Hs _ _ Hq) as (r & Hr & Hle). cbn. rewrite lookup_update_where, Hr. cbn.
  eexists. split; [done|]. by case_match.
Qed.
Lemma above_deleteMarkedTx floor k cutoff limit : Maintains (above floor) (deleteMarkedTx k cutoff limit).
Proof.
  unfold deleteMarkedTx, delete_messages, bumpInbox. apply maintains_bind; [apply above_sessions; keeps|]. intros [r|]; [|by intros s a s' _ H]. maintains.
Qed.
Lemma above_deletePurgedTx floor k limit : Maintains (above floor) (deletePurgedTx k limit).
Proof. apply above_sessions. unfold deletePurgedTx, delete_messages. keeps. Qed.
Lemma above_fence floor now reason where_ : Maintains (above floor) (fenceCyclesTx now reason where_).
Proof. apply above_sessions. intros s a s' H. apply fence_inboxes in H. by injection H. Qed.
Lemma above_markPurgeTx floor now now_end k revision mark : Maintains (above floor) (markPurgeTx now now_end k revision mark).
Proof.
  unfold markPurgeTx. maintains; try apply above_fence; apply above_update; intros r; cbn; lia.
Qed.

(** ** Wakes *)

Lemma recordWakeTx_wf now due b r attempts : Maintains inbox_wf (recordWakeTx now due b r attempts).
Proof.
  apply maintains_modify. intros s Hs. refine (wf_update_messages _ _ _ s tt _ Hs eq_refl). done.
Qed.
Lemma recordTurnFailureTx_wf k code at_ now : Maintains inbox_wf (recordTurnFailureTx k code at_ now).
Proof.
  apply maintains_modify. intros s Hs. refine (wf_update_messages _ _ _ s tt _ Hs eq_refl). done.
Qed.
Lemma noticeMaintainer_wf now body : Maintains inbox_wf (noticeMaintainer now body).
Proof.
  intros s u s' Hs H. unfold noticeMaintainer in H. run H. cbn zeta in *.
  match goal with R : insert_message _ _ = Ok (_, ?x) |- _ => apply (inbox_wf_view x); [unfold bumpChange in H; by run H|] end. eapply deliver_row_wf; [exact Hs|exact L| | |eassumption]; done.
Qed.
Lemma failUnhandledTx_wf now name k : Maintains inbox_wf (failUnhandledTx now name k).
Proof.
  intros s u s' Hs H. unfold failUnhandledTx in H. run H. eapply noticeMaintainer_wf; [|exact H].
  refine (wf_update_messages _ _ _ s tt _ Hs eq_refl). done.
Qed.
Lemma above_noticeMaintainer floor now body : Maintains (above floor) (noticeMaintainer now body).
Proof.
  intros s u s' Hs H. unfold noticeMaintainer in H. run H. cbn zeta in *.
  assert (sessions s' = <[maintainerKey := v <| s_last_seq := s_last_seq v + 1 |> ]> (sessions s)) as E.
  { match goal with R : insert_message _ _ = Ok _ |- _ => apply insert_message_Ok in R as (_ & -> & _) end. unfold bumpChange in H. by run H. }
  intros k q Hq. destruct (Hs _ _ Hq) as (r & Hr & Hle). rewrite E, lookup_insert. destruct (decide _) as [<-|]; [|eauto].
  eexists. split; [done|]. cbn. replace r with v in Hle by congruence. lia.
Qed.
Lemma above_failUnhandledTx floor now name k : Maintains (above floor) (failUnhandledTx now name k).
Proof. intros s u s' Hs H. unfold failUnhandledTx in H. run H. by eapply above_noticeMaintainer; [|exact H]. Qed.

(** ** Any interleaving of the operations

    A read runs in two transactions: [readInboxes] returns a page, and [markReadTx] later
    records that the page was read.  A configuration is the state with the pages that were
    returned; every other operation may run between the two.  A deleted session records no page
    that it read before. *)

(** What a transaction of another part does to the rows of inboxes: a new row is an empty inbox. *)
Definition same_inbox (old new : option SessionRow) : Prop :=
  match old, new with
  | Some r, Some r' => s_last_seq r' = s_last_seq r ∧ s_acked_through r' = s_acked_through r ∧ s_read_through r' = s_read_through r
  | None, Some r' => s_last_seq r' = 0 ∧ s_acked_through r' = 0 ∧ s_read_through r' = 0
  | None, None => True
  | Some _, None => False
  end.

Record Returned := mkReturned {
  rt_caller : Key; rt_address : string; rt_after : Z; rt_pafter : option Z; rt_messages : list Message }.

(** The inbox that a returned message belongs to *)
Definition inbox_of (rt : Returned) (m : Message) : Key :=
  match ms_Inbox m with
  | OfSession => rt_caller rt
  | OfParticipant => mkKey (Family (rt_caller rt)) (participantKey (rt_address rt))
  end.

Section interleaving.
Context `{SHA : Sha256} (processStart : Z → ProcessStart).

Inductive inbox_step : State * list Returned → State * list Returned → Prop :=
| step_send now caller to body dashboard s s' out rts :
    sendTx processStart now caller to body dashboard s = Ok (out, s') → inbox_step (s, rts) (s', rts)
| step_ack now caller through dashboard revision origin s s' z rts :
    ackTx now caller through dashboard revision origin s = Ok (z, s') → inbox_step (s, rts) (s', rts)
| step_ackParticipant now caller through s s' az rts :
    0 ≤ through → ackParticipantTx now caller through s = Ok (az, s') → inbox_step (s, rts) (s', rts)
| step_setDelivery now id st reason s s' u rts :
    setDeliveryTx now id st reason s = Ok (u, s') → inbox_step (s, rts) (s', rts)
| step_assign now p s s' u rts :
    assignNames now p s = Ok (u, s') → inbox_step (s, rts) (s', rts)
| step_setHolder now address former id reason actor details s s' u rts :
    setHolder now address former id reason actor details s = Ok (u, s') → inbox_step (s, rts) (s', rts)
| step_release now family id reason actor s s' u rts :
    releaseAddress now family id reason actor s = Ok (u, s') → inbox_step (s, rts) (s', rts)
| step_read now caller after pafter limit inbox address s s' rts :
    readInboxes now caller after pafter limit s = Ok ((inbox, address), s') →
    inbox_step (s, rts) (s', mkReturned caller address after pafter (i_Messages inbox) :: rts)
| step_markRead now rt s s' u rts :
    rt ∈ rts → markReadTx now (rt_caller rt) (rt_address rt) (rt_after rt) (rt_pafter rt) (rt_messages rt) s = Ok (u, s') →
    inbox_step (s, rts) (s', rts)
| step_mark now s s' u rts : markAcknowledgedTx now s = Ok (u, s') → inbox_step (s, rts) (s', rts)
| step_deleteMarked k cutoff limit s s' a rts : deleteMarkedTx k cutoff limit s = Ok (a, s') → inbox_step (s, rts) (s', rts)
| step_deletePurged k limit s s' a rts : deletePurgedTx k limit s = Ok (a, s') → inbox_step (s, rts) (s', rts)
| step_markPurge now now_end k revision mark s s' u rts : markPurgeTx now now_end k revision mark s = Ok (u, s') → inbox_step (s, rts) (s', rts)
| step_deleteSession now later k condition s s' a rts rts' :
    deleteSessionTx now later k condition s = Ok (a, s') → (∀ rt, rt ∈ rts' → rt ∈ rts ∧ ∀ m, m ∈ rt_messages rt → inbox_of rt m ≠ k) →
    inbox_step (s, rts) (s', rts')
| step_recordWake now due b r attempts s s' u rts : recordWakeTx now due b r attempts s = Ok (u, s') → inbox_step (s, rts) (s', rts)
| step_failUnhandled now name k s s' u rts : failUnhandledTx now name k s = Ok (u, s') → inbox_step (s, rts) (s', rts)
| step_turnFailure k code at_ now s s' u rts : recordTurnFailureTx k code at_ now s = Ok (u, s') → inbox_step (s, rts) (s', rts)
| step_other s s' rts :
    messages s' = messages s → messages_issued s' = messages_issued s → (∀ k, same_inbox (sessions s !! k) (sessions s' !! k)) → inbox_step (s, rts) (s', rts).

Definition returned_ok (s : State) (rt : Returned) : Prop :=
  ∀ m, m ∈ rt_messages rt → 0 ≤ ms_Seq m ∧ ∃ r, sessions s !! inbox_of rt m = Some r ∧ ms_Seq m ≤ s_last_seq r.
Definition inbox_inv (c : State * list Returned) : Prop := inbox_wf c.1 ∧ ∀ rt, rt ∈ c.2 → returned_ok c.1 rt.

Lemma returned_mono (rts : list Returned) {A} (m : tx A) s a s' :
  (∀ floor, Maintains (above floor) m) → m s = Ok (a, s') →
  (∀ rt, rt ∈ rts → returned_ok s rt) → ∀ rt, rt ∈ rts → returned_ok s' rt.
Proof.
  intros Hm Hr Hok rt Hin x Hx. destruct (Hok rt Hin x Hx) as (H0 & r & Hk & Hle). split; [done|].
  apply (Hm {[inbox_of rt x := ms_Seq x]} s a s'); [|done|by rewrite lookup_singleton_eq].
  intros k q. rewrite lookup_singleton. case_decide; [|done]. intros [= <-]. subst. eauto.
Qed.

(** The highest sequence read of one kind is one of the returned sequences. *)
Lemma read_of_bound kind ms through b : read_of kind ms = Some through → 0 ≤ b →
  (∀ m, m ∈ ms → ms_Inbox m = kind → ms_Seq m ≤ b) → through ≤ b.
Proof.
  unfold read_of. destruct (filter _ ms) as [|x l] eqn:E; [done|]. intros Heq Hb Hm.
  assert (through = foldr (λ m z, z `max` ms_Seq m) 0 (x :: l)) as -> by congruence. clear Heq.
  assert (∀ m, m ∈ x :: l → ms_Seq m ≤ b) as Hall.
  { intros m. rewrite <-E, list_elem_of_filter. intros [Hk Hin]. by apply Hm. }
  clear E. induction (x :: l) as [|y t IH]; cbn; [done|].
  pose proof (Hall y (list_elem_of_here _ _)). specialize (IH ltac:(intros; apply Hall; by right)). lia.
Qed.

Lemma markReadTx_wf now rt s u s' : inbox_wf s → returned_ok s rt →
  markReadTx now (rt_caller rt) (rt_address rt) (rt_after rt) (rt_pafter rt) (rt_messages rt) s = Ok (u, s') → inbox_wf s'.
Proof.
  intros Hs Hok H.
  unfold markReadTx in H. run H.
  assert (∀ kind through r k, read_of kind (rt_messages rt) = Some through →
    (∀ m, ms_Inbox m = kind → inbox_of rt m = k) → sessions s !! k = Some r → through ≤ s_last_seq r) as Hb.
  { intros kind through r k Hr Hk Hl. eapply read_of_bound; [done| |].
    - destruct (wf_positions _ Hs _ _ Hl). lia.
    - intros m Hm Hkind. destruct (Hok m Hm) as (_ & r' & Hr' & Hle). rewrite (Hk m Hkind) in Hr'. congruence. }
  assert (inbox_wf s0 ∧ ∀ k, s_last_seq <$> sessions s0 !! k = s_last_seq <$> sessions s !! k) as [Hs0 Hlast].
  { destruct (read_of OfSession _) as [t|] eqn:E; [|by run R]. split.
    - eapply mark_wf; [exact Hs| |exact R]. intros r Hr. eapply (Hb OfSession); [done| |done]. intros m Hm. unfold inbox_of. by rewrite Hm.
    - intros k. unfold mark, update_session in R. run R. cbn. rewrite lookup_alter. destruct (decide (rt_caller rt = k)) as [<- |]; [|done].
      destruct (sessions s !! rt_caller rt); cbn; [|done]. by destruct ((_ <? t) && _). }
  destruct (read_of OfParticipant _) as [t|] eqn:E; [|by run H]. unfold when in H. destruct (negb _); [|by run H].
  eapply mark_wf; [exact Hs0| |exact H]. intros r Hr.
  pose proof (Hlast (mkKey (Family (rt_caller rt)) (participantKey (rt_address rt)))) as Hq. rewrite Hr in Hq.
  destruct (sessions s !! _) as [r0|] eqn:Er; cbn in Hq; [|done]. injection Hq as Hq. rewrite Hq.
  eapply (Hb OfParticipant); [done| |exact Er]. intros m Hm. unfold inbox_of. by rewrite Hm.
Qed.
Lemma readMessages_returned k after limit kind s ms p s' m :
  inbox_wf s → readMessages k after limit kind s = Ok ((ms, p), s') → m ∈ ms →
  ms_Inbox m = kind ∧ 0 ≤ ms_Seq m ∧ ∃ r, sessions s !! k = Some r ∧ ms_Seq m ≤ s_last_seq r.
Proof.
  intros Hs H Hm. eapply readMessages_stored in H as (Hk & x & Hx & Hrec & Hq); [|exact Hm].
  destruct (wf_seqs _ Hs _ _ Hx) as (H1 & r & Hr & Hle). rewrite Hrec in Hr. rewrite Hq in *.
  split_and!; [done|lia|eauto].
Qed.

Lemma hide_client_returned (ms : list Message) m : m ∈ hide_client <$> ms → ∃ m0, m0 ∈ ms ∧ ms_Inbox m = ms_Inbox m0 ∧ ms_Seq m = ms_Seq m0.
Proof. intros (m0 & -> & ?)%list_elem_of_fmap. by exists m0. Qed.

Lemma readMessages_state k after limit kind s x s' : readMessages k after limit kind s = Ok (x, s') → s' = s.
Proof. destruct x as [ms [[last acked] more]]. by intros (-> & _)%readMessages_Ok. Qed.

Lemma readInboxes_returned now caller after pafter limit s inbox address s' :
  inbox_wf s → readInboxes now caller after pafter limit s = Ok ((inbox, address), s') →
  s' = s ∧ returned_ok s (mkReturned caller address after pafter (i_Messages inbox)).
Proof.
  intros Hs H. unfold readInboxes in H. run H. apply check_Ok in R as [_ [= _ ->]].
  pose proof (readMessages_state _ _ _ _ _ _ _ R0) as ->.
  destruct a0 as [ms [[last acked] more]]. pose proof (λ m, readMessages_returned _ _ _ _ _ _ _ _ m Hs R0) as Hown.
  destruct (seqb (heldAddress now caller s) "") eqn:Eh; run H.
  - split; [done|]. intros m (m0 & Hm & Hk & ->)%hide_client_returned. destruct (Hown _ Hm) as (Hk' & H0 & Hr).
    unfold inbox_of. rewrite Hk, Hk'. done.
  - destruct (bool_decide _) eqn:Eb in H; run H.
    + match goal with R : readMessages (mkKey _ _) _ _ _ _ = Ok _ |- _ => rename R into Rp end.
      pose proof (readMessages_state _ _ _ _ _ _ _ Rp) as ->.
      destruct a0 as [ps [[pl pa] pm]]. pose proof (λ m, readMessages_returned _ _ _ _ _ _ _ _ m Hs Rp) as Hpart. run H.
      split; [done|]. intros m (m0 & Hm & Hk & ->)%hide_client_returned. cbn in Hm. unfold inbox_of. rewrite Hk. cbn.
      apply elem_of_app in Hm as [Hm|Hm]; [destruct (Hown _ Hm) as (-> & ? & ?)|destruct (Hpart _ Hm) as (-> & ? & ?)]; done.
    + split; [done|]. intros m (m0 & Hm & Hk & ->)%hide_client_returned. destruct (Hown _ Hm) as (Hk' & H0 & Hr).
      unfold inbox_of. rewrite Hk, Hk'. done.
Qed.
Lemma deleteSessionTx_returned now later k condition s a s' rt : deleteSessionTx now later k condition s = Ok (a, s') → returned_ok s rt →
  (∀ m, m ∈ rt_messages rt → inbox_of rt m ≠ k) → returned_ok s' rt.
Proof.
  intros (_ & s1 & Hf & _ & Hv)%deleteSessionTx_Ok Hok Hne m Hm. destruct (Hok m Hm) as (Hq & r & Hr & Hle). split; [done|]. exists r. split; [|done].
  apply fence_inboxes in Hf. injection Hv as -> _ _. injection Hf as -> _ _. rewrite lookup_delete_ne; [done|]. symmetry. by apply Hne.
Qed.
Lemma inbox_wf_same s s' : inbox_wf s → messages s' = messages s → messages_issued s' = messages_issued s → (∀ k, same_inbox (sessions s !! k) (sessions s' !! k)) → inbox_wf s'.
Proof.
  intros Hwf Hm Hi Hs. eapply (inbox_wf_sessions s); [done..| |]; intros k r Hr; specialize (Hs k); [rewrite Hr in Hs|intros Hn; rewrite Hr, Hn in Hs; cbn in Hs; lia].
  destruct (sessions s' !! k) as [r'|]; [|done]. exists r'. split; [done|]. cbn in Hs. pose proof (wf_positions _ Hwf _ _ Hr). unfold positions_le. lia.
Qed.
End interleaving.

(** Before the first message of an installation the invariant holds. *)
Definition quiet (s : State) : bool :=
  bool_decide (messages s = ∅) && (messages_issued s =? 0) &&
  forallb (λ kr, (s_last_seq kr.2 =? 0) && (s_acked_through kr.2 =? 0) && (s_read_through kr.2 =? 0)) (map_to_list (sessions s)).
Lemma quiet_wf s : quiet s = true → inbox_wf s.
Proof.
  unfold quiet. rewrite !andb_true_iff, bool_decide_eq_true, Z.eqb_eq, forallb_forall. intros [[Hm Hi] Hall].
  assert (∀ k r, sessions s !! k = Some r → s_last_seq r = 0 ∧ s_acked_through r = 0 ∧ s_read_through r = 0) as Hr.
  { intros k r Hl%elem_of_map_to_list%list_elem_of_In. specialize (Hall _ Hl). cbn in Hall. lia. }
  split; rewrite ?Hm, ?Hi; try done.
  intros k r Hk. apply Hr in Hk. lia.
Qed.

(** C1: in any interleaving of sends, reads, read marks, acknowledgements, deliveries, namings,
    holder changes, releases, wakes, retention sweeps, purges and other transactions, each inbox keeps
    its messages without two in one place and without a gap from the oldest that is left to its
    last sequence, and neither its acknowledged nor its read position passes the last sequence.  A
    read mark may come at any later time, but not after the inbox that it read was deleted: when
    that session registers again, such a mark passes the last sequence ([late_mark]). *)
Theorem inbox_invariant `{SHA : Sha256} processStart c c' :
  inbox_inv c → rtc (inbox_step processStart) c c' → inbox_inv c'.
Proof.
  intros Hc Hs. induction Hs as [|c c1 c' Hstep _ IH]; [done|]. apply IH. destruct Hc as [Hwf Hok]. unfold inbox_inv.
  destruct Hstep; cbn in *.
  - split; [by eapply sendTx_wf|]. eapply returned_mono; [|done..]. intros; apply above_sendTx.
  - split; [by eapply ackTx_wf|]. eapply returned_mono; [|done..]. intros; apply above_ackTx.
  - split; [by eapply ackParticipantTx_wf|]. eapply returned_mono; [|done..]. intros; apply above_ackParticipantTx.
  - split; [by eapply setDeliveryTx_wf|]. eapply returned_mono; [|done..]. intros; apply above_setDeliveryTx.
  - split; [by eapply wf_assignNames|]. eapply returned_mono; [|done..]. intros; apply above_assignNames.
  - split; [by eapply wf_setHolder|]. eapply returned_mono; [|done..]. intros; apply above_setHolder.
  - split; [by eapply wf_releaseAddress|]. eapply returned_mono; [|done..]. intros; apply above_releaseAddress.
  - apply readInboxes_returned in H as [-> Hr]; [|done]. split; [done|]. intros rt [-> | Hin]%elem_of_cons; [done|by apply Hok].
  - split; [by eapply markReadTx_wf, H0; [|apply Hok]|]. eapply returned_mono; [|done..]. intros; apply above_markReadTx.
  - split; [by eapply markTx_wf|]. eapply returned_mono; [|done..]. intros; apply above_mark_due.
  - split; [by eapply deleteMarkedTx_wf|]. eapply returned_mono; [|done..]. intros; apply above_deleteMarkedTx.
  - split; [by eapply deletePurgedTx_wf|]. eapply returned_mono; [|done..]. intros; apply above_deletePurgedTx.
  - split; [by eapply markPurgeTx_wf|]. eapply returned_mono; [|done..]. intros; apply above_markPurgeTx.
  - split; [by eapply deleteSessionTx_wf|]. intros rt Hin. destruct (H0 _ Hin) as [Hin0 Hne]. by eapply deleteSessionTx_returned; [|apply Hok|].
  - split; [by eapply recordWakeTx_wf|]. eapply returned_mono; [|done..]. intros. apply above_sessions. unfold recordWakeTx. keeps.
  - split; [by eapply failUnhandledTx_wf|]. eapply returned_mono; [|done..]. intros; apply above_failUnhandledTx.
  - split; [by eapply recordTurnFailureTx_wf|]. eapply returned_mono; [|done..]. intros. apply above_sessions. unfold recordTurnFailureTx. keeps.
  - split; [by eapply inbox_wf_same|]. intros rt Hin m Hm. destruct (Hok _ Hin _ Hm) as (Hq & r & Hr & Hle). split; [done|]. specialize (H1 (inbox_of rt m)). rewrite Hr in H1.
    destruct (sessions s' !! _) as [r'|]; [|done]. exists r'. split; [done|]. cbn in H1. lia.
Qed.
Definition sent : State := after (sendTx (λ _, ProcessGone) 20 peer_a "codex-x-0b" "hello" false) small_state.
Lemma sent_wf : inbox_wf sent.
Proof.
  destruct (run_after (sendTx (λ _, ProcessGone) 20 peer_a "codex-x-0b" "hello" false) small_state) as [out E]; [by vm_compute|].
  assert (inbox_wf small_state) as Hs by (apply quiet_wf; by vm_compute).
  unfold sent. exact (sendTx_wf _ _ _ _ _ _ _ _ _ Hs E).
Qed.
Lemma inbox_invariant_witness : inbox_inv (sent, []).
Proof.
  destruct (run_after (sendTx (λ _, ProcessGone) 20 peer_a "codex-x-0b" "hello" false) small_state) as [out E]; [by vm_compute|].
  refine (@inbox_invariant zero_sum (λ _, ProcessGone) (small_state, []) (sent, []) _ (rtc_once _ _ _)).
  - split; [apply quiet_wf; vm_compute; reflexivity|]. intros rt []%elem_of_nil.
  - exact (@step_send zero_sum _ _ _ _ _ _ _ _ _ _ E).
Defined.

(** A page that peer b read is marked after its session was deleted and registered again, when its
    inbox is as new as that of the small installation. *)
Definition page_read : list Message := match readInboxes 25 peer_b 0 None 10 sent with Ok ((inbox, _), _) => i_Messages inbox | Err _ => [] end.
Lemma late_mark : length page_read = 1%nat ∧ inbox_wf small_state ∧
  ∃ s r, markReadTx 30 peer_b "" 0 None page_read small_state = Ok (tt, s) ∧ sessions s !! peer_b = Some r ∧ s_last_seq r < s_read_through r.
Proof.
  split; [vm_compute; reflexivity|]. split; [apply quiet_wf; vm_compute; reflexivity|].
  destruct (run_after (markReadTx 30 peer_b "" 0 None page_read) small_state) as [[] E]; [by vm_compute|]. eexists _, _. split; [exact E|]. split; vm_compute; reflexivity.
Qed.

(** ** Send *)

Lemma ensureParticipantInbox_Ok now a s u s' : ensureParticipantInbox now a s = Ok (u, s') → ∃ n, names s !! a = Some n ∧ n_kind n = Alias ∧
  (s' = s ∨ sessions s !! mkKey (n_family n) (participantKey a) = None ∧
     s' = s <| sessions := <[mkKey (n_family n) (participantKey a) := inbox_row now n]> (sessions s) |>).
Proof.
  unfold ensureParticipantInbox. intros H. apply bind_Ok in H as (o & s0 & [= -> ->]%gets_Ok & H). apply bind_Ok in H as (n & s0 & (x & Hn & [= -> ->])%row_Ok & H).
  apply bind_Ok in H as (v & s0 & [Hk%bool_decide_eq_true [= -> ->]]%ensure_Ok & H). apply modify_Ok in H as [= _ ->]. exists x. split_and!; [done..|].
  destruct (sessions s !! _) eqn:E; [by left|by right].
Qed.
Lemma recipient_of_total now to n s :
  names s !! to = Some n →
  (n_kind n = Alias → n_holder_id n ≠ ""%string ∧ holds now (n_family n) (n_holder_id n) (n_repository n) (n_role n) s = true) →
  ∃ s1, recipient_of now to n s = Ok (ID (recipient_key to n), s1).
Proof.
  intros Hn Ha. unfold recipient_of, recipient_key. destruct (n_kind n) eqn:Ek; cbn; [by eexists|].
  destruct (Ha eq_refl) as [He Hh]. apply seqb_false in He.
  eexists. rewrite (bind_run _ _ _ _ _ eq_refl), He, Hh, (bind_run _ _ _ tt s eq_refl).
  unfold ensureParticipantInbox. erewrite bind_run; [reflexivity|].
  by rewrite (bind_run _ _ _ _ _ eq_refl), (bind_run _ _ _ n s), (bind_run _ _ _ tt s); rewrite ?Hn; unfold ensure; rewrite ?Ek.
Qed.

Lemma peer_name_keeps {A} (m : tx A) k s a s' : Keeps names m → m s = Ok (a, s') → peer_name_of k s' = peer_name_of k s.
Proof. intros Hk Hr. unfold peer_name_of. by rewrite (Hk _ _ _ Hr). Qed.

Lemma sender_of_total now caller s name : peer_name_of caller s = Some name →
  sender_of now caller s = Ok (if seqb (heldAddress now caller s) "" then name else heldAddress now caller s, s).
Proof.
  intros Hp. unfold sender_of, mbind, M_bind, gets, row. destruct (seqb _ _); [|done]. cbn. by rewrite Hp.
Qed.

(** The name that the outcome shows is known. *)
Lemma shown_total to n s : match n_kind n with Peer => is_Some (peer_name_of (recipient_key to n) s) | Alias => True end →
  ∃ shown, (if isParticipantID (ID (recipient_key to n)) then mret to
            else o ← gets (peer_name_of (recipient_key to n)); row (o : option string) NoRows) s = Ok (shown, s).
Proof.
  intros Hk. destruct (isParticipantID _) eqn:Ep; [exists to; reflexivity|]. destruct (n_kind n) eqn:Ek.
  - destruct Hk as [x Hx]. exists x. unfold mbind, M_bind, gets, row. by rewrite Hx.
  - unfold recipient_key in Ep. rewrite Ek in Ep. unfold isParticipantID, participantKey, has_prefix in Ep. cbn [ID] in Ep.
    by rewrite prefix_app in Ep.
Qed.

(** a message to a live recipient is delivered: it gets a fresh ID and the next sequence of
    the recipient's inbox, waits for a wake, and changes no other inbox and no other message. *)
Theorem send_delivers processStart now caller to body dashboard s n r name :
  inbox_wf s → activeCaller now caller dashboard s = None → peer_name_of caller s = Some name →
  names s !! to = Some n → recipient_row now to n s = Some r → active_row now r = true →
  match n_kind n with
  | Peer => is_Some (peer_name_of (recipient_key to n) s)
  | Alias => n_holder_id n ≠ ""%string ∧ holds now (n_family n) (n_holder_id n) (n_repository n) (n_role n) s = true
  end →
  ∃ out s' sender, sendTx processStart now caller to body dashboard s = Ok (out, s') ∧
    delivered now (recipient_key to n) r (new_message (recipient_key to n) (s_last_seq r + 1) caller sender body now) s s' ∧
    messages s !! o_ID out = None ∧ o_ID out = messages_issued s + 1 ∧ o_Seq out = s_last_seq r + 1 ∧
    o_DeliveryState out = Stored Waiting.
Proof.
  intros Hwf Hc Hname Hn Hrow Ha Hk.
  destruct (recipient_of_total now to n s Hn) as (s1 & H1); [intros E; by rewrite E in Hk|].
  pose proof (recipient_of_Ok _ _ _ _ _ _ Hn H1) as (Hkey & Hs1 & _ & Hnames & _ & _ & _).
  assert (peer_name_of caller s1 = Some name) as Hname1 by (unfold peer_name_of; by rewrite Hnames).
  pose proof (sender_of_total now _ _ _ Hname1) as H2. set (sender := if seqb _ _ then _ else _) in H2.
  assert (∃ s2, take_seq (recipient_key to n) now s1 = Ok (Some (s_last_seq r + 1), s2)) as (s2 & H3).
  { eexists. apply take_seq_Ok. left. exists r. by rewrite Hs1, Hrow. }
  assert (inbox_wf s1) as Hwf1.
  { unfold recipient_of in H1. destruct (n_kind n); run H1; [done|]. by eapply wf_ensureParticipantInbox. }
  destruct (deliver_total _ _ _ (new_message (recipient_key to n) (s_last_seq r + 1) caller sender body now) _ _ Hwf1 H3) as (s3 & H4); [done..|].
  assert (∃ out s', sendTx processStart now caller to body dashboard s = Ok (out, s')) as (out & s' & Hsend).
  { unfold sendTx. rewrite (bind_run _ _ _ tt s) by (apply check_Ok; auto).
    rewrite (bind_run _ _ _ _ _ eq_refl), (bind_run _ _ _ n s) by (unfold row; by rewrite Hn).
    rewrite (bind_run _ _ _ _ _ H1), (bind_run _ _ _ _ _ H2), Hkey, (bind_run _ _ _ _ _ H3), (bind_run _ _ _ _ _ H4).
    assert (∃ s4, bumpInbox (recipient_key to n) s3 = Ok (tt, s4)) as (s4 & H5).
    { unfold bumpInbox, when. destruct (keqb _ _); by eexists. }
    rewrite (bind_run _ _ _ _ _ H5).
    assert (names s4 = names s) as Hn4.
    { assert (Keeps names (bumpInbox (recipient_key to n))) as K by (unfold bumpInbox; keeps). rewrite (K _ _ _ H5).
      apply insert_message_Ok in H4 as (_ & -> & _). cbn. apply take_seq_Ok in H3 as [(? & _ & _ & _ & ->)|(? & _)]; [|done]. done. }
    destruct (shown_total to n s4) as (shown & H6).
    { destruct (n_kind n); [|done]. unfold peer_name_of. rewrite Hn4. by destruct Hk. }
    rewrite (bind_run _ _ _ _ _ H6).
    destruct dashboard; unfold when, mbind, M_bind, setAuditTarget, modify; do 2 eexists; reflexivity. }
  pose proof (sendTx_steps _ _ _ _ _ _ _ _ _ Hsend) as (_ & ? & ? & ? & ? & ? & ? & ? & _ & _ & _ & _ & _ & Hout & _).
  assert (o_DeliveryState out = Stored Waiting) as Hst by by rewrite Hout.
  clear Hout.
  apply sendTx_delivered in Hsend as Hd. destruct Hd as (n' & r' & sender' & Hn' & Hr' & Hd & Hi & Hq & _).
  rewrite Hn in Hn'. injection Hn' as <-. rewrite Hrow in Hr'. injection Hr' as <-.
  exists out, s', sender'. split_and!; try done. rewrite Hi. destruct (messages s !! _) eqn:E; [|done].
  apply (wf_ids _ Hwf) in E. lia.
Qed.
Lemma send_delivers_witness : ∃ out s' sender, sendTx (λ _, ProcessGone) 20 peer_a "codex-x-0b" "hello" false small_state = Ok (out, s') ∧
  delivered 20 peer_b (plain_row "/r/x/.git" "" "") (new_message peer_b 1 peer_a sender "hello" 20) small_state s' ∧
  messages small_state !! o_ID out = None ∧ o_ID out = 1 ∧ o_Seq out = 1 ∧ o_DeliveryState out = Stored Waiting.
Proof.
  refine (send_delivers (λ _, ProcessGone) 20 peer_a "codex-x-0b" "hello" false small_state
    (mkNameRow Peer "codex" "b" "/r/x/.git" "" "" []) (plain_row "/r/x/.git" "" "") "claude-x-0a" _ _ _ _ _ _ _); try (vm_compute; reflexivity).
  - by apply quiet_wf; vm_compute.
  - exists "codex-x-0b"%string. by vm_compute.
Defined.

(** each refusal of a send names its cause, in the order of the checks, and writes nothing:
    an inactive caller, an unknown name, an address that no active session holds, and a
    recipient that is gone. *)
Theorem send_refusals processStart now caller to body dashboard s :
  (∀ e, activeCaller now caller dashboard s = Some e → sendTx processStart now caller to body dashboard s = Err e) ∧
  (activeCaller now caller dashboard s = None →
    (names s !! to = None → sendTx processStart now caller to body dashboard s = Err ErrPeerNotFound) ∧
    (∀ n, names s !! to = Some n → n_kind n = Alias →
      n_holder_id n = ""%string ∨ holds now (n_family n) (n_holder_id n) (n_repository n) (n_role n) s = false →
      sendTx processStart now caller to body dashboard s = Err ErrAliasUnheld) ∧
    (∀ n name, names s !! to = Some n → n_kind n = Peer → peer_name_of caller s = Some name →
      (∀ r, sessions s !! mkKey (n_family n) (n_session_id n) = Some r → active_row now r = false) →
      sendTx processStart now caller to body dashboard s = Err (inactiveReason processStart (mkKey (n_family n) (n_session_id n)) s))).
Proof.
  split; [|intros Hc; split_and!].
  - intros e He. unfold sendTx. apply bind_err. unfold check. by rewrite He.
  - intros Hn. unfold sendTx. rewrite (bind_run _ _ _ tt s) by (by apply check_Ok).
    rewrite (bind_run _ _ _ _ _ eq_refl). apply bind_err. unfold row. by rewrite Hn.
  - intros n Hn Hk Hh. unfold sendTx. rewrite (bind_run _ _ _ tt s) by (by apply check_Ok).
    rewrite (bind_run _ _ _ _ _ eq_refl), (bind_run _ _ _ n s) by (unfold row; by rewrite Hn).
    apply bind_err. unfold recipient_of. rewrite Hk, (bind_run _ _ _ _ _ eq_refl). apply bind_err. unfold ensure.
    destruct Hh as [-> | ->]; [done|]. by rewrite andb_false_r.
  - intros n name Hn Hk Hname Hr. unfold sendTx. rewrite (bind_run _ _ _ tt s) by (by apply check_Ok).
    rewrite (bind_run _ _ _ _ _ eq_refl), (bind_run _ _ _ n s) by (unfold row; by rewrite Hn).
    unfold recipient_of. rewrite Hk, (bind_run _ _ _ _ _ eq_refl), (bind_run _ _ _ _ _ (sender_of_total now _ _ _ Hname)).
    by rewrite (bind_run _ _ _ None s) by (apply take_seq_Ok; by right).
Qed.

(** ** Acknowledge *)

Definition acknowledge (dashboard : bool) (name via : string) (m : MessageRow) : MessageRow :=
  m <| m_maintainer_ack := m_maintainer_ack m || dashboard |> <| m_ack_session := name |> <| m_ack_via := via |>.

Lemma ackTx_steps now caller through dashboard revision origin s z s' : ackTx now caller through dashboard revision origin s = Ok (z, s') →
  (dashboard = false → active now caller s = None) ∧
  ∃ r, sessions s !! caller = Some r ∧ (0 < revision → s_revision r = revision) ∧
    let t := if through <? 0 then s_last_seq r else through in
    t ≤ s_last_seq r ∧ z = s_acked_through r `max` t ∧
    (t ≤ s_acked_through r → s' = s) ∧
    (s_acked_through r < t → sessions s' = alter (λ r, r <| s_acked_through := t |>) caller (sessions s) ∧
       names s' = names s ∧
       ∃ name via, messages s' = update_where (newly_acked caller (s_acked_through r) t) (acknowledge dashboard name via) (messages s)).
Proof.
  intros H. unfold ackTx in H. run H.
  assert (s0 = s ∧ (dashboard = false → active now caller s = None)) as [-> Hact].
  { unfold when in R. destruct dashboard; cbn in R; [by run R|]. by apply check_Ok in R as [? [= _ ->]]. }
  split; [done|]. exists v. split; [done|]. split.
  { intros Hrev. apply negb_true_iff, andb_false_iff in G as [G%Z.ltb_ge|G%negb_false_iff%Z.eqb_eq]; [lia|done]. }
  cbn. set (t := if through <? 0 then _ else _) in *. destruct (_ <? t) eqn:E; run H.
  - split_and!; [lia|lia|lia|]. intros _. unfold update_session in R0. run R0.
    assert (Keeps (λ s, (sessions s, messages s, names s)) (bumpInbox caller)) as K by (unfold bumpInbox; keeps).
    apply K in R1. cbn in R1. injection R1 as H1 H2 H3. split; [done|]. split; [done|]. do 2 eexists. exact H2.
  - split_and!; [lia|lia|done|lia].
Qed.

Lemma newly_acked_none k a i m : newly_acked k a a i m = false.
Proof. unfold newly_acked. destruct (keqb _ _); cbn; lia. Qed.

(** An acknowledgement that covers nothing new changes nothing. *)
Lemma ackTx_again now caller through dashboard revision origin s r :
  sessions s !! caller = Some r → (0 < revision → s_revision r = revision) →
  (dashboard = false → active now caller s = None) →
  (if through <? 0 then s_last_seq r else through) ≤ s_acked_through r ≤ s_last_seq r →
  ackTx now caller through dashboard revision origin s = Ok (s_acked_through r, s).
Proof.
  intros Hr Hrev Hact Hle. unfold ackTx. rewrite (bind_run _ _ _ tt s).
  2: { unfold when. destruct dashboard; [done|]. apply check_Ok. auto. }
  rewrite (bind_run _ _ _ _ _ eq_refl), (bind_run _ _ _ r s) by (unfold row; by rewrite Hr).
  rewrite (bind_run _ _ _ tt s), (bind_run _ _ _ tt s).
  - destruct (_ <? (if _ : bool then _ else _)) eqn:E; [lia|done].
  - apply ensure_Ok. split; [lia|done].
  - apply ensure_Ok. split; [|done]. destruct (Z.ltb_spec 0 revision); [|done]. by rewrite Hrev, Z.eqb_refl.
Qed.

(** an acknowledgement moves the position up to the requested sequence and never down or
    past the last one, stamps exactly the messages that it newly covers and no other inbox, and
    repeating it changes nothing. *)
Theorem ack_spec now caller through dashboard revision origin s z s' :
  inbox_wf s → ackTx now caller through dashboard revision origin s = Ok (z, s') →
  ∃ r r' name via, sessions s !! caller = Some r ∧ sessions s' !! caller = Some r' ∧
    let t := if through <? 0 then s_last_seq r else through in
    z = s_acked_through r `max` t ∧ t ≤ s_last_seq r ∧ r' = r <| s_acked_through := z |> ∧
    (∀ k, k ≠ caller → sessions s' !! k = sessions s !! k) ∧
    (∀ i, messages s' !! i = (λ m, if newly_acked caller (s_acked_through r) z i m then acknowledge dashboard name via m else m) <$> messages s !! i) ∧
    ackTx now caller through dashboard revision origin s' = Ok (z, s').
Proof.
  intros Hwf H. pose proof H as (Hact & r & Hr & Hrev & Ht & Hz & Hsame & Hnew)%ackTx_steps.
  set (t := if through <? 0 then _ else _) in *.
  destruct (decide (t ≤ s_acked_through r)) as [Hle|Hgt].
  - rewrite (Hsame Hle) in *. exists r, r, ""%string, ""%string. replace z with (s_acked_through r) by lia.
    split; [done|]. split; [done|]. cbv zeta. fold t. split_and!; try done; try lia; try (by destruct r).
    + intros i. destruct (messages s !! i); cbn; [|done]. by rewrite newly_acked_none.
    + replace (s_acked_through r) with z by lia. exact H.
  - destruct (Hnew ltac:(lia)) as (Hs & Hn & name & via & Hm). exists r, (r <| s_acked_through := t |>), name, via.
    replace z with t in * by lia. split; [done|]. split; [by rewrite Hs, lookup_alter_eq, Hr|].
    cbv zeta. fold t. split_and!; try done.
    + intros k Hk. by rewrite Hs, lookup_alter_ne.
    + intros i. by rewrite Hm, lookup_update_where.
    + refine (ackTx_again now caller through dashboard revision origin s' (r <| s_acked_through := t |>) _ _ _ _); cbn; try done.
      * by rewrite Hs, lookup_alter_eq, Hr.
      * intros Hd. specialize (Hact Hd). unfold active, activeCaller in *. destruct (_ && _); [done|].
        rewrite Hs, lookup_alter_eq. rewrite Hr in *. done.
Qed.
Lemma ack_spec_witness : ∃ z s2, ackTx 21 peer_b 1 false 0 "" sent = Ok (z, s2) ∧ z = 1 ∧
  ∃ r r' name via, sessions sent !! peer_b = Some r ∧ sessions s2 !! peer_b = Some r' ∧ s_acked_through r = 0 ∧ s_acked_through r' = 1 ∧
    (∀ i, messages s2 !! i = (λ m, if newly_acked peer_b 0 z i m then acknowledge false name via m else m) <$> messages sent !! i).
Proof.
  destruct (run_after (ackTx 21 peer_b 1 false 0 "") sent) as [z E]; [by vm_compute|].
  exists z, (after (ackTx 21 peer_b 1 false 0 "") sent). split; [exact E|].
  destruct (ack_spec _ _ _ _ _ _ _ _ _ sent_wf E) as (r & r' & name & via & Hr & Hr' & Hz & _ & Hrr & _ & Hm & _).
  assert (s_acked_through r = 0) as H0 by (vm_compute in Hr; injection Hr as <-; reflexivity).
  rewrite H0 in *. change (z = 0 `max` 1) in Hz. split; [by rewrite Hz|]. exists r, r', name, via.
  refine (conj Hr (conj Hr' (conj H0 (conj _ Hm)))). rewrite Hrr. exact Hz.
Defined.

(** ** Pages *)

Lemma seqZ_prefix (a n : Z) (l1 l2 : list Z) : l1 ++ l2 = seqZ a n → l1 = seqZ a (Z.of_nat (length l1)).
Proof.
  revert a n. induction l1 as [|x l1 IH]; intros a n H; [done|]. cbn in H. destruct (decide (0 < n)); [|by rewrite seqZ_nil in H by lia].
  rewrite seqZ_cons in H by lia. injection H as -> H. rewrite length_cons, seqZ_cons by lia. f_equal.
  rewrite (IH _ _ H) at 1. f_equal; lia.
Qed.

Lemma fmap_view_seq acked kind (page : list (Z * MessageRow)) : ms_Seq <$> (view_message acked kind <$> page) = (λ im : Z * MessageRow, m_seq im.2) <$> page.
Proof. by rewrite <-list_fmap_compose. Qed.

Lemma fill_page_first limit rows page more : 1 ≤ limit → rows ≠ [] → fill_page limit 0 0 rows = (page, more) → ∃ x p, page = x :: p.
Proof.
  intros Hl Hr. destruct rows as [|x rows]; [done|]. unfold fill_page; fold fill_page.
  destruct (Z.eqb_spec 0 limit); [lia|]. cbn [orb andb Z.ltb Z.compare].
  destruct (fill_page _ _ _ _) as [p m]. intros [= <- _]. eauto.
Qed.

Lemma readMessages_page s k r after limit kind (from := first_after k after s) : inbox_wf s → sessions s !! k = Some r → 0 ≤ after ≤ s_last_seq r → 1 ≤ limit →
  ∃ ms more, readMessages k after limit kind s = Ok ((ms, (s_last_seq r, s_acked_through r, more)), s) ∧
    ms_Seq <$> ms = seqZ (from + 1) (Z.of_nat (length ms)) ∧ Z.of_nat (length ms) ≤ limit ∧
    from + Z.of_nat (length ms) ≤ s_last_seq r ∧
    (more = false ↔ from + Z.of_nat (length ms) = s_last_seq r) ∧ (from < s_last_seq r → ms ≠ []).
Proof.
  intros Hwf Hr Ha Hl. pose proof (pending_rows_seqs _ _ _ after Hwf Hr Ha) as (Hp & Hfrom & _). fold from in Hp, Hfrom.
  pose proof (f_equal length Hp) as Hlen. rewrite length_fmap, length_seqZ in Hlen.
  set (rows := take (Z.to_nat (limit + 1)) (pending_rows k after s)) in *.
  assert (length rows = (Z.to_nat (limit + 1)) `min` Z.to_nat (s_last_seq r - from))%nat as Hrows by (unfold rows; by rewrite length_take, Hlen).
  destruct (fill_page limit 0 0 rows) as [page more] eqn:E.
  exists (view_message (s_acked_through r) kind <$> page), more.
  destruct (fill_page_spec _ _ _ _ _ _ E) as (rest & Hrest & Hmore & Hle). specialize (Hle ltac:(lia)).
  pose proof (f_equal length Hrest) as Hlr. rewrite length_app in Hlr.
  rewrite length_fmap, fmap_view_seq. split_and!.
  - unfold readMessages. rewrite (bind_run _ _ _ _ _ eq_refl), (bind_run _ _ _ r s) by (unfold row; by rewrite Hr).
    rewrite (bind_run _ _ _ rows s eq_refl), E. reflexivity.
  - rewrite <-(length_fmap (λ im : Z * MessageRow, m_seq im.2)). eapply (seqZ_prefix (from + 1) (s_last_seq r - from)).
    rewrite <-Hp. rewrite <-(take_drop (Z.to_nat (limit + 1)) (pending_rows k after s)). fold rows.
    rewrite fmap_app, Hrest, fmap_app, <-app_assoc. reflexivity.
  - lia.
  - lia.
  - rewrite Hmore. split; [intros ->; cbn in *; lia|]. intros Hd. destruct rest; [done|]. cbn in *. lia.
  - intros Hlt. assert (rows ≠ []) as Hne by (destruct rows; [cbn in *; lia|done]).
    destruct (fill_page_first _ _ _ _ Hl Hne E) as (x & p & ->). done.
Qed.

(** a page of an inbox is the run of sequences that follows the requested one, or the oldest
    that is left after it: nothing that is left is skipped or repeated, it holds at most the
    requested number, [more] is set exactly when messages remain, and a page is empty only at
    the end of the inbox. *)
Theorem page_spec s k r after limit kind (from := first_after k after s) : inbox_wf s → sessions s !! k = Some r → 0 ≤ after ≤ s_last_seq r → 1 ≤ limit →
  (after ≤ from ∧ ∀ i m, messages s !! i = Some m → m_recipient m = k → after < m_seq m → from < m_seq m) ∧
  ∃ ms more, readMessages k after limit kind s = Ok ((ms, (s_last_seq r, s_acked_through r, more)), s) ∧
    ms_Seq <$> ms = seqZ (from + 1) (Z.of_nat (length ms)) ∧ Z.of_nat (length ms) ≤ limit ∧
    (more = true ↔ from + Z.of_nat (length ms) < s_last_seq r) ∧ (ms = [] ↔ from = s_last_seq r) ∧
    (∀ m, m ∈ ms → (ms_Acknowledged m = true ↔ ms_Seq m ≤ s_acked_through r) ∧
       ∃ x, messages s !! ms_ID m = Some x ∧ m_recipient x = k ∧ m_seq x = ms_Seq m ∧ m_body x = ms_Body m).
Proof.
  intros Hwf Hr Ha Hl. pose proof (pending_rows_seqs _ _ _ after Hwf Hr Ha) as (_ & Hfrom & Hrest). fold from in Hfrom, Hrest. split; [split; [lia|done]|].
  destruct (readMessages_page s k r after limit kind Hwf Hr Ha Hl) as (ms & more & H & Hs & Hn & Hb & Hm & Hne). fold from in Hs, Hb, Hm, Hne.
  exists ms, more. split_and!; try done.
  - destruct more; [|naive_solver lia]. split; [|done]. intros _. destruct (decide (from + Z.of_nat (length ms) = s_last_seq r)) as [Hd|]; [|lia].
    by apply Hm in Hd.
  - split; [|intros ->; destruct ms; [done|cbn in *; lia]]. intros ->. destruct (decide (from = s_last_seq r)); [done|]. by destruct Hne; [lia|].
  - intros m Hin. apply readMessages_Ok in H as (_ & r' & Hr' & _ & _ & H). rewrite Hr in Hr'. injection Hr' as <-.
    destruct (fill_page _ _ _ _) as [page more'] eqn:E. destruct H as [-> _].
    apply list_elem_of_fmap in Hin as ([i x] & -> & Hin). cbn. split; [apply Z.leb_le|]. exists x.
    assert ((i, x) ∈ (fill_page limit 0 0 (take (Z.to_nat (limit + 1)) (pending_rows k after s))).1) as Hin' by by rewrite E.
    apply fill_page_subset, (elem_of_take _ _) in Hin' as (j & Hj & _).
    apply list_elem_of_lookup_2, elem_of_pending_rows in Hj. tauto.
Qed.
Lemma page_spec_witness : ∃ ms more,
  readMessages peer_b 0 50 OfSession sent = Ok ((ms, (1, 0, more)), sent) ∧ ms_Seq <$> ms = [1] ∧ more = false.
Proof.
  assert (∃ r, sessions sent !! peer_b = Some r ∧ s_last_seq r = 1 ∧ s_acked_through r = 0) as (r & Hr & Hl & Ha).
  { eexists. split; [vm_compute; reflexivity|]. split; reflexivity. }
  destruct (page_spec sent peer_b r 0 50 OfSession sent_wf Hr) as (_ & ms & more & H & Hs & _ & Hm & He & _); [lia..|].
  assert (first_after peer_b 0 sent = 0) as Hf by (vm_compute; reflexivity). rewrite Hf in *.
  rewrite Hl in *. rewrite Ha in H. exists ms, more. split; [exact H|].
  assert (Z.of_nat (length ms) = 1) as Hn.
  { assert (length (ms_Seq <$> ms) = length ms) by apply length_fmap. destruct more.
    - destruct ms as [|m ms']; [destruct He as [He _]; specialize (He eq_refl); lia|].
      destruct Hm as [Hm _]. specialize (Hm eq_refl). rewrite length_cons in *. lia.
    - vm_compute in H. injection H as <-. reflexivity. }
  rewrite Hn in *. split; [exact Hs|]. destruct more; [|reflexivity]. destruct Hm as [Hm _]. specialize (Hm eq_refl). lia.
Defined.

(** A reader that starts the next page after the last message of the page before *)
Fixpoint read_all (fuel : nat) (k : Key) (after limit : Z) (kind : InboxKind) (s : State) : list Message :=
  match fuel with
  | O => []
  | S fuel =>
      match readMessages k after limit kind s with
      | Ok ((ms, (_, _, more)), _) =>
          if (more : bool) then ms ++ read_all fuel k (from_option ms_Seq after (last ms)) limit kind s else ms
      | Err _ => []
      end
  end.

Lemma page_last ms from after : ms_Seq <$> ms = seqZ (from + 1) (Z.of_nat (length ms)) → ms ≠ [] →
  from_option ms_Seq after (last ms) = from + Z.of_nat (length ms).
Proof.
  intros H Hne. destruct (last ms) as [m|] eqn:E; cbn; [|by apply last_None in E].
  rewrite last_lookup in E. assert ((ms_Seq <$> ms) !! pred (length ms) = Some (ms_Seq m)) as Hl by by rewrite list_lookup_fmap, E.
  rewrite H in Hl. apply lookup_seqZ in Hl as [-> _]. destruct ms; [done|]. cbn. lia.
Qed.
(** After the oldest message that is left nothing is missing. *)
Lemma first_after_later s k r after next : inbox_wf s → sessions s !! k = Some r → 0 ≤ after → first_after k after s ≤ next ≤ s_last_seq r → after ≤ s_last_seq r →
  first_after k next s = next.
Proof.
  intros Hwf Hr Ha Hn Hle. destruct (pending_rows_seqs s k r after Hwf Hr) as (H1 & Hf1 & _); [lia|]. destruct (pending_rows_seqs s k r next Hwf Hr) as (_ & Hf2 & H2); [lia|].
  destruct (decide (first_after k next s = next)) as [|Hne]; [done|exfalso]. assert (next + 1 ∈ (λ im : Z * MessageRow, m_seq im.2) <$> pending_rows k after s) as Hin by (rewrite H1; apply elem_of_seqZ; lia).
  apply list_elem_of_fmap in Hin as ([i m] & Hq & (Hl & Hk & _)%elem_of_pending_rows). cbn in *. specialize (H2 i m Hl Hk). lia.
Qed.

(** paging ends and loses nothing: from any position, a reader that asks for the messages
    after the last one it has seen gets every later message exactly once and in order, when it may
    send more requests than there are sequences after its position. *)
Theorem paging_complete s k r after limit kind fuel : inbox_wf s → sessions s !! k = Some r → 0 ≤ after ≤ s_last_seq r → 1 ≤ limit →
  s_last_seq r - after < Z.of_nat fuel →
  ∃ from, after ≤ from ≤ s_last_seq r ∧ ms_Seq <$> read_all fuel k after limit kind s = seqZ (from + 1) (s_last_seq r - from) ∧
    ∀ i m, messages s !! i = Some m → m_recipient m = k → after < m_seq m → from < m_seq m.
Proof.
  intros Hwf Hr Ha Hl Hf. exists (first_after k after s). pose proof (pending_rows_seqs _ _ _ after Hwf Hr Ha) as (_ & Hfrom & Hrest). split; [done|]. split; [|done]. clear Hrest Hfrom.
  revert after Ha Hf. induction fuel as [|fuel IH]; intros after Ha Hf; [lia|].
  destruct (readMessages_page s k r after limit kind Hwf Hr Ha Hl) as (ms & more & H & Hs & Hn & Hb & Hm & Hne). pose proof (pending_rows_seqs _ _ _ after Hwf Hr Ha) as (_ & Hfrom & _).
  cbn [read_all]. rewrite H. set (from := first_after k after s) in *. destruct more.
  - assert (from < s_last_seq r) as Hlt by (destruct (decide (from = s_last_seq r)); [destruct Hm as [_ Hm]; discriminate Hm; lia|lia]).
    assert (0 < Z.of_nat (length ms)) by (specialize (Hne Hlt); destruct ms; [done|rewrite length_cons; lia]).
    rewrite fmap_app, Hs, (page_last _ from after Hs) by (by apply Hne).
    rewrite IH by lia. rewrite (first_after_later s k r after) by (unfold from in *; (done || lia)). fold from.
    replace (s_last_seq r - from) with (Z.of_nat (length ms) + (s_last_seq r - (from + Z.of_nat (length ms)))) by lia.
    rewrite seqZ_app by lia. f_equal. f_equal; lia.
  - rewrite Hs. destruct Hm as [Hm _]. specialize (Hm eq_refl). f_equal. lia.
Qed.
Lemma paging_complete_witness : ∃ from, 0 ≤ from ≤ 1 ∧ ms_Seq <$> read_all 2 peer_b 0 1 OfSession sent = seqZ (from + 1) (1 - from) ∧ from < 1.
Proof.
  assert (∃ r, sessions sent !! peer_b = Some r ∧ s_last_seq r = 1) as (r & Hr & Hl).
  { eexists. split; [vm_compute; reflexivity|]. reflexivity. }
  assert (∃ i m, messages sent !! i = Some m ∧ m_recipient m = peer_b ∧ m_seq m = 1) as (i & m & Hi & Hk & Hq).
  { exists 1. eexists. split; [vm_compute; reflexivity|]. split; reflexivity. }
  destruct (paging_complete sent peer_b r 0 1 OfSession 2 sent_wf Hr) as (from & Hf & Hs & Hin); [lia..|]. rewrite Hl in *. specialize (Hin i m Hi Hk).
  exists from. split; [exact Hf|]. split; [exact Hs|]. rewrite Hq in Hin. apply Hin. lia.
Defined.

(** ** A new holder *)

(** nothing that a participant was sent is lost with its holder.  After another session
    becomes the holder, every unacknowledged message of the address waits for a wake again,
    with no trace of an earlier notice, and the read position is back at the acknowledged one,
    while acknowledged messages and every other inbox keep theirs. *)
Theorem holder_change_redelivers now address former id reason actor details s u s' n r :
  former ≠ id → names s !! address = Some n → former ≠ participantKey address →
  sessions s !! mkKey (n_family n) (participantKey address) = Some r →
  setHolder now address former id reason actor details s = Ok (u, s') →
  let inbox := mkKey (n_family n) (participantKey address) in
  sessions s' !! inbox = Some (r <| s_read_through := s_acked_through r |>) ∧
  ∀ i m, messages s !! i = Some m → ∃ m', messages s' !! i = Some m' ∧
    m_recipient m' = m_recipient m ∧ m_seq m' = m_seq m ∧ m_body m' = m_body m ∧
    (m_recipient m = inbox → s_acked_through r < m_seq m → m_delivery_state m' = Waiting ∧
       (m_delivery_state m ≠ Waiting → m_wake_attempts m' = 0 ∧ m_wake_next_at m' = 0 ∧ m_wake_notices m' = 0)) ∧
    (m_recipient m ≠ inbox ∨ m_seq m ≤ s_acked_through r → m' = m).
Proof.
  intros Hne Hn Hp Hr H. cbn zeta. set (inbox := mkKey _ _) in *.
  eapply setHolder_change in H as (Hs & _ & Hm); [|done..]. fold inbox in Hs, Hm.
  assert ((if seqb former "" then sessions s else alter (retire_if_active now) (mkKey (n_family n) former) (sessions s)) !! inbox = Some r) as Hin.
  { destruct (seqb former ""); [done|]. rewrite lookup_alter_ne; [done|]. unfold inbox. congruence. }
  rewrite Hin in Hm. split; [by rewrite Hs, lookup_alter_eq, Hin|].
  intros i m Hi. rewrite Hm, lookup_update_where, Hi. cbn. eexists. split; [done|].
  unfold unhandled. destruct (keqb (m_recipient m) inbox) eqn:Ek; cbn.
  - apply keqb_true in Ek. destruct (bool_decide_reflect (m_delivery_state m ≠ Waiting)) as [Hd|Hd]; cbn.
    + destruct (Z.ltb_spec (s_acked_through r) (m_seq m)); cbn; split_and!; try done; [|lia..]. intros [?|?]; [done|lia].
    + split_and!; try done. intros _ _. split; [by destruct (decide (m_delivery_state m = Waiting))|done].
  - apply keqb_false in Ek. split_and!; done.
Qed.

Definition notified : State :=
  after (setDeliveryTx 21 1 Notified "") (after (sendTx (λ _, ProcessGone) 20 peer_a "claude-x-dev" "hello" false) small_state).
Lemma holder_change_redelivers_witness : ∃ s', setHolder 30 "claude-x-dev" "h" "a" "maintainer" "maintainer" "" notified = Ok (tt, s') ∧
  ∀ i m, messages notified !! i = Some m → ∃ m', messages s' !! i = Some m' ∧ (m_recipient m = mkKey "claude" "participant:claude-x-dev" →
    0 < m_seq m → m_delivery_state m' = Waiting).
Proof.
  destruct (run_after (setHolder 30 "claude-x-dev" "h" "a" "maintainer" "maintainer" "") notified) as [[] E]; [by vm_compute|].
  set (s' := after _ _) in E. clearbody s'. exists s'. split; [exact E|].
  assert (∃ r, sessions notified !! mkKey "claude" (participantKey "claude-x-dev") = Some r ∧ s_acked_through r = 0) as (r & Hr & Ha).
  { eexists. split; [vm_compute; reflexivity|]. reflexivity. }
  assert (∃ n, names notified !! "claude-x-dev"%string = Some n ∧ n_family n = "claude"%string) as (n & Hn & Hf).
  { eexists. split; [vm_compute; reflexivity|]. reflexivity. }
  rewrite <-Hf in Hr.
  destruct (holder_change_redelivers 30 "claude-x-dev" "h" "a" "maintainer" "maintainer" "" notified tt s' n r) as (_ & H);
    [discriminate|exact Hn|discriminate|exact Hr|exact E|].
  intros i m Hi. destruct (H i m Hi) as (m' & Hm' & _ & _ & _ & Hd & _). exists m'. split; [exact Hm'|].
  rewrite Ha, Hf in Hd. intros Hk Hq. exact (proj1 (Hd Hk Hq)).
Defined.

(** ** Outcomes *)

Lemma trim_prefix_app p t : trim_prefix (p +:+ t) p = t.
Proof.
  unfold trim_prefix. rewrite to_bytes_app.
  assert (∀ a b, drop_prefix a (a ++ b) = Some b) as ->.
  { intros a b. induction a as [|x a IH]; cbn; [done|]. by destruct (Ascii.ascii_dec x x). }
  apply of_to_bytes.
Qed.

(** the sender of a message reads back the outcome that the send returned, and nobody else
    learns that the message exists; an ID that was issued and is gone reads as deleted. *)
Theorem outcome_roundtrip processStart now now' caller to body dashboard s out s' n :
  inbox_wf s → names s !! to = Some n → (n_kind n = Peer → isParticipantID (n_session_id n) = false) →
  sendTx processStart now caller to body dashboard s = Ok (out, s') →
  (active now' caller s' = None → MessageOutcome now' caller (o_ID out) s' = Ok (out, s')) ∧
  (∀ other, other ≠ caller → active now' other s' = None → MessageOutcome now' other (o_ID out) s' = Err ErrMessageNotFound) ∧
  (∀ other i, active now' other s' = None → messages s' !! i = None → 0 < i ≤ messages_issued s' →
     MessageOutcome now' other i s' = Ok (mkOutcome i "" 0 Deleted "" "" 0 0 false "" "" "", s')).
Proof.
  intros Hwf Hn Hp H. pose proof H as (n1 & r & sender & Hn1 & Hrow & [Ha Hs Ho Hm Hi Hrec Hseq] & Hid & Hq & _)%sendTx_delivered.
  rewrite Hn in Hn1. injection Hn1 as <-.
  pose proof H as (_ & n1 & sid & s1 & q & s2 & s3 & snd & Hn1 & Hro & _ & _ & _ & Hout & Hshown & _)%sendTx_steps.
  rewrite Hn in Hn1. injection Hn1 as <-. apply (recipient_of_Ok _ _ _ _ _ _ Hn) in Hro as (Hk & _). rewrite Hk in Hshown.
  assert (sid = ID (recipient_key to n)) as -> by by rewrite <-Hk.
  assert (messages s' !! o_ID out = Some (new_message (recipient_key to n) (s_last_seq r + 1) caller sender body now)) as Hmsg.
  { by rewrite Hm, Hid, lookup_insert_eq. }
  assert (s_acked_through r ≤ s_last_seq r) as Hack.
  { unfold recipient_row in Hrow. destruct (n_kind n); [destruct (wf_positions _ Hwf _ _ Hrow); lia|].
    injection Hrow as <-. destruct (sessions s !! _) as [r0|] eqn:E; cbn; [destruct (wf_positions _ Hwf _ _ E); lia|lia]. }
  split_and!.
  - intros Hact. unfold MessageOutcome. rewrite (bind_run _ _ _ tt s') by (by apply check_Ok).
    rewrite (bind_run _ _ _ _ _ eq_refl), Hmsg. cbn. rewrite Hs. cbn. unfold keqb. rewrite bool_decide_eq_true_2 by done.
    destruct (s_last_seq r + 1 <=? s_acked_through r) eqn:E; [lia|]. unfold mret, M_ret.
    rewrite Hout in Hq. cbn in Hq. rewrite Hq in Hout. rewrite Hout. cbn. do 3 f_equal. rewrite Hshown.
    unfold recipient_key, isParticipantID, has_prefix in *. cbn [ID] in *. destruct (n_kind n) eqn:Ek.
    + by rewrite Hp.
    + unfold participantKey. rewrite prefix_app. apply trim_prefix_app.
  - intros other Hne Hact. unfold MessageOutcome. rewrite (bind_run _ _ _ tt s') by (by apply check_Ok).
    rewrite (bind_run _ _ _ _ _ eq_refl), Hmsg. cbn. rewrite Hs. unfold keqb. rewrite bool_decide_eq_false_2; [done|]. cbn. congruence.
  - intros other i Hact Hl Hle. unfold MessageOutcome. rewrite (bind_run _ _ _ tt s') by (by apply check_Ok).
    rewrite (bind_run _ _ _ _ _ eq_refl), Hl. destruct (Z.ltb_spec 0 i); [|lia]. destruct (Z.leb_spec i (messages_issued s')); [done|lia].
Qed.
Lemma outcome_roundtrip_witness : ∃ out,
  MessageOutcome 25 peer_a (o_ID out) sent = Ok (out, sent) ∧ MessageOutcome 25 peer_b (o_ID out) sent = Err ErrMessageNotFound.
Proof.
  destruct (run_after (sendTx (λ _, ProcessGone) 20 peer_a "codex-x-0b" "hello" false) small_state) as [out E]; [by vm_compute|].
  exists out. assert (inbox_wf small_state) as Hs by (apply quiet_wf; by vm_compute).
  assert (names small_state !! "codex-x-0b"%string = Some (mkNameRow Peer "codex" "b" "/r/x/.git" "" "" [])) as Hn by (vm_compute; reflexivity).
  fold sent in E.
  destruct (outcome_roundtrip (λ _, ProcessGone) 20 25 peer_a "codex-x-0b" "hello" false small_state out sent _ Hs Hn) as (H1 & H2 & _);
    [intros _; vm_compute; reflexivity|exact E|].
  split; [apply H1; vm_compute; reflexivity|]. apply H2; [discriminate|vm_compute; reflexivity].
Defined.
