(* ===== verification/RetentionProps.v ===== *)
(** * What the retention may delete

    A message of an unmarked session goes only a whole period after it was acknowledged, oldest
    first; a session goes only when nothing of it is left to read or to finish; and a sweep that
    has budget left has done all that was due. *)

From S2P Require Import Prelude GoString GoFloat Schema Sql Storage Label Names Fixture Messages Inboxes Sessions Cycles ContextPolicy Admission CycleFixture CycleProps Launches Registrations Retention InboxProps.
Open Scope Z_scope.

(** ** Marks *)

(** What every transaction but those of the retention keeps of the marks: a mark stays, the
    acknowledged position only grows, and a new session has no mark. *)
Record marks_kept (s s' : State) : Prop := {
  mk_rows : ∀ k r, sessions s !! k = Some r → ∃ r', sessions s' !! k = Some r' ∧ s_ack_mark r' = s_ack_mark r ∧ s_ack_mark_at r' = s_ack_mark_at r ∧
    s_acked_through r ≤ s_acked_through r';
  mk_new : ∀ k r', sessions s' !! k = Some r' → sessions s !! k = None → s_ack_mark r' = 0 ∧ s_ack_mark_at r' = 0 ∧ 0 ≤ s_acked_through r' }.
#[export] Instance marks_kept_preorder : PreOrder marks_kept.
Proof.
  split; [split; [eauto 10 with lia|intros; congruence]|]. intros s1 s2 s3 [A1 A2] [B1 B2]. split.
  - intros k r Hr. destruct (A1 _ _ Hr) as (r2 & Hr2 & E1 & E2 & E3), (B1 _ _ Hr2) as (r3 & Hr3 & F1 & F2 & F3). exists r3. split; [done|]. split_and!; [congruence..|lia].
  - intros k r3 Hr3 Hn. destruct (sessions s2 !! k) as [r2|] eqn:E; [|by eapply B2]. destruct (A2 _ _ E Hn) as (E1 & E2 & E3), (B1 _ _ E) as (r & Hr & F1 & F2 & F3).
    assert (r = r3) as -> by congruence. split_and!; [congruence..|lia].
Qed.

Section kept.
Context (s0 : State).
#[local] Abbreviation kept := (Maintains (marks_kept s0)).
Lemma kept_sessions {A} (m : tx A) : Keeps sessions m → kept m.
Proof. apply maintains_keeps. intros s s' E H. etrans; [exact H|]. split; rewrite E; [eauto 10 with lia|intros; congruence]. Qed.
Lemma kept_row k (r r' : SessionRow) s : sessions s !! k = Some r → s_ack_mark r' = s_ack_mark r → s_ack_mark_at r' = s_ack_mark_at r → s_acked_through r ≤ s_acked_through r' →
  ∀ s', sessions s' = <[k := r']> (sessions s) → marks_kept s s'.
Proof.
  intros Hr E1 E2 E3 s' E. split; rewrite E.
  - intros k' x Hx. rewrite lookup_insert. destruct (decide (k = k')) as [->|]; [|eauto 10 with lia]. assert (x = r) as -> by congruence. eauto 10.
  - intros k' x. rewrite lookup_insert. destruct (decide (k = k')) as [->|]; congruence.
Qed.
Lemma kept_update k f : (∀ r, s_ack_mark (f r) = s_ack_mark r ∧ s_ack_mark_at (f r) = s_ack_mark_at r ∧ s_acked_through r ≤ s_acked_through (f r)) → kept (update_session k f).
Proof.
  intros Hf s a s' Hs H. unfold update_session in H. run H. etrans; [exact Hs|]. destruct (sessions s !! k) as [r|] eqn:Er.
  - destruct (Hf r) as (E1 & E2 & E3). eapply (kept_row k r (f r)); [done..|]. cbn. apply map_eq. intros k'. rewrite lookup_alter, lookup_insert.
    destruct (decide (k = k')) as [<-|]; [by rewrite Er|done].
  - assert (alter f k (sessions s) = sessions s) as Ea; [|split; cbn; rewrite Ea; [eauto 10 with lia|intros; congruence]].
    apply map_eq. intros k'. rewrite lookup_alter. destruct (decide (k = k')) as [<-|]; [by rewrite Er|done].
Qed.
Lemma kept_take_seq k now : kept (take_seq k now).
Proof.
  intros s o s' Hs [(r & Hr & _ & _ & ->)|(_ & -> & _)]%take_seq_Ok; [|done]. etrans; [exact Hs|]. eapply (kept_row k r); [done| | | |reflexivity]; cbn; done.
Qed.
Lemma kept_ensure now a : kept (ensureParticipantInbox now a).
Proof.
  intros s u s' Hs H. unfold ensureParticipantInbox in H. run H. destruct (sessions s !! _) eqn:E; [done|]. etrans; [exact Hs|]. split; cbn.
  - intros k r Hr. exists r. rewrite lookup_insert_ne by congruence. done.
  - intros k r. rewrite lookup_insert. destruct (decide _) as [<-|]; [by intros [= <-] _|congruence].
Qed.
Lemma kept_mark k a t : kept (mark k a t).
Proof. apply kept_update. intros r. destruct (_ && _); done. Qed.
End kept.
#[export] Hint Resolve kept_take_seq kept_ensure kept_mark : inbox.
#[export] Hint Extern 1 (Maintains (marks_kept _) (update_session _ _)) =>
  apply kept_update; intros; repeat case_match; cbn; split_and!; try done; lia : inbox.
#[export] Hint Extern 2 (Maintains (marks_kept _) _) => apply kept_sessions; solve [names_keeps] : inbox.

Lemma kept_sendTx ps s0 now caller to body d : Maintains (marks_kept s0) (sendTx ps now caller to body d).
Proof. unfold sendTx, recipient_of, sender_of, bumpInbox. maintains. Qed.
Lemma kept_setDeliveryTx s0 now id st r : Maintains (marks_kept s0) (setDeliveryTx now id st r).
Proof. unfold setDeliveryTx. maintains. Qed.
Lemma kept_markReadTx s0 now c a after p ms : Maintains (marks_kept s0) (markReadTx now c a after p ms).
Proof. unfold markReadTx. maintains. Qed.
Lemma kept_retire_active s0 now k : Maintains (marks_kept s0) (retire_active now k).
Proof. apply kept_update. intros r. destruct (active_row now r); done. Qed.
#[export] Hint Resolve kept_retire_active : inbox.
Lemma kept_setHolder s0 now a f i r ac d : Maintains (marks_kept s0) (setHolder now a f i r ac d).
Proof. unfold setHolder, reset_inbox. maintains. Qed.
Lemma kept_releaseAddress s0 now f i r ac : Maintains (marks_kept s0) (releaseAddress now f i r ac).
Proof. unfold releaseAddress. maintains. Qed.
#[export] Hint Resolve kept_setHolder kept_releaseAddress : inbox.
Lemma kept_fence s0 now reason where_ : Maintains (marks_kept s0) (fenceCyclesTx now reason where_).
Proof. apply kept_sessions. intros s a s' H. apply fence_inboxes in H. by injection H. Qed.
Lemma kept_markPurgeTx s0 now now_end k revision mark : Maintains (marks_kept s0) (markPurgeTx now now_end k revision mark).
Proof. unfold markPurgeTx. maintains; try apply kept_fence; apply kept_update; intros r; done. Qed.
Lemma kept_deletePurgedTx s0 k limit : Maintains (marks_kept s0) (deletePurgedTx k limit).
Proof. apply kept_sessions. unfold deletePurgedTx, delete_messages. keeps. Qed.
(** An acknowledgement sets the position over the one it has read. *)
Lemma kept_set_acked k r f s u s' : sessions s !! k = Some r → s_ack_mark (f r) = s_ack_mark r ∧ s_ack_mark_at (f r) = s_ack_mark_at r ∧ s_acked_through r ≤ s_acked_through (f r) →
  update_session k f s = Ok (u, s') → marks_kept s s'.
Proof.
  intros Hr (E1 & E2 & E3) H. unfold update_session in H. run H. eapply (kept_row k r (f r)); [done..|]. cbn. apply map_eq. intros k'. rewrite lookup_alter, lookup_insert.
  destruct (decide (k = k')) as [<-|]; [by rewrite Hr|done].
Qed.
Lemma kept_rest {A} s (m : tx A) s1 a s' : marks_kept s s1 → Keeps sessions m → m s1 = Ok (a, s') → marks_kept s s'.
Proof. intros H Hk Hm. by eapply (kept_sessions s m Hk). Qed.
Lemma kept_ackTx now caller through dashboard revision origin s z s' : ackTx now caller through dashboard revision origin s = Ok (z, s') → marks_kept s s'.
Proof.
  intros H. unfold ackTx in H. apply bind_Ok in H as (u & s1 & H1 & H). assert (s1 = s) as -> by (unfold when in H1; destruct (negb dashboard); [by apply check_Ok in H1 as [_ [= _ ->]]|by apply ret_Ok in H1 as [= _ ->]]).
  run H. set (t := if through <? 0 then _ else _) in *. destruct (s_acked_through _ <? t) eqn:El; [|by run H]. apply bind_Ok in H as (u2 & s2 & H2 & H).
  assert (marks_kept s s2) as Hk by (eapply kept_set_acked; [eassumption| |exact H2]; cbn; split; [done|split; [done|lia]]).
  eapply kept_rest; [exact Hk| |exact H]. unfold bumpInbox. keeps.
Qed.
Lemma kept_ackParticipantTx now caller through s z s' : ackParticipantTx now caller through s = Ok (z, s') → marks_kept s s'.
Proof.
  intros H. unfold ackParticipantTx in H. run H. apply check_Ok in R as [_ [= _ ->]].
  match goal with R : ensureParticipantInbox _ _ s = Ok (_, ?x) |- _ => rename x into s9; assert (marks_kept s s9) as H0 by by eapply (kept_ensure s) end.
  destruct (_ <? through) eqn:El; [|by run H]. apply bind_Ok in H as (u2 & s2 & H2 & H).
  assert (marks_kept s9 s2) as Hk by (eapply kept_set_acked; [eassumption| |exact H2]; cbn; split; [done|split; [done|lia]]).
  etrans; [exact H0|]. eapply kept_rest; [exact Hk| |exact H]. keeps.
Qed.
Lemma kept_assignNames `{SHA : Sha256} s0 now p : Maintains (marks_kept s0) (assignNames now p).
Proof.
  unfold assignNames, choose_qualifier, record_conflict. apply maintains_bind.
  { apply kept_sessions. by apply peerName_keeps. }
  intros _. maintains. apply kept_sessions. by apply createAddress_keeps.
Qed.

(** ** The period of an acknowledged message *)

Definition acked_positions (s : State) : gmap Key Z := s_acked_through <$> sessions s.
(** The schedules of a daemon: a time, the tables, and the acknowledged positions that were seen at
    the times before, of the sessions that have not been deleted since.  Every transaction of the
    other parts and of a purge is a [ts_other], by the lemmas above. *)
Definition Timed : Type := Z * State * list (Z * gmap Key Z).
Inductive timed_step : Timed → Timed → Prop :=
| ts_other now now' s s' h : now ≤ now' → marks_kept s s' → timed_step (now, s, h) (now', s', (now', acked_positions s) :: h)
| ts_mark now now' s s' u h : now ≤ now' → markAcknowledgedTx now' s = Ok (u, s') → timed_step (now, s, h) (now', s', (now', acked_positions s) :: h)
| ts_deleteMarked now now' k cutoff limit s s' a h : now ≤ now' → deleteMarkedTx k cutoff limit s = Ok (a, s') → timed_step (now, s, h) (now', s', h)
| ts_deleteSession `{SHA : Sha256} now now' later k condition s s' a h : now ≤ now' → deleteSessionTx now' later k condition s = Ok (a, s') →
    timed_step (now, s, h) (now', s', (λ tp, (tp.1, delete k tp.2)) <$> h).

(** A mark is not past what was acknowledged, and was when it was set. *)
Definition mark_seen (h : list (Z * gmap Key Z)) (k : Key) (r : SessionRow) : Prop :=
  s_ack_mark r ≤ s_acked_through r ∧ (s_ack_mark_at r ≠ 0 → ∃ t p q, (t, p) ∈ h ∧ t ≤ s_ack_mark_at r ∧ p !! k = Some q ∧ s_ack_mark r ≤ q).
Definition marks_seen (c : Timed) : Prop := ∀ k r, sessions c.1.2 !! k = Some r → mark_seen c.2 k r.

Lemma mark_seen_kept h x k r r' : mark_seen h k r → s_ack_mark r' = s_ack_mark r → s_ack_mark_at r' = s_ack_mark_at r → s_acked_through r ≤ s_acked_through r' → mark_seen (x :: h) k r'.
Proof.
  intros [H1 H2] E1 E2 E3. split; [lia|]. rewrite E1, E2. intros Ha. destruct (H2 Ha) as (t & p & q & Hin & Ht & Hp & Hq). exists t, p, q. split_and!; [by right|done..].
Qed.
Lemma deleteMarkedTx_Ok k cutoff limit s a s' : deleteMarkedTx k cutoff limit s = Ok (a, s') → ∃ r, sessions s !! k = Some r ∧ due_mark cutoff r = true ∧
  let rows := oldest k (λ m, m_seq m <=? s_ack_mark r) limit s in
  a = (Z.of_nat (length rows), Z.of_nat (length rows) <? limit) ∧ messages s' = filter (λ im, im.1 ∉ rows.*1) (messages s) ∧
  sessions s' = if Z.of_nat (length rows) <? limit then alter (λ r, r <| s_ack_mark_at := 0 |>) k (sessions s) else sessions s.
Proof.
  intros H. unfold deleteMarkedTx in H. apply bind_Ok in H as (o & s1 & [= -> ->]%gets_Ok & H). destruct (sessions s !! k) as [r|] eqn:Er; [|done]. exists r. split; [done|].
  run H. split; [done|]. cbn zeta. set (rows := oldest _ _ _ _) in *. unfold delete_messages in R. run R. split; [done|].
  assert (Keeps inbox_view (when (0 <? Z.of_nat (length rows)) (bumpInbox k))) as Hk by (unfold bumpInbox; keeps). apply Hk in R0. injection R0 as E1 E2 _. cbn in E1, E2.
  unfold when in R1. destruct (_ <? limit); [unfold update_session in R1; run R1; cbn; by rewrite E1, E2|]. apply ret_Ok in R1 as [= _ ->]. done.
Qed.
Lemma timed_step_seen c c' : timed_step c c' → marks_seen c → marks_seen c'.
Proof.
  unfold marks_seen. intros [now now' s s' h Hn [K1 K2]|now now' s s' u h Hn H|now now' k cutoff limit s s' a h Hn H|SHA now now' later k condition s s' a h Hn H] Hs k' r' Hr'; cbn in *.
  - destruct (sessions s !! k') as [r|] eqn:E; [|destruct (K2 _ _ Hr' E) as (E1 & E2 & ?); split; [lia|congruence]].
    destruct (K1 _ _ E) as (r2 & Hr2 & E1 & E2 & E3). assert (r2 = r') as -> by congruence. eapply mark_seen_kept; [by apply Hs|done..].
  - unfold markAcknowledgedTx in H. run H. cbn in Hr'. apply lookup_update_where_Some in Hr' as (r & Hr & ->). destruct (_ && _) eqn:Em; [|by eapply mark_seen_kept; [by apply Hs|..]].
    split; cbn; [lia|]. intros _. exists now', (acked_positions s), (s_acked_through r). split_and!; [left|done| |done]. unfold acked_positions. by rewrite lookup_fmap, Hr.
  - apply deleteMarkedTx_Ok in H as (r & Hr & _ & _ & _ & E). rewrite E in Hr'. destruct (_ <? limit); [|by apply Hs]. rewrite lookup_alter in Hr'. destruct (decide (k = k')) as [<-|]; [|by apply Hs].
    rewrite Hr in Hr'. injection Hr' as <-. destruct (Hs _ _ Hr) as [H1 _]. split; [done|]. done.
  - apply deleteSessionTx_Ok in H as (_ & s1 & Hf & _ & Hv). apply fence_inboxes in Hf. injection Hv as E _ _. injection Hf as Ef _ _. rewrite E, Ef in Hr'. apply lookup_delete_Some in Hr' as [Hne Hr].
    destruct (Hs _ _ Hr) as [H1 H2]. split; [done|]. intros Ha. destruct (H2 Ha) as (t & p & q & Hin & Ht & Hp & Hq). exists t, (delete k p), q.
    split_and!; [|done|by rewrite lookup_delete_ne|done]. apply list_elem_of_fmap. by exists (t, p).
Qed.

(** C11: over every schedule a message that the retention deletes from an inbox is one that its
    session had acknowledged by the cutoff, which is a whole period before the sweep, at a time at
    which that very session was seen to have acknowledged it; no unacknowledged message goes, and
    what is deleted is older than everything that is left. *)
Theorem acknowledged_waits now0 s0 now s h k cutoff limit a s' i m :
  (∀ k r, sessions s0 !! k = Some r → s_ack_mark_at r = 0 ∧ s_ack_mark r ≤ s_acked_through r) → rtc timed_step (now0, s0, []) (now, s, h) →
  inbox_wf s → deleteMarkedTx k cutoff limit s = Ok (a, s') → messages s !! i = Some m → messages s' !! i = None →
  m_recipient m = k ∧ (∃ r, sessions s !! k = Some r ∧ m_seq m ≤ s_acked_through r) ∧
  (∃ t p q, (t, p) ∈ h ∧ t ≤ cutoff ∧ p !! k = Some q ∧ m_seq m ≤ q) ∧
  ∀ j n, messages s' !! j = Some n → m_recipient n = k → m_seq m < m_seq n.
Proof.
  intros H0 Hst Hwf H Hi Hgone. assert (marks_seen (now, s, h)) as Hseen.
  { assert (marks_seen (now0, s0, [])) as Hs0 by (intros k' r Hr; cbn in Hr; destruct (H0 _ _ Hr); split; done). revert Hs0. generalize (now0, s0, @nil (Z * gmap Key Z)) (now, s, h) Hst. clear.
    intros c c' Hc. induction Hc as [|c1 c2 c3 Hc _ IH]; [done|]. intros Hs. by eapply IH, timed_step_seen. }
  apply deleteMarkedTx_Ok in H as (r & Hr & Hd & _ & Hm & _). set (rows := oldest _ _ _ _) in *. rewrite Hm in *.
  apply map_lookup_filter_None in Hgone as [?|Hgone]; [congruence|]. specialize (Hgone _ Hi). cbn in Hgone. apply dec_stable, list_elem_of_fmap in Hgone as ([i' m'] & -> & Hin). cbn in *.
  destruct (oldest_rows _ _ _ _ _ _ Hin) as (Hl & Hk & Hq). assert (m' = m) as -> by congruence. apply Z.leb_le in Hq. destruct (Hseen _ _ Hr) as [Hle Hmark]. unfold due_mark in Hd.
  split; [done|]. split; [exists r; split; [done|lia]|]. split.
  - destruct Hmark as (t & p & q & Hh & Ht & Hp & Hmq); [lia|]. exists t, p, q. split_and!; [done|lia|done|lia].
  - intros j n [Hj Hn]%map_lookup_filter_Some Hkn. cbn in Hn. eapply (oldest_below k (λ m, m_seq m <=? s_ack_mark r) limit s); [done| |exact Hin|exact Hj|done|].
    + intros x y Hx Hy. lia.
    + intros Hin2. apply Hn, list_elem_of_fmap. by exists (j, n).
Qed.

(** ** The deletion of a session *)

Lemma end_cycles now id c reason s c' s' : endCycleTx now id c cycleCancelled reason (mret tt) s = Ok (c', s') →
  cycles s' = alter (update_columns c') id (cycles s) ∧ unfinished c' = false.
Proof.
  intros (_ & -> & _ & s2 & Hs2 & ->)%endCycleTx_Ok. cbn [cycles audit]. assert (Keeps cycles (end_enable now id c cycleCancelled reason (mret tt) s)) as Hk.
  { unfold end_enable, rearm, keepEnableTx, disable. keeps. }
  apply Hk in Hs2. cbn. rewrite Hs2. unfold end_ledger. split; [by case_match|]. unfold ended, unfinished. cbn. unfold end_state. by case_match.
Qed.
Lemma each_end_cycles now reason (l : list (string * cycleRow)) : ∀ s u s', NoDup l.*1 →
  each l (λ idc, _ ← endCycleTx now idc.1 idc.2 cycleCancelled reason (mret tt); mret tt) s = Ok (u, s') →
  ∀ id, (id ∉ l.*1 → cycles s' !! id = cycles s !! id) ∧ (id ∈ l.*1 → ∀ c, cycles s' !! id = Some c → unfinished c = false).
Proof.
  induction l as [|[id0 c0] l IH]; intros s u s' Hnd H id; cbn in H; [run H; split; [done|by intros ?%elem_of_nil]|]. run H. apply NoDup_cons in Hnd as [Hn Hnd].
  apply ret_Ok in R as [= -> ->]. apply end_cycles in R0 as [Hc Hu]. destruct (IH _ _ _ Hnd H id) as [H1 H2]. cbn. split.
  - intros [Hne Hout]%not_elem_of_cons. rewrite (H1 Hout), Hc, lookup_alter_ne by congruence. done.
  - intros [->|Hin]%elem_of_cons; [|by apply H2]. rewrite (H1 Hn), Hc, lookup_alter_eq. intros c (x & _ & ->)%fmap_Some. done.
Qed.
(** A fence ends the unfinished cycles that it selects and leaves the others. *)
Lemma fence_ends now reason where_ s u s' : fenceCyclesTx now reason where_ s = Ok (u, s') → ∀ id c', cycles s' !! id = Some c' →
  unfinished c' = false ∨ (cycles s !! id = Some c' ∧ where_ c' = false).
Proof.
  intros H id c' Hc'. unfold fenceCyclesTx in H. run H. set (l := select _ _) in *. assert (NoDup l.*1) as Hnd.
  { apply NoDup_fmap_fst; [|apply NoDup_select]. intros i c1 c2 [A1 _]%elem_of_select [A2 _]%elem_of_select. congruence. }
  destruct (each_end_cycles now reason l _ _ _ Hnd H id) as [H1 H2].
  destruct (decide (id ∈ l.*1)) as [Hin|Hout]; [left; by eapply H2|]. rewrite (H1 Hout) in Hc'. destruct (unfinished c') eqn:Eu; [right; split; [done|]|by left].
  destruct (where_ c') eqn:Ew; [|done]. destruct Hout. apply list_elem_of_fmap. exists (id, c'). split; [done|]. apply elem_of_select. by rewrite Eu, Ew.
Qed.

Section deletion.
Context `{SHA : Sha256}.

(** What a deletion writes *)
Lemma deleteSessionTx_effect now later k condition s a s' : deleteSessionTx now later k condition s = Ok (a, s') → ∃ s1 s2, fenceCyclesTx now "session_deleted" (ended_with k) s = Ok (tt, s1) ∧
  deletable condition k s1 = true ∧ releaseAddress later (Family k) (ID k) "session_deleted" "daemon" (s1 <| sessions := delete k (sessions s1) |>) = Ok (tt, s2) ∧
  s' = s2 <| names := filter (λ an, bool_decide (n_kind an.2 = Peer ∧ n_family an.2 = Family k ∧ n_session_id an.2 = ID k) = false) (names s2) |> <| enables := delete k (enables s2) |>.
Proof.
  intros H. unfold deleteSessionTx in H. apply bind_Ok in H as ([] & s1 & H1 & H). run H. exists s1. match goal with R : releaseAddress _ _ _ _ _ _ = Ok (?u, ?x) |- _ => destruct u; exists x end. done.
Qed.
Lemma keeps_release_all {B} (f : State → B) now family id reason actor : (∀ s x, f (s <| names := x |>) = f s) → (∀ s x, f (s <| participant_events := x |>) = f s) →
  Keeps f (releaseAddress now family id reason actor).
Proof. intros H1 H2. unfold releaseAddress, participantEvent. repeat first [apply keeps_modify; by intros | keeps_step | apply keeps_gets | apply keeps_ret]. Qed.
Lemma keeps_fence_all {B} (f : State → B) now reason where_ : (∀ s x, f (s <| cycles := x |>) = f s) → (∀ s x, f (s <| cycle_events := x |>) = f s) → (∀ s x, f (s <| enables := x |>) = f s) →
  (∀ s x, f (s <| latches := x |>) = f s) → (∀ s x, f (s <| audit := x |>) = f s) → Keeps f (fenceCyclesTx now reason where_).
Proof.
  intros H1 H2 H3 H4 H5. unfold fenceCyclesTx. apply keeps_bind; [apply keeps_gets|]. intros l. apply keeps_each. intros [id c].
  unfold endCycleTx, cycleEvent, updateCycle, rearm, keepEnableTx, disable, cycleAudit, insert_audit.
  repeat first [apply keeps_cycle_event; by intros | apply keeps_modify; by intros | keeps_step | apply keeps_gets | apply keeps_ret | apply keeps_throw | apply keeps_ensure].
Qed.

(** C12: a deleted session met the condition, was no maintainer, had no message left and no live
    claim; after it no row, no name, no Enable and no running cycle of it is left, the addresses
    it held have no holder and stay, and every other session, name and message is as before. *)
Theorem session_deleted now later k condition s a s' : deleteSessionTx now later k condition s = Ok (a, s') →
  (∃ r, sessions s !! k = Some r ∧ condition r = true) ∧ Family k ≠ "maintainer"%string ∧
  (∀ i m, messages s !! i = Some m → m_recipient m ≠ k) ∧ (∀ g b, claim_bundles s !! g = Some b → holds_bundle k b = false) ∧
  sessions s' = delete k (sessions s) ∧ messages s' = messages s ∧ claim_bundles s' = claim_bundles s ∧ enables s' !! k = None ∧
  (∀ id c, cycles s' !! id = Some c → ended_with k c = true → unfinished c = false) ∧
  ∀ name, names s' !! name = match names s !! name with
    | Some n => if bool_decide (n_kind n = Peer ∧ n_family n = Family k ∧ n_session_id n = ID k) then None
                else if recorded_holder (Family k) (ID k) name n then Some (n <| n_holder_id := "" |>) else Some n
    | None => None
    end.
Proof.
  intros (s1 & s2 & Hf & Hd & Hr & ->)%deleteSessionTx_effect. pose proof (fence_ends _ _ _ _ _ _ Hf) as Hends.
  assert (Keeps (λ s, (sessions s, messages s, claim_bundles s, names s)) (fenceCyclesTx now "session_deleted" (ended_with k))) as Hkf by by apply keeps_fence_all.
  apply Hkf in Hf. injection Hf as F1 F2 F3 F4. pose proof (releaseAddress_names _ _ _ _ _ _ _ _ Hr) as Hn. cbn in Hn.
  assert (Keeps (λ s, (sessions s, messages s, claim_bundles s, cycles s)) (releaseAddress later (Family k) (ID k) "session_deleted" "daemon")) as Hkr by by apply keeps_release_all.
  apply Hkr in Hr. injection Hr as G1 G2 G3 G4. cbn in G1, G2, G3, G4 |- *. unfold deletable in Hd. rewrite F1 in Hd. destruct (sessions s !! k) as [r|]; [|done].
  rewrite !andb_true_iff, !negb_true_iff in Hd. destruct Hd as [[[Hm Hc] Hl] Ha]. split; [by exists r|]. split; [|split; [|split; [|split; [|split; [|split; [|split; [|split]]]]]]].
  - unfold no_maintainer in Hm. by apply negb_true_iff, seqb_false in Hm.
  - intros i m Hi. rewrite <-F2 in Hi. by eapply anyMessage_none.
  - intros g b Hb. rewrite <-F3 in Hb. exact (proj1 (exists_where_false _ _) Hl _ _ Hb).
  - congruence.
  - congruence.
  - congruence.
  - apply lookup_delete_eq.
  - intros id c Hcy He. rewrite G4 in Hcy. destruct (Hends _ _ Hcy) as [|[_ Hw]]; [done|congruence].
  - intros name. rewrite map_lookup_filter, Hn, lookup_update_where, F4. destruct (names s !! name) as [n|]; [|done]. cbn.
    assert (∀ x, (n <| n_holder_id := x |>) = mkNameRow (n_kind n) (n_family n) (n_session_id n) (n_repository n) x (n_role n) (n_conflict n)) as E by done.
    destruct (recorded_holder _ _ _ n) eqn:Er; cbn; case_bool_decide as Hb; cbn; try done.
Qed.
End deletion.
(** ** A sweep that has budget left *)

Lemma write_declined {A} (w : Write) en (body : tx A) st st' : (∀ s, w_guard w s = None) → write w en body st = (Err Declined, st') →
  body ((tables st) <| pending := w_audit w |>) = Err Declined.
Proof.
  intros Hg. unfold write. rewrite Hg. destruct (enter (w_class w) en st) as [[u|e] st1] eqn:E.
  - rewrite Hg. apply enter_spec in E as (Ht & _). rewrite <-Ht. destruct (en_full_body en); [by unfold full; destruct (w_class w)|].
    destruct (body _) as [[a s]|e]; [|by intros [= -> ->]]. unfold commit, full. repeat case_match; try done; by simplify_eq.
  - intros [= -> <-]. exfalso. unfold enter, reclaim, prove_log in E. by repeat case_match; simplify_eq.
Qed.
(** What an accepted attempt did *)
Lemma attempt_Ok {A} t (none : A) body st a st' : attempt t none body st = (Ok a, st') →
  (∃ s, body ((tables (tn_other t st)) <| pending := None |>) = Ok (a, s) ∧ tables st' = s <| pending := None |>) ∨
  (a = none ∧ tables st' = tables (tn_other t st) ∧ body ((tables (tn_other t st)) <| pending := None |>) = Err Declined).
Proof.
  unfold attempt. destruct (write _ _ _ _) as [[x|e] st1] eqn:E.
  - intros [= -> ->]. left. apply write_Ok in E as (s & Hs & Ht & _). exists s. split; [done|]. rewrite Ht. unfold writeAudit. cbn. by destruct (pending s).
  - destruct e; try done. intros [= <- ->]. right. split; [done|]. split; [by eapply write_Err in E as [? _]|]. by apply write_declined in E.
Qed.

(** What the batches of one inbox leave: the other inboxes, the mark, and whatever is above it *)
Record inbox_swept (k : Key) (mark : Z) (s s' : State) : Prop := {
  sw_others : ∀ j, j ≠ k → sessions s' !! j = sessions s !! j;
  sw_mark : s_ack_mark <$> sessions s' !! k = s_ack_mark <$> sessions s !! k;
  sw_sub : messages s' ⊆ messages s;
  sw_kept : ∀ i m, messages s !! i = Some m → m_recipient m ≠ k ∨ mark < m_seq m → messages s' !! i = Some m }.
#[export] Instance inbox_swept_preorder k mark : PreOrder (inbox_swept k mark).
Proof.
  split; [by intros s; split|]. intros s1 s2 s3 [A1 A2 A3 A4] [B1 B2 B3 B4]. split.
  - intros j Hj. rewrite B1, A1 by done. done.
  - congruence.
  - by etrans.
  - intros i m Hi Hm. apply B4; [by apply A4|done].
Qed.
Lemma swept_view k mark s s' : inbox_view s' = inbox_view s → inbox_swept k mark s s'.
Proof. unfold inbox_view. intros [= E1 E2 _]. split; rewrite ?E1, ?E2; done. Qed.
Lemma deleteMarkedTx_swept k cutoff limit s n done_ s' r : sessions s !! k = Some r → deleteMarkedTx k cutoff limit s = Ok ((n, done_), s') → 0 < limit →
  inbox_swept k (s_ack_mark r) s s' ∧ 0 ≤ n ≤ limit ∧
  if done_ then ∀ i m, messages s' !! i = Some m → m_recipient m = k → s_ack_mark r < m_seq m else n = limit ∧ sessions s' = sessions s.
Proof.
  intros Hr (r2 & Hr2 & Hd & [= -> ->] & Hm & Hs)%deleteMarkedTx_Ok Hlim. assert (r2 = r) as -> by congruence. set (rows := oldest _ _ _ _) in *.
  assert (Z.of_nat (length rows) ≤ limit) as Hlen by (unfold rows, oldest; rewrite length_take; lia). split; [split|split; [lia|]].
  - intros j Hj. rewrite Hs. case_match; [by rewrite lookup_alter_ne|done].
  - rewrite Hs. case_match; [|done]. by rewrite lookup_alter_eq, Hr.
  - rewrite Hm. apply map_filter_subseteq.
  - intros i m Hi Hk. rewrite Hm. apply map_lookup_filter_Some. split; [done|]. cbn. intros ([i' m'] & -> & Hin)%list_elem_of_fmap. cbn in *.
    destruct (oldest_rows _ _ _ _ _ _ Hin) as (Hl & Hk' & Hq). assert (m' = m) as -> by congruence. destruct Hk; [done|lia].
  - destruct (Z.ltb_spec (Z.of_nat (length rows)) limit) as [Hlt|Hge]; [|split; [lia|done]].
    intros i m Hi Hk. rewrite Hm in Hi. apply map_lookup_filter_Some in Hi as [Hi Hout]. cbn in Hout. destruct (Z.lt_ge_cases (s_ack_mark r) (m_seq m)) as [|Hle]; [done|]. destruct Hout.
    apply list_elem_of_fmap. exists (i, m). split; [done|]. unfold rows, oldest in *. rewrite length_take in Hlt. rewrite take_ge by lia. apply elem_of_order_by, elem_of_select. split; [done|].
    apply andb_true_iff. split; [by apply keqb_true|lia].
Qed.

Lemma deleteMarkedTx_total k cutoff limit s r : sessions s !! k = Some r → due_mark cutoff r = true → ∃ x, deleteMarkedTx k cutoff limit s = Ok x.
Proof.
  intros Hr Hd. unfold deleteMarkedTx. rewrite (bind_run _ _ _ (Some r) s) by (unfold gets; by rewrite Hr). rewrite (bind_run _ _ _ tt s) by by rewrite Hd.
  unfold delete_messages, bumpInbox, when. rewrite (bind_run _ _ _ _ s eq_refl), (bind_run _ _ _ tt _ eq_refl).
  destruct (0 <? _), (keqb k maintainerKey), (_ <? limit); eexists; reflexivity.
Qed.

(** Every batch of one inbox *)
Lemma drain_swept k cutoff turn fuel : (∀ n, tn_other (turn n) = λ st, st) → ∀ budget deleted st b d st' r, (Z.to_nat budget ≤ fuel)%nat → 0 ≤ budget →
  sessions (tables st) !! k = Some r → due_mark cutoff r = true →
  drain (λ t, deleteMarked t k cutoff) fuel turn budget deleted st = (Ok (b, d), st') →
  0 ≤ b ≤ budget ∧ d - deleted = budget - b ∧ inbox_swept k (s_ack_mark r) (tables st) (tables st') ∧
  (0 < b → ∀ i m, messages (tables st') !! i = Some m → m_recipient m = k → s_ack_mark r < m_seq m).
Proof.
  intros Hid. induction fuel as [|fuel IH]; intros budget deleted st b d st' r Hf Hb Hr Hd H; cbn [drain] in H; [injection H as <- <- <-; split_and!; try done; lia|].
  destruct (Z.leb_spec budget 0) as [Hz|Hpos]; [injection H as <- <- <-; split_and!; try done; lia|]. set (limit := Z.min cullBatch budget) in *. assert (1 ≤ limit ≤ budget) as Hl by (unfold limit, cullBatch; lia).
  destruct (deleteMarked _ _ _ _ st) as [[[n dn]|e] st1] eqn:E; [|done]. apply attempt_Ok in E as [(s & Hs & Et)|(_ & _ & Hdec)]; rewrite Hid in *.
  2:{ exfalso. destruct (deleteMarkedTx_total k cutoff limit ((tables st) <| pending := None |>) r) as [x E]; [done|done|]. congruence. }
  apply (deleteMarkedTx_swept _ _ _ _ _ _ _ r) in Hs as (Hsw & Hn & Hdone); [|done|lia].
  assert (inbox_swept k (s_ack_mark r) (tables st) (tables st1)) as H1.
  { etrans; [by apply (swept_view k _ (tables st) ((tables st) <| pending := None |>))|]. etrans; [exact Hsw|]. rewrite Et. by apply swept_view. }
  destruct dn.
  - injection H as <- <- <-. split_and!; [lia|lia|lia|done|]. intros _ i m Hi. rewrite Et in Hi. by eapply Hdone.
  - destruct Hdone as [-> Hss]. destruct (IH (budget - limit) (deleted + limit) st1 b d st' r) as (A1 & A2 & A3 & A4); [lia|lia| |done|done|].
    { rewrite Et. cbn. by rewrite Hss. }
    split_and!; [lia|lia|lia|by etrans|done].
Qed.

(** The inboxes that a sweep selects *)
Lemma sessionKeys_spec f P s : NoDup (sessionKeys f P s) ∧ (∀ k, k ∈ sessionKeys f P s → ∃ r, sessions s !! k = Some r ∧ P k r = true) ∧
  (∀ k r, sessions s !! k = Some r → P k r = true → k ∈ sessionKeys f P s ∨ length (sessionKeys f P s) = cullSessions).
Proof.
  unfold sessionKeys. set (l := fst <$> _). assert (∀ k, k ∈ l ↔ ∃ r, sessions s !! k = Some r ∧ P k r = true) as Hl.
  { intros k. unfold l. rewrite list_elem_of_fmap. split.
    - intros ([k' r] & -> & Hin). rewrite merge_sort_Permutation in Hin. apply elem_of_select in Hin. cbn. eauto.
    - intros (r & Hr). exists (k, r). split; [done|]. rewrite merge_sort_Permutation. by apply elem_of_select. }
  assert (NoDup l) as Hnd.
  { unfold l. apply NoDup_fmap_fst; [|rewrite merge_sort_Permutation; apply NoDup_select]. intros k r1 r2. rewrite !merge_sort_Permutation.
    intros [H1 _]%elem_of_select [H2 _]%elem_of_select. congruence. }
  split; [|split].
  - rewrite <-(take_drop cullSessions l) in Hnd. by apply NoDup_app in Hnd as [? _].
  - intros k (i & Hi & _)%elem_of_take. by apply Hl, (list_elem_of_lookup_2 _ i).
  - intros k r Hr HP. assert (k ∈ l) as Hin by (apply Hl; eauto). destruct (Nat.le_gt_cases (length l) cullSessions) as [Hle|Hgt]; [left; by rewrite take_ge|right]. rewrite length_take. lia.
Qed.

Lemma drain_due_swept cutoff turns due : (∀ k n, tn_other (turns k n) = λ st, st) → ∀ budget deleted st b d spent st', 0 ≤ budget → NoDup due →
  (∀ k, k ∈ due → ∃ r, sessions (tables st) !! k = Some r ∧ due_mark cutoff r = true) → drain_due cutoff turns due budget deleted st = (Ok (b, d, spent), st') →
  0 ≤ b ≤ budget ∧ d - deleted = budget - b ∧ (spent = true → b = 0) ∧ messages (tables st') ⊆ messages (tables st) ∧
  (∀ i m, messages (tables st) !! i = Some m → (∀ r, m_recipient m ∈ due → sessions (tables st) !! m_recipient m = Some r → s_ack_mark r < m_seq m) → messages (tables st') !! i = Some m) ∧
  (spent = false → ∀ k r, k ∈ due → sessions (tables st) !! k = Some r → ∀ i m, messages (tables st') !! i = Some m → m_recipient m = k → s_ack_mark r < m_seq m).
Proof.
  intros Hid. induction due as [|k due IH]; intros budget deleted st b d spent st' Hb Hnd Hdue H; cbn [drain_due] in H.
  { injection H as <- <- <- <-. split_and!; try done; try lia. by intros _ k r ?%elem_of_nil. }
  apply NoDup_cons in Hnd as [Hn Hnd]. destruct (Hdue k ltac:(left)) as (r & Hr & Hd). destruct (drain _ _ _ _ _ st) as [[[b1 d1]|e] st1] eqn:E; [|done].
  apply drain_swept with (r := r) in E as (A1 & A2 & [S1 S2 S3 S4] & A4); [|done|lia|done|done|done].
  assert (∀ i m, messages (tables st) !! i = Some m → (∀ r0, m_recipient m ∈ k :: due → sessions (tables st) !! m_recipient m = Some r0 → s_ack_mark r0 < m_seq m) → messages (tables st1) !! i = Some m) as Hkept1.
  { intros i m Hi Hm. apply S4; [done|]. destruct (decide (m_recipient m = k)) as [E|]; [right; apply Hm; [rewrite E; left|by rewrite E]|by left]. }
  destruct (Z.leb_spec b1 0) as [Hz|Hpos].
  - injection H as <- <- <- <-. split_and!; try done; lia.
  - apply IH in H as (B1 & B2 & B3 & B4 & B5 & B6); [|lia|done|].
    2:{ intros j Hj. rewrite S1 by (intros ->; done). apply Hdue. by right. }
    split_and!; [lia|lia|lia|done|by etrans| |].
    + intros i m Hi Hm. apply B5; [by apply Hkept1|]. intros r0 Hin Hr0. apply Hm; [by right|]. rewrite S1 in Hr0; [done|]. intros E. by rewrite E in Hin.
    + intros Hs j r0 [->|Hj]%elem_of_cons Hr0 i m Hi Hm; [|eapply B6; [done|exact Hj| |exact Hi|done]; by rewrite S1 by (intros ->; done)].
      assert (r0 = r) as -> by congruence. eapply A4; [done| |done]. by eapply lookup_weaken.
Qed.

(** C35: a sweep of the acknowledged messages, with nothing else running, deletes at most its
    budget, and the budget it has used is the number it counts; when budget is left, every
    selected inbox has lost exactly its messages up to its mark, all others keep theirs, and a
    due inbox was selected unless a hundred were. *)
Theorem sweep_complete p now turns marking budget st b d st' (cutoff := now - fst (retentionPeriods p))
    (due := sessionKeys s_ack_mark_at (λ _, due_mark cutoff) (tables st)) :
  (∀ k n, tn_other (turns k n) = λ st, st) → tn_other marking = (λ st, st) → 0 ≤ budget → deleteAcknowledged p now turns marking budget st = (Ok (b, d), st') →
  0 ≤ b ∧ b + d = budget ∧
  (∀ k r, sessions (tables st) !! k = Some r → due_mark cutoff r = true → k ∈ due ∨ length due = cullSessions) ∧
  (0 < b → ∀ i m, messages (tables st) !! i = Some m →
     messages (tables st') !! i = if bool_decide (m_recipient m ∈ due) && (m_seq m <=? from_option s_ack_mark 0 (sessions (tables st) !! m_recipient m)) then None else Some m).
Proof.
  intros Hid Hmk Hb H. destruct (sessionKeys_spec s_ack_mark_at (λ _, due_mark cutoff) (tables st)) as (Hnd & Hsel & Hall). fold due in Hnd, Hsel, Hall.
  unfold deleteAcknowledged in H. cbn zeta in H. fold cutoff due in H. destruct (drain_due _ _ _ _ _ st) as [[[[b1 d1] spent]|e] st1] eqn:E; [|done].
  apply drain_due_swept in E as (A1 & A2 & A3 & A4 & A5 & A6); [|done..]. assert (b = b1 ∧ d = d1 ∧ (0 < b → spent = false) ∧ messages (tables st') = messages (tables st1)) as (-> & -> & Hsp & Em).
  { destruct spent; [injection H as <- <- <-; split_and!; try done; intros; lia|]. rewrite Hmk in H. destruct (write _ _ _ st1) as [[u|e] st2] eqn:Ew; [|done]. injection H as <- <- <-.
    split_and!; try done. apply write_Ok in Ew as (s & Hs & Et & _). unfold markAcknowledgedTx in Hs. run Hs. rewrite Et. unfold writeAudit. cbn. done. }
  split; [lia|]. split; [lia|]. split; [done|]. intros Hpos i m Hi. rewrite Em. specialize (Hsp Hpos). case_bool_decide as Hin; cbn [andb].
  - destruct (Hsel _ Hin) as (r & Hr & _). rewrite Hr. cbn. destruct (Z.leb_spec (m_seq m) (s_ack_mark r)) as [Hle|Hgt].
    + apply eq_None_not_Some. intros [m' Hm']. pose proof (lookup_weaken _ _ _ _ Hm' A4). assert (m' = m) as -> by congruence. specialize (A6 Hsp _ _ Hin Hr _ _ Hm' eq_refl). lia.
    + apply A5; [done|]. intros r0 _ Hr0. by assert (r0 = r) as -> by congruence.
  - apply A5; [done|]. by intros r0 ?.
Qed.

(** ** The retention on the small installation

    One message is sent, acknowledged, marked and deleted; a session that ended is deleted; and
    the counts that a whole sweep reports. *)

Definition acked : State := after (ackTx 21 peer_b 1 false 0 "") sent.
Definition marked : State := after (markAcknowledgedTx 22) acked.
Lemma sent_acked : ∃ z, ackTx 21 peer_b 1 false 0 "" sent = Ok (z, acked).
Proof. apply run_after. by vm_compute. Qed.
Lemma acked_marked : ∃ u, markAcknowledgedTx 22 acked = Ok (u, marked).
Proof. apply run_after. by vm_compute. Qed.
Lemma marked_wf : inbox_wf marked.
Proof.
  destruct sent_acked as [z Ea], acked_marked as [u Em].
  eapply markTx_wf; [|exact Em]. eapply ackTx_wf; [apply sent_wf|exact Ea].
Qed.
Lemma marked_seen : rtc timed_step (20, sent, []) (22, marked, [(22, acked_positions acked); (21, acked_positions sent)]).
Proof.
  destruct sent_acked as [z Ea], acked_marked as [u Em]. eapply rtc_l; [|apply rtc_once].
  - apply (ts_other 20 21); [lia|]. eapply kept_ackTx, Ea.
  - eapply (ts_mark 21 22); [lia|exact Em].
Qed.
Lemma sent_unmarked k r : sessions sent !! k = Some r → s_ack_mark_at r = 0 ∧ s_ack_mark r ≤ s_acked_through r.
Proof.
  revert k r. apply (proj1 (map_Forall_lookup (λ _ r, s_ack_mark_at r = 0 ∧ s_ack_mark r ≤ s_acked_through r) (sessions sent))).
  apply (bool_decide_unpack _). vm_compute. exact I.
Qed.
Lemma marked_message : ∃ m, messages marked !! 1 = Some m ∧ m_recipient m = peer_b ∧ m_seq m = 1.
Proof. eexists. split; [vm_compute; reflexivity|]. split; reflexivity. Qed.
Definition deleted : State := after (deleteMarkedTx peer_b 22 500) marked.

Lemma acknowledged_waits_witness : ∃ m, messages marked !! 1 = Some m ∧ messages deleted !! 1 = None ∧
  ∃ t p q, (t, p) ∈ [(22, acked_positions acked); (21, acked_positions sent)] ∧ t ≤ 22 ∧ p !! peer_b = Some q ∧ m_seq m ≤ q.
Proof.
  destruct marked_message as (m & Hm & _). exists m. split; [exact Hm|].
  destruct (run_after (deleteMarkedTx peer_b 22 500) marked) as [a E]; [by vm_compute|].
  assert (messages deleted !! 1 = None) as Hd by (vm_compute; reflexivity). split; [exact Hd|].
  refine (proj1 (proj2 (proj2 (acknowledged_waits 20 sent 22 marked _ peer_b 22 500 a deleted 1 m _ marked_seen marked_wf E Hm Hd)))).
  exact sent_unmarked.
Defined.

(** A session that ended long ago, without messages and without claims *)
Definition closed : State := after (@deleteSessionTx zero_sum 9001 9002 peer_a (idle_session 9000)) small_state.
Lemma session_deleted_witness : sessions closed = delete peer_a (sessions small_state) ∧ names closed !! "claude-x-0a"%string = None.
Proof.
  destruct (run_after (@deleteSessionTx zero_sum 9001 9002 peer_a (idle_session 9000)) small_state) as [a E]; [by vm_compute|].
  destruct (@session_deleted zero_sum 9001 9002 peer_a (idle_session 9000) small_state a closed E) as (_ & _ & _ & _ & Hs & _ & _ & _ & _ & Hn).
  split; [exact Hs|]. rewrite Hn. vm_compute. reflexivity.
Defined.

(** A sweep a period later *)
Definition plain_turn : Turn := mkTurn (λ st, st) 30 30 engine_ok.
Definition period_later : Z := messageRetention + 22.
Definition marked_store : Store := small_store <| tables := marked |>.
Definition sweeping : result error (Z * Z) * Store := deleteAcknowledged (mkPeriods 0 0) period_later (λ _ _, plain_turn) plain_turn 600 marked_store.
Lemma sweep_complete_witness : ∃ b d, sweeping.1 = Ok (b, d) ∧ b + d = 600 ∧ 0 < b ∧ messages (tables sweeping.2) !! 1 = None.
Proof.
  destruct (answers sweeping (λ bd, 0 <? bd.1)) as ([b d] & E & Hb%Z.ltb_lt); [vm_compute; reflexivity|].
  destruct (sweep_complete (mkPeriods 0 0) period_later (λ _ _, plain_turn) plain_turn 600 marked_store b d sweeping.2) as (_ & Hs & _ & Hm); [done|done|lia|exact E|].
  exists b, d. split; [exact (f_equal fst E)|]. split; [exact Hs|]. split; [exact Hb|]. destruct marked_message as (m & Hi & Hk & Hq).
  refine (eq_trans (Hm Hb 1 m Hi) _). revert Hk Hq. generalize (m_recipient m) (m_seq m). intros k q -> ->. vm_compute. reflexivity.
Defined.
