(* ===== verification/WakeProps.v ===== *)
(** * What a wake promises

    A notice names exactly messages that wait for their reader, of an inbox whose session it
    reaches, and never while a context cycle owns the terminal; the record of an attempt touches
    these messages only; no message has more than four notices, and one that had them fails
    exactly once, with one notice to the maintainer. *)

From S2P Require Import Prelude GoString GoFloat Schema Sql Storage Label Names Fixture Messages Inboxes Sessions Cycles Launches Registrations Retention Wake InboxProps RetentionProps.
Open Scope Z_scope.

(** ** Least and greatest *)

Lemma least_Some l x : least l = Some x → x ∈ l ∧ ∀ y, y ∈ l → x ≤ y.
Proof.
  unfold least. pose proof (order_by_sorted id l) as Hs. pose proof (λ y, elem_of_order_by id l y) as He.
  destruct (order_by id l) as [|z t]; [done|]. intros [= ->]. split; [apply He; left|]. intros y Hy. apply He, elem_of_cons in Hy as [->|Hy]; [lia|].
  apply StronglySorted_inv in Hs as [_ Hall]. rewrite Forall_forall in Hall. by apply Hall.
Qed.
Lemma least_None l : least l = None → l = [].
Proof.
  unfold least. intros H. destruct (order_by id l) eqn:E; [|done]. pose proof (length_order_by id l) as Hl. rewrite E in Hl. by destruct l.
Qed.
Lemma greatest_Some l x : greatest l = Some x → x ∈ l ∧ ∀ y, y ∈ l → y ≤ x.
Proof.
  unfold greatest. pose proof (order_by_sorted id l) as Hs. pose proof (λ y, elem_of_order_by id l y) as He. intros H.
  apply last_Some in H as [t E]. rewrite E in *. split; [apply He, elem_of_app; right; left|]. intros y Hy. apply He, elem_of_app in Hy as [Hy|Hy%list_elem_of_singleton]; [|lia].
  by apply (StronglySorted_app_1_elem_of _ _ _ _ _ Hs Hy (list_elem_of_here _ _)).
Qed.
Lemma greatest_None l : greatest l = None → l = [].
Proof.
  unfold greatest. intros H. apply last_None in H. pose proof (length_order_by id l) as Hl. rewrite H in Hl. by destruct l.
Qed.

(** ** The batch *)

(** A message of the inbox [k] that its recipient has not handled *)
Definition waits (k : Key) (s : State) (m : MessageRow) : Prop := (∃ i, messages s !! i = Some m) ∧ m_recipient m = k ∧ awaits_reader m s = true.
Lemma elem_of_pending k s m : m ∈ pending_of k s ↔ waits k s m.
Proof.
  unfold pending_of, waits. rewrite list_elem_of_fmap. split.
  - intros ([i m'] & -> & [Hl [Hk%keqb_true Hu]%andb_true_iff]%elem_of_select). eauto.
  - intros ((i & Hi) & Hk & Hu). exists (i, m). split; [done|]. apply elem_of_select. split; [done|]. apply andb_true_iff. by rewrite keqb_true.
Qed.
Lemma elem_of_where {A} (P : A → bool) (l : list A) x : x ∈ filter (λ y, P y) l ↔ x ∈ l ∧ P x = true.
Proof. rewrite list_elem_of_filter, Is_true_true. tauto. Qed.
Lemma least_where {A} (f : A → Z) (P : A → bool) l : match least (f <$> filter (λ y, P y) l) with
  | Some x => (∃ y, y ∈ l ∧ P y = true ∧ f y = x) ∧ ∀ y, y ∈ l → P y = true → x ≤ f y
  | None => ∀ y, y ∈ l → P y = false end.
Proof.
  destruct (least _) as [x|] eqn:E.
  - apply least_Some in E as [(y & -> & [Hy HP]%elem_of_where)%list_elem_of_fmap Hmin]. split; [by exists y|]. intros z Hz HPz. apply Hmin, list_elem_of_fmap. exists z. by rewrite elem_of_where.
  - apply least_None, fmap_nil_inv in E. intros y Hy. destruct (P y) eqn:HP; [|done]. assert (y ∈ filter (λ y, P y) l) as Hin by by apply elem_of_where. rewrite E in Hin. by apply elem_of_nil in Hin.
Qed.
(** The first run of due messages: it starts at the first one and stops before one that is not due. *)
Lemma due_run_spec now pending : (due_run now pending = [] ∧ ∀ m, m ∈ pending → dueWake now m = false) ∨
  ∃ m1, m1 ∈ pending ∧ dueWake now m1 = true ∧ (∀ m, m ∈ pending → dueWake now m = true → m_seq m1 ≤ m_seq m) ∧
    ∀ m, m ∈ due_run now pending ↔ m ∈ pending ∧ dueWake now m = true ∧ ∀ m', m' ∈ pending → m_seq m1 < m_seq m' ≤ m_seq m → dueWake now m' = true.
Proof.
  unfold due_run. pose proof (least_where m_seq (dueWake now) pending) as Hf. destruct (least _) as [first|]; [right|by left].
  destruct Hf as [(m1 & Hm1 & Hd1 & <-) Hmin]. exists m1. split_and!; [done..|]. intros m. rewrite elem_of_where, andb_true_iff.
  pose proof (least_where m_seq (λ x, negb (dueWake now x) && (m_seq m1 <? m_seq x)) pending) as Hg. cbn beta in Hg. destruct (least _) as [q|].
  - destruct Hg as [(y & Hy & HP & <-) Hq]. apply andb_true_iff in HP as [Hny%negb_true_iff Hlt]. split.
    + intros (Hm & Hd & Hlt2). split_and!; [done..|]. intros m' Hm' Hb. destruct (dueWake now m') eqn:E; [done|]. specialize (Hq m' Hm'). rewrite E in Hq. cbn in Hq. lia.
    + intros (Hm & Hd & Hall). split_and!; [done..|]. destruct (Z.ltb_spec (m_seq m) (m_seq y)) as [|Hge]; [done|]. rewrite Hall in Hny; [done|done|lia].
  - split.
    + intros (Hm & Hd & _). split_and!; [done..|]. intros m' Hm' Hb. specialize (Hg m' Hm'). destruct (dueWake now m'); [done|]. cbn in Hg. lia.
    + by intros (Hm & Hd & _).
Qed.

(** A batch covers the whole inbox between its bounds, and begins after all that was handled. *)
Record batch_spec (now : Z) (session target : Session) (s : State) (b : wakeBatch) : Prop := {
  bs_session : wb_Session b = session; bs_target : wb_Target b = target;
  bs_order : wb_First b ≤ wb_Last b;
  bs_first : ∃ m, waits (ss_Key session) s m ∧ m_seq m = wb_First b;
  bs_last : ∃ m, waits (ss_Key session) s m ∧ m_seq m = wb_Last b;
  bs_due : ∀ m, waits (ss_Key session) s m → wb_First b ≤ m_seq m ≤ wb_Last b → dueWake now m = true;
  bs_least : ∀ m, waits (ss_Key session) s m → dueWake now m = true → wb_First b ≤ m_seq m;
  bs_counts : ∀ m, waits (ss_Key session) s m → wb_First b ≤ m_seq m ≤ wb_Last b → m_wake_attempts m ≤ wb_Attempts b ∧ m_wake_notices m ≤ wb_Notices b;
  bs_notices : ∃ m, waits (ss_Key session) s m ∧ dueWake now m = true ∧ m_wake_notices m = wb_Notices b }.
Lemma greatest_default f l (m : MessageRow) : m ∈ l → f m ≤ default 0 (greatest (f <$> l)).
Proof.
  intros Hm. destruct (greatest _) as [x|] eqn:E; [|apply greatest_None, fmap_nil_inv in E as ->; by apply elem_of_nil in Hm].
  apply greatest_Some in E as [_ Hx]. apply Hx, list_elem_of_fmap. by exists m.
Qed.
Lemma waits_unique k s m n : inbox_wf s → waits k s m → waits k s n → m_seq m = m_seq n → m = n.
Proof. intros Hwf ((i & Hi) & Hk & _) ((j & Hj) & Hk' & _) E. pose proof (wf_unique _ Hwf _ _ _ _ Hi Hj ltac:(congruence) E) as ->. congruence. Qed.
Lemma batch_of_Some now session target s b : inbox_wf s → batch_of now session target s = Some b → batch_spec now session target s b.
Proof.
  intros Hwf. unfold batch_of. set (pending := pending_of _ _). destruct (least _) as [first|] eqn:Ef; [|done]. destruct (greatest _) as [last|] eqn:El; [|done]. intros [= <-].
  destruct (due_run_spec now pending) as [[E _]|(m1 & Hm1 & Hd1 & Hmin & Hrun)]; [rewrite E in Ef; by cbn in Ef|].
  apply least_Some in Ef as [(m2 & -> & Hm2)%list_elem_of_fmap Hle]. apply greatest_Some in El as [(m3 & -> & Hm3)%list_elem_of_fmap Hge].
  assert (m1 ∈ due_run now pending) as Hin1 by (apply Hrun; split_and!; [done..|intros; lia]).
  pose proof (Hle _ (list_elem_of_fmap_2 m_seq _ _ Hin1)) as H21. apply Hrun in Hm2 as (Hp2 & Hd2 & _). pose proof (Hmin _ Hp2 Hd2) as H12. pose proof Hm3 as (Hp3 & Hd3 & Hr3)%Hrun.
  assert (∀ m, waits (ss_Key session) s m → m_seq m2 ≤ m_seq m ≤ m_seq m3 → m ∈ due_run now pending) as Hin.
  { intros m Hw Hb. destruct (decide (m_seq m = m_seq m1)) as [E|Hne].
    - apply elem_of_pending in Hm1. by rewrite (waits_unique _ _ _ _ Hwf Hw Hm1 E).
    - apply elem_of_pending in Hw. fold pending in Hw. apply Hrun. split_and!; [done|apply Hr3; [done|lia]|]. intros m' Hm' Hb'. apply Hr3; [done|lia]. }
  split; cbn; try done.
  - apply Hle, list_elem_of_fmap. by exists m3.
  - exists m2. by rewrite <-elem_of_pending.
  - exists m3. by rewrite <-elem_of_pending.
  - intros m Hw Hb. by apply (Hin _ Hw), Hrun in Hb as (_ & ? & _).
  - intros m Hw%elem_of_pending Hd. specialize (Hmin m Hw Hd). lia.
  - intros m Hw Hb. split; apply greatest_default; by apply Hin.
  - destruct (greatest (m_wake_notices <$> _)) as [x|] eqn:E; [|apply greatest_None, fmap_nil_inv in E; rewrite E in Hin1; by apply elem_of_nil in Hin1].
    apply greatest_Some in E as [(m & -> & (Hm & Hd & _)%Hrun)%list_elem_of_fmap _]. exists m. by rewrite <-elem_of_pending.
Qed.

(** ** What runs between the transactions of a submission

    Messages are sent, read and deleted at any time; acknowledgements, registrations, holder
    changes and the other wakes wait for the lock. *)

(** A message of before keeps the columns [col]; a new one comes after all that were in its inbox
    and had no notice; what was handled stays handled. *)
Record follows {A} (col : MessageRow → A) (s s' : State) : Prop := {
  fo_wf : inbox_wf s → inbox_wf s';
  fo_messages : ∀ i m', messages s' !! i = Some m' → (∃ m, messages s !! i = Some m ∧ col m' = col m ∧ m_recipient m' = m_recipient m ∧ m_seq m' = m_seq m ∧ m_wake_notices m' = m_wake_notices m) ∨
    (m_wake_notices m' = 0 ∧ ∀ r, sessions s !! m_recipient m' = Some r → s_last_seq r < m_seq m');
  fo_sessions : ∀ k r, sessions s !! k = Some r → ∃ r', sessions s' !! k = Some r' ∧ handled r ≤ handled r' ∧ s_last_seq r ≤ s_last_seq r' }.
Definition no_column (m : MessageRow) : unit := tt.
Definition due_columns (m : MessageRow) : DeliveryState * Z := (m_delivery_state m, m_wake_next_at m).
#[export] Instance follows_preorder {A} (col : MessageRow → A) : PreOrder (follows col).
Proof.
  split.
  - intros s. split; [done|intros i m' H; left; eauto 10|intros k r H; exists r; split; [done|lia]].
  - intros s1 s2 s3 [W1 M1 S1] [W2 M2 S2]. split; [auto| |].
    + intros i m3 H3. destruct (M2 _ _ H3) as [(m2 & H2 & E1 & E2 & E3 & E4)|[H0 Hnew]].
      * destruct (M1 _ _ H2) as [(m1 & H1 & F1 & F2 & F3 & F4)|[H0 Hnew]]; [left; exists m1; split_and!; congruence|right]. split; [congruence|]. rewrite E2, E3. exact Hnew.
      * right. split; [done|]. intros r Hr. destruct (S1 _ _ Hr) as (r2 & Hr2 & _ & Hle). specialize (Hnew _ Hr2). lia.
    + intros k r Hr. destruct (S1 _ _ Hr) as (r2 & Hr2 & A1 & A2), (S2 _ _ Hr2) as (r3 & Hr3 & B1 & B2). exists r3. split; [done|lia].
Qed.
Lemma follows_weaken {A} (col : MessageRow → A) s s' : follows col s s' → follows no_column s s'.
Proof. intros [W M S]. split; [done| |done]. intros i m' H. destruct (M _ _ H) as [(m & ? & ? & ?)|?]; [left; eauto|by right]. Qed.
Lemma follows_view {A} (col : MessageRow → A) s s' : inbox_view s' = inbox_view s → follows col s s'.
Proof.
  intros E. split; [by apply inbox_wf_view| |].
  - injection E as _ Em _. rewrite Em. intros i m H. left. eauto 10.
  - injection E as Es _ _. rewrite Es. intros k r H. exists r. split; [done|lia].
Qed.
(** A message that waits now waited before, or is new. *)
Lemma waits_before {A} (col : MessageRow → A) k s s' m' : follows col s s' → inbox_wf s → waits k s' m' →
  (∃ m, waits k s m ∧ col m' = col m ∧ m_seq m' = m_seq m ∧ m_wake_notices m' = m_wake_notices m) ∨
  (m_wake_notices m' = 0 ∧ ∀ r, sessions s !! k = Some r → s_last_seq r < m_seq m').
Proof.
  intros [W M S] Hwf ((i & Hi) & Hk & Hu). destruct (M _ _ Hi) as [(m & Hm & E1 & E2 & E3 & E4)|[H0 Hnew]]; [|right; by rewrite <-Hk].
  left. exists m. split; [|done]. split; [by exists i|]. split; [congruence|]. destruct (wf_seqs _ Hwf _ _ Hm) as (_ & r & Hr & _).
  unfold awaits_reader in *. rewrite Hr. destruct (S _ _ Hr) as (r' & Hr' & Hle & _). rewrite E2, Hr' in Hu. lia.
Qed.

(** Writes of the wake *)
Lemma recordWakeTx_follows now due b r attempts s u s' : reachedAgent r = false → recordWakeTx now due b r attempts s = Ok (u, s') → follows no_column s s'.
Proof.
  intros Hr H. pose proof (λ W, recordWakeTx_wf now due b r attempts s u s' W H) as Hwf. unfold recordWakeTx in H. run H. split; [done| |intros k x Hx; exists x; split; [done|lia]].
  cbn. intros i m'. rewrite lookup_update_where. intros (m & Hm & ->)%fmap_Some. left. exists m. split; [done|]. split; [done|]. destruct (_ && _); [|done]. unfold record_row. rewrite Hr. cbn. split_and!; [done..|lia].
Qed.
Lemma noticeMaintainer_Ok now body s u s' : noticeMaintainer now body s = Ok (u, s') → ∃ r, sessions s !! maintainerKey = Some r ∧
  messages s' = <[messages_issued s + 1 := new_message maintainerKey (s_last_seq r + 1) koinon_key "koinon" body now]> (messages s) ∧ messages_issued s' = messages_issued s + 1 ∧
  sessions s' = <[maintainerKey := r <| s_last_seq := s_last_seq r + 1 |> ]> (sessions s).
Proof.
  intros H. unfold noticeMaintainer in H. run H. cbn zeta in *. exists v. split; [done|].
  match goal with R : insert_message _ _ = Ok _ |- _ => apply insert_message_Ok in R as (-> & -> & _) end. unfold bumpChange in H. run H. by split_and!.
Qed.
Lemma failUnhandledTx_Ok now name k s u s' : failUnhandledTx now name k s = Ok (u, s') →
  let rows := select (exhausted now k s) (messages s) in
  let reasons := order_by_name id (remove_dups ((λ im : Z * MessageRow, m_delivery_reason (fail_row now im.2)) <$> rows)) in
  rows ≠ [] ∧ ∃ r, sessions s !! maintainerKey = Some r ∧
  messages s' = <[messages_issued s + 1 := new_message maintainerKey (s_last_seq r + 1) koinon_key "koinon"
      (failed_body (order_by id rows.*1) reasons (if isParticipantID (ID k) then trim_prefix (ID k) participantPrefix else name)) now]>
    (update_where (exhausted now k s) (fail_row now) (messages s)) ∧ messages_issued s' = messages_issued s + 1 ∧
  sessions s' = <[maintainerKey := r <| s_last_seq := s_last_seq r + 1 |> ]> (sessions s).
Proof.
  intros H. unfold failUnhandledTx in H. run H. cbn zeta. apply negb_true_iff, bool_decide_eq_false in G. split; [done|]. by apply noticeMaintainer_Ok in H.
Qed.
Lemma failUnhandledTx_follows now name k s u s' : inbox_wf s → failUnhandledTx now name k s = Ok (u, s') → follows no_column s s'.
Proof.
  intros Hwf H. pose proof (failUnhandledTx_wf _ _ _ _ _ _ Hwf H) as Hwf'. apply failUnhandledTx_Ok in H as (_ & r & Hr & Em & _ & Es). split; [done| |].
  - intros i m'. rewrite Em, lookup_insert. destruct (decide _); [intros [= <-]; right; split; [done|]; cbn; intros x Hx; replace x with r by congruence; lia|].
    rewrite lookup_update_where. intros (m & Hm & ->)%fmap_Some. left. exists m. split; [done|]. by destruct (exhausted _ _ _ _ _).
  - intros k' x Hx. rewrite Es, lookup_insert. destruct (decide _) as [<-|]; [|exists x; split; [done|lia]]. replace x with r by congruence. eexists. split; [done|]. unfold handled. cbn. lia.
Qed.
(** After it nothing of the inbox that is due has had all its notices. *)
Lemma failUnhandledTx_done now name k s u s' : failUnhandledTx now name k s = Ok (u, s') → ∀ m, waits k s' m → dueWake now m = true → m_wake_notices m < wakeNoticeLimit.
Proof.
  intros (_ & r & Hr & Em & _ & Es)%failUnhandledTx_Ok m ((i & Hi) & Hk & Hu) Hd. rewrite Em, lookup_insert in Hi. destruct (decide _); [injection Hi as <-; by cbn|].
  rewrite lookup_update_where in Hi. apply fmap_Some in Hi as (m0 & Hm0 & ->). destruct (exhausted now k s i m0) eqn:E; [done|].
  unfold exhausted in E. rewrite Hd, (proj2 (keqb_true _ _) Hk) in E. assert (awaits_reader m0 s = true) as Hu0.
  { unfold awaits_reader in *. rewrite Es, lookup_insert in Hu. destruct (decide _) as [Ek|]; [|done]. rewrite <-Ek, Hr. exact Hu. }
  rewrite Hu0 in E. cbn in E. lia.
Qed.
Lemma noticeMaintainer_run now body s : noticeMaintainer now body s = match sessions s !! maintainerKey with
  | None => Err NoRows
  | Some r => match insert_message (new_message maintainerKey (s_last_seq r + 1) koinon_key "koinon" body now)
                      (s <| sessions := <[maintainerKey := r <| s_last_seq := s_last_seq r + 1 |> ]> (sessions s) |>) with
              | Ok (_, s2) => bumpChange changeInbox s2
              | Err e => Err e
              end
  end.
Proof. unfold noticeMaintainer, mbind, M_bind, gets, row, modify. by destruct (sessions s !! maintainerKey). Qed.
Lemma failUnhandledTx_run now name k s (rows := select (exhausted now k s) (messages s)) : failUnhandledTx now name k s =
  if bool_decide (rows = []) then Err Declined
  else noticeMaintainer now (failed_body (order_by id rows.*1) (order_by_name id (remove_dups ((λ im : Z * MessageRow, m_delivery_reason (fail_row now im.2)) <$> rows)))
         (if isParticipantID (ID k) then trim_prefix (ID k) participantPrefix else name)) (s <| messages := update_where (exhausted now k s) (λ m, fail_row now m) (messages s) |>).
Proof. unfold failUnhandledTx, mbind at 1 2 3, M_bind, gets, modify, ensure. fold rows. by destruct (bool_decide _). Qed.
(** It ends without a commit exactly when nothing has to fail. *)
Lemma failUnhandledTx_declined now name k s : failUnhandledTx now name k s = Err Declined ↔ select (exhausted now k s) (messages s) = [].
Proof.
  rewrite failUnhandledTx_run. case_bool_decide as E; [done|]. split; [|done]. rewrite noticeMaintainer_run. destruct (sessions _ !! _); [|done].
  unfold insert_message. by destruct (exists_where _ _).
Qed.
Lemma failUnhandledTx_total now name k s r : inbox_wf s → sessions s !! maintainerKey = Some r → select (exhausted now k s) (messages s) ≠ [] →
  ∃ s', failUnhandledTx now name k s = Ok (tt, s').
Proof.
  intros Hwf Hr Hne. rewrite failUnhandledTx_run, bool_decide_eq_false_2 by done. rewrite noticeMaintainer_run. set (s1 := s <| messages := _ |>).
  assert (inbox_wf s1) as Hwf1. { refine (wf_update_messages (exhausted now k s) (λ m, fail_row now m) _ s tt _ Hwf eq_refl). done. }
  replace (sessions s1 !! maintainerKey) with (Some r) by done. cbn iota beta. edestruct (deliver_row_total maintainerKey r) as [s2 E]; [exact Hwf1|exact Hr| | |rewrite E; eexists; reflexivity]; done.
Qed.

(** ** A submission *)

Definition calm (f : Store → Store) : Prop := ∀ st, follows due_columns (tables st) (tables (f st)) ∧ names (tables (f st)) = names (tables st).
Definition calm_look (t : Look) : Prop := calm (lk_other t) ∧ calm (lk_between t).
Record calm_submit (t : SubmitTurn) : Prop := {
  cs_look : calm_look (su_look t); cs_pane : calm (su_pane t); cs_fail : calm (tn_other (su_fail t)); cs_again : calm_look (su_again t);
  cs_start : calm (tn_other (su_start t)); cs_texts : calm (su_texts t); cs_end : calm (tn_other (su_end t)) }.

(** Whom a notice for the inbox [k] reaches *)
Definition reaches (k : Key) (s : State) (session target : Session) : Prop :=
  ss_Key session = k ∧ ss_State session = Active ∧ ss_State target = Active ∧
  if isParticipantID (ID k) then
    let address := trim_prefix (ID k) participantPrefix in
    ss_Address target = address ∧ ss_HoldsAddress target = true ∧ ∃ n, names s !! address = Some n ∧ ss_Key target = mkKey (Family k) (n_holder_id n)
  else target = session.
Lemma wakeRecipient_Some now later k s session target : wakeRecipient now later k s = Ok (Some (session, target)) → reaches k s session target.
Proof.
  unfold wakeRecipient, reaches, scanSession. destruct (sessions s !! k) as [r|]; [|done]. cbn [fmap option_fmap option_map]. destruct (negb _) eqn:Ea; [done|]. apply negb_false_iff, bool_decide_eq_true in Ea.
  destruct (isParticipantID (ID k)); [|intros [= <- <-]; by split_and!]. destruct (names s !! _) as [n|] eqn:En; [|done]. destruct (negb _); [done|]. destruct (seqb (n_holder_id n) ""); [done|].
  destruct (sessions s !! mkKey _ _) as [r'|]; [|done]. cbn [fmap option_fmap option_map]. destruct (_ || _ || _) eqn:Eo; [done|]. rewrite !orb_false_iff, !negb_false_iff, bool_decide_eq_true, seqb_true in Eo. destruct Eo as [[E1 E2] E3].
  intros [= <- <-]. split_and!; [done..|]. by exists n.
Qed.
Lemma pendingWake_Some t k st b st' : pendingWake t k st = (Ok (Some b), st') → st' = lk_between t (lk_other t st) ∧
  ∃ session target, wakeRecipient (lk_now t) (lk_later t) k (tables (lk_other t st)) = Ok (Some (session, target)) ∧ batch_of (lk_due t) session target (tables st') = Some b.
Proof.
  unfold pendingWake. destruct (wakeRecipient _ _ _ _) as [[[session target]|]|e] eqn:E; [|done..]. intros [= Hb <-]. split; [done|]. by exists session, target.
Qed.
(** A look at the inbox *)
Lemma pendingWake_looked t k st b st' : calm_look t → inbox_wf (tables st) → pendingWake t k st = (Ok (Some b), st') →
  follows due_columns (tables st) (tables st') ∧ names (tables st') = names (tables st) ∧ reaches k (tables st') (wb_Session b) (wb_Target b) ∧
  batch_spec (lk_due t) (wb_Session b) (wb_Target b) (tables st') b.
Proof.
  intros [C1 C2] Hwf (-> & session & target & Hw & Hb)%pendingWake_Some. destruct (C1 st) as [F1 N1], (C2 (lk_other t st)) as [F2 N2].
  assert (inbox_wf (tables (lk_between t (lk_other t st)))) as Hwf' by (apply (fo_wf _ _ _ F2), (fo_wf _ _ _ F1), Hwf).
  pose proof (batch_of_Some _ _ _ _ _ Hwf' Hb) as Hs. apply wakeRecipient_Some in Hw. pose proof (bs_session _ _ _ _ _ Hs) as <-. pose proof (bs_target _ _ _ _ _ Hs) as <-. split_and!; [by etrans|congruence| |done].
  unfold reaches in *. by rewrite N2.
Qed.
Lemma pendingWake_state t k st r st' : pendingWake t k st = (r, st') → st' = lk_other t st ∨ st' = lk_between t (lk_other t st).
Proof. unfold pendingWake. destruct (wakeRecipient _ _ _ _) as [[[session target]|]|e]; intros [= <- <-]; auto. Qed.
Lemma failUnhandled_after t k st : calm (tn_other t) → inbox_wf (tables st) → let s' := tables (failUnhandled t k st).2 in
  follows no_column (tables st) s' ∧ names s' = names (tables st) ∧
  ((failUnhandled t k st).1 = Ok tt → ∀ m, waits k s' m → dueWake (tn_now t) m = true → m_wake_notices m < wakeNoticeLimit).
Proof.
  intros C Hwf. cbn zeta. destruct (C st) as [F N]. pose proof (fo_wf _ _ _ F Hwf) as Hwf1. unfold failUnhandled. destruct (scanSession _ _ _) as [session|]; [|split_and!; [by eapply follows_weaken|done|done]].
  unfold attempt. cbn [tn_other tn_now tn_engine]. set (st1 := tn_other t st) in *. destruct (write _ _ _ st1) as [[u|e] st2] eqn:E.
  - destruct u. apply write_Ok in E as (s & Hs & Et & _). cbn [fst snd]. assert (inbox_wf ((tables st1) <| pending := None |>)) as Hwf2 by by apply (inbox_wf_view (tables st1)).
    pose proof (failUnhandledTx_follows _ _ _ _ _ _ Hwf2 Hs) as F2. pose proof (failUnhandledTx_done _ _ _ _ _ _ Hs) as Hd.
    assert (inbox_view (tables st2) = inbox_view s) as Ev by (rewrite Et; unfold writeAudit; cbn; by destruct (pending s)). split_and!.
    + etrans; [by eapply follows_weaken|]. etrans; [by apply (follows_view no_column (tables st1) ((tables st1) <| pending := None |>))|]. etrans; [exact F2|by apply follows_view].
    + rewrite <-N. assert (Keeps names (failUnhandledTx (tn_now t) (ss_Name session) k)) as Hk by (unfold failUnhandledTx, noticeMaintainer; keeps). apply Hk in Hs. rewrite Et. unfold writeAudit. cbn. destruct (pending s); cbn; exact Hs.
    + intros _ m Hw. apply Hd. injection Ev as E1 E2 _. unfold waits, awaits_reader in *. by rewrite <-E1, <-E2.
  - assert (tables st2 = tables st1) as Et by by eapply write_Err in E as [? _]. assert ((match e with Declined => (Ok tt, st2) | _ => (Err e, st2) end).2 = st2) as E2 by by destruct e.
    destruct e; cbn [fst snd]; rewrite Et; (split_and!; [by eapply follows_weaken|done|try done]). intros _ m ((i & Hi) & Hk & Hu) Hd. apply write_declined in E; [|done].
    apply failUnhandledTx_declined in E. destruct (Z.ltb_spec (m_wake_notices m) wakeNoticeLimit) as [|Hge]; [done|exfalso].
    assert ((i, m) ∈ select (exhausted (tn_now t) k ((tables st1) <| pending := None |>)) (messages ((tables st1) <| pending := None |>))) as Hin; [|change (w_audit control_write) with (None : option PendingAudit) in E; rewrite E in Hin; by apply elem_of_nil in Hin].
    apply elem_of_select. split; [done|]. unfold exhausted. cbn. rewrite Hd, (proj2 (keqb_true _ _) Hk). unfold awaits_reader in *. cbn. rewrite Hu. cbn. lia.
Qed.

(** *** The number of notices *)

Definition few_notices (s : State) : Prop := ∀ i m, messages s !! i = Some m → m_wake_notices m ≤ wakeNoticeLimit.
Lemma few_follows {A} (col : MessageRow → A) s s' : follows col s s' → few_notices s → few_notices s'.
Proof. intros F Hf i m' Hm'. destruct (fo_messages _ _ _ F _ _ Hm') as [(m & Hm & _ & _ & _ & ->)|[-> _]]; [by eapply Hf|done]. Qed.
Lemma in_batch_waits b i m s : messages s !! i = Some m → in_batch b m s = true → waits (ss_Key (wb_Session b)) s m ∧ wb_First b ≤ m_seq m ≤ wb_Last b.
Proof.
  unfold in_batch. rewrite !andb_true_iff. intros Hm [[[Hk%keqb_true H1] H2] Hu]. split; [|lia]. split; [by exists i|]. split; [done|]. unfold awaits_reader. by rewrite Hk.
Qed.
(** A message that a batch records at its end was in it when it was read. *)
Lemma in_batch_before now session target s0 s b i m : inbox_wf s0 → batch_spec now session target s0 b → follows no_column s0 s →
  messages s !! i = Some m → in_batch b m s = true → m_wake_notices m ≤ wb_Notices b.
Proof.
  intros Hwf Hb F Hm Hin. apply (in_batch_waits _ i) in Hin as [Hw Hr]; [|done]. rewrite (bs_session _ _ _ _ _ Hb) in Hw. destruct (waits_before _ _ _ _ _ F Hwf Hw) as [(m0 & Hw0 & _ & Hq & ->)|[_ Hnew]].
  - eapply bs_counts; [done|exact Hw0|lia].
  - exfalso. destruct (bs_last _ _ _ _ _ Hb) as (ml & ((j & Hj) & Hk & _) & El). destruct (wf_seqs _ Hwf _ _ Hj) as (_ & r & Hr' & Hle). rewrite Hk in Hr'. specialize (Hnew _ Hr'). lia.
Qed.
Lemma recordWake_few t b r attempts st st' a now session target s0 : calm (tn_other t) → inbox_wf s0 → batch_spec now session target s0 b → wb_Notices b < wakeNoticeLimit ∨ reachedAgent r = false →
  follows no_column s0 (tables st) → few_notices (tables st) → inbox_wf (tables st) → recordWake t b r attempts st = (a, st') →
  few_notices (tables st') ∧ inbox_wf (tables st') ∧ (reachedAgent r = false → follows no_column s0 (tables st')).
Proof.
  intros C Hwf0 Hb Hlim F Hf Hwf H. destruct (C st) as [F1 _]. pose proof (few_follows _ _ _ F1 Hf) as Hf1. pose proof (fo_wf _ _ _ F1 Hwf) as Hwf1. assert (follows no_column s0 (tables (tn_other t st))) as F2 by (etrans; [exact F|by eapply follows_weaken]).
  unfold recordWake in H. set (st1 := tn_other t st) in *. destruct a as [u|e]; [|apply write_Err in H as [-> _]; done]. apply write_Ok in H as (s & Hs & Et & _).
  assert (inbox_view (tables st') = inbox_view s) as Ev by (rewrite Et; unfold writeAudit; cbn; by destruct (pending s)). change (w_audit control_write) with (None : option PendingAudit) in Hs. set (s1 := (tables st1) <| pending := None |>) in *.
  assert (follows no_column s0 s1) as F3 by (etrans; [exact F2|by apply follows_view]).
  assert (inbox_wf s1) as Hwf2 by by apply (inbox_wf_view (tables st1)).
  assert (inbox_wf s) as Hwf3 by by eapply recordWakeTx_wf. split_and!.
  - injection Ev as _ Em _. intros i m'. rewrite Em. unfold recordWakeTx in Hs. run Hs. cbn. rewrite lookup_update_where. intros (m & Hm & ->)%fmap_Some. destruct (_ && _) eqn:Ein; [|by eapply Hf1].
    apply andb_true_iff in Ein as [Ein _]. pose proof (in_batch_before _ _ _ _ _ _ i m Hwf0 Hb F3 Hm Ein). cbn. pose proof (Hf1 _ _ Hm). destruct Hlim as [Hlim| ->]; [destruct (reachedAgent r); lia|lia].
  - by apply (inbox_wf_view s).
  - intros Hr. etrans; [exact F3|]. etrans; [by eapply recordWakeTx_follows|by apply follows_view].
Qed.
Lemma start_not_reached : reachedAgent (mkWakeResult Uncertain attempt_in_progress) = false.
Proof. done. Qed.
Lemma submit_batch_few t send b offer st r st' now session target s0 : calm_submit t → inbox_wf s0 → batch_spec now session target s0 b → wb_Notices b < wakeNoticeLimit →
  follows no_column s0 (tables st) → few_notices (tables st) → inbox_wf (tables st) → submit_batch t send b offer st = (r, st') → few_notices (tables st') ∧ inbox_wf (tables st').
Proof.
  intros [_ _ _ _ C1 C2 C3] Hwf0 Hb Hlim F Hf Hwf H. unfold submit_batch in H. destruct (recordWake (su_start t) _ _ _ st) as [a st1] eqn:E1.
  destruct (recordWake_few _ _ _ _ _ _ _ now session target s0 C1 Hwf0 Hb (or_intror start_not_reached) F Hf Hwf E1) as (Hf1 & Hwf1 & F1). specialize (F1 start_not_reached).
  destruct a as [u|e]; [|by injection H as _ <-]. destruct (C2 st1) as [F2 _]. destruct (recordWake (su_end t) _ _ _ _) as [a st3] eqn:E2.
  assert (follows no_column s0 (tables (su_texts t st1))) as F3 by (etrans; [exact F1|by eapply follows_weaken]).
  destruct (recordWake_few _ _ _ _ _ _ _ now session target s0 C3 Hwf0 Hb (or_introl Hlim) F3 (few_follows _ _ _ F2 Hf1) (fo_wf _ _ _ F2 Hwf1) E2) as (Hf3 & Hwf3 & _).
  by destruct a; injection H as _ <-.
Qed.
Lemma pendingWake_calm t k st r st' : calm_look t → pendingWake t k st = (r, st') → follows due_columns (tables st) (tables st').
Proof. intros [C1 C2] [-> | ->]%pendingWake_state; [by apply C1|etrans; [by apply C1|by apply C2]]. Qed.
Lemma submitWake_few t send k offer st r st' : calm_submit t → lk_due (su_again t) = tn_now (su_fail t) → few_notices (tables st) → inbox_wf (tables st) →
  submitWake t send k offer st = (r, st') → few_notices (tables st') ∧ inbox_wf (tables st').
Proof.
  intros C Hclock Hf Hwf H. unfold submitWake in H. destruct (pendingWake (su_look t) k st) as [o st1] eqn:E1.
  pose proof (pendingWake_calm _ _ _ _ _ (cs_look _ C) E1) as F1. pose proof (few_follows _ _ _ F1 Hf) as Hf1. pose proof (fo_wf _ _ _ F1 Hwf) as Hwf1.
  destruct o as [[b|]|e]; [|by injection H as _ <-..]. destruct (negb _); [by injection H as _ <-|]. destruct (cs_pane _ C st1) as [F2 _]. set (st2 := su_pane t st1) in *.
  pose proof (few_follows _ _ _ F2 Hf1) as Hf2. pose proof (fo_wf _ _ _ F2 Hwf1) as Hwf2. destruct (paneHeldByCycle _ _); [by injection H as _ <-|].
  destruct (pendingWake_looked _ _ _ _ _ (cs_look _ C) Hwf E1) as (_ & _ & _ & Hb). destruct (Z.leb_spec wakeNoticeLimit (wb_Notices b)) as [Hge|Hlt].
  2:{ eapply (submit_batch_few t send b offer st2); [done|exact Hwf1|exact Hb|exact Hlt|by eapply follows_weaken|done|done|exact H]. }
  destruct (failUnhandled_after (su_fail t) k st2 (cs_fail _ C) Hwf2) as (F3 & _ & Hdone). destruct (failUnhandled (su_fail t) k st2) as [o st3] eqn:E3. cbn [fst snd] in *.
  pose proof (few_follows _ _ _ F3 Hf2) as Hf3. pose proof (fo_wf _ _ _ F3 Hwf2) as Hwf3. destruct o as [[]|e]; [|by injection H as _ <-]. specialize (Hdone eq_refl).
  destruct (pendingWake (su_again t) k st3) as [o st4] eqn:E4. pose proof (pendingWake_calm _ _ _ _ _ (cs_again _ C) E4) as F4. pose proof (few_follows _ _ _ F4 Hf3) as Hf4. pose proof (fo_wf _ _ _ F4 Hwf3) as Hwf4.
  destruct o as [[b2|]|e]; [|by injection H as _ <-..]. destruct (pendingWake_looked _ _ _ _ _ (cs_again _ C) Hwf3 E4) as (_ & _ & [Hk _] & Hb2).
  eapply (submit_batch_few t send b2 offer st4); [done|exact Hwf4|exact Hb2| |done|done|done|exact H]. destruct (bs_notices _ _ _ _ _ Hb2) as (m & Hw & Hd & <-). rewrite Hk in Hw.
  destruct (waits_before _ _ _ _ _ F4 Hwf3 Hw) as [(m0 & Hw0 & Ec & _ & ->)|[-> _]]; [|done]. apply Hdone; [done|]. rewrite <-Hclock. unfold dueWake, wakeable in *. injection Ec as <- <-. done.
Qed.

(** The schedules of the wakes and of everything else; a submission that first fails messages reads
    the clock again within the same millisecond. *)
Inductive wake_step : Store → Store → Prop :=
| ws_other st st' : inbox_wf (tables st') → (∀ i m', messages (tables st') !! i = Some m' → m_wake_notices m' = 0 ∨ ∃ m, messages (tables st) !! i = Some m ∧ m_wake_notices m' = m_wake_notices m) → wake_step st st'
| ws_fail t k st r st' : calm (tn_other t) → failUnhandled t k st = (r, st') → wake_step st st'
| ws_turn t k code at_ st r st' : calm (tn_other t) → recordTurnFailure t k code at_ st = (r, st') → wake_step st st'
| ws_submit t send k offer st r st' : calm_submit t → lk_due (su_again t) = tn_now (su_fail t) → submitWake t send k offer st = (r, st') → wake_step st st'.
(** C13: however sends, reads, deletions and the other transactions run between the transactions
    of the wakes, and whatever the adapters answer, no message ever has more than four notices,
    and the inboxes stay well formed, provided that a submission that first fails messages and then
    reads its inbox again reads the same millisecond from the clock both times: with a later one a
    message can get a fifth notice ([fifth_notice]). *)
Theorem notices_bounded st st' : rtc wake_step st st' → inbox_wf (tables st) → few_notices (tables st) → inbox_wf (tables st') ∧ few_notices (tables st').
Proof.
  induction 1 as [|st st1 st' Hs _ IH]; [done|]. intros Hwf Hf. assert (inbox_wf (tables st1) ∧ few_notices (tables st1)) as [Hwf1 Hf1]; [|by apply IH].
  destruct Hs as [st st1 Hwf1 Hm|t k st r st1 C H|t k code at_ st r st1 C H|t send k offer st r st1 C Hclock H].
  - split; [done|]. intros i m' Hm'. destruct (Hm _ _ Hm') as [->|(m & Hi & ->)]; [done|by eapply Hf].
  - destruct (failUnhandled_after t k st C Hwf) as (F & _). rewrite H in F. split; [by apply (fo_wf _ _ _ F)|by eapply few_follows].
  - destruct (C st) as [F _]. pose proof (few_follows _ _ _ F Hf) as Hf1. pose proof (fo_wf _ _ _ F Hwf) as Hwf1. unfold recordTurnFailure in H. destruct r as [u|e]; [|by apply write_Err in H as [-> _]].
    apply write_Ok in H as (s & Hs & Et & _). assert (inbox_view (tables st1) = inbox_view s) as Ev by (rewrite Et; unfold writeAudit; cbn; by destruct (pending s)).
    split; [apply (inbox_wf_view s); [done|]; eapply recordTurnFailureTx_wf; [|exact Hs]; by apply (inbox_wf_view (tables (tn_other t st)))|].
    injection Ev as _ Em _. unfold recordTurnFailureTx in Hs. run Hs. intros i m'. rewrite Em. cbn. rewrite lookup_update_where. intros (m & Hm & ->)%fmap_Some. pose proof (Hf1 _ _ Hm). by destruct (turn_failed _ _ _ _ _).
  - by eapply and_comm, submitWake_few.
Qed.

(** *** What a notice names *)

(** The states of a submission: after the first look, when the pane is read, and after the second
    look, which comes when messages had to fail *)
Definition first_read (t : SubmitTurn) (k : Key) (st : Store) : Store := (pendingWake (su_look t) k st).2.
Definition pane_read (t : SubmitTurn) (k : Key) (st : Store) : Store := su_pane t (first_read t k st).
Definition failed_read (t : SubmitTurn) (k : Key) (st : Store) : Store := (failUnhandled (su_fail t) k (pane_read t k st)).2.
Definition second_read (t : SubmitTurn) (k : Key) (st : Store) : Store := (pendingWake (su_again t) k (failed_read t k st)).2.
(** The batch of a submission with the time and the state in which it was read, and the state in
    which its record begins *)
Inductive read_batch (t : SubmitTurn) (k : Key) (st : Store) : Z → Store → Store → wakeBatch → Prop :=
| rb_first b : (pendingWake (su_look t) k st).1 = Ok (Some b) → wb_Notices b < wakeNoticeLimit →
    read_batch t k st (lk_due (su_look t)) (first_read t k st) (pane_read t k st) b
| rb_second b0 b : (pendingWake (su_look t) k st).1 = Ok (Some b0) → wakeNoticeLimit ≤ wb_Notices b0 → (pendingWake (su_again t) k (failed_read t k st)).1 = Ok (Some b) →
    read_batch t k st (lk_due (su_again t)) (second_read t k st) (second_read t k st) b.
(** A cycle in one of the states between its ready report and its pickup owns the terminal of a
    session: its host process and pane, or without a recorded host the session itself. *)
Definition owns_pane (k : Key) (r : SessionRow) (c : cycleRow) : Prop := c_State c ∈ pane_states ∧
  ((0 < c_HostStart c ∧ c_HostPID c = s_host_pid r ∧ c_HostStart c = s_host_start r ∧ c_Socket c = s_tmux_socket r ∧ c_Pane c = s_tmux_pane r) ∨
   (c_HostStart c = 0 ∧ c_Family c = Family k ∧ c_SessionID c = ID k)).
Lemma pane_free k s : paneHeldByCycle k s = false → ∀ r id c, sessions s !! k = Some r → cycles s !! id = Some c → ¬ owns_pane k r c.
Proof.
  unfold paneHeldByCycle. intros H r id c Hr Hc [Hst Ho]. rewrite Hr in H. assert (exists_where (λ _ c, holds_pane k r c) (cycles s) = true); [|congruence].
  apply exists_where_true. exists id, c. split; [done|]. unfold holds_pane. rewrite (bool_decide_eq_true_2 _ Hst). cbn. apply orb_true_iff.
  destruct Ho as [(H1 & H2 & H3 & H4 & H5)|(H1 & H2 & H3)]; [left|right]; rewrite !andb_true_iff, !seqb_true, ?Z.eqb_eq, ?Z.ltb_lt; done.
Qed.

(** C14: a submission that gives a notice took its batch from what it had read under the lock, in
    its first look, or in the second one after messages failed: there the session of the inbox, or
    the holder of the participant, was active; it offers the notice to an Antigravity session and
    submits it to the others; when it read the pane no context cycle owned the terminal of the
    target; and the range of the notice begins after everything that was handled in the state read
    and holds, of the messages there that wait for their reader, only due ones. *)
Theorem notice_guarded t send k offer st notice st' : calm_submit t → inbox_wf (tables st) → submitWake t send k offer st = (Ok notice, st') → notice ≠ ""%string →
  ∃ now read start b, read_batch t k st now read start b ∧
    reaches k (tables read) (wb_Session b) (wb_Target b) ∧ seqb (Family k) "agy" = offer ∧
    (∀ r id c, sessions (tables (pane_read t k st)) !! ss_Key (wb_Target b) = Some r → cycles (tables (pane_read t k st)) !! id = Some c → ¬ owns_pane (ss_Key (wb_Target b)) r c) ∧
    batch_spec now (wb_Session b) (wb_Target b) (tables read) b ∧ wb_First b ≤ wb_Last b ∧ (∀ r, sessions (tables read) !! k = Some r → handled r < wb_First b) ∧
    notice = notice_of b (tables (su_texts t (recordWake (su_start t) b (mkWakeResult Uncertain attempt_in_progress) (next_attempt b) start).2)).
Proof.
  intros C Hwf H Hne. unfold submitWake in H. destruct (pendingWake (su_look t) k st) as [o st1] eqn:E1. pose proof (pendingWake_calm _ _ _ _ _ (cs_look _ C) E1) as F1. pose proof (fo_wf _ _ _ F1 Hwf) as Hwf1.
  destruct o as [[b|]|e]; [|by injection H as <- _|done]. destruct (pendingWake_looked _ _ _ _ _ (cs_look _ C) Hwf E1) as (_ & Hn1 & Hr & Hb).
  assert (first_read t k st = st1) as Er1 by (unfold first_read; by rewrite E1). assert (pane_read t k st = su_pane t st1) as Er2 by (unfold pane_read; by rewrite Er1).
  destruct (negb _) eqn:Eo; [by injection H as <- _|]. destruct (cs_pane _ C st1) as [F2 Hn2]. rewrite <-Er2 in *. set (st2 := pane_read t k st) in *. pose proof (fo_wf _ _ _ F2 Hwf1) as Hwf2.
  destruct (paneHeldByCycle _ _) eqn:Ep; [by injection H as <- _|]. assert (seqb (Family k) "agy" = offer) as Ho.
  { apply negb_false_iff, eqb_prop in Eo. rewrite <-Eo. f_equal. destruct Hr as (Hk & _ & _ & Ht). destruct (isParticipantID (ID k)); [|by rewrite Ht, Hk]. destruct Ht as (_ & _ & n & _ & ->). done. }
  assert (∀ b now read start, read_batch t k st now read start b → reaches k (tables read) (wb_Session b) (wb_Target b) → batch_spec now (wb_Session b) (wb_Target b) (tables read) b →
    paneHeldByCycle (ss_Key (wb_Target b)) (tables st2) = false → submit_batch t send b offer start = (Ok notice, st') → ∃ now read start b, read_batch t k st now read start b ∧
    reaches k (tables read) (wb_Session b) (wb_Target b) ∧ seqb (Family k) "agy" = offer ∧
    (∀ r id c, sessions (tables st2) !! ss_Key (wb_Target b) = Some r → cycles (tables st2) !! id = Some c → ¬ owns_pane (ss_Key (wb_Target b)) r c) ∧
    batch_spec now (wb_Session b) (wb_Target b) (tables read) b ∧ wb_First b ≤ wb_Last b ∧ (∀ r, sessions (tables read) !! k = Some r → handled r < wb_First b) ∧
    notice = notice_of b (tables (su_texts t (recordWake (su_start t) b (mkWakeResult Uncertain attempt_in_progress) (next_attempt b) start).2))) as Hdone.
  { intros b' now read start Hrb Hr' Hb' Hp Hs. exists now, read, start, b'. split_and!; try done; [by apply pane_free|by eapply bs_order| |].
    - intros r Hrow. destruct (bs_first _ _ _ _ _ Hb') as (m & (_ & Hm & Hu) & <-). destruct Hr' as [Hk _]. unfold awaits_reader in Hu. rewrite Hm, Hk, Hrow in Hu. lia.
    - unfold submit_batch in Hs. destruct (recordWake _ _ _ _ start) as [[u|e] st3]; [|done]. destruct (recordWake _ _ _ _ _) as [[u2|e] st5]; [|done]. by injection Hs as <- <-. }
  destruct (Z.leb_spec wakeNoticeLimit (wb_Notices b)) as [Hlim|Hlim].
  2:{ eapply Hdone; [apply rb_first; [by rewrite E1|done]|by rewrite Er1|by rewrite Er1|done|exact H]. }
  destruct (failUnhandled_after (su_fail t) k st2 (cs_fail _ C) Hwf2) as (F3 & Hn3 & _). assert (failed_read t k st = (failUnhandled (su_fail t) k st2).2) as Er3 by done.
  destruct (failUnhandled (su_fail t) k st2) as [[u|e] st3]; [|done]. cbn [fst snd] in *. pose proof (fo_wf _ _ _ F3 Hwf2) as Hwf3.
  destruct (pendingWake (su_again t) k st3) as [[[b2|]|e] st4] eqn:E4; [|by injection H as <- _|done]. destruct (pendingWake_looked _ _ _ _ _ (cs_again _ C) Hwf3 E4) as (_ & Hn4 & Hr2 & Hb2).
  assert (second_read t k st = st4) as Er4 by (unfold second_read; by rewrite Er3, E4).
  eapply (Hdone b2); [eapply (rb_second _ _ _ b); [by rewrite E1|done|by rewrite Er3, E4]|by rewrite Er4|by rewrite Er4| |by rewrite Er4].
  replace (ss_Key (wb_Target b2)) with (ss_Key (wb_Target b)); [done|].
  clear -Hr Hr2 Hn1 Hn2 Hn3 Hn4. destruct Hr as (Hk & _ & _ & Ht), Hr2 as (Hk2 & _ & _ & Ht2). destruct (isParticipantID (ID k)); [|congruence].
  destruct Ht as (_ & _ & n & Hn & ->), Ht2 as (_ & _ & n2 & Hn' & ->). congruence.
Qed.

(** ** Failed messages *)

(** C22: an inbox whose messages had their notices: exactly the messages that are due, not
    handled and had four notices fail, with the reason of the last notice; one notice to the
    maintainer names exactly these, in order, and their reasons; nothing else changes; when there
    is none nothing is written, so the same pass again writes nothing. *)
Theorem failed_once now name k s r : inbox_wf s → sessions s !! maintainerKey = Some r →
  match failUnhandledTx now name k s with
  | Err e => e = Declined ∧ ∀ i m, messages s !! i = Some m → exhausted now k s i m = false
  | Ok (_, s') =>
      (∃ i m, messages s !! i = Some m ∧ exhausted now k s i m = true) ∧
      (∀ i m, messages s !! i = Some m → messages s' !! i = Some (if exhausted now k s i m then fail_row now m else m)) ∧
      (∃ ids reasons, messages s' !! (messages_issued s + 1) = Some (new_message maintainerKey (s_last_seq r + 1) koinon_key "koinon"
           (failed_body ids reasons (if isParticipantID (ID k) then trim_prefix (ID k) participantPrefix else name)) now) ∧
         StronglySorted Z.le ids ∧ NoDup ids ∧ (∀ i, i ∈ ids ↔ ∃ m, messages s !! i = Some m ∧ exhausted now k s i m = true) ∧
         NoDup reasons ∧ ∀ x, x ∈ reasons ↔ ∃ i m, messages s !! i = Some m ∧ exhausted now k s i m = true ∧ x = m_delivery_reason (fail_row now m)) ∧
      (∀ i, i ≠ messages_issued s + 1 → messages s !! i = None → messages s' !! i = None) ∧
      sessions s' = <[maintainerKey := r <| s_last_seq := s_last_seq r + 1 |> ]> (sessions s) ∧
      failUnhandledTx now name k s' = Err Declined
  end.
Proof.
  intros Hwf Hr. set (rows := select (exhausted now k s) (messages s)). assert (∀ i m, (i, m) ∈ rows ↔ messages s !! i = Some m ∧ exhausted now k s i m = true) as Hrows by (intros; apply elem_of_select).
  destruct (decide (rows = [])) as [E|Hne].
  - rewrite (proj2 (failUnhandledTx_declined now name k s) E). split; [done|]. intros i m Hi. destruct (exhausted now k s i m) eqn:Ex; [|done]. pose proof (proj2 (Hrows i m) (conj Hi Ex)) as Hin. rewrite E in Hin. by apply elem_of_nil in Hin.
  - destruct (failUnhandledTx_total now name k s r Hwf Hr Hne) as [s' Es]. rewrite Es. pose proof (failUnhandledTx_done _ _ _ _ _ _ Es) as Hd. apply failUnhandledTx_Ok in Es as (_ & r' & Hr' & Em & _ & Ess). fold rows in Em. assert (r' = r) as -> by congruence.
    assert (messages s !! (messages_issued s + 1) = None) as Hfresh by (destruct (messages s !! _) eqn:E; [apply (wf_ids _ Hwf) in E; lia|done]). split_and!.
    + destruct rows as [|[i m] l]; [done|]. exists i, m. apply Hrows. left.
    + intros i m Hi. rewrite Em, lookup_insert_ne by congruence. by rewrite lookup_update_where, Hi.
    + eexists _, _. rewrite Em, lookup_insert_eq. split_and!; [done|apply order_by_sorted| | | |].
      * unfold order_by. rewrite merge_sort_Permutation. apply NoDup_fmap_fst; [|apply NoDup_select]. intros i m1 m2 [H1 _]%Hrows [H2 _]%Hrows. congruence.
      * intros i. rewrite elem_of_order_by, list_elem_of_fmap. split; [intros ([j m] & -> & [??]%Hrows); eauto|]. intros (m & H). exists (i, m). by rewrite Hrows.
      * unfold order_by_name. rewrite merge_sort_Permutation. apply NoDup_remove_dups.
      * intros x. rewrite elem_of_order_by_name, elem_of_remove_dups, list_elem_of_fmap. split; [intros ([i m] & -> & [??]%Hrows); eauto 10|]. intros (i & m & Hi & Hx & ->). exists (i, m). by rewrite Hrows.
    + intros i Hi Hn. by rewrite Em, lookup_insert_ne, lookup_update_where, Hn by congruence.
    + done.
    + apply failUnhandledTx_declined. destruct (select _ (messages s')) as [|[i m] l] eqn:E; [done|]. assert ((i, m) ∈ select (exhausted now k s') (messages s')) as [Hi Hx]%elem_of_select by (rewrite E; left).
      unfold exhausted in Hx. rewrite !andb_true_iff in Hx. destruct Hx as [[[Hk%keqb_true Hu] Hdue] Hn]. specialize (Hd m ltac:(split; [by exists i|done]) Hdue). lia.
Qed.

(** ** The record of a submission *)

Lemma readWait_bounds n : 1 ≤ n → wakeReadWait ≤ readWait n ≤ wakeReadWaitMax.
Proof.
  intros _. unfold readWait. assert (∀ turns w, wakeReadWait ≤ w → wakeReadWait ≤ double_wait turns w) as H.
  { induction turns as [|turns IH]; cbn; intros w Hw; [done|]. case_match; [apply IH; unfold wakeReadWait, minute in *; lia|done]. }
  specialize (H (Z.to_nat (n - 1)) wakeReadWait ltac:(lia)). unfold wakeReadWait, wakeReadWaitMax, minute in *. lia.
Qed.
(** The cases of the statement are [readWait] of the next notice. *)
Lemma readWait_next n : 0 ≤ n → (if n =? 0 then readWait 1 else if n =? 1 then readWait 2 else if n =? 2 then readWait 3 else readWait 4) = readWait (n + 1).
Proof.
  intros Hn. destruct (Z.eqb_spec n 0) as [->|H0]; [done|]. destruct (Z.eqb_spec n 1) as [->|H1]; [done|]. destruct (Z.eqb_spec n 2) as [->|H2]; [done|]. unfold readWait. f_equal.
  replace (Z.to_nat (n + 1 - 1)) with (S (S (S (Z.to_nat (n - 3))))) by lia. destruct (Z.to_nat (n - 3)); reflexivity.
Qed.
Lemma wakeBackoff_bounds a : 1000 ≤ wakeBackoff a ≤ wakeBackoffMax.
Proof.
  unfold wakeBackoff. set (x := if a <? 1 then 1 else a). assert (1 ≤ x) as Hx by (unfold x; case_match; lia). destruct (Z.ltb_spec 9 x); [by vm_compute|].
  assert (x = 1 ∨ x = 2 ∨ x = 3 ∨ x = 4 ∨ x = 5 ∨ x = 6 ∨ x = 7 ∨ x = 8 ∨ x = 9) as Hc by lia. repeat destruct Hc as [->|Hc]; try (rewrite Hc); by vm_compute.
Qed.

(** A record that is accepted *)
Lemma recordWake_Ok t b r attempts st u st' : tn_other t = (λ st, st) → recordWake t b r attempts st = (Ok u, st') →
  let delay := if busy r then wakeBusyPoll else wakeBackoff attempts in
  let attempts := if busy r then wb_Attempts b else attempts in
  sessions (tables st') = sessions (tables st) ∧
  ∀ i, messages (tables st') !! i = (λ m, if in_batch b m (tables st) && marked_by (seqb (wr_Reason r) attempt_in_progress) (tn_later t) m
                                          then record_row (tn_now t) delay attempts r m else m) <$> messages (tables st) !! i.
Proof.
  intros Ho H. unfold recordWake in H. rewrite Ho in H. apply write_Ok in H as (s & Hs & Et & _). unfold recordWakeTx in Hs. run Hs. rewrite Et. unfold writeAudit. cbn. split; [done|].
  intros i. apply lookup_update_where.
Qed.
Definition marked_at (due : Z) (m : MessageRow) : bool := dueWake due m || marked_by false 0 m.
Definition reason_after (reached : bool) (m : MessageRow) : string :=
  if reached then "" else if (0 <? m_wake_notices m) && seqb (m_delivery_reason m) "" then "not_read" else m_delivery_reason m.

(** C23: what a submission leaves, when nothing else runs between its transactions: each message
    of its batch that was due when it began, or that a killed attempt had left marked, carries
    the answer of the adapter, the count of the attempt, one notice more exactly when the notice
    may have reached the agent, and the time of the next wake, which comes, within sixteen
    minutes; every other message is as before. *)
Theorem attempt_recorded t (send : Adapter) b (offer : bool) st notice st' (now := tn_now (su_end t))
    (answer := if offer then stop_offered else adapter_result (match send with Some f => f (wb_Target b) notice | None => ("waiting", "adapter_unavailable")%string end)) :
  tn_other (su_start t) = (λ st, st) → su_texts t = (λ st, st) → tn_other (su_end t) = (λ st, st) →
  (∀ i m, messages (tables st) !! i = Some m → 0 ≤ m_wake_notices m) → wr_Reason answer ≠ attempt_in_progress →
  submit_batch t send b offer st = (Ok notice, st') →
  sessions (tables st') = sessions (tables st) ∧ ∀ i m, messages (tables st) !! i = Some m → ∃ m', messages (tables st') !! i = Some m' ∧
    if in_batch b m (tables st) && marked_at (tn_later (su_start t)) m then
      m_delivery_state m' = wr_State answer ∧ m_wake_reason m' = wr_Reason answer ∧ m_delivery_updated_at m' = now ∧
      m_delivery_reason m' = reason_after (reachedAgent answer) m ∧
      m_wake_attempts m' = (if busy answer then wb_Attempts b else next_attempt b) ∧
      m_wake_notices m' = m_wake_notices m + (if reachedAgent answer then 1 else 0) ∧
      m_wake_next_at m' = now + (if reachedAgent answer then readWait (m_wake_notices m + 1) else if busy answer then wakeBusyPoll else wakeBackoff (next_attempt b)) ∧
      now < m_wake_next_at m' ≤ now + wakeReadWaitMax ∧
      m_recipient m' = m_recipient m ∧ m_seq m' = m_seq m ∧ m_body m' = m_body m ∧ m_sender m' = m_sender m
    else m' = m.
Proof.
  intros O1 O2 O3 Hn Hans H. unfold submit_batch in H. destruct (recordWake (su_start t) _ _ _ st) as [[u|e] st1] eqn:E1; [|done]. rewrite O2 in H.
  destruct (recordWake (su_end t) _ _ _ st1) as [[u2|e] st3] eqn:E2; [|done]. injection H as Hnotice <-. rewrite Hnotice in E2. fold answer in E2.
  apply recordWake_Ok in E1 as [Es1 Em1]; [|done].
  change (∀ i, messages (tables st1) !! i = (λ m, if in_batch b m (tables st) && dueWake (tn_later (su_start t)) m
    then record_row (tn_now (su_start t)) (wakeBackoff (next_attempt b)) (next_attempt b) (mkWakeResult Uncertain attempt_in_progress) m else m) <$> messages (tables st) !! i) in Em1. apply recordWake_Ok in E2 as [Es2 Em2]; [|done]. split; [congruence|]. intros i m Hi. specialize (Hn _ _ Hi). rewrite Em2, Em1, Hi. cbn [fmap option_fmap option_map]. eexists. split; [done|].
  rewrite (proj2 (seqb_false _ _) Hans). unfold marked_at. cbn [marked_by].
  assert (∀ x, m_recipient x = m_recipient m → m_seq x = m_seq m → in_batch b x (tables st1) = in_batch b m (tables st)) as Hin by (intros x E1 E2; unfold in_batch; by rewrite E1, E2, Es1).
  match goal with |- context [in_batch b ?x (tables st1)] => set (m1 := x) end. assert (in_batch b m1 (tables st1) = in_batch b m (tables st)) as -> by (apply Hin; unfold m1; by destruct (in_batch b m (tables st) && dueWake (tn_later (su_start t)) m)).
  destruct (in_batch b m (tables st)) eqn:Eb; [|by unfold m1; cbn]. cbn [andb] in *.
  assert ((bool_decide (m_delivery_state m1 = Uncertain) && seqb (m_wake_reason m1) attempt_in_progress) = dueWake (tn_later (su_start t)) m || (bool_decide (m_delivery_state m = Uncertain) && seqb (m_wake_reason m) attempt_in_progress)) as ->.
  { unfold m1. destruct (dueWake _ m); [|done]. cbn. by rewrite !bool_decide_eq_true_2. }
  destruct (_ || _) eqn:Em; [|unfold m1; apply orb_false_iff in Em as [-> _]; done].
  assert (m_wake_notices m1 = m_wake_notices m ∧ m_recipient m1 = m_recipient m ∧ m_seq m1 = m_seq m ∧ m_body m1 = m_body m ∧ m_sender m1 = m_sender m ∧
    reason_after false m1 = reason_after false m) as (F1 & F3 & F4 & F5 & F6 & F7).
  { unfold m1. destruct (dueWake _ m); [|done]. unfold record_row. change (reachedAgent (mkWakeResult Uncertain attempt_in_progress)) with false. unfold reason_after. cbn. split_and!; try done; [lia|].
    replace (m_wake_notices m + 0) with (m_wake_notices m) by lia. destruct (0 <? m_wake_notices m); [|done]. cbn. by destruct (seqb (m_delivery_reason m) "") eqn:E; cbn; rewrite ?E. }
  pose proof (readWait_bounds (m_wake_notices m + 1) ltac:(lia)). pose proof (wakeBackoff_bounds (next_attempt b)). pose proof (readWait_next (m_wake_notices m) Hn) as Hnext.
  clearbody m1. unfold record_row. cbn [m_delivery_state m_wake_reason m_delivery_updated_at m_delivery_reason m_wake_attempts m_wake_notices m_wake_next_at m_recipient m_seq m_body m_sender]. cbn.
  change (if (0 <? m_wake_notices m1) && seqb (m_delivery_reason m1) "" then "not_read"%string else m_delivery_reason m1) with (reason_after false m1). rewrite F1, F3, F4, F5, F6, F7.
  assert (∀ z, (if reachedAgent answer then readWait (m_wake_notices m + 1) else z) = (if negb (reachedAgent answer) then z else readWait (m_wake_notices m + 1))) as Hz by (intros; by destruct (reachedAgent answer)).
  rewrite Hz, <-Hnext. unfold wakeReadWait, wakeReadWaitMax, wakeBackoffMax, wakeBusyPoll, minute in *. unfold reason_after at 1.
  split_and!; try done; destruct (reachedAgent answer); cbn; repeat case_match; try done; lia.
Qed.

(** The marks of the retention *)
Lemma kept_failUnhandledTx s0 now name k : Maintains (marks_kept s0) (failUnhandledTx now name k).
Proof.
  intros s u s' Hs (_ & r & Hr & _ & _ & E)%failUnhandledTx_Ok. etrans; [exact Hs|]. eapply (kept_row maintainerKey r); [done| | | |exact E]; cbn; done.
Qed.
Lemma kept_recordWakeTx s0 now due b r attempts : Maintains (marks_kept s0) (recordWakeTx now due b r attempts).
Proof. apply kept_sessions. unfold recordWakeTx. keeps. Qed.
Lemma kept_recordTurnFailureTx s0 k code at_ now : Maintains (marks_kept s0) (recordTurnFailureTx k code at_ now).
Proof. apply kept_sessions. unfold recordTurnFailureTx. keeps. Qed.

(** ** On the small installation *)

Definition still (st : Store) : Store := st.
Definition turn_at (now : Z) : Turn := mkTurn still now now engine_ok.
Definition look_at (now : Z) : Look := mkLook still now now still now.
Definition submit_at (now : Z) : SubmitTurn := mkSubmitTurn (look_at now) still (turn_at now) (look_at now) (turn_at now) still (turn_at now).
Lemma calm_still : calm still.
Proof. intros st. split; [reflexivity|done]. Qed.
Lemma calm_submit_at now : calm_submit (submit_at now).
Proof. split; try apply calm_still; split; apply calm_still. Qed.
Definition accepting : Adapter := Some (λ _ _, ("notified", "accepted")%string).
Definition sent_store : Store := small_store <| tables := sent |>.
Definition submitted : result error string * Store := submitWake (submit_at 25) accepting peer_b false sent_store.
Definition few_b (s : State) : bool := forallb (λ im, m_wake_notices im.2 <=? wakeNoticeLimit) (map_to_list (messages s)).
Lemma few_of_b s : few_b s = true → few_notices s.
Proof. intros H i m Hm. apply Z.leb_le. exact (all_rows (λ _ m, m_wake_notices m <=? wakeNoticeLimit) _ H i m Hm). Qed.

Lemma notices_bounded_witness : few_notices (tables submitted.2) ∧ m_wake_notices <$> messages (tables submitted.2) !! 1 = Some 1.
Proof.
  split; [|vm_compute; reflexivity]. refine (proj2 (notices_bounded sent_store submitted.2 (rtc_once _ _ _) sent_wf (few_of_b _ _))); [|vm_compute; reflexivity].
  exact (ws_submit (submit_at 25) accepting peer_b false sent_store submitted.1 submitted.2 (calm_submit_at 25) eq_refl (surjective_pairing _)).
Defined.
Lemma notice_guarded_witness : ∃ notice b, submitted.1 = Ok notice ∧ read_batch (submit_at 25) peer_b sent_store 25 (first_read (submit_at 25) peer_b sent_store) (pane_read (submit_at 25) peer_b sent_store) b ∧
  wb_First b ≤ wb_Last b ∧ ss_State (wb_Target b) = Active.
Proof.
  destruct (answers submitted (λ n, negb (seqb n ""))) as (notice & E & Hn%negb_true_iff%seqb_false); [vm_compute; reflexivity|].
  destruct (notice_guarded (submit_at 25) accepting peer_b false sent_store notice submitted.2 (calm_submit_at 25) sent_wf E Hn) as (now & read & start & b & Hb & (_ & _ & Hr & _) & _ & _ & _ & H1 & _).
  exists notice, b. split; [exact (f_equal fst E)|]. split; [|split; [exact H1|exact Hr]].
  destruct Hb as [b Hf Hlt|b0 b Hf Hle _]; [exact (rb_first _ _ _ _ Hf Hlt)|exfalso]. revert Hf Hle.
  assert (match (pendingWake (su_look (submit_at 25)) peer_b sent_store).1 with Ok (Some b) => wb_Notices b <? wakeNoticeLimit | _ => true end = true) as Hc by (vm_compute; reflexivity).
  revert Hc. generalize (pendingWake (su_look (submit_at 25)) peer_b sent_store).1. intros o Hc -> Hle. apply Z.ltb_lt in Hc. lia.
Defined.

(** The message had its notices and was not read. *)
Definition tired_row (next : Z) (m : MessageRow) : MessageRow := m <| m_delivery_state := Notified |> <| m_wake_notices := 4 |> <| m_wake_next_at := next |>.
Definition tired : State := sent <| messages := tired_row 25 <$> messages sent |>.
Lemma tired_wf : inbox_wf tired.
Proof. eapply (inbox_wf_messages sent tired (λ _, tired_row 25)); [exact sent_wf|done|done| |done]. intros i. apply lookup_fmap. Qed.
Definition failed_state : State := after (failUnhandledTx 30 "codex-x-0b" peer_b) tired.
Lemma failed_once_witness : ∃ m, messages failed_state !! 1 = Some m ∧ m_delivery_state m = Failed.
Proof.
  assert (∃ r, sessions tired !! maintainerKey = Some r) as [r Hr] by (eexists; vm_compute; reflexivity). assert (∃ m, messages tired !! 1 = Some m ∧ exhausted 30 peer_b tired 1 m = true) as (m & Hm & Hx).
  { eexists. split; [vm_compute; reflexivity|vm_compute; reflexivity]. }
  destruct (run_after (failUnhandledTx 30 "codex-x-0b" peer_b) tired) as [u E]; [by vm_compute|]. pose proof (failed_once 30 "codex-x-0b" peer_b tired r tired_wf Hr) as H.
  assert (∀ i m, messages tired !! i = Some m → messages failed_state !! i = Some (if exhausted 30 peer_b tired i m then fail_row 30 m else m)) as Hrows.
  { revert H E. unfold failed_state. generalize (after (failUnhandledTx 30 "codex-x-0b" peer_b) tired) (failUnhandledTx 30 "codex-x-0b" peer_b tired). intros s' x H ->. exact (proj1 (proj2 H)). }
  exists (fail_row 30 m). split; [|reflexivity]. refine (eq_trans (Hrows 1 m Hm) _). revert Hx. generalize (exhausted 30 peer_b tired 1 m). intros b ->. reflexivity.
Defined.

(** One batch over every message of the installation *)
Definition takes_all (b : wakeBatch) : bool :=
  forallb (λ im, in_batch b im.2 sent && marked_at 25 im.2 && (m_wake_notices im.2 =? 0)) (map_to_list (messages sent)) &&
  match submit_batch (submit_at 25) accepting b false sent_store with (Ok _, _) => true | _ => false end.
Lemma attempt_recorded_witness : ∃ b m m', (pendingWake (look_at 25) peer_b sent_store).1 = Ok (Some b) ∧ messages sent !! 1 = Some m ∧
  messages (tables (submit_batch (submit_at 25) accepting b false sent_store).2) !! 1 = Some m' ∧ m_delivery_state m' = Notified ∧ m_wake_notices m' = 1 ∧ m_wake_next_at m' = 25 + readWait 1.
Proof.
  destruct (answers (pendingWake (look_at 25) peer_b sent_store) (λ o, match o with Some b => takes_all b | None => false end)) as ([b|] & E & HP); [vm_compute; reflexivity| |done].
  apply andb_true_iff in HP as [Hall Hs]. assert (∃ m, messages sent !! 1 = Some m) as [m Hm] by (eexists; vm_compute; reflexivity).
  pose proof (all_rows (λ _ m, in_batch b m sent && marked_at 25 m && (m_wake_notices m =? 0)) _ Hall 1 m Hm) as Hin. apply andb_true_iff in Hin as [Hin Hz%Z.eqb_eq].
  destruct (answers (submit_batch (submit_at 25) accepting b false sent_store) (λ _, true)) as (notice & E2 & _).
  { revert Hs. generalize (submit_batch (submit_at 25) accepting b false sent_store). by intros [[x|e] y]. }
  assert (∀ i m, messages (tables sent_store) !! i = Some m → 0 ≤ m_wake_notices m) as Hn.
  { intros i x Hx. pose proof (all_rows (λ _ m, in_batch b m sent && marked_at 25 m && (m_wake_notices m =? 0)) _ Hall i x Hx) as H. apply andb_true_iff in H as [_ H%Z.eqb_eq]. lia. }
  destruct (attempt_recorded (submit_at 25) accepting b false sent_store notice _ eq_refl eq_refl eq_refl Hn ltac:(done) E2) as [_ H]. destruct (H 1 m Hm) as (m' & Hm' & Hcase).
  exists b, m, m'. split; [exact (f_equal fst E)|]. split; [exact Hm|]. split; [exact Hm'|]. revert Hcase. change (tables sent_store) with sent. change (tn_later (su_start (submit_at 25))) with 25. rewrite Hin.
  intros (H1 & _ & _ & _ & _ & H2 & H3 & _). split; [exact H1|]. rewrite Hz in H2, H3. split; [exact H2|exact H3].
Defined.

(** The bound needs its clock: of two messages that had four notices one is due when messages are
    failed, the other a millisecond later, when the inbox is read again, and it gets a fifth. *)
Definition sent_twice : State := after (sendTx (λ _, ProcessGone) 20 peer_a "codex-x-0b" "again" false) sent.
Definition both_tired : State := sent_twice <| messages := (λ m, tired_row (24 + m_seq m) m) <$> messages sent_twice |>.
Definition slow_submit : SubmitTurn := mkSubmitTurn (look_at 25) still (turn_at 25) (look_at 26) (turn_at 26) still (turn_at 26).
Lemma fifth_notice : few_notices both_tired ∧ calm_submit slow_submit ∧
  ∃ m, messages (tables (submitWake slow_submit accepting peer_b false (small_store <| tables := both_tired |>)).2) !! 2 = Some m ∧ m_wake_notices m = 5.
Proof.
  split; [apply few_of_b; vm_compute; reflexivity|]. split; [split; try apply calm_still; split; apply calm_still|].
  eexists. split; [vm_compute; reflexivity|reflexivity].
Qed.
