(* ===== verification/Participants.v ===== *)
(** * Participants (internal/core/participants.go)

    The maintainer's choice of a participant's holder, the list of participants, and the
    proof of a participant call's caller.  The assignment of names is in Names. *)

From S2P Require Import Prelude GoString Schema Sql Label Fixture Storage Names Sessions Cycles.
Open Scope Z_scope.

(** ** The maintainer's choice *)

Definition choice_valid (address : string) (k : Key) (revision : Z) : bool :=
  negb (seqb address "") && (len address <=? 256) && validKey (Family k) (ID k) && (0 <? revision).

Definition delete_fence (address : string) (k : Key) : tx unit :=
  modify (λ s, s <| fences := delete (address, k) (fences s) |>).

Definition chooseHolderTx (now now_end : Z) (address : string) (k : Key) (revision : Z) (details : string) : tx string :=
  o ← gets (scanSession now k);
  session ← row (o : option Session) ErrMissing;
  _ ← ensure ((ss_Revision session =? revision) && bool_decide (ss_State session = Active)) ErrConflict;
  _ ← ensure (seqb (ss_Address session) address) ErrNotParticipant;
  o ← gets (λ s, names s !! address);
  n ← row (o : option NameRow) NoRows;
  _ ← ensure (bool_decide (n_kind n = Alias)) NoRows;
  let holder := n_holder_id n in
  _ ← delete_fence address k;
  former ← gets (peerOf (Family k) holder);
  let former := if seqb holder "" || seqb holder (ID k) then ""%string else former in
  _ ← when (negb (seqb holder (ID k)))
        (_ ← fenceCyclesTx now_end "holder_changed" (λ c, seqb (c_Address c) address);
         setHolder now address holder (ID k) "maintainer_choice" "maintainer" details);
  mret former.

Definition chooseHolder (now now_end at_ : Z) (audit : option PendingAudit) (en : Engine) (address : string) (k : Key) (revision : Z)
    (details : string) (st : Store) : result error string * Store :=
  if choice_valid address k revision
  then write (mkWrite control true at_ audit (λ _, None)) en (chooseHolderTx now now_end address k revision details) st
  else (Err ErrInvalid, st).

Definition ChooseHolder (now now_end at_ : Z) (audit : option PendingAudit) (en : Engine) (address : string) (k : Key) (revision : Z) (st : Store) :
    result error unit * Store :=
  let '(r, st') := chooseHolder now now_end at_ audit en address k revision "" st in
  (match r with Ok _ => Ok tt | Err e => Err e end, st').

(** [ChooseHolderByPeer]: the session with a peer name, at its current revision when none is
    named; a conflict is read again to say why.  The peer is read in [st0], the choice is
    committed in [st], and the conflict is read in its result: other writes can come between. *)
Definition origin_cli : string := "{" +:+ json_string "origin" +:+ ":" +:+ json_string "cli" +:+ "}".
Definition agent_peer (peer : string) (s : State) : option Key :=
  n ← names s !! peer;
  if bool_decide (n_kind n = Peer) && negb (seqb (n_family n) "maintainer") then Some (mkKey (n_family n) (n_session_id n)) else None.
Definition ChooseHolderByPeer (now_read now now_end now_after at_ : Z) (audit : option PendingAudit) (en : Engine) (address peer : string) (revision : Z)
    (st0 st : Store) : result error string * Store :=
  if seqb address "" || (256 <? len address) || seqb peer "" || (256 <? len peer) || (revision <? 0) then (Err ErrInvalid, st)
  else match agent_peer peer (tables st0) with
       | None => (Err ErrPeerNotFound, st)
       | Some k =>
           match scanSession now_read k (tables st0) with
           | None => (Err ErrMissing, st)
           | Some session =>
               let revision := if revision =? 0 then ss_Revision session else revision in
               match chooseHolder now now_end at_ audit en address k revision origin_cli st with
               | (Err ErrConflict, st') =>
                   match scanSession now_after k (tables st') with
                   | Some session => (Err (if bool_decide (ss_State session = Active) then ErrHolderRevisionChanged else ErrHolderNotActive), st')
                   | None => (Err ErrHolderRevisionChanged, st')
                   end
               | answer => answer
               end
           end
       end.

(** ** The list *)

Record Participant := mkParticipantView {
  pv_Address : string; pv_Family : string; pv_Repository : string; pv_Role : string;
  pv_Holder : string; pv_Conflict : list string; pv_LastEvent : option ParticipantEvent }.

(** [ORDER BY family,repository,role] *)
Definition participant_le (x y : string * NameRow) : Prop :=
  let '(f, r, o) := (n_family x.2, n_repository x.2, n_role x.2) in
  let '(f', r', o') := (n_family y.2, n_repository y.2, n_role y.2) in
  if bool_decide (f = f') then if bool_decide (r = r') then String.leb o o' = true else String.leb r r' = true else String.leb f f' = true.
#[export] Instance participant_le_dec : RelDecision participant_le.
Proof. intros x y. unfold participant_le. case_bool_decide; [case_bool_decide|]; apply _. Defined.

Definition last_event (address : string) (s : State) : option ParticipantEvent :=
  last (filter (λ e, pe_address e = address) (participant_events s)).
Definition participant_view (now : Z) (s : State) (an : string * NameRow) : Participant :=
  let '(a, n) := an in
  mkParticipantView a (n_family n) (n_repository n) (n_role n)
    (if negb (seqb (n_holder_id n) "") && holds now (n_family n) (n_holder_id n) (n_repository n) (n_role n) s
     then peerOf (n_family n) (n_holder_id n) s else "")
    (n_conflict n) (last_event a s).
Definition Participants_ (now : Z) (s : State) : list Participant * bool :=
  let l := merge_sort participant_le (select (λ _ n, bool_decide (n_kind n = Alias)) (names s)) in
  (participant_view now s <$> take 1000 l, bool_decide (1000 < length l)%nat).

(** ** The caller of a participant call *)

(** memory.go, [MemoryCaller] *)
Record MemoryCaller := mkMemoryCaller {
  mc_Repository : string; mc_Family : string; mc_Name : string; mc_Consumer : string; mc_Native : Key; mc_ConsumerExplicit : bool }.
#[export] Instance MemoryCaller_eta : Eta MemoryCaller := λ r,
  mkMemoryCaller (mc_Repository r) (mc_Family r) (mc_Name r) (mc_Consumer r) (mc_Native r) (mc_ConsumerExplicit r).

Definition requireParticipantCaller (now : Z) (m : MemoryCaller) (s : State) : option error :=
  if negb (isParticipantID (mc_Consumer m)) || seqb (mc_Family m) (Family maintainerKey) then None
  else if negb (validKey (Family (mc_Native m)) (ID (mc_Native m)) && seqb (Family (mc_Native m)) (mc_Family m)) then Some ErrStaleHolder
  else
    let address := trim_prefix (mc_Consumer m) participantPrefix in
    match requireHolder now (mc_Native m) address s with
    | Some e => Some e
    | None => match names s !! address with
              | Some n => if bool_decide (n_kind n = Alias)
                          then if seqb (n_repository n) (mc_Repository m) then None else Some ErrStaleHolder
                          else Some NoRows
              | None => Some NoRows
              end
    end.
Definition nativeActor (m : MemoryCaller) : string :=
  if seqb (ID (mc_Native m)) "" then "" else Family (mc_Native m) +:+ ":" +:+ ID (mc_Native m).
