(* ===== verification/Rooms.v ===== *)
(** * Rooms (internal/core/rooms.go)

    Rooms, their membership and the membership notices.  A member is the participant whose
    address the selected session holds, otherwise that exact session. *)

From S2P Require Import Prelude GoString GoFloat Schema Sql Label Fixture Storage Names Messages.
Open Scope Z_scope.

Definition maxRooms : Z := 64.
Definition maxRoomMembers : Z := 32.
Definition maxRoomMemberRows : Z := 128.
Definition maxRoomNameBytes : Z := 128.
Definition maxRoomPage : Z := 100.
Definition roomEventAdded : string := "added".
Definition roomEventRemoved : string := "removed".
Definition roomMemberSession : string := "session".
Definition roomMemberAddress : string := "participant".

Definition ErrRoomNotFound := Refusal "room_not_found".
Definition ErrRoomLimit := Refusal "room_limit".
Definition ErrRoomMemberLimit := Refusal "room_member_limit".
Definition ErrRoomHistoryLimit := Refusal "room_history_limit".
Definition ErrRoomKeyConflict := Refusal "idempotency_conflict".
Definition ErrRoomMemberAbsent := Refusal "room_member_not_found".
Definition ErrNotRoomMember := Refusal "not_room_member".

(** ** Validation *)

Definition validRoomName (name : string) : bool := negb (seqb name "") && (len name <=? maxRoomNameBytes) && valid_string name.
Definition validRoomID (id : string) : bool := (len id =? 32) && forallb is_hex (to_bytes id).

(** ** Members *)

Inductive RoomState := StateActive | StateUnheld | StateConflicts | StateInactive.
#[export] Instance RoomState_eq_dec : EqDecision RoomState.
Proof. solve_decision. Defined.
Definition state_name (st : RoomState) : string :=
  match st with StateActive => "active" | StateInactive => "inactive" | StateUnheld => "unheld" | StateConflicts => "conflicting" end.

(** [participantState] *)
Definition participantState (now : Z) (address : string) (s : State) : RoomState :=
  match names s !! address with
  | Some n =>
      if bool_decide (n_kind n = Alias) then
        if negb (bool_decide (n_conflict n = [])) then StateConflicts
        else if seqb (n_holder_id n) "" then StateUnheld
        else if holds now (n_family n) (n_holder_id n) (n_repository n) (n_role n) s then StateActive else StateUnheld
      else StateUnheld
  | None => StateUnheld
  end.

(** [callerMemberships]: the caller's exact session and the participant that it holds now *)
Definition callerMemberships (now : Z) (caller : Key) (s : State) : list Key :=
  let address := heldAddress now caller s in
  caller :: (if seqb address "" then [] else [mkKey (Family caller) (participantKey address)]).

(** The membership row of a key in a room, which is unique *)
Definition is_row_of (room : string) (k : Key) (ro : string * Z) (m : MemberRow) : bool := seqb ro.1 room && keqb (rm_member m) k.
Definition member_row (room : string) (k : Key) (s : State) : option ((string * Z) * MemberRow) :=
  head (select (is_row_of room k) (room_members s)).
Definition in_room (room : string) (ro : string * Z) (_ : MemberRow) : bool := seqb ro.1 room.
Definition active_in (room : string) (ro : string * Z) (m : MemberRow) : bool := seqb ro.1 room && rm_active m.
(** [SELECT COALESCE(MAX(ordinal),0)+1] *)
Definition next_ordinal (room : string) (s : State) : Z := foldr (λ rm z, Z.max rm.1.2 z) 0 (select (in_room room) (room_members s)) + 1.

Definition roomRow (room : string) : tx RoomRow := o ← gets (λ s, rooms s !! room); row (o : option RoomRow) ErrRoomNotFound.

(** A change of the roster: the room's revision and its change version *)
Definition new_revision (room : string) (revision : Z) : tx unit :=
  _ ← modify (λ s, s <| rooms := alter (λ r, r <| r_revision := revision |>) room (rooms s) |>);
  bumpChange room.
Definition change_member (ro : string * Z) (f : MemberRow → MemberRow) : tx unit :=
  modify (λ s, s <| room_members := alter f ro (room_members s) |>).

(** ** Membership notices *)

Section notices.
Variable is_print : Z → bool.

Definition notice_body (room : string) (name : string) (revision : Z) (event : string) : string :=
  let quoted := strconv_quote is_print name in
  if seqb event roomEventRemoved
  then "The maintainer removed this session from the Koinon room " +:+ quoted +:+ " (" +:+ room +:+ ", revision " +:+ itoa revision +:+ ")."
  else "The maintainer added this session to the Koinon room " +:+ quoted +:+ " (" +:+ room +:+ ", revision " +:+ itoa revision +:+
         "). Read its roster with room_members.".
Definition notice (member : Key) (seq : Z) (room name : string) (revision : Z) (event : string) (now : Z) : MessageRow :=
  (new_message member seq maintainerKey "maintainer" (notice_body room name revision event) now)
    <| m_room_id := room |> <| m_room_revision := revision |> <| m_room_event := event |>.

(** A participant's inbox takes messages while a session holds the address. *)
Definition member_state (now : Z) (member : Key) (s : State) : RoomState :=
  if isParticipantID (ID member) then participantState now (trim_prefix (ID member) participantPrefix) s else StateActive.
Definition ready_inbox (now : Z) (member : Key) : tx unit :=
  when (isParticipantID (ID member)) (ensureParticipantInbox now (trim_prefix (ID member) participantPrefix)).

Definition roomNotice (now : Z) (room name : string) (member : Key) (revision : Z) (event : string) : tx unit :=
  st ← gets (member_state now member);
  when (bool_decide (st = StateActive))
    (_ ← ready_inbox now member;
     taken ← take_seq member now;
     match (taken : option Z) with
     | None => mret tt
     | Some seq => _ ← insert_message (notice member seq room name revision event now); mret tt
     end).

(** ** Creation *)

Definition created_with (key : string) (_ : string) (r : RoomRow) : bool := seqb (r_create_key r) key.
Definition insert_room (now : Z) (id key name : string) : tx unit := λ s,
  if bool_decide (is_Some (rooms s !! id)) || bool_decide (is_Some (change_versions s !! id)) then Err Constraint
  else Ok (tt, s <| rooms := <[id := mkRoomRow name 1 0 now key]> (rooms s) |> <| change_versions := <[id := 1]> (change_versions s) |>).

Definition createRoomTx (now : Z) (id key name : string) : tx string :=
  existing ← gets (λ s, head (select (created_with key) (rooms s)));
  match (existing : option (string * RoomRow)) with
  | Some (old, r) =>
      _ ← ensure (seqb (r_name r) name) ErrRoomKeyConflict;
      _ ← setAuditTarget ("room " +:+ old +:+ " create repeated");
      mret old
  | None =>
      room ← gets (λ s, count_where (λ _ _, true) (rooms s) <? maxRooms);
      _ ← ensure room ErrRoomLimit;
      _ ← insert_room now id key name;
      _ ← setAuditTarget ("room " +:+ id +:+ " name bytes " +:+ itoa (len name));
      mret id
  end.
(** [random] is what crypto/rand gave. *)
Definition CreateRoom (now at_ : Z) (audit : option PendingAudit) (en : Engine) (random : bytes) (key name : string) (st : Store) :
    result error string * Store :=
  if negb (validRoomName name) || seqb key "" || (64 <? len key) then (Err ErrInvalid, st)
  else write (mkWrite ordinary true at_ audit (λ _, None)) en (createRoomTx now (of_bytes (hex_encode random)) key name) st.

(** ** Membership changes *)

(** The session with a peer name, which is no maintainer and no participant *)
Definition room_peer (peer : string) (s : State) : option Key :=
  n ← names s !! peer;
  let k := mkKey (n_family n) (n_session_id n) in
  if bool_decide (n_kind n = Peer) && negb (keqb k maintainerKey) && negb (isParticipantID (ID k)) then Some k else None.
(** The recipient check reports an inactive session as such. *)
Definition active_member (now : Z) (k : Key) (s : State) : option error :=
  match active now k s with Some ErrCallerInactive => Some ErrRecipientInactive | e => e end.

(** The member that a session joins as: its key, what it is, and its label *)
Definition joins_as (now : Z) (session : Key) (peer : string) (s : State) : Key * string * string :=
  let address := heldAddress now session s in
  if seqb address "" then (session, roomMemberSession, peer)
  else (mkKey (Family session) (participantKey address), roomMemberAddress, address).

Definition add_target (room peer kind label : string) : string := "room " +:+ room +:+ " add " +:+ peer +:+ " as " +:+ kind +:+ " " +:+ label.

(** The row of a member that joins: an earlier one starts again at the head *)
Definition join_row (now revision head : Z) (room : string) (member : Key) (label : string) (old : option ((string * Z) * MemberRow)) : tx unit :=
  match old with
  | Some (ro, _) => change_member ro (λ m, m <| rm_active := true |> <| rm_revision := revision |> <| rm_start_seq := head |> <| rm_label := label |> <| rm_changed_at := now |>)
  | None =>
      ordinal ← gets (next_ordinal room);
      modify (λ s, s <| room_members := <[(room, ordinal) := mkMemberRow member label true revision head now]> (room_members s) |>)
  end.

(** [now_notice] is the clock at the notice. *)
Definition addRoomMemberTx (now now_notice : Z) (room peer : string) : tx bool :=
  r ← roomRow room;
  o ← gets (room_peer peer);
  session ← row (o : option Key) ErrPeerNotFound;
  _ ← check (active_member now session);
  '(member, kind, label) ← gets (joins_as now session peer);
  old ← gets (member_row room member);
  if from_option (λ rm : (string * Z) * MemberRow, rm_active rm.2) false old then
    _ ← setAuditTarget (add_target room peer kind label +:+ " unchanged");
    mret false
  else
    actives ← gets (λ s, count_where (active_in room) (room_members s));
    rows ← gets (λ s, count_where (in_room room) (room_members s));
    _ ← ensure (actives <? maxRoomMembers) ErrRoomMemberLimit;
    _ ← ensure (bool_decide (is_Some old) || (rows <? maxRoomMemberRows)) ErrRoomHistoryLimit;
    let revision := r_revision r + 1 in
    _ ← new_revision room revision;
    _ ← join_row now revision (r_post_head r) room member label old;
    _ ← roomNotice now_notice room (r_name r) member revision roomEventAdded;
    _ ← setAuditTarget (add_target room peer kind label +:+ " revision " +:+ itoa revision);
    mret true.
Definition AddRoomMember (now now_notice at_ : Z) (audit : option PendingAudit) (en : Engine) (room peer : string) (st : Store) : result error bool * Store :=
  if negb (validRoomID room) || seqb peer "" || (256 <? len peer) then (Err ErrInvalid, st)
  else write (mkWrite ordinary true at_ audit (λ _, None)) en (addRoomMemberTx now now_notice room peer) st.

Definition removeRoomMemberTx (now now_notice : Z) (room : string) (ordinal : Z) : tx unit :=
  r ← roomRow room;
  o ← gets (λ s, m ← room_members s !! (room, ordinal); if rm_active m then Some m else None);
  m ← row (o : option MemberRow) ErrRoomMemberAbsent;
  let revision := r_revision r + 1 in
  _ ← new_revision room revision;
  _ ← change_member (room, ordinal) (λ m, m <| rm_active := false |> <| rm_revision := revision |> <| rm_changed_at := now |>);
  _ ← roomNotice now_notice room (r_name r) (rm_member m) revision roomEventRemoved;
  setAuditTarget ("room " +:+ room +:+ " remove " +:+ rm_label m +:+ " revision " +:+ itoa revision).
Definition RemoveRoomMember (now now_notice at_ : Z) (audit : option PendingAudit) (en : Engine) (room : string) (ordinal : Z) (st : Store) :
    result error unit * Store :=
  if negb (validRoomID room) || (ordinal <=? 0) then (Err ErrInvalid, st)
  else write (mkWrite ordinary true at_ audit (λ _, None)) en (removeRoomMemberTx now now_notice room ordinal) st.
End notices.

(** ** Reads *)

Record RoomMember := mkRoomMember {
  mb_Ordinal : Z; mb_Kind : string; mb_Family : string; mb_Address : string; mb_PeerName : string; mb_State : string; mb_Current : bool; mb_Revision : Z }.
Record Room := mkRoom { ro_ID : string; ro_Name : string; ro_Revision : Z; ro_CreatedAt : Z; ro_Members : list RoomMember }.
Record RoomMembership := mkRoomMembership {
  rs_RoomID : string; rs_Name : string; rs_Revision : Z; rs_Status : string; rs_Via : string; rs_Address : string; rs_MembershipRevision : Z }.

(** [memberView] of a row; a former member's state is removed *)
Definition memberView (now : Z) (ordinal : Z) (m : MemberRow) (s : State) : RoomMember :=
  let k := rm_member m in
  let removed st := if rm_active m then st else "removed"%string in
  if isParticipantID (ID k) then
    let address := trim_prefix (ID k) participantPrefix in
    let st := participantState now address s in
    let peer := if bool_decide (st = StateActive)
                then default ""%string (n ← names s !! address; peer_name_of (mkKey (n_family n) (n_holder_id n)) s) else ""%string in
    mkRoomMember ordinal roomMemberAddress (Family k) address peer (removed (state_name st)) (rm_active m) (rm_revision m)
  else
    let st := match active now k s with None => StateActive | Some _ => StateInactive end in
    mkRoomMember ordinal roomMemberSession (Family k) "" (rm_label m) (removed (state_name st)) (rm_active m) (rm_revision m).

Definition roomPageLimit (limit : Z) : option nat :=
  if (limit <? 0) || (maxRoomPage <? limit) then None else Some (Z.to_nat (if limit =? 0 then maxRoomPage else limit)).

(** The rows of a room in the order of their ordinals, with whether more follow *)
Definition roomMemberRows (now : Z) (room : string) (p : MemberRow → bool) (after : Z) (limit : nat) (s : State) : list RoomMember * bool :=
  let rows := order_by (λ rm : (string * Z) * MemberRow, rm.1.2) (select (λ ro m, seqb ro.1 room && p m && (after <? ro.2)) (room_members s)) in
  ((λ rm, memberView now rm.1.2 rm.2 s) <$> take limit rows, bool_decide (limit < length rows)%nat).

Definition roomMembersTx (now : Z) (caller : Key) (room : string) (after : Z) (limit : nat) : tx (Room * bool) :=
  _ ← check (active now caller);
  keys ← gets (callerMemberships now caller);
  is_member ← gets (λ s, existsb (λ k, exists_where (λ ro m, is_row_of room k ro m && rm_active m) (room_members s)) keys);
  _ ← ensure is_member ErrNotRoomMember;
  o ← gets (λ s, rooms s !! room);
  r ← row (o : option RoomRow) NoRows;
  '(members, more) ← gets (roomMemberRows now room rm_active after limit);
  mret (mkRoom room (r_name r) (r_revision r) (r_created_at r) members, more).
Definition RoomMembers (now : Z) (caller : Key) (room : string) (after : Z) (limit : Z) (st : Store) : result error (Room * bool) :=
  match roomPageLimit limit with
  | Some n => if (after <? 0) || negb (validRoomID room) then Err ErrInvalid else read (roomMembersTx now caller room after n) st
  | None => Err ErrInvalid
  end.

(** A caller's memberships, in the order room, current first, member: one for each room *)
Record MembershipRow := mkMembershipRow { mr_room : string; mr_row : RoomRow; mr_member : MemberRow }.
Definition membership_le (x y : MembershipRow) : Prop :=
  if bool_decide (mr_room x = mr_room y)
  then if Bool.eqb (rm_active (mr_member x)) (rm_active (mr_member y)) then String.leb (ID (rm_member (mr_member x))) (ID (rm_member (mr_member y))) = true
       else rm_active (mr_member x) = true
  else String.leb (mr_room x) (mr_room y) = true.
#[export] Instance membership_le_dec : RelDecision membership_le.
Proof. intros x y. unfold membership_le. case_bool_decide; [destruct (Bool.eqb _ _)|]; apply _. Defined.
Definition memberships (keys : list Key) (after : string) (s : State) : list MembershipRow :=
  merge_sort membership_le
    (omap (λ rm : (string * Z) * MemberRow, r ← rooms s !! rm.1.1; Some (mkMembershipRow rm.1.1 r rm.2))
       (select (λ ro m, bool_decide (rm_member m ∈ keys) && negb (String.leb ro.1 after)) (room_members s))).
Fixpoint first_of_rooms (last : option string) (l : list MembershipRow) : list MembershipRow :=
  match l with
  | [] => []
  | x :: l => if bool_decide (last = Some (mr_room x)) then first_of_rooms last l else x :: first_of_rooms (Some (mr_room x)) l
  end.
Definition membership (x : MembershipRow) : RoomMembership :=
  let id := ID (rm_member (mr_member x)) in
  mkRoomMembership (mr_room x) (r_name (mr_row x)) (r_revision (mr_row x))
    (if rm_active (mr_member x) then "member" else "removed")
    (if isParticipantID id then roomMemberAddress else roomMemberSession)
    (if isParticipantID id then trim_prefix id participantPrefix else "") (rm_revision (mr_member x)).
Definition roomListTx (now : Z) (caller : Key) (after : string) (limit : nat) : tx (list RoomMembership * bool) :=
  _ ← check (active now caller);
  l ← gets (λ s, first_of_rooms None (memberships (callerMemberships now caller s) after s));
  mret (membership <$> take limit l, bool_decide (limit < length l)%nat).
Definition RoomList (now : Z) (caller : Key) (after : string) (limit : Z) (st : Store) : result error (list RoomMembership * bool) :=
  match roomPageLimit limit with
  | Some n => if 32 <? len after then Err ErrInvalid else read (roomListTx now caller after n) st
  | None => Err ErrInvalid
  end.

(** [ORDER BY created_at,room_id] *)
Definition room_le (x y : string * RoomRow) : Prop :=
  if r_created_at x.2 =? r_created_at y.2 then String.leb x.1 y.1 = true else r_created_at x.2 ≤ r_created_at y.2.
#[export] Instance room_le_dec : RelDecision room_le.
Proof. intros x y. unfold room_le. destruct (_ =? _); apply _. Defined.
Definition dashboardRooms (now : Z) (s : State) : list Room :=
  (λ ir, mkRoom ir.1 (r_name ir.2) (r_revision ir.2) (r_created_at ir.2)
     (fst (roomMemberRows now ir.1 (λ _, true) 0 (Z.to_nat maxRoomMemberRows) s))) <$> merge_sort room_le (map_to_list (rooms s)).
