(* ===== verification/RoomPosts.v ===== *)
(** * Room posts (internal/core/room_posts.go) and the deletion of a room (cleanup.go)

    A post is one row with its room sequence; the same transaction stores an inbox copy for
    each active member, a delivery row for every member and the poster's retry record. *)

From S2P Require Import Prelude GoString GoFloat Schema Sql Label Fixture Storage Names Messages Sessions Cycles Launches Registrations Retention Rooms.
Open Scope Z_scope.

Definition maxRoomPosts : Z := 10000.
Definition maxRoomReplays : Z := 10000.
Definition maxRoomReadPosts : Z := 100.
Definition roomOriginHuman : string := "maintainer".
Definition roomOriginMember : string := "member".
Definition roomEventPost : string := "post".
Definition ErrRoomPostLimit := Refusal "room_post_limit".
Definition ErrRoomRetryLimit := Refusal "room_replay_limit".
Definition ErrRoomPostRepeat := Refusal "idempotency_conflict".
Definition ErrRoomPostLate := Refusal "retry_deadline_expired".

(** ** Membership and repeats *)

(** [currentMembershipStart]: the lowest start of the caller's current rows, -1 for none *)
Definition active_row_of (room : string) (s : State) (k : Key) : option ((string * Z) * MemberRow) :=
  head (select (λ ro m, is_row_of room k ro m && rm_active m) (room_members s)).
Definition lower_start (room : string) (s : State) (start : Z) (k : Key) : Z :=
  match active_row_of room s k with
  | Some (_, m) => if (start <? 0) || (rm_start_seq m <? start) then rm_start_seq m else start
  | None => start
  end.
Definition currentMembershipStart (room : string) (keys : list Key) : tx Z :=
  start ← gets (λ s, foldl (lower_start room s) (-1) keys);
  _ ← ensure (0 <=? start) ErrNotRoomMember;
  mret start.

(** [roomPostRepeat] *)
Definition roomPostRepeat (now : Z) (caller : Key) (maintainer : bool) (room key print : string) : tx (list Key * option RoomPostResult) :=
  senders ← (if maintainer : bool then mret []
             else _ ← check (active now caller);
                  senders ← gets (callerMemberships now caller);
                  _ ← currentMembershipStart room senders;
                  mret senders);
  o ← gets (λ s, room_replays s !! (caller, key));
  match (o : option ReplayRow) with
  | None => mret (senders, None)
  | Some r => _ ← ensure (seqb (ry_fingerprint r) print) ErrRoomPostRepeat;
              mret (senders, Some ((ry_result r) <| rr_Duplicate := true |>))
  end.

(** ** The fan-out *)

(** The outcome of one member's copy *)
Definition copy (member : Key) (inbox_seq : Z) (caller : Key) (sender body room : string) (seq : Z) (origin : string) (now : Z) : MessageRow :=
  (new_message member inbox_seq caller sender body now)
    <| m_room_id := room |> <| m_room_event := roomEventPost |> <| m_room_seq := seq |> <| m_room_origin := origin |>.

Definition deliver (now : Z) (room : string) (seq : Z) (caller : Key) (sender origin body : string) (member : Key) : tx (string * option Z) :=
  st ← gets (member_state now member);
  if negb (bool_decide (st = StateActive)) then mret (state_name st, None)
  else
    _ ← ready_inbox now member;
    taken ← take_seq member now;
    match (taken : option Z) with
    | None => mret (state_name StateInactive, None)
    | Some inbox_seq => id ← insert_message (copy member inbox_seq caller sender body room seq origin now); mret (""%string, Some id)
    end.

(** [INSERT INTO room_deliveries], whose key is the post and the ordinal *)
Definition insert_delivery (post ordinal : Z) (d : DeliveryRow) : tx unit := λ s,
  match room_deliveries s !! (post, ordinal) with
  | Some _ => Err Constraint
  | None => Ok (tt, s <| room_deliveries := <[(post, ordinal) := d]> (room_deliveries s) |>)
  end.
Definition delivery (member : Key) (label : string) (answer : string * option Z) : DeliveryRow :=
  mkDeliveryRow member label (if seqb answer.1 "" then "queued" else "skipped") answer.1 answer.2.

(** [fanOut]: the copies of the members, with how many were queued and skipped *)
Fixpoint fanOut (now : Z) (room : string) (post seq : Z) (caller : Key) (sender origin body : string)
    (members : list ((string * Z) * MemberRow)) (receipt : RoomPostResult) : tx RoomPostResult :=
  match members with
  | [] => mret receipt
  | ((_, ordinal), m) :: rest =>
      answer ← deliver now room seq caller sender origin body (rm_member m);
      _ ← insert_delivery post ordinal (delivery (rm_member m) (rm_label m) answer);
      fanOut now room post seq caller sender origin body rest
        (if seqb answer.1 "" then receipt <| rr_Queued := rr_Queued receipt + 1 |> else receipt <| rr_Skipped := rr_Skipped receipt + 1 |>)
  end.
(** The snapshot of the roster, without the poster's own memberships *)
Definition roster (room : string) (s : State) : list ((string * Z) * MemberRow) :=
  order_by (λ rm : (string * Z) * MemberRow, rm.1.2) (select (active_in room) (room_members s)).
Definition recipients (room : string) (exclude : list Key) (s : State) : list ((string * Z) * MemberRow) :=
  filter (λ rm, bool_decide (rm_member rm.2 ∈ exclude) = false) (roster room s).

(** ** Posting *)

(** [INSERT INTO room_posts]: an automatic ID; the room and the sequence are unique together. *)
Definition insert_post (p : PostRow) : tx Z := λ s,
  if exists_where (λ _ p', seqb (rp_room_id p') (rp_room_id p) && (rp_seq p' =? rp_seq p)) (room_posts s)
  then Err Constraint
  else let id := room_posts_issued s + 1 in
       Ok (id, s <| room_posts := <[id := p]> (room_posts s) |> <| room_posts_issued := id |>).
Definition insert_replay (caller : Key) (key : string) (r : ReplayRow) : tx unit := λ s,
  match room_replays s !! (caller, key) with
  | Some _ => Err Constraint
  | None => Ok (tt, s <| room_replays := <[(caller, key) := r]> (room_replays s) |>)
  end.

(** [now] is the clock of the write and [now_out] the one of the fan-out. *)
Definition roomPostTx (now now_out : Z) (caller : Key) (maintainer : bool) (room body key print : string) (deadline : float) : tx RoomPostResult :=
  '(senders, original) ← roomPostRepeat now caller maintainer room key print;
  match (original : option RoomPostResult) with
  | Some _ => throw Declined
  | None =>
      r ← roomRow room;
      sender ← (if maintainer : bool then mret "maintainer"%string else sender_of now caller);
      let origin := if maintainer then roomOriginHuman else roomOriginMember in
      posts ← gets (λ s, count_where (λ _ _, true) (room_posts s));
      replays ← gets (λ s, count_where (λ _ _, true) (room_replays s));
      _ ← ensure (posts <? maxRoomPosts) ErrRoomPostLimit;
      _ ← ensure (replays <? maxRoomReplays) ErrRoomRetryLimit;
      let seq := r_post_head r + 1 in
      _ ← modify (λ s, s <| rooms := alter (λ r, r <| r_post_head := seq |>) room (rooms s) |>);
      _ ← bumpChange room;
      post ← insert_post (mkPostRow room seq caller sender origin body now);
      members ← gets (recipients room senders);
      receipt ← fanOut now_out room post seq caller sender origin body members (mkRoomPostResult room seq 0 0 false);
      _ ← insert_replay caller key (mkReplayRow print deadline receipt);
      _ ← setAuditTarget ("room " +:+ room +:+ " post " +:+ itoa seq +:+ " bytes " +:+ itoa (len body) +:+ " queued " +:+ itoa (rr_Queued receipt) +:+
             " skipped " +:+ itoa (rr_Skipped receipt));
      mret receipt
  end.

Section posting.
Context `{SHA : Sha256}.
(** [strconv.FormatFloat(deadline, 'g', -1, 64)], the shortest decimal that reads back *)
Variable format_float : float → string.

Definition roomPostFingerprint (room body : string) (deadline : float) : string :=
  hex_sum (to_bytes room ++ [nul] ++ to_bytes (format_float deadline) ++ [nul] ++ to_bytes body).

(** The clock and the retry period, in seconds *)
Definition post_valid (caller : Key) (maintainer : bool) (room body key : string) (deadline : float) : bool :=
  (maintainer || validKey (Family caller) (ID caller)) && validRoomID room && negb (seqb body "") && (len body <=? maxBody) && valid_string body &&
  negb (seqb key "") && (len key <=? 256) && is_finite deadline.

(** [roomPost]: a repeat is answered from a read of [st0]; in the write of [st], a repeat that
    committed in between rolls back and is answered as well. *)
Definition roomPost (clock idemTTL : float) (now_read now now_out at_ : Z) (audit : option PendingAudit) (en : Engine) (caller : Key) (maintainer : bool)
    (room body key : string) (deadline : float) (st0 st : Store) : result error RoomPostResult * Store :=
  if negb (post_valid caller maintainer room body key deadline) then (Err ErrInvalid, st)
  else if fleb deadline clock then (Err ErrRoomPostLate, st)
  else if fltb (fadd clock idemTTL) deadline then (Err (Refusal "invalid_request"), st)
  else
    let print := roomPostFingerprint room body deadline in
    match read (roomPostRepeat now_read caller maintainer room key print) st0 with
    | Err e => (Err e, st)
    | Ok (_, Some original) => (Ok original, st)
    | Ok (_, None) =>
        match write (mkWrite ordinary maintainer at_ audit (λ _, None)) en (roomPostTx now now_out caller maintainer room body key print deadline) st with
        | (Err Declined, st') => (match read (roomPostRepeat now caller maintainer room key print) st' with
                                  | Ok (_, Some original) => Ok original
                                  | Ok (_, None) => Err Declined
                                  | Err e => Err e
                                  end, st')
        | answer => answer
        end
    end.
Definition RoomPost clock idemTTL now_read now now_out at_ audit en (caller : Key) :=
  roomPost clock idemTTL now_read now now_out at_ audit en caller false.
Definition DashboardRoomPost clock idemTTL now_read now now_out at_ audit en :=
  roomPost clock idemTTL now_read now now_out at_ audit en maintainerKey true.
End posting.

(** ** Transcripts *)

Record RoomPost_ := mkRoomPost { po_Seq : Z; po_SenderFamily : string; po_SenderName : string; po_Origin : string; po_Body : string; po_CreatedAt : Z }.
Record RoomGap := mkRoomGap { From : Z; To : Z }.
Record RoomTranscript := mkRoomTranscript {
  t_RoomID : string; t_Start : Z; t_Floor : Z; t_Head : Z; t_Posts : list RoomPost_; t_Gaps : list RoomGap; t_More : bool; t_NextAfter : option Z }.

Definition shown (p : PostRow) : RoomPost_ :=
  mkRoomPost (rp_seq p) (Family (rp_sender p)) (rp_sender_name p) (rp_origin p) (rp_body p) (rp_created_at p).
(** The retained posts of a room after a sequence, in order *)
Definition posts_after (room : string) (from : Z) (s : State) : list RoomPost_ :=
  order_by po_Seq (shown ∘ snd <$> select (λ _ p, seqb (rp_room_id p) room && (from <? rp_seq p)) (room_posts s)).
Definition floor_of (room : string) (head : Z) (s : State) : Z :=
  match (λ ip, rp_seq ip.2) <$> select (λ _ p, seqb (rp_room_id p) room) (room_posts s) with
  | [] => head
  | x :: l => foldr Z.min x l - 1
  end.

(** The rows of one page: at most [limit], and about one MiB of bodies *)
Definition pageBytes : Z := Z.shiftl 1 20.
Fixpoint fill_posts (limit : nat) (size : Z) (count : nat) (rows : list RoomPost_) : list RoomPost_ * bool :=
  match rows with
  | [] => ([], false)
  | p :: rest =>
      if bool_decide (count = limit) || (bool_decide (0 < count)%nat && (pageBytes <? size + len (po_Body p))) then ([], true)
      else let '(page, more) := fill_posts limit (size + len (po_Body p)) (S count) rest in (p :: page, more)
  end.

(** The sequences of the page's range that are not retained *)
Fixpoint gaps (previous : Z) (posts : list RoomPost_) (end_ : Z) : list RoomGap :=
  match posts with
  | [] => if previous <? end_ then [mkRoomGap (previous + 1) end_] else []
  | p :: rest => (if previous + 1 <? po_Seq p then [mkRoomGap (previous + 1) (po_Seq p - 1)] else []) ++ gaps (po_Seq p) rest end_
  end.

Definition roomTranscript (room : string) (start from : Z) (limit : nat) : tx RoomTranscript :=
  r ← roomRow room;
  let head := r_post_head r in
  floor ← gets (floor_of room head);
  rows ← gets (λ s, take (limit + 1) (posts_after room from s));
  let '(page, more) := fill_posts limit 0 0 rows in
  let end_ := if more then default head (po_Seq <$> last page) else head in
  mret (mkRoomTranscript room start floor head page (gaps from page end_) more (if more then po_Seq <$> last page else None)).

Definition roomReadTx (now : Z) (caller : Key) (room : string) (after : Z) (limit : nat) : tx RoomTranscript :=
  _ ← check (active now caller);
  keys ← gets (callerMemberships now caller);
  start ← currentMembershipStart room keys;
  roomTranscript room start (Z.max after start) limit.
Definition RoomRead (now : Z) (caller : Key) (room : string) (after limit : Z) (st : Store) : result error RoomTranscript :=
  let limit := if limit =? 0 then maxRoomReadPosts else limit in
  if (limit <? 0) || (maxRoomReadPosts <? limit) || (after <? 0) || negb (validRoomID room) then Err ErrInvalid
  else read (roomReadTx now caller room after (Z.to_nat limit)) st.

(** ** Recipients *)

Record RoomDelivery := mkRoomDelivery {
  dl_Ordinal : Z; dl_Label : string; dl_Family : string; dl_Outcome : string; dl_Reason : string; dl_DeliveryState : option DeliveryState;
  dl_Acknowledged : bool; dl_AcknowledgedBy : string }.

(** The copy of a delivery, joined with its inbox; a copy that is gone is not_retained. *)
Definition delivery_view (ordinal : Z) (d : DeliveryRow) (s : State) : RoomDelivery :=
  let m := id ← rd_message_id d; messages s !! id in
  match rd_message_id d, m with
  | Some _, None => mkRoomDelivery ordinal (rd_label d) (Family (rd_member d)) "not_retained" (rd_reason d) None false ""
  | _, _ =>
      let acked := from_option (λ m, from_option (λ r, m_seq m <=? s_acked_through r) false (sessions s !! m_recipient m)) false m in
      mkRoomDelivery ordinal (rd_label d) (Family (rd_member d)) (rd_outcome d) (rd_reason d) (m_delivery_state <$> m) acked
        (acknowledgedBy acked (from_option m_maintainer_ack false m))
  end.
Definition deliveries_of (post : Z) (s : State) : list RoomDelivery :=
  (λ od, delivery_view od.1 od.2 s) <$>
    order_by fst ((λ kd : (Z * Z) * DeliveryRow, (kd.1.2, kd.2)) <$> select (λ k _, k.1 =? post) (room_deliveries s)).
Definition roomDeliveries (room : string) (first_ last_ : Z) (s : State) : gmap Z (list RoomDelivery) :=
  list_to_map (filter (λ sl, sl.2 ≠ [])
    ((λ ip, (rp_seq ip.2, deliveries_of ip.1 s)) <$>
       select (λ _ p, seqb (rp_room_id p) room && (first_ <=? rp_seq p) && (rp_seq p <=? last_)) (room_posts s))).

(** ** Retention *)

(** A post goes when none of its copies is retained and either some copy was stored, or the
    retention period has passed. *)
Definition of_post (post : Z) (kd : Z * Z) (_ : DeliveryRow) : bool := kd.1 =? post.
Definition cullable (cutoff : Z) (s : State) (post : Z) (p : PostRow) : bool :=
  negb (exists_where (λ kd d, of_post post kd d && from_option (λ id, bool_decide (is_Some (messages s !! id))) false (rd_message_id d)) (room_deliveries s)) &&
  ((rp_created_at p <? cutoff) || exists_where (λ kd d, of_post post kd d && bool_decide (is_Some (rd_message_id d))) (room_deliveries s)).
Definition cull_select (cutoff batch : Z) (s : State) : list (Z * PostRow) :=
  take (Z.to_nat batch) (order_by fst (select (cullable cutoff s) (room_posts s))).

Definition delete_posts (ids : list Z) : tx unit := modify (λ s,
  s <| room_deliveries := filter (λ kd, kd.1.1 ∉ ids) (room_deliveries s) |> <| room_posts := filter (λ ip, ip.1 ∉ ids) (room_posts s) |>).
Definition cullTx (cutoff batch : Z) : tx nat :=
  found ← gets (cull_select cutoff batch);
  let rows := found : list (Z * PostRow) in
  _ ← delete_posts rows.*1;
  _ ← each (remove_dups ((λ ip, rp_room_id ip.2) <$> rows)) bumpChange;
  mret (length rows).

(** The loop of [cullRoomPosts] takes one batch at a time while its budget lasts: each batch
    that is not the last is full, so a budget of [n] batches needs at most [n] turns, and the
    budget itself is enough fuel. *)
Fixpoint cull_loop (fuel : nat) (budget : Z) (turn : nat → Z * Z * Engine) (st : Store) : result error Z * Store :=
  match fuel with
  | O => (Ok budget, st)
  | S fuel =>
      if budget <=? 0 then (Ok budget, st)
      else
        let batch := Z.min cullBatch budget in
        let '(cutoff, at_, en) := turn fuel in
        match write (mkWrite control false at_ None (λ _, None)) en (cullTx cutoff batch) st with
        | (Err e, st') => (Err e, st')
        | (Ok n, st') =>
            let budget := budget - Z.of_nat n in
            if Z.of_nat n <? batch then (Ok budget, st') else cull_loop fuel budget turn st'
        end
  end.

(** cleanup.go, [DeleteRoom]: a room goes with its memberships, its posts, their delivery records
    and its change version; the copies of its posts in the inboxes stay. *)
Definition post_of_room (room : string) (s : State) (post : Z) : bool := from_option (λ p, seqb (rp_room_id p) room) false (room_posts s !! post).
Definition deleteRoomTx (room : string) : tx unit :=
  r ← roomRow room;
  _ ← modify (λ s, s <| room_deliveries := filter (λ kd, post_of_room room s kd.1.1 = false) (room_deliveries s) |>);
  _ ← modify (λ s, s <| room_posts := filter (λ ip, seqb (rp_room_id ip.2) room = false) (room_posts s) |>);
  _ ← modify (λ s, s <| room_members := filter (λ km, in_room room km.1 km.2 = false) (room_members s) |>);
  _ ← modify (λ s, s <| rooms := delete room (rooms s) |>);
  _ ← modify (λ s, s <| change_versions := delete room (change_versions s) |>);
  setAuditTarget ("room " +:+ room +:+ " delete name bytes " +:+ itoa (len (r_name r))).
Definition DeleteRoom (at_ : Z) (audit : option PendingAudit) (en : Engine) (room : string) (st : Store) : result error unit * Store :=
  if negb (validRoomID room) then (Err ErrInvalid, st)
  else write (mkWrite control true at_ audit (λ _, None)) en (deleteRoomTx room) st.

(** Expired retry records, at most a batch *)
Definition expired_replay (clock : float) (_ : Key * string) (r : ReplayRow) : bool := fltb (ry_deadline r) clock.
Definition cullReplaysTx (clock : float) : tx unit := modify (λ s,
  let ids := take (Z.to_nat cullBatch) (fst <$> select (expired_replay clock) (room_replays s)) in
  s <| room_replays := filter (λ kr, kr.1 ∉ ids) (room_replays s) |>).
Definition cullRoomPosts (budget : Z) (turn : nat → Z * Z * Engine) (clock : float) (at_ : Z) (en : Engine) (st : Store) : result error Z * Store :=
  match cull_loop (Z.to_nat budget) budget turn st with
  | (Err e, st') => (Err e, st')
  | (Ok rest, st') =>
      match write (mkWrite control false at_ None (λ _, None)) en (cullReplaysTx clock) st' with
      | (Err e, st2) => (Err e, st2)
      | (Ok _, st2) => (Ok rest, st2)
      end
  end.
