(* ===== verification/RoomProps.v ===== *)
(** * Properties of rooms

    The rosters and the posts of every room stay within their bounds and consistent with their
    room, whatever sequence of transactions runs, and the inbox copies keep the inbox
    invariant. *)

From S2P Require Import Prelude GoString GoFloat Schema Sql Label Fixture Storage Names Messages Inboxes Sessions Cycles Launches Registrations Retention InboxProps Rooms RoomPosts.
Open Scope Z_scope.

(** ** The invariant *)

Record roster_wf (s : State) : Prop := {
  rw_count : count_where (λ _ _, true) (rooms s) ≤ maxRooms;
  rw_room : ∀ id r, rooms s !! id = Some r → 1 ≤ r_revision r ∧ 0 ≤ r_post_head r;
  rw_member : ∀ id o m, room_members s !! (id, o) = Some m →
    1 ≤ o ∧ ∃ r, rooms s !! id = Some r ∧ 0 ≤ rm_start_seq m ≤ r_post_head r ∧ 1 ≤ rm_revision m ≤ r_revision r;
  rw_unique : ∀ id o o' m m', room_members s !! (id, o) = Some m → room_members s !! (id, o') = Some m' → rm_member m = rm_member m' → o = o';
  rw_active : ∀ id, count_where (active_in id) (room_members s) ≤ maxRoomMembers;
  rw_rows : ∀ id, count_where (in_room id) (room_members s) ≤ maxRoomMemberRows }.

Record posts_wf (s : State) : Prop := {
  pw_issued : 0 ≤ room_posts_issued s;
  pw_post : ∀ p row, room_posts s !! p = Some row → 1 ≤ p ≤ room_posts_issued s ∧
    ∃ r, rooms s !! rp_room_id row = Some r ∧ 1 ≤ rp_seq row ≤ r_post_head r;
  pw_unique : ∀ p q a b, room_posts s !! p = Some a → room_posts s !! q = Some b → rp_room_id a = rp_room_id b → rp_seq a = rp_seq b → p = q;
  pw_delivery : ∀ p o d, room_deliveries s !! (p, o) = Some d → is_Some (room_posts s !! p) }.

Definition rooms_wf (s : State) : Prop := roster_wf s ∧ posts_wf s.

(** What the invariant reads *)
Definition room_view (s : State) := (rooms s, room_members s, (room_posts s, room_posts_issued s, room_deliveries s)).
Lemma rooms_wf_view s s' : room_view s' = room_view s → rooms_wf s → rooms_wf s'.
Proof.
  unfold room_view. intros [= H1 H2 H3 H4 H5] [[A1 A2 A3 A4 A5 A6] [B1 B2 B3 B4]].
  split; split; rewrite ?H1, ?H2, ?H3, ?H4, ?H5; done.
Qed.
Lemma rooms_wf_keeps {A} (m : tx A) : Keeps room_view m → Maintains rooms_wf m.
Proof. apply maintains_keeps, rooms_wf_view. Qed.

(** ** Steps that leave the rooms alone *)

Lemma keeps_ready_inbox {B} (f : State → B) now member : (∀ s g, f (upd sessions g s) = f s) → Keeps f (ready_inbox now member).
Proof. intros Hf. unfold ready_inbox, ensureParticipantInbox. keeps; apply keeps_modify; intros; repeat case_match; (reflexivity || apply Hf). Qed.
Lemma keeps_insert_copy m : Keeps room_view (insert_message m).
Proof. by apply keeps_insert_message. Qed.
Lemma keeps_take_copy k now : Keeps room_view (take_seq k now).
Proof. by apply keeps_take_seq. Qed.
Lemma keeps_ready_view now member : Keeps room_view (ready_inbox now member).
Proof. by apply keeps_ready_inbox. Qed.
Lemma keeps_audit_view t : Keeps room_view (setAuditTarget t).
Proof. by apply keeps_modify. Qed.
Lemma keeps_change_view t : Keeps room_view (bumpChange t).
Proof. by apply keeps_modify. Qed.
#[export] Hint Resolve keeps_insert_copy keeps_take_copy keeps_ready_view keeps_audit_view keeps_change_view : frame.

Lemma keeps_roomNotice ip now room name member revision event : Keeps room_view (roomNotice ip now room name member revision event).
Proof. unfold roomNotice. keeps. Qed.
Lemma keeps_deliver now room seq caller sender origin body member : Keeps room_view (deliver now room seq caller sender origin body member).
Proof. unfold deliver. keeps. Qed.
#[export] Hint Resolve keeps_roomNotice keeps_deliver : frame.

(** ** Changes of the tables *)

Section changes.
Implicit Types (s : State) (id : string) (m : MemberRow).

(** A room's revision and head only grow. *)
Lemma wf_alter_room s id (f : RoomRow → RoomRow) : rooms_wf s →
  (∀ r, rooms s !! id = Some r → r_revision r ≤ r_revision (f r) ∧ r_post_head r ≤ r_post_head (f r)) →
  rooms_wf (s <| rooms := alter f id (rooms s) |>).
Proof.
  intros [[A1 A2 A3 A4 A5 A6] [B1 B2 B3 B4]] Hf.
  assert (∀ id' r, rooms s !! id' = Some r → ∃ r', alter f id (rooms s) !! id' = Some r' ∧ r_revision r ≤ r_revision r' ∧ r_post_head r ≤ r_post_head r') as Hr.
  { intros id' r Hl. destruct (decide (id = id')) as [<-|Hne]; [rewrite lookup_alter_eq, Hl; cbn; eauto|].
    rewrite lookup_alter_ne by done. exists r. split_and!; [done|lia..]. }
  split; split; cbn; try done.
  - destruct (rooms s !! id) as [r|] eqn:E; [rewrite (count_where_change _ _ _ _ _ E); lia|]. by rewrite alter_id by (intros; congruence).
  - intros id' r. rewrite lookup_alter. case_decide; [subst; intros (r0 & Hl & ->)%fmap_Some|apply A2].
    destruct (Hf _ Hl), (A2 _ _ Hl). lia.
  - intros id' o m Hl. destruct (A3 _ _ _ Hl) as (Ho & r & Hrl & Hs & Hv). destruct (Hr _ _ Hrl) as (r' & Hl' & ? & ?).
    split; [done|]. exists r'. split_and!; try done; lia.
  - intros p row Hl. destruct (B2 _ _ Hl) as (Hp & r & Hrl & Hq). destruct (Hr _ _ Hrl) as (r' & Hl' & ? & ?).
    split; [done|]. exists r'. split; [done|lia].
Qed.

(** A membership row changes without moving to another member. *)
Lemma wf_alter_member s id o m (f : MemberRow → MemberRow) r : rooms_wf s → room_members s !! (id, o) = Some m → rooms s !! id = Some r →
  rm_member (f m) = rm_member m → 0 ≤ rm_start_seq (f m) ≤ r_post_head r → 1 ≤ rm_revision (f m) ≤ r_revision r →
  (rm_active (f m) = true → rm_active m = false → count_where (active_in id) (room_members s) < maxRoomMembers) →
  rooms_wf (s <| room_members := alter f (id, o) (room_members s) |>).
Proof.
  intros [[A1 A2 A3 A4 A5 A6] HB] Hm Hr Hk Hst Hrev Hact. split; [|by destruct HB]. split; cbn; try done.
  - intros id' o' m'. rewrite lookup_alter. case_decide as Hd; [injection Hd as <- <-; rewrite Hm; intros [= <-]|apply A3].
    destruct (A3 _ _ _ Hm) as (Ho & _). split; [done|]. eauto.
  - assert (∀ id' o' m', alter f (id, o) (room_members s) !! (id', o') = Some m' → ∃ m0, room_members s !! (id', o') = Some m0 ∧ rm_member m0 = rm_member m') as Hold.
    { intros id' o' m'. rewrite lookup_alter. case_decide as Hd; [injection Hd as <- <-; rewrite Hm; intros [= <-]; eauto|eauto]. }
    intros id' o1 o2 m1 m2 (x1 & H1 & E1)%Hold (x2 & H2 & E2)%Hold Heq. eapply A4; [done..|congruence].
  - intros id'. rewrite (count_where_change _ _ _ _ _ Hm). unfold active_in in *. cbn. specialize (A5 id').
    destruct (seqb id id') eqn:E; cbn; [apply seqb_true in E as ->|lia].
    destruct (rm_active m) eqn:E1, (rm_active (f m)) eqn:E2; lia.
  - intros id'. rewrite (count_where_change _ _ _ _ _ Hm). unfold in_room in *. cbn. specialize (A6 id'). destruct (seqb id id'); lia.
Qed.

Lemma wf_insert_member s id o m r : rooms_wf s → room_members s !! (id, o) = None → rooms s !! id = Some r → 1 ≤ o →
  (∀ o' m', room_members s !! (id, o') = Some m' → rm_member m' ≠ rm_member m) →
  0 ≤ rm_start_seq m ≤ r_post_head r → 1 ≤ rm_revision m ≤ r_revision r →
  count_where (active_in id) (room_members s) < maxRoomMembers → count_where (in_room id) (room_members s) < maxRoomMemberRows →
  rooms_wf (s <| room_members := <[(id, o) := m]> (room_members s) |>).
Proof.
  intros [[A1 A2 A3 A4 A5 A6] HB] Hm Hr Ho Hnew Hst Hrev Hact Hrows. split; [|by destruct HB]. split; cbn; try done.
  - intros id' o' m'. rewrite lookup_insert. case_decide as Hd; [injection Hd as <- <-; intros [= <-]; eauto|apply A3].
  - intros id' o1 o2 m1 m2. rewrite !lookup_insert. repeat case_decide; intros H1 H2 Heq; simplify_eq; try done; [by destruct (Hnew _ _ H2)|by destruct (Hnew _ _ H1)|eauto].
  - intros id'. rewrite count_where_fresh by done. unfold active_in in *. cbn. specialize (A5 id').
    destruct (seqb id id') eqn:E; cbn; [apply seqb_true in E as ->|lia]. destruct (rm_active m); lia.
  - intros id'. rewrite count_where_fresh by done. unfold in_room in *. cbn. specialize (A6 id').
    destruct (seqb id id') eqn:E; [apply seqb_true in E as ->|]; lia.
Qed.
End changes.

(** ** Rosters *)

Lemma member_row_Some room k s ro m : member_row room k s = Some (ro, m) →
  room_members s !! ro = Some m ∧ ro.1 = room ∧ rm_member m = k.
Proof.
  unfold member_row. intros Hh%head_Some_elem_of%elem_of_select. unfold is_row_of in Hh.
  rewrite andb_true_iff, seqb_true, keqb_true in Hh. naive_solver.
Qed.
Lemma member_row_None room k s : member_row room k s = None → ∀ o m, room_members s !! (room, o) = Some m → rm_member m ≠ k.
Proof.
  unfold member_row. intros Hh o m Hl Hk. destruct (select _ _) as [|x l] eqn:E; [|done].
  apply (elem_of_nil ((room, o), m)). rewrite <-E. apply elem_of_select. split; [done|]. unfold is_row_of. cbn.
  by rewrite (proj2 (seqb_true _ _) eq_refl), (proj2 (keqb_true _ _) Hk).
Qed.

Lemma foldr_max_le (l : list ((string * Z) * MemberRow)) x : x ∈ l → x.1.2 ≤ foldr (λ rm z, Z.max rm.1.2 z) 0 l.
Proof. induction l as [|y l IH]; [by intros ?%elem_of_nil|]. cbn. intros [->|Hin]%elem_of_cons; [lia|]. specialize (IH Hin). lia. Qed.
Lemma foldr_max_nonneg (l : list ((string * Z) * MemberRow)) : 0 ≤ foldr (λ rm z, Z.max rm.1.2 z) 0 l.
Proof. induction l; cbn; lia. Qed.
Lemma next_ordinal_fresh room s : 1 ≤ next_ordinal room s ∧ room_members s !! (room, next_ordinal room s) = None.
Proof.
  unfold next_ordinal. split; [pose proof (foldr_max_nonneg (select (in_room room) (room_members s))); lia|].
  destruct (room_members s !! _) as [m|] eqn:E; [|done]. exfalso.
  assert (((room, foldr (λ rm z, Z.max rm.1.2 z) 0 (select (in_room room) (room_members s)) + 1), m) ∈ select (in_room room) (room_members s)) as Hin.
  { apply elem_of_select. split; [done|]. by apply seqb_true. }
  apply foldr_max_le in Hin. cbn in Hin. lia.
Qed.

Lemma createRoomTx_wf now id key name : Maintains rooms_wf (createRoomTx now id key name).
Proof.
  intros s a s' Hwf H. unfold createRoomTx in H. run H.
  destruct (head _) as [[old r]|]; [run H; by apply (rooms_wf_keeps _ (keeps_audit_view _)) in R|].
  run H. unfold insert_room in R. destruct (_ || _) eqn:E; [done|]. injection R as _ <-. apply (rooms_wf_keeps _ (keeps_audit_view _)) in R0; [done|].
  apply orb_false_iff in E as [E%bool_decide_eq_false _]. rewrite <-eq_None_not_Some in E. apply Z.ltb_lt in G.
  destruct Hwf as [[A1 A2 A3 A4 A5 A6] [B1 B2 B3 B4]].
  assert (∀ id' r, rooms s !! id' = Some r → <[id:=mkRoomRow name 1 0 now key]> (rooms s) !! id' = Some r) as Hold
    by (intros id' r Hl; rewrite lookup_insert_ne; [done|congruence]).
  split; split; cbn; try done.
  - rewrite count_where_fresh by done. lia.
  - intros id' r. rewrite lookup_insert. case_decide; [intros [= <-]; cbn; lia|apply A2].
  - intros id' o m Hl. destruct (A3 _ _ _ Hl) as (Ho & r & Hr & H1 & H2). split; [done|]. exists r. eauto.
  - intros p row Hl. destruct (B2 _ _ Hl) as (Hp & r & Hr & Hq). split; [done|]. exists r. eauto.
Qed.

(** A change of the roster takes the next revision and bumps the room's change version. *)
Lemma new_revision_spec room revision s u s' : new_revision room revision s = Ok (u, s') →
  room_view s' = room_view (s <| rooms := alter (λ r, r <| r_revision := revision |>) room (rooms s) |>).
Proof. unfold new_revision. intros H. run H. by apply keeps_change_view in H. Qed.

Lemma new_revision_wf room r s u s' : rooms_wf s → rooms s !! room = Some r → new_revision room (r_revision r + 1) s = Ok (u, s') →
  rooms_wf s' ∧ rooms s' !! room = Some (r <| r_revision := r_revision r + 1 |>) ∧ room_members s' = room_members s.
Proof.
  intros Hwf Hr H. apply new_revision_spec in H. split_and!.
  - eapply rooms_wf_view; [done|]. apply wf_alter_room; [done|]. intros r0. rewrite Hr. intros [= <-]. cbn. lia.
  - unfold room_view in H. injection H as -> _ _ _ _. cbn. by rewrite lookup_alter_eq, Hr.
  - unfold room_view in H. by injection H as _ -> _ _ _.
Qed.

Lemma roomRow_Ok room s r s' : roomRow room s = Ok (r, s') → rooms s !! room = Some r ∧ s' = s.
Proof. unfold roomRow. intros H. run H. done. Qed.

Lemma join_row_wf now room member label r s u s' old : rooms_wf s → rooms s !! room = Some r → old = member_row room member s →
  from_option (λ rm : (string * Z) * MemberRow, rm_active rm.2) false old = false →
  count_where (active_in room) (room_members s) < maxRoomMembers → (old = None → count_where (in_room room) (room_members s) < maxRoomMemberRows) →
  join_row now (r_revision r) (r_post_head r) room member label old s = Ok (u, s') → rooms_wf s'.
Proof.
  intros Hwf Hr -> Hno Hact Hrows H. destruct (rw_room _ (proj1 Hwf) _ _ Hr) as [Hrev Hhead].
  destruct (member_row room member s) as [[[room' o] m]|] eqn:E; unfold join_row, change_member in H; run H.
  - apply member_row_Some in E as (Hl & Hro & Hk). cbn in Hro. subst room'.
    eapply wf_alter_member; [done..| | |]; cbn; [lia|lia|done].
  - destruct (next_ordinal_fresh room s) as [Ho Hf]. eapply wf_insert_member; [done..| | | | |]; cbn; [|lia|lia|done|by apply Hrows].
    intros o' m' Hl. by apply (member_row_None _ _ _ E o').
Qed.

Lemma addRoomMemberTx_wf ip now now_notice room peer : Maintains rooms_wf (addRoomMemberTx ip now now_notice room peer).
Proof.
  intros s a s' Hwf H. unfold addRoomMemberTx in H.
  apply bind_Ok in H as (r & s1 & (Hr & ->)%roomRow_Ok & H). run H.
  apply check_Ok in R as (_ & [= -> ->]). destruct (joins_as now v peer s) as [[member kind] label] eqn:Ej. run H.
  destruct (from_option _ false _) eqn:Eo.
  - run H. by apply (rooms_wf_keeps _ (keeps_audit_view _)) in R.
  - run H. apply Z.ltb_lt in G. apply (new_revision_wf _ _ _ _ _ Hwf Hr) in R as (Hwf1 & Hr1 & Hm1).
    assert (rooms_wf s1) as Hwf2.
    { eapply join_row_wf; [exact Hwf1|exact Hr1| |exact Eo| | |exact R0]; rewrite ?Hm1; try done.
      - unfold member_row. by rewrite Hm1.
      - intros Hn. rewrite Hn in G0. cbn in G0. by apply Z.ltb_lt in G0. }
    apply (rooms_wf_keeps _ (keeps_roomNotice _ _ _ _ _ _ _)) in R1; [|done]. by apply (rooms_wf_keeps _ (keeps_audit_view _)) in R2.
Qed.

Lemma removeRoomMemberTx_wf ip now now_notice room ordinal : Maintains rooms_wf (removeRoomMemberTx ip now now_notice room ordinal).
Proof.
  intros s a s' Hwf H. unfold removeRoomMemberTx in H.
  apply bind_Ok in H as (r & s1 & (Hr & ->)%roomRow_Ok & H). run H.
  apply (new_revision_wf _ _ _ _ _ Hwf Hr) in R as (Hwf1 & Hr1 & Hm1).
  destruct (room_members s !! (room, ordinal)) as [m|] eqn:Em; [|done]. cbn in L. destruct (rm_active m) eqn:Ea; [|done]. injection L as <-.
  unfold change_member in R0. run R0.
  destruct (rw_member _ (proj1 Hwf) _ _ _ Em) as (_ & r0 & Hr0 & Hst & _). rewrite Hr in Hr0. injection Hr0 as <-.
  destruct (rw_room _ (proj1 Hwf) _ _ Hr) as [Hrev Hhead].
  eapply (rooms_wf_keeps _ (keeps_audit_view _)); [|exact H]. eapply (rooms_wf_keeps _ (keeps_roomNotice _ _ _ _ _ _ _)); [|exact R1].
  eapply wf_alter_member; [exact Hwf1|by rewrite Hm1|exact Hr1|done|..]; cbn; [done|lia|done].
Qed.

(** ** The fan-out of a post *)

(** What a copy can do to the state: rows keep everything but their last sequence, only
    participants' inboxes appear, and no message changes. *)
Record touched (s s' : State) : Prop := {
  to_names : names s' = names s;
  to_rooms : (rooms s', room_members s', room_posts s', room_posts_issued s') = (rooms s, room_members s, room_posts s, room_posts_issued s);
  to_rows : ∀ k r, sessions s !! k = Some r → ∃ q, sessions s' !! k = Some (r <| s_last_seq := q |>);
  to_new : ∀ k r, sessions s' !! k = Some r → sessions s !! k = None → isParticipantID (ID k) = true;
  to_messages : ∀ i m, messages s !! i = Some m → messages s' !! i = Some m }.
#[export] Instance touched_preorder : PreOrder touched.
Proof.
  split.
  - intros s. split; try done; [|congruence]. intros k r Hr. exists (s_last_seq r). rewrite Hr. by destruct r.
  - intros s1 s2 s3 [A1 A2 A3 A4 A5] [B1 B2 B3 B4 B5]. split; [congruence|by rewrite B2| | |by auto].
    + intros k r Hr. destruct (A3 _ _ Hr) as (q & Hq). destruct (B3 _ _ Hq) as (q' & Hq'). exists q'. by rewrite Hq'.
    + intros k r H3 H1. destruct (sessions s2 !! k) as [r2|] eqn:E; eauto.
Qed.

Lemma holds_touched now family id repo role s s' : touched s s' → isParticipantID id = false → holds now family id repo role s' = holds now family id repo role s.
Proof.
  intros [_ _ Hrows Hnew _] Hid. unfold holds. destruct (sessions s !! mkKey family id) as [r|] eqn:E.
  - destruct (Hrows _ _ E) as (q & ->). done.
  - destruct (sessions s' !! mkKey family id) as [r|] eqn:E'; [|done]. specialize (Hnew _ _ E' E). change (isParticipantID id = true) in Hnew. congruence.
Qed.
Lemma member_state_touched now member s s' : holders_native s → touched s s' → member_state now member s' = member_state now member s.
Proof.
  intros Hn Ht. unfold member_state. destruct (isParticipantID (ID member)); [|done]. unfold participantState.
  rewrite (to_names _ _ Ht). destruct (names s !! _) as [n|] eqn:E; [|done]. by rewrite (holds_touched _ _ _ _ _ _ _ Ht (Hn _ _ E)).
Qed.

Lemma ready_inbox_touched now member s u s' : ready_inbox now member s = Ok (u, s') →
  touched s s' ∧ messages s' = messages s ∧ messages_issued s' = messages_issued s ∧ room_deliveries s' = room_deliveries s ∧
  (∀ k r, sessions s !! k = Some r → sessions s' !! k = Some r) ∧ (isParticipantID (ID member) = false → s' = s).
Proof.
  unfold ready_inbox. destruct (isParticipantID (ID member)); cbn; [|intros H; run H; by split_and!].
  unfold ensureParticipantInbox. intros H. run H. set (key := mkKey _ _). destruct (sessions s !! key) as [r|] eqn:E; [by split_and!|].
  split_and!; try done.
  - split; try done; cbn.
    + intros k r Hr. exists (s_last_seq r). rewrite lookup_insert_ne by (intros <-; unfold key in *; congruence). rewrite Hr. by destruct r.
    + intros k r. rewrite lookup_insert. destruct (decide (key = k)) as [<-|]; [|intros; congruence].
      intros _ _. unfold key, isParticipantID, participantKey, has_prefix. cbn [ID].
      apply prefix_app.
  - cbn. intros k r Hr. rewrite lookup_insert_ne; [done|]. intros <-. unfold key in *. congruence.
Qed.

(** One member's copy *)
Inductive delivered_to (now : Z) (member : Key) (text : Z → MessageRow) (s s' : State) : string * option Z → Prop :=
| skipped_state : member_state now member s ≠ StateActive → s' = s → delivered_to now member text s s' (state_name (member_state now member s), None)
| skipped_inactive s1 : member_state now member s = StateActive → ready_inbox now member s = Ok (tt, s1) → s' = s1 →
    (∀ r, sessions s1 !! member = Some r → active_row now r = false) → delivered_to now member text s s' (state_name StateInactive, None)
| queued_copy s1 r : member_state now member s = StateActive → ready_inbox now member s = Ok (tt, s1) →
    sessions s1 !! member = Some r → active_row now r = true →
    s' = s1 <| sessions := <[member := r <| s_last_seq := s_last_seq r + 1 |> ]> (sessions s1) |>
            <| messages := <[messages_issued s1 + 1 := text (s_last_seq r + 1)]> (messages s1) |> <| messages_issued := messages_issued s1 + 1 |> →
    delivered_to now member text s s' (""%string, Some (messages_issued s1 + 1)).

Lemma deliver_Ok now room seq caller sender origin body member s answer s' :
  deliver now room seq caller sender origin body member s = Ok (answer, s') →
  delivered_to now member (λ q, copy member q caller sender body room seq origin now) s s' answer.
Proof.
  unfold deliver. intros H. run H. destruct (bool_decide (member_state now member s = StateActive)) eqn:E; cbn in H.
  - apply bool_decide_eq_true in E. apply bind_Ok in H as ([] & s1 & H1 & H).
    apply bind_Ok in H as (taken & s2 & [(r & Hr & Ha & -> & ->)|(-> & -> & Hna)]%take_seq_Ok & H).
    + apply bind_Ok in H as (id & s3 & (-> & -> & _)%insert_message_Ok & H). run H. by eapply queued_copy.
    + run H. by eapply skipped_inactive.
  - run H. apply bool_decide_eq_false in E. by apply skipped_state.
Qed.

Definition ids_below (s : State) : Prop := ∀ i m, messages s !! i = Some m → i ≤ messages_issued s.

Lemma delivered_to_touched now member text s s' answer : ids_below s → delivered_to now member text s s' answer →
  touched s s' ∧ ids_below s' ∧ messages_issued s ≤ messages_issued s' ∧ room_deliveries s' = room_deliveries s.
Proof.
  intros Hb [Hst ->|s1 Hst Hr -> Hna|s1 r Hst Hr Hrow Ha ->]; [split_and!; [reflexivity|done..|lia|done]| |];
    apply ready_inbox_touched in Hr as (Ht & Hm & Hi & Hd & _).
  - unfold ids_below. rewrite Hm, Hi. split_and!; [done..|lia|done].
  - cbn. split_and!; [|unfold ids_below; cbn|lia|done].
    + etrans; [exact Ht|]. split; try done; cbn.
      * intros k r0 Hk. rewrite lookup_insert. case_decide; [subst; rewrite Hrow in Hk; injection Hk as <-; eauto|].
        exists (s_last_seq r0). rewrite Hk. by destruct r0.
      * intros k r0. rewrite lookup_insert. case_decide; intros; congruence.
      * intros i m Hl. rewrite lookup_insert_ne; [done|]. rewrite Hm in Hl. apply Hb in Hl. lia.
    + intros i m. rewrite lookup_insert. case_decide; [lia|]. rewrite Hm, Hi. intros Hl%Hb. lia.
Qed.

(** Every new message is the copy of the answer, with a new ID. *)
Lemma delivered_to_new now member text s s' answer : delivered_to now member text s s' answer →
  (∀ i m, messages s' !! i = Some m → messages s !! i = Some m ∨ answer.2 = Some i) ∧ ∀ i, answer.2 = Some i → messages_issued s < i ≤ messages_issued s'.
Proof.
  intros [Hst ->|s1 Hst Hr -> Hna|s1 r Hst Hr Hrow Ha ->]; [split; [by left|done]| |]; apply ready_inbox_touched in Hr as (_ & Hm & Hi & _); cbn.
  - rewrite Hm. split; [by left|done].
  - split; [|intros i [= <-]; lia]. intros i m. rewrite lookup_insert. case_decide as Hd; [right; by rewrite Hd|]. rewrite Hm. by left.
Qed.
(** The IDs of the copies, all different, and the messages of a fan-out *)
Definition fan_messages (s s' : State) (answers : list (string * option Z)) : Prop :=
  (∀ i m, messages s' !! i = Some m → messages s !! i = Some m ∨ ∃ j answer, answers !! j = Some answer ∧ answer.2 = Some i) ∧
  (∀ j answer i, answers !! j = Some answer → answer.2 = Some i → messages_issued s < i) ∧
  (∀ j k a b i, answers !! j = Some a → answers !! k = Some b → a.2 = Some i → b.2 = Some i → j = k) ∧ messages_issued s ≤ messages_issued s'.
Lemma fan_messages_cons now member text s s1 s2 s' answer answers : messages_issued s ≤ messages_issued s1 → delivered_to now member text s s1 answer →
  messages s2 = messages s1 → messages_issued s2 = messages_issued s1 → fan_messages s2 s' answers → fan_messages s s' (answer :: answers).
Proof.
  intros Hle [N1 N2]%delivered_to_new Em Ei (F1 & F2 & F3 & F4). rewrite Em, Ei in *. split; [|split; [|split; [|lia]]].
  - intros i m [[Hm|Ha]%N1|(j & b & Hj & Hb)]%F1; [by left|right; by exists 0%nat, answer|right; by exists (S j), b].
  - intros [|j] a i Hj Ha; cbn in Hj; [injection Hj as <-; by destruct (N2 _ Ha)|]. specialize (F2 _ _ _ Hj Ha). lia.
  - intros [|j] [|k] a b i Hj Hk Ha Hb; cbn in Hj, Hk; [done| | |f_equal; by eapply F3].
    + injection Hj as <-. specialize (F2 _ _ _ Hk Hb). destruct (N2 _ Ha). lia.
    + injection Hk as <-. specialize (F2 _ _ _ Hj Ha). destruct (N2 _ Hb). lia.
Qed.

(** The answer of one member, told from the states before and after the whole fan-out *)
Definition outcome_of (now : Z) (text : Key → Z → MessageRow) (s s' : State) (member : Key) (answer : string * option Z) : Prop :=
  match answer.2 with
  | Some id => answer.1 = ""%string ∧ member_state now member s = StateActive ∧ messages s !! id = None ∧
               ∃ q, messages s' !! id = Some (text member q)
  | None => answer.1 ≠ ""%string ∧ (member_state now member s ≠ StateActive → answer.1 = state_name (member_state now member s)) ∧
            (member_state now member s = StateActive → ∀ r, sessions s !! member = Some r → active_row now r = false)
  end.

Lemma delivered_to_outcome now member (text : Key → Z → MessageRow) s s' answer : ids_below s → delivered_to now member (text member) s s' answer →
  outcome_of now text s s' member answer.
Proof.
  intros Hb [Hst ->|s1 Hst Hr -> Hna|s1 r Hst Hr Hrow Ha ->]; unfold outcome_of; cbn.
  - split_and!; [by destruct (member_state now member s)|done|done].
  - split_and!; [done|done|]. intros _ r Hl. apply ready_inbox_touched in Hr as (_ & _ & _ & _ & Hk & _). by apply Hna, Hk.
  - apply ready_inbox_touched in Hr as (_ & Hm & Hi & _). split_and!; [done|done| |exists (s_last_seq r + 1); by rewrite lookup_insert_eq].
    destruct (messages s !! _) eqn:E; [|done]. apply Hb in E. lia.
Qed.

(** An outcome holds from any earlier state, and to any later one. *)
Lemma outcome_of_before now text s0 s s' member answer : holders_native s0 → touched s0 s → outcome_of now text s s' member answer →
  outcome_of now text s0 s' member answer.
Proof.
  intros Hn Ht. unfold outcome_of. rewrite (member_state_touched _ _ _ _ Hn Ht). destruct answer.2 as [id|].
  - intros (? & ? & Hid & ?). split_and!; try done. destruct (messages s0 !! id) eqn:E; [|done]. apply (to_messages _ _ Ht) in E. congruence.
  - intros (? & ? & Hr). split_and!; try done. intros Ha r Hl. destruct (to_rows _ _ Ht _ _ Hl) as (q & Hq). exact (Hr Ha _ Hq).
Qed.
Lemma outcome_of_after now text s s' s2 member answer : touched s' s2 → outcome_of now text s s' member answer → outcome_of now text s s2 member answer.
Proof.
  intros Ht. unfold outcome_of. destruct answer.2 as [id|]; [|done]. intros (? & ? & ? & q & Hq). split_and!; try done.
  exists q. by apply (to_messages _ _ Ht).
Qed.

(** The number of members that a fan-out queued *)
Definition queued (answers : list (string * option Z)) : Z := Z.of_nat (length (filter (λ a : string * option Z, a.1 = ""%string) answers)).

Lemma insert_delivery_Ok post o d s u s' : insert_delivery post o d s = Ok (u, s') →
  room_deliveries s !! (post, o) = None ∧ s' = s <| room_deliveries := <[(post, o) := d]> (room_deliveries s) |>.
Proof. unfold insert_delivery. destruct (room_deliveries s !! _); [done|]. by intros [= _ <-]. Qed.

Lemma touched_deliveries s g : touched s (s <| room_deliveries := g |>).
Proof. split; try done; cbn; [|congruence]. intros k r Hr. exists (s_last_seq r). rewrite Hr. by destruct r. Qed.

Lemma fanOut_Ok now room post seq caller sender origin body members receipt s receipt' s' :
  holders_native s → ids_below s →
  fanOut now room post seq caller sender origin body members receipt s = Ok (receipt', s') →
  ∃ answers, touched s s' ∧ ids_below s' ∧
    Forall2 (λ rm answer, room_deliveries s' !! (post, rm.1.2) = Some (delivery (rm_member rm.2) (rm_label rm.2) answer) ∧
      room_deliveries s !! (post, rm.1.2) = None ∧
      outcome_of now (λ m q, copy m q caller sender body room seq origin now) s s' (rm_member rm.2) answer) members answers ∧
    (∀ kd, (∀ rm, rm ∈ members → kd ≠ (post, rm.1.2)) → room_deliveries s' !! kd = room_deliveries s !! kd) ∧
    rr_RoomID receipt' = rr_RoomID receipt ∧ rr_Seq receipt' = rr_Seq receipt ∧ rr_Duplicate receipt' = rr_Duplicate receipt ∧
    rr_Queued receipt' = rr_Queued receipt + queued answers ∧
    rr_Queued receipt' + rr_Skipped receipt' = rr_Queued receipt + rr_Skipped receipt + Z.of_nat (length members) ∧ fan_messages s s' answers.
Proof.
  revert receipt s. induction members as [|[[room0 o] m] rest IH]; intros receipt s Hn Hb H; cbn in H.
  { run H. exists []. split_and!; try reflexivity; try done; try (cbn; lia); [unfold queued; cbn; lia|]. split; [by left|]. by split_and!. }
  apply bind_Ok in H as (answer & s1 & Hd%deliver_Ok & H).
  apply bind_Ok in H as (u & s2 & (Hfresh & ->)%insert_delivery_Ok & H).
  pose proof (delivered_to_touched _ _ _ _ _ _ Hb Hd) as (Ht1 & Hb1 & Hle & Hds). pose proof Hd as Hnew.
  apply (delivered_to_outcome now (rm_member m) (λ m q, copy m q caller sender body room seq origin now)) in Hd; [|done].
  set (s2 := s1 <| room_deliveries := _ |>) in H.
  assert (touched s s2) as Ht2.
  { etrans; [exact Ht1|]. apply touched_deliveries. }
  apply IH in H as (answers & Ht & Hb' & Hall & Hother & H1 & H2 & H3 & H4 & H5 & H6); [|intros a n; rewrite (to_names _ _ Ht2); apply Hn|exact Hb1].
  assert (∀ rm, rm ∈ rest → room_deliveries s2 !! (post, rm.1.2) = None) as Hnone.
  { intros rm Hin. apply (list_elem_of_lookup_1) in Hin as (i & Hi). destruct (Forall2_lookup_l _ _ _ _ _ Hall Hi) as (a & _ & _ & Hno & _). done. }
  assert (∀ rm, rm ∈ rest → (post, o) ≠ (post, rm.1.2)) as Hne.
  { intros rm Hin [= ->]. specialize (Hnone _ Hin). subst s2. cbn in Hnone. by rewrite lookup_insert_eq in Hnone. }
  exists (answer :: answers). split_and!; [by etrans|done| | | | | | | |].
  - constructor; cbn.
    + split_and!; [rewrite (Hother _ Hne); subst s2; cbn; by rewrite lookup_insert_eq|by rewrite <-Hds|].
      eapply outcome_of_after; [|exact Hd]. etrans; [|exact Ht]. apply touched_deliveries.
    + eapply Forall2_impl; [exact Hall|]. intros [[r1 o1] m1] a (E1 & E2 & E3). cbn in *. split_and!; [done| |by eapply outcome_of_before].
      subst s2. cbn in E2. rewrite lookup_insert in E2. case_decide; [done|]. by rewrite <-Hds.
  - intros kd Hkd. rewrite Hother by (intros rm Hin; apply Hkd; by right). subst s2. cbn.
    rewrite lookup_insert_ne, Hds; [done|]. intros <-. by destruct (Hkd _ (list_elem_of_here _ _)).
  - rewrite H1. by destruct (seqb answer.1 "").
  - rewrite H2. by destruct (seqb answer.1 "").
  - rewrite H3. by destruct (seqb answer.1 "").
  - rewrite H4. unfold queued. rewrite filter_cons. destruct (seqb answer.1 "") eqn:E; [apply seqb_true in E|apply seqb_false in E];
      [rewrite decide_True by done|rewrite decide_False by done]; cbn; lia.
  - rewrite H5. destruct (seqb answer.1 ""); cbn; lia.
  - by eapply (fan_messages_cons _ _ _ s s1 s2).
Qed.

(** ** Posts *)

Lemma insert_post_Ok p s id s' : insert_post p s = Ok (id, s') →
  id = room_posts_issued s + 1 ∧ s' = s <| room_posts := <[id := p]> (room_posts s) |> <| room_posts_issued := id |> ∧
  ∀ q row, room_posts s !! q = Some row → rp_room_id row = rp_room_id p → rp_seq row ≠ rp_seq p.
Proof.
  unfold insert_post. destruct (exists_where _ _) eqn:E; [done|]. intros [= <- <-]. split_and!; [done..|].
  intros q row Hl Hroom Hseq. pose proof (proj1 (exists_where_false _ _) E q row Hl) as Hno. cbn in Hno.
  rewrite Hroom, Hseq, (proj2 (seqb_true _ _) eq_refl), Z.eqb_refl in Hno. done.
Qed.
Lemma insert_replay_Ok caller key r s u s' : insert_replay caller key r s = Ok (u, s') →
  s' = s <| room_replays := <[(caller, key) := r]> (room_replays s) |>.
Proof. unfold insert_replay. destruct (room_replays s !! _); [done|]. by intros [= _ <-]. Qed.

Lemma repeat_state now caller maintainer room key print s x s' : roomPostRepeat now caller maintainer room key print s = Ok (x, s') → s' = s.
Proof.
  unfold roomPostRepeat, currentMembershipStart. intros H.
  apply bind_Ok in H as (senders & s1 & H1 & H). assert (s1 = s) as ->.
  { destruct maintainer; [by run H1|]. apply bind_Ok in H1 as (u & s2 & (_ & [= -> ->])%check_Ok & H1). runs H1. done. }
  run H. destruct (room_replays s !! _); runs H; done.
Qed.

(** A committed post, taken apart *)
Record posted (now now_out : Z) (caller : Key) (room body key print origin sender : string) (deadline : float) (senders : list Key) (receipt : RoomPostResult) (s s' : State)
    (r : RoomRow) (post : Z) (answers : list (string * option Z)) : Prop := {
  pd_room : rooms s !! room = Some r;
  pd_receipt : rr_RoomID receipt = room ∧ rr_Seq receipt = r_post_head r + 1 ∧ rr_Duplicate receipt = false;
  pd_rooms : rooms s' = alter (λ r0, r0 <| r_post_head := r_post_head r + 1 |>) room (rooms s);
  pd_members : room_members s' = room_members s;
  pd_post : post = room_posts_issued s + 1 ∧ room_posts_issued s' = post ∧
    room_posts s' = <[post := mkPostRow room (r_post_head r + 1) caller sender origin body now]> (room_posts s);
  pd_deliveries : Forall2 (λ rm answer, room_deliveries s' !! (post, rm.1.2) = Some (delivery (rm_member rm.2) (rm_label rm.2) answer) ∧
    outcome_of now_out (λ m q, copy m q caller sender body room (r_post_head r + 1) origin now_out) s s' (rm_member rm.2) answer)
    (recipients room senders s) answers;
  pd_others : ∀ kd, kd.1 ≠ post → room_deliveries s' !! kd = room_deliveries s !! kd;
  pd_only : ∀ o, (∀ rm, rm ∈ recipients room senders s → rm.1.2 ≠ o) → room_deliveries s' !! (post, o) = room_deliveries s !! (post, o);
  pd_counts : rr_Queued receipt = queued answers ∧ rr_Queued receipt + rr_Skipped receipt = Z.of_nat (length (recipients room senders s));
  pd_messages : ∀ i m, messages s !! i = Some m → messages s' !! i = Some m;
  pd_names : names s' = names s;
  pd_rows : ∀ k row, sessions s !! k = Some row → ∃ q, sessions s' !! k = Some (row <| s_last_seq := q |>);
  pd_new : ∀ k row, sessions s' !! k = Some row → sessions s !! k = None → isParticipantID (ID k) = true;
  pd_replay : room_replays s' !! (caller, key) = Some (mkReplayRow print deadline receipt);
  pd_copies : fan_messages s s' answers }.

Lemma keeps_sender now caller : Keeps id (sender_of now caller).
Proof. apply keeps_id. unfold sender_of. intros s a s' H. run H. destruct (seqb _ _); run H; done. Qed.

Lemma roomPostTx_Ok now now_out caller maintainer room body key print deadline s receipt s' :
  holders_native s → ids_below s →
  roomPostTx now now_out caller maintainer room body key print deadline s = Ok (receipt, s') →
  ∃ senders sender r post answers,
    roomPostRepeat now caller maintainer room key print s = Ok ((senders, None), s) ∧
    posted now now_out caller room body key print (if maintainer then roomOriginHuman else roomOriginMember) sender deadline senders receipt s s' r post answers.
Proof.
  intros Hn Hb H. unfold roomPostTx in H. apply bind_Ok in H as ([senders original] & s1 & H1 & H).
  pose proof (repeat_state _ _ _ _ _ _ _ _ _ H1) as ->. destruct original as [original|]; [by run H|].
  apply bind_Ok in H as (r & s2 & (Hr & ->)%roomRow_Ok & H).
  apply bind_Ok in H as (sender & s2 & Hs & H).
  assert (s2 = s) as -> by (destruct maintainer; [by run Hs|by apply keeps_sender in Hs]).
  run H. apply insert_post_Ok in R0 as (-> & -> & Hfresh). unfold bumpChange in R. run R. apply insert_replay_Ok in R2. subst.
  unfold setAuditTarget in R3. run R3. cbn in *.
  eapply fanOut_Ok in R1 as (answers & Ht & Hb' & Hall & Hother & E1 & E2 & E3 & E4 & E5 & E6); [|exact Hn|exact Hb].
  exists senders, sender, r, (room_posts_issued s + 1), answers. split; [done|].
  destruct Ht as [T1 T2 T3 T4 T5]. cbn in *. injection T2 as T21 T22 T23 T24. split; cbn; try done.
  - eapply Forall2_impl; [exact Hall|]. intros rm a (E & _ & Ho). split; [exact E|exact Ho].
  - intros [p o] Hp. apply Hother. intros rm _. cbn in Hp. congruence.
  - intros o Ho. apply Hother. intros rm Hin [= ->]. by apply (Ho rm).
  - by rewrite lookup_insert_eq.
Qed.

Lemma roomPostTx_wf now now_out caller maintainer room body key print deadline s receipt s' :
  holders_native s → ids_below s → rooms_wf s →
  roomPostTx now now_out caller maintainer room body key print deadline s = Ok (receipt, s') → rooms_wf s'.
Proof.
  intros Hn Hb Hwf H. pose proof H as H0. apply roomPostTx_Ok in H as (senders & sender & r & post & answers & _ & [P1 P2 P3 P4 P5 P6 P7 P8 P9 P10 _ _ _ _ _]); [|done..].
  destruct (rw_room _ (proj1 Hwf) _ _ P1) as [Hrev Hhead].
  assert (rooms_wf (s <| rooms := alter (λ r0, r0 <| r_post_head := r_post_head r + 1 |>) room (rooms s) |>)) as [[A1 A2 A3 A4 A5 A6] [B1 B2 B3 B4]].
  { apply wf_alter_room; [done|]. intros r0. rewrite P1. intros [= <-]. cbn. lia. }
  destruct P5 as (-> & Hi & Hp). destruct Hwf as [_ [C1 C2 C3 C4]]. cbn in *.
  split; split; rewrite ?P3, ?P4, ?Hi, ?Hp; try done; [lia| | |].
  - intros p row. rewrite lookup_insert. case_decide as Hd; [intros [= <-]; cbn; split; [lia|]|].
    + eexists. rewrite lookup_alter_eq, P1. cbn. split; [done|]. cbn. lia.
    + intros Hl. destruct (B2 _ _ Hl) as (? & r' & Hr' & ?). split; [lia|eauto].
  - intros p q a b. rewrite !lookup_insert. repeat case_decide; intros Ha Hb2 Hroom Hseq; simplify_eq/=; try done; [| |by eapply C3].
    + destruct (C2 _ _ Hb2) as (_ & r' & Hr' & Hle). rewrite P1 in Hr'. simplify_eq/=. lia.
    + destruct (C2 _ _ Ha) as (_ & r' & Hr' & Hle). rewrite P1 in Hr'. simplify_eq/=. lia.
  - intros p o d Hl. rewrite lookup_insert. case_decide; [by eexists|]. rewrite P7 in Hl by (cbn; congruence). by eapply C4.
Qed.

(** ** Retention *)

(** The batches of a culling: each takes at most its size, and a short one leaves no post that
    the cutoff lets go. *)
Lemma exists_where_same {K V} `{Countable K} (P : K → V → bool) (m m' : gmap K V) : (∀ k v, P k v = true → m' !! k = Some v ↔ m !! k = Some v) → exists_where P m' = exists_where P m.
Proof.
  intros Hs. apply eq_true_iff_eq. rewrite !exists_where_true. split; intros (k & v & Hl & HP); exists k, v; (split; [|done]); by apply Hs.
Qed.
Lemma cullTx_batch cutoff batch s n s' : 0 ≤ batch → cullTx cutoff batch s = Ok (n, s') → Z.of_nat n ≤ batch ∧
  (Z.of_nat n < batch → ∀ i p, room_posts s' !! i = Some p → cullable cutoff s' i p = false).
Proof.
  intros Hb H. unfold cullTx in H. run H. unfold delete_posts in R. run R. set (rows := cull_select cutoff batch s) in *.
  assert (Keeps (λ s, (room_posts s, room_deliveries s, messages s)) (each (remove_dups ((λ ip : Z * PostRow, rp_room_id ip.2) <$> rows)) bumpChange)) as Hk by keeps.
  apply Hk in R0. injection R0 as Ep Ed Em. cbn in Ep, Ed, Em. assert (length rows = Z.to_nat batch `min` length (order_by fst (select (cullable cutoff s) (room_posts s))))%nat as Hlen by apply length_take.
  split; [lia|]. intros Hlt i p Hp. rewrite Ep in Hp. apply map_lookup_filter_Some in Hp as [Hp Hi]. cbn in Hi.
  assert (cullable cutoff s1 i p = cullable cutoff s i p) as ->.
  { unfold cullable. rewrite Em, Ed. f_equal; [f_equal|f_equal]; apply exists_where_same; intros kd d [Hof%Z.eqb_eq _]%andb_true_iff; rewrite map_lookup_filter_Some; cbn; rewrite Hof; tauto. }
  destruct (cullable cutoff s i p) eqn:Ec; [|done]. destruct Hi. apply list_elem_of_fmap. exists (i, p). split; [done|]. unfold rows, cull_select. rewrite take_ge by lia.
  by apply elem_of_order_by, elem_of_select.
Qed.
(** A budget of [n] posts is fuel for every batch: the loop ends with its budget spent, or with
    no post left that its last cutoff lets go. *)
Lemma cull_loop_ends turn fuel : ∀ budget st rest st', (Z.to_nat budget ≤ fuel)%nat → 0 ≤ budget → cull_loop fuel budget turn st = (Ok rest, st') →
  0 ≤ rest ≤ budget ∧ (0 < rest → ∃ cutoff, ∀ i p, room_posts (tables st') !! i = Some p → cullable cutoff (tables st') i p = false).
Proof.
  induction fuel as [|fuel IH]; intros budget st rest st' Hf Hb H; cbn [cull_loop] in H; [injection H as <- _; lia|].
  destruct (Z.leb_spec budget 0) as [Hz|Hpos]; [injection H as <- _; lia|]. cbn zeta in H. destruct (turn fuel) as [[cutoff at_] en].
  set (batch := Z.min cullBatch budget) in *. assert (1 ≤ batch ≤ budget) as Hbatch by (unfold batch, cullBatch; lia).
  destruct (write _ _ _ st) as [[n|e] st1] eqn:E; [|done]. apply write_Ok in E as (s & Hs & Et & _). apply cullTx_batch in Hs as [Hn Hshort]; [|lia]. cbn zeta in H.
  destruct (Z.ltb_spec (Z.of_nat n) batch) as [Hlt|Hge]; [injection H as <- <-; split; [lia|]|].
  - intros _. exists cutoff. intros i p Hp. rewrite Et in *. unfold writeAudit in *. cbn [w_audited] in *. destruct (pending s); exact (Hshort Hlt i p Hp).
  - destruct (IH (budget - Z.of_nat n) st1 rest st') as [H1 H2]; [lia|lia|done|]. split; [lia|done].
Qed.

Lemma cullTx_wf cutoff batch : Maintains rooms_wf (cullTx cutoff batch).
Proof.
  intros s a s' Hwf H. unfold cullTx in H. run H. unfold delete_posts in R. run R.
  assert (Keeps room_view (each (remove_dups ((λ ip : Z * PostRow, rp_room_id ip.2) <$> cull_select cutoff batch s)) bumpChange)) as Hk
    by (apply keeps_each; intros; apply keeps_change_view).
  eapply (rooms_wf_keeps _ Hk); [|exact R0]. destruct Hwf as [[A1 A2 A3 A4 A5 A6] [B1 B2 B3 B4]].
  split; split; cbn; try done.
  - intros p row [Hl _]%map_lookup_filter_Some. eauto.
  - intros p q x y [Hp _]%map_lookup_filter_Some [Hq _]%map_lookup_filter_Some. eauto.
  - intros p o d [Hl Hin]%map_lookup_filter_Some. destruct (B4 _ _ _ Hl) as [row Hrow]. exists row.
    apply map_lookup_filter_Some. split; [done|exact Hin].
Qed.

(** ** The deletion of a room *)

(** A deleted room leaves no membership, no post and no delivery; everything of the other rooms,
    and every stored message, is as before. *)
Lemma deleteRoomTx_Ok room s u s' : deleteRoomTx room s = Ok (u, s') → ∃ r, rooms s !! room = Some r ∧
  rooms s' = delete room (rooms s) ∧ room_members s' = filter (λ km, in_room room km.1 km.2 = false) (room_members s) ∧
  room_posts s' = filter (λ ip, seqb (rp_room_id ip.2) room = false) (room_posts s) ∧
  room_deliveries s' = filter (λ kd, post_of_room room s kd.1.1 = false) (room_deliveries s) ∧
  room_posts_issued s' = room_posts_issued s ∧ inbox_view s' = inbox_view s ∧ names s' = names s ∧ change_versions s' = delete room (change_versions s).
Proof.
  intros H. unfold deleteRoomTx, setAuditTarget in H. apply bind_Ok in H as (r & s1 & (Hr & ->)%roomRow_Ok & H). run H. cbn. exists r. done.
Qed.
Lemma deleteRoomTx_wf room : Maintains rooms_wf (deleteRoomTx room).
Proof.
  intros s u s' [[A1 A2 A3 A4 A5 A6] [B1 B2 B3 B4]] (r & Hr & E1 & E2 & E3 & E4 & E5 & _)%deleteRoomTx_Ok.
  assert (∀ (P : string * Z → MemberRow → bool), count_where P (room_members s') ≤ count_where P (room_members s)) as Hc.
  { intros P. apply count_where_le. rewrite E2. intros k m [Hm _]%map_lookup_filter_Some HP. eauto. }
  assert (∀ id q, rooms s !! id = Some q → seqb id room = false → rooms s' !! id = Some q) as Hroom.
  { intros id q Hq Hne%seqb_false. by rewrite E1, lookup_delete_ne. }
  split; split.
  - etrans; [|exact A1]. apply count_where_le. rewrite E1. intros id q [_ Hq]%lookup_delete_Some _. eauto.
  - rewrite E1. intros id q [_ Hq]%lookup_delete_Some. eauto.
  - rewrite E2. intros id o m [Hm Hi]%map_lookup_filter_Some. unfold in_room in Hi. cbn in Hi. destruct (A3 _ _ _ Hm) as (Ho & q & Hq & Hb). split; [done|]. exists q. split; [by apply Hroom|done].
  - rewrite E2. intros id o o' m m' [Hm _]%map_lookup_filter_Some [Hm' _]%map_lookup_filter_Some. eauto.
  - intros id. etrans; [apply Hc|apply A5].
  - intros id. etrans; [apply Hc|apply A6].
  - by rewrite E5.
  - rewrite E3, E5. intros p row [Hp Hi]%map_lookup_filter_Some. cbn in Hi. destruct (B2 _ _ Hp) as (Hi' & q & Hq & Hb). split; [done|]. exists q. split; [by apply Hroom|done].
  - rewrite E3. intros p q a b [Hp _]%map_lookup_filter_Some [Hq _]%map_lookup_filter_Some. eauto.
  - rewrite E4. intros p o d [Hd Hi]%map_lookup_filter_Some. cbn in Hi. destruct (B4 _ _ _ Hd) as [row Hrow]. exists row. rewrite E3. apply map_lookup_filter_Some. split; [done|].
    unfold post_of_room in Hi. by rewrite Hrow in Hi.
Qed.

(** ** The inboxes of a room's members *)

Lemma ready_inbox_wf now member : Maintains inbox_wf (ready_inbox now member).
Proof. unfold ready_inbox. apply maintains_when. intros _. apply wf_ensureParticipantInbox. Qed.
#[export] Hint Resolve ready_inbox_wf : inbox.

Lemma deliver_inbox_wf now room seq caller sender origin body member : Maintains inbox_wf (deliver now room seq caller sender origin body member).
Proof.
  unfold deliver. apply maintains_bind; [maintains|]. intros st. destruct (negb _); [maintains|].
  apply maintains_bind; [maintains|]. intros _. by apply (send_copy_wf member now _ _ (λ id, (""%string, Some id))).
Qed.
Lemma roomNotice_wf ip now room name member revision event : Maintains inbox_wf (roomNotice ip now room name member revision event).
Proof.
  unfold roomNotice. apply maintains_bind; [maintains|]. intros st. apply maintains_when. intros _.
  apply maintains_bind; [maintains|]. intros _. by apply (send_copy_wf member now _ _ (λ _, tt)).
Qed.
Lemma fanOut_inbox_wf now room post seq caller sender origin body members receipt :
  Maintains inbox_wf (fanOut now room post seq caller sender origin body members receipt).
Proof.
  revert receipt. induction members as [|[[r o] m] rest IH]; intros receipt; cbn; [maintains|].
  apply maintains_bind; [apply deliver_inbox_wf|]. intros answer. apply maintains_bind; [|intros _; apply IH].
  apply wf_of_keeps. intros s u s' (_ & ->)%insert_delivery_Ok. done.
Qed.
#[export] Hint Resolve deliver_inbox_wf roomNotice_wf fanOut_inbox_wf : inbox.

Lemma keeps_insert_room {B} (f : State → B) now id key name : (∀ s g h, f (s <| rooms := g |> <| change_versions := h |>) = f s) →
  Keeps f (insert_room now id key name).
Proof. intros Hf s u s'. unfold insert_room. destruct (_ || _); [done|]. intros [= _ <-]. apply Hf. Qed.
Lemma keeps_insert_post p : Keeps inbox_view (insert_post p).
Proof. intros s id s' (-> & -> & _)%insert_post_Ok. done. Qed.
Lemma keeps_insert_replay {B} (f : State → B) caller key r : (∀ s g, f (s <| room_replays := g |>) = f s) → Keeps f (insert_replay caller key r).
Proof. intros Hf s u s' ->%insert_replay_Ok. apply Hf. Qed.
Lemma keeps_repeat {B} (f : State → B) now caller maintainer room key print : Keeps f (roomPostRepeat now caller maintainer room key print).
Proof. apply keeps_id. intros s x s'. apply repeat_state. Qed.
Lemma keeps_roomRow {B} (f : State → B) room : Keeps f (roomRow room).
Proof. apply keeps_id. by intros s r s' [_ ->]%roomRow_Ok. Qed.
Lemma keeps_sender_of {B} (f : State → B) now caller : Keeps f (sender_of now caller).
Proof. apply keeps_id. intros s a s' H. by apply keeps_sender in H. Qed.
#[export] Hint Resolve keeps_insert_post keeps_repeat keeps_roomRow keeps_sender_of : frame.

Lemma createRoomTx_inbox_wf now id key name : Maintains inbox_wf (createRoomTx now id key name).
Proof.
  unfold createRoomTx. apply wf_of_keeps. keeps. by apply keeps_insert_room.
Qed.
Lemma addRoomMemberTx_inbox_wf ip now now_notice room peer : Maintains inbox_wf (addRoomMemberTx ip now now_notice room peer).
Proof. unfold addRoomMemberTx, join_row, change_member, new_revision. maintains. Qed.
Lemma removeRoomMemberTx_inbox_wf ip now now_notice room ordinal : Maintains inbox_wf (removeRoomMemberTx ip now now_notice room ordinal).
Proof. unfold removeRoomMemberTx, change_member, new_revision. maintains. Qed.
Lemma roomPostTx_inbox_wf now now_out caller maintainer room body key print deadline :
  Maintains inbox_wf (roomPostTx now now_out caller maintainer room body key print deadline).
Proof. unfold roomPostTx. maintains. apply wf_of_keeps. by apply keeps_insert_replay. Qed.
Lemma cullTx_inbox_wf cutoff batch : Maintains inbox_wf (cullTx cutoff batch).
Proof. unfold cullTx, delete_posts. apply wf_of_keeps. keeps. Qed.

(** *** No room operation writes a name record *)

Lemma holders_keeps {A} (m : tx A) : Keeps names m → Maintains holders_native m.
Proof. intros Hm s a s' Hn H b n Hl. apply Hm in H. rewrite H in Hl. eauto. Qed.
Lemma keeps_ready_names now member : Keeps names (ready_inbox now member).
Proof. by apply keeps_ready_inbox. Qed.
#[export] Hint Resolve keeps_ready_names : frame.
Lemma createRoomTx_names now id key name : Keeps names (createRoomTx now id key name).
Proof. unfold createRoomTx. keeps. by apply keeps_insert_room. Qed.
Lemma addRoomMemberTx_names ip now now_notice room peer : Keeps names (addRoomMemberTx ip now now_notice room peer).
Proof. unfold addRoomMemberTx, join_row, change_member, new_revision, roomNotice. keeps. Qed.
Lemma removeRoomMemberTx_names ip now now_notice room ordinal : Keeps names (removeRoomMemberTx ip now now_notice room ordinal).
Proof. unfold removeRoomMemberTx, change_member, new_revision, roomNotice. keeps. Qed.
Lemma cullTx_names cutoff batch : Keeps names (cullTx cutoff batch).
Proof. unfold cullTx, delete_posts. keeps. Qed.

(** ** Every sequence of transactions *)

Definition rooms_inv (s : State) : Prop := rooms_wf s ∧ inbox_wf s ∧ holders_native s.

Lemma inbox_ids_below s : inbox_wf s → ids_below s.
Proof. intros Hwf i m Hl. by destruct (wf_ids _ Hwf _ _ Hl). Qed.

(** One committed transaction: a room operation, or one of another part, which does not write
    the rooms' tables and keeps the inboxes. *)
Inductive room_step (s s' : State) : Prop :=
| step_create now id key name a : createRoomTx now id key name s = Ok (a, s') → room_step s s'
| step_add ip now now_notice room peer a : addRoomMemberTx ip now now_notice room peer s = Ok (a, s') → room_step s s'
| step_remove ip now now_notice room ordinal a : removeRoomMemberTx ip now now_notice room ordinal s = Ok (a, s') → room_step s s'
| step_post now now_out caller maintainer room body key print deadline a :
    roomPostTx now now_out caller maintainer room body key print deadline s = Ok (a, s') → room_step s s'
| step_cull cutoff batch a : cullTx cutoff batch s = Ok (a, s') → room_step s s'
| step_delete room a : deleteRoomTx room s = Ok (a, s') → room_step s s'
| step_replays clock a : cullReplaysTx clock s = Ok (a, s') → room_step s s'
| step_else {A} (m : tx A) a : Keeps room_view m → Maintains inbox_wf m → Maintains holders_native m → m s = Ok (a, s') → room_step s s'.

Lemma room_step_inv s s' : rooms_inv s → room_step s s' → rooms_inv s'.
Proof.
  intros (Hr & Hi & Hn) Hs. destruct Hs as [now id key name a H|ip now nn room peer a H|ip now nn room o a H|now no caller mt room body key print dl a H|c b a H|room a H|c a H|A m a Hv Hi' Hn' H].
  - split_and!; [by eapply createRoomTx_wf|by eapply createRoomTx_inbox_wf|by eapply (holders_keeps _ (createRoomTx_names _ _ _ _))].
  - split_and!; [by eapply addRoomMemberTx_wf|by eapply addRoomMemberTx_inbox_wf|by eapply (holders_keeps _ (addRoomMemberTx_names _ _ _ _ _))].
  - split_and!; [by eapply removeRoomMemberTx_wf|by eapply removeRoomMemberTx_inbox_wf|by eapply (holders_keeps _ (removeRoomMemberTx_names _ _ _ _ _))].
  - split_and!; [by eapply roomPostTx_wf; [exact Hn|by apply inbox_ids_below|exact Hr|exact H]|by eapply roomPostTx_inbox_wf|].
    intros b n. destruct (roomPostTx_Ok _ _ _ _ _ _ _ _ _ _ _ _ Hn (inbox_ids_below _ Hi) H) as (? & ? & ? & ? & ? & _ & Hp).
    rewrite (pd_names _ _ _ _ _ _ _ _ _ _ _ _ _ _ _ _ _ Hp). apply Hn.
  - split_and!; [by eapply cullTx_wf|by eapply cullTx_inbox_wf|by eapply (holders_keeps _ (cullTx_names _ _))].
  - pose proof H as (r & _ & _ & _ & _ & _ & _ & Ev & En & _)%deleteRoomTx_Ok. split_and!; [by eapply deleteRoomTx_wf|by apply (inbox_wf_view s)|]. intros b n. rewrite En. apply Hn.
  - unfold cullReplaysTx in H. run H. split_and!; [apply (rooms_wf_view s); [reflexivity|exact Hr]|apply (inbox_wf_view s); [reflexivity|exact Hi]|exact Hn].
  - split_and!; [by eapply (rooms_wf_keeps m)|by eapply Hi'|by eapply Hn'].
Qed.

(** C37: in any sequence of transactions that create and delete rooms, change rosters, post and
    delete old posts, in any order with any other transactions, there are at most 64 rooms, each with at
    most 32 active members and 128 membership rows; a member has one row in a room, which
    starts at or below the room's last post; the posts of a room have distinct sequences from
    1 to its head; no delivery outlives its post; and every inbox stays gapless. *)
Theorem room_invariant s s' : rooms_inv s → rtc room_step s s' → rooms_inv s'.
Proof. intros Hi Hs. induction Hs as [|s s1 s' Hstep Hs IH]; [done|]. by eapply IH, room_step_inv. Qed.

(** ** The memberships of a caller *)

Lemma active_row_of_Some room s k ro m : active_row_of room s k = Some (ro, m) →
  room_members s !! ro = Some m ∧ ro.1 = room ∧ rm_member m = k ∧ rm_active m = true.
Proof.
  unfold active_row_of. intros [Hl HP]%head_Some_elem_of%elem_of_select. unfold is_row_of in HP.
  rewrite !andb_true_iff, seqb_true, keqb_true in HP. naive_solver.
Qed.
Lemma active_row_of_None room s k o m : active_row_of room s k = None → room_members s !! (room, o) = Some m → rm_member m = k → rm_active m = false.
Proof.
  unfold active_row_of. intros Hh Hl Hk. destruct (select _ _) as [|x l] eqn:E; [|done]. destruct (rm_active m) eqn:Ea; [|done].
  exfalso. apply (elem_of_nil ((room, o), m)). rewrite <-E. apply elem_of_select. split; [done|]. unfold is_row_of. cbn.
  by rewrite (proj2 (seqb_true _ _) eq_refl), (proj2 (keqb_true _ _) Hk), Ea.
Qed.

(** A current row of one of [keys] in the room, which starts at [start] *)
Definition starts_at (room : string) (s : State) (keys : list Key) (start : Z) : Prop :=
  ∃ o m, room_members s !! (room, o) = Some m ∧ rm_active m = true ∧ rm_member m ∈ keys ∧ rm_start_seq m = start.

Lemma lower_start_spec room s st k : rooms_wf s → -1 ≤ st → let st' := lower_start room s st k in
  -1 ≤ st' ∧ (st' = st ∨ starts_at room s [k] st') ∧ (0 ≤ st → 0 ≤ st' ≤ st) ∧
  ∀ start, starts_at room s [k] start → 0 ≤ st' ≤ start.
Proof.
  intros [Hwf _] Hst. assert (∀ o m, room_members s !! (room, o) = Some m → 0 ≤ rm_start_seq m) as Hpos.
  { intros o m Hl. destruct (rw_member _ Hwf _ _ _ Hl) as (_ & r & _ & ? & _). lia. }
  unfold lower_start. destruct (active_row_of room s k) as [[[room' o] m]|] eqn:E.
  - apply active_row_of_Some in E as (Hl & Hroom & Hk & Ha). cbn in Hroom. subst room'. pose proof (Hpos _ _ Hl) as Hm.
    assert (∀ start, starts_at room s [k] start → start = rm_start_seq m) as Hone.
    { intros start (o' & m' & Hl' & _ & Hk'%list_elem_of_singleton & <-). assert (o' = o) as -> by (eapply rw_unique; [done..|congruence]). congruence. }
    assert (starts_at room s [k] (rm_start_seq m)) as Hs by (exists o, m; split_and!; [done..|by apply list_elem_of_singleton|done]).
    destruct ((st <? 0) || (rm_start_seq m <? st)) eqn:Eb; cbn; (split_and!; [lia|auto|lia|]); intros start ->%Hone; lia.
  - split_and!; [done|by left|lia|]. intros start (o & m & Hl & Ha & Hk%list_elem_of_singleton & _).
    by rewrite (active_row_of_None _ _ _ _ _ E Hl Hk) in Ha.
Qed.

Lemma fold_start room s keys st : rooms_wf s → -1 ≤ st → let start := foldl (lower_start room s) st keys in
  -1 ≤ start ∧ (start = st ∨ starts_at room s keys start) ∧ (0 ≤ st → 0 ≤ start ≤ st) ∧ ∀ q, starts_at room s keys q → 0 ≤ start ≤ q.
Proof.
  intros Hwf. revert st. induction keys as [|k keys IH]; intros st Hst; cbn.
  { split_and!; [done|by left|lia|]. by intros q (? & ? & _ & _ & ?%elem_of_nil & _). }
  destruct (lower_start_spec room s st k Hwf Hst) as (A1 & A2 & A3 & A4). destruct (IH _ A1) as (B1 & B2 & B3 & B4).
  assert (∀ q l, starts_at room s l q → (∀ x, x ∈ l → x ∈ k :: keys) → starts_at room s (k :: keys) q) as Hsub
    by (intros q l (o & m & ? & ? & ? & ?) Hin; exists o, m; naive_solver).
  split_and!; [done| | |].
  - destruct B2 as [->|B2]; [destruct A2 as [->|A2]; [by left|right]|right].
    + eapply Hsub; [done|]. intros x ->%list_elem_of_singleton. by left.
    + eapply Hsub; [done|]. intros x Hx. by right.
  - intros H0. specialize (A3 H0). specialize (B3 ltac:(lia)). lia.
  - intros q (o & m & Hl & Ha & Hin & Hs). apply elem_of_cons in Hin as [Hk|Hin].
    + assert (starts_at room s [k] q) as Hq by (exists o, m; split_and!; [done..|by apply list_elem_of_singleton|done]).
      specialize (A4 _ Hq). specialize (B3 ltac:(lia)). lia.
    + apply B4. exists o, m. by split_and!.
Qed.

(** ** A post and its retries *)

Lemma elem_of_recipients room senders s ro m : (ro, m) ∈ recipients room senders s ↔
  room_members s !! ro = Some m ∧ ro.1 = room ∧ rm_active m = true ∧ rm_member m ∉ senders.
Proof.
  unfold recipients, roster. rewrite list_elem_of_filter, elem_of_order_by, elem_of_select, bool_decide_eq_false. unfold active_in. cbn.
  rewrite andb_true_iff, seqb_true. tauto.
Qed.

Lemma select_ext {K V} `{Countable K} (P Q : K → V → bool) (m : gmap K V) : (∀ k v, m !! k = Some v → P k v = Q k v) → select P m = select Q m.
Proof.
  intros HPQ. unfold select. assert (∀ kv, kv ∈ map_to_list m → P kv.1 kv.2 = Q kv.1 kv.2) as Hl by (intros [k v] Hin%elem_of_map_to_list; by apply HPQ).
  induction (map_to_list m) as [|kv l IH]; [done|]. cbn [filter]. rewrite !filter_cons, (Hl kv) by left.
  rewrite IH by (intros; apply Hl; by right). done.
Qed.

(** A caller that may post to a room now: the maintainer, or an active session with a current row in
    the room *)
Definition may_post (now : Z) (caller : Key) (maintainer : bool) (room : string) (s : State) : Prop :=
  maintainer = false → active now caller s = None ∧ ∃ start, starts_at room s (callerMemberships now caller s) start.
(** A repeat is answered from its record as long as that is kept. *)
Lemma repeat_recorded now caller maintainer room key print s q : rooms_wf s → may_post now caller maintainer room s → room_replays s !! (caller, key) = Some q →
  roomPostRepeat now caller maintainer room key print s =
    (if seqb (ry_fingerprint q) print then Ok ((if maintainer then [] else callerMemberships now caller s, Some ((ry_result q) <| rr_Duplicate := true |>)), s) else Err ErrRoomPostRepeat).
Proof.
  intros Hwf Hp Hq. unfold roomPostRepeat.
  match goal with |- (mbind ?k ?m) s = _ => assert (m s = Ok (if maintainer then [] else callerMemberships now caller s, s)) as H1; [|rewrite (bind_run _ _ _ _ _ H1)] end.
  - destruct maintainer; [done|]. destruct (Hp eq_refl) as (Ha & start & Hs). destruct (fold_start room s (callerMemberships now caller s) (-1) Hwf ltac:(lia)) as (_ & _ & _ & Hge).
    specialize (Hge _ Hs) as [Hge _]. rewrite (bind_run _ _ _ _ _ (proj2 (check_Ok _ _ _) (conj Ha eq_refl))), (bind_run _ _ _ _ _ eq_refl).
    unfold currentMembershipStart, mbind, M_bind, gets, ensure, mret, M_ret. by rewrite (proj2 (Z.leb_le _ _) Hge).
  - rewrite (bind_run _ _ _ _ _ eq_refl). cbn. rewrite Hq. unfold ensure, mbind, M_bind. by destruct (seqb (ry_fingerprint q) print).
Qed.
Lemma repeat_senders now caller maintainer room key print s senders x s' : rooms_wf s → roomPostRepeat now caller maintainer room key print s = Ok ((senders, x), s') →
  senders = (if maintainer then [] else callerMemberships now caller s) ∧ may_post now caller maintainer room s.
Proof.
  intros Hwf Hrep. unfold roomPostRepeat in Hrep. apply bind_Ok in Hrep as (y & s1 & H1 & H2). assert (y = senders) as -> by (run H2; destruct (room_replays s1 !! _); runs H2; done).
  unfold may_post. destruct maintainer; [by run H1|]. apply bind_Ok in H1 as (u & s2 & (Ha & [= -> ->])%check_Ok & H1).
  run H1. split; [done|]. intros _. split; [done|]. unfold currentMembershipStart in R. runs R. apply Z.leb_le in G.
  destruct (fold_start room s (callerMemberships now caller s) (-1) Hwf ltac:(lia)) as (_ & Hor & _). destruct Hor as [E|Hs]; [|eauto]. cbn in E, G. rewrite E in G. lia.
Qed.

Section retries.
Context `{SHA : Sha256}.
Variable format_float : float → string.

End retries.

(** ** Witnesses *)

Definition room_id : string := "0123456789abcdef0123456789abcdef".
Definition any_print (_ : Z) : bool := true.

(** A room whose members are the plain peer [peer_a] and the participant of [holder_h] *)
Definition created : State := after (createRoomTx 11 room_id "form" "ops") small_state.
Definition one_member : State := after (addRoomMemberTx any_print 12 12 room_id "claude-x-0a") created.
Definition staffed : State := after (addRoomMemberTx any_print 13 13 room_id "claude-x-0c") one_member.
Definition post_print : string := @roomPostFingerprint zero_sum (λ _, ""%string) room_id "hello" (of_int 100).
Definition post_a : tx RoomPostResult := roomPostTx 20 20 peer_a false room_id "hello" "k1" post_print (of_int 100).

Lemma small_rooms_inv : rooms_inv small_state.
Proof.
  assert (rooms small_state = ∅ ∧ room_members small_state = ∅ ∧ room_posts small_state = ∅ ∧ room_deliveries small_state = ∅) as (E1 & E2 & E3 & E4)
    by (vm_compute; done).
  split_and!; [split; split| |].
  1-6: rewrite ?E1, ?E2. 7-10: rewrite ?E1, ?E3, ?E4.
  1,5,6: intros; vm_compute; discriminate.
  1-3: intros *; rewrite ?lookup_empty; discriminate.
  1: vm_compute; discriminate.
  1-3: intros *; rewrite ?lookup_empty; discriminate.
  - apply quiet_wf. vm_compute. reflexivity.
  - assert (forallb (λ an, negb (isParticipantID (n_holder_id an.2))) (map_to_list (names small_state)) = true) as H by (vm_compute; reflexivity).
    intros a n Hl. exact (proj1 (negb_true_iff _) (all_rows (λ _ n, negb (isParticipantID (n_holder_id n))) (names small_state) H a n Hl)).
Qed.

Lemma staffing_steps : rtc room_step small_state staffed.
Proof.
  destruct (run_after (createRoomTx 11 room_id "form" "ops") small_state) as [a Ea]; [vm_compute; reflexivity|].
  destruct (run_after (addRoomMemberTx any_print 12 12 room_id "claude-x-0a") created) as [b Eb]; [vm_compute; reflexivity|].
  destruct (run_after (addRoomMemberTx any_print 13 13 room_id "claude-x-0c") one_member) as [c Ec]; [vm_compute; reflexivity|].
  exact (rtc_l _ _ _ _ (step_create _ _ _ _ _ _ _ Ea) (rtc_l _ _ _ _ (step_add _ _ _ _ _ _ _ _ Eb) (rtc_once _ _ (step_add _ _ _ _ _ _ _ _ Ec)))).
Qed.

Lemma room_invariant_witness : count_where (λ _ _, true) (rooms staffed) = 1 ∧ count_where (active_in room_id) (room_members staffed) = 2 ∧ rooms_inv staffed.
Proof.
  split; [vm_compute; reflexivity|]. split; [vm_compute; reflexivity|].
  exact (room_invariant small_state staffed small_rooms_inv staffing_steps).
Defined.

Lemma staffed_inv : rooms_inv staffed.
Proof.
  generalize small_rooms_inv. induction staffing_steps as [|s s1 s' Hs _ IH]; [done|]. intros H. by eapply IH, room_step_inv.
Qed.

(** The other member leaves after the post; then the post is sent again. *)
Definition posted_state : State := after post_a staffed.
Definition later_room : Store := small_store <| tables := after (removeRoomMemberTx any_print 25 25 room_id 2) posted_state |>.
Definition again : result error RoomPostResult * Store :=
  @roomPost zero_sum (λ _, ""%string) (of_int 30) (of_int 1000) 30 30 30 0 None engine_ok peer_a false room_id "hello" "k1" (of_int 100) later_room later_room.
Lemma posted_step : room_step staffed posted_state.
Proof.
  destruct (run_after post_a staffed) as [a E]; [vm_compute; reflexivity|].
  change (roomPostTx 20 20 peer_a false room_id "hello" "k1" post_print (of_int 100) staffed = Ok (a, posted_state)) in E.
  exact (step_post staffed posted_state _ _ _ _ _ _ _ _ _ a E).
Qed.
Lemma left_step : room_step posted_state (tables later_room).
Proof.
  destruct (run_after (removeRoomMemberTx any_print 25 25 room_id 2) posted_state) as [a E]; [vm_compute; reflexivity|].
  exact (step_remove posted_state (tables later_room) _ _ _ _ _ a E).
Qed.
Lemma later_inv : rooms_wf (tables later_room).
Proof. exact (proj1 (room_step_inv _ _ (room_step_inv _ _ staffed_inv posted_step) left_step)). Qed.
