(* ===== verification/TranscriptProps.v ===== *)
(** * Properties of room transcripts

    A page of a room shows every retained post of its range and names every other sequence as
    a gap, and never a post from before the reader's membership. *)

From S2P Require Import Prelude GoString GoFloat Schema Sql Label Fixture Storage Names Messages Inboxes Rooms RoomPosts RoomProps.
Open Scope Z_scope.

(** ** Pages *)

Lemma fill_posts_spec limit rows size count page more : (count ≤ limit)%nat → fill_posts limit size count rows = (page, more) →
  ∃ rest, rows = page ++ rest ∧ (more = false ↔ rest = []) ∧ (length page + count ≤ limit)%nat ∧
    (more = true → (count < limit)%nat → count = 0%nat → page ≠ []).
Proof.
  revert size count page more. induction rows as [|p rows IH]; intros size count page more Hc H; cbn in H.
  { injection H as <- <-. exists []. split_and!; try done; cbn; lia. }
  destruct (bool_decide (count = limit) || _) eqn:E.
  - injection H as <- <-. exists (p :: rows). split_and!; try done; cbn; try lia.
    intros _ Hlt ->. apply orb_true_iff in E as [E%bool_decide_eq_true|E]; [lia|]. done.
  - apply orb_false_iff in E as [E%bool_decide_eq_false _]. destruct (fill_posts _ _ (S count) rows) as [page' more'] eqn:E'.
    injection H as <- <-. apply IH in E' as (rest & -> & Hm & Hl & _); [|lia]. exists rest. split_and!; try done; cbn; lia.
Qed.

(** Sequences that grow from [previous] up to [end_] *)
Fixpoint increasing (previous : Z) (posts : list RoomPost_) (end_ : Z) : Prop :=
  match posts with [] => True | p :: rest => previous < po_Seq p ≤ end_ ∧ increasing (po_Seq p) rest end_ end.
Lemma increasing_above previous posts end_ p : increasing previous posts end_ → p ∈ posts → previous < po_Seq p ≤ end_.
Proof.
  revert previous. induction posts as [|x posts IH]; intros previous; [by intros _ ?%elem_of_nil|]. cbn. intros [Hx Hi] [->|Hin]%elem_of_cons; [done|].
  specialize (IH _ Hi Hin). lia.
Qed.
Lemma sorted_increasing previous posts end_ : StronglySorted (by_Z po_Seq) posts → NoDup (po_Seq <$> posts) →
  (∀ p, p ∈ posts → previous < po_Seq p ≤ end_) → increasing previous posts end_.
Proof.
  revert previous. induction posts as [|p posts IH]; intros previous Hs Hn Hf; cbn; [done|].
  inversion Hs as [|? ? Hs' Hle]; subst. cbn in Hn. apply NoDup_cons in Hn as [Hp Hn]. split; [apply Hf; by left|].
  apply IH; [done..|]. intros p' Hin. rewrite Forall_forall in Hle. specialize (Hle _ Hin). unfold by_Z in Hle.
  assert (po_Seq p ≠ po_Seq p') by (intros E; apply Hp, list_elem_of_fmap; eauto). specialize (Hf p' ltac:(by right)). lia.
Qed.
Lemma increasing_prefix previous page rest end_ : increasing previous (page ++ rest) end_ → increasing previous page end_ ∧
  ∀ p q, p ∈ page → q ∈ rest → po_Seq p < po_Seq q.
Proof.
  revert previous. induction page as [|x page IH]; intros previous; cbn; [split; [done|]; by intros ? ? ?%elem_of_nil|].
  intros [Hx Hi]. destruct (IH _ Hi) as [H1 H2]. split; [done|]. intros p q [->|Hp]%elem_of_cons Hq; [|by apply H2].
  apply (increasing_above _ _ _ q Hi). apply elem_of_app. by right.
Qed.

(** The gaps of a page are the sequences of its range that it does not show. *)
Definition in_gap (q : Z) (g : RoomGap) : Prop := From g ≤ q ≤ To g.
Lemma gaps_above posts previous end_ g : increasing previous posts end_ → g ∈ gaps previous posts end_ → previous < From g ∧ To g ≤ end_.
Proof.
  revert previous. induction posts as [|p posts IH]; intros previous Hi; cbn.
  - destruct (_ <? _); [|by intros ?%elem_of_nil]. intros ->%list_elem_of_singleton. cbn. lia.
  - destruct Hi as [Hp Hi]. intros [Hin|Hin]%elem_of_app; [|destruct (IH _ Hi Hin); lia].
    destruct (_ <? _); [|by apply elem_of_nil in Hin]. apply list_elem_of_singleton in Hin as ->. cbn. lia.
Qed.
Lemma gaps_spec posts previous end_ q : increasing previous posts end_ → previous < q ≤ end_ →
  ((∃ g, g ∈ gaps previous posts end_ ∧ in_gap q g) ↔ q ∉ po_Seq <$> posts).
Proof.
  revert previous. induction posts as [|p posts IH]; intros previous Hi Hq; cbn.
  - destruct (Z.ltb_spec previous end_); [|lia]. split; [intros _; by intros ?%elem_of_nil|].
    intros _. eexists. split; [by left|]. unfold in_gap. cbn. lia.
  - destruct Hi as [Hp Hi]. rewrite not_elem_of_cons. destruct (Z.lt_trichotomy q (po_Seq p)) as [Hlt|[->|Hgt]].
    + split; [|intros _].
      * intros _. split; [lia|]. intros (p' & -> & Hin)%list_elem_of_fmap. destruct (increasing_above _ _ _ _ Hi Hin). lia.
      * exists (mkRoomGap (previous + 1) (po_Seq p - 1)). split; [|unfold in_gap; cbn; lia].
        apply elem_of_app. left. destruct (Z.ltb_spec (previous + 1) (po_Seq p)); [by left|]. lia.
    + split; [|by intros []]. intros (g & [Hin|Hin]%elem_of_app & Hg); unfold in_gap in Hg.
      * destruct (_ <? _); [|by apply elem_of_nil in Hin]. apply list_elem_of_singleton in Hin as ->. cbn in Hg. lia.
      * destruct (gaps_above _ _ _ _ Hi Hin). lia.
    + rewrite <-(IH (po_Seq p) Hi) by lia. split.
      * intros (g & [Hin|Hin]%elem_of_app & Hg); [|split; [lia|eauto]]. exfalso. unfold in_gap in Hg.
        destruct (_ <? _); [|by apply elem_of_nil in Hin]. apply list_elem_of_singleton in Hin as ->. cbn in Hg. lia.
      * intros [_ (g & Hin & Hg)]. exists g. split; [|done]. apply elem_of_app. by right.
Qed.

(** ** The retained posts *)

Lemma elem_of_posts_after room from s p : p ∈ posts_after room from s ↔
  ∃ id row, room_posts s !! id = Some row ∧ rp_room_id row = room ∧ from < rp_seq row ∧ p = shown row.
Proof.
  unfold posts_after. rewrite elem_of_order_by, list_elem_of_fmap. split.
  - intros ([id row] & -> & [Hl HP]%elem_of_select). rewrite andb_true_iff, seqb_true, Z.ltb_lt in HP. exists id, row. naive_solver.
  - intros (id & row & Hl & Hr & Hf & ->). exists (id, row). split; [done|]. apply elem_of_select.
    rewrite andb_true_iff, seqb_true, Z.ltb_lt. done.
Qed.

Lemma posts_after_increasing room from r s : rooms_wf s → rooms s !! room = Some r → increasing from (posts_after room from s) (r_post_head r).
Proof.
  intros [_ [_ Hp Hu _]] Hr. apply sorted_increasing; [apply order_by_sorted| |].
  - unfold posts_after, order_by. rewrite merge_sort_Permutation, <-list_fmap_compose. apply NoDup_fmap_2_strong; [|apply NoDup_select].
    intros [p a] [q b] [Ha HPa]%elem_of_select [Hb HPb]%elem_of_select Hs. cbn in *. rewrite !andb_true_iff, !seqb_true in HPa, HPb.
    assert (p = q) as -> by (eapply Hu; [done..| |done]; destruct HPa, HPb; congruence). congruence.
  - intros p (id & row & Hl & Hroom & Hlt & ->)%elem_of_posts_after. destruct (Hp _ _ Hl) as (_ & r' & Hr' & Hle).
    rewrite Hroom, Hr in Hr'. injection Hr' as <-. cbn. lia.
Qed.

(** ** A page of a transcript *)

Lemma last_increasing previous page end_ p : increasing previous page end_ → last page = Some p →
  p ∈ page ∧ previous < po_Seq p ≤ end_ ∧ ∀ x, x ∈ page → po_Seq x ≤ po_Seq p.
Proof.
  intros Hi Hl. apply last_Some in Hl as (l & ->). assert (p ∈ l ++ [p]) as Hp by (apply elem_of_app; right; by left).
  split_and!; [done|by apply (increasing_above _ _ _ _ Hi)..|]. destruct (increasing_prefix _ _ _ _ Hi) as [_ Hlt].
  intros x [Hx| ->%list_elem_of_singleton]%elem_of_app; [|lia]. specialize (Hlt x p Hx ltac:(by left)). lia.
Qed.
Lemma increasing_tighten previous page end_ end' : increasing previous page end_ → (∀ p, p ∈ page → po_Seq p ≤ end') → increasing previous page end'.
Proof.
  revert previous. induction page as [|x page IH]; intros previous; cbn; [done|]. intros [Hx Hi] Hle. split; [split; [lia|apply Hle; by left]|].
  apply IH; [done|]. intros p Hp. apply Hle. by right.
Qed.

Lemma currentMembershipStart_spec room keys s start s' : rooms_wf s → currentMembershipStart room keys s = Ok (start, s') →
  s' = s ∧ starts_at room s keys start ∧ ∀ q, starts_at room s keys q → start ≤ q.
Proof.
  intros Hwf H. unfold currentMembershipStart in H. run H. apply Z.leb_le in G.
  destruct (fold_start room s keys (-1) Hwf ltac:(lia)) as (_ & B2 & _ & B4). split_and!; [done|destruct B2; [lia|done]|].
  intros q Hq. by apply B4 in Hq as [_ ?].
Qed.

(** What a page of posts after [from] is *)
Definition retained (room : string) (s : State) (q : Z) (p : RoomPost_) : Prop :=
  ∃ id row, room_posts s !! id = Some row ∧ rp_room_id row = room ∧ rp_seq row = q ∧ p = shown row.
Record page_of (room : string) (from : Z) (limit : nat) (s : State) (t : RoomTranscript) (end_ : Z) : Prop := {
  pg_head : ∃ r, rooms s !! room = Some r ∧ t_Head t = r_post_head r;
  pg_end : end_ = default (t_Head t) (t_NextAfter t);
  pg_posts : ∀ p, p ∈ t_Posts t ↔ from < po_Seq p ≤ end_ ∧ retained room s (po_Seq p) p;
  pg_order : increasing from (t_Posts t) end_;
  pg_limit : (length (t_Posts t) ≤ limit)%nat;
  pg_gaps : ∀ q, from < q ≤ end_ → (∃ g, g ∈ t_Gaps t ∧ in_gap q g) ↔ ∀ p, ¬ retained room s q p;
  pg_more : t_More t = true ↔ ∃ q p, end_ < q ∧ from < q ∧ retained room s q p;
  pg_next : t_More t = true → from < end_ ∧ t_NextAfter t = Some end_ }.

Lemma page_posts room from L page rest s r end_ : rooms s !! room = Some r → L = posts_after room from s → increasing from L (r_post_head r) →
  L = page ++ rest → (∀ p, p ∈ page → po_Seq p ≤ end_) → (∀ p, p ∈ rest → end_ < po_Seq p) →
  (∀ p, p ∈ page ↔ from < po_Seq p ≤ end_ ∧ retained room s (po_Seq p) p) ∧ increasing from page end_ ∧
  (∀ q, from < q ≤ end_ → (∃ g, g ∈ gaps from page end_ ∧ in_gap q g) ↔ ∀ p, ¬ retained room s q p) ∧
  (rest ≠ [] ↔ ∃ q p, end_ < q ∧ from < q ∧ retained room s q p).
Proof.
  intros Hr HL Hinc Hsplit Hle Hgt.
  assert (∀ p, p ∈ L ↔ from < po_Seq p ∧ retained room s (po_Seq p) p) as HinL.
  { intros p. rewrite HL, elem_of_posts_after. unfold retained. split; [intros (id & row & ? & ? & ? & ->)|intros (? & id & row & ? & ? & ? & ->)]; [split; [done|]|]; exists id, row; by split_and!. }
  assert (∀ p, p ∈ page ↔ from < po_Seq p ≤ end_ ∧ retained room s (po_Seq p) p) as Hposts.
  { intros p. split.
    - intros Hp. destruct (proj1 (HinL p)) as [? ?]; [rewrite Hsplit; apply elem_of_app; by left|]. split; [|done]. split; [done|by apply Hle].
    - intros [[Hf He] Hret]. assert (p ∈ L) as Hp by (by apply HinL). rewrite Hsplit in Hp. apply elem_of_app in Hp as [Hp|Hp]; [done|]. specialize (Hgt _ Hp). lia. }
  assert (increasing from page end_) as Hpage.
  { rewrite Hsplit in Hinc. apply increasing_prefix in Hinc as [Hi _]. by eapply increasing_tighten. }
  assert (∀ q, from < q ≤ end_ → q ∉ po_Seq <$> page ↔ ∀ p, ¬ retained room s q p) as Hmiss.
  { intros q Hq. split.
    - intros Hn p Hret. apply Hn, list_elem_of_fmap. exists p. assert (po_Seq p = q) as <- by (by destruct Hret as (? & ? & _ & _ & <- & ->)).
      split; [done|]. by apply Hposts.
    - intros Hn (p & -> & Hp)%list_elem_of_fmap. apply Hposts in Hp as [_ Hret]. by apply (Hn p). }
  split_and!; [done|done| |].
  - intros q Hq. rewrite gaps_spec by done. by apply Hmiss.
  - split.
    + intros Hne. destruct rest as [|p rest]; [done|]. exists (po_Seq p), p. specialize (Hgt p ltac:(by left)).
      destruct (proj1 (HinL p)) as [? ?]; [rewrite Hsplit; apply elem_of_app; right; by left|]. by split_and!.
    + intros (q & p & He & Hf & Hret) ->. assert (po_Seq p = q) as <- by (by destruct Hret as (? & ? & _ & _ & <- & ->)).
      assert (p ∈ L) as Hp by (by apply HinL). rewrite Hsplit, app_nil_r in Hp. specialize (Hle _ Hp). lia.
Qed.

Lemma roomTranscript_spec room start from limit s t s' : rooms_wf s → (0 < limit)%nat → roomTranscript room start from limit s = Ok (t, s') →
  s' = s ∧ t_Start t = start ∧ ∃ end_, page_of room from limit s t end_.
Proof.
  intros Hwf Hlim H. unfold roomTranscript in H. apply bind_Ok in H as (r & s2 & (Hr & ->)%roomRow_Ok & H). run H.
  pose proof (posts_after_increasing room from r s Hwf Hr) as Hinc.
  destruct (fill_posts limit 0 0 (take (limit + 1) (posts_after room from s))) as [page more] eqn:Ef. run H.
  set (L := posts_after room from s) in *.
  apply fill_posts_spec in Ef as (rest & Htake & Hmore & Hlen & Hne); [|lia]. rewrite Nat.add_0_r in Hlen. split_and!; [done|done|].
  destruct more.
  - assert (page ≠ []) as Hpage by (by apply Hne). destruct (last page) as [p|] eqn:Elast; [|by apply last_None in Elast].
    assert (rest ≠ []) as Hrest by (intros ->; discriminate (proj2 Hmore eq_refl)).
    assert (L = page ++ (rest ++ drop (limit + 1) L)) as Hsplit by (by rewrite app_assoc, <-Htake, take_drop).
    pose proof Hinc as Hinc2. rewrite Hsplit in Hinc2. apply increasing_prefix in Hinc2 as [Hpi Hlt].
    destruct (last_increasing _ _ _ _ Hpi Elast) as (Hp & Hpl & Hple).
    destruct (page_posts room from L page (rest ++ drop (limit + 1) L) s r (po_Seq p)) as (Q1 & Q2 & Q3 & Q4); [done..|by intros x Hx; apply Hlt|].
    exists (po_Seq p). split; cbn; try done; [eauto| |].
    + split; [|done]. intros _. apply Q4. by destruct rest.
    + intros _. split; [lia|done].
  - assert (rest = []) as -> by (by apply Hmore). rewrite app_nil_r in Htake.
    assert (L = page) as HLp.
    { destruct (decide (length L ≤ limit)%nat); [by rewrite take_ge in Htake by lia|]. apply (f_equal length) in Htake. rewrite length_take in Htake. lia. }
    destruct (page_posts room from L page [] s r (r_post_head r)) as (Q1 & Q2 & Q3 & Q4); [done..|by rewrite app_nil_r| | |].
    { intros p Hp. rewrite <-HLp in Hp. by apply (increasing_above _ _ _ _ Hinc). }
    { by intros p ?%elem_of_nil. }
    exists (r_post_head r). split; cbn; try done; [eauto|]. split; [done|]. intros Hx. by apply Q4 in Hx.
Qed.

(** C39: a page of a room shows exactly the retained posts of its range, in order, and names
    exactly the other sequences of the range as gaps.  The range starts after the requested
    sequence and after the start of the reader's membership, so no post from before it is ever
    shown, and ends at the room's head, or, when more posts are retained, at the last post
    shown, which is where the next page starts. *)
Theorem transcript_complete now caller room after_ limit s t s' :
  rooms_wf s → (0 < limit)%nat → roomReadTx now caller room after_ limit s = Ok (t, s') →
  let keys := callerMemberships now caller s in
  s' = s ∧ starts_at room s keys (t_Start t) ∧ (∀ q, starts_at room s keys q → t_Start t ≤ q) ∧
  ∃ end_, page_of room (Z.max after_ (t_Start t)) limit s t end_.
Proof.
  intros Hwf Hlim H. unfold roomReadTx in H.
  apply bind_Ok in H as (u & s1 & (_ & [= -> ->])%check_Ok & H).
  apply bind_Ok in H as (keys & s2 & Hk & H). apply gets_Ok in Hk as [= -> ->].
  apply bind_Ok in H as (start & s2 & (-> & Hst & Hmin)%currentMembershipStart_spec & H); [|done].
  apply roomTranscript_spec in H as (-> & -> & Hpage); [|done..]. by split_and!.
Qed.

(** ** Witness *)

(** The participant reads the one post of the room of [staffed]. *)
Definition posted_once : State := after post_a staffed.
Lemma posted_once_wf : rooms_wf posted_once.
Proof.
  destruct (run_after post_a staffed) as [receipt E]; [vm_compute; reflexivity|].
  change (roomPostTx 20 20 peer_a false room_id "hello" "k1" post_print (of_int 100) staffed = Ok (receipt, posted_once)) in E.
  exact (proj1 (room_step_inv staffed posted_once staffed_inv (step_post staffed posted_once _ _ _ _ _ _ _ _ _ receipt E))).
Qed.
Definition read_page : tx RoomTranscript := roomReadTx 30 holder_h room_id 0 50.
Lemma transcript_complete_witness : ∃ t, read_page posted_once = Ok (t, posted_once) ∧ t_Start t = 0 ∧ t_More t = false.
Proof.
  destruct (run_after read_page posted_once) as [t E]; [vm_compute; reflexivity|].
  destruct (transcript_complete 30 holder_h room_id 0 50 posted_once t _ posted_once_wf ltac:(lia) E) as (Es & _ & _).
  exists t. split; [rewrite E at 1; rewrite Es; reflexivity|].
  cut (match read_page posted_once with Ok (t, _) => t_Start t = 0 ∧ t_More t = false | Err _ => False end); [rewrite E; exact id|].
  vm_compute. split; reflexivity.
Defined.
