(* ===== verification/Leases.v ===== *)
(** * The advisory lease engine (internal/core/claims.go)

    One engine of leases for the writer of a work item and the resources it claims.  A lease
    is a row of claim_bundles with its resources in claim_resources; the engine runs inside
    the transaction of a work operation (Works).  Times are float64 seconds. *)

From S2P Require Import Prelude GoString GoFloat Schema Sql Label Fixture Storage Names Cycles.
From Stdlib Require Import Floats.SpecFloat.
Open Scope Z_scope.

Definition maxBundles : Z := 16.
Definition maxDaemonBundles : Z := 32.
Definition maxResources : Z := 8.
Definition defaultLease : Z := 900.
Definition minLease : Z := 60.
Definition maxLease : Z := 3600.
Definition max_int64 : Z := 2 ^ 63 - 1.

Definition workError (code : string) : error := WorkRefusal code NoDetails.
(** work.go, [invalid] *)
Definition invalid : error := workError "invalid_request".
Definition ErrIncompatible : error := workError "incompatible_store".

(** ** Validation *)

Definition checkText (value : string) (limit : Z) : bool := negb (seqb value "") && (len value <=? limit) && valid_string value.
Definition checkConsumer (value : string) : bool := checkText value 512 && (rune_count value <=? 128).
Definition checkWorkID (value : string) : bool := (len value =? 32) && forallb is_lower_hex (to_bytes value).

Definition path_part (part : bytes) : bool := negb (bool_decide (part = [] ∨ part = dot ∨ part = dotdot)).
Definition checkResource (r : claimResource) : bool :=
  let '(mkResource kind key) := r in
  (seqb kind "writer" || seqb kind "path" || seqb kind "exact") &&
  checkText key 512 && negb (bool_decide (chr 92 ∈ to_bytes key) || existsb is_control (runes key)) &&
  (if seqb kind "writer" then checkWorkID key
   else if seqb kind "path" && negb (seqb key ".") then forallb path_part (split (to_bytes key)) else true).

(** Two keys overlap by kind and path components: auth overlaps auth/session.go but not
    authorization. *)
Definition overlaps (a b : claimResource) : bool :=
  let '(mkResource ka a) := a in
  let '(mkResource kb b) := b in
  seqb ka kb &&
  (if negb (seqb ka "path") then seqb a b
   else seqb a b || seqb a "." || seqb b "." || has_prefix a (b +:+ "/") || has_prefix b (a +:+ "/")).

(** The writer claim of a work item followed by the optional resources; [None] is a refused
    list. *)
Fixpoint add_resources (result optional : list claimResource) : option (list claimResource) :=
  match optional with
  | [] => Some result
  | r :: optional =>
      if (seqb (Kind r) "path" || seqb (Kind r) "exact") && checkResource r && negb (bool_decide (r ∈ result))
      then add_resources (result ++ [r]) optional
      else None
  end.
Definition claimBundle (workID : string) (optional : list claimResource) : option (list claimResource) :=
  if maxResources <? Z.of_nat (length optional) then None else add_resources [mkResource "writer" workID] optional.

(** ** Rows *)

Definition bundle_of (store workID : string) (sg : string * Z) (b : BundleRow) : bool := seqb sg.1 store && seqb (b_work_id b) workID.
(** [bundleFor]: the retained bundle of a work item with its generation *)
Definition bundleFor (store workID : string) (s : State) : option (Z * BundleRow) :=
  (λ kb, (kb.1.2, kb.2)) <$> head (select (bundle_of store workID) (claim_bundles s)).
Definition bundleResources (store : string) (generation : Z) (s : State) : list claimResource :=
  snd <$> order_by (λ kr, kr.1.2) (select (λ k _, seqb k.1.1 store && (k.1.2 =? generation)) (claim_resources s)).
Definition bundles_of (store : string) (s : State) : list (Z * BundleRow) :=
  (λ kb, (kb.1.2, kb.2)) <$> order_by (λ kb, kb.1.2) (select (λ k _, seqb k.1 store) (claim_bundles s)).

(** memory_stores by its store ID *)
Definition store_row (store : string) (s : State) : option StoreRow :=
  snd <$> head (select (λ _ r, seqb (sto_store_id r) store) (memory_stores s)).
Definition update_store (store : string) (f : StoreRow → StoreRow) : tx unit :=
  modify (λ s, s <| memory_stores := update_where (λ _ r, seqb (sto_store_id r) store) f (memory_stores s) |>).
Definition update_bundle (store : string) (generation : Z) (f : BundleRow → BundleRow) : tx unit :=
  modify (λ s, s <| claim_bundles := alter f (store, generation) (claim_bundles s) |>).

(** [counter]: the next value of a durable counter; it never wraps. *)
Definition counter (get : StoreRow → Z) (set_ : Z → StoreRow → StoreRow) (store : string) : tx Z :=
  o ← gets (store_row store);
  r ← row (o : option StoreRow) NoRows;
  _ ← ensure (get r <? max_int64) (workError "capacity");
  _ ← update_store store (set_ (get r + 1));
  mret (get r + 1).
Definition work_counter : string → tx Z := counter sto_work_counter (λ n r, r <| sto_work_counter := n |>).
Definition claim_counter : string → tx Z := counter sto_claim_counter (λ n r, r <| sto_claim_counter := n |>).

(** ** Acquisition *)

Definition live (now : float) (b : BundleRow) : bool := b_active b && fltb now (b_expires_at b).

(** The first held resource of [held] that overlaps a key *)
Definition conflicting (keys held : list claimResource) : option claimResource :=
  head (filter (λ old, existsb (λ key, overlaps key old) keys = true) held).

(** The scan of the retained bundles of the store, in the order of their generations: a live
    overlapping claim refuses with its holder, and a retained bundle of the item itself
    refuses until maintenance. *)
Fixpoint scan_held (now : float) (workID : string) (keys : list claimResource) (resources : Z → list claimResource) (held : list (Z * BundleRow)) :
    option error :=
  match held with
  | [] => None
  | (g, b) :: held =>
      match (if live now b then conflicting keys (resources g) else None) with
      | Some old => Some (WorkRefusal "claim_conflict" (HeldBy (b_work_id b) (b_consumer b) g (b_expires_at b) (Kind old) (ResourceKey old)))
      | None => if seqb (b_work_id b) workID then Some (workError "claim_capacity") else scan_held now workID keys resources held
      end
  end.

(** SQLite stores a NaN as NULL, which a REAL NOT NULL column refuses. *)
Definition real_not_null (x : float) : bool := negb (bool_decide (x = S754_nan)).

(** [INSERT INTO claim_bundles] and its resources, with their keys unique and the
    column checks *)
Definition insert_bundle (store : string) (generation : Z) (b : BundleRow) : tx unit := λ s,
  if negb ((0 <? generation) && (0 <? b_progress_epoch b) && real_not_null (b_issued_at b) && real_not_null (b_expires_at b)) || bool_decide (is_Some (claim_bundles s !! (store, generation))) || exists_where (bundle_of store (b_work_id b)) (claim_bundles s) then Err Constraint
  else Ok (tt, s <| claim_bundles := <[(store, generation) := b]> (claim_bundles s) |>).
Definition insert_resource (store : string) (generation ordinal : Z) (r : claimResource) : tx unit := λ s,
  if bool_decide (is_Some (claim_resources s !! (store, generation, ordinal))) then Err Constraint
  else Ok (tt, s <| claim_resources := <[(store, generation, ordinal) := r]> (claim_resources s) |>).

Definition acquire (store workID consumer : string) (epoch : Z) (optional : list claimResource) (now : float) (duration : Z) : tx lease :=
  keys ← row (claimBundle workID optional) invalid;
  held ← gets (bundles_of store);
  refused ← gets (λ s, scan_held now workID keys (λ g, bundleResources store g s) held);
  _ ← match (refused : option error) with Some e => throw e | None => mret tt end;
  _ ← ensure (Z.of_nat (length (held : list (Z * BundleRow))) <? maxBundles) (workError "claim_capacity");
  all ← gets (λ s, count_where (λ _ _, true) (claim_bundles s));
  _ ← ensure (all <? maxDaemonBundles) (workError "claim_capacity");
  generation ← claim_counter store;
  let expires := fadd now (of_int duration) in
  _ ← insert_bundle store generation (mkBundleRow workID consumer 1 now now expires epoch false true true true "");
  _ ← each (imap (λ i key, (Z.of_nat i, key)) keys) (λ ik, insert_resource store generation ik.1 ik.2);
  mret (mkLease generation 1 expires).

(** ** The owner's operations *)

(** [owner]: [consumer] holds [generation] of the item live now. *)
Definition owner (store workID consumer : string) (generation : Z) (now : float) : tx BundleRow :=
  o ← gets (λ s, claim_bundles s !! (store, generation));
  b ← row (o : option BundleRow) (workError "stale_claim");
  _ ← ensure (seqb (b_work_id b) workID && seqb (b_consumer b) consumer && b_active b && negb (fleb (b_expires_at b) now)) (workError "stale_claim");
  mret b.

(** An end of a generation spends its credits. *)
Definition end_ (store : string) (generation : Z) : tx unit :=
  update_bundle store generation (λ b, b <| b_active := false |> <| b_overdue_credit := false |> <| b_end_credit := false |>).

(** Progress rearms the overdue obligation for its next epoch. *)
Definition progress (store workID consumer : string) (generation epoch : Z) (now : float) : tx unit :=
  b ← owner store workID consumer generation now;
  _ ← ensure (epoch =? b_progress_epoch b + 1) ErrIncompatible;
  update_bundle store generation (λ b, b <| b_progress_epoch := epoch |> <| b_overdue_recorded := false |> <| b_overdue_credit := true |>).

(** An overdue transition spends its credit. *)
Definition overdue (store : string) (generation epoch : Z) : tx bool :=
  o ← gets (λ s, claim_bundles s !! (store, generation));
  match (o : option BundleRow) with
  | None => mret false
  | Some b =>
      if negb (b_active b) || b_overdue_recorded b then mret false
      else
        _ ← ensure (b_progress_epoch b =? epoch) ErrIncompatible;
        _ ← update_bundle store generation (λ b, b <| b_overdue_credit := false |> <| b_overdue_recorded := true |>);
        mret true
  end.

(** The end of a lapsed generation *)
Definition expire (store : string) (generation : Z) (now : float) : tx bool :=
  o ← gets (λ s, claim_bundles s !! (store, generation));
  match (o : option BundleRow) with
  | None => mret false
  | Some b =>
      if negb (b_active b) || fltb now (b_expires_at b) then mret false
      else _ ← end_ store generation; mret true
  end.

Definition release (store workID consumer : string) (generation : Z) (now : float) : tx unit :=
  _ ← owner store workID consumer generation now;
  end_ store generation.

(** [DELETE] of one bundle with its resources *)
Definition delete_bundle (store : string) (generation : Z) : tx unit := modify (λ s,
  s <| claim_resources := filter (λ kr, seqb kr.1.1.1 store && (kr.1.1.2 =? generation) = false) (claim_resources s) |>
    <| claim_bundles := delete (store, generation) (claim_bundles s) |>).
(** [reclaimOne] deletes the oldest inactive bundle. *)
Definition reclaimOne (store : string) : tx bool :=
  inactive ← gets (λ s, head (filter (λ gb, b_active gb.2 = false) (bundles_of store s)));
  match (inactive : option (Z * BundleRow)) with
  | None => mret false
  | Some (g, b) =>
      _ ← ensure (negb (b_overdue_credit b || b_end_credit b)) ErrIncompatible;
      _ ← delete_bundle store g;
      mret true
  end.

Section renew.
Context `{SHA : Sha256}.

(** context_cycle_claims.go, [cycleProtects]: an unfinished cycle of the session that holds
    the claim protects it. *)
Definition cycleProtects (store : string) (generation : Z) (s : State) : bool :=
  match claim_bundles s !! (store, generation) with
  | Some b => exists_where (λ _ c, (c_FinishedAt c =? 0) && cycleClaimMatch c b &&
                match sessions s !! requester c with
                | Some r => match memory_stores s !! s_repository r with Some m => seqb (sto_store_id m) store | None => false end
                | None => false
                end) (cycles s)
  | None => false
  end.

(** A renewal is not progress; under a protecting cycle it keeps the longer expiry. *)
Definition renew (store workID consumer : string) (generation revision : Z) (now : float) (duration : Z) : tx lease :=
  b ← owner store workID consumer generation now;
  _ ← ensure (b_revision b =? revision) (WorkRefusal "revision_conflict" (CurrentClaimRevision (b_revision b)));
  _ ← ensure (negb (revision =? max_int64)) (workError "capacity");
  protected ← gets (cycleProtects store generation);
  let expires := fadd now (of_int duration) in
  let expires := if protected : bool then fmax expires (b_expires_at b) else expires in
  _ ← ensure (real_not_null now && real_not_null expires) Constraint;
  _ ← update_bundle store generation (λ b, b <| b_revision := revision + 1 |> <| b_renewed_at := now |> <| b_expires_at := expires |>);
  mret (mkLease generation (revision + 1) expires).
End renew.
