(* ===== verification/LeaseProps.v ===== *)
(** * Properties of the leases

    No resource of a store has two live owners at any time, and every retained lease holds
    exactly the credits of the transitions that are still due. *)

From S2P Require Import Prelude GoString GoFloat Schema Sql Label Fixture Storage Names Cycles Leases.
Open Scope Z_scope.

(** ** The invariant *)

(** An active lease owns the credit of its end, and of its overdue transition until that is
    recorded; an ended one owns none. *)
Definition credits_ok (b : BundleRow) : Prop :=
  if b_active b then b_end_credit b = true ∧ b_overdue_credit b = negb (b_overdue_recorded b)
  else b_end_credit b = false ∧ b_overdue_credit b = false.
Definition in_store (store : string) (k : string * Z) (_ : BundleRow) : bool := seqb k.1 store.

Record leases_wf (s : State) : Prop := {
  lw_resource : ∀ store g o r, claim_resources s !! (store, g, o) = Some r → is_Some (claim_bundles s !! (store, g));
  lw_known : ∀ store g b, claim_bundles s !! (store, g) = Some b → 1 ≤ g ∧ is_Some (store_row store s);
  lw_generation : ∀ store g b repo r, claim_bundles s !! (store, g) = Some b → memory_stores s !! repo = Some r →
    sto_store_id r = store → g ≤ sto_claim_counter r;
  lw_unique : ∀ store g g' b b', claim_bundles s !! (store, g) = Some b → claim_bundles s !! (store, g') = Some b' →
    b_work_id b = b_work_id b' → g = g';
  lw_number : ∀ k b, claim_bundles s !! k = Some b → is_number (b_expires_at b);
  lw_credits : ∀ k b, claim_bundles s !! k = Some b → credits_ok b;
  lw_store : ∀ store, count_where (in_store store) (claim_bundles s) ≤ maxBundles;
  lw_all : count_where (λ _ _, true) (claim_bundles s) ≤ maxDaemonBundles }.

Definition holds_resource (now : float) (store : string) (g : Z) (r : claimResource) (s : State) : Prop :=
  ∃ b o, claim_bundles s !! (store, g) = Some b ∧ live now b = true ∧ claim_resources s !! (store, g, o) = Some r.
(** No two leases of a store that are live at [now] hold overlapping resources. *)
Definition exclusive (now : float) (s : State) : Prop := ∀ store g g' r r',
  holds_resource now store g r s → holds_resource now store g' r' s → overlaps r r' = true → g = g'.
Definition leases_inv (now : float) (s : State) : Prop := leases_wf s ∧ exclusive now s.

Lemma store_row_Some store r s : store_row store s = Some r → ∃ repo, memory_stores s !! repo = Some r ∧ sto_store_id r = store.
Proof. unfold store_row. intros ([repo r'] & E & ->)%fmap_Some. apply elem_of_first in E as [Hl Hs]. exists repo. by rewrite seqb_true in Hs. Qed.
Lemma store_row_is_Some store s : is_Some (store_row store s) ↔ ∃ repo r, memory_stores s !! repo = Some r ∧ sto_store_id r = store.
Proof.
  unfold store_row. split.
  - intros [r Hr]. apply store_row_Some in Hr as (repo & ? & ?). eauto.
  - intros (repo & r & Hl & Hs). destruct (head _) as [[repo' r']|] eqn:E; [by eexists|].
    pose proof (first_None _ _ E _ _ Hl) as Hx. cbn in Hx. by rewrite (proj2 (seqb_true _ _) Hs) in Hx.
Qed.

(** What the invariant reads *)
Definition counters (s : State) : gmap string (string * Z) := (λ r, (sto_store_id r, sto_claim_counter r)) <$> memory_stores s.
Definition lease_view (s : State) := (claim_bundles s, claim_resources s, counters s).
Lemma counters_lookup s s' repo r' : counters s' = counters s → memory_stores s' !! repo = Some r' →
  ∃ r, memory_stores s !! repo = Some r ∧ sto_store_id r' = sto_store_id r ∧ sto_claim_counter r' = sto_claim_counter r.
Proof.
  intros E Hl. assert (counters s' !! repo = Some (sto_store_id r', sto_claim_counter r')) as H by (unfold counters; by rewrite lookup_fmap, Hl).
  rewrite E in H. unfold counters in H. rewrite lookup_fmap in H. destruct (memory_stores s !! repo) as [r|]; [|done]. injection H as H1 H2. eauto.
Qed.
Lemma counters_store_row s s' store : counters s' = counters s → is_Some (store_row store s) → is_Some (store_row store s').
Proof.
  rewrite !store_row_is_Some. intros E (repo & r & Hl & Hs). symmetry in E. destruct (counters_lookup _ _ _ _ E Hl) as (r' & Hl' & H1 & _).
  exists repo, r'. split; [done|congruence].
Qed.
Lemma counters_update P (f : StoreRow → StoreRow) s : (∀ r, sto_store_id (f r) = sto_store_id r ∧ sto_claim_counter (f r) = sto_claim_counter r) →
  counters (s <| memory_stores := update_where P f (memory_stores s) |>) = counters s.
Proof.
  intros Hf. unfold counters. cbn. apply map_eq. intros repo. rewrite !lookup_fmap, lookup_update_where. destruct (memory_stores s !! repo) as [r|]; [|done].
  cbn. destruct (P repo r); [|done]. destruct (Hf r) as [-> ->]. done.
Qed.
Lemma leases_inv_view now s s' : lease_view s' = lease_view s → leases_inv now s → leases_inv now s'.
Proof.
  unfold lease_view. intros [= H1 H2 H3] [[A1 A2 A3 A4 An A5 A6 A7] B]. split; [split|]; rewrite ?H1, ?H2; try done.
  - intros store g b Hb. destruct (A2 _ _ _ Hb). split; [done|]. by eapply counters_store_row.
  - intros store g b repo r Hb Hr Hid. destruct (counters_lookup _ _ _ _ H3 Hr) as (r0 & Hr0 & E1 & E2). rewrite E2. eapply A3; [done..|congruence].
  - unfold exclusive, holds_resource. by rewrite H1, H2.
Qed.
Lemma leases_inv_keeps {A} now (m : tx A) : Keeps lease_view m → Maintains (leases_inv now) m.
Proof. apply maintains_keeps, leases_inv_view. Qed.

(** Time only ends leases. *)
Lemma live_later now now' b : fleb now now' = true → live now' b = true → live now b = true.
Proof. unfold live. rewrite !andb_true_iff. intros Ht [? Hl]. split; [done|]. by eapply fle_lt_trans. Qed.
Lemma leases_inv_tick now now' s : fleb now now' = true → leases_inv now s → leases_inv now' s.
Proof.
  intros Ht [Hw He]. split; [done|]. intros store g g' r r' (b & o & Hb & Hl & Hr) (b' & o' & Hb' & Hl' & Hr').
  apply (He store); [exists b, o|exists b', o']; (split_and!; [done|by eapply live_later|done]).
Qed.

(** ** Overlap *)

Lemma overlaps_sym a b : overlaps a b = overlaps b a.
Proof.
  destruct a as [ka a], b as [kb b]. cbn.
  assert (∀ x y, seqb x y = seqb y x) as Hs by (intros; unfold seqb; apply bool_decide_ext; split; congruence).
  rewrite (Hs ka kb). destruct (seqb kb ka) eqn:E; [|done]. apply seqb_true in E as ->. cbn.
  destruct (negb _); [apply Hs|]. rewrite (Hs a b). destruct (seqb b a); [done|]. cbn.
  destruct (seqb a "."), (seqb b "."); try done. cbn. apply orb_comm.
Qed.

(** ** Changes that end or shorten leases *)

Lemma leases_inv_shrink now s s' : memory_stores s' = memory_stores s →
  (∀ k b', claim_bundles s' !! k = Some b' → ∃ b, claim_bundles s !! k = Some b ∧
     b_work_id b' = b_work_id b ∧ (live now b' = true → live now b = true) ∧ (credits_ok b → credits_ok b') ∧
     (is_number (b_expires_at b) → is_number (b_expires_at b'))) →
  (∀ k g o r, claim_resources s' !! (k, g, o) = Some r → claim_resources s !! (k, g, o) = Some r ∧
     (is_Some (claim_bundles s !! (k, g)) → is_Some (claim_bundles s' !! (k, g)))) →
  leases_inv now s → leases_inv now s'.
Proof.
  intros Hm Hb Hr [[A1 A2 A3 A4 An A5 A6 A7] B].
  assert (∀ store, store_row store s' = store_row store s) as Hst by (intros; unfold store_row; by rewrite Hm).
  split; [split|].
  - intros store g o r H. apply Hr in H as [H H']. by eapply H', A1.
  - intros store g b H. destruct (Hb _ _ H) as (b0 & H0 & _). rewrite Hst. by eapply A2.
  - rewrite Hm. intros store g b repo r H. destruct (Hb _ _ H) as (b0 & H0 & _). by eapply A3.
  - intros store g g' b b' H H' E. destruct (Hb _ _ H) as (b0 & H0 & E0 & _), (Hb _ _ H') as (b1 & H1 & E1 & _).
    eapply A4; [done..|]. congruence.
  - intros k b H. destruct (Hb _ _ H) as (b0 & H0 & _ & _ & _ & Hc). by eapply Hc, An.
  - intros k b H. destruct (Hb _ _ H) as (b0 & H0 & _ & _ & Hc & _). by eapply Hc, A5.
  - intros store. etrans; [|apply (A6 store)]. apply count_where_le. intros k b H Hk. destruct (Hb _ _ H) as (b0 & H0 & _). by exists b0.
  - etrans; [|exact A7]. apply count_where_le. intros k b H _. destruct (Hb _ _ H) as (b0 & H0 & _). by exists b0.
  - intros store g g' r r' (b & o & H & Hl & Ho) (b' & o' & H' & Hl' & Ho').
    destruct (Hb _ _ H) as (b0 & H0 & _ & L0 & _), (Hb _ _ H') as (b1 & H1 & _ & L1 & _).
    apply (B store); [exists b0, o|exists b1, o']; (split_and!; [done|auto|by eapply Hr]).
Qed.

Lemma leases_inv_update now store g (f : BundleRow → BundleRow) s :
  (∀ b, claim_bundles s !! (store, g) = Some b → b_work_id (f b) = b_work_id b ∧ (live now (f b) = true → live now b = true) ∧
     (credits_ok b → credits_ok (f b)) ∧ (is_number (b_expires_at b) → is_number (b_expires_at (f b)))) →
  leases_inv now s → leases_inv now (s <| claim_bundles := alter f (store, g) (claim_bundles s) |>).
Proof.
  intros Hf. apply leases_inv_shrink; [done| |].
  - cbn. intros k b'. rewrite lookup_alter. case_decide as E; [subst|by eauto 10].
    intros (b & Hb & ->)%fmap_Some. exists b. split; [done|]. exact (Hf b Hb).
  - cbn. intros k g' o r Hr. split; [done|]. intros [b Hb]. rewrite lookup_alter. case_decide as E; [rewrite E|]; rewrite Hb; by eexists.
Qed.

Lemma maintains_update_bundle now store g (f : BundleRow → BundleRow) :
  (∀ b, b_work_id (f b) = b_work_id b ∧ (live now (f b) = true → live now b = true) ∧ (credits_ok b → credits_ok (f b)) ∧
     (is_number (b_expires_at b) → is_number (b_expires_at (f b)))) →
  Maintains (leases_inv now) (update_bundle store g f).
Proof. intros Hf. apply maintains_modify. intros s. apply leases_inv_update. intros b _. apply Hf. Qed.

Lemma update_bundle_inv now store g (f : BundleRow → BundleRow) s u s' b : claim_bundles s !! (store, g) = Some b →
  b_work_id (f b) = b_work_id b ∧ (live now (f b) = true → live now b = true) ∧ (credits_ok b → credits_ok (f b)) ∧
    (is_number (b_expires_at b) → is_number (b_expires_at (f b))) →
  leases_inv now s → update_bundle store g f s = Ok (u, s') → leases_inv now s'.
Proof. intros Hb Hf Hs H. unfold update_bundle in H. run H. apply leases_inv_update; [|done]. intros b' Hb'. by simplify_eq. Qed.

Lemma end_inv now store g : Maintains (leases_inv now) (end_ store g).
Proof. apply maintains_update_bundle. intros b. by split_and!. Qed.

(** A proved owner *)
Lemma owner_Ok store workID consumer g now s b s' : owner store workID consumer g now s = Ok (b, s') →
  s' = s ∧ claim_bundles s !! (store, g) = Some b ∧ b_work_id b = workID ∧ b_consumer b = consumer ∧ b_active b = true ∧ fleb (b_expires_at b) now = false.
Proof. unfold owner. intros H. run H. rewrite !andb_true_iff, !seqb_true, negb_true_iff in G. naive_solver. Qed.

Lemma release_inv now store workID consumer g : Maintains (leases_inv now) (release store workID consumer g now).
Proof.
  intros s u s' Hs H. unfold release in H. apply bind_Ok in H as (b & s1 & (-> & _)%owner_Ok & H). by eapply end_inv.
Qed.
Lemma expire_inv now store g : Maintains (leases_inv now) (expire store g now).
Proof.
  intros s u s' Hs H. unfold expire in H. run H. destruct (claim_bundles s !! (store, g)) as [b|]; [|by run H].
  destruct (_ || _); [by run H|]. run H. by eapply end_inv.
Qed.
Lemma overdue_inv now store g epoch : Maintains (leases_inv now) (overdue store g epoch).
Proof.
  intros s u s' Hs H. unfold overdue in H. run H. destruct (claim_bundles s !! (store, g)) as [b|] eqn:Eb; [|by run H].
  destruct (negb (b_active b) || b_overdue_recorded b) eqn:Ea; [by run H|]. apply orb_false_iff in Ea as [Ea%negb_false_iff Er]. run H.
  eapply update_bundle_inv; [exact Eb| |exact Hs|exact R]. split_and!; [done|done| |done]. unfold credits_ok. cbn. rewrite Ea. by intros [].
Qed.
Lemma progress_inv now store workID consumer g epoch : Maintains (leases_inv now) (progress store workID consumer g epoch now).
Proof.
  intros s u s' Hs H. unfold progress in H. apply bind_Ok in H as (b & s1 & (-> & Hb & _ & _ & Ha & _)%owner_Ok & H). run H.
  eapply update_bundle_inv; [exact Hb| |exact Hs|exact H]. split_and!; [done|done| |done]. unfold credits_ok. cbn. rewrite Ha. by intros [].
Qed.

(** [DELETE] of one bundle *)
Lemma delete_bundle_inv now store g : Maintains (leases_inv now) (delete_bundle store g).
Proof.
  apply maintains_modify. intros s. apply leases_inv_shrink; [done| |].
  - cbn. intros k b' (_ & Hb)%lookup_delete_Some. eauto 10.
  - cbn. intros k g' o r (Hr & Hk)%map_lookup_filter_Some. split; [done|]. intros [b Hb]. exists b.
    apply lookup_delete_Some. split; [|done]. intros [= <- <-]. cbn in Hk. by rewrite (proj2 (seqb_true _ _) eq_refl), Z.eqb_refl in Hk.
Qed.
Lemma reclaimOne_inv now store : Maintains (leases_inv now) (reclaimOne store).
Proof.
  intros s u s' Hs H. unfold reclaimOne in H. run H. destruct (head _) as [[g b]|]; [|by run H]. run H. by eapply delete_bundle_inv.
Qed.

(** Every inactive lease can be reclaimed: it holds no credits. *)
Lemma elem_of_bundles_of store g b s : (g, b) ∈ bundles_of store s ↔ claim_bundles s !! (store, g) = Some b.
Proof.
  unfold bundles_of. rewrite list_elem_of_fmap. split.
  - intros ([[st g'] b'] & [= -> ->] & Hin%elem_of_order_by%elem_of_select). cbn in *. rewrite seqb_true in Hin. destruct Hin as [Hl ->]. done.
  - intros Hl. exists ((store, g), b). split; [done|]. apply elem_of_order_by, elem_of_select. split; [done|]. by apply seqb_true.
Qed.
Lemma reclaimOne_total now store s : leases_inv now s → ∃ r s', reclaimOne store s = Ok (r, s').
Proof.
  intros [Hw _]. unfold reclaimOne. rewrite (bind_run _ _ _ _ _ eq_refl). destruct (head _) as [[g b]|] eqn:E; [|by eexists _, _].
  assert ((g, b) ∈ filter (λ gb : Z * BundleRow, b_active gb.2 = false) (bundles_of store s)) as Hin.
  { destruct (filter _ _); [done|]. injection E as ->. left. }
  apply list_elem_of_filter in Hin as [Ha Hin%elem_of_bundles_of]. pose proof (lw_credits _ Hw _ _ Hin) as Hc.
  unfold credits_ok in Hc. cbn in Ha. rewrite Ha in Hc. destruct Hc as [H1 H2]. rewrite H1, H2. by eexists _, _.
Qed.

Section renew.
Context `{SHA : Sha256}.

Lemma real_not_null_true x : real_not_null x = true ↔ is_number x.
Proof. unfold real_not_null, is_number. by rewrite negb_true_iff, bool_decide_eq_false. Qed.

Lemma renew_Ok store workID consumer g revision now duration s l s' : leases_wf s →
  renew store workID consumer g revision now duration s = Ok (l, s') →
  ∃ b, claim_bundles s !! (store, g) = Some b ∧ b_work_id b = workID ∧ b_consumer b = consumer ∧ live now b = true ∧ b_revision b = revision ∧
    revision ≠ max_int64 ∧ is_number (le_ExpiresAt l) ∧
    le_ExpiresAt l = (if cycleProtects store g s then fmax (fadd now (of_int duration)) (b_expires_at b) else fadd now (of_int duration)) ∧
    l = mkLease g (revision + 1) (le_ExpiresAt l) ∧
    s' = s <| claim_bundles := alter (λ b, b <| b_revision := revision + 1 |> <| b_renewed_at := now |> <| b_expires_at := le_ExpiresAt l |>)
                                 (store, g) (claim_bundles s) |>.
Proof.
  unfold renew. intros Hwf H. apply bind_Ok in H as (b & s1 & (-> & Hb & Hw & Hc & Ha & He)%owner_Ok & H). run H. unfold update_bundle in R. run R.
  apply andb_true_iff in G1 as [Gn%real_not_null_true Gx%real_not_null_true]. apply Z.eqb_eq in G. apply negb_true_iff, Z.eqb_neq in G0.
  exists b. cbn. split_and!; try done. unfold live. rewrite Ha. rewrite fleb_negb in He by (by eapply lw_number || done). by apply negb_false_iff in He.
Qed.
Lemma renew_inv store workID consumer g revision now duration : Maintains (leases_inv now) (renew store workID consumer g revision now duration).
Proof.
  intros s l s' Hs H. apply renew_Ok in H as (b & Hb & _ & _ & Hl & _ & _ & Hx & _ & _ & ->); [|by apply Hs].
  apply leases_inv_update; [|done]. intros b' Hb'. assert (b' = b) as -> by congruence. by split_and!.
Qed.
End renew.

(** ** Acquisition *)

Lemma scan_held_None now workID keys resources held : scan_held now workID keys resources held = None → ∀ g b, (g, b) ∈ held →
  b_work_id b ≠ workID ∧ (live now b = true → ∀ r key, r ∈ resources g → key ∈ keys → overlaps key r = false).
Proof.
  induction held as [|[g0 b0] held IH]; cbn; intros H g b Hin; [by apply elem_of_nil in Hin|].
  destruct (if live now b0 then _ else None) eqn:E; [done|]. destruct (seqb (b_work_id b0) workID) eqn:Ew; [done|].
  apply elem_of_cons in Hin as [[= -> ->]|Hin]; [|by apply IH]. apply seqb_false in Ew. split; [done|]. intros Hl r key Hr Hk. rewrite Hl in E.
  unfold conflicting in E. destruct (overlaps key r) eqn:Eo; [|done].
  assert (r ∈ filter (λ old, existsb (λ key, overlaps key old) keys = true) (resources g0)) as Hf.
  { apply list_elem_of_filter. split; [|done]. apply existsb_exists. exists key. split; [by apply list_elem_of_In|done]. }
  destruct (filter _ _); [by apply elem_of_nil in Hf|done].
Qed.

Lemma elem_of_bundleResources store g r s : r ∈ bundleResources store g s ↔ ∃ o, claim_resources s !! (store, g, o) = Some r.
Proof.
  unfold bundleResources. rewrite list_elem_of_fmap. split.
  - intros ([[[st g'] o] r'] & -> & Hin%elem_of_order_by%elem_of_select). cbn in *. rewrite andb_true_iff, seqb_true, Z.eqb_eq in Hin.
    destruct Hin as [Hl [-> ->]]. by exists o.
  - intros [o Ho]. exists ((store, g, o), r). split; [done|]. apply elem_of_order_by, elem_of_select. split; [done|]. cbn.
    by rewrite (proj2 (seqb_true _ _) eq_refl), Z.eqb_refl.
Qed.

Lemma counter_Ok get set_ store s n s' : counter get set_ store s = Ok (n, s') →
  ∃ r, store_row store s = Some r ∧ get r < max_int64 ∧ n = get r + 1 ∧
    s' = s <| memory_stores := update_where (λ _ r, seqb (sto_store_id r) store) (set_ (get r + 1)) (memory_stores s) |>.
Proof. unfold counter. intros H. run H. unfold update_store in R. run R. exists v. split_and!; [done|lia|done|done]. Qed.

Lemma insert_bundle_Ok store g b s u s' : insert_bundle store g b s = Ok (u, s') →
  1 ≤ g ∧ 1 ≤ b_progress_epoch b ∧ is_number (b_expires_at b) ∧ claim_bundles s !! (store, g) = None ∧
  (∀ g' b', claim_bundles s !! (store, g') = Some b' → b_work_id b' ≠ b_work_id b) ∧
  s' = s <| claim_bundles := <[(store, g) := b]> (claim_bundles s) |>.
Proof.
  unfold insert_bundle. destruct (_ || _) eqn:E; [done|]. intros [= <-]. apply orb_false_iff in E as [[E1 E2]%orb_false_iff E3].
  apply negb_false_iff in E1. rewrite !andb_true_iff in E1. destruct E1 as [[[Eg Ee] _] E1%real_not_null_true]. apply bool_decide_eq_false, eq_None_not_Some in E2.
  split_and!; [lia|lia|done..| |done]. intros g' b' Hb' Hw. pose proof (proj1 (exists_where_false _ _) E3 _ _ Hb') as Hx. unfold bundle_of in Hx. cbn in Hx.
  rewrite (proj2 (seqb_true _ _) eq_refl), Hw, (proj2 (seqb_true _ _) eq_refl) in Hx. done.
Qed.

(** The resources of a new lease *)
Lemma insert_resources_Ok store g keys (n : nat) s u s' :
  each (imap (λ i key, (Z.of_nat (n + i), key)) keys) (λ ik, insert_resource store g ik.1 ik.2) s = Ok (u, s') →
  ∃ m, s' = s <| claim_resources := m |> ∧ ∀ st g' o, m !! (st, g', o) =
    if decide (st = store ∧ g' = g ∧ Z.of_nat n ≤ o < Z.of_nat (n + length keys)) then keys !! Z.to_nat (o - Z.of_nat n) else claim_resources s !! (st, g', o).
Proof.
  revert n s. induction keys as [|key keys IH]; intros n s H; cbn in H.
  - run H. exists (claim_resources s). split; [by destruct s|]. intros st g' o. rewrite decide_False; [done|]. cbn. lia.
  - run H. unfold insert_resource in R. destruct (bool_decide _); [done|]. injection R as _ <-.
    rewrite (imap_ext _ (λ i key, (Z.of_nat (S n + i), key))) in H by (intros; unfold compose; f_equal; f_equal; lia).
    apply IH in H as (m & -> & Hm). exists m. split; [done|]. intros st g' o. rewrite Hm. cbn. rewrite Nat.add_0_r.
    destruct (decide (st = store ∧ g' = g ∧ o = Z.of_nat n)) as [(-> & -> & ->)|Hne].
    + rewrite decide_False by lia. rewrite decide_True by (split_and!; [done|done|lia|lia]). rewrite lookup_insert_eq, Z.sub_diag. done.
    + rewrite lookup_insert_ne by (intros [= <- <- <-]; tauto).
      destruct (decide (_ ∧ _ ∧ Z.of_nat (S n) ≤ o < _)) as [(-> & -> & Ho)|Hno].
      * rewrite decide_True by (split_and!; [done|done|cbn in *; lia|cbn in *; lia]).
        replace (Z.to_nat (o - Z.of_nat n)) with (S (Z.to_nat (o - Z.of_nat (S n)))) by lia. done.
      * rewrite decide_False; [done|]. intros (-> & -> & Ho). apply Hno. cbn in *. split_and!; [done|done|..]; [|lia].
        assert (o ≠ Z.of_nat n) by naive_solver. lia.
Qed.

(** A state with other leases, their resources and the counters *)
Record acquired (store workID consumer : string) (epoch : Z) (keys : list claimResource) (now : float) (duration : Z) (l : lease) (s s' : State) : Prop := {
  aq_counter : ∃ r, store_row store s = Some r ∧ le_Generation l = sto_claim_counter r + 1 ∧
    memory_stores s' = update_where (λ _ r, seqb (sto_store_id r) store) (λ r, r <| sto_claim_counter := le_Generation l |>) (memory_stores s);
  aq_lease : l = mkLease (le_Generation l) 1 (fadd now (of_int duration));
  aq_positive : 1 ≤ le_Generation l ∧ 1 ≤ epoch;
  aq_number : is_number (le_ExpiresAt l);
  aq_fresh : claim_bundles s !! (store, le_Generation l) = None;
  aq_bundle : claim_bundles s' = <[(store, le_Generation l) := mkBundleRow workID consumer 1 now now (le_ExpiresAt l) epoch false true true true ""]> (claim_bundles s);
  aq_resources : ∀ st g o, claim_resources s' !! (st, g, o) =
    if decide (st = store ∧ g = le_Generation l ∧ 0 ≤ o < Z.of_nat (length keys)) then keys !! Z.to_nat o else claim_resources s !! (st, g, o);
  aq_free : ∀ g b, claim_bundles s !! (store, g) = Some b →
    b_work_id b ≠ workID ∧ (live now b = true → ∀ r key, r ∈ bundleResources store g s → key ∈ keys → overlaps key r = false);
  aq_store : Z.of_nat (length (bundles_of store s)) < maxBundles;
  aq_all : count_where (λ _ _, true) (claim_bundles s) < maxDaemonBundles;
  aq_rest : s' = s <| memory_stores := memory_stores s' |> <| claim_bundles := claim_bundles s' |> <| claim_resources := claim_resources s' |> }.

Lemma acquire_Ok store workID consumer epoch optional now duration s l s' :
  acquire store workID consumer epoch optional now duration s = Ok (l, s') →
  ∃ keys, claimBundle workID optional = Some keys ∧ acquired store workID consumer epoch keys now duration l s s'.
Proof.
  unfold acquire. intros H. apply bind_Ok in H as (keys & s1 & H0 & H). apply row_Ok in H0 as (keys' & Hk & [= -> ->]). exists keys'. split; [done|].
  apply bind_Ok in H as (held & s1 & [= -> ->]%gets_Ok & H). apply bind_Ok in H as (refused & s1 & [= -> ->]%gets_Ok & H).
  destruct (scan_held _ _ _ _ _) as [e|] eqn:Es; [by run H|]. run H. unfold claim_counter in *.
  apply counter_Ok in R as (r & Hr & _ & -> & ->). apply insert_bundle_Ok in R0 as (Hg & He & Hx & Hf & Hu & ->).
  apply (insert_resources_Ok _ _ _ 0) in R1 as (m & -> & Hm). cbn [b_expires_at claim_bundles] in *.
  split; cbn [le_Generation le_ExpiresAt].
  - eauto.
  - done.
  - done.
  - exact Hx.
  - exact Hf.
  - done.
  - intros st g o. cbn. rewrite Hm. rewrite Z.sub_0_r. done.
  - intros g b Hb. apply (scan_held_None _ _ _ _ _ Es). by apply elem_of_bundles_of.
  - lia.
  - lia.
  - done.
Qed.

Lemma length_bundles_of store s : Z.of_nat (length (bundles_of store s)) = count_where (in_store store) (claim_bundles s).
Proof. unfold bundles_of. by rewrite length_fmap, length_order_by. Qed.
Lemma store_row_update P (f : StoreRow → StoreRow) store s : (∀ r, sto_store_id (f r) = sto_store_id r) →
  is_Some (store_row store (s <| memory_stores := update_where P f (memory_stores s) |>)) ↔ is_Some (store_row store s).
Proof.
  intros Hf. rewrite !store_row_is_Some. cbn. split; intros (repo & r & Hl & Hs).
  - apply lookup_update_where_Some in Hl as (r' & Hl & ->). exists repo, r'. split; [done|]. rewrite <-Hs. destruct (P repo r'); [by rewrite Hf|done].
  - exists repo, (if P repo r then f r else r). split; [by rewrite lookup_update_where, Hl|]. destruct (P repo r); [by rewrite Hf|done].
Qed.

Lemma acquired_inv store workID consumer epoch keys now duration l s s' :
  acquired store workID consumer epoch keys now duration l s s' → leases_inv now s → leases_inv now s'.
Proof.
  intros [(r0 & Hr0 & Hg & Hm) _ [Hg1 _] Hx Hf Hb Hr Hfree Hst Hall _] [[A1 A2 A3 A4 An A5 A6 A7] B]. set (g := le_Generation l) in *.
  rewrite length_bundles_of in Hst. destruct (store_row_Some _ _ _ Hr0) as (repo0 & Hrepo0 & Hid0).
  assert (∀ st, is_Some (store_row st s') ↔ is_Some (store_row st s)) as Hrow.
  { intros st. rewrite <-(store_row_update (λ _ r, seqb (sto_store_id r) store) (λ r, r <| sto_claim_counter := g |>) st s) by done.
    unfold store_row. rewrite Hm. reflexivity. }
  split; [split|].
  - intros st g' o r. rewrite Hr, Hb. case_decide as Hd; [destruct Hd as (-> & -> & _); intros _; rewrite lookup_insert_eq; by eexists|].
    intros [b Hb']%A1. destruct (decide ((st, g') = (store, g))) as [->|]; [rewrite lookup_insert_eq; by eexists|].
    rewrite lookup_insert_ne by done. by eexists.
  - intros st g' b. rewrite Hb. rewrite lookup_insert_Some. rewrite Hrow. intros [[[= <- <-] _]|[_ Hl]]; [|by eapply A2].
    split; [done|by eexists].
  - intros st g' b repo r. rewrite Hb, Hm. intros [[[= <- <-] _]|[Hne Hl]]%lookup_insert_Some (r' & Hr' & ->)%lookup_update_where_Some Hid.
    + rewrite (proj2 (seqb_true _ _)) by (destruct (seqb (sto_store_id r') store); exact Hid). cbn. lia.
    + destruct (seqb (sto_store_id r') store) eqn:E; [|by eapply A3]. apply seqb_true in E. cbn in Hid. rewrite Hid in E. subst st.
      pose proof (A3 _ _ _ _ _ Hl Hrepo0 Hid0). cbn. lia.
  - intros st g1 g2 b1 b2. rewrite Hb. intros [[[= <- <-] <-]|[Hn1 H1]]%lookup_insert_Some [[[= <-] <-]|[Hn2 H2]]%lookup_insert_Some; cbn.
    + done.
    + intros E. destruct (Hfree _ _ H2) as [Hw _]. congruence.
    + intros E. destruct (Hfree _ _ H1) as [Hw _]. congruence.
    + by eapply A4.
  - intros k b. rewrite Hb. intros [[_ <-]|[_ Hl]]%lookup_insert_Some; [done|by eapply An].
  - intros k b. rewrite Hb. intros [[_ <-]|[_ Hl]]%lookup_insert_Some; [done|by eapply A5].
  - intros st. rewrite Hb, count_where_fresh by done. unfold in_store at 1. cbn. destruct (seqb store st) eqn:E; [|apply (A6 st)].
    apply seqb_true in E as <-. lia.
  - rewrite Hb, count_where_fresh by done. lia.
  - assert (∀ st g' r, holds_resource now st g' r s' → (st = store ∧ g' = g ∧ r ∈ keys) ∨ (holds_resource now st g' r s ∧ (st, g') ≠ (store, g))) as Hh.
    { intros st g' r (b & o & Hb' & Hl & Ho). rewrite Hr in Ho. rewrite Hb in Hb'. case_decide as Hd.
      - destruct Hd as (-> & -> & _). left. split_and!; [done..|]. by eapply list_elem_of_lookup_2.
      - right. apply lookup_insert_Some in Hb' as [[[= <- <-] _]|[Hne Hb']]; [|split; [by exists b, o|congruence]].
        exfalso. destruct (A1 _ _ _ _ Ho) as [b' Hb'']. congruence. }
    intros st g1 g2 r1 r2 [(-> & -> & Hk1)|[H1 Hn1]]%Hh [(Es & -> & Hk2)|[H2 Hn2]]%Hh Ho; try done.
    + destruct H2 as (b & o & Hb' & Hl & Hres). destruct (Hfree _ _ Hb') as [_ Hno]. exfalso.
      rewrite (Hno Hl r2 r1) in Ho; [done|by apply elem_of_bundleResources; exists o|done].
    + subst st. destruct H1 as (b & o & Hb' & Hl & Hres). destruct (Hfree _ _ Hb') as [_ Hno]. exfalso.
      rewrite overlaps_sym, (Hno Hl r1 r2) in Ho; [done|by apply elem_of_bundleResources; exists o|done].
    + by eapply B.
Qed.
Lemma acquire_inv store workID consumer epoch optional now duration : Maintains (leases_inv now) (acquire store workID consumer epoch optional now duration).
Proof. intros s l s' Hs (keys & _ & Ha)%acquire_Ok. by eapply acquired_inv. Qed.

(** ** A cycle's protection *)

Section protect.
Context `{SHA : Sha256}.

(** The admission of a cycle reads its clock before it waits for the transaction: it protects
    the claims that are live at that earlier time. *)
Lemma protect_inv now ms id c repository s u s' : protectCycleClaims ms id c repository s = Ok (u, s') →
  (∀ k b, claim_bundles s !! k = Some b → fltb (fdiv (of_int ms) (of_int 1000)) (b_expires_at b) = true → fltb now (b_expires_at b) = true) →
  leases_inv now s → leases_inv now s'.
Proof.
  unfold protectCycleClaims. intros H Hclock Hs. destruct (seqb repository ""); [by run H|]. run H. destruct (seqb _ ""); [by run H|]. run H.
  apply (leases_inv_shrink now s); [done| | |exact Hs]; cbn [claim_bundles claim_resources].
  - intros k b' (b & Hb & ->)%lookup_update_where_Some. exists b. split; [done|]. destruct (_ && _) eqn:E; [|done]. cbn.
    rewrite !andb_true_iff in E. destruct E as [[[[_ Ea] El] Ef] _]. split_and!; [done| |done|].
    + intros _. unfold live. rewrite Ea. by eapply Hclock.
    + intros _. exact (proj2 (fltb_number _ _ Ef)).
  - intros st g o r Hr. split; [done|]. intros [b Hb]. cbn. rewrite lookup_update_where, Hb. by eexists.
Qed.
End protect.

(** *** Which acquisitions succeed *)

Definition overlapped (now : float) (store : string) (keys : list claimResource) (s : State) (g : Z) (b : BundleRow) (old : claimResource) : Prop :=
  claim_bundles s !! (store, g) = Some b ∧ live now b = true ∧ old ∈ bundleResources store g s ∧ ∃ key, key ∈ keys ∧ overlaps key old = true.

Lemma conflicting_Some keys held old : conflicting keys held = Some old → old ∈ held ∧ ∃ key, key ∈ keys ∧ overlaps key old = true.
Proof.
  unfold conflicting. intros E. assert (old ∈ filter (λ old, existsb (λ key, overlaps key old) keys = true) held) as Hin.
  { destruct (filter _ _); [done|]. injection E as ->. left. }
  apply list_elem_of_filter in Hin as [(key & Hk%list_elem_of_In & Ho)%existsb_exists Hin]. eauto.
Qed.
Lemma conflicting_None keys held : (∀ old key, old ∈ held → key ∈ keys → overlaps key old = false) → conflicting keys held = None.
Proof.
  intros Hno. destruct (conflicting keys held) as [old|] eqn:E; [|done]. apply conflicting_Some in E as (Hin & key & Hk & Ho).
  by rewrite (Hno _ _ Hin Hk) in Ho.
Qed.
Lemma scan_held_Some now workID keys resources held e : scan_held now workID keys resources held = Some e →
  (∃ g b old, (g, b) ∈ held ∧ live now b = true ∧ old ∈ resources g ∧ (∃ key, key ∈ keys ∧ overlaps key old = true) ∧
     e = WorkRefusal "claim_conflict" (HeldBy (b_work_id b) (b_consumer b) g (b_expires_at b) (Kind old) (ResourceKey old))) ∨
  (∃ g b, (g, b) ∈ held ∧ b_work_id b = workID ∧ e = workError "claim_capacity").
Proof.
  induction held as [|[g b] held IH]; [done|]. cbn. destruct (if live now b then _ else None) as [old|] eqn:E.
  - intros [= <-]. destruct (live now b) eqn:El; [|done]. apply conflicting_Some in E as [Hin Hk]. left. exists g, b, old.
    split_and!; [left|done..].
  - destruct (seqb (b_work_id b) workID) eqn:Ew.
    + intros [= <-]. apply seqb_true in Ew. right. exists g, b. split; [left|done].
    + intros [(g' & b' & old & Hin & H)|(g' & b' & Hin & H)]%IH; [left; exists g', b', old|right; exists g', b']; (split; [by right|done]).
Qed.
Lemma scan_held_free now workID keys resources held : (∀ g b, (g, b) ∈ held → b_work_id b ≠ workID ∧
    (live now b = true → ∀ r key, r ∈ resources g → key ∈ keys → overlaps key r = false)) →
  scan_held now workID keys resources held = None.
Proof.
  intros Hf. destruct (scan_held _ _ _ _ _) as [e|] eqn:E; [|done]. apply scan_held_Some in E as [(g & b & old & Hin & Hl & Ho & (key & Hk & Hx) & _)|(g & b & Hin & Hw & _)].
  - destruct (Hf _ _ Hin) as [_ Hno]. by rewrite (Hno Hl _ _ Ho Hk) in Hx.
  - by destruct (Hf _ _ Hin).
Qed.

Lemma insert_resources_total store g keys (n : nat) s : (∀ o, Z.of_nat n ≤ o → claim_resources s !! (store, g, o) = None) →
  ∃ s', each (imap (λ i key, (Z.of_nat (n + i), key)) keys) (λ ik, insert_resource store g ik.1 ik.2) s = Ok (tt, s').
Proof.
  revert n s. induction keys as [|key keys IH]; intros n s Hn; [by eexists|]. cbn. unfold mbind, M_bind, insert_resource at 1.
  rewrite Nat.add_0_r, (Hn (Z.of_nat n)) by lia. rewrite bool_decide_eq_false_2 by (by intros [? ?]).
  rewrite (imap_ext _ (λ i key, (Z.of_nat (S n + i), key))) by (intros; unfold compose; f_equal; f_equal; lia). apply IH.
  intros o Ho. cbn. rewrite lookup_insert_ne by (intros [= <-]; lia). apply Hn. lia.
Qed.

Lemma claimBundle_writer workID optional keys : claimBundle workID optional = Some keys → mkResource "writer" workID ∈ keys.
Proof.
  unfold claimBundle. destruct (_ <? _); [done|]. assert (mkResource "writer" workID ∈ [mkResource "writer" workID]) as Hin by left.
  revert Hin. generalize [mkResource "writer" workID]. induction optional as [|x optional IH]; cbn; intros result Hin H0; [by simplify_eq|].
  destruct (_ && _); [|done]. eapply IH; [|exact H0]. apply elem_of_app. by left.
Qed.

Section acquire.
Variables (store workID consumer : string) (epoch duration : Z) (optional keys : list claimResource) (now : float) (s : State) (sr : StoreRow).

(** The room that an acquisition needs besides its resources: places for a bundle in the store and
    in the daemon, and a next generation *)
Definition room_for_lease : Prop :=
  count_where (in_store store) (claim_bundles s) < maxBundles ∧ count_where (λ _ _, true) (claim_bundles s) < maxDaemonBundles ∧
  0 ≤ sto_claim_counter sr < max_int64.

Lemma acquire_total : leases_inv now s → claimBundle workID optional = Some keys → store_row store s = Some sr → room_for_lease →
  1 ≤ epoch → is_number now → is_number (fadd now (of_int duration)) →
  (∀ g b, claim_bundles s !! (store, g) = Some b → b_work_id b ≠ workID) →
  (∀ g b old, ¬ overlapped now store keys s g b old) →
  ∃ l s', acquire store workID consumer epoch optional now duration s = Ok (l, s').
Proof.
  intros [Hwf _] Hk Hr (Hroom & Hall & Hc) He Hn Hx Hw Hno. unfold acquire.
  assert (∀ g b, (g, b) ∈ bundles_of store s → b_work_id b ≠ workID ∧
    (live now b = true → ∀ old key, old ∈ bundleResources store g s → key ∈ keys → overlaps key old = false)) as Hfree.
  { intros g b Hb%elem_of_bundles_of. split; [by eapply Hw|]. intros Hl old key Ho Hkey. apply not_true_iff_false. intros Hov. apply (Hno g b old). split_and!; eauto. }
  rewrite (bind_run _ _ _ keys s) by (by unfold row; rewrite Hk). rewrite (bind_run _ _ _ _ _ eq_refl). rewrite (bind_run _ _ _ _ _ eq_refl).
  rewrite (scan_held_free _ _ _ _ _ Hfree). rewrite (bind_run _ _ _ _ _ eq_refl). rewrite length_bundles_of.
  rewrite (bind_run _ _ _ tt s) by (unfold ensure; by rewrite (proj2 (Z.ltb_lt _ _) Hroom)). rewrite (bind_run _ _ _ _ _ eq_refl).
  rewrite (bind_run _ _ _ tt s) by (unfold ensure; by rewrite (proj2 (Z.ltb_lt _ _) Hall)).
  set (s1 := s <| memory_stores := update_where (λ _ r, seqb (sto_store_id r) store) (λ x, x <| sto_claim_counter := sto_claim_counter sr + 1 |>) (memory_stores s) |>).
  rewrite (bind_run _ _ _ (sto_claim_counter sr + 1) s1).
  2:{ unfold claim_counter, counter. rewrite (bind_run _ _ _ _ _ eq_refl), Hr. rewrite (bind_run _ _ _ _ _ eq_refl).
      rewrite (bind_run _ _ _ tt s) by (unfold ensure; by rewrite (proj2 (Z.ltb_lt _ _) (proj2 Hc))). done. }
  set (g := sto_claim_counter sr + 1). destruct (store_row_Some _ _ _ Hr) as (repo & Hrepo & Hid).
  assert (claim_bundles s !! (store, g) = None) as Hf.
  { destruct (claim_bundles s !! (store, g)) as [b|] eqn:E; [|done]. pose proof (lw_generation _ Hwf _ _ _ _ _ E Hrepo Hid). lia. }
  cbv zeta. set (b := mkBundleRow _ _ _ _ _ _ _ _ _ _ _ _).
  rewrite (bind_run _ _ _ tt (s1 <| claim_bundles := <[(store, g) := b]> (claim_bundles s1) |>)).
  - destruct (insert_resources_total store g keys 0 (s1 <| claim_bundles := <[(store, g) := b]> (claim_bundles s1) |>)) as [s2 Hs2].
    + intros o _. cbn. destruct (claim_resources s !! (store, g, o)) eqn:E; [|done]. apply (lw_resource _ Hwf) in E as [b' E]. congruence.
    + rewrite (bind_run _ _ _ _ _ Hs2). by eexists _, _.
  - unfold insert_bundle. change (claim_bundles s1) with (claim_bundles s). rewrite Hf. rewrite (bool_decide_eq_false_2 (is_Some None)) by (by intros [? ?]).
    rewrite (proj2 (real_not_null_true (b_issued_at b)) Hn), (proj2 (real_not_null_true (b_expires_at b)) Hx).
    assert ((0 <? g) && (0 <? b_progress_epoch b) = true) as -> by (cbn; lia).
    rewrite (proj2 (exists_where_false _ _)); [done|]. intros [st g'] b' Hb'. unfold bundle_of. cbn. destruct (seqb st store) eqn:E; [|done].
    apply seqb_true in E as ->. cbn. apply seqb_false. by eapply Hw.
Qed.

(** a lease is granted exactly when no live lease of the store holds an overlapping
    resource and the item has no retained lease: it is then a fresh generation with the writer
    claim and every requested resource, and no other lease changes; a refusal for a conflict names a live
    holder and the resource of it that overlaps. *)
Theorem acquire_spec : leases_inv now s → store_row store s = Some sr → room_for_lease → claimBundle workID optional = Some keys →
  1 ≤ epoch → is_number now → is_number (fadd now (of_int duration)) →
  ((∃ l s', acquire store workID consumer epoch optional now duration s = Ok (l, s')) ↔
     (∀ g b, claim_bundles s !! (store, g) = Some b → b_work_id b ≠ workID) ∧ ∀ g b old, ¬ overlapped now store keys s g b old) ∧
  (∀ l s', acquire store workID consumer epoch optional now duration s = Ok (l, s') →
     le_Generation l = sto_claim_counter sr + 1 ∧ claim_bundles s !! (store, le_Generation l) = None ∧
     claim_bundles s' = <[(store, le_Generation l) := mkBundleRow workID consumer 1 now now (le_ExpiresAt l) epoch false true true true ""]> (claim_bundles s) ∧
     (∀ key, key ∈ bundleResources store (le_Generation l) s' ↔ key ∈ keys) ∧ mkResource "writer" workID ∈ keys) ∧
  (∀ d, acquire store workID consumer epoch optional now duration s = Err (WorkRefusal "claim_conflict" d) →
     ∃ g b old, overlapped now store keys s g b old ∧ d = HeldBy (b_work_id b) (b_consumer b) g (b_expires_at b) (Kind old) (ResourceKey old)).
Proof.
  intros Hs Hr Hroom Hk He Hn Hx. split_and!.
  - split.
    + intros (l & s' & (keys' & Hk' & Ha)%acquire_Ok). assert (keys' = keys) as -> by congruence. split; [intros g b Hb; by apply (aq_free _ _ _ _ _ _ _ _ _ _ Ha _ _ Hb)|].
      intros g b old (Hb & Hl & Ho & key & Hkey & Hov). destruct (aq_free _ _ _ _ _ _ _ _ _ _ Ha _ _ Hb) as [_ Hno]. by rewrite (Hno Hl _ _ Ho Hkey) in Hov.
    + intros [Hw Hno]. by eapply acquire_total.
  - intros l s' (keys' & Hk' & Ha)%acquire_Ok. assert (keys' = keys) as -> by congruence.
    destruct (aq_counter _ _ _ _ _ _ _ _ _ _ Ha) as (r' & Hr' & Hg & _). assert (r' = sr) as -> by congruence.
    split_and!; [done|by eapply aq_fresh|by eapply aq_bundle| |by eapply claimBundle_writer].
    intros key. rewrite elem_of_bundleResources. setoid_rewrite (aq_resources _ _ _ _ _ _ _ _ _ _ Ha). split.
    + intros [o Ho]. case_decide; [by eapply list_elem_of_lookup_2|]. destruct Hs as [Hwf _]. apply (lw_resource _ Hwf) in Ho as [b Hb].
      pose proof (aq_fresh _ _ _ _ _ _ _ _ _ _ Ha). congruence.
    + intros [i Hi]%list_elem_of_lookup_1. exists (Z.of_nat i). apply lookup_lt_Some in Hi as Hlt. rewrite decide_True by (split_and!; [done|done|lia|lia]).
      by rewrite Nat2Z.id.
  - intros d H. pose proof H as H0. unfold acquire in H. rewrite (bind_run _ _ _ keys s) in H by (by unfold row; rewrite Hk).
    do 2 rewrite (bind_run _ _ _ _ _ eq_refl) in H. destruct (scan_held _ _ _ _ _) as [e|] eqn:E.
    + cbn in H. injection H as ->. apply scan_held_Some in E as [(g & b & old & Hb%elem_of_bundles_of & Hl & Ho & Hkey & [= ->])|(g & b & _ & _ & E)]; [|done].
      exists g, b, old. by split_and!.
    + pose proof (scan_held_None _ _ _ _ _ E) as Hf. destruct acquire_total as (l & s' & E'); try done; [..|congruence].
      * intros g b Hb. by apply (Hf g b), elem_of_bundles_of.
      * intros g b old (Hb & Hl & Ho & key & Hkey & Hov). destruct (Hf g b) as [_ Hno]; [by apply elem_of_bundles_of|]. by rewrite (Hno Hl _ _ Ho Hkey) in Hov.
Qed.
End acquire.

(** ** When two claimed resources overlap

    A path covers everything below it, component by component; any other resource covers itself
    alone. *)

(** ** The components of a path *)

Lemma is_slash_true a : is_slash a = true ↔ a = slash.
Proof. apply bool_decide_eq_true. Qed.
Lemma split_nonempty b : split b ≠ [].
Proof. destruct b as [|a b]; cbn; [done|]. destruct (is_slash a); [done|]. by destruct (split b). Qed.
Lemma split_slash b c : split (b ++ slash :: c) = split b ++ split c.
Proof.
  induction b as [|a b IH]; cbn [app split]; [by rewrite (proj2 (is_slash_true slash) eq_refl)|]. rewrite IH.
  destruct (is_slash a); [done|]. destruct (split b) as [|x l] eqn:E; [by destruct (split_nonempty b)|done].
Qed.
Fixpoint join_slash (l : list bytes) : bytes :=
  match l with [] => [] | [x] => x | x :: l => x ++ slash :: join_slash l end.
Lemma join_cons x l : l ≠ [] → join_slash (x :: l) = x ++ slash :: join_slash l.
Proof. by destruct l. Qed.
Lemma join_app k l : k ≠ [] → l ≠ [] → join_slash (k ++ l) = join_slash k ++ slash :: join_slash l.
Proof.
  intros Hk Hl. induction k as [|x k IH]; [done|]. destruct k as [|y k]; [cbn [app]; by rewrite (join_cons x l)|].
  change ((x :: y :: k) ++ l) with (x :: (y :: k) ++ l). rewrite !join_cons, IH by done. by rewrite <-app_assoc.
Qed.
Lemma join_split b : join_slash (split b) = b.
Proof.
  induction b as [|a b IH]; [done|]. cbn. destruct (is_slash a) eqn:E.
  - apply is_slash_true in E as ->. rewrite join_cons by apply split_nonempty. by rewrite IH.
  - destruct (split b) as [|x l] eqn:Es; [by destruct (split_nonempty b)|]. rewrite <-IH. destruct l; done.
Qed.
Lemma split_prefix a b : split b `prefix_of` split a ↔ a = b ∨ ∃ c, a = b ++ slash :: c.
Proof.
  split.
  - intros [l E]. rewrite <-(join_split a), <-(join_split b), E. destruct l as [|x l]; [left; by rewrite app_nil_r|right].
    exists (join_slash (x :: l)). apply join_app; [apply split_nonempty|done].
  - intros [->|[c ->]]; [done|]. rewrite split_slash. by apply prefix_app_r.
Qed.
Lemma has_prefix_bytes a b : has_prefix a b = true ↔ ∃ c, to_bytes a = to_bytes b ++ c.
Proof.
  unfold has_prefix. split.
  - intros [t ->]%prefix_split. exists (to_bytes t). by rewrite to_bytes_app.
  - intros [c E]. assert (a = b +:+ of_bytes c) as ->; [|apply prefix_app].
    rewrite <-(of_to_bytes a), E. rewrite <-(of_to_bytes (b +:+ of_bytes c)). f_equal. by rewrite to_bytes_app, to_of_bytes.
Qed.

(** ** Overlap *)

(** The components of a path; the root of the repository, a dot, has none. *)
Definition components (key : string) : list bytes := if seqb key "." then [] else split (to_bytes key).
(** Everything that a resource names: a path and all below it, or the thing itself *)
Definition covers (a b : claimResource) : Prop :=
  Kind a = Kind b ∧ if seqb (Kind a) "path" then components (ResourceKey a) `prefix_of` components (ResourceKey b) else ResourceKey a = ResourceKey b.

Lemma bytes_eq a b : to_bytes a = to_bytes b → a = b.
Proof. intros E. by rewrite <-(of_to_bytes a), E, of_to_bytes. Qed.
Lemma prefix_key a b : has_prefix a (b +:+ "/") = true ↔ ∃ c, to_bytes a = to_bytes b ++ slash :: c.
Proof.
  rewrite has_prefix_bytes, to_bytes_app. change (to_bytes "/") with [slash]. split; intros [c E]; exists c; rewrite E; by rewrite <-app_assoc.
Qed.
(** the overlap test, a comparison of strings, decides whether one of two
    resources covers the other: a path overlaps the paths above and below it, and never a path
    that only shares the beginning of a name. *)
Theorem overlaps_covers a b : overlaps a b = true ↔ covers a b ∨ covers b a.
Proof.
  destruct a as [ka a], b as [kb b]. unfold covers, overlaps. cbn [Kind ResourceKey]. destruct (seqb ka kb) eqn:Ek.
  2: { apply seqb_false in Ek. cbn. split; [done|]. intros [[? _]|[? _]]; congruence. }
  apply seqb_true in Ek as <-. cbn. destruct (seqb ka "path") eqn:Ep; cbn.
  2: { rewrite seqb_true. split; [by left|]. intros [[_ ?]|[_ ?]]; congruence. }
  apply seqb_true in Ep as ->. unfold components. rewrite !orb_true_iff, !prefix_key.
  assert (∀ a b, split (to_bytes b) `prefix_of` split (to_bytes a) ↔ a = b ∨ ∃ c, to_bytes a = to_bytes b ++ slash :: c) as Hp.
  { intros x y. rewrite split_prefix. split; (intros [E|E]; [left|by right]); [by apply bytes_eq|congruence]. }
  destruct (seqb a ".") eqn:Ea; [split; [intros _; left; split; [done|apply prefix_nil]|auto]|].
  destruct (seqb b ".") eqn:Eb; [split; [intros _; right; split; [done|apply prefix_nil]|auto]|].
  rewrite !Hp, seqb_true. naive_solver.
Qed.

(** ** Leases on concrete stores

    The witness of the acquisition of a lease, and the one way in which two live leases of a
    store come to overlap: an admission that waited past the end of a lease which it then
    protects. *)

Definition one_store : State := small_state <| memory_stores := {["/r/x/.git"%string := mkStoreRow "store" 0 0 0 0 0]} |>.
Definition item_1 : string := "00000000000000000000000000000001".
Definition item_2 : string := "00000000000000000000000000000002".
Definition src : list claimResource := [mkResource "path" "src"].

Lemma no_leases now s : claim_bundles s = ∅ → claim_resources s = ∅ → leases_inv now s.
Proof.
  intros Hb Hr. assert (∀ P, count_where P (claim_bundles s) = 0) as Hc.
  { intros P. rewrite Hb. unfold count_where, select. by rewrite map_to_list_empty. }
  split; [split; intros *; rewrite ?Hc, ?Hb, ?Hr; done|]. intros store g g' r r' (b & o & Hl & _). by rewrite Hb in Hl.
Qed.

(** Peer a acquires src at 10 s for 10 s, and at 21 s peer b does, for another item. *)
Definition acquire_a : tx lease := acquire "store" item_1 "a" 1 src (of_int 10) 10.
Definition acquire_b : tx lease := acquire "store" item_2 "b" 1 src (of_int 21) 10.
Definition held_a : State := after acquire_a one_store.
Definition held_b : State := after acquire_b held_a.

Lemma acquire_spec_witness : ∃ l, acquire_a one_store = Ok (l, held_a) ∧ le_Generation l = 1 ∧ mkResource "path" "src" ∈ bundleResources "store" 1 held_a.
Proof.
  destruct (run_after acquire_a one_store) as [l E]; [vm_compute; reflexivity|]. exists l. split; [exact E|].
  assert (room_for_lease "store" one_store (mkStoreRow "store" 0 0 0 0 0)) as Hroom by (split_and!; vm_compute; reflexivity || discriminate).
  assert (store_row "store" one_store = Some (mkStoreRow "store" 0 0 0 0 0)) as Hrow by (vm_compute; reflexivity).
  assert (is_number (of_int 10)) as Hn by (vm_compute; discriminate). assert (is_number (fadd (of_int 10) (of_int 10))) as Hx by (vm_compute; discriminate).
  assert (leases_inv (of_int 10) one_store) as Hinv by exact (no_leases (of_int 10) one_store eq_refl eq_refl). assert (1 ≤ 1) as H1 by reflexivity.
  destruct (acquire_spec "store" item_1 "a" 1 10 src [mkResource "writer" item_1; mkResource "path" "src"] (of_int 10) one_store _ Hinv Hrow Hroom eq_refl H1 Hn Hx)
    as (_ & H & _).
  destruct (H l held_a E) as (Hg & _ & _ & Hk & _). change (le_Generation l = 0 + 1) in Hg. split; [exact Hg|].
  rewrite Hg in Hk. apply (Hk (mkResource "path" "src")). right. left.
Defined.

(** Both peers hold src at 21 s after an admission of peer a that read its clock at 15 s. *)
Definition cycle_a : cycleRow :=
  mkCycleRow "" "" "" "a" "" "" "" "claude" "a" "" "" 1 0 0 0 0 0 0 0 0 0 0 0 0 1800000 "" 0 0 0 0 "" "" "" "" "" "" 0 0 0 false "" "".
Definition late_admission (s : State) : State := s <| cycles := {["c1"%string := cycle_a]} |>.
Lemma late_view s : lease_view (late_admission s) = lease_view s.
Proof. reflexivity. Qed.
Definition revive : tx unit := @protectCycleClaims zero_sum 15000 "c1" cycle_a "/r/x/.git".
Definition revived : State := after revive (late_admission held_b).

(** An admission reads its clock before its checks of the host and before it waits for its
    transaction.  A lease that ends in between, and whose resource another item then acquires,
    is live again after the admission protects it: two live leases overlap. *)
Theorem revived_overlap : ∃ s now, leases_inv now s ∧ (∃ u, revive s = Ok (u, revived)) ∧
  fltb (fdiv (of_int 15000) (of_int 1000)) now = true ∧ ¬ exclusive now revived.
Proof.
  exists (late_admission held_b), (of_int 21). destruct (run_after acquire_a one_store) as [la Ea]; [vm_compute; reflexivity|].
  destruct (run_after acquire_b held_a) as [lb Eb]; [vm_compute; reflexivity|]. split_and!.
  - assert (leases_inv (of_int 10) held_a) as Ha by exact (acquire_inv _ _ _ _ _ _ _ _ _ _ (no_leases (of_int 10) one_store eq_refl eq_refl) Ea).
    apply (leases_inv_tick _ (of_int 21)) in Ha; [|vm_compute; reflexivity]. pose proof (acquire_inv _ _ _ _ _ _ _ _ _ _ Ha Eb) as Hb.
    exact (leases_inv_view _ _ _ (late_view held_b) Hb).
  - apply run_after. vm_compute. reflexivity.
  - vm_compute. reflexivity.
  - intros Hex. cut (1 = 2); [done|]. apply (Hex "store"%string 1 2 (mkResource "path" "src") (mkResource "path" "src")); [..|vm_compute; reflexivity].
    + assert (∃ b, claim_bundles revived !! ("store"%string, 1) = Some b ∧ live (of_int 21) b = true) as (b & Hb & Hl) by (eexists; split; vm_compute; reflexivity).
      exists b, 1. split_and!; [exact Hb|exact Hl|vm_compute; reflexivity].
    + assert (∃ b, claim_bundles revived !! ("store"%string, 2) = Some b ∧ live (of_int 21) b = true) as (b & Hb & Hl) by (eexists; split; vm_compute; reflexivity).
      exists b, 1. split_and!; [exact Hb|exact Hl|vm_compute; reflexivity].
Qed.
