(* ===== verification/WorkViews.v ===== *)
(** * Views of work items (internal/core/work.go, internal/core/work_role.go)

    What a reader observes of a work item: its live claim, its freshness, its scope history
    and the resolution of its proposed role; and the JSON texts whose bytes the limits
    count.  The text of a float64 is a parameter. *)

From S2P Require Import Prelude GoString GoFloat Schema Sql Label Fixture Storage Names Cycles Leases.
Open Scope Z_scope.

(** ** Roles *)

(** The milliseconds of a clock reading in seconds: [int64(now*1000)] *)
Definition millis (now : float) : Z := trunc (fmul now (of_int 1000)).

Definition role_address (repo : string) (role : WorkRole) (_ : string) (n : NameRow) : bool :=
  bool_decide (n_kind n = Alias) && seqb (n_family n) (wk_Family role) && seqb (n_repository n) repo && seqb (n_role n) (wk_Role role).
(** [roleResolution] *)
Definition roleResolution (repo : string) (role : WorkRole) (now : float) (s : State) : WorkRoleResolution :=
  match head (select (role_address repo role) (names s)) with
  | None => mkWorkRoleResolution "unheld" "" ""
  | Some (address, n) =>
      if holds (millis now) (wk_Family role) (n_holder_id n) repo (wk_Role role) s
      then mkWorkRoleResolution "held" address (peerOf (wk_Family role) (n_holder_id n) s)
      else mkWorkRoleResolution (if bool_decide (n_conflict n = []) then "unheld" else "conflict") address ""
  end.

(** ** Observation *)

(** [freshness]: whether the lease is live, the progress overdue, and the progress unverified *)
Definition ongoing (lifecycle : string) : bool := seqb lifecycle "active" || seqb lifecycle "blocked".
Definition freshness (lifecycle : string) (deadline : option float) (active : bool) (leaseExpires now : float) : bool * bool * bool :=
  let live := active && fltb now leaseExpires in
  let overdue := ongoing lifecycle && match deadline with Some d => fleb d now | None => false end in
  (live, overdue, ongoing lifecycle && (negb live || overdue)).

Definition scopes_of (store workID : string) (s : State) : list (Z * ScopeRow) :=
  (λ kr, (kr.1.2, kr.2)) <$> order_by (λ kr, kr.1.2) (select (λ k _, seqb k.1.1 store && seqb k.1.2 workID) (work_scope_revisions s)).
(** Criteria or non-goals that changed after the first start stay flagged. *)
Fixpoint scope_changed (first : option Z) (previous : option (string * string)) (l : list (Z * ScopeRow)) : bool :=
  match l with
  | [] => false
  | (revision, sc) :: l =>
      let scope := (sc_criteria sc, sc_non_goals sc) in
      match previous, first with
      | Some p, Some f => (f <? revision) && negb (bool_decide (scope = p))
      | _, _ => false
      end || scope_changed first (Some scope) l
  end.

(** [view] *)
Definition view (store : string) (w : workItem) (now : float) (s : State) : result error WorkView :=
  match (match w_ProposedRole w with
         | Some role => match first_key (λ _ r, seqb (sto_store_id r) store) (memory_stores s) with
                        | Some repo => Ok (Some (roleResolution repo role now s))
                        | None => Err NoRows
                        end
         | None => Ok None
         end) with
  | Err e => Err e
  | Ok resolution =>
      let held := bundleFor store (w_WorkID w) s in
      let '(active, expires) := match held with Some (_, b) => (b_active b, b_expires_at b) | None => (false, of_int 0) end in
      let '(live, overdue, unverified) := freshness (w_Lifecycle w) (w_ProgressDeadline w) active expires now in
      let claim := match held with
                   | Some (g, b) =>
                       if live then Some (mkClaimView (b_consumer b) g (b_revision b) (b_expires_at b) (bundleResources store g s)
                                            (if seqb (b_native_actor b) "" then "legacy" else "native"))
                       else None
                   | None => None
                   end in
      let reasons := (if ongoing (w_Lifecycle w) && negb live then ["lease_expired"%string] else []) ++
                     (if overdue then ["progress_deadline_missed"%string] else []) in
      let scopes := scopes_of store (w_WorkID w) s in
      Ok (mkWorkView w (w_LatestSeq w) now (b_expires_at ∘ snd <$> held) claim live overdue unverified reasons (fst <$> scopes)
            (scope_changed (w_FirstStartRevision w) None scopes) resolution None None)
  end.

(** ** Encodings *)

Definition encoded_role (r : WorkRole) : string :=
  json_object [("family", json_string (wk_Family r)); ("role", json_string (wk_Role r))]%string.
(** [WorkRole.encoded]: the column proposed_role *)
Definition role_column (r : option WorkRole) : string := match r with Some r => encoded_role r | None => "" end.
Definition referencesJSON (w : workItem) : string := json_array (json_string <$> default [] (w_References w)).
Definition omit_empty (name text : string) (empty : bool) : list (string * string) := if empty then [] else [(name, text)].

Section encoding.
(** The JSON text of a float64 *)
Variable json_float : float → string.
Local Open Scope string_scope.

Definition json_strings (l : list string) : string := json_array (json_string <$> l).
Definition json_resource (r : claimResource) : string := json_strings [Kind r; ResourceKey r].
Definition encoded_report (r : workReport) : string := json_object (
  [("summary", json_string (wp_Summary r))] ++
  omit_empty "references" (json_or_null json_strings (wp_References r)) (bool_decide (default [] (wp_References r) = [])) ++
  [("scope_revision", itoa (wp_ScopeRevision r)); ("claim_generation", itoa (wp_ClaimGeneration r))] ++
  match wp_ParticipantRole r with Some role => [("participant_role", encoded_role role)] | None => [] end).
Definition encoded_claim (c : workClaimView) : string := json_object
  [("consumer", json_string (wc_Consumer c)); ("generation", itoa (wc_Generation c)); ("revision", itoa (wc_Revision c));
   ("expires_at", json_float (wc_ExpiresAt c)); ("resources", json_array (json_resource <$> wc_Resources c)); ("ownership", json_string (wc_Ownership c))].
Definition encoded_resolution (r : WorkRoleResolution) : string := json_object (
  [("state", json_string (wx_State r))] ++ omit_empty "address" (json_string (wx_Address r)) (seqb (wx_Address r) "") ++
  omit_empty "holder" (json_string (wx_Holder r)) (seqb (wx_Holder r) "")).

Definition item_fields (w : workItem) : list (string * string) :=
  [("work_id", json_string (w_WorkID w)); ("revision", itoa (w_Revision w)); ("lifecycle", json_string (w_Lifecycle w));
   ("title", json_string (w_Title w)); ("criteria", json_string (w_Criteria w)); ("non_goals", json_string (w_NonGoals w));
   ("proposed_assignee", json_or_null json_string (w_ProposedAssignee w)); ("proposed_role", json_or_null encoded_role (w_ProposedRole w));
   ("created_at", json_float (w_CreatedAt w)); ("created_consumer", json_string (w_CreatedConsumer w));
   ("first_start_revision", json_or_null itoa (w_FirstStartRevision w)); ("scope_revision", itoa (w_ScopeRevision w));
   ("progress_epoch", itoa (w_ProgressEpoch w)); ("last_progress_at", json_or_null json_float (w_LastProgressAt w));
   ("progress_deadline", json_or_null json_float (w_ProgressDeadline w)); ("progress", json_string (w_Progress w));
   ("checkpoint", json_string (w_Checkpoint w)); ("next_artifact", json_string (w_NextArtifact w)); ("blocker", json_string (w_Blocker w));
   ("last_writer", json_or_null json_string (w_LastWriter w)); ("last_generation", json_or_null itoa (w_LastGeneration w));
   ("last_lease_expires", json_or_null json_float (w_LastLeaseExpires w)); ("lease_expired", json_bool (w_LeaseExpired w));
   ("outcome", json_or_null json_string (w_Outcome w)); ("reason", json_string (w_Reason w));
   ("references", json_or_null json_strings (w_References w)); ("finished_at", json_or_null json_float (w_FinishedAt w));
   ("expires_at", json_or_null json_float (w_ExpiresAt w)); ("latest_seq", itoa (w_LatestSeq w)); ("report_seq", json_or_null itoa (w_ReportSeq w));
   ("report_consumer", json_or_null json_string (w_ReportConsumer w)); ("verdict", json_or_null json_string (w_Verdict w));
   ("verdict_seq", json_or_null itoa (w_VerdictSeq w))].
(** A view's scope revisions are a nil slice when there are none. *)
Definition encoded_view (v : WorkView) : string := json_object (
  item_fields (v_item v) ++
  [("type", json_string "work-item"); ("seq", itoa (v_Seq v)); ("observed_at", json_float (v_ObservedAt v));
   ("observed_lease_expires", json_or_null json_float (v_ObservedLeaseExpires v)); ("current_claim", json_or_null encoded_claim (v_CurrentClaim v));
   ("lease_valid", json_bool (v_LeaseValid v)); ("progress_overdue", json_bool (v_ProgressOverdue v));
   ("progress_unverified", json_bool (v_ProgressUnverified v)); ("progress_unverified_reasons", json_strings (v_ProgressUnverifiedReasons v));
   ("scope_revisions", if bool_decide (v_ScopeRevisions v = []) then "null" else json_array (itoa <$> v_ScopeRevisions v));
   ("criteria_changed_after_start", json_bool (v_CriteriaChangedAfterStart v))] ++
  match v_RoleResolution v with Some r => [("role_resolution", encoded_resolution r)] | None => [] end ++
  match v_Report v with Some r => [("report", encoded_report r)] | None => [] end ++
  match v_VerdictEvidence v with Some seq => [("verdict_evidence", json_object [("report_seq", itoa seq)])] | None => [] end).

(** The row of a scope revision; encoding/json sorts the keys of a map. *)
Definition encoded_scope (workID : string) (revision : Z) (r : ScopeRow) : string := json_object
  [("author", json_or_null json_string (sc_author r)); ("consumer", json_string (sc_consumer r)); ("criteria", json_string (sc_criteria r));
   ("non_goals", json_string (sc_non_goals r)); ("revision", itoa revision); ("title", json_string (sc_title r)); ("ts", json_float (sc_ts r));
   ("work_id", json_string workID)].

Definition encoded_lease (l : lease) : string := json_object
  [("generation", itoa (le_Generation l)); ("revision", itoa (le_Revision l)); ("expires_at", json_float (le_ExpiresAt l))].
Definition outcome_state (st : OutcomeState) : string :=
  match st with
  | Stored Waiting => "waiting" | Stored Notified => "notified" | Stored Uncertain => "uncertain" | Stored Failed => "failed"
  | Deleted => "deleted"
  end.
Definition encoded_outcome (o : Outcome) : string :=
  let text name v := omit_empty name (json_string v) (seqb v "") in
  json_object (
    [("id", itoa (o_ID o)); ("recipient", json_string (o_Recipient o)); ("seq", itoa (o_Seq o)); ("delivery_state", json_string (outcome_state (o_DeliveryState o)))] ++
    text "delivery_reason" (o_DeliveryReason o) ++ text "wake_reason" (o_WakeReason o) ++ omit_empty "notices" (itoa (o_Notices o)) (bool_decide (o_Notices o = 0%Z)) ++
    [("updated_at", itoa (o_UpdatedAt o)); ("acknowledged", json_bool (o_Acknowledged o))] ++
    text "acknowledged_by" (o_AcknowledgedBy o) ++ text "acknowledged_session" (o_AcknowledgedSession o) ++ text "acknowledged_via" (o_AcknowledgedVia o)).
(** A work operation's result, a map *)
Definition encoded_result (r : WorkResult) : string := json_object (
  match wr_Claim r with Some l => [("claim", encoded_lease l)] | None => [] end ++ [("duplicate", json_bool (wr_Duplicate r))] ++
  match wr_Message r with Some o => [("message", encoded_outcome o)] | None => [] end ++ [("revision", itoa (wr_Revision r))] ++
  (if wr_RoleReleased r then [("role_released", "true")] else []) ++
  [("seq", json_or_null itoa (wr_Seq r)); ("work_id", json_string (wr_WorkID r))]).
End encoding.
