(* ===== verification/MemoryLimits.v ===== *)
(** * The limits of a memory store (internal/core/memory.go)

    The usage of one repository's store, its ceilings after the promised work obligations, and
    the check of every write of notes and work. *)

From S2P Require Import Prelude GoString GoFloat Schema Sql Label Fixture Storage Leases WorkViews.
Open Scope Z_scope.

Record memoryLimits := mkMemoryLimits {
  l_body : Z; l_entries : Z; l_reservedEntries : Z; l_idem : Z; l_consumers : Z; l_retired : Z; l_snapshotsPerConsumer : Z;
  l_logical : Z; l_reservedBytes : Z; l_frameBudget : Z; l_rowWindow : Z;
  l_snapshotTTL : float; l_ackRetention : float; l_idemTTL : float; l_consumerTTL : float; l_retiredTTL : float; l_expiryInterval : float;
  l_workLogical : Z; l_workEvents : Z; l_workItems : Z; l_workScopes : Z; l_workScopesPerItem : Z; l_creditBytes : Z; l_verdictBytes : Z }.
Definition defaultMemoryLimits : memoryLimits :=
  mkMemoryLimits 8192 5000 64 20000 256 1024 4 (Z.shiftl 32 20) (64 * 8192) (262144 - 8192) 500
    (of_int 3600) (of_int 86400) (of_int 86400) (of_int (30 * 86400)) (of_int (90 * 86400)) (of_int 30)
    (Z.shiftl 12 20) 2048 128 1024 64 (Z.shiftl 48 10) (Z.shiftl 64 10).

Definition entryOverhead : Z := 512.
Definition workRowOverhead : Z := 512.
Definition workReplayOverhead : Z := 192.
Definition maxWorkAudiences : Z := 256.
Definition fingerprintScheme : string := "go1".

(** [textBytes]: the bytes of text columns, NULL as none *)
Definition text_bytes (l : list string) : Z := foldr (λ s acc, len s + acc) 0 l.
Definition nullable (o : option string) : string := default ""%string o.

Record memoryUsage := mkUsage {
  u_Entries : Z; u_Logical : Z; u_Idem : Z; u_Retired : Z; u_Snapshots : Z; u_Consumers : Z; u_WorkLogical : Z; u_WorkItems : Z;
  u_WorkScopes : Z; u_WorkScopesPerItem : Z; u_ClaimBundles : Z; u_ClaimResources : Z; u_WorkEvents : Z; u_WorkReplays : Z; u_WorkAudiences : Z }.

Section usage.
(** The JSON text of a float64 *)
Variable json_float : float → string.

(** *** The charges of one row of each table *)

Definition entry_bytes (e : EntryRow) : Z :=
  entryOverhead + text_bytes [en_body e; nullable (en_path e); nullable (en_author e); nullable (en_scope_target e); en_consumer e].
Definition item_bytes (store : string) (w : workItem) : Z :=
  workRowOverhead + text_bytes [store; w_WorkID w; w_Lifecycle w; w_Title w; w_Criteria w; w_NonGoals w; nullable (w_ProposedAssignee w);
    w_CreatedConsumer w; role_column (w_ProposedRole w); w_Progress w; w_Checkpoint w; w_NextArtifact w; w_Blocker w; nullable (w_LastWriter w);
    nullable (w_Outcome w); w_Reason w; referencesJSON w; nullable (w_ReportConsumer w); w_ReportActor w; nullable (w_Verdict w)].
Definition scope_bytes (store workID : string) (r : ScopeRow) : Z :=
  workRowOverhead + text_bytes [store; workID; sc_consumer r; nullable (sc_author r); sc_title r; sc_criteria r; sc_non_goals r].
Definition bundle_bytes (store : string) (b : BundleRow) : Z :=
  workRowOverhead + text_bytes [store; b_work_id b; b_consumer b; b_native_actor b].
Definition resource_bytes (store : string) (r : claimResource) : Z := workRowOverhead + text_bytes [store; Kind r; ResourceKey r].
Definition event_bytes (store : string) (e : WorkEventRow) : Z :=
  workRowOverhead + text_bytes [store; we_work_id e; we_kind e; encoded_view json_float (we_payload e); we_actor e].
Definition work_replay_bytes (k : string * string * string) (q : WorkReplayRow) : Z :=
  workReplayOverhead + text_bytes [k.2; k.1.2; wq_operation q; encoded_result json_float (wq_result q); wq_native_actor q].
Definition audience_bytes (k : string * string) (a : AudienceRow) : Z := workRowOverhead + text_bytes [k.1; k.2; wa_data a; wa_reason a].

Definition of_repo {V} (repo : string) (k : string * Z) (_ : V) : bool := seqb k.1 repo.
Definition work_entry (repo : string) (k : string * Z) (e : EntryRow) : bool := seqb k.1 repo && seqb (en_type e) "work-event".

(** The largest number of scope revisions of one item *)
Definition scopes_per_item (store : string) (s : State) : Z :=
  foldr (λ kr acc, Z.max (count_where (λ k _, seqb k.1.1 store && seqb k.1.2 kr.1.1.2) (work_scope_revisions s)) acc) 0
    (select (λ k _, seqb k.1.1 store) (work_scope_revisions s)).

(** [storeOf]: the ID of a repository's store, or none before its first write *)
Definition storeOf (repo : string) (s : State) : option string := sto_store_id <$> memory_stores s !! repo.

(** [usage] *)
Definition note_usage (repo : string) (s : State) : memoryUsage :=
  let of_consumer {V} (k : string * string) (_ : V) := seqb k.1 repo in
  let logical :=
    sum_where (of_repo repo) (λ _ e, entry_bytes e) (memory_entries s) +
    sum_where (λ k _, match memory_snapshots s !! k.1 with Some sn => seqb (sn_repository sn) repo | None => false end) (λ _ i, si_bytes i) (memory_snapshot_items s) +
    sum_where (λ k _, seqb k.1.1 repo) (λ k _, len k.2 + len k.1.2 + 64) (memory_idem s) +
    sum_where of_consumer (λ k c, len k.2 + len (cu_actor c) + 64) (memory_cursors s) +
    sum_where of_consumer (λ k _, len k.2 + 64) (memory_retired s) +
    sum_where (λ _ sn, seqb (sn_repository sn) repo) (λ id sn, len id + len (sn_consumer sn) + 96) (memory_snapshots s) in
  mkUsage (count_where (of_repo repo) (memory_entries s)) logical (count_where (λ k _, seqb k.1.1 repo) (memory_idem s))
    (count_where of_consumer (memory_retired s)) (count_where (λ _ sn, seqb (sn_repository sn) repo) (memory_snapshots s))
    (count_where of_consumer (memory_cursors s)) 0 0 0 0 0 0 0 0 0.
Definition usage (repo : string) (s : State) : memoryUsage :=
  let u := note_usage repo s in
  match storeOf repo s with
  | None => u
  | Some store =>
      let table_bytes :=
        sum_where (λ k _, seqb k.1 store) (λ _ w, item_bytes store w) (work_items s) +
        sum_where (λ k _, seqb k.1.1 store) (λ k r, scope_bytes store k.1.2 r) (work_scope_revisions s) +
        sum_where (λ k _, seqb k.1 store) (λ _ b, bundle_bytes store b) (claim_bundles s) +
        sum_where (λ k _, seqb k.1.1 store) (λ _ r, resource_bytes store r) (claim_resources s) +
        sum_where (λ k _, seqb k.1 store) (λ _ e, event_bytes store e) (work_events s) in
      let replay_bytes := sum_where (λ k _, seqb k.1.1 store) work_replay_bytes (work_replays s) in
      let entry_bytes_ := sum_where (work_entry repo) (λ _ e, entry_bytes e) (memory_entries s) in
      let audience_bytes_ := sum_where (λ k _, seqb k.1 store) audience_bytes (work_audiences s) in
      let replays := count_where (λ k _, seqb k.1.1 store) (work_replays s) in
      mkUsage (u_Entries u) (u_Logical u + (table_bytes + replay_bytes) + audience_bytes_) (u_Idem u + replays) (u_Retired u) (u_Snapshots u)
        (u_Consumers u) (table_bytes + replay_bytes + entry_bytes_ + audience_bytes_)
        (count_where (λ k _, seqb k.1 store) (work_items s)) (count_where (λ k _, seqb k.1.1 store) (work_scope_revisions s))
        (scopes_per_item store s) (count_where (λ k _, seqb k.1 store) (claim_bundles s))
        (count_where (λ k _, seqb k.1.1 store) (claim_resources s)) (count_where (λ k _, seqb k.1 store) (work_events s)) replays
        (count_where (λ k _, seqb k.1 store) (work_audiences s))
  end.
End usage.

(** [workDebt], [storeDebt]: the funded obligations of a store *)
Record workDebt := mkWorkDebt { d_overdue : Z; d_end : Z; d_verdict : Z }.
Definition storeDebt (repo : string) (s : State) : workDebt :=
  match storeOf repo s with
  | None => mkWorkDebt 0 0 0
  | Some store => mkWorkDebt (count_where (λ k b, seqb k.1 store && b_overdue_credit b) (claim_bundles s))
                    (count_where (λ k b, seqb k.1 store && b_end_credit b) (claim_bundles s))
                    (count_where (λ k w, seqb k.1 store && w_VerdictCredit w) (work_items s))
  end.

(** [caps] *)
Record storeCaps := mkCaps { k_entries : Z; k_logical : Z; k_idem : Z; k_workLogical : Z; k_workEvents : Z; k_workScopes : Z }.
Definition caps (l : memoryLimits) (class : writeClass) (d : workDebt) : storeCaps :=
  let slots := d_overdue d + d_end d + d_verdict d in
  let bytes := (d_overdue d + d_end d) * l_creditBytes l + d_verdict d * l_verdictBytes l in
  let reserve := bool_decide (class = ordinary) in
  mkCaps (l_entries l - slots - (if reserve then l_reservedEntries l else 0)) (l_logical l - bytes - (if reserve then l_reservedBytes l else 0))
    (l_idem l - d_end d - d_verdict d) (l_workLogical l - bytes) (l_workEvents l - slots) (l_workScopes l - d_verdict d).

(** [exceeded] *)
Definition exceeded (l : memoryLimits) (u : memoryUsage) (c : storeCaps) (need slots : Z) : option error :=
  if (k_entries c <? u_Entries u + slots) || (k_logical c <? u_Logical u + need) || (k_workLogical c <? u_WorkLogical u) ||
     (k_workEvents c <? u_WorkEvents u) then Some (Refusal "capacity")
  else if k_idem c <? u_Idem u then Some (Refusal "idem_capacity")
  else if (l_workItems l <? u_WorkItems u) || (k_workScopes c <? u_WorkScopes u) || (l_workScopesPerItem l <? u_WorkScopesPerItem u) ||
          (maxWorkAudiences <? u_WorkAudiences u) || (maxBundles <? u_ClaimBundles u) ||
          (maxBundles * (maxResources + 1) <? u_ClaimResources u) then Some (Refusal "capacity")
  else None.

(** [enforce]: the check inside a transaction, after its mutation *)
Definition enforced (json_float : float → string) (l : memoryLimits) (class : writeClass) (repo : string) (s : State) : option error :=
  exceeded l (usage json_float repo s) (caps l class (storeDebt repo s)) 0 0.
