(* ===== verification/MemoryExpiry.v ===== *)
(** * Expiry in a memory store (internal/core/memory.go)

    Removal of what has outlived its window: entries in batches, which raise the floor and never
    move the head, then snapshots, retry records, tombstones and idle readers. *)

From S2P Require Import Prelude GoString GoFloat Schema Sql Label Fixture Storage Names Leases WorkViews MemoryLimits.
Open Scope Z_scope.

Definition libraryDecisionMarker : string := "koinon-library-decision".

Section expiry.
(** json.Unmarshal of a decision's body into the marker's struct: the field library, or
    [None] when it fails *)
Variable json_library : string → option string.

Definition libraryDecisionMarked (body : string) : bool := bool_decide (json_library body = Some libraryDecisionMarker).

(** *** Entries *)

Definition expired_entry (repo : string) (now : float) (k : string * Z) (e : EntryRow) : bool :=
  seqb k.1 repo && match en_expires e with Some x => fltb x now | None => false end.
Definition batch_size : nat := 200.
(** One batch; the answer is the number of removed entries. *)
Definition expire_batch (repo : string) (now : float) : tx Z :=
  rows ← gets (λ s, take batch_size (order_by (λ ke, ke.1.2) (select (expired_entry repo now) (memory_entries s))));
  let rows : list ((string * Z) * EntryRow) := rows in
  let seqs := (λ ke : (string * Z) * EntryRow, ke.1.2) <$> rows in
  let libraryFloor := foldr (λ (ke : (string * Z) * EntryRow) acc,
    if seqb (en_type ke.2) "decision" && libraryDecisionMarked (en_body ke.2) then Z.max ke.1.2 acc else acc) 0 rows in
  match last seqs with
  | None => mret 0
  | Some top =>
      _ ← modify (λ s, s <| memory_entries := filter (λ ke, bool_decide (ke.1.1 = repo ∧ ke.1.2 ∈ seqs) = false) (memory_entries s) |>);
      _ ← modify (λ s, s <| memory_stores := alter (λ r, r <| sto_floor := Z.max (sto_floor r) top |>
             <| sto_library_floor := Z.max (sto_library_floor r) libraryFloor |>) repo (memory_stores s) |>);
      mret (Z.of_nat (length seqs))
  end.

(** *** The rest *)

Definition old_snapshot (l : memoryLimits) (repo : string) (ttl_cut ack_cut : float) (r : SnapshotRow) : bool :=
  seqb (sn_repository r) repo &&
  ((negb (sn_acked r) && fltb (sn_created r) ttl_cut) ||
   (sn_acked r && match sn_acked_at r with Some t => fltb t ack_cut | None => false end)).
Definition fsub (x y : float) : float := SpecFloat.SFsub prec emax x y.
Definition expire_rest (l : memoryLimits) (repo : string) (now : float) : tx unit :=
  let ttl_cut := fsub now (l_snapshotTTL l) in
  let ack_cut := fsub now (l_ackRetention l) in
  let retired_cut := fsub now (l_retiredTTL l) in
  let idle_cut := fsub now (l_consumerTTL l) in
  let old (s : State) (id : string) := match memory_snapshots s !! id with Some r => old_snapshot l repo ttl_cut ack_cut r | None => false end in
  let idle (k : string * string) (c : CursorRow) := seqb k.1 repo && fltb (cu_updated c) idle_cut in
  _ ← modify (λ s, s <| memory_snapshot_items := filter (λ ki, old s ki.1.1 = false) (memory_snapshot_items s) |>);
  _ ← modify (λ s, s <| memory_snapshots := filter (λ ki, old_snapshot l repo ttl_cut ack_cut ki.2 = false) (memory_snapshots s) |>);
  _ ← modify (λ s, s <| memory_idem := filter (λ ki, seqb ki.1.1.1 repo && fltb (id_deadline ki.2) now = false) (memory_idem s) |>);
  _ ← modify (λ s, s <| work_replays := filter (λ ki, bool_decide (storeOf repo s = Some ki.1.1.1) && fltb (wq_deadline ki.2) now = false) (work_replays s) |>);
  _ ← modify (λ s, s <| memory_retired := filter (λ ki, seqb ki.1.1 repo && fltb (rt_at ki.2) retired_cut = false) (memory_retired s) |>);
  _ ← modify (λ s, s <| memory_retired := map_imap (λ k c, if idle k c then Some (mkRetiredRow (cu_seq c) now) else None) (memory_cursors s) ∪ memory_retired s |>);
  modify (λ s, s <| memory_cursors := filter (λ ki, idle ki.1 ki.2 = false) (memory_cursors s) |>).

(** [expireMemory]: batches until one is not full; every batch is one control write, and so is the
    rest.  [fuel] bounds the batches. *)
Definition expiry_write : Write := mkWrite control false 0 None (λ _, None).
Fixpoint expire_batches (fuel : nat) (repo : string) (now : float) (en : nat → Engine) (st : Store) : result error unit * Store :=
  match fuel with
  | O => (Ok tt, st)
  | S fuel' =>
      match write expiry_write (en fuel) (expire_batch repo now) st with
      | (Err e, st') => (Err e, st')
      | (Ok removed, st') => if removed <? Z.of_nat batch_size then (Ok tt, st') else expire_batches fuel' repo now en st'
      end
  end.
Definition expireMemory (fuel : nat) (l : memoryLimits) (repo : string) (now : float) (reclaim_ : bool) (en : nat → Engine) (st : Store) :
    result error unit * Store :=
  match expire_batches fuel repo now en st with
  | (Err e, st1) => (Err e, st1)
  | (Ok _, st1) =>
      match write expiry_write (en 0%nat) (expire_rest l repo now) st1 with
      | (Err e, st2) => (Err e, st2)
      | (Ok _, st2) =>
          if negb reclaim_ then (Ok tt, st2)
          else match blocked st2 with
               | Some _ => (Err ErrStorageBlocked, st2)
               | None => reclaim (en 0%nat) st2
               end
      end
  end.

(** [maybeExpire]: at most once per interval and store; [last] is the daemon's memory of the
    last time. *)
Definition expiry_due (l : memoryLimits) (last : gmap string float) (repo : string) (now : float) : bool :=
  fleb (l_expiryInterval l) (fsub now (default (of_int 0) (last !! repo))).
Definition maybeExpire (fuel : nat) (l : memoryLimits) (repo : string) (now : float) (en : nat → Engine) (last : gmap string float) (st : Store) :
    result error unit * Store * gmap string float :=
  if expiry_due l last repo now then (expireMemory fuel l repo now false en st, <[repo := now]> last) else ((Ok tt, st), last).
End expiry.
