(* ===== verification/WorkItems.v ===== *)
(** * Work items (internal/core/work.go, internal/core/work_verdict.go)

    A validated request, the row and the event of a work item, and the mutation that each
    operation applies inside its transaction.  Proposals and claims are reported data: they
    grant no authority. *)

From S2P Require Import Prelude GoString GoFloat Schema Sql Label Fixture Storage Names Messages Cycles Sessions Participants Leases WorkViews MemoryLimits.
Open Scope Z_scope.

Definition workEventType : string := "work-event".
Definition workRetention : Z := 30 * 86400.
Definition maxWorkRecord : Z := 16 * 1024.
Definition viewHeadroom : Z := 1024.
Definition maxWorkScope : Z := 8 * 1024.
Definition maxWorkResult : Z := 2 * 1024.
Definition maxWorkRowCost : Z := 16857.
Definition maxStoreVerdicts : Z := 16.
Definition maxDaemonVerdicts : Z := 32.

(** ** Requests *)

(** A validated request: the fields that were sent, by their kinds *)
Record workRequest := mkRequest {
  r_op : string; r_present : gset string; r_text : gmap string string; r_nulls : gset string; r_ints : gmap string Z;
  r_numbers : gmap string float; r_bools : gmap string bool; r_refs : option (list string); r_res : list claimResource;
  r_role : option WorkRole; r_actor : string }.
#[export] Instance workRequest_eta : Eta workRequest := λ r,
  mkRequest (r_op r) (r_present r) (r_text r) (r_nulls r) (r_ints r) (r_numbers r) (r_bools r) (r_refs r) (r_res r) (r_role r) (r_actor r).

Definition has (r : workRequest) (name : string) : bool := bool_decide (name ∈ r_present r).
(** [optional]: a nullable text field *)
Definition optional (r : workRequest) (name : string) : option string := r_text r !! name.
Definition text (r : workRequest) (name : string) : string := default ""%string (r_text r !! name).
Definition int_ (r : workRequest) (name : string) : Z := default 0 (r_ints r !! name).
Definition number (r : workRequest) (name : string) : float := default (of_int 0) (r_numbers r !! name).
Definition workVerdict (op : string) : bool := seqb op "work-accept" || seqb op "work-reject".
Definition workRead (op : string) : bool := seqb op "work-get" || seqb op "work-list".
Definition keyed (r : workRequest) : bool := negb (workRead (r_op r)) && has r "key".

(** ** Callers *)

Section actors.
Context `{SHA : Sha256}.

(** [nativeWorkActor] *)
Definition nativeWorkActor (m : MemoryCaller) : string :=
  if seqb (Family (mc_Native m)) (mc_Family m) then nativeWorkActorForKey (mc_Native m) else "".
Definition of_maintainer (m : MemoryCaller) : bool := seqb (mc_Family m) (Family maintainerKey).

(** [requireNativeWorkCaller]: a native binding is proved again in the transaction. *)
Definition requireNativeWorkCaller (m : MemoryCaller) (actor : string) (now : float) (s : State) : option error :=
  if seqb actor "" || of_maintainer m then None
  else if negb (seqb actor (nativeWorkActor m)) then Some (workError "stale_claim")
  else match active (millis now) (mc_Native m) s with
       | Some e => Some e
       | None => match sessions s !! mc_Native m with
                 | None => Some NoRows
                 | Some row => if seqb (s_repository row) (mc_Repository m) then None else Some (workError "role_not_held")
                 end
       end.

(** [requireWorkRole]: only the current holder of the proposed role starts its work. *)
Definition requireWorkRole (m : MemoryCaller) (role : WorkRole) (now : float) (s : State) : option error :=
  let resolved := roleResolution (mc_Repository m) role now s in
  if negb (seqb (wx_State resolved) "held") then Some (WorkRefusal ("role_" +:+ wx_State resolved) (RoleState (wx_State resolved)))
  else if negb (seqb (wk_Family role) (Family (mc_Native m))) || seqb (nativeWorkActor m) "" then Some (workError "role_not_held")
  else match requireHolder (millis now) (mc_Native m) (wx_Address resolved) s with
       | Some _ => Some (workError "role_not_held")
       | None => None
       end.

(** [requireVerdictCaller]: no verdict from the reporting worker *)
Definition own_report (m : MemoryCaller) (w : workItem) : bool :=
  bool_decide (w_ReportConsumer w = Some (mc_Consumer m)) || (negb (seqb (w_ReportActor w) "") && seqb (nativeWorkActor m) (w_ReportActor w)).
Definition requireVerdictCaller (m : MemoryCaller) (w : workItem) : option error :=
  if own_report m w then Some (workError "own_report") else None.
End actors.

(** ** Rows *)

(** [current]: a retained item; a finished one past its expiry is invisible. *)
Definition retained_at (now : float) (w : workItem) : bool := match w_ExpiresAt w with Some e => negb (fleb e now) | None => true end.
Definition current (store workID : string) (now : float) : tx workItem :=
  o ← gets (λ s, work_items s !! (store, workID));
  w ← row (o : option workItem) (workError "work_not_found");
  _ ← ensure (retained_at now w) (workError "work_not_found");
  mret w.

(** The column checks of work_items *)
Definition item_checks (w : workItem) : bool :=
  (0 <? w_Revision w) && (0 <? w_ScopeRevision w) && (0 <=? w_ProgressEpoch w) && (0 <? w_LatestSeq w) &&
  one_of (w_Lifecycle w) ["open"; "active"; "blocked"; "reported"; "finished"]%string &&
  match w_Verdict w with Some v => one_of v ["accepted"; "rejected"]%string | None => true end &&
  match w_Outcome w with Some v => one_of v ["completed"; "withdrawn"]%string | None => true end &&
  (if seqb (w_Lifecycle w) "finished"
   then bool_decide (is_Some (w_Outcome w)) && bool_decide (is_Some (w_FinishedAt w)) && bool_decide (is_Some (w_ExpiresAt w))
   else bool_decide (w_Outcome w = None) && bool_decide (w_FinishedAt w = None) && bool_decide (w_ExpiresAt w = None)) &&
  bool_decide (seqb (w_Lifecycle w) "reported" = w_VerdictCredit w) &&
  (negb (seqb (w_Lifecycle w) "reported") || bool_decide (is_Some (w_ReportSeq w))).

(** What a row keeps of an item: [NULLIF(report_consumer,'')], an array of references, and
    neither report nor evidence *)
Definition nullif (o : option string) : option string := match o with Some s => if seqb s "" then None else Some s | None => None end.
Definition as_row (w : workItem) : workItem := w <| w_ReportConsumer := nullif (w_ReportConsumer w) |> <| w_References := Some (default [] (w_References w)) |> <| w_report := None |> <| w_evidence := None |>.

Definition insert_item (store : string) (w : workItem) : tx unit := λ s,
  if bool_decide (is_Some (work_items s !! (store, w_WorkID w))) || negb (item_checks w) then Err Constraint
  else Ok (tt, s <| work_items := <[(store, w_WorkID w) := as_row w]> (work_items s) |>).
(** [UPDATE work_items]: every column but the key and the creation *)
Definition update_item (store : string) (w : workItem) : tx unit := λ s,
  match work_items s !! (store, w_WorkID w) with
  | None => Ok (tt, s)
  | Some old =>
      let new := (as_row w) <| w_CreatedAt := w_CreatedAt old |> <| w_CreatedConsumer := w_CreatedConsumer old |> in
      if item_checks new then Ok (tt, s <| work_items := <[(store, w_WorkID w) := new]> (work_items s) |>) else Err Constraint
  end.

(** [rowCost] *)
Definition rowCost (store : string) (w : workItem) : Z :=
  workRowOverhead + text_bytes [store; w_WorkID w; w_Lifecycle w; w_Title w; w_Criteria w; w_NonGoals w; w_CreatedConsumer w; w_Progress w;
    w_Checkpoint w; w_NextArtifact w; w_Blocker w; w_Reason w; referencesJSON w; role_column (w_ProposedRole w); w_ReportActor w;
    nullable (w_ProposedAssignee w); nullable (w_LastWriter w); nullable (w_Outcome w); nullable (w_ReportConsumer w); nullable (w_Verdict w)].

(** ** Events *)

(** [UPDATE memory_stores SET head=head+1 ... RETURNING head] *)
Definition next_head (store : string) : tx Z :=
  o ← gets (store_row store);
  r ← row (o : option StoreRow) NoRows;
  _ ← modify (λ s, s <| memory_stores := update_where (λ _ r, seqb (sto_store_id r) store) (λ r, r <| sto_head := sto_head r + 1 |>) (memory_stores s) |>);
  mret (sto_head r + 1).

Definition insert_entry (repo : string) (seq : Z) (e : EntryRow) : tx unit := λ s,
  if bool_decide (is_Some (memory_entries s !! (repo, seq))) then Err Constraint
  else Ok (tt, s <| memory_entries := <[(repo, seq) := e]> (memory_entries s) |>).
Definition event_kinds : list string :=
  ["created"; "proposed"; "edited"; "started"; "updated"; "released"; "finished"; "progress-overdue"; "lease-expired"; "reported"; "accepted"; "rejected"].
Definition insert_work_event (store : string) (seq : Z) (e : WorkEventRow) : tx unit := λ s,
  if bool_decide (is_Some (work_events s !! (store, seq))) || negb ((0 <? seq) && (0 <? we_revision e) && one_of (we_kind e) event_kinds) then Err Constraint
  else Ok (tt, s <| work_events := <[(store, seq) := e]> (work_events s) |>).

(** The fields of an item that its JSON carries *)
Definition public (w : workItem) : workItem :=
  w <| w_ReportActor := ""%string |> <| w_VerdictCredit := false |> <| w_report := None |> <| w_evidence := None |>.

(** The sequences that an event records in its item *)
Definition numbered (kind : string) (seq : Z) (w : workItem) : workItem :=
  let w := w <| w_LatestSeq := seq |> in
  if seqb kind "reported" then w <| w_ReportSeq := Some seq |>
  else if seqb kind "accepted" || seqb kind "rejected" then w <| w_VerdictSeq := Some seq |> else w.

Section events.
(** The JSON text of a float64 *)
Variable json_float : float → string.

(** [event]: the stream entry and its immutable payload; a funded due transition may use the
    headroom. *)
Definition event (store : string) (m : MemoryCaller) (w : workItem) (kind consumer : string) (author : option string) (now : float) : tx workItem :=
  _ ← ensure (rowCost store w <=? maxWorkRowCost) (workError "record_too_large");
  seq ← next_head store;
  let w := numbered kind seq w in
  _ ← update_item store w;
  o ← gets (view store w now);
  v ← lift o;
  let payload := v <| v_item := public w |> <| v_Report := w_report w |> <| v_VerdictEvidence := w_evidence w |> in
  let limit := if seqb kind "progress-overdue" || seqb kind "lease-expired" then maxWorkRecord else maxWorkRecord - viewHeadroom in
  _ ← ensure (len (encoded_view json_float payload) <=? limit) (workError "record_too_large");
  let family := if seqb (mc_Family m) "" then "daemon"%string else mc_Family m in
  _ ← insert_entry (mc_Repository m) seq (mkEntryRow now workEventType "repo" (Some (w_WorkID w)) None "" author family (mc_Name m) consumer
        (w_Revision w) None None None None None None);
  _ ← insert_work_event store seq (mkWorkEventRow (w_WorkID w) (w_Revision w) kind payload (nativeActor m));
  mret w.

(** [scope]: a revision of the scope *)
Definition scope (store : string) (w : workItem) (consumer : string) (author : option string) (now : float) : tx unit :=
  let sc := mkScopeRow now consumer author (w_Title w) (w_Criteria w) (w_NonGoals w) in
  _ ← ensure (len (encoded_scope json_float (w_WorkID w) (w_Revision w) sc) <=? maxWorkScope) (workError "record_too_large");
  taken ← gets (λ s, bool_decide (is_Some (work_scope_revisions s !! (store, w_WorkID w, w_Revision w))));
  _ ← ensure (negb taken && (0 <? w_Revision w) && real_not_null now) Constraint;
  modify (λ s, s <| work_scope_revisions := <[(store, w_WorkID w, w_Revision w) := sc]> (work_scope_revisions s) |>).

(** work_verdict.go, [reserveVerdict]: a report whose verdict could not be funded is refused. *)
Definition reserveVerdict (store workID : string) (l : memoryLimits) : tx unit :=
  inStore ← gets (λ s, count_where (λ k w, seqb k.1 store && w_VerdictCredit w) (work_items s));
  all ← gets (λ s, count_where (λ _ w, w_VerdictCredit w) (work_items s));
  scopes ← gets (λ s, count_where (λ k _, seqb k.1.1 store && seqb k.1.2 workID) (work_scope_revisions s));
  ensure ((inStore <? maxStoreVerdicts) && (all <? maxDaemonVerdicts) && (scopes <? l_workScopesPerItem l)) (workError "capacity").
End events.
