(* ===== verification/WorkOps.v ===== *)
(** * The operations on work items (internal/core/work.go, internal/core/checkout_role.go)

    The mutation of every work operation inside its transaction, with its event, its retry
    record and its result. *)

From S2P Require Import Prelude GoString GoFloat Schema Sql Label Fixture Storage Names Messages Cycles Sessions Participants Leases WorkViews MemoryLimits WorkItems.
Open Scope Z_scope.

(** ** Retry records *)

Section retries.
Context `{SHA : Sha256}.
(** The JSON text of a float64 *)
Variable json_float : float → string.

(** [fingerprint]: the digest of the decoded content, with the keys of the map in order *)
Definition field_json (r : workRequest) (name : string) : option string :=
  if bool_decide (name ∈ r_nulls r) then Some "null"%string
  else if seqb name "references" then Some (json_or_null (json_strings) (r_refs r))
  else if seqb name "resources" then Some (json_array (json_resource <$> r_res r))
  else if seqb name "proposed_role" then Some (json_or_null encoded_role (r_role r))
  else match r_text r !! name with
       | Some v => Some (json_string v)
       | None => match r_ints r !! name with
                 | Some v => Some (itoa v)
                 | None => match r_numbers r !! name with
                           | Some v => Some (json_float v)
                           | None => json_bool <$> r_bools r !! name
                           end
                 end
       end.
Definition fingerprint_fields (consumer : string) (r : workRequest) : list (string * string) :=
  order_by_name fst ([("op", json_string (r_op r)); ("consumer", json_string consumer)]%string ++
    omap (λ name, (λ v, (name, v)) <$> field_json r name) (elements (r_present r))).
Definition fingerprint (consumer : string) (r : workRequest) : string := hex_sum (to_bytes (json_object (fingerprint_fields consumer r))).

(** [storeReplay]: the result's bound, and its record under the caller's key *)
Definition storeReplay (store : string) (m : MemoryCaller) (r : workRequest) (actor print : string) (result : WorkResult) (now : float) : tx unit :=
  _ ← ensure (len (encoded_result json_float result) <=? maxWorkResult) (workError "record_too_large");
  if negb (keyed r) then mret tt
  else
    let k := (store, mc_Consumer m, text r "key") in
    taken ← gets (λ s, bool_decide (is_Some (work_replays s !! k)));
    _ ← ensure (negb taken && real_not_null now && real_not_null (number r "deadline")) Constraint;
    modify (λ s, s <| work_replays := <[k := mkWorkReplayRow (r_op r) fingerprintScheme print (wr_Seq result) now (number r "deadline") result actor]>
                        (work_replays s) |>).
End retries.

(** ** The changes of an item *)

Section changes.
Context `{SHA : Sha256}.
Variable json_float : float → string.
Variables (store : string) (l : memoryLimits) (m : MemoryCaller) (r : workRequest) (now : float).

Definition author : option string := optional r "author".
Definition lease_seconds : Z := default defaultLease (r_ints r !! "lease_seconds").

Definition hex_id (n : Z) : string := of_bytes (hex_value 32 n).
(** work-create *)
Definition create : tx workItem :=
  n ← work_counter store;
  o ← gets (store_row store);
  sr ← row (o : option StoreRow) NoRows;
  let w := mkWorkItem (hex_id n) 1 "open" (text r "title") (text r "criteria") (text r "non_goals") (optional r "proposed_assignee") (r_role r) now
             (mc_Consumer m) None 1 0 None None "" "" "" "" None None None false None "" (r_refs r) None None (sto_head sr + 1) None None None None "" false None None in
  _ ← insert_item store (w <| w_ProposedRole := None |>);
  _ ← scope json_float store w (mc_Consumer m) author now;
  mret w.

(** work-propose *)
Definition propose (w : workItem) : tx workItem :=
  mret (w <| w_ProposedAssignee := optional r "proposed_assignee" |> <| w_ProposedRole := r_role r |>).

(** work-edit *)
Definition set_if (name : string) (old : string) : string := if has r name then text r name else old.
Definition edit (w : workItem) : tx workItem :=
  let w := w <| w_Title := set_if "title" (w_Title w) |> <| w_Criteria := set_if "criteria" (w_Criteria w) |>
             <| w_NonGoals := set_if "non_goals" (w_NonGoals w) |> <| w_ScopeRevision := w_Revision w |> in
  _ ← scope json_float store w (mc_Consumer m) author now;
  mret w.

(** The progress fields that work-start and work-update set *)
Definition progressed (w : workItem) : workItem :=
  let lifecycle := default "active"%string (optional r "lifecycle") in
  let w := w <| w_Lifecycle := lifecycle |> <| w_LastProgressAt := Some now |> <| w_ProgressDeadline := Some (number r "progress_deadline") |>
             <| w_Checkpoint := text r "checkpoint" |> <| w_NextArtifact := text r "next_artifact" |> <| w_Progress := text r "progress" |>
             <| w_Blocker := if seqb lifecycle "blocked" then text r "blocker" else ""%string |> in
  if has r "references" then w <| w_References := r_refs r |> else w.

(** work-start; the item's revision is already the next one. *)
Definition bind_actor (actor : string) (generation : Z) : tx unit :=
  when (negb (seqb actor "")) (update_bundle store generation (λ b, b <| b_native_actor := actor |>)).
Definition start (actor : string) (w : workItem) : tx workItem :=
  let w := w <| w_ProgressEpoch := w_ProgressEpoch w + 1 |> in
  _ ← match w_ProposedRole w with
      | Some role =>
          if of_maintainer m then mret tt
          else _ ← ensure (negb (seqb actor "")) (WorkRefusal "revision_conflict" (CurrentRevision (w_Revision w - 1)));
               check (requireWorkRole m role now)
      | None => mret tt
      end;
  got ← acquire store (w_WorkID w) (mc_Consumer m) (w_ProgressEpoch w) (r_res r) now lease_seconds;
  _ ← bind_actor actor (le_Generation got);
  mret (progressed (w <| w_LastWriter := Some (mc_Consumer m) |> <| w_LastGeneration := Some (le_Generation got) |>
                      <| w_LastLeaseExpires := Some (le_ExpiresAt got) |> <| w_LeaseExpired := false |>
                      <| w_FirstStartRevision := Some (default (w_Revision w) (w_FirstStartRevision w)) |>)).

(** work-update *)
Definition update (w : workItem) : tx workItem :=
  let w := w <| w_ProgressEpoch := w_ProgressEpoch w + 1 |> in
  let generation := int_ r "claim_generation" in
  _ ← progress store (w_WorkID w) (mc_Consumer m) generation (w_ProgressEpoch w) now;
  _ ← match r_ints r !! "renew_for"%string with
      | Some duration =>
          b ← owner store (w_WorkID w) (mc_Consumer m) generation now;
          _ ← renew store (w_WorkID w) (mc_Consumer m) generation (b_revision b) now duration;
          mret tt
      | None => mret tt
      end;
  mret (progressed w).

(** work-release and work-finish *)
Definition checkout_held : State → option error := λ s,
  if has r "handoff_to" && negb (bool_decide (mkResource "exact" (text r "checkout_resource") ∈ bundleResources store (int_ r "claim_generation") s))
  then Some (workError "checkout_not_held") else None.
Definition leave (w : workItem) : tx workItem :=
  _ ← check checkout_held;
  _ ← release store (w_WorkID w) (mc_Consumer m) (int_ r "claim_generation") now;
  mret (w <| w_ProgressDeadline := None |>).
Definition release_item (w : workItem) : tx workItem :=
  w ← leave w;
  mret (w <| w_Lifecycle := "open"%string |> <| w_Checkpoint := text r "checkpoint" |> <| w_Blocker := ""%string |>).
Definition finished_at (outcome : string) (w : workItem) : workItem :=
  w <| w_Lifecycle := "finished"%string |> <| w_Outcome := Some outcome |> <| w_FinishedAt := Some now |>
    <| w_ExpiresAt := Some (fadd now (of_int workRetention)) |>.
Definition finish_item (w : workItem) : tx workItem :=
  w ← leave w;
  mret ((finished_at (text r "outcome") w) <| w_Reason := text r "reason" |> <| w_References := r_refs r |>).

(** work-report *)
Definition reporter_role (s : State) : result error (option WorkRole) :=
  if validKey (Family (mc_Native m)) (ID (mc_Native m))
  then match scanSession (millis now) (mc_Native m) s with
       | None => Err ErrMissing
       | Some session => Ok (if seqb (ss_Address session) "" then None else Some (mkWorkRole (Family (ss_Key session)) (ss_Role session)))
       end
  else Ok None.
Definition report (w : workItem) : tx workItem :=
  _ ← reserveVerdict store (w_WorkID w) l;
  let generation := int_ r "claim_generation" in
  _ ← release store (w_WorkID w) (mc_Consumer m) generation now;
  o ← gets reporter_role;
  role ← lift o;
  mret (w <| w_Lifecycle := "reported"%string |> <| w_VerdictCredit := true |> <| w_ProgressDeadline := None |> <| w_Blocker := ""%string |>
          <| w_References := r_refs r |> <| w_ReportConsumer := Some (mc_Consumer m) |> <| w_ReportActor := nativeWorkActor m |>
          <| w_Verdict := None |> <| w_VerdictSeq := None |>
          <| w_report := Some (mkWorkReport (text r "summary") None (w_ScopeRevision w) generation role) |>).

(** work-accept and work-reject *)
Definition judged (w : workItem) : workItem :=
  w <| w_Progress := ""%string |> <| w_Checkpoint := ""%string |> <| w_NextArtifact := ""%string |> <| w_Blocker := ""%string |>
    <| w_References := r_refs r |> <| w_VerdictCredit := false |> <| w_evidence := w_ReportSeq w |>.
Definition accept (w : workItem) : tx workItem := mret (finished_at "completed" ((judged w) <| w_Verdict := Some "accepted"%string |>)).
Definition reject (w : workItem) : tx workItem :=
  let w := (judged w) <| w_Lifecycle := "open"%string |> <| w_Verdict := Some "rejected"%string |> in
  let w := w <| w_Title := set_if "title" (w_Title w) |> <| w_Criteria := text r "criteria" |> <| w_NonGoals := text r "non_goals" |>
             <| w_ScopeRevision := w_Revision w |> in
  _ ← scope json_float store w (mc_Consumer m) author now;
  mret w.

(** The change of an existing item by its operation, with the kind of its event *)
Definition change (actor : string) (w : workItem) : tx (string * workItem) :=
  let op := r_op r in
  let as_ (kind : string) (t : tx workItem) : tx (string * workItem) := w ← t; mret (kind, w) in
  if seqb op "work-propose" then as_ "proposed"%string (propose w)
  else if seqb op "work-edit" then as_ "edited"%string (edit w)
  else if seqb op "work-start" then as_ "started"%string (start actor w)
  else if seqb op "work-update" then as_ "updated"%string (update w)
  else if seqb op "work-release" then as_ "released"%string (release_item w)
  else if seqb op "work-finish" then as_ "finished"%string (finish_item w)
  else if seqb op "work-report" then as_ "reported"%string (report w)
  else if seqb op "work-accept" then as_ "accepted"%string (accept w)
  else if seqb op "work-reject" then as_ "rejected"%string (reject w)
  else mret (""%string, w).
End changes.

(** ** The transaction of a mutation *)

Section apply.
Context `{SHA : Sha256}.
Variable json_float : float → string.
Variable processStart : Z → ProcessStart.

(** checkout_role.go, [notifyCheckoutHandoff]: the message to the exact peer that takes the
    role over joins the release. *)
Definition peer_in (repo : string) (name : string) (s : State) : option NameRow :=
  n ← names s !! name;
  if bool_decide (n_kind n = Peer) && seqb (n_repository n) repo then Some n else None.
Definition handoff_body (r : workRequest) : string := json_object
  [("checkpoint", json_string (text r "checkpoint")); ("claim_generation", itoa (int_ r "claim_generation"));
   ("meaning", json_string "Writer role released to you. Read the checkpoint and the checkout status, then call work_start with this resource to take the role.");
   ("resource", json_strings ["exact"; text r "checkout_resource"]); ("type", json_string "checkout_writer_handoff");
   ("work_id", json_string (text r "work_id"))]%string.
Definition notifyCheckoutHandoff (now_send : Z) (m : MemoryCaller) (r : workRequest) : tx Outcome :=
  o ← gets (peer_in (mc_Repository m) (mc_Name m));
  n ← row (o : option NameRow) ErrCallerInactive;
  _ ← ensure (seqb (n_family n) (mc_Family m)) ErrCallerInactive;
  let caller := mkKey (n_family n) (n_session_id n) in
  o ← gets (peer_in (mc_Repository m) (text r "handoff_to"));
  n' ← row (o : option NameRow) (workError "invalid_recipient");
  _ ← ensure (negb (keqb (mkKey (n_family n') (n_session_id n')) caller)) invalid;
  sendTx processStart now_send caller (text r "handoff_to") (handoff_body r) false.

(** The operations that prove a claim: those of its owner, and an edit under a live claim *)
Definition owned (r : workRequest) (now : float) (held : option (Z * BundleRow)) : bool :=
  one_of (r_op r) ["work-update"; "work-release"; "work-finish"; "claim-renew"; "work-report"]%string ||
  (seqb (r_op r) "work-edit" && match held with Some (_, b) => live now b | None => false end).

(** The refusals by the lifecycle of the item *)
Definition lifecycle_refusal (m : MemoryCaller) (r : workRequest) (w : workItem) (_ : State) : option error :=
  let reported := seqb (w_Lifecycle w) "reported" in
  if seqb (w_Lifecycle w) "finished" then Some (workError "invalid_transition")
  else if reported && negb (seqb (r_op r) "work-propose") && negb (workVerdict (r_op r)) then Some (workError "invalid_transition")
  else if workVerdict (r_op r) then
    if negb reported then Some (workError "invalid_transition")
    else match requireVerdictCaller m w with
         | Some e => Some e
         | None => if bool_decide (w_ReportSeq w = Some (int_ r "report_seq")) then None
                   else Some (WorkRefusal "stale_report" (CurrentReportSeq (w_ReportSeq w)))
         end
  else None.

(** The proof of a claim, with the actor that its retry record is bound to *)
Definition prove_claim (store : string) (m : MemoryCaller) (r : workRequest) (now : float) (w : workItem) (held : option (Z * BundleRow)) : tx string :=
  _ ← ensure (negb (match held with
                    | Some (_, b) => negb (seqb (b_native_actor b) "") && negb (of_maintainer m) && negb (seqb (b_native_actor b) (nativeWorkActor m))
                    | None => false
                    end)) (workError "stale_claim");
  _ ← ensure (has r "claim_generation") invalid;
  b ← owner store (w_WorkID w) (mc_Consumer m) (int_ r "claim_generation") now;
  _ ← ensure (b_progress_epoch b =? w_ProgressEpoch w) ErrIncompatible;
  mret (if seqb (b_native_actor b) "" then r_actor r else b_native_actor b).

(** claim-renew writes no event. *)
Definition renew_claim (store : string) (m : MemoryCaller) (r : workRequest) (now : float) (actor print : string) (w : workItem) : tx WorkResult :=
  renewed ← renew store (w_WorkID w) (mc_Consumer m) (int_ r "claim_generation") (int_ r "if_claim_revision") now (lease_seconds r);
  let result := mkWorkResult (w_WorkID w) (w_Revision w) None false (Some renewed) None false in
  _ ← storeReplay json_float store m r actor print result now;
  mret result.

(** The event, the hand over, the result and the retry record of a change *)
Definition complete (store : string) (m : MemoryCaller) (r : workRequest) (now : float) (now_send : Z) (actor print kind : string) (w : workItem) : tx WorkResult :=
  w ← event json_float store m w kind (mc_Consumer m) (author r) now;
  message ← (if has r "handoff_to" then o ← notifyCheckoutHandoff now_send m r; mret (Some o) else mret None);
  held ← gets (bundleFor store (w_WorkID w));
  let claim := if seqb (r_op r) "work-start" || seqb (r_op r) "work-update"
               then (λ gb, mkLease gb.1 (b_revision gb.2) (b_expires_at gb.2)) <$> (held : option (Z * BundleRow)) else None in
  let result := mkWorkResult (w_WorkID w) (w_Revision w) (Some (w_LatestSeq w)) false claim message (has r "handoff_to") in
  _ ← storeReplay json_float store m r actor print result now;
  mret result.

(** [apply] *)
Definition apply (store : string) (l : memoryLimits) (m : MemoryCaller) (r : workRequest) (now : float) (now_send : Z) (print : string) : tx WorkResult :=
  _ ← check (requireNativeWorkCaller m (r_actor r) now);
  if seqb (r_op r) "work-create" then
    w ← create json_float store m r now;
    complete store m r now now_send (r_actor r) print "created" w
  else
    w ← current store (text r "work_id") now;
    _ ← check (lifecycle_refusal m r w);
    held ← gets (bundleFor store (w_WorkID w));
    actor ← (if owned r now held then prove_claim store m r now w held else mret (r_actor r));
    if seqb (r_op r) "claim-renew" then renew_claim store m r now actor print w
    else
      _ ← ensure (int_ r "if_revision" =? w_Revision w) (WorkRefusal "revision_conflict" (CurrentRevision (w_Revision w)));
      _ ← ensure (negb (w_Revision w =? max_int64)) (workError "capacity");
      '(kind, w) ← change json_float store l m r now actor (w <| w_Revision := w_Revision w + 1 |>);
      complete store m r now now_send actor print kind w.
End apply.
