(* ===== verification/Works.v ===== *)
(** * Work operations (internal/core/work.go, internal/core/work_role.go, internal/core/work_maintenance.go)

    The transactions around a mutation: the retry record that answers first, the due
    transition of the item, the room for a new item, and the background sweep.  All of them hold
    the lock of memory operations, so no other work operation comes between. *)

From S2P Require Import Prelude GoString GoFloat Schema Sql Label Fixture Storage Names Messages Cycles Sessions Participants Leases WorkViews MemoryLimits MemoryExpiry WorkItems WorkOps.
Open Scope Z_scope.

Section works.
Context `{SHA : Sha256}.
(** The JSON text of a float64; the process table; the JSON of a library decision *)
Variable json_float : float → string.
Variable processStart : Z → ProcessStart.
Variable json_library : string → option string.
Variable l : memoryLimits.

(** ** A work transaction *)

(** [INSERT OR IGNORE INTO memory_stores], with a new random ID *)
Definition ensure_store (repo fresh : string) : tx string :=
  _ ← modify (λ s, match memory_stores s !! repo with
                   | Some _ => s
                   | None => s <| memory_stores := <[repo := mkStoreRow fresh 0 0 0 0 0]> (memory_stores s) |>
                   end);
  o ← gets (storeOf repo);
  mret (default ""%string (o : option string)).
(** [workWrite], inside its transaction *)
Definition workTx {A} (repo fresh : string) (class : writeClass) (body : string → tx A) : tx A :=
  store ← ensure_store repo fresh;
  a ← body store;
  _ ← check (enforced json_float l class repo);
  mret a.
Definition workWrite {A} (repo fresh : string) (class : writeClass) (audited : bool) (at_ : Z) (audit : option PendingAudit) (en : Engine)
    (body : string → tx A) (st : Store) : result error A * Store :=
  write (mkWrite class audited at_ audit (λ _, None)) en (workTx repo fresh class body) st.

(** ** Retries *)

(** [replay]: a keyed retry gets its original result before every precondition. *)
Definition replay (m : MemoryCaller) (r : workRequest) (now : float) (now_ms : Z) (s : State) : result error (string * option WorkResult) :=
  if negb (keyed r) then Ok (""%string, None)
  else match requireParticipantCaller now_ms m s with
  | Some e => Err e
  | None =>
      let deadline := number r "deadline" in
      if fleb deadline now then Err (workError "retry_deadline_expired")
      else if fltb (fadd now (l_idemTTL l)) deadline then Err invalid
      else
        let print := fingerprint json_float (mc_Consumer m) r in
        match storeOf (mc_Repository m) s with
        | None => Ok (print, None)
        | Some store =>
            match work_replays s !! (store, mc_Consumer m, text r "key") with
            | None => Ok (print, None)
            | Some q =>
                match requireNativeWorkCaller m (wq_native_actor q) now s with
                | Some e => Err e
                | None =>
                    if negb (seqb (wq_scheme q) fingerprintScheme && seqb (wq_fingerprint q) print && seqb (wq_operation q) (r_op r))
                    then Err (workError "idempotency_conflict")
                    else Ok (print, Some ((wq_result q) <| wr_Duplicate := true |>))
                end
            end
        end
  end.

(** ** Due transitions *)

(** [reconcile], inside its transaction: the event of the one transition that is due, an expiry
    before overdue progress.  [w] and [held] were read before the transaction began. *)
Definition reconcileTx (repo : string) (w : workItem) (g : Z) (held : BundleRow) (now : float) (store : string) : tx unit :=
  let w := w <| w_Revision := w_Revision w + 1 |> in
  let daemon := mkMemoryCaller repo "" "" "" (mkKey "" "") false in
  '(kind, w) ← (if fleb (b_expires_at held) now
                then _ ← expire store g now; mret ("lease-expired"%string, w <| w_LeaseExpired := true |>)
                else _ ← overdue store g (w_ProgressEpoch w); mret ("progress-overdue"%string, w));
  _ ← event json_float store daemon w kind (b_consumer held) None now;
  mret tt.
Definition due_progress (w : workItem) (held : BundleRow) (now : float) : bool :=
  match w_ProgressDeadline w with Some d => fleb d now | None => false end && negb (b_overdue_recorded held).
(** What is due for an item: nothing, a refusal, or a transition *)
Definition due_of (store workID : string) (now : float) (s : State) : result error (option (workItem * Z * BundleRow)) :=
  match current store workID now s with
  | Err e => Err e
  | Ok (w, _) =>
      match bundleFor store workID s with
      | Some (g, held) =>
          if negb (b_active held) then Ok None
          else if negb (b_progress_epoch held =? w_ProgressEpoch w) then Err ErrIncompatible
          else if fleb (b_expires_at held) now || due_progress w held now then Ok (Some (w, g, held)) else Ok None
      | None => Ok None
      end
  end.
Definition reconcile (repo fresh workID : string) (now : float) (en : Engine) (st : Store) : result error unit * Store :=
  match storeOf repo (tables st) with
  | None => (Ok tt, st)
  | Some store =>
      match due_of store workID now (tables st) with
      | Err e => (Err e, st)
      | Ok None => (Ok tt, st)
      | Ok (Some (w, g, held)) => workWrite repo fresh control false 0 None en (reconcileTx repo w g held now) st
      end
  end.

(** ** Reclamation *)

(** [reclaimInactive]: an item's inactive bundle goes before its next start. *)
Definition reclaimInactiveTx (workID store : string) : tx unit :=
  held ← gets (bundleFor store workID);
  match (held : option (Z * BundleRow)) with
  | Some (g, b) => when (negb (b_active b)) (delete_bundle store g)
  | None => mret tt
  end.
Definition reclaimInactive (repo fresh workID : string) (en : Engine) (st : Store) : result error unit * Store :=
  match storeOf repo (tables st) with
  | None => (Ok tt, st)
  | Some store =>
      match bundleFor store workID (tables st) with
      | Some (_, b) => if b_active b then (Ok tt, st) else workWrite repo fresh ordinary false 0 None en (reclaimInactiveTx workID) st
      | None => (Ok tt, st)
      end
  end.

(** A finished item that expires by a time ([None]: any time), the oldest first *)
Definition expires_by (now : option float) (w : workItem) : bool :=
  match w_ExpiresAt w, now with Some e, Some n => fleb e n | Some _, None => true | None, _ => false end.
Definition oldest_key (w : workItem) : (float * string) := (default (of_int 0) (w_ExpiresAt w), w_WorkID w).
Definition older (x y : workItem) : Prop :=
  let '(e, i) := oldest_key x in let '(e', i') := oldest_key y in fltb e e' = true ∨ fltb e' e = false ∧ String.leb i i' = true.
#[export] Instance older_dec : RelDecision older.
Proof. intros x y. unfold older. apply _. Defined.
Definition oldest_finished (store : string) (now : option float) (s : State) : option string :=
  w_WorkID <$> head (merge_sort older (snd <$> select (λ k w, seqb k.1 store && seqb (w_Lifecycle w) "finished" && expires_by now w) (work_items s))).

(** The history of an item and its stream entries, in agreement *)
Definition events_of_item (store workID : string) (k : string * Z) (e : WorkEventRow) : bool := seqb k.1 store && seqb (we_work_id e) workID.
Definition entry_agrees (repo : string) (s : State) (k : string * Z) (e : WorkEventRow) : bool :=
  match memory_entries s !! (repo, k.2) with
  | Some en => seqb (en_type en) workEventType && bool_decide (en_scope_target en = Some (we_work_id e)) && (en_revision en =? we_revision e) &&
               seqb (en_body en) "" && bool_decide (en_expires en = None) && bool_decide (en_supersedes en = None) && bool_decide (en_revokes en = None)
  | None => false
  end.
Definition stray_entry (repo store workID : string) (s : State) (k : string * Z) (en : EntryRow) : bool :=
  seqb k.1 repo && seqb (en_type en) workEventType && bool_decide (en_scope_target en = Some workID) &&
  negb (match work_events s !! (store, k.2) with Some e => seqb (we_work_id e) workID | None => false end).
Definition reclaimFinishedTx (repo workID : string) (now : option float) (store : string) : tx bool :=
  o ← gets (λ s, work_items s !! (store, workID));
  match (o : option workItem) with
  | Some w =>
      if negb (seqb (w_Lifecycle w) "finished" && expires_by now w) then mret false
      else
        held ← gets (bundleFor store workID);
        match (held : option (Z * BundleRow)) with
        | Some (_, b) => if b_active b then throw ErrIncompatible else mret false
        | None =>
            scopes ← gets (λ s, count_where (λ k _, seqb k.1.1 store && seqb k.1.2 workID) (work_scope_revisions s));
            events ← gets (λ s, select (events_of_item store workID) (work_events s));
            let events : list ((string * Z) * WorkEventRow) := events in
            let highest := foldr (λ ke acc, Z.max ke.1.2 acc) 0 events in
            let n := Z.of_nat (length events) in
            _ ← ensure ((1 <=? scopes) && (scopes <=? l_workScopesPerItem l) && (1 <=? n) && (n <=? l_workEvents l) && (highest =? w_LatestSeq w)) ErrIncompatible;
            inconsistent ← gets (λ s, existsb (λ ke, negb (entry_agrees repo s ke.1 ke.2)) events || exists_where (stray_entry repo store workID s) (memory_entries s));
            _ ← ensure (negb inconsistent) ErrIncompatible;
            _ ← modify (λ s, s <| memory_entries := filter (λ ke, bool_decide (ke.1.1 = repo) &&
                   match work_events s !! (store, ke.1.2) with Some e => seqb (we_work_id e) workID | None => false end = false) (memory_entries s) |>);
            _ ← modify (λ s, s <| work_events := filter (λ ke, events_of_item store workID ke.1 ke.2 = false) (work_events s) |>);
            _ ← modify (λ s, s <| work_scope_revisions := filter (λ ke, seqb ke.1.1.1 store && seqb ke.1.1.2 workID = false) (work_scope_revisions s) |>);
            _ ← modify (λ s, s <| work_items := delete (store, workID) (work_items s) |>);
            _ ← update_store store (λ r, r <| sto_floor := Z.max (sto_floor r) highest |>);
            mret true
        end
  | None => mret false
  end.
Definition reclaimFinished (repo fresh store : string) (now : option float) (en : Engine) (st : Store) : result error bool * Store :=
  match oldest_finished store now (tables st) with
  | None => (Ok false, st)
  | Some workID => workWrite repo fresh control false 0 None en (reclaimFinishedTx repo workID now) st
  end.

(** [makeRoom]: a store at its item limit gives up its oldest finished item before a create. *)
Definition makeRoom (repo fresh : string) (en1 en2 : Engine) (st : Store) : result error unit * Store :=
  match storeOf repo (tables st) with
  | None => (Ok tt, st)
  | Some store =>
      if count_where (λ k _, seqb k.1 store) (work_items (tables st)) <? l_workItems l then (Ok tt, st)
      else match oldest_finished store None (tables st) with
           | None => (Ok tt, st)
           | Some oldest =>
               match reclaimInactive repo fresh oldest en1 st with
               | (Err e, st1) => (Err e, st1)
               | (Ok _, st1) => let '(o, st2) := reclaimFinished repo fresh store None en2 st1 in
                                (match o with Ok _ => Ok tt | Err e => Err e end, st2)
               end
           end
  end.

(** ** Mutations *)

(** The engine's answers for the writes of one operation *)
Record Engines := mkEngines { en_expire : nat → Engine; en_due : Engine; en_room : Engine; en_clear : Engine; en_main : Engine }.

Definition work_class (r : workRequest) : writeClass :=
  if (seqb (r_op r) "work-release" && negb (has r "handoff_to")) || seqb (r_op r) "work-finish" || workVerdict (r_op r) then control else ordinary.
Definition deadline_ok (r : workRequest) (now : float) : bool :=
  negb (has r "progress_deadline") ||
  (fltb now (number r "progress_deadline") && fleb (number r "progress_deadline") (fadd now (of_int 86400))).
(** A verdict of the reporting worker is refused before any replay. *)
Definition verdict_refusal (m : MemoryCaller) (r : workRequest) (now : float) (s : State) : option error :=
  if workVerdict (r_op r) then
    match storeOf (mc_Repository m) s with
    | None => None
    | Some store => match current store (text r "work_id") now s with Ok (w, _) => requireVerdictCaller m w | Err _ => None end
    end
  else None.
(** An unknown target never triggers maintenance. *)
Definition known_target (m : MemoryCaller) (r : workRequest) (now : float) (s : State) : option error :=
  if seqb (r_op r) "work-create" then None
  else match current (default ""%string (storeOf (mc_Repository m) s)) (text r "work_id") now s with Ok _ => None | Err e => Some e end.

(** The writes between the checks and the mutation *)
Definition prepare (fresh : string) (m : MemoryCaller) (r : workRequest) (now : float) (ens : Engines) (st : Store) : result error unit * Store :=
  let repo := mc_Repository m in
  match (if seqb (r_op r) "work-create" then makeRoom repo fresh (en_room ens) (en_due ens) st
         else reconcile repo fresh (text r "work_id") now (en_due ens) st) with
  | (Err e, st1) => (Err e, st1)
  | (Ok _, st1) => if seqb (r_op r) "work-start" then reclaimInactive repo fresh (text r "work_id") (en_clear ens) st1 else (Ok tt, st1)
  end.

Definition workMutation (fresh : string) (m : MemoryCaller) (r : workRequest) (now : float) (now_ms at_ : Z) (audit : option PendingAudit)
    (fuel : nat) (ens : Engines) (last : gmap string float) (st : Store) : result error WorkResult * Store * gmap string float :=
  match verdict_refusal m r now (tables st) with
  | Some e => (Err e, st, last)
  | None =>
      match replay m r now now_ms (tables st) with
      | Err e => (Err e, st, last)
      | Ok (_, Some original) => (Ok original, st, last)
      | Ok (print, None) =>
          if negb (deadline_ok r now) then (Err invalid, st, last)
          else match known_target m r now (tables st) with
          | Some e => (Err e, st, last)
          | None =>
              match maybeExpire json_library fuel l (mc_Repository m) now (en_expire ens) last st with
              | (Err e, st1, last1) => (Err e, st1, last1)
              | (Ok _, st1, last1) =>
                  match prepare fresh m r now ens st1 with
                  | (Err e, st2) => (Err e, st2, last1)
                  | (Ok _, st2) =>
                      (workWrite (mc_Repository m) fresh (work_class r) true at_ audit (en_main ens)
                         (λ store, apply json_float processStart store l m r now now_ms print) st2, last1)
                  end
              end
          end
      end
  end.

(** ** Callers *)

(** work_role.go, [roleWorkCaller]: the caller's consumer key and actor for a role claim *)
Definition ownerOperation (op : string) : bool :=
  one_of op ["work-update"; "work-edit"; "work-release"; "work-finish"; "claim-renew"; "work-report"]%string.
Definition nativeWorkConsumer (m : MemoryCaller) : string := "native-work:" +:+ nativeWorkActor m.
Definition roleWorkCaller (m : MemoryCaller) (r : workRequest) (now : float) (s : State) : result error (MemoryCaller * workRequest) :=
  match storeOf (mc_Repository m) s with
  | None => Ok (m, r)
  | Some store =>
      if seqb (r_op r) "work-create" || workRead (r_op r) || seqb (r_op r) "work-propose" then Ok (m, r)
      else
        let actor := nativeWorkActor m in
        let consumer := nativeWorkConsumer m in
        let replayed := keyed r && negb (seqb actor "") && negb (mc_ConsumerExplicit m) &&
          match work_replays s !! (store, consumer, text r "key") with Some q => negb (seqb (wq_native_actor q) "") | None => false end in
        match (match bundleFor store (text r "work_id") s with
               | Some (_, b) =>
                   if ownerOperation (r_op r) && negb (seqb (b_native_actor b) "") &&
                      (negb (seqb (r_op r) "work-edit") || live now b || has r "claim_generation")
                   then if seqb (b_native_actor b) actor then Ok true else Err (workError "stale_claim")
                   else Ok replayed
               | None => Ok replayed
               end) with
        | Err e => Err e
        | Ok bound =>
            match (if seqb (r_op r) "work-start" && negb bound
                   then match current store (text r "work_id") now s with Ok (w, _) => Ok (bool_decide (is_Some (w_ProposedRole w))) | Err e => Err e end
                   else Ok bound) with
            | Err e => Err e
            | Ok false => Ok (m, r)
            | Ok true =>
                if seqb actor "" then Err (workError "role_not_held")
                else match requireNativeWorkCaller m actor now s with
                     | Some e => Err e
                     | None => if mc_ConsumerExplicit m && negb (seqb (mc_Consumer m) consumer) then Err invalid
                               else Ok (m <| mc_Consumer := consumer |>, r <| r_actor := actor |>)
                     end
            end
        end
  end.

(** ** The sweep *)

(** [maintainStore]: the due transitions of a store, at most 32, then one inactive bundle and
    one expired item *)
Definition workSweepLimit : nat := 32.
Definition is_due (now : float) (s : State) (k : string * Z) (b : BundleRow) : bool :=
  b_active b && match work_items s !! (k.1, b_work_id b) with
                | Some w => fleb (b_expires_at b) now || due_progress w b now
                | None => false
                end.
Definition due_order (x y : (string * Z) * BundleRow) : Prop :=
  fltb (b_expires_at x.2) (b_expires_at y.2) = true ∨
  fltb (b_expires_at y.2) (b_expires_at x.2) = false ∧ String.leb (b_work_id x.2) (b_work_id y.2) = true.
#[export] Instance due_order_dec : RelDecision due_order.
Proof. intros x y. unfold due_order. apply _. Defined.
Definition due_items (store : string) (now : float) (s : State) : list string :=
  (λ kb, b_work_id kb.2) <$> take workSweepLimit (merge_sort due_order (select (λ k b, seqb k.1 store && is_due now s k b) (claim_bundles s))).
Fixpoint reconcile_all (repo fresh : string) (items : list string) (now : float) (en : string → Engine) (st : Store) : result error unit * Store :=
  match items with
  | [] => (Ok tt, st)
  | workID :: items =>
      match reconcile repo fresh workID now (en workID) st with
      | (Err e, st1) => (Err e, st1)
      | (Ok _, st1) => reconcile_all repo fresh items now en st1
      end
  end.
Definition maintainStore (repo fresh store : string) (now : float) (en : string → Engine) (en_one en_item : Engine) (st : Store) : result error bool * Store :=
  match reconcile_all repo fresh (due_items store now (tables st)) now en st with
  | (Err e, st1) => (Err e, st1)
  | (Ok _, st1) =>
      match (if exists_where (λ k b, seqb k.1 store && negb (b_active b)) (claim_bundles (tables st1))
             then workWrite repo fresh control false 0 None en_one reclaimOne st1 else (Ok false, st1)) with
      | (Err e, st2) => (Err e, st2)
      | (Ok _, st2) => reclaimFinished repo fresh store (Some now) en_item st2
      end
  end.
End works.
