(* ===== verification/WorkNotices.v ===== *)
(** * Work notices (internal/core/work_notifications.go)

    After a work transition the daemon tells the audiences that it concerns: the role or consumer
    that is assigned, the creator of a reported item, the worker of a judged one.  The audiences
    are read again from the events that are kept, so a notice that was not written in time is
    written later; each audience has one row with the head it knows, the head of its last notice
    and the message that still waits. *)

From S2P Require Import Prelude GoString GoFloat Schema Sql Label Fixture Storage Names Messages Cycles Sessions Participants Leases WorkViews MemoryLimits MemoryExpiry WorkItems WorkOps Works.
Open Scope Z_scope.

Record workAudience := mkAudience { ad_Kind : string; ad_Family : string; ad_Role : string; ad_Consumer : string; ad_Native : Key }.
Definition no_key : Key := mkKey "" "".
Definition role_audience (r : WorkRole) : workAudience := mkAudience "role" (wk_Family r) (wk_Role r) "" no_key.
Definition consumer_audience (consumer : string) : workAudience := mkAudience "consumer" "" "" consumer no_key.
Definition native_audience (k : Key) : workAudience := mkAudience "native" "" "" "" k.
(** [encoding]; a structure is never empty, so the key is always written. *)
Definition audience_encoding (a : workAudience) : string := "{" +:+ comma_sep ((λ kv : string * string, json_string kv.1 +:+ ":" +:+ kv.2) <$>
  [("kind", json_string (ad_Kind a))] ++ omit_empty "family" (json_string (ad_Family a)) (seqb (ad_Family a) "") ++ omit_empty "role" (json_string (ad_Role a)) (seqb (ad_Role a) "") ++
  omit_empty "consumer" (json_string (ad_Consumer a)) (seqb (ad_Consumer a) "") ++
  [("native", json_object [("family", json_string (Family (ad_Native a))); ("id", json_string (ID (ad_Native a)))])]) +:+ "}".

(** [assignmentAudience], of the payload of an event *)
Definition assignmentAudience (v : WorkView) : option workAudience :=
  match w_ProposedRole (v_item v) with
  | Some r => Some (role_audience r)
  | None => consumer_audience <$> w_ProposedAssignee (v_item v)
  end.
(** [recordedNativeActor]: the text before the first colon and the one after it *)
Fixpoint cut_colon (b : bytes) : option (bytes * bytes) :=
  match b with
  | [] => None
  | c :: b => if bool_decide (c = ":"%char) then Some ([], b) else (λ p, (c :: p.1, p.2)) <$> cut_colon b
  end.
Definition recordedNativeActor (actor : string) : Key :=
  match cut_colon (to_bytes actor) with
  | Some (family, id) => if validKey (of_bytes family) (of_bytes id) then mkKey (of_bytes family) (of_bytes id) else no_key
  | None => no_key
  end.

Section notices.
Context `{SHA : Sha256}.
Variable json_float : float → string.
Variable l : memoryLimits.

Definition audience_key (a : workAudience) : string := hex_sum (to_bytes (audience_encoding a)).

(** ** The audiences of the kept events *)

Record workAudienceHead := mkHead { ah_audience : workAudience; ah_head : Z; ah_creators : gset Key; ah_human : bool }.
#[export] Instance workAudienceHead_eta : Eta workAudienceHead := λ h, mkHead (ah_audience h) (ah_head h) (ah_creators h) (ah_human h).

(** A row of the query: an event of an item that is kept, with the family that wrote its entry *)
Record AudienceEvent := mkAudienceEvent { ae_seq : Z; ae_kind : string; ae_payload : WorkView; ae_actor : string; ae_family : string }.
Definition audience_kinds : list string := ["created"; "proposed"; "edited"; "reported"; "accepted"; "rejected"; "lease-expired"; "progress-overdue"].
Definition kept_item (store : string) (now : float) (workID : string) (s : State) : bool :=
  match work_items s !! (store, workID) with
  | Some w => match w_ExpiresAt w with None => true | Some at_ => fltb now at_ end
  | None => false
  end.
Definition writer_family (store : string) (seq : Z) (s : State) : string :=
  match first_key (λ _ m, seqb (sto_store_id m) store) (memory_stores s) with
  | Some repo => from_option en_writer_family "" (memory_entries s !! (repo, seq))
  | None => ""
  end.
Definition audience_events (store : string) (now : float) (s : State) : list AudienceEvent :=
  (λ ke : (string * Z) * WorkEventRow, mkAudienceEvent ke.1.2 (we_kind ke.2) (we_payload ke.2) (we_actor ke.2) (writer_family store ke.1.2 s)) <$>
    order_by (λ ke : (string * Z) * WorkEventRow, ke.1.2)
      (select (λ k e, seqb k.1 store && one_of (we_kind e) audience_kinds && kept_item store now (we_work_id e) s) (work_events s)).

(** The state of the loop *)
Record Routing := mkRouting {
  ro_heads : gmap string workAudienceHead; ro_previous : gmap string (option workAudience); ro_creators : gmap string Key;
  ro_humans : gmap string bool; ro_reports : gmap Z workAudience }.
#[export] Instance Routing_eta : Eta Routing := λ r, mkRouting (ro_heads r) (ro_previous r) (ro_creators r) (ro_humans r) (ro_reports r).
(** [add] *)
Definition raise_head (a : option workAudience) (head : Z) (heads : gmap string workAudienceHead) : gmap string workAudienceHead :=
  match a with
  | None => heads
  | Some a =>
      let h := default (mkHead a 0 ∅ false) (heads !! audience_key a) in
      <[audience_key a := h <| ah_head := Z.max (ah_head h) head |> ]> heads
  end.
Definition same_audience (a b : option workAudience) : bool :=
  match a, b with Some a, Some b => seqb (audience_key a) (audience_key b) | _, _ => false end.
(** The worker that reported *)
Definition report_audience (e : AudienceEvent) : workAudience :=
  match v_Report (ae_payload e) with
  | Some r => match wp_ParticipantRole r with Some role => role_audience role | None => native_audience (recordedNativeActor (ae_actor e)) end
  | None => native_audience (recordedNativeActor (ae_actor e))
  end.
(** The provenance of a reported item on the head of its creator *)
Definition with_creator (creator : Key) (human : bool) (h : workAudienceHead) : workAudienceHead :=
  h <| ah_creators := if validKey (Family creator) (ID creator) then {[creator]} ∪ ah_creators h else ah_creators h |> <| ah_human := ah_human h || human |>.
Definition is_verdict (e : AudienceEvent) : bool := seqb (ae_kind e) "accepted" || seqb (ae_kind e) "rejected".
Definition route (e : AudienceEvent) (r : Routing) : Routing :=
  let v := ae_payload e in
  let id := w_WorkID (v_item v) in
  let assigned := assignmentAudience v in
  let reported := seqb (ae_kind e) "reported" in
  let heads := if reported then ro_heads r else raise_head assigned (ae_seq e) (ro_heads r) in
  let old := mjoin (ro_previous r !! id) in
  let heads := if seqb (ae_kind e) "proposed" && negb (same_audience assigned old) then raise_head old (ae_seq e) heads else heads in
  let created := seqb (ae_kind e) "created" in
  let creators := if created then <[id := recordedNativeActor (ae_actor e)]> (ro_creators r) else ro_creators r in
  let humans := if created then <[id := seqb (ae_family e) (Family maintainerKey)]> (ro_humans r) else ro_humans r in
  let creator := consumer_audience (w_CreatedConsumer (v_item v)) in
  let heads := if reported
    then alter (with_creator (default no_key (creators !! id)) (default false (humans !! id))) (audience_key creator) (raise_head (Some creator) (ae_seq e) heads)
    else heads in
  let reports := if reported then <[ae_seq e := report_audience e]> (ro_reports r) else ro_reports r in
  let heads := if is_verdict e
    then match w_ReportSeq (v_item v) with Some q => raise_head (reports !! q) (ae_seq e) heads | None => heads end
    else heads in
  mkRouting heads (<[id := assigned]> (ro_previous r)) creators humans reports.
Definition no_routing : Routing := mkRouting ∅ ∅ ∅ ∅ ∅.
(** [audienceHeads] *)
Definition audienceHeads (store : string) (now : float) (s : State) : gmap string workAudienceHead :=
  ro_heads (foldl (λ r e, route e r) no_routing (audience_events store now s)).

(** ** The recipient of an audience *)

Definition named_participant (now : Z) (repo address : string) (s : State) : Key + string :=
  match names s !! address with
  | Some n =>
      if bool_decide (n_kind n = Alias) && seqb (n_repository n) repo then
        if holds now (n_family n) (n_holder_id n) repo (n_role n) s then inl (mkKey (n_family n) (participantKey address)) else inr "unheld_participant"%string
      else inr "unresolved_participant"%string
  | None => inr "unresolved_participant"%string
  end.
Definition eligible (now : Z) (repo : string) (k : Key) (s : State) : bool :=
  validKey (Family k) (ID k) && match sessions s !! k with Some r => seqb (s_repository r) repo && active_row now r | None => false end.
Definition native_recipient (now : Z) (repo : string) (k : Key) (s : State) : Key + string :=
  if eligible now repo k s then inl k else inr "unresolved_actor"%string.
Definition role_address (repo : string) (a : workAudience) (s : State) : option string :=
  first_key (λ _ n, bool_decide (n_kind n = Alias) && seqb (n_family n) (ad_Family a) && seqb (n_role n) (ad_Role a) && seqb (n_repository n) repo) (names s).
Definition consumer_session (now : Z) (repo consumer : string) (s : State) : option Key :=
  first_key (λ k r, seqb (s_repository r) repo && seqb (Family k +:+ ":" +:+ ID k) consumer && active_row now r) (sessions s).
(** The part of [audienceRecipient] after the cursor of the consumer *)
Definition consumer_fallback (now : Z) (repo : string) (h : workAudienceHead) (s : State) : Key + string :=
  match consumer_session now repo (ad_Consumer (ah_audience h)) s with
  | Some k => native_recipient now repo k s
  | None => match filter (λ k, eligible now repo k s) (elements (ah_creators h)) with [k] => inl k | _ => inr "unresolved_consumer"%string end
  end.
(** [audienceRecipient]: the inbox, or the reason why there is none *)
Definition audienceRecipient (now : Z) (repo : string) (h : workAudienceHead) (s : State) : Key + string :=
  let a := ah_audience h in
  if seqb (ad_Kind a) "role" then
    match role_address repo a s with Some address => named_participant now repo address s | None => inr "unheld_role"%string end
  else if seqb (ad_Kind a) "native" then native_recipient now repo (ad_Native a) s
  else if seqb (ad_Kind a) "consumer" then
    if isParticipantID (ad_Consumer a) then named_participant now repo (trim_prefix (ad_Consumer a) participantPrefix) s
    else if seqb (ad_Consumer a) "maintainer" && ah_human h then inl maintainerKey
    else
      match memory_cursors s !! (repo, ad_Consumer a) with
      | Some c =>
          if seqb (cu_actor c) "" then consumer_fallback now repo h s
          else match native_recipient now repo (recordedNativeActor (cu_actor c)) s with inl k => inl k | inr _ => consumer_fallback now repo h s end
      | None => consumer_fallback now repo h s
      end
  else inr "unresolved_audience"%string.

(** ** One audience *)

(** A notice waits while its recipient has not acknowledged it. *)
Definition pending_notice (message : option Z) (s : State) : bool :=
  match message with
  | Some id => match messages s !! id with
               | Some m => match sessions s !! m_recipient m with Some r => s_acked_through r <? m_seq m | None => false end
               | None => false
               end
  | None => false
  end.
Definition set_audience (store key : string) (f : AudienceRow → AudienceRow) : tx unit :=
  modify (λ s, s <| work_audiences := alter f (store, key) (work_audiences s) |>).
Definition notice_body (repo : string) (head : Z) : string :=
  "Koinon work in " +:+ json_string repo +:+ " has changes through head " +:+ itoa head +:+ ". Read current work queries and memory_sync through that head.".
Definition notice_row (recipient : Key) (seq : Z) (repo : string) (head now : Z) : MessageRow :=
  new_message recipient seq (mkKey "daemon" "work") "koinon-daemon" (notice_body repo head) now.
Definition send_notice (now sent : Z) (repo store key : string) (head : Z) (recipient : Key) : tx unit :=
  _ ← when (isParticipantID (ID recipient)) (ensureParticipantInbox now (trim_prefix (ID recipient) participantPrefix));
  o ← gets (λ s, sessions s !! recipient);
  r ← row (o : option SessionRow) NoRows;
  let seq := s_last_seq r + 1 in
  _ ← modify (λ s, s <| sessions := <[recipient := r <| s_last_seq := seq |> ]> (sessions s) |>);
  id ← insert_message (notice_row recipient seq repo head sent);
  _ ← bumpInbox recipient;
  set_audience store key (λ a, a <| wa_head := head |> <| wa_notice_head := head |> <| wa_message_id := Some id |> <| wa_reason := "" |>).
(** The transaction of [reconcileAudience]; the readings of the clock are those of the recipient,
    of a new inbox and of the message *)
Definition audience_count (store : string) (s : State) : Z := count_where (λ k _, seqb k.1 store) (work_audiences s).
Definition notify_audience (now inbox_now sent : Z) (repo store key : string) (h : workAudienceHead) (a : AudienceRow) : tx unit :=
  _ ← modify (λ s, s <| work_audiences := <[(store, key) := a]> (work_audiences s) |>);
  let head := Z.max (wa_head a) (ah_head h) in
  waiting ← gets (pending_notice (wa_message_id a));
  if (waiting : bool) then set_audience store key (λ a, a <| wa_head := head |>)
  else if head <=? wa_notice_head a then set_audience store key (λ a, a <| wa_message_id := None |> <| wa_reason := "" |>)
  else
    to ← gets (audienceRecipient now repo h);
    match to with
    | inr reason => set_audience store key (λ a, a <| wa_head := head |> <| wa_message_id := None |> <| wa_reason := reason |>)
    | inl recipient => send_notice inbox_now sent repo store key head recipient
    end.
Definition new_audience (h : workAudienceHead) : AudienceRow := mkAudienceRow (audience_encoding (ah_audience h)) (ah_head h) 0 None "".
Definition reconcileAudienceTx (now inbox_now sent : Z) (repo store key : string) (h : workAudienceHead) : tx unit :=
  o ← gets (λ s, work_audiences s !! (store, key));
  full ← gets (λ s, maxWorkAudiences <=? audience_count store s);
  match (o : option AudienceRow), (full : bool) with
  | None, true => mret tt
  | None, false => notify_audience now inbox_now sent repo store key h (new_audience h)
  | Some a, _ => notify_audience now inbox_now sent repo store key h a
  end.
(** The unchanged audiences, which are left alone *)
Definition unchanged_audience (store key : string) (h : workAudienceHead) (s : State) : bool :=
  match work_audiences s !! (store, key) with
  | Some a => (ah_head h <=? wa_head a) &&
      match wa_message_id a with Some _ => pending_notice (wa_message_id a) s | None => wa_head a <=? wa_notice_head a end
  | None => false
  end.
Record NoticeTurn := mkNoticeTurn { nt_other : Store → Store; nt_now : Z; nt_inbox : Z; nt_sent : Z; nt_at : Z; nt_fresh : string; nt_engine : Engine }.
(** [reconcileAudience]: what runs before it holds the locks is [nt_other]. *)
Definition reconcileAudience (t : NoticeTurn) (repo store key : string) (h : workAudienceHead) (st : Store) : result error unit * Store :=
  let st := nt_other t st in
  if unchanged_audience store key h (tables st) then (Ok tt, st)
  else workWrite json_float l repo (nt_fresh t) ordinary false (nt_at t) None (nt_engine t) (λ _, reconcileAudienceTx (nt_now t) (nt_inbox t) (nt_sent t) repo store key h) st.

(** ** Audiences without events *)

Definition unused_audience (store : string) (s : State) (k : string * string) (a : AudienceRow) : bool :=
  seqb k.1 store && negb (pending_notice (wa_message_id a) s).
(** Every work transition raises the head of its store, so an unchanged head proves that the
    history is the one that was read. *)
Definition cleanTx (store key : string) (observed : Z) : tx unit :=
  o ← gets (λ s, head (select (λ _ m, seqb (sto_store_id m) store) (memory_stores s)));
  m ← row (o : option (string * StoreRow)) NoRows;
  if sto_head m.2 =? observed
  then modify (λ s, s <| work_audiences := filter (λ ka, (seqb ka.1.2 key && unused_audience store s ka.1 ka.2) = false) (work_audiences s) |>)
  else mret tt.
Fixpoint clean_keys (turns : string → NoticeTurn) (repo store : string) (observed : Z) (keys : list string) (st : Store) : result error unit * Store :=
  match keys with
  | [] => (Ok tt, st)
  | key :: keys =>
      let t := turns key in
      match workWrite json_float l repo (nt_fresh t) ordinary false (nt_at t) None (nt_engine t) (λ _, cleanTx store key observed) (nt_other t st) with
      | (Err e, st') => (Err e, st')
      | (Ok _, st') => clean_keys turns repo store observed keys st'
      end
  end.
(** [cleanWorkAudiences] *)
Definition cleanWorkAudiences (turns : string → NoticeTurn) (repo store : string) (observed : Z) (heads : gmap string workAudienceHead) (st : Store) : result error unit * Store :=
  let unused := (λ ka : (string * string) * AudienceRow, ka.1.2) <$> select (unused_audience store (tables st)) (work_audiences (tables st)) in
  clean_keys turns repo store observed (filter (λ key, heads !! key = None) unused) st.

(** ** The pass *)

(** [ReconcileWorkNotices]: the stores with items or audiences; a fault of one audience is kept
    and the pass goes on. *)
Record NoticePass := mkNoticePass { np_other : string → Store → Store; np_clock : string → float; np_clean : string → string → NoticeTurn; np_each : string → string → NoticeTurn }.
Definition notice_stores (s : State) : list (string * StoreRow) :=
  order_by_name fst (select (λ _ m, exists_where (λ k _, seqb k.1 (sto_store_id m)) (work_items s) || exists_where (λ k _, seqb k.1 (sto_store_id m)) (work_audiences s)) (memory_stores s)).
Definition faults_of (r : result error unit) : list error := match r with Ok _ => [] | Err e => [e] end.
Fixpoint reconcile_keys (turns : string → NoticeTurn) (repo store : string) (heads : list (string * workAudienceHead)) (st : Store) : list error * Store :=
  match heads with
  | [] => ([], st)
  | (key, h) :: heads =>
      let '(r, st1) := reconcileAudience (turns key) repo store key h st in
      let '(faults, st2) := reconcile_keys turns repo store heads st1 in
      (faults_of r ++ faults, st2)
  end.
Fixpoint reconcile_stores (t : NoticePass) (targets : list (string * StoreRow)) (st : Store) : list error * Store :=
  match targets with
  | [] => ([], st)
  | (repo, m) :: targets =>
      let store := sto_store_id m in
      let st := np_other t store st in
      let heads := audienceHeads store (np_clock t store) (tables st) in
      let '(r, st1) := cleanWorkAudiences (np_clean t store) repo store (sto_head m) heads st in
      let '(faults, st2) := reconcile_keys (np_each t store) repo store (order_by_name fst (map_to_list heads)) st1 in
      let '(rest, st3) := reconcile_stores t targets st2 in
      (faults_of r ++ faults ++ rest, st3)
  end.
Definition ReconcileWorkNotices (t : NoticePass) (st : Store) : list error * Store := reconcile_stores t (notice_stores (tables st)) st.

(** [workNoticeStatus] *)
Record NoticeStatus := mkNoticeStatus { ns_audiences : Z; ns_pending : Z; ns_unresolved : Z; ns_missing : Z; ns_saturated : bool }.
Definition workNoticeStatus (repo : string) (now : float) (s : State) : option NoticeStatus :=
  (λ store, let rows := count_where (λ k a, seqb k.1 store && bool_decide (is_Some (wa_message_id a))) (work_audiences s) in
     let missing := count_where (λ key _, bool_decide (work_audiences s !! (store, key) = None)) (audienceHeads store now s) in
     mkNoticeStatus (audience_count store s) rows (count_where (λ k a, seqb k.1 store && negb (seqb (wa_reason a) "")) (work_audiences s)) missing
       ((maxWorkAudiences <=? audience_count store s) && (0 <? missing))) <$> storeOf repo s.
End notices.
