(* ===== verification/WorkRequests.v ===== *)
(** * Requests of work operations (internal/core/work.go)

    The decoding of the JSON fields of a request, with strict types, and its validation.  Every
    refusal is invalid_request. *)

From S2P Require Import Prelude GoString GoFloat Schema Sql Storage Names Messages Cycles Launches Leases WorkViews MemoryLimits WorkItems.
From Stdlib Require Import Floats.SpecFloat.
Open Scope Z_scope.

(** ** Operations *)

Definition workTextLimits : list (string * Z) :=
  [("title", 256); ("criteria", 4096); ("non_goals", 2048); ("progress", 2048); ("checkpoint", 1024); ("next_artifact", 1024);
   ("blocker", 1024); ("reason", 1024); ("summary", 2048)]%string.
Definition workFields (op : string) : option (list string) :=
  let get (t : list (string * list string)) := snd <$> head (filter (λ x, seqb x.1 op = true) t) in
  get [("work-create", ["title"; "criteria"; "non_goals"; "proposed_assignee"; "proposed_role"; "references"]);
   ("work-get", ["work_id"; "revision"]);
   ("work-list", ["lifecycle"; "owner"; "proposed_assignee"; "assigned_to_me"; "created_by_me"; "after"; "stale"; "blocked"; "limit"]);
   ("work-propose", ["work_id"; "if_revision"; "proposed_assignee"; "proposed_role"]);
   ("work-edit", ["work_id"; "if_revision"; "claim_generation"; "title"; "criteria"; "non_goals"]);
   ("work-start", ["work_id"; "if_revision"; "checkpoint"; "next_artifact"; "progress_deadline"; "lease_seconds"; "resources"]);
   ("work-update", ["work_id"; "if_revision"; "claim_generation"; "progress"; "checkpoint"; "next_artifact";
     "progress_deadline"; "lifecycle"; "blocker"; "references"; "renew_for"]);
   ("work-release", ["work_id"; "if_revision"; "claim_generation"; "checkpoint"; "handoff_to"; "checkout_resource"]);
   ("work-finish", ["work_id"; "if_revision"; "claim_generation"; "outcome"; "reason"; "references"]);
   ("claim-renew", ["work_id"; "claim_generation"; "if_claim_revision"; "lease_seconds"]);
   ("work-report", ["work_id"; "if_revision"; "claim_generation"; "summary"; "references"]);
   ("work-accept", ["work_id"; "if_revision"; "report_seq"; "references"]);
   ("work-reject", ["work_id"; "if_revision"; "report_seq"; "references"; "title"; "criteria"; "non_goals"])]%string.
Definition WorkRequired (op : string) : list string :=
  let get (t : list (string * list string)) := default [] (snd <$> head (filter (λ x, seqb x.1 op = true) t)) in
  get [("work-create", ["title"; "criteria"; "non_goals"; "key"; "deadline"]);
   ("work-get", ["work_id"]);
   ("work-propose", ["work_id"; "if_revision"]);
   ("work-edit", ["work_id"; "if_revision"]);
   ("work-start", ["work_id"; "if_revision"; "checkpoint"; "next_artifact"; "progress_deadline"; "key"; "deadline"]);
   ("work-update", ["work_id"; "if_revision"; "claim_generation"; "progress"; "checkpoint"; "next_artifact"; "progress_deadline"]);
   ("work-release", ["work_id"; "if_revision"; "claim_generation"; "checkpoint"]);
   ("work-finish", ["work_id"; "if_revision"; "claim_generation"; "outcome"]);
   ("claim-renew", ["work_id"; "claim_generation"; "if_claim_revision"]);
   ("work-report", ["work_id"; "if_revision"; "claim_generation"; "summary"; "references"; "key"; "deadline"]);
   ("work-accept", ["work_id"; "if_revision"; "report_seq"; "references"; "key"; "deadline"]);
   ("work-reject", ["work_id"; "if_revision"; "report_seq"; "references"; "criteria"; "non_goals"; "key"; "deadline"])]%string.
Definition WorkOperations : list string :=
  ["work-create"; "work-get"; "work-list"; "work-propose"; "work-edit"; "work-start"; "work-update";
   "work-release"; "work-finish"; "claim-renew"; "work-report"; "work-accept"; "work-reject"].

(** ** Decoding *)

(** A JSON value as json.Unmarshal reads it: a number as int64 and as float64, where it is one,
    and the members of an object, one for each name *)
Unset Elimination Schemes.
Inductive raw :=
| RText (v : string)
| RNumber (int : option Z) (real : option float)
| RBool (v : bool)
| RNull
| RArray (l : list raw)
| RObject (l : list (string * raw)).
Set Elimination Schemes.

(** The string of an element of []string: null leaves the empty string. *)
Definition text_element (v : raw) : option string := match v with RText s => Some s | RNull => Some ""%string | _ => None end.
Definition texts (v : raw) : option (list string) := match v with RArray l => mapM text_element l | RNull => Some [] | _ => None end.
Definition pair_element (v : raw) : option claimResource :=
  match texts v with Some [kind; key] => Some (mkResource kind key) | _ => None end.
Definition member (name : string) (l : list (string * raw)) : option raw := snd <$> head (filter (λ x, seqb x.1 name = true) l).
Definition role_value (v : raw) : option WorkRole :=
  match v with
  | RObject l =>
      match member "family" l, member "role" l with
      | Some (RText family), Some (RText role) =>
          if (Z.of_nat (length l) =? 2) && validKey family "synthetic" && (seqb role "" || ValidRole role) then Some (mkWorkRole family role) else None
      | _, _ => None
      end
  | _ => None
  end.
(** A finite time from zero to 2^63 *)
Definition time_value (x : float) : bool :=
  real_not_null x && negb (bool_decide (x = S754_infinity false)) && negb (bool_decide (x = S754_infinity true)) &&
  fleb (of_int 0) x && fleb x (of_int max_int64).

Definition nullable_fields : list string := ["proposed_assignee"; "owner"; "author"].
Definition text_fields : list string :=
  ["work_id"; "title"; "criteria"; "non_goals"; "progress"; "checkpoint"; "next_artifact"; "blocker"; "reason";
   "outcome"; "lifecycle"; "key"; "handoff_to"; "checkout_resource"; "after"; "summary"].
Definition int_fields : list string :=
  ["revision"; "if_revision"; "claim_generation"; "if_claim_revision"; "limit"; "lease_seconds"; "renew_for"; "report_seq"].
Definition time_fields : list string := ["progress_deadline"; "deadline"].
Definition bool_fields : list string := ["stale"; "blocked"; "assigned_to_me"; "created_by_me"].

Definition set_null (name : string) (r : workRequest) : workRequest := r <| r_nulls := {[name]} ∪ r_nulls r |>.
Definition decode_field (name : string) (v : raw) (r : workRequest) : option workRequest :=
  let r := r <| r_present := {[name]} ∪ r_present r |> in
  if seqb name "proposed_role" then
    match v with
    | RNull => Some (set_null name r)
    | _ => role ← role_value v; Some (r <| r_role := Some role |>)
    end
  else if one_of name nullable_fields || one_of name text_fields then
    match v with
    | RText s => Some (r <| r_text := <[name := s]> (r_text r) |>)
    | RNull => if one_of name nullable_fields then Some (set_null name r) else None
    | _ => None
    end
  else if one_of name int_fields then
    match v with RNumber (Some n) _ => Some (r <| r_ints := <[name := n]> (r_ints r) |>) | _ => None end
  else if one_of name time_fields then
    match v with RNumber _ (Some x) => if time_value x then Some (r <| r_numbers := <[name := x]> (r_numbers r) |>) else None | _ => None end
  else if one_of name bool_fields then
    match v with RBool b => Some (r <| r_bools := <[name := b]> (r_bools r) |>) | _ => None end
  else if seqb name "references" then
    match v with
    | RArray l => refs ← mapM text_element l;
                  if (Z.of_nat (length l) <=? 8) && forallb (λ s, checkText s 512) refs then Some (r <| r_refs := Some refs |>) else None
    | _ => None
    end
  else if seqb name "resources" then
    match v with RArray l => res ← mapM pair_element l; Some (r <| r_res := r_res r ++ res |>) | _ => None end
  else Some r.
Fixpoint decode_fields (allowed : list string) (fields : list (string * raw)) (r : workRequest) : option workRequest :=
  match fields with
  | [] => Some r
  | (name, v) :: fields =>
      if one_of name allowed then r ← decode_field name v r; decode_fields allowed fields r else None
  end.

(** ** Validation *)

(** checkout_role.go *)
Definition checkCheckoutKey (key : string) : bool :=
  let prefix := "checkout:v1:"%string in
  has_prefix key prefix && (len key =? len prefix + 64) && forallb is_lower_hex (drop 12 (to_bytes key)).

Definition required_of (r : workRequest) : list string :=
  WorkRequired (r_op r) ++ (if negb (workRead (r_op r)) && (has r "key" || has r "deadline") then ["key"; "deadline"]%string else []).
(** A field that was not sent, or that the check accepts *)
Definition text_ok (r : workRequest) (name : string) (ok : string → bool) : bool := match r_text r !! name with Some v => ok v | None => true end.
Definition int_ok (r : workRequest) (name : string) (ok : Z → bool) : bool := match r_ints r !! name with Some v => ok v | None => true end.
Definition nonempty_fields (r : workRequest) : list string :=
  let op := r_op r in
  if seqb op "work-create" then ["title"; "criteria"; "non_goals"]%string
  else if seqb op "work-start" then ["checkpoint"; "next_artifact"]%string
  else if seqb op "work-update" then ["progress"; "checkpoint"; "next_artifact"]%string
  else if seqb op "work-release" then ["checkpoint"]%string
  else if seqb op "work-report" then ["summary"]%string
  else if seqb op "work-reject" then ["criteria"; "non_goals"]%string ++ (if has r "title" then ["title"]%string else [])
  else if seqb op "work-edit" then filter (λ name, has r name = true) ["title"; "criteria"; "non_goals"]%string
  else [].
Definition no_refs (r : workRequest) : bool := bool_decide (default [] (r_refs r) = []).
Definition outcome_ok (r : workRequest) : bool :=
  if seqb (text r "outcome") "completed" then negb (no_refs r)
  else seqb (text r "outcome") "withdrawn" && negb (blank (text r "reason")).
Definition lifecycle_ok (op v : string) : bool :=
  seqb v "active" || seqb v "blocked" || (seqb op "work-list" && one_of v ["open"; "reported"; "finished"]%string).
Definition validate (r : workRequest) : bool :=
  let op := r_op r in
  negb (has r "proposed_assignee" && has r "proposed_role") &&
  (negb (seqb op "work-propose") || has r "proposed_assignee" || has r "proposed_role") &&
  (negb (has r "after") || checkWorkID (text r "after")) &&
  forallb (has r) (required_of r) &&
  forallb (λ name, text_ok r name checkConsumer) ["author"; "proposed_assignee"; "owner"]%string &&
  (negb (has r "work_id") || checkWorkID (text r "work_id")) &&
  forallb (λ name, int_ok r name (λ v, 1 <=? v)) ["revision"; "if_revision"; "claim_generation"; "if_claim_revision"; "report_seq"]%string &&
  forallb (λ nl, text_ok r nl.1 (λ v, seqb v "" || checkText v nl.2)) workTextLimits &&
  (negb (seqb op "work-edit") || negb (bool_decide (nonempty_fields r = []))) &&
  forallb (λ name, negb (blank (text r name))) (nonempty_fields r) &&
  forallb (λ name, int_ok r name (λ v, (minLease <=? v) && (v <=? maxLease))) ["lease_seconds"; "renew_for"]%string &&
  (negb (has r "resources") || bool_decide (is_Some (claimBundle (text r "work_id") (r_res r)))) &&
  Bool.eqb (has r "handoff_to") (has r "checkout_resource") &&
  (negb (has r "handoff_to") || checkText (text r "handoff_to") 256 && checkCheckoutKey (text r "checkout_resource")) &&
  (negb (seqb op "work-report" || workVerdict op) || negb (no_refs r)) &&
  (negb (seqb op "work-finish") || outcome_ok r) &&
  text_ok r "lifecycle" (lifecycle_ok op) &&
  (negb (seqb op "work-update" && seqb (text r "lifecycle") "blocked") || negb (blank (text r "blocker"))) &&
  int_ok r "limit" (λ v, (1 <=? v) && (v <=? 100)) &&
  (negb (keyed r) || checkText (text r "key") 128).

(** [parseWork] *)
Definition no_request (op : string) : workRequest := mkRequest op ∅ ∅ ∅ ∅ ∅ ∅ None [] None "".
Definition parseWork (op : string) (fields : gmap string raw) : result error workRequest :=
  match workFields op with
  | None => Err invalid
  | Some names =>
      let allowed := names ++ (if workRead op then [] else ["author"; "key"; "deadline"]%string) in
      match decode_fields allowed (map_to_list fields) (no_request op) with
      | Some r => if validate r then Ok r else Err invalid
      | None => Err invalid
      end
  end.

Example parse_start :
  let ok := parseWork "work-start" {["work_id"%string := RText "0123456789abcdef0123456789abcdef"; "if_revision"%string := RNumber (Some 1) None;
    "checkpoint"%string := RText "c"; "next_artifact"%string := RText "n"; "progress_deadline"%string := RNumber (Some 9) (Some (of_int 9));
    "key"%string := RText "k"; "deadline"%string := RNumber (Some 9) (Some (of_int 9)); "resources"%string := RArray [RArray [RText "path"; RText "src"]]]} in
  match ok with Ok r => r_res r = [mkResource "path" "src"] ∧ optional r "lifecycle" = None | Err _ => False end.
Proof. vm_compute. done. Qed.
Example parse_refused : parseWork "work-get" {["title"%string := RText "t"]} = Err invalid ∧ parseWork "work-get" ∅ = Err invalid.
Proof. done. Qed.
