(* ===== verification/RequestProps.v ===== *)
(** * What a parsed request carries

    A request that is accepted has only fields of its operation, each read at the type of its
    name, independently of their order, and passes the validation. *)

From S2P Require Import Prelude GoString GoFloat Schema Sql Storage Names Messages Cycles Launches Leases WorkViews MemoryLimits WorkItems WorkRequests.
Open Scope Z_scope.

(** ** The reading of a field at the type of its name *)

Definition is_text (name : string) : bool := one_of name nullable_fields || one_of name text_fields.
Definition text_of (name : string) (v : raw) : option string := if is_text name then match v with RText s => Some s | _ => None end else None.
Definition int_of (name : string) (v : raw) : option Z := if one_of name int_fields then match v with RNumber n _ => n | _ => None end else None.
Definition time_of (name : string) (v : raw) : option float :=
  if one_of name time_fields then match v with RNumber _ (Some x) => if time_value x then Some x else None | _ => None end else None.
Definition bool_of (name : string) (v : raw) : option bool := if one_of name bool_fields then match v with RBool b => Some b | _ => None end else None.
Definition null_of (name : string) (v : raw) : option unit :=
  if seqb name "proposed_role" || one_of name nullable_fields then match v with RNull => Some tt | _ => None end else None.
Definition role_of (name : string) (v : raw) : option WorkRole := if seqb name "proposed_role" then role_value v else None.
Definition refs_of (name : string) (v : raw) : option (list string) :=
  if seqb name "references" then
    match v with
    | RArray l => refs ← mapM text_element l; if (Z.of_nat (length l) <=? 8) && forallb (λ s, checkText s 512) refs then Some refs else None
    | _ => None
    end
  else None.
Definition res_of (name : string) (v : raw) : option (list claimResource) :=
  if seqb name "resources" then match v with RArray l => mapM pair_element l | _ => None end else None.
Definition known_field (name : string) : bool :=
  is_text name || one_of name int_fields || one_of name time_fields || one_of name bool_fields || one_of name ["proposed_role"; "references"; "resources"]%string.
Definition some {A} (o : option A) : bool := bool_decide (is_Some o).
(** The value has the type of its field. *)
Definition typed (name : string) (v : raw) : bool :=
  negb (known_field name) || some (text_of name v) || some (int_of name v) || some (time_of name v) || some (bool_of name v) ||
  some (null_of name v) || some (role_of name v) || some (refs_of name v) || some (res_of name v).

(** The request that fields stand for *)
Record reads (fields : gmap string raw) (r : workRequest) : Prop := {
  rq_present : ∀ n, n ∈ r_present r ↔ is_Some (fields !! n);
  rq_text : ∀ n, r_text r !! n = fields !! n ≫= text_of n;
  rq_int : ∀ n, r_ints r !! n = fields !! n ≫= int_of n;
  rq_time : ∀ n, r_numbers r !! n = fields !! n ≫= time_of n;
  rq_bool : ∀ n, r_bools r !! n = fields !! n ≫= bool_of n;
  rq_null : ∀ n, n ∈ r_nulls r ↔ is_Some (fields !! n ≫= null_of n);
  rq_role : r_role r = fields !! "proposed_role"%string ≫= role_of "proposed_role";
  rq_refs : r_refs r = fields !! "references"%string ≫= refs_of "references";
  rq_res : r_res r = default [] (fields !! "resources"%string ≫= res_of "resources") }.

(** ** One field *)

Definition put {A} (name : string) (o : option A) (m : gmap string A) : gmap string A := match o with Some a => <[name := a]> m | None => m end.
Definition mark {A} (name : string) (o : option A) (x : gset string) : gset string := match o with Some _ => {[name]} ∪ x | None => x end.
(** The change of a request by one field with these readings *)
Record field_read (name : string) (text : option string) (int : option Z) (time : option float) (bool : option bool) (null : option unit)
    (role : option WorkRole) (refs : option (list string)) (res : option (list claimResource)) (r r' : workRequest) : Prop := {
  fr_op : r_op r' = r_op r;
  fr_present : r_present r' = {[name]} ∪ r_present r;
  fr_text : r_text r' = put name text (r_text r);
  fr_int : r_ints r' = put name int (r_ints r);
  fr_time : r_numbers r' = put name time (r_numbers r);
  fr_bool : r_bools r' = put name bool (r_bools r);
  fr_null : r_nulls r' = mark name null (r_nulls r);
  fr_role : r_role r' = match role with Some x => Some x | None => r_role r end;
  fr_refs : r_refs r' = match refs with Some x => Some x | None => r_refs r end;
  fr_res : r_res r' = r_res r ++ default [] res }.
#[local] Abbreviation field_reads name v :=
  (field_read name (text_of name v) (int_of name v) (time_of name v) (bool_of name v) (null_of name v) (role_of name v) (refs_of name v) (res_of name v)).

Definition all_fields : list string := ["proposed_role"; "references"; "resources"]%string ++ nullable_fields ++ text_fields ++ int_fields ++ time_fields ++ bool_fields.
(** The names of the fields are distinct: a known name decides every test. *)
Lemma known_cases (P : string → Prop) : Forall P all_fields → (∀ name, known_field name = false → P name) → ∀ name, P name.
Proof.
  intros Hall Hno name. destruct (known_field name) eqn:E; [|by apply Hno]. rewrite Forall_forall in Hall. apply Hall.
  unfold known_field, is_text in E. rewrite !orb_true_iff, !one_of_true in E. unfold all_fields. rewrite !elem_of_app. naive_solver.
Qed.
Lemma unknown_field name : known_field name = false → is_text name = false ∧ one_of name nullable_fields = false ∧ one_of name int_fields = false ∧ one_of name time_fields = false ∧
  one_of name bool_fields = false ∧ seqb name "proposed_role" = false ∧ seqb name "references" = false ∧ seqb name "resources" = false.
Proof.
  unfold known_field. rewrite !orb_false_iff. intros ((((H1 & H2) & H3) & H4) & H5). split_and!; try done.
  - unfold is_text in H1. by apply orb_false_iff in H1 as [].
  - apply seqb_false. intros ->. done.
  - apply seqb_false. intros ->. done.
  - apply seqb_false. intros ->. done.
Qed.
(** Tests of literal names *)
Ltac eval_tests :=
  repeat match goal with
  | |- context [seqb ?a ?b] => is_ground a; is_ground b; let v := eval vm_compute in (seqb a b) in change (seqb a b) with v
  | |- context [one_of ?a ?b] => is_ground a; is_ground b; let v := eval vm_compute in (one_of a b) in change (one_of a b) with v
  | |- context [known_field ?a] => is_ground a; let v := eval vm_compute in (known_field a) in change (known_field a) with v
  | |- context [is_text ?a] => is_ground a; let v := eval vm_compute in (is_text a) in change (is_text a) with v
  end; cbn [orb negb andb].
Ltac field_done := first [done | split; [done|split; cbn; rewrite ?app_nil_r; done]].
Ltac field_cases :=
  lazymatch goal with
  | |- context [role_value RNull] => cbn; field_done
  | |- context [role_value ?v] => destruct (role_value v); cbn; field_done
  | |- context [mapM ?f ?l] => destruct (mapM f l); cbn; [|field_done]; try (destruct (_ && _); cbn; field_done); field_done
  | |- context [time_value ?x] => destruct (time_value x); field_done
  | _ => cbn; field_done
  end.

Definition field_spec (name : string) : Prop := ∀ v r,
  match decode_field name v r with Some r' => typed name v = true ∧ field_reads name v r r' | None => typed name v = false end.
Lemma decode_field_reads name : field_spec name.
Proof.
  revert name. apply (known_cases field_spec).
  - unfold all_fields. cbn [app nullable_fields text_fields int_fields time_fields bool_fields].
    repeat apply Forall_cons_2; try apply Forall_nil_2; intros v r; unfold decode_field, typed, text_of, int_of, time_of, bool_of, null_of, role_of, refs_of, res_of; eval_tests;
      destruct v as [s|[n|] [x|]|b| |vs|ms]; field_cases.
  - intros name Hno v r. destruct (unknown_field name Hno) as (H1 & H2 & H3 & H4 & H5 & H6 & H7 & H8).
    assert (one_of name text_fields = false) as H9 by (unfold is_text in H1; by rewrite H2 in H1).
    unfold decode_field, typed, text_of, int_of, time_of, bool_of, null_of, role_of, refs_of, res_of. rewrite Hno, H1, H2, H3, H4, H5, H6, H7, H8, H9. field_cases.
Qed.

(** ** All fields *)

Lemma put_lookup {A} name (o : option A) m n : put name o m !! n = match o with Some a => if decide (name = n) then Some a else m !! n | None => m !! n end.
Proof. destruct o; cbn; [|done]. rewrite lookup_insert. by case_decide. Qed.

(** A component of the request that each field updates at its own name *)
Section component.
Context {A : Type} (get : workRequest → gmap string A) (reading : string → raw → option A).
Hypothesis Hget : ∀ name v r r', field_reads name v r r' → get r' = put name (reading name v) (get r).
Lemma decode_component allowed l r r' : NoDup l.*1 → decode_fields allowed l r = Some r' → (∀ n, n ∈ l.*1 → get r !! n = None) →
  ∀ n, get r' !! n = match (list_to_map l : gmap string raw) !! n with Some v => reading n v | None => get r !! n end.
Proof using Hget.
  revert r. induction l as [|[name v] l IH]; intros r Hnd H Hr n; cbn in *; [by injection H as <-|].
  destruct (one_of name allowed); [|done]. pose proof (decode_field_reads name v r) as Hf. destruct (decode_field name v r) as [r1|]; [|done]. destruct Hf as [_ Hf].
  apply NoDup_cons in Hnd as [Hni Hnd]. cbn in H. pose proof (Hget _ _ _ _ Hf) as E.
  rewrite (IH r1 Hnd H).
  - destruct (decide (name = n)) as [->|Hne].
    + rewrite lookup_insert_eq. assert ((list_to_map l : gmap string raw) !! n = None) as -> by by apply not_elem_of_list_to_map_1.
      rewrite E, put_lookup. destruct (reading n v); [by rewrite decide_True|]. apply Hr. by left.
    + rewrite lookup_insert_ne by done. destruct (_ !! n); [done|]. rewrite E, put_lookup. destruct (reading name v); [by rewrite decide_False|done].
  - intros n' Hn'. rewrite E, put_lookup. rewrite Hr by (by right). destruct (reading name v); [|done]. rewrite decide_False; [done|]. intros ->. done.
Qed.
End component.

Definition at_name {A} (name : string) (o : option A) : gmap string A := match o with Some x => {[name := x]} | None => ∅ end.
Lemma at_name_lookup {A} name (o : option A) : at_name name o !! name = o.
Proof. destruct o; cbn; [by rewrite lookup_singleton_eq|done]. Qed.
Lemma role_name name v x : role_of name v = Some x → name = "proposed_role"%string.
Proof. unfold role_of. destruct (seqb name "proposed_role") eqn:E; [|done]. by apply seqb_true in E. Qed.
Lemma refs_name name v x : refs_of name v = Some x → name = "references"%string.
Proof. unfold refs_of. destruct (seqb name "references") eqn:E; [|done]. by apply seqb_true in E. Qed.
Lemma res_name name v x : res_of name v = Some x → name = "resources"%string.
Proof. unfold res_of. destruct (seqb name "resources") eqn:E; [|done]. by apply seqb_true in E. Qed.
Lemma put_set name (X : gset string) : gset_to_gmap tt ({[name]} ∪ X) = <[name := tt]> (gset_to_gmap tt X).
Proof. apply gset_to_gmap_union_singleton. Qed.
Lemma gset_lookup (X : gset string) n : n ∈ X ↔ is_Some (gset_to_gmap tt X !! n).
Proof. rewrite lookup_gset_to_gmap. case_guard; naive_solver. Qed.

Lemma decode_res allowed l r r' : NoDup l.*1 → decode_fields allowed l r = Some r' →
  r_res r' = r_res r ++ default [] ((list_to_map l : gmap string raw) !! "resources"%string ≫= res_of "resources").
Proof.
  revert r. induction l as [|[name v] l IH]; intros r Hnd H; cbn in *; [injection H as <-; by rewrite app_nil_r|].
  destruct (one_of name allowed); [|done]. pose proof (decode_field_reads name v r) as Hf. destruct (decode_field name v r) as [r1|]; [|done]. destruct Hf as [_ Hf].
  apply NoDup_cons in Hnd as [Hni Hnd]. cbn in H. rewrite (IH r1 Hnd H), (fr_res _ _ _ _ _ _ _ _ _ _ _ Hf), <-app_assoc. f_equal.
  destruct (decide (name = "resources"%string)) as [->|Hne].
  - rewrite lookup_insert_eq. assert ((list_to_map l : gmap string raw) !! "resources"%string = None) as -> by by apply not_elem_of_list_to_map_1.
    cbn [mbind option_bind]. by rewrite app_nil_r.
  - rewrite lookup_insert_ne by done. destruct (res_of name v) as [x|] eqn:E; [|done]. by apply res_name in E.
Qed.
Lemma decode_op allowed l r r' : decode_fields allowed l r = Some r' → r_op r' = r_op r.
Proof.
  revert r. induction l as [|[name v] l IH]; intros r H; cbn in *; [by injection H as <-|].
  destruct (one_of name allowed); [|done]. pose proof (decode_field_reads name v r) as Hf. destruct (decode_field name v r) as [r1|]; [|done]. destruct Hf as [_ Hf].
  cbn in H. rewrite (IH r1 H). apply (fr_op _ _ _ _ _ _ _ _ _ _ _ Hf).
Qed.
(** A refused list has a field that is not allowed or not of its type. *)
Lemma decode_None allowed l r : decode_fields allowed l r = None ↔ ∃ n v, (n, v) ∈ l ∧ (n ∉ allowed ∨ typed n v = false).
Proof.
  revert r. induction l as [|[name v] l IH]; intros r; cbn; [split; [done|]; by intros (n & v & []%not_elem_of_nil & _)|].
  pose proof (decode_field_reads name v r) as Hf. destruct (one_of name allowed) eqn:Ea.
  - apply one_of_true in Ea. destruct (decode_field name v r) as [r1|]; cbn.
    + destruct Hf as [Ht _]. rewrite (IH r1). split; intros (n & x & Hin & H); exists n, x; (split; [|done]); [by right|].
      apply elem_of_cons in Hin as [[= -> ->]|]; [|done]. destruct H as [H|H]; [done|congruence].
    + split; [|done]. intros _. exists name, v. split; [by left|by right].
  - split; [|done]. intros _. exists name, v. split; [by left|]. left. intros H%one_of_true. congruence.
Qed.

Lemma decode_reads allowed fields op r : decode_fields allowed (map_to_list fields) (no_request op) = Some r → reads fields r ∧ r_op r = op.
Proof.
  intros H. pose proof (NoDup_fst_map_to_list fields) as Hnd. split; [|by rewrite (decode_op _ _ _ _ H)].
  assert (∀ (A : Type) (get : workRequest → gmap string A) reading, (∀ name v r r', field_reads name v r r' → get r' = put name (reading name v) (get r)) →
    get (no_request op) = ∅ → ∀ n, get r !! n = fields !! n ≫= reading n) as Hall.
  { intros A get reading Hget H0 n. rewrite (decode_component get reading Hget _ _ _ _ Hnd H); [|intros; by rewrite H0].
    rewrite list_to_map_to_list, H0. by destruct (fields !! n). }
  split.
  - intros n. rewrite gset_lookup, (Hall _ (λ r, gset_to_gmap tt (r_present r)) (λ _ _, Some tt)); [destruct (fields !! n); cbn; unfold is_Some; naive_solver| |done].
    intros name v r0 r1 F. rewrite (fr_present _ _ _ _ _ _ _ _ _ _ _ F). apply put_set.
  - apply (Hall _ r_text); [|done]. intros name v r0 r1 F. apply (fr_text _ _ _ _ _ _ _ _ _ _ _ F).
  - apply (Hall _ r_ints); [|done]. intros name v r0 r1 F. apply (fr_int _ _ _ _ _ _ _ _ _ _ _ F).
  - apply (Hall _ r_numbers); [|done]. intros name v r0 r1 F. apply (fr_time _ _ _ _ _ _ _ _ _ _ _ F).
  - apply (Hall _ r_bools); [|done]. intros name v r0 r1 F. apply (fr_bool _ _ _ _ _ _ _ _ _ _ _ F).
  - intros n. rewrite gset_lookup, (Hall _ (λ r, gset_to_gmap tt (r_nulls r)) null_of); [done| |done].
    intros name v r0 r1 F. rewrite (fr_null _ _ _ _ _ _ _ _ _ _ _ F). destruct (null_of name v) as [[]|]; [apply put_set|done].
  - rewrite <-(at_name_lookup "proposed_role" (r_role r)). apply (Hall _ (λ r, at_name "proposed_role" (r_role r)) role_of); [|done].
    intros name v r0 r1 F. rewrite (fr_role _ _ _ _ _ _ _ _ _ _ _ F). destruct (role_of name v) as [x|] eqn:E; [|done]. rewrite (role_name _ _ _ E). cbn.
    destruct (r_role r0); cbn; [by rewrite insert_singleton_eq|done].
  - rewrite <-(at_name_lookup "references" (r_refs r)). apply (Hall _ (λ r, at_name "references" (r_refs r)) refs_of); [|done].
    intros name v r0 r1 F. rewrite (fr_refs _ _ _ _ _ _ _ _ _ _ _ F). destruct (refs_of name v) as [x|] eqn:E; [|done]. rewrite (refs_name _ _ _ E). cbn.
    destruct (r_refs r0); cbn; [by rewrite insert_singleton_eq|done].
  - rewrite (decode_res _ _ _ _ Hnd H), list_to_map_to_list. done.
Qed.

(** The fields that an operation takes *)
Definition allowed_fields (op : string) : option (list string) :=
  (λ names, names ++ (if workRead op then [] else ["author"; "key"; "deadline"]%string)) <$> workFields op.

(** C33: strict typing: a request is accepted exactly when its operation is known, every field
    is one of the operation's and of the type of its name, and what it reads passes the
    validation; it then carries each field as it was sent and nothing else, whatever their
    order.  Every other request is refused as invalid_request. *)
Theorem parse_typed op fields : match parseWork op fields with
  | Ok r => r_op r = op ∧ reads fields r ∧ validate r = true ∧
      ∃ names, allowed_fields op = Some names ∧ ∀ n v, fields !! n = Some v → n ∈ names ∧ typed n v = true
  | Err e => e = invalid ∧ (allowed_fields op = None ∨ (∃ names n v, allowed_fields op = Some names ∧ fields !! n = Some v ∧ (n ∉ names ∨ typed n v = false)) ∨
      ∃ r, r_op r = op ∧ reads fields r ∧ validate r = false)
  end.
Proof.
  unfold parseWork, allowed_fields. destruct (workFields op) as [names|]; cbn; [|auto]. set (allowed := names ++ _).
  destruct (decode_fields allowed (map_to_list fields) (no_request op)) as [r|] eqn:E.
  - pose proof (decode_reads _ _ _ _ E) as [Hr Hop]. destruct (validate r) eqn:Ev.
    + split_and!; [done..|]. exists allowed. split; [done|]. intros n v Hl%elem_of_map_to_list.
      destruct (decide (n ∈ allowed)) as [Hin|Hin]; [destruct (typed n v) eqn:Et; [done|]|]; exfalso;
        assert (decode_fields allowed (map_to_list fields) (no_request op) = None) by (apply decode_None; eauto); congruence.
    + split; [done|]. right. right. by exists r.
  - split; [done|]. right. left. apply decode_None in E as (n & v & Hl%elem_of_map_to_list & H). eauto 7.
Qed.
