(* ===== verification/WorkFixture.v ===== *)
(** * Work items of the small installation

    One item that peer a creates and starts with a path, reports and that peer b accepts; the
    parameters are a constant JSON text of numbers and a process table with no process. *)

From S2P Require Import Prelude GoString GoFloat Schema Sql Label Fixture Storage Names Messages Cycles Participants Leases WorkViews MemoryLimits WorkItems WorkOps Works WorkRequests.
Open Scope Z_scope.

(** A function that stands for SHA-256: the length of its argument, and zeros *)
Definition length_sum : Sha256.
Proof. refine {| sha256 := λ b, chr (Z.of_nat (length b) mod 256) :: replicate 31 (chr 0) |}. intros b. reflexivity. Defined.
Definition no_float (_ : float) : string := "0".
Definition no_process (_ : Z) : ProcessStart := ProcessGone.
Definition work_repo : string := "/r/x/.git".
Definition caller_a : MemoryCaller := mkMemoryCaller work_repo "claude" "claude-x-0a" "claude-x-0a" peer_a false.
Definition caller_b : MemoryCaller := mkMemoryCaller work_repo "codex" "codex-x-0b" "codex-x-0b" peer_b false.

(** A request with its text, integer and time fields; its key lives until 50 s. *)
Definition fields (key : string) (texts : list (string * string)) (ints : list (string * Z)) : gmap string raw :=
  <["key"%string := RText key]> (<["deadline"%string := RNumber (Some 50) (Some (of_int 50))]>
    (list_to_map (((λ p, (p.1, RText p.2)) <$> texts) ++ ((λ p, (p.1, RNumber (Some p.2) (Some (of_int p.2)))) <$> ints)))).
Definition request (op : string) (f : gmap string raw) : workRequest := match parseWork op f with Ok r => r | Err _ => no_request op end.
Definition work_body (m : MemoryCaller) (r : workRequest) (now : Z) (store : string) : tx WorkResult :=
  @apply length_sum no_float no_process store defaultMemoryLimits m r (of_int now) (1000 * now) "print".
Definition mutation (fresh : string) (m : MemoryCaller) (r : workRequest) (now : Z) : tx WorkResult :=
  workTx no_float defaultMemoryLimits work_repo fresh (work_class r) (work_body m r now).

Definition item_id : string := "00000000000000000000000000000001".
Definition create_request : workRequest := request "work-create" (fields "k1" [("title", "t"); ("criteria", "c"); ("non_goals", "n")]%string []).
Definition start_request : workRequest := request "work-start"
  (<["resources"%string := RArray [RArray [RText "path"; RText "src"]]]>
     (fields "k2" [("work_id", item_id); ("checkpoint", "p"); ("next_artifact", "q")]%string [("if_revision", 1); ("progress_deadline", 15)]%string)).
Definition report_request : workRequest := request "work-report"
  (<["references"%string := RArray [RText "commit"]]>
     (fields "k3" [("work_id", item_id); ("summary", "done")]%string [("if_revision", 2); ("claim_generation", 1)]%string)).
Definition accept_request : workRequest := request "work-accept"
  (<["references"%string := RArray [RText "review"]]> (fields "k4" [("work_id", item_id)]%string [("if_revision", 3); ("report_seq", 3)]%string)).

(** The states after each operation *)
Definition made : State := after (mutation "store" caller_a create_request 1) small_state.
Definition started : State := after (mutation "other" caller_a start_request 2) made.
Definition reported : State := after (mutation "other" caller_a report_request 3) started.
Definition accepted : State := after (mutation "other" caller_b accept_request 4) reported.

Example accepted_item : match work_items accepted !! ("store"%string, item_id) with
  | Some w => w_Lifecycle w = "finished"%string ∧ w_Revision w = 4 ∧ w_Verdict w = Some "accepted"%string
  | None => False
  end.
Proof. vm_compute. done. Qed.
