(* ===== verification/WorkNoticeProps.v ===== *)
(** * What work notices promise

    The audiences are exactly those that the kept events concern, with the newest of these as
    head; an audience has at most one notice that waits, and a new one only for something new; a
    pass sends to an active reader of the repository or records why there is none. *)

From S2P Require Import Prelude GoString GoFloat Schema Sql Label Fixture Storage Names Messages Inboxes Cycles Sessions InboxProps RetentionProps Participants Leases WorkViews MemoryLimits MemoryExpiry WorkItems WorkOps Works WorkRequests WorkFixture WorkNotices.
Open Scope Z_scope.

Section heads.
Context `{SHA : Sha256}.

(** ** The audiences of a history *)

Definition event_item (e : AudienceEvent) : string := w_WorkID (v_item (ae_payload e)).
(** The assignment of an item after a history, and the worker of the report at a sequence *)
Definition assigned_after (pre : list AudienceEvent) (id : string) : option workAudience :=
  mjoin ((λ e, assignmentAudience (ae_payload e)) <$> last (filter (λ e, event_item e = id) pre)).
Definition reported_at (pre : list AudienceEvent) (seq : Z) : option workAudience :=
  report_audience <$> last (filter (λ e, ae_kind e = "reported"%string ∧ ae_seq e = seq) pre).
(** The audiences that an event concerns, after the events of before: the assigned one, but not by
    a report; the one whose assignment a proposal takes away; the creator of what is reported; the
    worker whose report is judged. *)
Inductive concerns (pre : list AudienceEvent) (e : AudienceEvent) : workAudience → Prop :=
| concerns_assigned a : ae_kind e ≠ "reported"%string → assignmentAudience (ae_payload e) = Some a → concerns pre e a
| concerns_former a : ae_kind e = "proposed"%string → assigned_after pre (event_item e) = Some a → same_audience (assignmentAudience (ae_payload e)) (Some a) = false → concerns pre e a
| concerns_creator : ae_kind e = "reported"%string → concerns pre e (consumer_audience (w_CreatedConsumer (v_item (ae_payload e))))
| concerns_worker q a : is_verdict e = true → w_ReportSeq (v_item (ae_payload e)) = Some q → reported_at pre q = Some a → concerns pre e a.
(** An event of the history concerns the audience with a key. *)
Definition concerned (events : list AudienceEvent) (key : string) (seq : Z) : Prop :=
  ∃ pre e post a, events = pre ++ e :: post ∧ concerns pre e a ∧ audience_key a = key ∧ ae_seq e = seq.

(** What the loop knows after a history *)
Record routed (pre : list AudienceEvent) (r : Routing) : Prop := {
  rd_previous : ∀ id, mjoin (ro_previous r !! id) = assigned_after pre id;
  rd_reports : ∀ q, ro_reports r !! q = reported_at pre q;
  rd_heads : ∀ key, match ro_heads r !! key with
    | Some h => concerned pre key (ah_head h) ∧ audience_key (ah_audience h) = key ∧ ∀ seq, concerned pre key seq → seq ≤ ah_head h
    | None => ∀ seq, ¬ concerned pre key seq end }.
Lemma concerned_snoc pre e key seq : concerned (pre ++ [e]) key seq ↔ concerned pre key seq ∨ ∃ a, concerns pre e a ∧ audience_key a = key ∧ ae_seq e = seq.
Proof.
  split.
  - intros (p & x & q & a & E & Hc & Hk & Hs). destruct q as [|y q _] using rev_ind.
    + apply app_inj_tail in E as [-> ->]. right. eauto.
    + rewrite app_comm_cons, app_assoc in E. apply app_inj_tail in E as [-> _]. left. exists p, x, q, a. done.
  - intros [(p & x & q & a & -> & H)|(a & H)]; [exists p, x, (q ++ [e]), a; by rewrite <-app_assoc|exists pre, e, [], a; naive_solver].
Qed.
(** The heads are right for the events of before and a list of audiences of the next event. *)
Definition heads_for (pre : list AudienceEvent) (seq : Z) (l : list workAudience) (heads : gmap string workAudienceHead) : Prop :=
  ∀ key, let C q := concerned pre key q ∨ q = seq ∧ ∃ a, a ∈ l ∧ audience_key a = key in
  match heads !! key with
  | Some h => C (ah_head h) ∧ audience_key (ah_audience h) = key ∧ ∀ q, C q → q ≤ ah_head h
  | None => ∀ q, ¬ C q end.
Lemma raise_head_for pre seq l heads a : 0 ≤ seq → heads_for pre seq l heads → heads_for pre seq (a :: l) (raise_head (Some a) seq heads).
Proof.
  intros Hpos H key. cbn. specialize (H key). cbn in H. rewrite lookup_insert. destruct (decide (audience_key a = key)) as [<-|Hne].
  - destruct (heads !! audience_key a) as [h|]; cbn.
    + destruct H as (Hc & Hk & Hmax). split_and!; [|done|].
      * destruct (Z.max_spec (ah_head h) seq) as [[_ ->]|[_ ->]]; [right; split; [done|]; exists a; split; [left|done]|]. destruct Hc as [?|(? & b & ? & ?)]; [by left|right]. split; [done|]. exists b. split; [by right|done].
      * intros q [Hq|[-> _]]; [|lia]. specialize (Hmax q (or_introl Hq)). lia.
    + split_and!; [|done|].
      * right. split; [lia|]. exists a. split; [left|done].
      * intros q [Hq|[-> _]]; [destruct (H q); by left|lia].
  - destruct (heads !! key) as [h|].
    + destruct H as (Hc & Hk & Hmax). split_and!; [|done|].
      * destruct Hc as [?|(? & b & ? & ?)]; [by left|right]. split; [done|]. exists b. split; [by right|done].
      * intros q [Hq|(-> & b & [->|Hb]%elem_of_cons & Hk2)]; [apply Hmax; by left|done|apply Hmax; right; eauto].
    + intros q [Hq|(-> & b & [->|Hb]%elem_of_cons & Hk2)]; [eapply H; by left|done|eapply H; right; eauto].
Qed.
Lemma raise_when_for pre seq l heads (b : bool) o : 0 ≤ seq → heads_for pre seq l heads → heads_for pre seq ((if b then option_list o else []) ++ l) (if b then raise_head o seq heads else heads).
Proof. intros Hpos H. destruct b, o as [a|]; [by apply raise_head_for|done..]. Qed.
Lemma with_creator_for pre seq l heads key c human : heads_for pre seq l heads → heads_for pre seq l (alter (with_creator c human) key heads).
Proof. intros H key'. specialize (H key'). cbn in *. rewrite lookup_alter. destruct (decide (key = key')) as [<-|]; [|done]. by destruct (heads !! key). Qed.

Lemma last_where_snoc {A} (P : A → Prop) `{∀ x, Decision (P x)} l x : last (filter P (l ++ [x])) = if decide (P x) then Some x else last (filter P l).
Proof. rewrite filter_app, filter_cons, filter_nil. case_decide; [by rewrite last_snoc|by rewrite app_nil_r]. Qed.
Lemma assigned_after_snoc pre e id : assigned_after (pre ++ [e]) id = if decide (event_item e = id) then assignmentAudience (ae_payload e) else assigned_after pre id.
Proof. unfold assigned_after. rewrite last_where_snoc. by case_decide. Qed.
Lemma reported_at_snoc pre e q : reported_at (pre ++ [e]) q = if decide (ae_kind e = "reported"%string ∧ ae_seq e = q) then Some (report_audience e) else reported_at pre q.
Proof. unfold reported_at. rewrite last_where_snoc. by case_decide. Qed.

(** The audiences of one event, as the loop raises them *)
Definition concern_list (pre : list AudienceEvent) (e : AudienceEvent) : list workAudience :=
  let assigned := assignmentAudience (ae_payload e) in
  (if is_verdict e then option_list (w_ReportSeq (v_item (ae_payload e)) ≫= reported_at pre) else []) ++
  ((if seqb (ae_kind e) "reported" then option_list (Some (consumer_audience (w_CreatedConsumer (v_item (ae_payload e))))) else []) ++
   ((if seqb (ae_kind e) "proposed" && negb (same_audience assigned (assigned_after pre (event_item e))) then option_list (assigned_after pre (event_item e)) else []) ++
    ((if negb (seqb (ae_kind e) "reported") then option_list assigned else []) ++ []))).
Lemma elem_of_found {A} (o : option A) a : a ∈ option_list o ↔ o = Some a.
Proof. destruct o; cbn; [rewrite list_elem_of_singleton; naive_solver|rewrite elem_of_nil; naive_solver]. Qed.
Lemma elem_of_concern_list pre e a : a ∈ concern_list pre e ↔ concerns pre e a.
Proof.
  unfold concern_list. rewrite !elem_of_app, elem_of_nil. split.
  - intros [H|[H|[H|[H|[]]]]].
    + destruct (is_verdict e) eqn:Ev; [|by apply elem_of_nil in H]. apply elem_of_found, bind_Some in H as (q & Hq & Ha). by eapply concerns_worker.
    + destruct (seqb (ae_kind e) "reported") eqn:Er; [|by apply elem_of_nil in H]. apply elem_of_found in H. injection H as <-. apply concerns_creator. by apply seqb_true.
    + destruct (_ && _) eqn:Ep; [|by apply elem_of_nil in H]. apply elem_of_found in H. apply andb_true_iff in Ep as [Ep%seqb_true Es%negb_true_iff]. rewrite H in Es. by apply concerns_former.
    + destruct (negb _) eqn:Er; [|by apply elem_of_nil in H]. apply elem_of_found in H. apply negb_true_iff, seqb_false in Er. by apply concerns_assigned.
  - intros [a' Hk Ha|a' Hk Ha Hs|Hk|q a' Hv Hq Ha].
    + right; right; right; left. rewrite (proj2 (seqb_false _ _) Hk). by apply elem_of_found.
    + right; right; left. rewrite (proj2 (seqb_true _ _) Hk), Ha, Hs. by apply elem_of_found.
    + right; left. rewrite (proj2 (seqb_true _ _) Hk). by apply elem_of_found.
    + left. rewrite Hv. apply elem_of_found. by rewrite Hq.
Qed.
Lemma route_routed pre e r : 0 ≤ ae_seq e → routed pre r → routed (pre ++ [e]) (route e r).
Proof.
  intros Hpos [R1 R2 R3]. split.
  - intros id. cbn. rewrite assigned_after_snoc, lookup_insert. unfold event_item. by destruct (decide _).
  - intros q. cbn. rewrite reported_at_snoc. destruct (seqb (ae_kind e) "reported") eqn:Er.
    + apply seqb_true in Er. rewrite lookup_insert. destruct (decide (ae_seq e = q)) as [Hq|Hq]; [by rewrite decide_True by done|by rewrite decide_False by naive_solver].
    + apply seqb_false in Er. by rewrite decide_False by naive_solver.
  - assert (heads_for pre (ae_seq e) (concern_list pre e) (ro_heads (route e r))) as H.
    { assert (heads_for pre (ae_seq e) [] (ro_heads r)) as H0.
      { intros key. specialize (R3 key). cbn. destruct (ro_heads r !! key) as [h|].
        - destruct R3 as (Hc & Hk & Hmax). split_and!; [by left|done|]. intros q [Hq|(_ & a & Ha%elem_of_nil & _)]; [by apply Hmax|done].
        - intros q [Hq|(_ & a & Ha%elem_of_nil & _)]; [by eapply R3|done]. }
      unfold concern_list, route. cbn zeta. cbn [ro_heads]. fold (event_item e). rewrite R1.
      eapply (raise_when_for _ _ _ _ (negb (seqb (ae_kind e) "reported")) (assignmentAudience (ae_payload e)) Hpos) in H0.
      eapply (raise_when_for _ _ _ _ (seqb (ae_kind e) "proposed" && negb (same_audience (assignmentAudience (ae_payload e)) (assigned_after pre (event_item e)))) (assigned_after pre (event_item e)) Hpos) in H0.
      eapply (raise_when_for _ _ _ _ (seqb (ae_kind e) "reported") (Some (consumer_audience (w_CreatedConsumer (v_item (ae_payload e))))) Hpos) in H0.
      eapply (raise_when_for _ _ _ _ (is_verdict e) (w_ReportSeq (v_item (ae_payload e)) ≫= reported_at pre) Hpos) in H0.
      assert (is_verdict e = true → seqb (ae_kind e) "reported" = false) as Hx by (unfold is_verdict; intros [E|E]%orb_true_iff; apply seqb_true in E; by rewrite E).
      destruct (seqb (ae_kind e) "reported") eqn:Er.
      - assert (is_verdict e = false) as Hv by (destruct (is_verdict e); [by specialize (Hx eq_refl)|done]). rewrite Hv in *. cbn [negb] in H0. by apply with_creator_for.
      - cbn [negb] in H0. destruct (is_verdict e); [|exact H0]. destruct (w_ReportSeq _) as [q|]; cbn in H0; [by rewrite R2|exact H0]. }
    intros key. unfold heads_for in H. specialize (H key). cbv zeta in H. destruct (ro_heads (route e r) !! key) as [h|].
    + destruct H as (Hc & Hk & Hmax). split_and!; [|done|].
      * apply concerned_snoc. destruct Hc as [?|(Hs & a & Ha & ?)]; [by left|right]. exists a. by rewrite <-elem_of_concern_list, Hs.
      * intros q [Hq|(a & Ha & ? & <-)]%concerned_snoc; apply Hmax; [by left|right]. split; [done|]. exists a. by rewrite elem_of_concern_list.
    + intros q [Hq|(a & Ha & ? & <-)]%concerned_snoc; eapply H; [by left|right]. split; [done|]. exists a. by rewrite elem_of_concern_list.
Qed.

Lemma routed_all events : (∀ e, e ∈ events → 0 ≤ ae_seq e) → routed events (foldl (λ r e, route e r) no_routing events).
Proof.
  induction events as [|e events IH] using rev_ind; intros Hpos.
  - split; [done|done|]. intros key. cbn. rewrite lookup_empty. intros seq (pre & e & post & a & E & _). by destruct pre.
  - rewrite foldl_app. cbn. apply route_routed; [apply Hpos, elem_of_app; right; left|]. apply IH. intros x Hx. apply Hpos, elem_of_app. by left.
Qed.

End heads.

Section notice.
Context `{SHA : Sha256}.

(** ** The inboxes *)

Lemma send_notice_steps now sent repo store key head k s u s' : send_notice now sent repo store key head k s = Ok (u, s') → ∃ s1 r,
  (s1 = s ∨ (isParticipantID (ID k) = true ∧ ensureParticipantInbox now (trim_prefix (ID k) participantPrefix) s = Ok (tt, s1))) ∧ sessions s1 !! k = Some r ∧
  messages s' = <[messages_issued s1 + 1 := notice_row k (s_last_seq r + 1) repo head sent]> (messages s1) ∧ messages_issued s' = messages_issued s1 + 1 ∧
  sessions s' = <[k := r <| s_last_seq := s_last_seq r + 1 |> ]> (sessions s1) ∧
  work_audiences s' = alter (λ a, a <| wa_head := head |> <| wa_notice_head := head |> <| wa_message_id := Some (messages_issued s1 + 1) |> <| wa_reason := "" |>) (store, key) (work_audiences s1) ∧
  insert_message (notice_row k (s_last_seq r + 1) repo head sent) (s1 <| sessions := <[k := r <| s_last_seq := s_last_seq r + 1 |> ]> (sessions s1) |>) =
    Ok (messages_issued s1 + 1, s1 <| sessions := <[k := r <| s_last_seq := s_last_seq r + 1 |> ]> (sessions s1) |> <| messages := <[messages_issued s1 + 1 := notice_row k (s_last_seq r + 1) repo head sent]> (messages s1) |> <| messages_issued := messages_issued s1 + 1 |>).
Proof.
  intros H. unfold send_notice in H. apply bind_Ok in H as ([] & s1 & H1 & H). exists s1. run H. cbn zeta in *. exists v.
  assert (s1 = s ∨ (isParticipantID (ID k) = true ∧ ensureParticipantInbox now (trim_prefix (ID k) participantPrefix) s = Ok (tt, s1))) as Hs1.
  { unfold when in H1. destruct (isParticipantID (ID k)); [by right|]. apply ret_Ok in H1 as [= ->]. by left. }
  split; [done|]. split; [done|]. match goal with R : insert_message _ _ = Ok (?i, ?x) |- _ => pose proof R as Hi; apply insert_message_Ok in R as (-> & -> & _) end. cbn in Hi.
  assert (Keeps (λ s, (messages s, messages_issued s, sessions s, work_audiences s)) (bumpInbox k)) as Hk by (unfold bumpInbox; keeps). match goal with R : bumpInbox k _ = _ |- _ => apply Hk in R; injection R as E1 E2 E3 E4 end.
  unfold set_audience in H. run H. cbn in *. rewrite E1, E2, E3, E4. done.
Qed.
Lemma send_notice_wf now sent repo store key head k : Maintains inbox_wf (send_notice now sent repo store key head k).
Proof.
  intros s u s' Hwf H. apply send_notice_steps in H as (s1 & r & Hs1 & Hr & Em & Ei & Es & _ & Hi). assert (inbox_wf s1) as Hwf1.
  { destruct Hs1 as [->|[_ Hs1]]; [done|]. by eapply wf_ensureParticipantInbox. }
  eapply inbox_wf_view; [|eapply (deliver_row_wf k r _ s1); [exact Hwf1|exact Hr| | |exact Hi]; done]. unfold inbox_view. cbn. congruence.
Qed.
Lemma reconcileAudienceTx_wf now inbox_now sent repo store key h : Maintains inbox_wf (reconcileAudienceTx now inbox_now sent repo store key h).
Proof.
  assert (∀ a, Maintains inbox_wf (notify_audience now inbox_now sent repo store key h a)) as Hm.
  { intros a. unfold notify_audience, set_audience. apply maintains_bind; [apply wf_of_keeps; keeps|]. intros _. cbn zeta. apply maintains_bind; [apply wf_of_keeps; keeps|]. intros [|]; [apply wf_of_keeps; keeps|].
    case_match; [apply wf_of_keeps; keeps|]. apply maintains_bind; [apply wf_of_keeps; keeps|]. intros [k|reason]; [apply send_notice_wf|apply wf_of_keeps; keeps]. }
  unfold reconcileAudienceTx. apply maintains_bind; [apply wf_of_keeps; keeps|]. intros o. apply maintains_bind; [apply wf_of_keeps; keeps|]. intros full.
  destruct o as [a|], full; [apply Hm|apply Hm|apply wf_of_keeps; keeps|apply Hm].
Qed.
(** ** One audience *)

Lemma named_participant_inl now repo address s k : named_participant now repo address s = inl k → ∃ n, names s !! address = Some n ∧ n_kind n = Alias ∧ n_repository n = repo ∧
  holds now (n_family n) (n_holder_id n) repo (n_role n) s = true ∧ k = mkKey (n_family n) (participantKey address).
Proof.
  unfold named_participant. destruct (names s !! address) as [n|]; [|done]. destruct (_ && _) eqn:E; [|done]. apply andb_true_iff in E as [E1%bool_decide_eq_true E2%seqb_true].
  destruct (holds _ _ _ _ _ _) eqn:Eh; [|done]. intros [= <-]. exists n. split_and!; done.
Qed.
(** Who may read a notice: the maintainer for what a person created, an active native session of
    the repository, or the participant of the repository whose holder is active. *)
Inductive reader (now : Z) (repo : string) (h : workAudienceHead) (s : State) : Key → Prop :=
| reader_maintainer : ah_human h = true → reader now repo h s maintainerKey
| reader_native k r : sessions s !! k = Some r → s_repository r = repo → active_row now r = true → isParticipantID (ID k) = false → reader now repo h s k
| reader_participant address n : names s !! address = Some n → n_kind n = Alias → n_repository n = repo → holds now (n_family n) (n_holder_id n) repo (n_role n) s = true →
    reader now repo h s (mkKey (n_family n) (participantKey address)).
Lemma eligible_reader now repo h k s : eligible now repo k s = true → reader now repo h s k.
Proof.
  unfold eligible. intros [Hv He]%andb_true_iff. destruct (sessions s !! k) as [r|] eqn:Er; [|done]. apply andb_true_iff in He as [He%seqb_true Ha]. eapply reader_native; [done..|].
  unfold validKey in Hv. rewrite !andb_true_iff, !negb_true_iff in Hv. apply Hv.
Qed.
Lemma native_reader now repo h k k' s : native_recipient now repo k s = inl k' → reader now repo h s k'.
Proof. unfold native_recipient. destruct (eligible _ _ _ _) eqn:E; [|done]. intros [= <-]. by apply eligible_reader. Qed.
Lemma participant_reader now repo h address k s : named_participant now repo address s = inl k → reader now repo h s k.
Proof. intros (n & H1 & H2 & H3 & H4 & ->)%named_participant_inl. by eapply reader_participant. Qed.
Lemma audienceRecipient_reader now repo h s k : audienceRecipient now repo h s = inl k → reader now repo h s k.
Proof.
  assert (consumer_fallback now repo h s = inl k → reader now repo h s k) as Hf.
  { unfold consumer_fallback. destruct (consumer_session _ _ _ _); [apply native_reader|]. destruct (filter _ (elements _)) as [|x [|]] eqn:E; [done| |done]. intros [= <-].
    assert (x ∈ filter (λ k, eligible now repo k s) (elements (ah_creators h))) as [Hx _]%list_elem_of_filter by (rewrite E; left). by apply eligible_reader, Is_true_true. }
  unfold audienceRecipient. destruct (seqb (ad_Kind _) "role").
  { destruct (role_address _ _ _); [apply participant_reader|done]. }
  destruct (seqb (ad_Kind _) "native"); [apply native_reader|]. destruct (seqb (ad_Kind _) "consumer"); [|done]. destruct (isParticipantID _); [apply participant_reader|].
  destruct (_ && _) eqn:Em; [intros [= <-]; apply reader_maintainer; by apply andb_true_iff in Em as [_ ?]|].
  destruct (memory_cursors s !! _) as [c|]; [|exact Hf]. destruct (seqb (cu_actor c) ""); [exact Hf|]. destruct (native_recipient now repo _ s) as [k'|] eqn:E; [|exact Hf]. intros [= <-]. by eapply native_reader.
Qed.

Lemma participant_inbox now address n s : names s !! address = Some n → n_kind n = Alias →
  ∃ s1 r, ensureParticipantInbox now address s = Ok (tt, s1) ∧ sessions s1 !! mkKey (n_family n) (participantKey address) = Some r.
Proof.
  intros Hn Hk. unfold ensureParticipantInbox. erewrite bind_run by reflexivity. rewrite Hn. erewrite bind_run by reflexivity. rewrite (bool_decide_eq_true_2 _ Hk).
  erewrite bind_run by reflexivity. destruct (sessions s !! mkKey (n_family n) (participantKey address)) as [r|] eqn:Er; do 2 eexists; unfold modify; rewrite Er; (split; [reflexivity|]); [exact Er|apply lookup_insert_eq].
Qed.
(** The row of an inbox that a notice goes to; a participant's first message makes its inbox. *)
Lemma send_notice_total now sent repo store key head h at_ k s : inbox_wf s → (∃ r, sessions s !! maintainerKey = Some r) → reader at_ repo h s k → ∃ s', send_notice now sent repo store key head k s = Ok (tt, s').
Proof.
  intros Hwf [rm Hm] Hr. unfold send_notice.
  assert (∃ s1 r, when (isParticipantID (ID k)) (ensureParticipantInbox now (trim_prefix (ID k) participantPrefix)) s = Ok (tt, s1) ∧ sessions s1 !! k = Some r ∧ inbox_wf s1) as (s1 & r & E1 & Hr1 & Hwf1).
  { destruct Hr as [Hh|k r Hr _ _ Hp|address n Hn Hk _ _].
    - exists s, rm. done.
    - exists s, r. rewrite Hp. done.
    - cbn [ID]. unfold isParticipantID. unfold participantKey at 1, has_prefix. rewrite prefix_app. unfold participantKey at 1. rewrite trim_prefix_app. cbn [when].
      destruct (participant_inbox now address n s Hn Hk) as (s1 & r & E & Hr). exists s1, r. split_and!; [done..|by eapply wf_ensureParticipantInbox]. }
  erewrite bind_run by exact E1. erewrite bind_run by reflexivity. rewrite Hr1. erewrite bind_run by reflexivity. cbn zeta. erewrite bind_run by reflexivity.
  edestruct (deliver_row_total k r (notice_row k (s_last_seq r + 1) repo head sent) s1) as [s2 E2]; [done..|]. erewrite bind_run by exact E2.
  unfold bumpInbox, when. destruct (keqb k maintainerKey); (erewrite bind_run by reflexivity); eexists; reflexivity.
Qed.
(** What a transaction over one audience does to the messages: nothing, or one notice. *)
Definition row_of (store key : string) (h : workAudienceHead) (s : State) : AudienceRow := default (new_audience h) (work_audiences s !! (store, key)).
Definition newest_of (store key : string) (h : workAudienceHead) (s : State) : Z := Z.max (wa_head (row_of store key h s)) (ah_head h).
(** The notice [id] to the inbox [k] is written in [s']: it waits, and nothing else about the
    messages and the waiting notices has changed. *)
Record noticed (repo : string) (head sent : Z) (k : Key) (id : Z) (s s' : State) : Prop := {
  no_new : messages s !! id = None ∧ id = messages_issued s + 1 ∧ messages_issued s' = id;
  no_text : ∃ seq, messages s' = <[id := notice_row k seq repo head sent]> (messages s);
  no_waits : pending_notice (Some id) s' = true;
  no_others : ∀ i, i ≠ id → pending_notice (Some i) s' = pending_notice (Some i) s }.
Definition inbox_same (s s' : State) : Prop := sessions s' = sessions s ∧ messages s' = messages s ∧ messages_issued s' = messages_issued s.
Definition notice_outcome (now sent : Z) (repo store key : string) (h : workAudienceHead) (s s' : State) : Prop :=
  let a := row_of store key h s in
  let newest := newest_of store key h s in
  let now_row := work_audiences s' !! (store, key) in
  if pending_notice (wa_message_id a) s then now_row = Some (a <| wa_head := newest |>) ∧ inbox_same s s'
  else if newest <=? wa_notice_head a then now_row = Some (a <| wa_message_id := None |> <| wa_reason := "" |>) ∧ inbox_same s s'
  else match audienceRecipient now repo h s with
       | inr reason => now_row = Some (a <| wa_head := newest |> <| wa_message_id := None |> <| wa_reason := reason |>) ∧ inbox_same s s'
       | inl k => ∃ id, reader now repo h s k ∧ noticed repo newest sent k id s s' ∧ now_row = Some (a <| wa_head := newest |> <| wa_notice_head := newest |> <| wa_message_id := Some id |> <| wa_reason := "" |>)
       end.
Lemma send_notice_noticed now sent repo store key head k s u s' : inbox_wf s → send_notice now sent repo store key head k s = Ok (u, s') →
  noticed repo head sent k (messages_issued s + 1) s s' ∧
  work_audiences s' = alter (λ a, a <| wa_head := head |> <| wa_notice_head := head |> <| wa_message_id := Some (messages_issued s + 1) |> <| wa_reason := "" |>) (store, key) (work_audiences s).
Proof.
  intros Hwf H. pose proof (send_notice_wf _ _ _ _ _ _ _ _ _ _ Hwf H) as Hwf'. apply send_notice_steps in H as (s1 & r & Hs1 & Hr & Em & Ei & Es & Ea & _).
  assert (messages s1 = messages s ∧ messages_issued s1 = messages_issued s ∧ work_audiences s1 = work_audiences s ∧ ∀ k r, sessions s !! k = Some r → sessions s1 !! k = Some r) as (M1 & M2 & M3 & M4).
  { destruct Hs1 as [->|[_ (n & _ & _ & [->|[Hn ->]])%ensureParticipantInbox_Ok]]; [done|done|]. split_and!; [done..|]. intros k' r' Hr'. cbn. rewrite lookup_insert_ne by congruence. done. }
  rewrite M1, M2, M3 in *. split; [|exact Ea].
  assert (messages s !! (messages_issued s + 1) = None) as Hnew by (destruct (messages s !! _) eqn:E; [apply (wf_ids _ Hwf) in E; lia|done]).
  split; [done|eexists; exact Em| |].
  - unfold pending_notice. rewrite Em, Es, lookup_insert_eq. cbn. rewrite lookup_insert_eq. cbn.
    destruct (wf_positions _ Hwf' k (r <| s_last_seq := s_last_seq r + 1 |>)) as [Hp _]; [rewrite Es; apply lookup_insert_eq|]. cbn in Hp.
    assert (s_acked_through r ≤ s_last_seq r) as Hp1.
    { destruct Hs1 as [->|[_ Hs1]]; [by apply (wf_positions _ Hwf k)|]. eapply wf_ensureParticipantInbox in Hs1; [|exact Hwf]. by apply (wf_positions _ Hs1 k). }
    apply Z.ltb_lt. lia.
  - intros i Hi. unfold pending_notice. rewrite Em, lookup_insert_ne by done. destruct (messages s !! i) as [m|] eqn:Hm; [|done]. destruct (wf_seqs _ Hwf _ _ Hm) as (_ & r0 & Hr0 & _).
    rewrite Hr0, Es, lookup_insert. destruct (decide (k = m_recipient m)) as [->|]; [|by rewrite (M4 _ _ Hr0)]. rewrite (M4 _ _ Hr0) in Hr. by injection Hr as <-.
Qed.
Lemma notify_outcome now inbox_now sent repo store key h a s u s' : inbox_wf s → a = row_of store key h s → notify_audience now inbox_now sent repo store key h a s = Ok (u, s') →
  (∀ k, k ≠ (store, key) → work_audiences s' !! k = work_audiences s !! k) ∧ notice_outcome now sent repo store key h s s'.
Proof.
  intros Hwf Ha H. unfold notice_outcome, newest_of. rewrite <-Ha. unfold notify_audience in H. apply bind_Ok in H as ([] & s1 & [= ->]%modify_Ok & H). cbn zeta in H.
  set (s1 := s <| work_audiences := _ |>) in H. apply bind_Ok in H as (b & s2 & [= -> ->]%gets_Ok & H). change (pending_notice (wa_message_id a) s1) with (pending_notice (wa_message_id a) s) in H.
  assert (∀ f, set_audience store key f s1 = Ok (u, s') → (∀ k, k ≠ (store, key) → work_audiences s' !! k = work_audiences s !! k) ∧ work_audiences s' !! (store, key) = Some (f a) ∧ inbox_same s s') as Hset.
  { intros f [= _ ->]%modify_Ok. split; [|split; [|done]].
    - intros k Hk. cbn. rewrite lookup_alter_ne by done. by apply lookup_insert_ne.
    - cbn. by rewrite lookup_alter_eq, lookup_insert_eq. }
  destruct (pending_notice (wa_message_id a) s); [by apply Hset in H|]. destruct (_ <=? wa_notice_head a); [by apply Hset in H|].
  apply bind_Ok in H as (to & s2 & [= -> ->]%gets_Ok & H). change (audienceRecipient now repo h s1) with (audienceRecipient now repo h s) in H.
  destruct (audienceRecipient now repo h s) as [k|reason] eqn:Er; [|by apply Hset in H]. apply send_notice_noticed in H as [Hn Hrow]; [|by apply (inbox_wf_view s)]. rewrite Hrow. split.
  - intros k' Hk. rewrite lookup_alter_ne by done. by apply lookup_insert_ne.
  - eexists. split; [by eapply audienceRecipient_reader|]. split; [|cbn; by rewrite lookup_alter_eq, lookup_insert_eq]. destruct Hn as [N1 N2 N3 N4]. split; [exact N1|exact N2|exact N3|exact N4].
Qed.
Lemma notify_total now inbox_now sent repo store key h a s : inbox_wf s → (∃ r, sessions s !! maintainerKey = Some r) → ∃ s', notify_audience now inbox_now sent repo store key h a s = Ok (tt, s').
Proof.
  intros Hwf Hm. unfold notify_audience. erewrite bind_run by reflexivity. cbn zeta. erewrite bind_run by reflexivity. destruct (pending_notice _ _); [by eexists|]. destruct (_ <=? _); [by eexists|].
  erewrite bind_run by reflexivity. destruct (audienceRecipient _ _ _ _) as [k|reason] eqn:Er; [|by eexists]. apply audienceRecipient_reader in Er. eapply send_notice_total; [by apply (inbox_wf_view s)|exact Hm|exact Er].
Qed.
Lemma reconcile_outcome now inbox_now sent repo store key h s u s' : inbox_wf s → reconcileAudienceTx now inbox_now sent repo store key h s = Ok (u, s') →
  (∀ k, k ≠ (store, key) → work_audiences s' !! k = work_audiences s !! k) ∧
  if bool_decide (work_audiences s !! (store, key) = None) && (maxWorkAudiences <=? audience_count store s) then s' = s else notice_outcome now sent repo store key h s s'.
Proof.
  intros Hwf H. unfold reconcileAudienceTx in H. apply bind_Ok in H as (o & s1 & [= -> ->]%gets_Ok & H). apply bind_Ok in H as (full & s1 & [= -> ->]%gets_Ok & H).
  destruct (work_audiences s !! (store, key)) as [a|] eqn:E.
  - eapply notify_outcome in H; [exact H|done|]. unfold row_of. by rewrite E.
  - destruct (_ <=? _) eqn:F; [by apply ret_Ok in H as [= _ ->]|]. eapply notify_outcome in H; [exact H|done|]. unfold row_of. by rewrite E.
Qed.


(** ** A schedule of notices *)

(** What runs between the transactions does not touch the audiences, and neither brings an
    acknowledged or deleted notice back nor gives its number to another one. *)
Definition apart (s s' : State) : Prop := work_audiences s' = work_audiences s ∧ inbox_wf s' ∧ messages_issued s ≤ messages_issued s' ∧
  ∀ i, i ≤ messages_issued s → pending_notice (Some i) s' = true → pending_notice (Some i) s = true.
(** The notices that a transaction sent *)
Definition Sent : Type := (string * string) * Z.
Definition sent_by (store key : string) (s s' : State) : list Sent := if messages_issued s' =? messages_issued s then [] else [((store, key), messages_issued s')].
Inductive notice_step : State * list Sent → State * list Sent → Prop :=
| ns_reconcile now inbox_now sent repo store key h s s' log : reconcileAudienceTx now inbox_now sent repo store key h s = Ok (tt, s') →
    notice_step (s, log) (s', sent_by store key s s' ++ log)
| ns_clean store key observed s s' log : cleanTx store key observed s = Ok (tt, s') → notice_step (s, log) (s', log)
| ns_apart s s' log : apart s s' → notice_step (s, log) (s', log).
Definition named_by_row (c : State * list Sent) : Prop := inbox_wf c.1 ∧ ∀ k i, (k, i) ∈ c.2 →
  i ≤ messages_issued c.1 ∧ (pending_notice (Some i) c.1 = true → ∃ a, work_audiences c.1 !! k = Some a ∧ wa_message_id a = Some i).
Lemma clean_keeps store key observed s s' : cleanTx store key observed s = Ok (tt, s') →
  sessions s' = sessions s ∧ messages s' = messages s ∧ messages_issued s' = messages_issued s ∧
  ∀ k a, work_audiences s !! k = Some a → pending_notice (wa_message_id a) s = true → work_audiences s' !! k = Some a.
Proof.
  unfold cleanTx. intros H. apply bind_Ok in H as (o & s1 & [= -> ->]%gets_Ok & H). apply bind_Ok in H as (m & s1 & (x & _ & [= -> ->])%row_Ok & H).
  destruct (_ =? _); [|by apply ret_Ok in H as [= ->]]. apply modify_Ok in H as [= ->]. split_and!; [done..|]. intros k a Hk Hp. cbn. apply map_lookup_filter_Some. split; [done|].
  cbn. unfold unused_audience. rewrite Hp. cbn. by rewrite !andb_false_r.
Qed.
(** The messages after a transaction, and the one that the row names: the same that waited before, or the new one *)
Lemma outcome_moves now sent repo store key h s s' : notice_outcome now sent repo store key h s s' → ∃ a, work_audiences s' !! (store, key) = Some a ∧
  (inbox_same s s' ∧ (pending_notice (wa_message_id (row_of store key h s)) s = true → wa_message_id a = wa_message_id (row_of store key h s)) ∨
   pending_notice (wa_message_id (row_of store key h s)) s = false ∧ messages_issued s' = messages_issued s + 1 ∧ wa_message_id a = Some (messages_issued s') ∧
     ∀ i, i ≠ messages_issued s' → pending_notice (Some i) s' = pending_notice (Some i) s).
Proof.
  unfold notice_outcome. destruct (pending_notice _ s); [intros [-> Hi]; eexists; split; [done|]; by left|]. destruct (_ <=? _); [intros [-> Hi]; eexists; split; [done|]; by left|].
  destruct (audienceRecipient _ _ _ _); [|intros [-> Hi]; eexists; split; [done|]; by left]. intros (id & _ & [(_ & Hi & Hi') _ _ Ho] & ->). eexists. split; [done|]. right. subst id. cbn. rewrite Hi'. done.
Qed.
Lemma notice_step_named c c' : notice_step c c' → named_by_row c → named_by_row c'.
Proof.
  intros [now inbox_now sent repo store key h s s' log H|store key observed s s' log H|s s' log (Ha & Hwf' & Hi & Hp)] [Hwf Hlog]; cbn [fst snd] in *.
  - split; [by eapply reconcileAudienceTx_wf|]. cbn [fst snd]. pose proof (reconcile_outcome _ _ _ _ _ _ _ _ _ _ Hwf H) as [Hrest Ho].
    assert (∀ k i, (k, i) ∈ log → inbox_same s s' → work_audiences s' !! k = work_audiences s !! k → i ≤ messages_issued s' ∧ (pending_notice (Some i) s' = true → ∃ a, work_audiences s' !! k = Some a ∧ wa_message_id a = Some i)) as Hsame.
    { intros k i [Hle Hw]%Hlog (E1 & E2 & E3) Hk. rewrite E3. split; [done|]. unfold pending_notice at 1. rewrite E1, E2, Hk. exact Hw. }
    unfold sent_by. destruct (_ && _); [subst s'; rewrite Z.eqb_refl; intros k i Hin; by apply Hsame|]. apply outcome_moves in Ho as (a & Ha & [[Hs Hm]|(Hm & Hi & Hid & Ho)]).
    + pose proof Hs as (E1 & E2 & E3). rewrite (proj2 (Z.eqb_eq _ _) E3). cbn [app]. intros k i Hin. destruct (decide (k = (store, key))) as [->|Hk]; [|by apply Hsame; [| |apply Hrest]].
      destruct (Hlog _ _ Hin) as [Hle Hw]. rewrite E3. split; [done|]. unfold pending_notice at 1. rewrite E1, E2. intros Hp. destruct (Hw Hp) as (b & Hb & Hbm). exists a. split; [done|].
      unfold row_of in Hm. rewrite Hb in Hm. cbn in Hm. rewrite Hm; [done|]. by rewrite Hbm.
    + rewrite (proj2 (Z.eqb_neq _ _)) by lia. intros k i [[= -> ->]|Hin]%elem_of_cons; [by split; [|exists a]|]. destruct (Hlog _ _ Hin) as [Hle Hw]. split; [lia|]. rewrite Ho by lia. intros Hp.
      destruct (Hw Hp) as (b & Hb & Hbm). destruct (decide (k = (store, key))) as [->|Hk]; [|exists b; by rewrite Hrest]. exfalso. unfold row_of in Hm. rewrite Hb in Hm. cbn in Hm. rewrite Hbm in Hm. congruence.
  - apply clean_keeps in H as (E1 & E2 & E3 & Hk). cbn [fst snd]. split; [apply (inbox_wf_view s); [unfold inbox_view; cbn; congruence|done]|]. cbn [fst snd]. intros k i [Hle Hp]%Hlog. rewrite E3. split; [done|].
    unfold pending_notice at 1. rewrite E1, E2. intros Hw. destruct (Hp Hw) as (a & Ha & Hm). exists a. split; [|done]. apply Hk; [done|]. by rewrite Hm.
  - split; [done|]. cbn. intros k i [Hle Hw]%Hlog. split; [lia|]. intros Hq. rewrite Ha. by apply Hw, Hp.
Qed.

(** C28: over every schedule of notices, clean-ups and other transactions at most one notice of an
    audience waits at a time, and it is the one that the row of the audience names. *)
Theorem one_notice s0 s log : inbox_wf s0 → rtc notice_step (s0, []) (s, log) → inbox_wf s ∧
  (∀ k i, (k, i) ∈ log → pending_notice (Some i) s = true → ∃ a, work_audiences s !! k = Some a ∧ wa_message_id a = Some i) ∧
  ∀ k i j, (k, i) ∈ log → (k, j) ∈ log → pending_notice (Some i) s = true → pending_notice (Some j) s = true → i = j.
Proof.
  intros Hwf H. assert (named_by_row (s, log)) as [Hwf' Hl].
  { revert H. apply (rtc_ind_r (λ c, named_by_row c)); [split; [done|]; by intros k i ?%elem_of_nil|]. intros c c' _ Hs. by apply notice_step_named. }
  cbn in *. assert (∀ k i, (k, i) ∈ log → pending_notice (Some i) s = true → ∃ a, work_audiences s !! k = Some a ∧ wa_message_id a = Some i) as Hn by (intros k i Hin; by apply Hl).
  split_and!; [done..|]. intros k i j Hi Hj Hp Hq. destruct (Hn _ _ Hi Hp) as (a & Ha & Hai), (Hn _ _ Hj Hq) as (b & Hb & Hbj). congruence.
Qed.

(** An acknowledgement is such a transaction. *)
Lemma kept_apart s s' : inbox_wf s → inbox_wf s' → marks_kept s s' → work_audiences s' = work_audiences s → messages_issued s ≤ messages_issued s' →
  (∀ i m', i ≤ messages_issued s → messages s' !! i = Some m' → ∃ m, messages s !! i = Some m ∧ m_recipient m' = m_recipient m ∧ m_seq m' = m_seq m) → apart s s'.
Proof.
  intros Hwf Hwf' [Hk _] Ha Hi Hm. split_and!; [done..|]. intros i Hle. unfold pending_notice. destruct (messages s' !! i) as [m'|] eqn:Em; [|done].
  destruct (Hm _ _ Hle Em) as (m & Hm0 & -> & ->). rewrite Hm0. destruct (wf_seqs _ Hwf _ _ Hm0) as (_ & r & Hr0 & _). rewrite Hr0. destruct (Hk _ _ Hr0) as (r' & -> & _ & _ & Hr). intros Hp%Z.ltb_lt. apply Z.ltb_lt. lia.
Qed.
Lemma ack_apart now caller through dashboard revision origin s z s' : inbox_wf s → ackTx now caller through dashboard revision origin s = Ok (z, s') → apart s s'.
Proof.
  intros Hwf H. assert (Keeps (λ s, (work_audiences s, messages_issued s)) (ackTx now caller through dashboard revision origin)) as Hk by (unfold ackTx, update_session, bumpInbox, active; names_keeps).
  apply Hk in H as E. injection E as E1 E2. apply kept_apart; [done|by eapply ackTx_wf|by eapply kept_ackTx|done|lia|]. intros i m' _ Hm'.
  apply ack_spec in H as (r & r' & name & via & _ & _ & _ & _ & _ & _ & Hm & _); [|done]. rewrite Hm in Hm'. apply fmap_Some in Hm' as (m & -> & ->). exists m. by case_match.
Qed.
End notice.

(** ** The small installation

    Peer a reported the item and peer b accepted it: the verdict is a notice to the native session
    of the worker, which it acknowledges before the next one. *)

Definition worker_key : string := @audience_key length_sum (native_audience peer_a).
Definition worker_head (head : Z) : workAudienceHead := mkHead (native_audience peer_a) head ∅ false.
Definition notify_worker (head : Z) : tx unit := reconcileAudienceTx 5 5 5 work_repo "store" worker_key (worker_head head).
Definition told : State := after (notify_worker 4) accepted.
Definition told_more : State := after (notify_worker 6) told.
Definition told_acked : State := after (ackTx 21 peer_a 1 false 0 "") told_more.
Definition told_again : State := after (notify_worker 6) told_acked.

Lemma accepted_wf : inbox_wf accepted.
Proof. apply quiet_wf. by vm_compute. Qed.
Lemma accepted_events k e : work_events accepted !! k = Some e → 0 < k.2.
Proof. intros H%(all_rows (λ k _, 0 <? k.2)); [by apply Z.ltb_lt|by vm_compute]. Qed.
(** Three turns and an acknowledgement: the second turn only raises the head, the third sends. *)
Lemma run_unit (m : tx unit) s : succeeds m s = true → m s = Ok (tt, after m s).
Proof. intros H. by destruct (run_after m s H) as [[] E]. Qed.
Lemma notify_told : notify_worker 4 accepted = Ok (tt, told).
Proof. refine (run_unit (notify_worker 4) accepted _). by vm_compute. Qed.
Lemma notify_told_more : notify_worker 6 told = Ok (tt, told_more).
Proof. refine (run_unit (notify_worker 6) told _). by vm_compute. Qed.
Lemma told_more_acked : ∃ z, ackTx 21 peer_a 1 false 0 "" told_more = Ok (z, told_acked).
Proof. refine (run_after (ackTx 21 peer_a 1 false 0 "") told_more _). by vm_compute. Qed.
Lemma notify_told_again : notify_worker 6 told_acked = Ok (tt, told_again).
Proof. refine (run_unit (notify_worker 6) told_acked _). by vm_compute. Qed.
Definition worker_row : string * string := ("store"%string, worker_key).
Lemma notify_wf head s s' : inbox_wf s → notify_worker head s = Ok (tt, s') → inbox_wf s'.
Proof. apply reconcileAudienceTx_wf. Qed.
Lemma notify_turn head s s' log l : sent_by "store" worker_key s s' = l → notify_worker head s = Ok (tt, s') → notice_step (s, log) (s', l ++ log).
Proof. intros <- E. by eapply ns_reconcile. Qed.
Lemma told_schedule : rtc notice_step (accepted, []) (told_again, [(worker_row, 2); (worker_row, 1)]).
Proof.
  pose proof (notify_wf 6 _ _ (notify_wf 4 _ _ accepted_wf notify_told) notify_told_more) as Hwf. destruct told_more_acked as [z E3].
  refine (rtc_l _ _ _ _ (notify_turn 4 accepted told [] [(worker_row, 1)] _ notify_told) _); [by vm_compute|].
  refine (rtc_l _ _ _ _ (notify_turn 6 told told_more _ [] _ notify_told_more) _); [by vm_compute|].
  refine (rtc_l _ _ _ _ (ns_apart told_more told_acked _ (ack_apart _ _ _ _ _ _ _ _ _ Hwf E3)) _).
  refine (rtc_once _ _ (notify_turn 6 told_acked told_again _ [(worker_row, 2)] _ notify_told_again)). by vm_compute.
Qed.
Lemma one_notice_witness : rtc notice_step (accepted, []) (told_again, [(worker_row, 2); (worker_row, 1)]) ∧
  pending_notice (Some 1) told_more = true ∧ pending_notice (Some 1) told_again = false ∧ pending_notice (Some 2) told_again = true ∧
  ∃ a, work_audiences told_again !! worker_row = Some a ∧ wa_message_id a = Some 2.
Proof.
  split; [exact told_schedule|]. split; [vm_compute; reflexivity|]. split; [vm_compute; reflexivity|]. split; [vm_compute; reflexivity|].
  destruct (one_notice accepted told_again _ accepted_wf told_schedule) as (_ & H & _). apply H; [left|vm_compute; reflexivity].
Defined.
