(* ===== verification/WorkFacts.v ===== *)
(** * What the work operations write

    The effect of each step of a work transaction on the tables, and the tables that it keeps. *)

From S2P Require Import Prelude GoString GoFloat Schema Sql Label Fixture Storage Names Messages Cycles Sessions Participants Leases LeaseProps WorkViews MemoryLimits WorkItems WorkOps.
Open Scope Z_scope.

Lemma current_Ok store workID now s w s' : current store workID now s = Ok (w, s') →
  s' = s ∧ work_items s !! (store, workID) = Some w ∧ retained_at now w = true.
Proof. unfold current. intros H. run H. done. Qed.

Lemma lift_Ok {A} (x : result error A) s a s' : lift x s = Ok (a, s') → x = Ok a ∧ s' = s.
Proof. unfold lift. destruct x; [|done]. by intros [= -> ->]. Qed.

(** ** Events *)

(** The rows that an event writes *)
Definition head_moved (store : string) (s : State) : gmap string StoreRow :=
  update_where (λ _ r, seqb (sto_store_id r) store) (λ r, r <| sto_head := sto_head r + 1 |>) (memory_stores s).
Record recorded_event (json_float : float → string) (store : string) (m : MemoryCaller) (w : workItem) (kind consumer : string) (now : float) (w' : workItem) (s s' : State) : Prop := {
  re_row : ∃ r, store_row store s = Some r ∧ w_LatestSeq w' = sto_head r + 1;
  re_item : w' = numbered kind (w_LatestSeq w') w;
  re_items : ∀ old, work_items s !! (store, w_WorkID w) = Some old → ∃ new,
    work_items s' = <[(store, w_WorkID w) := new]> (work_items s) ∧ item_checks new = true ∧
    new = (as_row w') <| w_CreatedAt := w_CreatedAt old |> <| w_CreatedConsumer := w_CreatedConsumer old |>;
  re_stores : memory_stores s' = head_moved store s;
  re_free : work_events s !! (store, w_LatestSeq w') = None ∧ memory_entries s !! (mc_Repository m, w_LatestSeq w') = None;
  re_events : ∃ payload, v_item payload = public w' ∧ v_Report payload = w_report w ∧ v_VerdictEvidence payload = w_evidence w ∧
    work_events s' = <[(store, w_LatestSeq w') := mkWorkEventRow (w_WorkID w) (w_Revision w) kind payload (nativeActor m)]> (work_events s);
  re_entries : ∃ e, en_type e = workEventType ∧ en_scope_target e = Some (w_WorkID w) ∧ en_revision e = w_Revision w ∧ en_consumer e = consumer ∧
    en_body e = ""%string ∧ en_supersedes e = None ∧ en_revokes e = None ∧ en_expires e = None ∧
    memory_entries s' = <[(mc_Repository m, w_LatestSeq w') := e]> (memory_entries s);
  re_positive : 1 ≤ w_LatestSeq w' ∧ 1 ≤ w_Revision w ∧ one_of kind event_kinds = true;
  re_rest : s' = s <| work_items := work_items s' |> <| memory_stores := memory_stores s' |> <| work_events := work_events s' |> <| memory_entries := memory_entries s' |> }.

Lemma numbered_fields kind seq w : w_LatestSeq (numbered kind seq w) = seq ∧ w_WorkID (numbered kind seq w) = w_WorkID w ∧
  w_Revision (numbered kind seq w) = w_Revision w ∧ w_report (numbered kind seq w) = w_report w ∧ w_evidence (numbered kind seq w) = w_evidence w.
Proof. unfold numbered. destruct (seqb kind _); [done|]. by destruct (_ || _). Qed.

Lemma event_Ok json_float store m w kind consumer author now s w' s' : event json_float store m w kind consumer author now s = Ok (w', s') →
  recorded_event json_float store m w kind consumer now w' s s'.
Proof.
  intros H. unfold event in H. apply bind_Ok in H as (u & s0 & H0 & H). apply ensure_Ok in H0 as [_ [= -> ->]].
  apply bind_Ok in H as (seq & s1 & H1 & H). unfold next_head in H1. run H1.
  destruct (numbered_fields kind (sto_head v + 1) w) as (N1 & N2 & N3 & N4 & N5). set (w1 := numbered kind (sto_head v + 1) w) in *.
  apply bind_Ok in H as (u1 & s2 & H2 & H). unfold update_item in H2. rewrite N2 in H2. cbn [work_items] in H2.
  apply bind_Ok in H as (o & s3 & H3 & H). apply gets_Ok in H3 as [= -> ->]. apply bind_Ok in H as (vw & s3 & H3 & H). apply lift_Ok in H3 as [Hv ->].
  apply bind_Ok in H as (u2 & s3 & H3 & H). apply ensure_Ok in H3 as [_ [= -> ->]].
  apply bind_Ok in H as (u3 & s3 & H3 & H). unfold insert_entry in H3. destruct (bool_decide _) eqn:E3; [done|]. injection H3 as _ <-.
  apply bind_Ok in H as (u4 & s4 & H4 & H). unfold insert_work_event in H4. destruct (_ || _) eqn:E4; [done|]. injection H4 as _ <-.
  apply ret_Ok in H as [= -> ->]. apply bool_decide_eq_false, eq_None_not_Some in E3.
  apply orb_false_iff in E4 as [E4%bool_decide_eq_false%eq_None_not_Some E5%negb_false_iff]. rewrite !andb_true_iff in E5. destruct E5 as [[E5 E6] E7].
  assert (∃ items, s2 = s <| memory_stores := head_moved store s |> <| work_items := items |> ∧ ∀ old, work_items s !! (store, w_WorkID w) = Some old →
    ∃ new, items = <[(store, w_WorkID w) := new]> (work_items s) ∧ item_checks new = true ∧
      new = (as_row w1) <| w_CreatedAt := w_CreatedAt old |> <| w_CreatedConsumer := w_CreatedConsumer old |>) as (items & -> & Hitems).
  { change (work_items _ !! _) with (work_items s !! (store, w_WorkID w)) in H2. destruct (work_items s !! (store, w_WorkID w)) as [old|] eqn:Eo.
    - match type of H2 with context [item_checks ?x] => destruct (item_checks x) eqn:Ec; [|done] end. injection H2 as _ <-. eexists. split; [reflexivity|]. intros old' [= <-]. eauto.
    - injection H2 as _ <-. exists (work_items s). split; [|done]. by destruct s. }
  cbn in E3, E4. rewrite N3 in *. split; rewrite ?N1.
  - by exists v.
  - done.
  - exact Hitems.
  - done.
  - done.
  - eexists. rewrite N2. split_and!; [..|reflexivity]; done.
  - eexists. rewrite N2. split_and!; [..|reflexivity]; cbn; done.
  - cbn [we_revision] in E6. split_and!; [lia|lia|done].
  - done.
Qed.

(** ** The scope history *)

Lemma scope_Ok json_float store w consumer author now s u s' : scope json_float store w consumer author now s = Ok (u, s') →
  work_scope_revisions s !! (store, w_WorkID w, w_Revision w) = None ∧
  ∃ sc, sc_title sc = w_Title w ∧ sc_criteria sc = w_Criteria w ∧ sc_non_goals sc = w_NonGoals w ∧ sc_consumer sc = consumer ∧
    s' = s <| work_scope_revisions := <[(store, w_WorkID w, w_Revision w) := sc]> (work_scope_revisions s) |>.
Proof.
  intros H. unfold scope in H. run H. rewrite !andb_true_iff, negb_true_iff in G0. destruct G0 as [[G0%bool_decide_eq_false%eq_None_not_Some _] _].
  split; [done|]. eexists. by split_and!; [..|reflexivity].
Qed.

(** ** A retry record *)

Lemma storeReplay_Ok json_float store m r actor print result now s u s' : storeReplay json_float store m r actor print result now s = Ok (u, s') →
  if keyed r then work_replays s !! (store, mc_Consumer m, text r "key") = None ∧
    s' = s <| work_replays := <[(store, mc_Consumer m, text r "key") :=
           mkWorkReplayRow (r_op r) fingerprintScheme print (wr_Seq result) now (number r "deadline") result actor]> (work_replays s) |>
  else s' = s.
Proof.
  intros H. unfold storeReplay in H. apply bind_Ok in H as (u0 & s0 & H0 & H). apply ensure_Ok in H0 as [_ [= -> ->]].
  destruct (keyed r); cbn in H; [|by run H]. run H. rewrite !andb_true_iff, negb_true_iff in G.
  destruct G as [[G%bool_decide_eq_false%eq_None_not_Some _] _]. done.
Qed.
