(* ===== verification/WorkProps.v ===== *)
(** * The invariant of the work items

    Items, their claims, their scope history and their events agree, whatever sequence of
    operations, due transitions and clean-ups runs. *)

From S2P Require Import Prelude GoString GoFloat Schema Sql Label Fixture Storage Names Messages Cycles Sessions Inboxes Participants Leases LeaseProps WorkViews MemoryLimits MemoryExpiry WorkItems WorkOps Works WorkFacts.
Open Scope Z_scope.

(** ** The invariant *)

(** An active claim is the last one of its item, which it matches. *)
Definition claim_matches (g : Z) (b : BundleRow) (w : workItem) : Prop :=
  ongoing (w_Lifecycle w) = true ∧ b_progress_epoch b = w_ProgressEpoch w ∧ w_LastGeneration w = Some g ∧ w_LastWriter w = Some (b_consumer b).
Definition scope_matches (sc : ScopeRow) (w : workItem) : Prop :=
  sc_title sc = w_Title w ∧ sc_criteria sc = w_Criteria w ∧ sc_non_goals sc = w_NonGoals w.

Record works_wf (s : State) : Prop := {
  ww_ids : ∀ repo repo' r r', memory_stores s !! repo = Some r → memory_stores s !! repo' = Some r' → sto_store_id r = sto_store_id r' → repo = repo';
  ww_item : ∀ store id w, work_items s !! (store, id) = Some w → (item_checks w = true ∧ as_row w = w) ∧ w_WorkID w = id ∧ is_Some (store_row store s);
  ww_latest : ∀ store id w, work_items s !! (store, id) = Some w →
    ∃ e, work_events s !! (store, w_LatestSeq w) = Some e ∧ we_work_id e = id ∧ we_revision e = w_Revision w;
  ww_head : ∀ store q e repo r, work_events s !! (store, q) = Some e → memory_stores s !! repo = Some r → sto_store_id r = store → q ≤ sto_head r;
  ww_event : ∀ store q e, work_events s !! (store, q) = Some e → ∃ w, work_items s !! (store, we_work_id e) = Some w ∧ q ≤ w_LatestSeq w;
  ww_history : ∀ store q q' e e', work_events s !! (store, q) = Some e → work_events s !! (store, q') = Some e' → we_work_id e = we_work_id e' →
    q < q' → we_revision e < we_revision e';
  ww_report : ∀ store id w q, work_items s !! (store, id) = Some w → w_ReportSeq w = Some q →
    ∃ e rp, work_events s !! (store, q) = Some e ∧ we_work_id e = id ∧ we_kind e = "reported"%string ∧ v_Report (we_payload e) = Some rp;
  ww_scope : ∀ store id w, work_items s !! (store, id) = Some w → w_ScopeRevision w ≤ w_Revision w ∧
    ∃ sc, work_scope_revisions s !! (store, id, w_ScopeRevision w) = Some sc ∧ scope_matches sc w;
  ww_scopes : ∀ store id n sc, work_scope_revisions s !! (store, id, n) = Some sc → ∃ w, work_items s !! (store, id) = Some w ∧ n ≤ w_ScopeRevision w;
  ww_bundle : ∀ store g b, claim_bundles s !! (store, g) = Some b → ∃ w, work_items s !! (store, b_work_id b) = Some w ∧
    (b_active b = true → claim_matches g b w) }.

Definition work_inv (now : float) (s : State) : Prop := leases_inv now s ∧ works_wf s.

(** What the invariant reads of the stores *)
Definition heads (s : State) : gmap string (string * Z) := (λ r, (sto_store_id r, sto_head r)) <$> memory_stores s.
Definition works_view (s : State) := (work_items s, work_events s, work_scope_revisions s, claim_bundles s, heads s).

Lemma heads_lookup s s' repo r' : heads s' = heads s → memory_stores s' !! repo = Some r' →
  ∃ r, memory_stores s !! repo = Some r ∧ sto_store_id r' = sto_store_id r ∧ sto_head r' = sto_head r.
Proof.
  intros E Hl. assert (heads s' !! repo = Some (sto_store_id r', sto_head r')) as H by (unfold heads; by rewrite lookup_fmap, Hl).
  rewrite E in H. unfold heads in H. rewrite lookup_fmap in H. destruct (memory_stores s !! repo) as [r|]; [|done]. injection H as H1 H2. eauto.
Qed.
Lemma heads_store_row s s' store : heads s' = heads s → is_Some (store_row store s) → is_Some (store_row store s').
Proof.
  rewrite !store_row_is_Some. intros E (repo & r & Hl & Hs). symmetry in E. destruct (heads_lookup _ _ _ _ E Hl) as (r' & Hl' & H1 & _).
  exists repo, r'. split; [done|congruence].
Qed.
Lemma heads_update P (f : StoreRow → StoreRow) s : (∀ r, sto_store_id (f r) = sto_store_id r ∧ sto_head (f r) = sto_head r) →
  heads (s <| memory_stores := update_where P f (memory_stores s) |>) = heads s.
Proof.
  intros Hf. unfold heads. cbn. apply map_eq. intros repo. rewrite !lookup_fmap, lookup_update_where. destruct (memory_stores s !! repo) as [r|]; [|done].
  cbn. destruct (P repo r); [|done]. destruct (Hf r) as [-> ->]. done.
Qed.

Lemma works_wf_view s s' : works_view s' = works_view s → works_wf s → works_wf s'.
Proof.
  unfold works_view. intros [= H1 H2 H3 H4 H5] [A0 A1 A2 A3 A4 A5 A6 A7 A8 A9]. split; rewrite ?H1, ?H2, ?H3, ?H4; try done.
  - intros repo repo' r r' Hr Hr' E. destruct (heads_lookup _ _ _ _ H5 Hr) as (r0 & Hr0 & E1 & _), (heads_lookup _ _ _ _ H5 Hr') as (r1 & Hr1 & E2 & _).
    eapply A0; [done..|congruence].
  - intros store id w Hw. destruct (A1 _ _ _ Hw) as (? & ? & ?). split; [done|split; [done|]]. by eapply heads_store_row.
  - intros store q e repo r He Hr Hid. destruct (heads_lookup _ _ _ _ H5 Hr) as (r0 & Hr0 & E1 & E2). rewrite E2. eapply A3; [done..|congruence].
Qed.
Lemma works_wf_keeps {A} (m : tx A) : Keeps works_view m → Maintains works_wf m.
Proof. apply maintains_keeps, works_wf_view. Qed.

(** ** One event *)

(** A new record of one item with its event, over the state [s0]: everything else stays but the
    item's claim and scope history. *)
Section insert.
Variables (store : string) (new : workItem) (e : WorkEventRow) (s0 s' : State).
#[local] Abbreviation id := (w_WorkID new).
#[local] Abbreviation seq := (w_LatestSeq new).

Record written : Prop := {
  wn_items : work_items s' = <[(store, id) := new]> (work_items s0);
  wn_checks : item_checks new = true ∧ as_row new = new;
  wn_events : work_events s' = <[(store, seq) := e]> (work_events s0);
  wn_event : we_work_id e = id ∧ we_revision e = w_Revision new;
  wn_last : ∀ q x, work_events s0 !! (store, q) = Some x → q < seq;
  wn_rows : (∀ st, is_Some (store_row st s0) → is_Some (store_row st s')) ∧ is_Some (store_row store s');
  wn_heads : ∀ repo r', memory_stores s' !! repo = Some r' → ∃ r, memory_stores s0 !! repo = Some r ∧ sto_store_id r' = sto_store_id r ∧
    sto_head r ≤ sto_head r' ∧ (sto_store_id r = store → seq ≤ sto_head r');
  wn_revision : ∀ q x, work_events s0 !! (store, q) = Some x → we_work_id x = id → we_revision x < w_Revision new;
  wn_report : ∀ q, w_ReportSeq new = Some q → (q = seq ∧ we_kind e = "reported"%string ∧ is_Some (v_Report (we_payload e))) ∨
    ∃ w0, work_items s0 !! (store, id) = Some w0 ∧ w_ReportSeq w0 = Some q;
  wn_scope : w_ScopeRevision new ≤ w_Revision new ∧ ∃ sc, work_scope_revisions s' !! (store, id, w_ScopeRevision new) = Some sc ∧ scope_matches sc new;
  wn_scopes : ∀ st i n, work_scope_revisions s' !! (st, i, n) = work_scope_revisions s0 !! (st, i, n) ∨ ((st, i) = (store, id) ∧ n ≤ w_ScopeRevision new);
  wn_scopes_le : ∀ n sc, work_scope_revisions s0 !! (store, id, n) = Some sc → n ≤ w_ScopeRevision new;
  wn_bundles : ∀ st g b, claim_bundles s' !! (st, g) = Some b →
    ((st, b_work_id b) ≠ (store, id) ∧ claim_bundles s0 !! (st, g) = Some b) ∨
    (st = store ∧ b_work_id b = id ∧ (b_active b = true → claim_matches g b new)) }.

Hypothesis Hw : written.
Hypothesis Hwf : works_wf s0.

Lemma written_event q x : work_events s0 !! (store, q) = Some x → work_events s' !! (store, q) = Some x.
Proof using Hw. intros Hx. rewrite (wn_events Hw), lookup_insert_ne; [done|]. intros [= E]. pose proof (wn_last Hw _ _ Hx). lia. Qed.
Lemma written_history st q q' x x' : work_events s' !! (st, q) = Some x → work_events s' !! (st, q') = Some x' → we_work_id x = we_work_id x' →
  q < q' → we_revision x < we_revision x'.
Proof using Hw Hwf.
  destruct (wn_event Hw) as [Ei Er]. rewrite (wn_events Hw). intros [[[= <- <-] <-]|[Hn1 H1]]%lookup_insert_Some [[[= <-] <-]|[Hn2 H2]]%lookup_insert_Some E Hq.
  - lia.
  - pose proof (wn_last Hw _ _ H2). lia.
  - rewrite Er. eapply wn_revision; [exact Hw|exact H1|congruence].
  - by eapply (ww_history _ Hwf st q q').
Qed.
Lemma written_reports st i w q : work_items s' !! (st, i) = Some w → w_ReportSeq w = Some q →
  ∃ x rp, work_events s' !! (st, q) = Some x ∧ we_work_id x = i ∧ we_kind x = "reported"%string ∧ v_Report (we_payload x) = Some rp.
Proof using Hw Hwf.
  rewrite (wn_items Hw). intros [[[= <- <-] <-]|[Hn Hl]]%lookup_insert_Some Hq.
  - destruct (wn_report Hw _ Hq) as [(Eq & Hk & [rp Hrp])|(w0 & Hw0 & Hq0)].
    + exists e, rp. rewrite Eq, (wn_events Hw), lookup_insert_eq. split_and!; [done|by apply (wn_event Hw)|done|done].
    + destruct (ww_report _ Hwf _ _ _ _ Hw0 Hq0) as (x & rp & Hx & H). exists x, rp. split; [by apply written_event|done].
  - destruct (ww_report _ Hwf _ _ _ _ Hl Hq) as (x & rp & Hx & Hxi & H). exists x, rp. split; [|done].
    rewrite (wn_events Hw), lookup_insert_ne; [done|]. intros [= <- Eq]. rewrite <-Eq in Hx. pose proof (wn_last Hw _ _ Hx). lia.
Qed.
Lemma written_scope st i w : work_items s' !! (st, i) = Some w → w_ScopeRevision w ≤ w_Revision w ∧
  ∃ sc, work_scope_revisions s' !! (st, i, w_ScopeRevision w) = Some sc ∧ scope_matches sc w.
Proof using Hw Hwf.
  rewrite (wn_items Hw). intros [[[= <- <-] <-]|[Hn Hl]]%lookup_insert_Some; [apply (wn_scope Hw)|].
  destruct (ww_scope _ Hwf _ _ _ Hl) as (Hle & sc & Hsc & Hm). split; [done|]. exists sc. split; [|done].
  destruct (wn_scopes Hw st i (w_ScopeRevision w)) as [->|[E _]]; [done|congruence].
Qed.
Lemma written_scopes st i n sc : work_scope_revisions s' !! (st, i, n) = Some sc → ∃ w, work_items s' !! (st, i) = Some w ∧ n ≤ w_ScopeRevision w.
Proof using Hw Hwf.
  intros Hsc. rewrite (wn_items Hw). destruct (decide ((store, id) = (st, i))) as [[= <- <-]|Hne].
  - exists new. rewrite lookup_insert_eq. split; [done|]. destruct (wn_scopes Hw store id n) as [E|[_ ?]]; [|done].
    rewrite E in Hsc. by eapply wn_scopes_le.
  - rewrite lookup_insert_ne by done. destruct (wn_scopes Hw st i n) as [E|[E _]]; [|congruence]. rewrite E in Hsc. by eapply ww_scopes.
Qed.
Lemma written_bundle st g b : claim_bundles s' !! (st, g) = Some b → ∃ w, work_items s' !! (st, b_work_id b) = Some w ∧ (b_active b = true → claim_matches g b w).
Proof using Hw Hwf.
  intros Hb. rewrite (wn_items Hw). destruct (wn_bundles Hw _ _ _ Hb) as [[Hne Hb0]|(-> & Ei & Hm)].
  - rewrite lookup_insert_ne by done. by eapply ww_bundle.
  - rewrite Ei, lookup_insert_eq. by exists new.
Qed.

Lemma works_wf_written : works_wf s'.
Proof using Hw Hwf.
  destruct (wn_event Hw) as [Ei Er]. destruct (wn_rows Hw) as [Hrows Hrow]. split.
  - intros repo repo' r r' Hr Hr' E. destruct (wn_heads Hw _ _ Hr) as (r0 & Hr0 & E1 & _), (wn_heads Hw _ _ Hr') as (r1 & Hr1 & E2 & _).
    eapply (ww_ids _ Hwf); [done..|congruence].
  - intros st i w. rewrite (wn_items Hw). intros [[[= <- <-] <-]|[Hn Hl]]%lookup_insert_Some; [split; [apply (wn_checks Hw)|done]|].
    destruct (ww_item _ Hwf _ _ _ Hl) as (? & ? & ?). auto 6.
  - intros st i w. rewrite (wn_items Hw). intros [[[= <- <-] <-]|[Hn Hl]]%lookup_insert_Some.
    + exists e. rewrite (wn_events Hw), lookup_insert_eq. done.
    + destruct (ww_latest _ Hwf _ _ _ Hl) as (x & Hx & H). exists x. split; [|done]. rewrite (wn_events Hw), lookup_insert_ne; [done|].
      intros [= <- E]. rewrite <-E in Hx. pose proof (wn_last Hw _ _ Hx). lia.
  - intros st q x repo r'. rewrite (wn_events Hw). intros Hx Hr Hid. destruct (wn_heads Hw _ _ Hr) as (r & Hr0 & E1 & E2 & E3).
    apply lookup_insert_Some in Hx as [[[= -> <-] _]|[_ Hx]]; [apply E3; congruence|]. pose proof (ww_head _ Hwf _ _ _ _ _ Hx Hr0 ltac:(congruence)). lia.
  - intros st q x. rewrite (wn_events Hw), (wn_items Hw). intros [[[= <- <-] <-]|[Hn Hx]]%lookup_insert_Some.
    + exists new. rewrite Ei, lookup_insert_eq. done.
    + destruct (ww_event _ Hwf _ _ _ Hx) as (w & Hl & Hle). destruct (decide ((store, id) = (st, we_work_id x))) as [[= <- <-]|Hne].
      * exists new. rewrite lookup_insert_eq. split; [done|]. pose proof (wn_last Hw _ _ Hx). lia.
      * exists w. by rewrite lookup_insert_ne.
  - exact written_history.
  - exact written_reports.
  - exact written_scope.
  - exact written_scopes.
  - exact written_bundle.
Qed.
End insert.

(** The state [s1] in which the event of the changed item [w] is written, from the state [s0]
    with its old record [o], if any: the steps between have only added the new item and changed
    its claim and scope history. *)
Record ready (store : string) (o : option workItem) (w : workItem) (kind : string) (s0 s1 : State) : Prop := {
  rd_item : work_items s0 !! (store, w_WorkID w) = o;
  rd_items : (∀ new, <[(store, w_WorkID w) := new]> (work_items s1) = <[(store, w_WorkID w) := new]> (work_items s0)) ∧
    is_Some (work_items s1 !! (store, w_WorkID w));
  rd_events : work_events s1 = work_events s0;
  rd_heads : heads s1 = heads s0;
  rd_revision : match o with Some w0 => w_Revision w = w_Revision w0 + 1 | None => True end;
  rd_report : w_ReportSeq w = (o ≫= w_ReportSeq) ∧ (kind = "reported"%string → is_Some (w_report w));
  rd_scope : (∃ w0, o = Some w0 ∧ w_ScopeRevision w = w_ScopeRevision w0 ∧ (∀ sc, scope_matches sc w0 → scope_matches sc w) ∧
       work_scope_revisions s1 = work_scope_revisions s0) ∨
    (w_ScopeRevision w = w_Revision w ∧ ∃ sc, scope_matches sc w ∧
       work_scope_revisions s1 = <[(store, w_WorkID w, w_Revision w) := sc]> (work_scope_revisions s0));
  rd_bundles : ∀ st g b, claim_bundles s1 !! (st, g) = Some b →
    ((st, b_work_id b) ≠ (store, w_WorkID w) ∧ claim_bundles s0 !! (st, g) = Some b) ∨
    (st = store ∧ b_work_id b = w_WorkID w ∧ (b_active b = true → claim_matches g b w)) }.

Lemma matches_row g b w w' : w_Lifecycle w' = w_Lifecycle w → w_ProgressEpoch w' = w_ProgressEpoch w → w_LastGeneration w' = w_LastGeneration w →
  w_LastWriter w' = w_LastWriter w → claim_matches g b w → claim_matches g b w'.
Proof. unfold claim_matches. intros -> -> -> ->. done. Qed.

Lemma numbered_same kind seq w : let w' := numbered kind seq w in
  w_Lifecycle w' = w_Lifecycle w ∧ w_ProgressEpoch w' = w_ProgressEpoch w ∧ w_LastGeneration w' = w_LastGeneration w ∧ w_LastWriter w' = w_LastWriter w ∧
  w_ScopeRevision w' = w_ScopeRevision w ∧ w_Title w' = w_Title w ∧ w_Criteria w' = w_Criteria w ∧ w_NonGoals w' = w_NonGoals w ∧
  (w_ReportSeq w' = if seqb kind "reported" then Some seq else w_ReportSeq w).
Proof. unfold numbered. destruct (seqb kind "reported"); [done|]. by destruct (_ || _). Qed.

Lemma head_moved_Some store s repo r' : head_moved store s !! repo = Some r' → ∃ r, memory_stores s !! repo = Some r ∧ sto_store_id r' = sto_store_id r ∧
  sto_head r' = sto_head r + (if seqb (sto_store_id r) store then 1 else 0).
Proof.
  unfold head_moved. intros (r & Hl & ->)%lookup_update_where_Some. exists r. destruct (seqb (sto_store_id r) store); cbn; split_and!; done || lia.
Qed.
Lemma head_moved_row store st s s' : memory_stores s' = head_moved store s → is_Some (store_row st s) → is_Some (store_row st s').
Proof.
  rewrite !store_row_is_Some. intros -> (repo & r & Hl & Hs). unfold head_moved. eexists repo, _. rewrite lookup_update_where, Hl. split; [reflexivity|].
  by destruct (seqb (sto_store_id r) store).
Qed.

Lemma as_row_again w at_ who : let w' := (as_row w) <| w_CreatedAt := at_ |> <| w_CreatedConsumer := who |> in as_row w' = w'.
Proof. cbn. unfold as_row. cbn. f_equal. unfold nullif. destruct (w_ReportConsumer w) as [c|]; [|done]. destruct (seqb c "") eqn:E; [done|]. by rewrite E. Qed.
(** What the event leaves of a changed item *)
Definition same_row (kind : string) (w new : workItem) : Prop :=
  w_WorkID new = w_WorkID w ∧ w_Revision new = w_Revision w ∧ w_Lifecycle new = w_Lifecycle w ∧ w_ReportConsumer new = nullif (w_ReportConsumer w) ∧
  w_ReportActor new = w_ReportActor w ∧ w_VerdictCredit new = w_VerdictCredit w ∧ w_Verdict new = w_Verdict w.
Lemma numbered_report kind seq w : let w' := numbered kind seq w in
  w_ReportConsumer w' = w_ReportConsumer w ∧ w_ReportActor w' = w_ReportActor w ∧ w_VerdictCredit w' = w_VerdictCredit w ∧ w_Verdict w' = w_Verdict w.
Proof. unfold numbered. destruct (seqb kind "reported"); [done|]. by destruct (_ || _). Qed.

Lemma event_written json_float store m o w kind consumer now w' s0 s1 s' : works_wf s0 → ready store o w kind s0 s1 →
  recorded_event json_float store m w kind consumer now w' s1 s' → ∃ new e, written store new e s0 s' ∧ same_row kind w new ∧
    w_LatestSeq new = w_LatestSeq w' ∧ we_kind e = kind ∧ we_actor e = nativeActor m ∧ claim_bundles s' = claim_bundles s1 ∧ claim_resources s' = claim_resources s1.
Proof.
  intros Hwf [Ri [Ris [old Ro]] Re Rh Rr [Rp1 Rp2] Rs Rb] [(hr & Hhr & Hseq) Hw' Hitems Hst [Hfree _] (payload & Hp1 & Hp2 & Hp3 & Hev) _ (Hs1 & Hr1 & _) Hrest].
  destruct (Hitems _ Ro) as (new & Hit & Hchk & Hnew). rewrite Ris in Hit. rewrite Re in Hfree, Hev.
  assert (work_scope_revisions s' = work_scope_revisions s1) as Hsc by (by rewrite Hrest). assert (claim_bundles s' = claim_bundles s1) as Hcb by (by rewrite Hrest).
  clear Hitems. set (seq := w_LatestSeq w') in *.
  destruct (numbered_report kind seq w) as (P1 & P2 & P3 & P4). destruct (numbered_same kind seq w) as (N1 & N2 & N3 & N4 & N5 & N6 & N7 & N8 & N9). destruct (numbered_fields kind seq w) as (F1 & F2 & F3 & F4 & F5).
  rewrite <-Hw' in *. clear Hw'.
  destruct (store_row_Some _ _ _ Hhr) as (repo0 & Hrepo0 & Hid0). destruct (heads_lookup _ _ _ _ Rh Hrepo0) as (r0 & Hr0 & Hi0 & Hh0).
  assert (w_WorkID new = w_WorkID w) as Wid by (by rewrite Hnew). assert (w_LatestSeq new = seq) as Wseq by (by rewrite Hnew).
  assert (w_Revision new = w_Revision w) as Wrev by (by rewrite Hnew). assert (w_ScopeRevision new = w_ScopeRevision w) as Wsc by (by rewrite Hnew).
  assert (w_ReportSeq new = w_ReportSeq w') as Wrs by (by rewrite Hnew).
  assert (∀ sc, scope_matches sc w → scope_matches sc new) as Wm by (intros sc; unfold scope_matches; rewrite Hnew; cbn; congruence).
  assert (∀ g b, claim_matches g b w → claim_matches g b new) as Wc by (intros g b; rewrite Hnew; apply matches_row; done).
  assert (as_row new = new) as Wrow by (rewrite Hnew; apply as_row_again).
  assert (same_row kind w new) as Wsame.
  { unfold same_row. rewrite Hnew. cbn. rewrite P1, P2, P3, P4. done. }
  assert (claim_resources s' = claim_resources s1) as Hcr by (by rewrite Hrest).
  clear Hrest Hnew. exists new, (mkWorkEventRow (w_WorkID w) (w_Revision w) kind payload (nativeActor m)). split; [|by split_and!]. split; rewrite ?Wid, ?Wseq, ?Wrev, ?Wsc.
  - exact Hit.
  - done.
  - exact Hev.
  - done.
  - intros q x He. pose proof (ww_head _ Hwf _ _ _ _ _ He Hr0 ltac:(congruence)). lia.
  - split; [|by eapply head_moved_row]. intros st Hx. eapply head_moved_row; [exact Hst|]. by eapply heads_store_row.
  - rewrite Hst. intros repo r' (r1 & Hl & E1 & E2)%head_moved_Some. destruct (heads_lookup _ _ _ _ Rh Hl) as (r & Hl0 & E3 & E4).
    exists r. split_and!; [done|congruence|rewrite E2, E4; clear; destruct (seqb _ _); lia|]. intros Hs.
    assert (repo = repo0) as -> by (apply (ww_ids _ Hwf _ _ _ _ Hl0 Hr0); congruence). assert (r1 = hr) as -> by congruence. rewrite E2, (proj2 (seqb_true _ _) Hid0). lia.
  - intros q x He Hx. destruct (ww_event _ Hwf _ _ _ He) as (w1 & Hl & Hq). rewrite Hx in Hl. assert (o = Some w1) as -> by congruence. rewrite Rr.
    destruct (ww_latest _ Hwf _ _ _ Ri) as (x0 & Hx0 & Hi & Hr). destruct (decide (q = w_LatestSeq w1)) as [->|].
    + assert (x = x0) as -> by congruence. lia.
    + pose proof (ww_history _ Hwf store q (w_LatestSeq w1) x x0 He Hx0 ltac:(congruence) ltac:(lia)). lia.
  - intros q. rewrite Wrs, N9. destruct (seqb kind "reported") eqn:Ek.
    + intros [= <-]. left. apply seqb_true in Ek. split_and!; [done|done|]. cbn. rewrite Hp2. auto.
    + rewrite Rp1. destruct o as [w0|]; [|done]. cbn. intros Hq. right. eauto.
  - rewrite Hsc. destruct Rs as [(w0 & -> & Es & Em & Et)|(Es & sc & Em & Et)].
    + rewrite Es, Et. destruct (ww_scope _ Hwf _ _ _ Ri) as (Hle & sc0 & Hsc0 & Hm0). split; [lia|]. eauto.
    + rewrite Es, Et. split; [lia|]. exists sc. rewrite lookup_insert_eq. auto.
  - rewrite Hsc. intros st i n. destruct Rs as [(w0 & -> & Es & Em & Et)|(Es & sc & Em & Et)]; rewrite Et; [by left|].
    destruct (decide ((store, w_WorkID w, w_Revision w) = (st, i, n))) as [[= <- <- <-]|Hne]; [right; split; [done|lia]|left; by rewrite lookup_insert_ne].
  - intros n sc Hn. destruct (ww_scopes _ Hwf _ _ _ _ Hn) as (w1 & Hl & Hq). assert (o = Some w1) as -> by congruence. destruct (ww_scope _ Hwf _ _ _ Ri) as [Hle _].
    destruct Rs as [(w0 & [= <-] & Es & _)|(Es & _)]; lia.
  - rewrite Hcb. intros st g b Hb. destruct (Rb _ _ _ Hb) as [?|(-> & Eb & Hm)]; [by left|right]. auto.
Qed.

(** ** The claim of a changed item *)

Definition moved (store : string) (w : workItem) (s0 s1 : State) : Prop := ∀ st g b, claim_bundles s1 !! (st, g) = Some b →
  ((st, b_work_id b) ≠ (store, w_WorkID w) ∧ claim_bundles s0 !! (st, g) = Some b) ∨
  (st = store ∧ b_work_id b = w_WorkID w ∧ (b_active b = true → claim_matches g b w)).

Lemma moved_same store w0 w s0 s1 : works_wf s0 → work_items s0 !! (store, w_WorkID w) = Some w0 → claim_bundles s1 = claim_bundles s0 →
  (∀ g b, claim_matches g b w0 → claim_matches g b w) → moved store w s0 s1.
Proof.
  intros Hwf Hi Hb Hm st g b. rewrite Hb. intros Hl. destruct (decide ((st, b_work_id b) = (store, w_WorkID w))) as [[= -> E]|?]; [right|by left].
  destruct (ww_bundle _ Hwf _ _ _ Hl) as (w1 & Hw1 & Hma). rewrite E, Hi in Hw1. assert (w1 = w0) as -> by congruence. auto.
Qed.
Lemma moved_alter store w s0 s1 g b (f : BundleRow → BundleRow) : leases_wf s0 → claim_bundles s0 !! (store, g) = Some b → b_work_id b = w_WorkID w →
  claim_bundles s1 = alter f (store, g) (claim_bundles s0) → b_work_id (f b) = b_work_id b → (b_active (f b) = true → claim_matches g (f b) w) →
  moved store w s0 s1.
Proof.
  intros Hwf Hl Hi Hb Hf Hm st g' b'. rewrite Hb, lookup_alter. case_decide as E.
  - injection E as <- <-. rewrite Hl. intros [= <-]. right. split_and!; [done|congruence|done].
  - intros Hl'. destruct (decide ((st, b_work_id b') = (store, w_WorkID w))) as [[= -> Ei]|?]; [|by left].
    exfalso. apply E. f_equal. by apply (lw_unique _ Hwf store g g' b b'); [..|congruence].
Qed.
Lemma moved_acquired store w consumer epoch keys now duration l s0 s1 s2 (f : BundleRow → BundleRow) : acquired store (w_WorkID w) consumer epoch keys now duration l s0 s1 →
  claim_bundles s2 = alter f (store, le_Generation l) (claim_bundles s1) →
  (∀ b, b_work_id (f b) = b_work_id b ∧ b_progress_epoch (f b) = b_progress_epoch b ∧ b_consumer (f b) = b_consumer b) →
  ongoing (w_Lifecycle w) = true → w_ProgressEpoch w = epoch → w_LastGeneration w = Some (le_Generation l) → w_LastWriter w = Some consumer →
  moved store w s0 s2.
Proof.
  intros Ha Hb Hf H1 H2 H3 H4 st g b. rewrite Hb, (aq_bundle _ _ _ _ _ _ _ _ _ _ Ha), alter_insert_eq. intros [[[= <- <-] <-]|[Hne Hl]]%lookup_insert_Some.
  - right. destruct (Hf (mkBundleRow (w_WorkID w) consumer 1 now now (le_ExpiresAt l) epoch false true true true "")) as (E1 & E2 & E3).
    split_and!; [done|by rewrite E1|]. intros _. unfold claim_matches. rewrite E2, E3. done.
  - left. split; [|done]. intros [= -> E]. by destruct (aq_free _ _ _ _ _ _ _ _ _ _ Ha _ _ Hl).
Qed.
(** No claim is left on the item. *)
Lemma moved_end store w s0 s1 g b (f : BundleRow → BundleRow) : leases_wf s0 → claim_bundles s0 !! (store, g) = Some b → b_work_id b = w_WorkID w →
  claim_bundles s1 = alter f (store, g) (claim_bundles s0) → (∀ b, b_work_id (f b) = b_work_id b ∧ b_active (f b) = false) → moved store w s0 s1.
Proof. intros Hwf Hl Hi Hb Hf. destruct (Hf b) as [E1 E2]. eapply moved_alter; [done..|congruence]. Qed.

(** ** The parts that the claim operations keep *)

Definition records (s : State) := (work_items s, work_events s, heads s, work_scope_revisions s).
Lemma records_end store g : Keeps records (end_ store g).
Proof. apply keeps_modify. done. Qed.
Lemma records_acquired store workID consumer epoch keys now duration l s s' : acquired store workID consumer epoch keys now duration l s s' → records s' = records s.
Proof.
  intros [(r & _ & _ & Hm) _ _ _ _ _ _ _ _ _ Hrest]. unfold records. rewrite Hrest. cbn. f_equal. f_equal. unfold heads at 1. cbn. rewrite Hm.
  by apply (heads_update _ _ s).
Qed.

(** A change that keeps the scope is ready for its event. *)
Definition same_scope (w0 w : workItem) : Prop :=
  w_ScopeRevision w = w_ScopeRevision w0 ∧ w_Title w = w_Title w0 ∧ w_Criteria w = w_Criteria w0 ∧ w_NonGoals w = w_NonGoals w0.
Lemma ready_intro store w0 w kind s0 s1 : work_items s0 !! (store, w_WorkID w) = Some w0 → records s1 = records s0 → w_Revision w = w_Revision w0 + 1 →
  w_ReportSeq w = w_ReportSeq w0 → (kind = "reported"%string → is_Some (w_report w)) → same_scope w0 w → moved store w s0 s1 → ready store (Some w0) w kind s0 s1.
Proof.
  intros Hi [= H1 H2 H3 H4] Hr Hp Hk (S1 & S2 & S3 & S4) Hm. split; try done; [by rewrite H1, Hi|]. left. exists w0. split_and!; [done|done| |done]. unfold scope_matches. congruence.
Qed.
(** A change of the scope *)
Lemma ready_scoped json_float store w0 w kind consumer author now u s0 s1 : works_wf s0 → work_items s0 !! (store, w_WorkID w) = Some w0 →
  scope json_float store w consumer author now s0 = Ok (u, s1) → w_Revision w = w_Revision w0 + 1 → w_ScopeRevision w = w_Revision w →
  w_ReportSeq w = w_ReportSeq w0 → kind ≠ "reported"%string → (∀ g b, claim_matches g b w0 → claim_matches g b w) → ready store (Some w0) w kind s0 s1.
Proof.
  intros Hwf Hi (_ & sc & E1 & E2 & E3 & _ & ->)%scope_Ok Hr Hs Hp Hk Hm. split; try done.
  - right. split; [done|]. exists sc. unfold scope_matches. auto.
  - by eapply moved_same.
Qed.

(** ** The operations *)

Section operations.
Context `{SHA : Sha256}.
Variable json_float : float → string.
Variables (store : string) (l : memoryLimits) (m : MemoryCaller) (r : workRequest) (now : float) (actor : string).
Variables (w0 : workItem) (s0 : State).
Hypothesis Hwf : works_wf s0.
Hypothesis Hlw : leases_wf s0.
Hypothesis Hrow : work_items s0 !! (store, w_WorkID w0) = Some w0.
Hypothesis Hlife : ongoing (default "active"%string (optional r "lifecycle")) = true.
#[local] Abbreviation w1 := (w0 <| w_Revision := w_Revision w0 + 1 |>).

Lemma progressed_ready consumer g epoch kind w s1 : records s1 = records s0 → w_Revision w = w_Revision w0 + 1 → w_ReportSeq w = w_ReportSeq w0 →
  same_scope w0 w → w_WorkID w = w_WorkID w0 → kind ≠ "reported"%string → moved store (progressed r now w) s0 s1 →
  w_ProgressEpoch w = epoch → w_LastGeneration w = Some g → w_LastWriter w = Some consumer → ready store (Some w0) (progressed r now w) kind s0 s1.
Proof using Hrow Hlife.
  intros H1 H2 H3 H4 H5 H6 H7 H8 H9 H10. unfold progressed in *. destruct (has r "references"); apply ready_intro; cbn; rewrite ?H5; done.
Qed.
Lemma start_ready w s1 : start store m r now actor w1 s0 = Ok (w, s1) → ready store (Some w0) w "started" s0 s1.
Proof using Hwf Hrow Hlife.
  intros H. unfold start in H. apply bind_Ok in H as (u & s2 & H0 & H). assert (s2 = s0) as ->.
  { destruct (w_ProposedRole _); [|by run H0]. destruct (of_maintainer m); [by run H0|]. run H0. by apply check_Ok in H0 as [_ [= _ ->]]. }
  apply bind_Ok in H as (got & s2 & (keys & _ & Ha)%acquire_Ok & H). apply bind_Ok in H as (u1 & s3 & H1 & H). apply ret_Ok in H as [= -> ->].
  assert (records s3 = records s2 ∧ ∃ f, claim_bundles s3 = alter f (store, le_Generation got) (claim_bundles s2) ∧
    (∀ b, b_work_id (f b) = b_work_id b ∧ b_progress_epoch (f b) = b_progress_epoch b ∧ b_consumer (f b) = b_consumer b)) as (Hr & f & Hb & Hf).
  { unfold bind_actor, update_bundle in H1. destruct (negb _); cbn in H1; run H1; (split; [done|]).
    - eexists. split; [reflexivity|]. done.
    - exists id. split; [by rewrite alter_id|done]. }
  assert (ongoing (default "active"%string (optional r "lifecycle")) = true) as Hl by done.
  eapply progressed_ready; try done; [rewrite Hr; by eapply records_acquired|].
  unfold progressed. destruct (has r "references"); (eapply moved_acquired; [exact Ha|done..]).
Qed.

Lemma update_ready w s1 : update store m r now w1 s0 = Ok (w, s1) → ready store (Some w0) w "updated" s0 s1.
Proof using Hwf Hlw Hrow Hlife.
  intros H. unfold update in H. apply bind_Ok in H as (u & s2 & H0 & H). unfold progress in H0.
  apply bind_Ok in H0 as (b & s3 & (-> & Hb & Hi & Hc & Hact & _)%owner_Ok & H0). apply bind_Ok in H0 as (u0 & s3 & [_ [= -> ->]]%ensure_Ok & H0).
  unfold update_bundle in H0. apply modify_Ok in H0 as [= -> ->]. cbn [w_ProgressEpoch w_WorkID] in *.
  destruct (ww_bundle _ Hwf _ _ _ Hb) as (w' & Hw' & Hm). rewrite Hi in Hw'. cbn in Hw'. assert (w' = w0) as -> by congruence. destruct (Hm Hact) as (_ & _ & Hg & Hlc).
  apply bind_Ok in H as (u1 & s3 & H1 & H). apply ret_Ok in H as [= -> ->].
  assert (∃ f, s3 = s0 <| claim_bundles := alter f (store, int_ r "claim_generation") (claim_bundles s0) |> ∧
    (∀ b, b_work_id (f b) = b_work_id b ∧ b_progress_epoch (f b) = w_ProgressEpoch w0 + 1 ∧ b_consumer (f b) = b_consumer b)) as (f & -> & Hf).
  { destruct (r_ints r !! "renew_for"%string) as [duration|]; [|run H1; eexists; split; [reflexivity|done]].
    apply bind_Ok in H1 as (b1 & t1 & (E1 & _)%owner_Ok & H1). subst t1. apply bind_Ok in H1 as (le & s4 & H2 & H1). run H1. unfold renew in H2.
    apply bind_Ok in H2 as (b2 & t3 & (E3 & _)%owner_Ok & H2). subst t3. run H2. unfold update_bundle in R. run R. cbn. rewrite alter_alter_eq. eexists. split; [reflexivity|].
    done. }
  destruct (Hf b) as (F1 & F2 & F3). eapply progressed_ready; try done.
  eapply (moved_alter _ _ _ _ _ b f); [done|done| | |done|]; [by unfold progressed; destruct (has r "references")|done|].
  intros _. unfold claim_matches. rewrite F2, F3, Hc. unfold progressed. destruct (has r "references"); cbn; rewrite Hg, Hlc, Hc; done.
Qed.

(** The operations that end the claim *)
Lemma ended_ready g b kind w s1 : claim_bundles s0 !! (store, g) = Some b → b_work_id b = w_WorkID w → end_ store g s0 = Ok (tt, s1) →
  w_WorkID w = w_WorkID w0 → w_Revision w = w_Revision w0 + 1 → w_ReportSeq w = w_ReportSeq w0 → (kind = "reported"%string → is_Some (w_report w)) →
  same_scope w0 w → ready store (Some w0) w kind s0 s1.
Proof using Hlw Hrow.
  intros Hb Hi H E. unfold end_, update_bundle in H. apply modify_Ok in H as [= ->]. rewrite <-E in Hrow. intros. apply ready_intro; try done.
  by eapply moved_end.
Qed.
Lemma leave_ended w s1 : leave store m r now w1 s0 = Ok (w, s1) → w = w1 <| w_ProgressDeadline := None |> ∧ ∃ g b,
  claim_bundles s0 !! (store, g) = Some b ∧ b_work_id b = w_WorkID w0 ∧ end_ store g s0 = Ok (tt, s1).
Proof.
  intros H. unfold leave in H. apply bind_Ok in H as (u & s2 & H0 & H). apply check_Ok in H0 as [_ [= _ ->]].
  apply bind_Ok in H as ([] & s2 & H0 & H). unfold release in H0. apply bind_Ok in H0 as (b & s3 & (-> & Hb & Hi & _)%owner_Ok & H0). run H.
  split; [done|]. by eexists _, b.
Qed.
Lemma release_ready w s1 : release_item store m r now w1 s0 = Ok (w, s1) → ready store (Some w0) w "released" s0 s1.
Proof using Hlw Hrow.
  intros H. unfold release_item in H. apply bind_Ok in H as (w2 & s2 & (-> & g & b & Hb & Hi & He)%leave_ended & H). apply ret_Ok in H as [= -> ->].
  by eapply ended_ready.
Qed.
Lemma finish_ready w s1 : finish_item store m r now w1 s0 = Ok (w, s1) → ready store (Some w0) w "finished" s0 s1.
Proof using Hlw Hrow.
  intros H. unfold finish_item in H. apply bind_Ok in H as (w2 & s2 & (-> & g & b & Hb & Hi & He)%leave_ended & H). apply ret_Ok in H as [= -> ->].
  by eapply ended_ready.
Qed.
Lemma report_ready w s1 : report store l m r now w1 s0 = Ok (w, s1) → ready store (Some w0) w "reported" s0 s1.
Proof using Hlw Hrow.
  intros H. unfold report in H. apply bind_Ok in H as (u & s2 & H0 & H). assert (s2 = s0) as -> by (unfold reserveVerdict in H0; by run H0).
  apply bind_Ok in H as ([] & s2 & H1 & H). unfold release in H1. apply bind_Ok in H1 as (b & s3 & (-> & Hb & Hi & _)%owner_Ok & H1).
  apply bind_Ok in H as (o & s3 & [= -> ->]%gets_Ok & H). apply bind_Ok in H as (role & s3 & [_ ->]%lift_Ok & H). apply ret_Ok in H as [= -> ->].
  by eapply ended_ready.
Qed.

(** The operations on the record alone *)
Lemma propose_ready w s1 : propose r w1 s0 = Ok (w, s1) → ready store (Some w0) w "proposed" s0 s1.
Proof using Hwf Hrow. intros H. unfold propose in H. apply ret_Ok in H as [= -> ->]. apply ready_intro; try done. by eapply moved_same. Qed.
Lemma edit_ready w s1 : edit json_float store m r now w1 s0 = Ok (w, s1) → ready store (Some w0) w "edited" s0 s1.
Proof using Hwf Hrow.
  intros H. unfold edit in H. apply bind_Ok in H as (u & s2 & H0 & H). apply ret_Ok in H as [= -> ->]. by eapply ready_scoped.
Qed.
Lemma reported_unclaimed g b w : w_Lifecycle w0 = "reported"%string → claim_matches g b w0 → claim_matches g b w.
Proof. intros E [H _]. by rewrite E in H. Qed.
Lemma accept_ready w s1 : w_Lifecycle w0 = "reported"%string → accept r now w1 s0 = Ok (w, s1) → ready store (Some w0) w "accepted" s0 s1.
Proof using Hwf Hrow.
  intros E H. unfold accept in H. apply ret_Ok in H as [= -> ->]. apply ready_intro; try done. eapply moved_same; try done. intros. by apply reported_unclaimed.
Qed.
Lemma reject_ready w s1 : w_Lifecycle w0 = "reported"%string → reject json_float store m r now w1 s0 = Ok (w, s1) → ready store (Some w0) w "rejected" s0 s1.
Proof using Hwf Hrow.
  intros E H. unfold reject in H. apply bind_Ok in H as (u & s2 & H0 & H). apply ret_Ok in H as [= -> ->]. eapply ready_scoped; try done.
  intros. by apply reported_unclaimed.
Qed.
End operations.
