(* ===== verification/WorkSteps.v ===== *)
(** * The steps of the work items

    Every operation, due transition and clean-up keeps the invariant of WorkProps, in any
    order and at any times. *)

From S2P Require Import Prelude GoString GoFloat Schema Sql Label Fixture Storage Names Messages Cycles Sessions Inboxes Participants Leases LeaseProps WorkViews MemoryLimits MemoryExpiry WorkItems WorkOps Works WorkRequests WorkFacts WorkProps.
Open Scope Z_scope.

(** ** What the steps after an event keep *)

(** Everything that the two invariants read *)
Definition claims_view (s : State) := (works_view s, lease_view s).
Lemma work_inv_view now s s' : claims_view s' = claims_view s → work_inv now s → work_inv now s'.
Proof. intros [= H1 H2 H3 H4 H5 H6 H7 H8] [A B]. split; [eapply leases_inv_view|eapply works_wf_view]; [|done| |done]; unfold lease_view, works_view; congruence. Qed.

Section works.
Context `{SHA : Sha256}.
Variable json_float : float → string.
Variable processStart : Z → ProcessStart.

Lemma sendTx_claims now caller to body d : Keeps claims_view (sendTx processStart now caller to body d).
Proof. unfold sendTx, check, recipient_of, ensureParticipantInbox, sender_of, bumpInbox. keeps. Qed.
Lemma handoff_claims now_send m r : Keeps claims_view (notifyCheckoutHandoff processStart now_send m r).
Proof. unfold notifyCheckoutHandoff. keeps. apply sendTx_claims. Qed.
Lemma storeReplay_claims store m r actor print result now : Keeps claims_view (storeReplay json_float store m r actor print result now).
Proof. intros s u s' H. apply storeReplay_Ok in H. destruct (keyed r); [destruct H as [_ ->]|subst s']; done. Qed.

(** The state of a change after its event: the rest adds a message and the retry record. *)
Lemma complete_Ok store m r now now_send actor print kind w s res s' : complete json_float processStart store m r now now_send actor print kind w s = Ok (res, s') →
  ∃ w' s1, recorded_event json_float store m w kind (mc_Consumer m) now w' s s1 ∧ claims_view s' = claims_view s1 ∧
    wr_WorkID res = w_WorkID w ∧ wr_Revision res = w_Revision w ∧ wr_Seq res = Some (w_LatestSeq w') ∧ wr_Duplicate res = false.
Proof.
  intros H. unfold complete in H. apply bind_Ok in H as (w' & s1 & He%event_Ok & H). exists w', s1. split; [done|].
  apply bind_Ok in H as (message & s2 & H1 & H). apply bind_Ok in H as (held & s3 & [= -> ->]%gets_Ok & H). apply bind_Ok in H as (u & s3 & H2 & H).
  apply ret_Ok in H as [= -> ->]. split.
  - rewrite (storeReplay_claims _ _ _ _ _ _ _ _ _ _ H2). destruct (has r "handoff_to"); [|by run H1].
    apply bind_Ok in H1 as (o & s4 & H1 & H3). run H3. exact (handoff_claims _ _ _ _ _ _ H1).
  - cbn. destruct (numbered_fields kind (w_LatestSeq w') w) as (_ & N2 & N3 & _). rewrite <-(re_item _ _ _ _ _ _ _ _ _ _ He) in N2, N3. done.
Qed.
Lemma event_leases store m w kind consumer now w' s s' : recorded_event json_float store m w kind consumer now w' s s' → lease_view s' = lease_view s.
Proof.
  intros H. unfold lease_view. assert (counters s' = counters s) as ->.
  { unfold counters at 1. rewrite (re_stores _ _ _ _ _ _ _ _ _ _ H). exact (counters_update (λ _ r, seqb (sto_store_id r) store) (λ r, r <| sto_head := sto_head r + 1 |>) s ltac:(done)). }
  by rewrite (re_rest _ _ _ _ _ _ _ _ _ _ H).
Qed.
Lemma complete_inv store m r now now_send actor print kind o w s0 s1 res s' : works_wf s0 → ready store o w kind s0 s1 → leases_inv now s1 →
  complete json_float processStart store m r now now_send actor print kind w s1 = Ok (res, s') → work_inv now s'.
Proof.
  intros Hwf Hr Hl (w' & s2 & He & Hv & _)%complete_Ok. apply (work_inv_view now s2); [done|]. split.
  - eapply leases_inv_view; [by eapply event_leases|done].
  - destruct (event_written _ _ _ _ _ _ _ _ _ _ _ _ Hwf Hr He) as (new & e & Hw & _). by eapply works_wf_written.
Qed.

(** ** The operations keep the leases exclusive *)

Lemma check_keeps {B} (f : State → B) g : Keeps f (check g).
Proof. intros s u s' H. by apply check_Ok in H as [_ [= _ ->]]. Qed.
Lemma scope_leases store w consumer author now : Keeps lease_view (scope json_float store w consumer author now).
Proof. unfold scope. keeps. Qed.
Lemma leave_inv store m r now w : Maintains (leases_inv now) (leave store m r now w).
Proof.
  apply maintains_bind; [apply leases_inv_keeps, check_keeps|]. intros _. apply maintains_bind; [apply release_inv|]. intros _. apply leases_inv_keeps. keeps.
Qed.
Lemma start_inv store m r now actor w : Maintains (leases_inv now) (start store m r now actor w).
Proof.
  unfold start. apply maintains_bind; [apply leases_inv_keeps; keeps; apply check_keeps|]. intros _. apply maintains_bind; [apply acquire_inv|]. intros got.
  apply maintains_bind; [|intros _; apply leases_inv_keeps; keeps]. apply maintains_when. intros _. by apply maintains_update_bundle.
Qed.
Lemma update_inv store m r now w : Maintains (leases_inv now) (update store m r now w).
Proof.
  unfold update. apply maintains_bind; [apply progress_inv|]. intros _. apply maintains_bind; [|intros _; apply leases_inv_keeps; keeps].
  destruct (r_ints r !! _); [|apply leases_inv_keeps; keeps]. apply maintains_bind; [apply leases_inv_keeps; unfold owner; keeps|]. intros b.
  apply maintains_bind; [apply renew_inv|]. intros _. apply leases_inv_keeps. keeps.
Qed.
Lemma report_inv store l m r now w : Maintains (leases_inv now) (report store l m r now w).
Proof.
  unfold report. apply maintains_bind; [apply leases_inv_keeps; unfold reserveVerdict; keeps|]. intros _. apply maintains_bind; [apply release_inv|]. intros _.
  apply leases_inv_keeps. unfold lift. keeps. intros s x s2 H. by destruct a; [run H|].
Qed.
Lemma change_inv store l m r now actor w : Maintains (leases_inv now) (change json_float store l m r now actor w).
Proof.
  unfold change. repeat case_match; try (apply maintains_bind; [|intros ?; apply leases_inv_keeps; keeps]).
  - apply leases_inv_keeps. unfold propose. keeps.
  - apply leases_inv_keeps. unfold edit. keeps. apply scope_leases.
  - apply start_inv.
  - apply update_inv.
  - unfold release_item. apply maintains_bind; [apply leave_inv|intros ?; apply leases_inv_keeps; keeps].
  - unfold finish_item. apply maintains_bind; [apply leave_inv|intros ?; apply leases_inv_keeps; keeps].
  - apply report_inv.
  - apply leases_inv_keeps. unfold accept. keeps.
  - apply leases_inv_keeps. unfold reject. keeps. apply scope_leases.
  - apply leases_inv_keeps. keeps.
Qed.

(** ** A mutation *)

Lemma change_ready store l m r now actor w0 kind w s0 s1 : works_wf s0 → leases_wf s0 → work_items s0 !! (store, w_WorkID w0) = Some w0 →
  ongoing (default "active"%string (optional r "lifecycle")) = true → (workVerdict (r_op r) = true → w_Lifecycle w0 = "reported"%string) →
  change json_float store l m r now actor (w0 <| w_Revision := w_Revision w0 + 1 |>) s0 = Ok ((kind, w), s1) → ready store (Some w0) w kind s0 s1.
Proof.
  intros Hwf Hlw Hi Hl Hv H. unfold change in H. unfold workVerdict in Hv.
  repeat (match type of H with context [seqb (r_op r) ?x] => destruct (seqb (r_op r) x) eqn:?; [apply bind_Ok in H as (w' & s2 & H & [= -> -> ->]%ret_Ok)|] end).
  - by eapply propose_ready.
  - by eapply edit_ready.
  - by eapply start_ready.
  - by eapply update_ready.
  - by eapply release_ready.
  - by eapply finish_ready.
  - by eapply report_ready.
  - by eapply accept_ready; [..|by apply Hv|].
  - eapply reject_ready; [..|by apply Hv; rewrite orb_true_r|]; done.
  - apply ret_Ok in H as [= -> -> ->]. apply ready_intro; try done. by eapply moved_same.
Qed.

Lemma create_Ok store m r now w s0 s1 : create json_float store m r now s0 = Ok (w, s1) → w_LatestSeq w = w_LatestSeq w ∧
  work_items s0 !! (store, w_WorkID w) = None ∧ w_Revision w = 1 ∧ w_ScopeRevision w = 1 ∧ w_ReportSeq w = None ∧ w_Lifecycle w = "open"%string ∧
  heads s1 = heads s0 ∧ counters s1 = counters s0 ∧ ∃ row sc, scope_matches sc w ∧
  s1 = s0 <| memory_stores := memory_stores s1 |> <| work_items := <[(store, w_WorkID w) := row]> (work_items s0) |>
          <| work_scope_revisions := <[(store, w_WorkID w, 1) := sc]> (work_scope_revisions s0) |>.
Proof.
  intros H. unfold create in H. apply bind_Ok in H as (n & s2 & H0 & H). unfold work_counter in H0. apply counter_Ok in H0 as (sr & _ & _ & _ & ->).
  apply bind_Ok in H as (o & s2 & [= -> ->]%gets_Ok & H). apply bind_Ok in H as (sr' & s2 & (? & _ & [= -> ->])%row_Ok & H).
  apply bind_Ok in H as (u & s2 & H0 & H). unfold insert_item in H0. destruct (_ || _) eqn:E; [done|]. injection H0 as _ <-.
  apply orb_false_iff in E as [E%bool_decide_eq_false%eq_None_not_Some _].
  apply bind_Ok in H as (u' & s2 & (_ & sc & E1 & E2 & E3 & _ & ->)%scope_Ok & H). apply ret_Ok in H as [= -> ->]. cbn in *.
  split_and!; [done|exact E|done..| | |].
  - exact (heads_update (λ _ r, seqb (sto_store_id r) store) (λ n, n <| sto_work_counter := sto_work_counter sr + 1 |>) s0 ltac:(done)).
  - exact (counters_update (λ _ r, seqb (sto_store_id r) store) (λ n, n <| sto_work_counter := sto_work_counter sr + 1 |>) s0 ltac:(done)).
  - eexists _, sc. split; [|reflexivity]. done.
Qed.
Lemma create_ready store m r now w s0 s1 : works_wf s0 → create json_float store m r now s0 = Ok (w, s1) → ready store None w "created" s0 s1.
Proof.
  intros Hwf (_ & Hi & Hr & Hs & Hp & _ & Hh & _ & row & sc & Hm & ->)%create_Ok. split; cbn; try done.
  - split; [intros new; apply insert_insert_eq|]. rewrite lookup_insert_eq. by eexists.
  - right. split; [congruence|]. exists sc. by rewrite Hr.
  - intros st g b Hb. left. split; [|done]. intros [= -> E]. destruct (ww_bundle _ Hwf _ _ _ Hb) as (w' & Hw' & _). congruence.
Qed.

(** A change of the claims that keeps their holders and epochs *)
Definition same_claim (b b' : BundleRow) : Prop := b_work_id b' = b_work_id b ∧ (b_active b' = true → b_active b = true) ∧
  b_progress_epoch b' = b_progress_epoch b ∧ b_consumer b' = b_consumer b.
Lemma works_wf_claims s s' : records s' = records s →
  (∀ k b', claim_bundles s' !! k = Some b' → ∃ b, claim_bundles s !! k = Some b ∧ same_claim b b') → works_wf s → works_wf s'.
Proof.
  intros Hr Hb Hwf. apply (works_wf_view (s <| claim_bundles := claim_bundles s' |>)).
  - injection Hr as H1 H2 H3 H4. unfold works_view. cbn. unfold heads in *. cbn. congruence.
  - destruct Hwf as [A0 A1 A2 A3 A4 A5 A6 A7 A8 A9]. split; try done. intros store g b' Hl. destruct (Hb _ _ Hl) as (b & Hl0 & E1 & E2 & E3 & E4).
    destruct (A9 _ _ _ Hl0) as (w & Hw & Hm). exists w. rewrite E1. split; [done|]. intros Ha. destruct (Hm (E2 Ha)) as (M1 & M2 & M3 & M4).
    unfold claim_matches. by rewrite E3, E4.
Qed.
Lemma works_wf_alter store g (f : BundleRow → BundleRow) s : (∀ b, same_claim b (f b)) → works_wf s →
  works_wf (s <| claim_bundles := alter f (store, g) (claim_bundles s) |>).
Proof.
  intros Hf. apply works_wf_claims; [done|]. cbn. intros k b'. rewrite lookup_alter. case_decide as E; [rewrite <-E; intros (b & Hb & ->)%fmap_Some; eauto|].
  intros Hb. exists b'. by split_and!.
Qed.

Lemma validate_lifecycle r : validate r = true → r_op r ≠ "work-list"%string → ongoing (default "active"%string (optional r "lifecycle")) = true.
Proof.
  unfold validate. rewrite !andb_true_iff. intros H Hop. destruct H as ((((_ & Hl) & _) & _) & _).
  unfold text_ok, optional in *. destruct (r_text r !! "lifecycle"%string) as [v|]; [|done]. unfold lifecycle_ok in Hl. cbn.
  rewrite (proj2 (seqb_false _ _) Hop), andb_false_l, orb_false_r in Hl. done.
Qed.
Lemma prove_claim_Ok store m r now w held actor s s' : prove_claim store m r now w held s = Ok (actor, s') → s' = s ∧
  ∃ b, claim_bundles s !! (store, int_ r "claim_generation") = Some b ∧ b_work_id b = w_WorkID w ∧ b_consumer b = mc_Consumer m ∧
    b_active b = true ∧ fleb (b_expires_at b) now = false ∧ b_progress_epoch b = w_ProgressEpoch w.
Proof.
  intros H. unfold prove_claim in H. apply bind_Ok in H as (u & s0 & [_ [= -> ->]]%ensure_Ok & H). apply bind_Ok in H as (u & s0 & [_ [= -> ->]]%ensure_Ok & H).
  apply bind_Ok in H as (b & s0 & (-> & Hb)%owner_Ok & H). apply bind_Ok in H as (u & s0 & [He [= -> ->]]%ensure_Ok & H). apply ret_Ok in H as [= -> ->].
  split; [done|]. exists b. naive_solver lia.
Qed.

(** What the accepted lifecycles are *)
Lemma refusal_None m r w s : lifecycle_refusal m r w s = None → w_Lifecycle w ≠ "finished"%string ∧ (workVerdict (r_op r) = true → w_Lifecycle w = "reported"%string).
Proof.
  unfold lifecycle_refusal. intros H. split; [intros E; by rewrite E in H|]. intros Hv. rewrite Hv in H. destruct (seqb (w_Lifecycle w) "finished"); [done|].
  cbn in H. rewrite andb_false_r in H. destruct (seqb (w_Lifecycle w) "reported") eqn:E; [|done]. by apply seqb_true.
Qed.

(** The accepted requests keep the invariant. *)
Lemma apply_inv store l m r now now_send print : validate r = true → r_op r ≠ "work-list"%string →
  Maintains (work_inv now) (apply json_float processStart store l m r now now_send print).
Proof.
  intros Hval Hop s res s' [Hl Hwf] H. unfold apply in H. apply bind_Ok in H as (u & s0 & H0 & H). apply check_Ok in H0 as [_ [= -> ->]].
  destruct (seqb (r_op r) "work-create").
  - apply bind_Ok in H as (w & s1 & Hc & H). pose proof (create_ready _ _ _ _ _ _ _ Hwf Hc) as Hr. eapply complete_inv; [exact Hwf|exact Hr| |exact H].
    apply create_Ok in Hc as (_ & _ & _ & _ & _ & _ & _ & Hcn & row & sc & _ & Hs). apply (leases_inv_view now s); [|done].
    unfold lease_view. rewrite Hcn. by rewrite Hs.
  - apply bind_Ok in H as (w & s0 & (-> & Hi & _)%current_Ok & H). apply bind_Ok in H as (u & s0 & H0 & H). apply check_Ok in H0 as [Href [= -> ->]].
    apply bind_Ok in H as (held & s0 & [= -> ->]%gets_Ok & H). apply bind_Ok in H as (actor & s0 & H0 & H).
    assert (s0 = s) as -> by (destruct (owned _ _ _); [by apply prove_claim_Ok in H0 as [-> _]|by run H0]).
    destruct (seqb (r_op r) "claim-renew").
    + unfold renew_claim in H. apply bind_Ok in H as (le & s1 & Hrn & H). apply bind_Ok in H as (u1 & s2 & Hp & H). apply ret_Ok in H as [= -> ->].
      apply (work_inv_view now s1); [by eapply storeReplay_claims|]. split; [by eapply renew_inv|].
      apply renew_Ok in Hrn as (b & _ & _ & _ & _ & _ & _ & _ & _ & _ & ->); [|by apply Hl]. by apply works_wf_alter.
    + apply bind_Ok in H as (u1 & s0 & [_ [= -> ->]]%ensure_Ok & H). apply bind_Ok in H as (u2 & s0 & [_ [= -> ->]]%ensure_Ok & H).
      apply bind_Ok in H as ([kind w'] & s1 & Hc & H). destruct (ww_item _ Hwf _ _ _ Hi) as (_ & Eid & _). rewrite <-Eid in Hi.
      eapply complete_inv; [exact Hwf| | |exact H]; [|by eapply change_inv].
      eapply change_ready; [done|by apply Hl|exact Hi|by apply validate_lifecycle| |exact Hc]. by apply (refusal_None m r w s).
Qed.

(** The parts of a change that was accepted *)
Record changed (store : string) (l : memoryLimits) (m : MemoryCaller) (r : workRequest) (now : float) (now_send : Z) (print : string) (s : State)
    (res : WorkResult) (s' : State) (w : workItem) (actor kind : string) (w' : workItem) (s1 : State) : Prop := {
  cg_item : work_items s !! (store, w_WorkID w) = Some w;
  cg_target : w_WorkID w = text r "work_id";
  cg_allowed : lifecycle_refusal m r w s = None;
  cg_revision : int_ r "if_revision" = w_Revision w;
  cg_change : change json_float store l m r now actor (w <| w_Revision := w_Revision w + 1 |>) s = Ok ((kind, w'), s1);
  cg_ready : ready store (Some w) w' kind s s1;
  cg_complete : complete json_float processStart store m r now now_send actor print kind w' s1 = Ok (res, s') }.
Lemma apply_parts store l m r now now_send print s res s' : r_op r ≠ "work-create"%string → r_op r ≠ "claim-renew"%string →
  apply json_float processStart store l m r now now_send print s = Ok (res, s') → ∃ w actor kind w' s1, work_items s !! (store, text r "work_id") = Some w ∧
    lifecycle_refusal m r w s = None ∧ int_ r "if_revision" = w_Revision w ∧
    change json_float store l m r now actor (w <| w_Revision := w_Revision w + 1 |>) s = Ok ((kind, w'), s1) ∧
    complete json_float processStart store m r now now_send actor print kind w' s1 = Ok (res, s').
Proof.
  intros Hop1%seqb_false Hop2%seqb_false H. unfold apply in H. apply bind_Ok in H as (u & s0 & H0 & H). apply check_Ok in H0 as [_ [= -> ->]]. rewrite Hop1 in H.
  apply bind_Ok in H as (w & s0 & (-> & Hi & _)%current_Ok & H). apply bind_Ok in H as (u & s0 & H0 & H). apply check_Ok in H0 as [Href [= -> ->]].
  apply bind_Ok in H as (held & s0 & [= -> ->]%gets_Ok & H). apply bind_Ok in H as (actor & s0 & H0 & H).
  assert (s0 = s) as -> by (destruct (owned _ _ _); [by apply prove_claim_Ok in H0 as [-> _]|by run H0]). rewrite Hop2 in H.
  apply bind_Ok in H as (u1 & s0 & [Hrev%Z.eqb_eq [= -> ->]]%ensure_Ok & H). apply bind_Ok in H as (u2 & s0 & [_ [= -> ->]]%ensure_Ok & H).
  apply bind_Ok in H as ([kind w'] & s1 & Hc & H). by exists w, actor, kind, w', s1.
Qed.
Lemma apply_change store l m r now now_send print s res s' : validate r = true → r_op r ≠ "work-list"%string → r_op r ≠ "work-create"%string →
  r_op r ≠ "claim-renew"%string → work_inv now s → apply json_float processStart store l m r now now_send print s = Ok (res, s') →
  ∃ w actor kind w' s1, changed store l m r now now_send print s res s' w actor kind w' s1.
Proof.
  intros Hval Hop Hop1 Hop2 [Hl Hwf] H. destruct (apply_parts _ _ _ _ _ _ _ _ _ _ Hop1 Hop2 H) as (w & actor & kind & w' & s1 & Hi & Href & Hrev & Hc & Hco).
  destruct (ww_item _ Hwf _ _ _ Hi) as (_ & Eid & _). rewrite <-Eid in Hi. exists w, actor, kind, w', s1. split; try done.
  eapply change_ready; [done|by apply Hl|exact Hi|by apply validate_lifecycle| |exact Hc]. by apply (refusal_None m r w s).
Qed.

(** ** Due transitions and clean-ups *)

(** The effect of a due transition on the item's claim: none (when another transaction came
    before it), the end of the claim, or its overdue mark *)
Definition due_effect (store : string) (g : Z) (s s1 : State) : Prop :=
  s1 = s ∨ (end_ store g s = Ok (tt, s1) ∧ ∀ b, claim_bundles s !! (store, g) = Some b → b_active b = true) ∨
  s1 = s <| claim_bundles := alter (λ b, b <| b_overdue_credit := false |> <| b_overdue_recorded := true |>) (store, g) (claim_bundles s) |>.
Lemma due_effect_moved store g b w w' s s1 : works_wf s → leases_wf s → work_items s !! (store, w_WorkID w) = Some w → claim_bundles s !! (store, g) = Some b →
  b_work_id b = w_WorkID w → w_Lifecycle w' = w_Lifecycle w → w_ProgressEpoch w' = w_ProgressEpoch w → w_LastGeneration w' = w_LastGeneration w →
  w_LastWriter w' = w_LastWriter w → w_WorkID w' = w_WorkID w → due_effect store g s s1 → moved store w' s s1 ∧ records s1 = records s.
Proof.
  intros Hwf Hl Hi Hb Hbw E1 E2 E3 E4 E5 He. assert (∀ g b, claim_matches g b w → claim_matches g b w') as Hm by (intros ? ?; by apply matches_row).
  destruct He as [->|[[H _]| ->]].
  - split; [|done]. eapply moved_same; [done|by rewrite E5|done|done].
  - unfold end_, update_bundle in H. apply modify_Ok in H as [= ->]. split; [|done]. eapply moved_end; [done|done|congruence|reflexivity|done].
  - split; [|done]. eapply moved_alter; [done|exact Hb|congruence|reflexivity|done|]. intros Ha. apply Hm.
    destruct (ww_bundle _ Hwf _ _ _ Hb) as (w3 & Hw3 & Hm3). rewrite Hbw, Hi in Hw3. injection Hw3 as <-. exact (Hm3 Ha).
Qed.
Lemma reconcile_steps repo w g held now store s u s' b : work_items s !! (store, w_WorkID w) = Some w →
  claim_bundles s !! (store, g) = Some b → b_work_id b = w_WorkID w → work_inv now s →
  reconcileTx json_float repo w g held now store s = Ok (u, s') → ∃ kind w' w2 s1, ready store (Some w) w' kind s s1 ∧ leases_inv now s1 ∧
    due_effect store g s s1 ∧ w_Lifecycle w' = w_Lifecycle w ∧ w_ReportConsumer w' = w_ReportConsumer w ∧
    recorded_event json_float store (mkMemoryCaller repo "" "" "" (mkKey "" "") false) w' kind (b_consumer held) now w2 s1 s'.
Proof.
  intros Hi Hb Hbw [Hl Hwf] H. unfold reconcileTx in H. apply bind_Ok in H as ([kind w'] & s1 & H0 & H).
  apply bind_Ok in H as (w2 & s2 & He%event_Ok & H). apply ret_Ok in H as [= -> ->]. exists kind, w', w2, s1.
  assert (due_effect store g s s1 ∧ leases_inv now s1 ∧ (∃ e, w' = w <| w_Revision := w_Revision w + 1 |> <| w_LeaseExpired := e |>) ∧ kind ≠ "reported"%string) as (Hd & Hl1 & [x ->] & Hk).
  { destruct (fleb (b_expires_at held) now); apply bind_Ok in H0 as (y & s3 & H1 & H0); apply ret_Ok in H0 as [= -> -> ->].
    - split_and!; [|by eapply expire_inv|by eexists|done]. unfold expire in H1. apply bind_Ok in H1 as (o & s4 & [= -> ->]%gets_Ok & H1). rewrite Hb in H1.
      destruct (_ || _) eqn:Ea; [left; by run H1|]. apply orb_false_iff in Ea as [Ea%negb_false_iff _]. right. left.
      apply bind_Ok in H1 as ([] & s4 & H1 & [= -> ->]%ret_Ok). split; [done|]. intros c Hc'. congruence.
    - split_and!; [|by eapply overdue_inv|exists (w_LeaseExpired w); by destruct w|done]. unfold overdue in H1. apply bind_Ok in H1 as (o & s4 & [= -> ->]%gets_Ok & H1). rewrite Hb in H1.
      destruct (_ || _); [left; by run H1|]. right. right. unfold update_bundle in H1. by run H1. }
  destruct (due_effect_moved store g b w (w <| w_Revision := w_Revision w + 1 |> <| w_LeaseExpired := x |>) s s1) as [Hm Hr]; try done; [apply Hl|].
  split_and!; try done. by apply ready_intro.
Qed.
Lemma reconcile_inv repo w g held now store s u s' b : work_items s !! (store, w_WorkID w) = Some w →
  claim_bundles s !! (store, g) = Some b → b_work_id b = w_WorkID w → work_inv now s →
  reconcileTx json_float repo w g held now store s = Ok (u, s') → work_inv now s'.
Proof.
  intros Hi Hb Hbw Hs H. destruct (reconcile_steps _ _ _ _ _ _ _ _ _ _ Hi Hb Hbw Hs H) as (kind & w' & w2 & s1 & Hr & Hl & _ & _ & _ & He). split.
  - eapply leases_inv_view; [by eapply event_leases|done].
  - destruct (event_written _ _ _ _ _ _ _ _ _ _ _ _ (proj2 Hs) Hr He) as (new & e & Hw & _). eapply works_wf_written; [done|apply Hs].
Qed.

Lemma delete_bundle_wf store g : Maintains works_wf (delete_bundle store g).
Proof.
  apply maintains_modify. intros s. apply works_wf_claims; [done|]. cbn. intros k b' [_ Hb]%lookup_delete_Some. exists b'. by split_and!.
Qed.
Lemma delete_bundle_work now store g : Maintains (work_inv now) (delete_bundle store g).
Proof. intros s u s' [Hl Hwf] H. split; [by eapply delete_bundle_inv|by eapply delete_bundle_wf]. Qed.
Lemma reclaimInactive_inv workID now store : Maintains (work_inv now) (reclaimInactiveTx workID store).
Proof.
  intros s u s' Hs H. unfold reclaimInactiveTx in H. apply bind_Ok in H as (o & s1 & [= -> ->]%gets_Ok & H).
  destruct (bundleFor store workID s) as [[g b]|]; [|by run H]. unfold when in H. destruct (negb _); [by eapply delete_bundle_work|by run H].
Qed.
Lemma reclaimOne_work now store : Maintains (work_inv now) (reclaimOne store).
Proof.
  intros s u s' Hs H. unfold reclaimOne in H. run H. destruct (head _) as [[g b]|]; [|by run H]. run H. by eapply delete_bundle_work.
Qed.

Lemma bundleFor_None store workID s : bundleFor store workID s = None → ∀ g b, claim_bundles s !! (store, g) = Some b → b_work_id b ≠ workID.
Proof.
  unfold bundleFor. intros E%fmap_None g b Hb Hw. pose proof (first_None _ _ E _ _ Hb) as Hx. unfold bundle_of in Hx. cbn in Hx.
  by rewrite Hw, !(proj2 (seqb_true _ _) eq_refl) in Hx.
Qed.

(** An item without a claim, gone with its whole history *)
Definition without_item (store workID : string) (s : State) : State :=
  s <| work_events := filter (λ ke, events_of_item store workID ke.1 ke.2 = false) (work_events s) |>
    <| work_scope_revisions := filter (λ ke, seqb ke.1.1.1 store && seqb ke.1.1.2 workID = false) (work_scope_revisions s) |>
    <| work_items := delete (store, workID) (work_items s) |>.
Lemma without_item_wf store workID s : (∀ g b, claim_bundles s !! (store, g) = Some b → b_work_id b ≠ workID) → works_wf s → works_wf (without_item store workID s).
Proof.
  intros Hno [A0 A1 A2 A3 A4 A5 A6 A7 A8 A9].
  assert (∀ st q e, filter (λ ke, events_of_item store workID ke.1 ke.2 = false) (work_events s) !! (st, q) = Some e ↔
    work_events s !! (st, q) = Some e ∧ (store, workID) ≠ (st, we_work_id e)) as He.
  { intros st q e. rewrite map_lookup_filter_Some. unfold events_of_item. cbn. rewrite andb_false_iff, !seqb_false. split; [naive_solver|].
    intros [? Hne]. split; [done|]. destruct (decide (st = store)) as [->|]; [right; congruence|by left]. }
  assert (∀ st i n sc, filter (λ ke : string * string * Z * ScopeRow, seqb ke.1.1.1 store && seqb ke.1.1.2 workID = false) (work_scope_revisions s) !! (st, i, n) = Some sc ↔
    work_scope_revisions s !! (st, i, n) = Some sc ∧ (store, workID) ≠ (st, i)) as Hs.
  { intros st i n sc. rewrite map_lookup_filter_Some. cbn. rewrite andb_false_iff, !seqb_false. split; [naive_solver|].
    intros [? Hne]. split; [done|]. destruct (decide (st = store)) as [->|]; [right; congruence|by left]. }
  split; cbn; try done.
  - intros st i w [_ Hw]%lookup_delete_Some. by apply A1.
  - intros st i w [Hne Hw]%lookup_delete_Some. destruct (A2 _ _ _ Hw) as (e & Hl & Hi & Hr). exists e. split; [|done]. apply He. split; [done|congruence].
  - intros st q e repo r [Hl _]%He. by eapply A3.
  - intros st q e [Hl Hne]%He. destruct (A4 _ _ _ Hl) as (w & Hw & Hq). exists w. split; [|done]. by apply lookup_delete_Some.
  - intros st q q' e e' [Hl _]%He [Hl' _]%He. by eapply A5.
  - intros st i w q [Hne Hw]%lookup_delete_Some Hq. destruct (A6 _ _ _ _ Hw Hq) as (e & rp & Hl & Hi & H). exists e, rp. split; [|done]. apply He. split; [done|congruence].
  - intros st i w [Hne Hw]%lookup_delete_Some. destruct (A7 _ _ _ Hw) as (Hle & sc & Hsc & Hm). split; [done|]. exists sc. split; [|done]. by apply Hs.
  - intros st i n sc [Hsc Hne]%Hs. destruct (A8 _ _ _ _ Hsc) as (w & Hw & Hn). exists w. split; [|done]. by apply lookup_delete_Some.
  - intros st g b Hb. destruct (A9 _ _ _ Hb) as (w & Hw & Hm). exists w. split; [|done]. apply lookup_delete_Some. split; [|done]. intros [= <- E].
    by apply (Hno _ _ Hb).
Qed.
Lemma reclaimFinished_inv l repo workID at_ now store : Maintains (work_inv now) (reclaimFinishedTx l repo workID at_ store).
Proof.
  intros s u s' [Hl Hwf] H. unfold reclaimFinishedTx in H. apply bind_Ok in H as (o & s1 & [= -> ->]%gets_Ok & H).
  destruct (work_items s !! (store, workID)) as [w|] eqn:Ew; [|by run H]. destruct (negb _); [by run H|].
  apply bind_Ok in H as (h & s1 & [= -> ->]%gets_Ok & H). destruct (bundleFor store workID s) as [[g b]|] eqn:Eb; [destruct (b_active b); by run H|].
  run H. unfold update_store in R. run R. cbn in *.
  assert (works_wf (without_item store workID s)) as Hwo by (apply without_item_wf; [by apply bundleFor_None|done]). split.
  - refine (leases_inv_view now s _ _ Hl). unfold lease_view. cbn. f_equal. unfold counters at 1. cbn. by eapply (counters_update _ _ s).
  - refine (works_wf_view (without_item store workID s) _ _ Hwo). unfold works_view. cbn. f_equal. by eapply (heads_update _ _ s).
Qed.

(** ** A new store *)

Definition unused (fresh : string) (s : State) : Prop := ∀ repo r, memory_stores s !! repo = Some r → sto_store_id r ≠ fresh.
Lemma new_store_inv now repo fresh s r : unused fresh s → memory_stores s !! repo = None → sto_store_id r = fresh → work_inv now s →
  work_inv now (s <| memory_stores := <[repo := r]> (memory_stores s) |>).
Proof.
  intros Hf Hn Hid [[[B1 B2 B3 B4 Bn B5 B6 B7] Hex] [A0 A1 A2 A3 A4 A5 A6 A7 A8 A9]].
  assert (∀ store, is_Some (store_row store s) → store ≠ fresh ∧ is_Some (store_row store (s <| memory_stores := <[repo := r]> (memory_stores s) |>))) as Hrow.
  { intros store (repo' & r' & Hl & Hs)%store_row_is_Some. split; [rewrite <-Hs; by eapply Hf|]. apply store_row_is_Some. exists repo', r'. cbn.
    rewrite lookup_insert_ne; [done|congruence]. }
  split; [split; [split|]|split]; cbn; try done.
  - intros store g b Hb. destruct (B2 _ _ _ Hb) as [? ?]. split; [done|]. by apply Hrow.
  - intros store g b repo' r' Hb [[-> <-]|[_ Hl]]%lookup_insert_Some Hs; [|by eapply B3]. destruct (B2 _ _ _ Hb) as [_ Hr]. destruct (Hrow _ Hr) as [Hne _]. congruence.
  - intros repo1 repo2 r1 r2 [[-> <-]|[_ H1]]%lookup_insert_Some [[-> <-]|[_ H2]]%lookup_insert_Some E; try done.
    + destruct (Hf _ _ H2). congruence.
    + destruct (Hf _ _ H1). congruence.
    + by eapply A0.
  - intros store i w Hw. destruct (A1 _ _ _ Hw) as (? & ? & Hr). split; [done|split; [done|]]. by apply Hrow.
  - intros store q e repo' r' He [[-> <-]|[_ Hl]]%lookup_insert_Some Hs; [|by eapply A3]. destruct (A4 _ _ _ He) as (w & Hw & _).
    destruct (A1 _ _ _ Hw) as (_ & _ & Hr). destruct (Hrow _ Hr) as [Hne _]. congruence.
Qed.
Lemma workTx_Ok {A} l repo fresh class (body : string → tx A) s a s' : workTx json_float l repo fresh class body s = Ok (a, s') →
  ∃ store s1, body store s1 = Ok (a, s') ∧ ((s1 = s ∧ storeOf repo s = Some store) ∨
    ∃ r, memory_stores s !! repo = None ∧ sto_store_id r = fresh ∧ store = fresh ∧ s1 = s <| memory_stores := <[repo := r]> (memory_stores s) |>).
Proof.
  intros H. unfold workTx in H. apply bind_Ok in H as (store & s1 & H0 & H). apply bind_Ok in H as (a' & s2 & H1 & H).
  apply bind_Ok in H as (u & s3 & H2 & H). apply check_Ok in H2 as [_ [= -> ->]]. apply ret_Ok in H as [= -> ->]. exists store, s1. split; [done|].
  unfold ensure_store in H0. run H0. unfold storeOf. destruct (memory_stores s !! repo) as [r|] eqn:E; rewrite ?E.
  - by left.
  - right. exists (mkStoreRow fresh 0 0 0 0 0). cbn. rewrite lookup_insert_eq. split_and!; reflexivity.
Qed.
Lemma workTx_inv {A} l now repo fresh class (body : string → tx A) s a s' : (∀ store, Maintains (work_inv now) (body store)) → unused fresh s → work_inv now s →
  workTx json_float l repo fresh class body s = Ok (a, s') → work_inv now s'.
Proof.
  intros Hb Hf Hs H. apply workTx_Ok in H as (store & s1 & H & [[-> _]|(r & Hn & Hr & -> & ->)]); (eapply Hb; [|exact H]); [done|].
  by eapply new_store_inv.
Qed.

(** ** Schedules *)

(** A state that other transactions made of [s0] while a due transition waited for its own: the
    lock of memory operations keeps the work tables, but a cycle may have protected a claim. *)
Definition waited (s0 s : State) : Prop := records s = records s0 ∧
  ∀ k b, claim_bundles s0 !! k = Some b → ∃ b', claim_bundles s !! k = Some b' ∧ b_work_id b' = b_work_id b.

(** The steps of the installation at a time.  Every transaction of the other components keeps
    the work tables ([ws_other]); the repository of a first write gets an unused store ID. *)
Inductive work_step (l : memoryLimits) : float * State → float * State → Prop :=
| ws_tick now now' s : fleb now now' = true → work_step l (now, s) (now', s)
| ws_mutation now now_send fresh m r print class s res s' : validate r = true → r_op r ≠ "work-list"%string → unused fresh s →
    workTx json_float l (mc_Repository m) fresh class (λ store, apply json_float processStart store l m r now now_send print) s = Ok (res, s') →
    work_step l (now, s) (now, s')
| ws_due now repo fresh store workID w g held s0 s u s' : storeOf repo s = Some store → due_of store workID now s0 = Ok (Some (w, g, held)) →
    waited s0 s → workTx json_float l repo fresh control (reconcileTx json_float repo w g held now) s = Ok (u, s') → work_step l (now, s) (now, s')
| ws_clear now repo fresh workID class s u s' : unused fresh s → workTx json_float l repo fresh class (reclaimInactiveTx workID) s = Ok (u, s') →
    work_step l (now, s) (now, s')
| ws_reclaim now repo fresh class s u s' : unused fresh s → workTx json_float l repo fresh class reclaimOne s = Ok (u, s') → work_step l (now, s) (now, s')
| ws_expire now repo fresh workID at_ class s u s' : unused fresh s →
    workTx json_float l repo fresh class (reclaimFinishedTx l repo workID at_) s = Ok (u, s') → work_step l (now, s) (now, s')
| ws_protect now ms id c repository s u s' : protectCycleClaims ms id c repository s = Ok (u, s') →
    (∀ k b, claim_bundles s !! k = Some b → fltb (fdiv (of_int ms) (of_int 1000)) (b_expires_at b) = true → fltb now (b_expires_at b) = true) →
    work_step l (now, s) (now, s')
| ws_other now A (m : tx A) s a s' : Keeps claims_view m → m s = Ok (a, s') → work_step l (now, s) (now, s').

Lemma due_of_Ok store workID now s w g held : due_of store workID now s = Ok (Some (w, g, held)) →
  work_items s !! (store, workID) = Some w ∧ claim_bundles s !! (store, g) = Some held ∧ b_work_id held = workID ∧ b_active held = true ∧
  retained_at now w = true ∧ b_progress_epoch held = w_ProgressEpoch w ∧ (fleb (b_expires_at held) now || due_progress w held now) = true.
Proof.
  unfold due_of. destruct (current store workID now s) as [[w' s']|e] eqn:E; [|done]. apply current_Ok in E as (-> & Hi & Hr).
  destruct (bundleFor store workID s) as [[g' b]|] eqn:Eb; [|done]. destruct (b_active b) eqn:Ea; [|done]. cbn. destruct (_ =? _) eqn:Ee; [|done]. cbn.
  destruct (_ || _) eqn:Ed; [|done]. intros [= -> -> ->]. unfold bundleFor in Eb. apply fmap_Some in Eb as ([[st g'] b'] & Eb & [= -> ->]).
  apply elem_of_first in Eb as [Hl Hb]. unfold bundle_of in Hb. cbn in *. rewrite andb_true_iff, !seqb_true in Hb. destruct Hb as [-> Hb].
  apply Z.eqb_eq in Ee. done.
Qed.
(** A due transition that waited still finds its item and its claim. *)
Lemma due_run l now repo fresh store workID w g held s0 s u s' : works_wf s → storeOf repo s = Some store → due_of store workID now s0 = Ok (Some (w, g, held)) →
  waited s0 s → workTx json_float l repo fresh control (reconcileTx json_float repo w g held now) s = Ok (u, s') →
  ∃ b, work_items s !! (store, w_WorkID w) = Some w ∧ claim_bundles s !! (store, g) = Some b ∧ b_work_id b = w_WorkID w ∧
    reconcileTx json_float repo w g held now store s = Ok (u, s').
Proof.
  intros Hs H H0 H1 H2. apply due_of_Ok in H0 as (Hi & Hb & Hbw & _). destruct H1 as [[= R1 R2 R3 R4] Hc]. destruct (Hc _ _ Hb) as (b' & Hb' & Eb).
  destruct (ww_item s Hs store workID w ltac:(by rewrite R1)) as (_ & Ew & _). rewrite Ew. exists b'. split_and!; [by rewrite R1|done|congruence|].
  apply workTx_Ok in H2 as (st & s1 & H2 & [[-> Hst]|(r & Hn & _)]); [|unfold storeOf in H; by rewrite Hn in H]. replace store with st by congruence. done.
Qed.
Lemma protect_wf ms id c repository : Maintains works_wf (protectCycleClaims ms id c repository).
Proof.
  intros s u s' Hs H. unfold protectCycleClaims in H. destruct (seqb repository ""); [by run H|]. run H. destruct (seqb _ ""); [by run H|]. run H.
  eapply works_wf_claims; [|..|exact Hs]; [done|]. cbn. intros k b' (b & Hb & ->)%lookup_update_where_Some. exists b. split; [done|].
  by destruct (_ && _).
Qed.

Lemma work_step_inv l c c' : work_step l c c' → work_inv c.1 c.2 → work_inv c'.1 c'.2.
Proof.
  intros H Hs. destruct H as [now now' s Ht|now now_send fresh m r print class s res s' H H0 Hf H1|now repo fresh store workID w g held s0 s u s' H H0 H1 H2|
    now repo fresh workID class s u s' Hf H|now repo fresh class s u s' Hf H|now repo fresh workID at_ class s u s' Hf H|now ms id c repository s u s' H Hc|now A m s a s' Hk H]; cbn in *.
  - split; [eapply leases_inv_tick; [done|]|]; apply Hs.
  - eapply workTx_inv; [|done|exact Hs|done]. intros st. exact (apply_inv st l m r now now_send print H H0).
  - destruct (due_run _ _ _ _ _ _ _ _ _ _ _ _ _ (proj2 Hs) H H0 H1 H2) as (b & Hi & Hb & Hbw & Hrec). by eapply reconcile_inv.
  - eapply workTx_inv; [|done|exact Hs|done]. intros st. apply reclaimInactive_inv.
  - eapply workTx_inv; [|done|exact Hs|done]. intros st. apply reclaimOne_work.
  - eapply workTx_inv; [|done|exact Hs|done]. intros st. apply reclaimFinished_inv.
  - split; [eapply protect_inv; [done..|]|eapply protect_wf; [|done]]; apply Hs.
  - eapply work_inv_view; [|exact Hs]. by eapply keeps_run.
Qed.

(** C6: the two invariants at every time of every schedule: live leases never overlap, and
    every item agrees with its claim, its latest event, its report and its scope history.  A
    schedule has no admission whose clock lags behind the end of a lease ([revived_overlap] of
    LeaseProps shows what such an admission does). *)
Theorem work_invariant l now0 s0 now s : work_inv now0 s0 → rtc (work_step l) (now0, s0) (now, s) → work_inv now s.
Proof.
  intros Hs H. change (work_inv (now, s).1 (now, s).2). change (work_inv (now0, s0).1 (now0, s0).2) in Hs. revert Hs.
  induction H as [|c c' c'' Hc _ IH]; [done|]. intros Hs. by eapply IH, work_step_inv.
Qed.
End works.
