(* ===== verification/WorkSpec.v ===== *)
(** * The work items as a machine of claims and verdicts

    The specification of the work items without their tables: an item is open, being worked on,
    reported or finished, has at most one holder, and moves by the events below.  Every step of
    the detailed state is a step of this machine for one item, or none. *)

From S2P Require Import Prelude GoString GoFloat Schema Sql Label Fixture Storage Names Messages Cycles CycleProps Sessions Inboxes Participants Leases LeaseProps WorkViews MemoryLimits MemoryExpiry WorkItems WorkOps Works WorkRequests WorkFacts WorkProps WorkSteps.
Open Scope Z_scope.

(** ** The machine *)

Inductive phase := Open | Working | Reported (reporter : option string) | Finished.
(** An item with the consumer and the generation of its active claim *)
Record item := mkItem { i_phase : phase; i_holder : option (string * Z) }.
#[export] Instance phase_eq_dec : EqDecision phase.
Proof. solve_decision. Defined.

(** The events of an item; the caller's consumer, and the generation of its claim *)
Inductive item_event :=
| Created
| Noted                            (* a proposal, an edit, an overdue deadline *)
| Edited
| Started (who : string) (g : Z)
| Updated (who : string) (g : Z)
| Released (who : string) (g : Z)
| Completed (who : string) (g : Z)
| Submitted (who : string) (g : Z)
| Accepted (who : string)
| Rejected (who : string)
| Lapsed
| Forgotten.

(** [spec ev i]: the item after an event, or [None] where the event is not allowed *)
Definition owned_by (who : string) (g : Z) (i : item) : bool := bool_decide (i_holder i = Some (who, g)).
Definition judged_by (who : string) (i : item) : bool := match i_phase i with Reported reporter => negb (bool_decide (reporter = Some who)) | _ => false end.
Definition unfinished (i : item) : bool := negb (bool_decide (i_phase i = Finished)).
Definition workable (i : item) : bool := bool_decide (i_phase i = Open) || bool_decide (i_phase i = Working).
Definition allow (b : bool) (i : option item) : option (option item) := if b then Some i else None.
Definition spec (ev : item_event) (i : option item) : option (option item) :=
  match ev, i with
  | Created, None => Some (Some (mkItem Open None))
  | Noted, Some i => allow (unfinished i) (Some i)
  | Edited, Some i => allow (workable i) (Some i)
  | Started who g, Some i => allow (workable i && bool_decide (i_holder i = None)) (Some (mkItem Working (Some (who, g))))
  | Updated who g, Some i => allow (owned_by who g i) (Some (mkItem Working (Some (who, g))))
  | Released who g, Some i => allow (owned_by who g i) (Some (mkItem Open None))
  | Completed who g, Some i => allow (owned_by who g i) (Some (mkItem Finished None))
  | Submitted who g, Some i => allow (owned_by who g i) (Some (mkItem (Reported (nullif (Some who))) None))
  | Accepted who, Some i => allow (judged_by who i) (Some (mkItem Finished None))
  | Rejected who, Some i => allow (judged_by who i) (Some (mkItem Open None))
  | Lapsed, Some i => allow (unfinished i) (Some (mkItem (i_phase i) None))
  | Forgotten, Some i => allow (negb (unfinished i) && bool_decide (i_holder i = None)) None
  | _, _ => None
  end.

(** ** The abstraction *)

Definition phase_of (w : workItem) : phase :=
  if seqb (w_Lifecycle w) "open" then Open
  else if ongoing (w_Lifecycle w) then Working
  else if seqb (w_Lifecycle w) "reported" then Reported (w_ReportConsumer w) else Finished.
Definition holder_of (k : string * string) (s : State) : option (string * Z) :=
  match bundleFor k.1 k.2 s with
  | Some (g, b) => if b_active b then Some (b_consumer b, g) else None
  | None => None
  end.
Definition item_of (k : string * string) (s : State) : option item := (λ w, mkItem (phase_of w) (holder_of k s)) <$> work_items s !! k.

(** The holders as a relation *)
Definition holds_item (s : State) (k : string * string) (who : string) (g : Z) : Prop :=
  ∃ b, claim_bundles s !! (k.1, g) = Some b ∧ b_work_id b = k.2 ∧ b_active b = true ∧ b_consumer b = who.
Lemma bundleFor_Some store id s g b : leases_wf s → bundleFor store id s = Some (g, b) ↔ claim_bundles s !! (store, g) = Some b ∧ b_work_id b = id.
Proof.
  intros Hwf. assert (∀ g b, bundleFor store id s = Some (g, b) → claim_bundles s !! (store, g) = Some b ∧ b_work_id b = id) as Hto.
  { intros g0 b0 E. unfold bundleFor in E. apply fmap_Some in E as ([[st g'] b'] & E & [= -> ->]). apply elem_of_first in E as [Hl Hb].
    unfold bundle_of in Hb. cbn in *. rewrite andb_true_iff, !seqb_true in Hb. by destruct Hb as [-> ->]. }
  split; [apply Hto|]. intros [Hb Hi]. destruct (bundleFor store id s) as [[g' b']|] eqn:E; [|by destruct (bundleFor_None _ _ _ E _ _ Hb)].
  destruct (Hto _ _ eq_refl) as [Hb' Hi']. assert (g' = g) as -> by (by apply (lw_unique _ Hwf store g' g b' b); [..|congruence]). congruence.
Qed.
Lemma holder_Some k s who g : leases_wf s → holder_of k s = Some (who, g) ↔ holds_item s k who g.
Proof.
  intros Hwf. destruct k as [store id]. unfold holder_of, holds_item. cbn. split.
  - destruct (bundleFor store id s) as [[g' b]|] eqn:E; [|done]. destruct (b_active b) eqn:Ea; [|done]. intros [= <- <-].
    apply bundleFor_Some in E as [Hb Hi]; [|done]. by exists b.
  - intros (b & Hb & Hi & Ha & Hc). rewrite (proj2 (bundleFor_Some store id s g b Hwf) (conj Hb Hi)), Ha, Hc. done.
Qed.
Lemma holder_None k s : leases_wf s → (∀ who g, ¬ holds_item s k who g) → holder_of k s = None.
Proof. intros Hwf Hno. destruct (holder_of k s) as [[who g]|] eqn:E; [|done]. apply holder_Some in E; [|done]. by destruct (Hno who g). Qed.
Lemma holder_same k s s' : leases_wf s → leases_wf s' → (∀ who g, holds_item s' k who g ↔ holds_item s k who g) → holder_of k s' = holder_of k s.
Proof.
  intros H1 H2 He. destruct (holder_of k s) as [[who g]|] eqn:E.
  - apply holder_Some; [done|]. apply He. by apply holder_Some.
  - apply holder_None; [done|]. intros who g H%He. apply holder_Some in H; [|done]. congruence.
Qed.

(** ** The effect of a change on the holders *)

Definition same_holders (s s' : State) : Prop := ∀ k who g, holds_item s' k who g ↔ holds_item s k who g.
(** The item [k] loses its holder. *)
Definition freed (k : string * string) (s s' : State) : Prop := ∀ k' who g, holds_item s' k' who g ↔ holds_item s k' who g ∧ k' ≠ k.
Definition taken (k : string * string) (who : string) (g : Z) (s s' : State) : Prop :=
  ∀ k' who' g', holds_item s' k' who' g' ↔ holds_item s k' who' g' ∨ (k' = k ∧ who' = who ∧ g' = g).

Lemma same_holders_bundles s s' : claim_bundles s' = claim_bundles s → same_holders s s'.
Proof. intros E k who g. unfold holds_item. by rewrite E. Qed.
Lemma same_holders_alter store g (f : BundleRow → BundleRow) s s' : claim_bundles s' = alter f (store, g) (claim_bundles s) →
  (∀ b, b_work_id (f b) = b_work_id b ∧ b_active (f b) = b_active b ∧ b_consumer (f b) = b_consumer b) → same_holders s s'.
Proof.
  intros E Hf [st i] who g'. unfold holds_item. cbn. rewrite E, lookup_alter. case_decide as Ek; [|done]. rewrite Ek. split.
  - intros (b & (b0 & Hb & ->)%fmap_Some & H1 & H2 & H3). destruct (Hf b0) as (F1 & F2 & F3). exists b0. by rewrite <-F1, <-F2, <-F3.
  - intros (b & Hb & H1 & H2 & H3). destruct (Hf b) as (F1 & F2 & F3). exists (f b). by rewrite Hb, F1, F2, F3.
Qed.
Lemma freed_end store id g b s s' : leases_wf s → claim_bundles s !! (store, g) = Some b → b_work_id b = id → end_ store g s = Ok (tt, s') → freed (store, id) s s'.
Proof.
  intros Hwf Hb Hi H [st i] who g'. unfold end_, update_bundle in H. apply modify_Ok in H as [= ->]. unfold holds_item. cbn. rewrite lookup_alter. case_decide as Ek.
  - injection Ek as <- <-. split.
    + intros (b' & (b0 & _ & ->)%fmap_Some & _ & Ha & _). done.
    + intros [(b' & Hb' & Hi' & _) Hne]. exfalso. apply Hne. f_equal. congruence.
  - split.
    + intros (b' & Hb' & Hi' & H). split; [by exists b'|]. intros [= -> ->]. apply Ek. f_equal. by apply (lw_unique _ Hwf store g g' b b'); [..|congruence].
    + intros [H _]. exact H.
Qed.
Lemma taken_acquired store id who epoch keys now duration l s s1 s' (f : BundleRow → BundleRow) : acquired store id who epoch keys now duration l s s1 →
  claim_bundles s' = alter f (store, le_Generation l) (claim_bundles s1) →
  (∀ b, b_work_id (f b) = b_work_id b ∧ b_active (f b) = b_active b ∧ b_consumer (f b) = b_consumer b) → taken (store, id) who (le_Generation l) s s'.
Proof.
  intros Ha E Hf [st i] who' g'. rewrite (same_holders_alter _ _ _ _ _ E Hf (st, i) who' g'). unfold holds_item. cbn.
  rewrite (aq_bundle _ _ _ _ _ _ _ _ _ _ Ha). split.
  - intros (b & [[[= <- <-] <-]|[Hne Hl]]%lookup_insert_Some & Hi & Hact & Hc); [right; cbn in *; by subst|left; by exists b].
  - intros [(b & Hb & H)|([= -> ->] & -> & ->)].
    + exists b. split; [|done]. rewrite lookup_insert_ne; [done|]. intros [= <- <-]. pose proof (aq_fresh _ _ _ _ _ _ _ _ _ _ Ha). congruence.
    + eexists. rewrite lookup_insert_eq. by split_and!.
Qed.

(** ** The events of the operations *)

(** The change of an item from [w0] to [w] at an event, with the holders of all items *)
Definition moves (ev : item_event) (k : string * string) (w0 w : workItem) (s0 s1 : State) : Prop :=
  match ev with
  | Noted => w_Lifecycle w = w_Lifecycle w0 ∧ w_ReportConsumer w = w_ReportConsumer w0 ∧ same_holders s0 s1
  | Edited => w_Lifecycle w0 ≠ "reported"%string ∧ w_Lifecycle w = w_Lifecycle w0 ∧ w_ReportConsumer w = w_ReportConsumer w0 ∧ same_holders s0 s1
  | Started who g => w_Lifecycle w0 ≠ "reported"%string ∧ ongoing (w_Lifecycle w) = true ∧ (∀ who g, ¬ holds_item s0 k who g) ∧ taken k who g s0 s1
  | Updated who g => holds_item s0 k who g ∧ ongoing (w_Lifecycle w) = true ∧ same_holders s0 s1
  | Released who g => holds_item s0 k who g ∧ w_Lifecycle w = "open"%string ∧ freed k s0 s1
  | Completed who g => holds_item s0 k who g ∧ w_Lifecycle w = "finished"%string ∧ freed k s0 s1
  | Submitted who g => holds_item s0 k who g ∧ w_Lifecycle w = "reported"%string ∧ w_ReportConsumer w = Some who ∧ freed k s0 s1
  | Accepted who => w_Lifecycle w0 = "reported"%string ∧ w_ReportConsumer w0 ≠ Some who ∧ w_Lifecycle w = "finished"%string ∧ same_holders s0 s1
  | Rejected who => w_Lifecycle w0 = "reported"%string ∧ w_ReportConsumer w0 ≠ Some who ∧ w_Lifecycle w = "open"%string ∧ same_holders s0 s1
  | _ => False
  end.

Lemma lifecycle_cases w : item_checks w = true → w_Lifecycle w = "open"%string ∨ ongoing (w_Lifecycle w) = true ∨ w_Lifecycle w = "reported"%string ∨ w_Lifecycle w = "finished"%string.
Proof.
  unfold item_checks. rewrite !andb_true_iff. intros ((((((_ & Hl) & _) & _) & _) & _) & _). apply one_of_true in Hl. unfold ongoing.
  rewrite !elem_of_cons, elem_of_nil in Hl. destruct Hl as [->|[->|[->|[->|[->|[]]]]]]; auto.
Qed.

Lemma phase_of_lifecycle w : (w_Lifecycle w = "open"%string → phase_of w = Open) ∧ (ongoing (w_Lifecycle w) = true → phase_of w = Working) ∧
  (w_Lifecycle w = "reported"%string → phase_of w = Reported (w_ReportConsumer w)) ∧ (w_Lifecycle w = "finished"%string → phase_of w = Finished).
Proof.
  unfold phase_of. split_and!; intros H; rewrite ?H; try done. destruct (seqb (w_Lifecycle w) "open") eqn:E; [|done]. apply seqb_true in E. rewrite E in H. done.
Qed.

(** Only an ongoing item has a holder. *)
Lemma holder_ongoing k s w who g : works_wf s → work_items s !! k = Some w → holds_item s k who g → ongoing (w_Lifecycle w) = true.
Proof.
  intros Hwf Hi (b & Hb & Hid & Ha & _). destruct (ww_bundle _ Hwf _ _ _ Hb) as (w' & Hw' & Hm). destruct k as [store id]. cbn in *. rewrite Hid, Hi in Hw'.
  injection Hw' as <-. by apply Hm.
Qed.
Lemma holder_reported k s w : leases_wf s → works_wf s → work_items s !! k = Some w → w_Lifecycle w = "reported"%string → holder_of k s = None.
Proof. intros Hl Hwf Hi E. apply holder_None; [done|]. intros who g H. pose proof (holder_ongoing _ _ _ _ _ Hwf Hi H) as Ho. by rewrite E in Ho. Qed.

(** An event of the detailed state is one of the machine. *)
Lemma spec_moves ev k w0 w new kind s0 s1 s' : works_wf s0 → leases_wf s0 → leases_wf s' → work_items s0 !! k = Some w0 → item_checks w0 = true → as_row w0 = w0 →
  w_Lifecycle w0 ≠ "finished"%string → moves ev k w0 w s0 s1 → claim_bundles s' = claim_bundles s1 → work_items s' = <[k := new]> (work_items s0) → same_row kind w new →
  spec ev (item_of k s0) = Some (item_of k s') ∧ ∀ k', k' ≠ k → item_of k' s' = item_of k' s0.
Proof.
  intros Hwf Hl0 Hl' Hi Hc Hrow Hfin Hm Hb Hit (_ & _ & Hlc & Hrc & _).
  assert (same_holders s1 s') as Hs by by apply same_holders_bundles.
  assert ((∃ k0, freed k0 s0 s1 ∧ k0 = k) ∨ same_holders s0 s1 ∨ ∃ who g, taken k who g s0 s1) as Hothers.
  { destruct ev; cbn in Hm; try done; naive_solver. }
  assert (∀ k', k' ≠ k → holder_of k' s' = holder_of k' s0) as Hoth.
  { intros k' Hne. apply holder_same; [done..|]. intros who g. rewrite (Hs k' who g).
    destruct Hothers as [(? & Hf & ->)|[Hf|(who' & g' & Hf)]]; rewrite (Hf k' who g); naive_solver. }
  split; [|intros k' Hne; unfold item_of; by rewrite Hit, lookup_insert_ne, Hoth].
  unfold item_of. rewrite Hit, lookup_insert_eq, Hi. cbn [fmap option_fmap option_map].
  destruct (phase_of_lifecycle w0) as (P1 & P2 & P3 & P4). destruct (phase_of_lifecycle new) as (Q1 & Q2 & Q3 & Q4). rewrite Hlc in Q1, Q2, Q3, Q4.
  assert (same_holders s0 s1 → holder_of k s' = holder_of k s0) as Hsame.
  { intros H. apply holder_same; [done..|]. intros who g. by rewrite (Hs k who g), (H k who g). }
  assert (freed k s0 s1 → holder_of k s' = None) as Hfreed.
  { intros H. apply holder_None; [done|]. intros who g Hh%Hs%H. naive_solver. }
  assert (phase_of w0 ≠ Finished) as Hnf by (destruct (lifecycle_cases _ Hc) as [E|[E|[E|E]]]; rewrite ?(P1 E), ?(P2 E), ?(P3 E); done).
  assert (w_Lifecycle w = w_Lifecycle w0 → w_ReportConsumer w = w_ReportConsumer w0 → phase_of new = phase_of w0) as Hph.
  { intros E1 E2. rewrite E1 in *. assert (w_ReportConsumer new = w_ReportConsumer w0) as E3.
    { rewrite Hrc, E2. by rewrite <-Hrow at 2. }
    destruct (lifecycle_cases _ Hc) as [E|[E|[E|E]]]; [by rewrite P1, Q1|by rewrite P2, Q2|by rewrite P3, Q3, E3|by rewrite P4, Q4]. }
  assert (∀ who g, holds_item s0 k who g → holder_of k s0 = Some (who, g)) as Hh by (intros; by apply holder_Some).
  assert (w_Lifecycle w0 ≠ "reported"%string → workable (mkItem (phase_of w0) (holder_of k s0)) = true) as Hwk.
  { intros Hnr. unfold workable. cbn. destruct (lifecycle_cases _ Hc) as [E|[E|[E|E]]]; [by rewrite P1|by rewrite P2|done|done]. }
  unfold same_row in *. destruct ev; cbn in Hm; try done; cbn [spec].
  - destruct Hm as (M1 & M2 & M3). unfold unfinished. cbn. rewrite (bool_decide_eq_false_2 _ Hnf). cbn. by rewrite Hph, Hsame.
  - destruct Hm as (M0 & M1 & M2 & M3). rewrite Hwk by done. cbn. by rewrite Hph, Hsame.
  - destruct Hm as (M0 & M1 & M2 & M3). rewrite Hwk by done. assert (holder_of k s0 = None) as -> by by apply holder_None.
    assert (holder_of k s' = Some (who, g)) as -> by (apply holder_Some; [done|]; apply Hs, M3; by right). by rewrite Q2.
  - destruct Hm as (M0 & M1 & M2). unfold owned_by. cbn. rewrite Hsame, (Hh _ _ M0), bool_decide_eq_true_2 by done. cbn. by rewrite Q2.
  - destruct Hm as (M0 & M1 & M2). unfold owned_by. cbn. rewrite Hfreed, (Hh _ _ M0), bool_decide_eq_true_2 by done. cbn. by rewrite Q1.
  - destruct Hm as (M0 & M1 & M2). unfold owned_by. cbn. rewrite Hfreed, (Hh _ _ M0), bool_decide_eq_true_2 by done. cbn. by rewrite Q4.
  - destruct Hm as (M0 & M1 & M2 & M3). unfold owned_by. cbn. rewrite Hfreed, (Hh _ _ M0), bool_decide_eq_true_2 by done. cbn. by rewrite Q3, Hrc, M2.
  - destruct Hm as (M0 & M1 & M2 & M3). unfold judged_by. cbn. rewrite P3 by done. rewrite bool_decide_eq_false_2 by done. cbn.
    rewrite Q4, Hsame by done. rewrite (holder_reported k s0 w0); done.
  - destruct Hm as (M0 & M1 & M2 & M3). unfold judged_by. cbn. rewrite P3 by done. rewrite bool_decide_eq_false_2 by done. cbn.
    rewrite Q1, Hsame by done. rewrite (holder_reported k s0 w0); done.
Qed.

(** Comparisons of literals *)
Ltac seqb_eval :=
  repeat match goal with
  | |- context [seqb ?a ?b] => is_ground a; is_ground b; let v := eval vm_compute in (seqb a b) in change (seqb a b) with v; cbn iota
  | H : context [seqb ?a ?b] |- _ => is_ground a; is_ground b; let v := eval vm_compute in (seqb a b) in change (seqb a b) with v in H; cbn [negb andb orb] in H; cbn iota in H
  end.

Section operations.
Context `{SHA : Sha256}.
Variable json_float : float → string.
Variable processStart : Z → ProcessStart.
Variable l : memoryLimits.

(** The event of a request; a start takes the new generation [g], the other operations of an
    owner name theirs. *)
Definition event_of (m : MemoryCaller) (r : workRequest) (g : Z) : item_event :=
  let op := r_op r in
  let who := mc_Consumer m in
  let claimed := int_ r "claim_generation" in
  if seqb op "work-create" then Created
  else if seqb op "work-edit" then Edited
  else if seqb op "work-start" then Started who g
  else if seqb op "work-update" then Updated who claimed
  else if seqb op "work-release" then Released who claimed
  else if seqb op "work-finish" then Completed who claimed
  else if seqb op "work-report" then Submitted who claimed
  else if seqb op "work-accept" then Accepted who
  else if seqb op "work-reject" then Rejected who
  else Noted.

Lemma event_of_op m r g op : r_op r = op → event_of m r g = event_of m (r <| r_op := op |>) g.
Proof. intros <-. by destruct r. Qed.

Section change.
Variables (store : string) (m : MemoryCaller) (r : workRequest) (now : float) (actor : string) (w0 : workItem) (s0 : State).
Hypothesis Hlw : leases_wf s0.
#[local] Abbreviation w1 := (w0 <| w_Revision := w_Revision w0 + 1 |>).
#[local] Abbreviation k := (store, w_WorkID w0).

Lemma start_moves w s1 : ongoing (default "active"%string (optional r "lifecycle")) = true → w_Lifecycle w0 ≠ "reported"%string →
  start store m r now actor w1 s0 = Ok (w, s1) → ∃ g, moves (Started (mc_Consumer m) g) k w0 w s0 s1.
Proof using Hlw.
  intros Hlife Hnr H. unfold start in H. apply bind_Ok in H as (u & s2 & H0 & H). assert (s2 = s0) as ->.
  { destruct (w_ProposedRole _); [|by run H0]. destruct (of_maintainer m); [by run H0|]. run H0. by apply check_Ok in H0 as [_ [= _ ->]]. }
  apply bind_Ok in H as (got & s2 & (keys & _ & Ha)%acquire_Ok & H). apply bind_Ok in H as (u1 & s3 & H1 & H). apply ret_Ok in H as [= -> ->].
  exists (le_Generation got). cbn. split_and!; [done| | |].
  - unfold progressed. by destruct (has r "references").
  - intros who g (b & Hb & Hi & _). by destruct (aq_free _ _ _ _ _ _ _ _ _ _ Ha _ _ Hb).
  - unfold bind_actor, update_bundle in H1. destruct (negb _); cbn in H1; run H1.
    + eapply taken_acquired; [exact Ha|reflexivity|done].
    + eapply (taken_acquired _ _ _ _ _ _ _ _ _ _ _ id); [exact Ha|by rewrite alter_id|done].
Qed.

(** A proved owner holds the item. *)
Lemma owner_holds who g s b s' : owner store (w_WorkID w0) who g now s = Ok (b, s') → s' = s ∧ holds_item s k who g ∧ claim_bundles s !! (store, g) = Some b ∧ b_work_id b = w_WorkID w0.
Proof. intros (-> & Hb & Hi & Hc & Ha & _)%owner_Ok. split_and!; [done| |done..]. by exists b. Qed.
Lemma update_moves w s1 : ongoing (default "active"%string (optional r "lifecycle")) = true → update store m r now w1 s0 = Ok (w, s1) →
  moves (Updated (mc_Consumer m) (int_ r "claim_generation")) k w0 w s0 s1.
Proof.
  intros Hlife H. unfold update in H. apply bind_Ok in H as (u & s2 & H0 & H). unfold progress in H0.
  apply bind_Ok in H0 as (b & s3 & Ho & H0). change (w_WorkID _) with (w_WorkID w0) in Ho. apply owner_holds in Ho as (-> & Hh & _).
  apply bind_Ok in H0 as (u0 & s3 & [_ [= -> ->]]%ensure_Ok & H0). unfold update_bundle in H0. apply modify_Ok in H0 as [= -> ->].
  apply bind_Ok in H as (u1 & s3 & H1 & H). apply ret_Ok in H as [= -> ->]. cbn [moves]. split; [exact Hh|]. split; [unfold progressed; by destruct (has r "references")|].
  destruct (r_ints r !! "renew_for"%string) as [duration|]; [|run H1; by eapply same_holders_alter].
  apply bind_Ok in H1 as (b1 & t1 & (E1 & _)%owner_Ok & H1). subst t1. apply bind_Ok in H1 as (le & t2 & H2 & H1). run H1. unfold renew in H2.
  apply bind_Ok in H2 as (b2 & t3 & (E3 & _)%owner_Ok & H2). subst t3. run H2. unfold update_bundle in R. run R. cbn in *.
  eapply same_holders_alter; [cbn; apply alter_alter_eq|done].
Qed.
Lemma release_holds who g s1 : release store (w_WorkID w0) who g now s0 = Ok (tt, s1) → holds_item s0 k who g ∧ freed k s0 s1.
Proof using Hlw. intros H. unfold release in H. apply bind_Ok in H as (b & s2 & (-> & Hh & Hb & Hi)%owner_holds & H). split; [done|]. by eapply freed_end. Qed.
Lemma leave_holds w s1 : leave store m r now w1 s0 = Ok (w, s1) → w = w1 <| w_ProgressDeadline := None |> ∧
  holds_item s0 k (mc_Consumer m) (int_ r "claim_generation") ∧ freed k s0 s1.
Proof using Hlw.
  intros H. unfold leave in H. apply bind_Ok in H as (u & s2 & H0 & H). apply check_Ok in H0 as [_ [= _ ->]].
  apply bind_Ok in H as ([] & s2 & H0 & H). apply ret_Ok in H as [= -> ->]. split; [done|]. exact (release_holds _ _ _ H0).
Qed.
Lemma report_moves w s1 : report store l m r now w1 s0 = Ok (w, s1) → moves (Submitted (mc_Consumer m) (int_ r "claim_generation")) k w0 w s0 s1.
Proof using Hlw.
  intros H. unfold report in H. apply bind_Ok in H as (u & s2 & H0 & H). assert (s2 = s0) as -> by (unfold reserveVerdict in H0; by run H0).
  apply bind_Ok in H as ([] & s2 & H1 & H). apply release_holds in H1 as [Hh Hf].
  apply bind_Ok in H as (o & s3 & [= -> ->]%gets_Ok & H). apply bind_Ok in H as (role & s3 & [_ ->]%lift_Ok & H). by apply ret_Ok in H as [= -> ->].
Qed.

Lemma scope_holders w s1 u : scope json_float store w (mc_Consumer m) (author r) now s0 = Ok (u, s1) → same_holders s0 s1.
Proof. intros (_ & sc & _ & _ & _ & _ & ->)%scope_Ok. by apply same_holders_bundles. Qed.
Lemma not_reported (e : error) (o : option error) : (if seqb (w_Lifecycle w0) "reported" then Some e else o) = None → w_Lifecycle w0 ≠ "reported"%string.
Proof. intros H E. by rewrite E in H. Qed.
Lemma reported_judge (e : error) (b : bool) (e' : error) : (if negb (seqb (w_Lifecycle w0) "reported") then Some e
    else match requireVerdictCaller m w0 with Some e => Some e | None => if b then None else Some e' end) = None →
  w_Lifecycle w0 = "reported"%string ∧ w_ReportConsumer w0 ≠ Some (mc_Consumer m).
Proof.
  destruct (seqb (w_Lifecycle w0) "reported") eqn:E; [|done]. apply seqb_true in E. cbn. unfold requireVerdictCaller, own_report. intros H. split; [done|].
  intros Ec. by rewrite bool_decide_eq_true_2 in H.
Qed.
Lemma change_moves kind w s1 : ongoing (default "active"%string (optional r "lifecycle")) = true → lifecycle_refusal m r w0 s0 = None →
  r_op r ≠ "work-create"%string → r_op r ≠ "claim-renew"%string → change json_float store l m r now actor w1 s0 = Ok ((kind, w), s1) → ∃ g, moves (event_of m r g) k w0 w s0 s1.
Proof using Hlw.
  intros Hlife Href Hop Hop2 H. unfold lifecycle_refusal in Href. destruct (seqb (w_Lifecycle w0) "finished"); [done|]. apply seqb_false in Hop.
  unfold change in H. unfold event_of, workVerdict in *. rewrite Hop.
  repeat (match type of H with context [seqb (r_op r) ?x] => destruct (seqb (r_op r) x) eqn:?; [apply bind_Ok in H as (w' & s2 & H & [= -> -> ->]%ret_Ok)|] end);
    repeat match goal with E : seqb (r_op r) ?x = true |- _ => apply seqb_true in E; rewrite E in *; clear E end; seqb_eval; rewrite ?andb_true_r, ?andb_false_r in Href; clear Hop Hop2.
  - exists 0. unfold propose in H. by apply ret_Ok in H as [= -> ->].
  - exists 0. unfold edit in H. apply bind_Ok in H as ([] & s3 & H0 & H). apply ret_Ok in H as [= -> ->]. cbn. split_and!; [|done|done|by eapply scope_holders].
    by eapply not_reported.
  - eapply start_moves; [done|by eapply not_reported|exact H].
  - exists 0. by apply update_moves.
  - exists 0. unfold release_item in H. apply bind_Ok in H as (w2 & s3 & (-> & Hh & Hf)%leave_holds & H). by apply ret_Ok in H as [= -> ->].
  - exists 0. unfold finish_item in H. apply bind_Ok in H as (w2 & s3 & (-> & Hh & Hf)%leave_holds & H). by apply ret_Ok in H as [= -> ->].
  - exists 0. by apply report_moves.
  - exists 0. apply reported_judge in Href as [E Hne]. unfold accept in H. by apply ret_Ok in H as [= -> ->].
  - exists 0. apply reported_judge in Href as [E Hne]. unfold reject in H. apply bind_Ok in H as ([] & s3 & H0 & H). apply ret_Ok in H as [= -> ->].
    cbn. split_and!; [done..|by eapply scope_holders].
  - exists 0. by apply ret_Ok in H as [= _ -> ->].
Qed.
End change.

(** ** Refinement *)

(** One event of the item [k] of the machine; every other item stays. *)
Definition spec_step (k : string * string) (ev : item_event) (s s' : State) : Prop :=
  spec ev (item_of k s) = Some (item_of k s') ∧ ∀ k', k' ≠ k → item_of k' s' = item_of k' s.
Definition same_items (s s' : State) : Prop := ∀ k, item_of k s' = item_of k s.

Lemma same_items_intro s s' : leases_wf s → leases_wf s' → work_items s' = work_items s → same_holders s s' → same_items s s'.
Proof. intros H1 H2 Hi Hs k. unfold item_of. rewrite Hi. by rewrite (holder_same k s s' H1 H2 (Hs k)). Qed.
Lemma complete_bundles store m r now now_send actor print kind w s res s' : complete json_float processStart store m r now now_send actor print kind w s = Ok (res, s') →
  ∃ w' s1, recorded_event json_float store m w kind (mc_Consumer m) now w' s s1 ∧ claim_bundles s' = claim_bundles s1 ∧ work_items s' = work_items s1 ∧
    wr_WorkID res = w_WorkID w.
Proof. intros (w' & s1 & He & Hv & Hid & _)%complete_Ok. injection Hv as H1 H2 H3 H4 H5 H6 H7 H8. exists w', s1. done. Qed.

Section mutation.
Variables (store : string) (m : MemoryCaller) (r : workRequest) (now : float) (now_send : Z) (print : string) (s : State) (res : WorkResult) (s' : State).
Hypothesis Hs : work_inv now s.
Hypothesis Hl' : leases_wf s'.
Hypothesis H : apply json_float processStart store l m r now now_send print s = Ok (res, s').

Lemma create_refines : r_op r = "work-create"%string → spec_step (store, wr_WorkID res) Created s s'.
Proof using Hs Hl' H.
  intros Eop%seqb_true. destruct Hs as [[Hl Hex] Hwf]. pose proof H as H1. unfold apply in H1. apply bind_Ok in H1 as (u & s0 & H0 & H1). apply check_Ok in H0 as [_ [= -> ->]].
  rewrite Eop in H1. apply bind_Ok in H1 as (w & s1 & Hc & H1). pose proof (create_ready _ _ _ _ _ _ _ _ Hwf Hc) as Hr.
  apply complete_bundles in H1 as (w' & s2 & He & Hb & Hi & ->). destruct (event_written _ _ _ _ _ _ _ _ _ _ _ _ Hwf Hr He) as (new & e & Hw & (Ew & _ & El & _) & _ & _ & _ & Hb1 & _).
  apply create_Ok in Hc as (_ & Hn & _ & _ & _ & Ho & _ & _ & row & sc & _ & Hs1). assert (claim_bundles s1 = claim_bundles s) as Hb2 by (by rewrite Hs1).
  assert (same_holders s s') as Hsh by (apply same_holders_bundles; congruence).
  assert (work_items s' = <[(store, w_WorkID w) := new]> (work_items s)) as Hi' by (by rewrite Hi, (wn_items _ _ _ _ _ Hw), Ew).
  split; unfold item_of; rewrite Hi'.
  - rewrite Hn, lookup_insert_eq. cbn. destruct (phase_of_lifecycle new) as (P1 & _). rewrite P1 by congruence. do 3 f_equal. symmetry. apply holder_None; [done|].
    intros who g (b & Hbb & Hid & _)%Hsh. destruct (ww_bundle _ Hwf _ _ _ Hbb) as (w0 & Hw0 & _). cbn in *. congruence.
  - intros k' Hne. rewrite lookup_insert_ne by done. by rewrite (holder_same k' s s' Hl Hl' (Hsh k')).
Qed.
Lemma renew_refines : r_op r = "claim-renew"%string → spec_step (store, wr_WorkID res) Noted s s' ∧ wr_WorkID res = text r "work_id".
Proof using Hs Hl' H.
  intros Eop. destruct Hs as [[Hl Hex] Hwf]. pose proof H as H1. unfold apply in H1. apply bind_Ok in H1 as (u & s0 & H0 & H1). apply check_Ok in H0 as [_ [= -> ->]].
  unfold owned in H1. rewrite Eop in H1. seqb_eval. apply bind_Ok in H1 as (w & s0 & (-> & Hi & _)%current_Ok & H1). apply bind_Ok in H1 as (u & s0 & H0 & H1). apply check_Ok in H0 as [Href [= -> ->]].
  apply bind_Ok in H1 as (held & s0 & [= -> ->]%gets_Ok & H1). apply bind_Ok in H1 as (actor & s0 & H0 & H1).
  assert (s0 = s) as -> by (by apply (prove_claim_Ok json_float) in H0 as [-> _]).
  destruct (ww_item _ Hwf _ _ _ Hi) as ([Hc Hrow] & Eid & _). rewrite <-Eid in Hi. destruct (refusal_None _ _ _ _ Href) as [Hnf _].
  unfold renew_claim in H1. apply bind_Ok in H1 as (le & s1 & Hrn & H1). apply bind_Ok in H1 as (u1 & s2 & Hp & H1). apply ret_Ok in H1 as [= Er Es]. rewrite <-Es in Hp. rewrite Er. cbn [wr_WorkID].
  apply storeReplay_claims in Hp as [= V1 _ _ V2 _ _ _ _]. apply renew_Ok in Hrn as (b & _ & _ & _ & _ & _ & _ & _ & _ & _ & Hs1); [|done].
  assert (same_holders s s') as Hsh.
  { intros k' who g. rewrite (same_holders_bundles s1 s' V2 k' who g). rewrite Hs1. revert k' who g. eapply same_holders_alter; [reflexivity|done]. }
  assert (same_items s s') as Hsi by (apply same_items_intro; [done..| |done]; rewrite V1, Hs1; done).
  split; [|exact Eid]. split; [|intros k' _; apply Hsi]. rewrite Hsi. unfold item_of. rewrite Hi. cbn. unfold unfinished. cbn. destruct (phase_of_lifecycle w) as (P1 & P2 & P3 & _).
  destruct (lifecycle_cases _ Hc) as [E|[E|[E|E]]]; [rewrite (P1 E)|rewrite (P2 E)|rewrite (P3 E)|]; done.
Qed.
Lemma change_refines : validate r = true → r_op r ≠ "work-list"%string → r_op r ≠ "work-create"%string → r_op r ≠ "claim-renew"%string →
  (∃ g, spec_step (store, wr_WorkID res) (event_of m r g) s s') ∧ wr_WorkID res = text r "work_id".
Proof using Hs Hl' H.
  intros Hval Hop Hop1 Hop2. destruct (apply_change _ _ _ _ _ _ _ _ _ _ _ _ Hval Hop Hop1 Hop2 Hs H) as (w & actor & kind & w' & s1 & [Hi Et Href _ Hch Hr Hco]).
  destruct Hs as [[Hl Hex] Hwf]. destruct (ww_item _ Hwf _ _ _ Hi) as ([Hc Hrow] & _). destruct (refusal_None _ _ _ _ Href) as [Hnf _].
  assert (ongoing (default "active"%string (optional r "lifecycle")) = true) as Hlife by by apply validate_lifecycle.
  destruct (change_moves store m r now actor w s Hl kind w' s1 Hlife Href Hop1 Hop2 Hch) as [g Hm].
  apply complete_bundles in Hco as (w2 & s2 & He & Hb & Hi2 & ->). destruct (event_written _ _ _ _ _ _ _ _ _ _ _ _ Hwf Hr He) as (new & e & Hw & Hsame & _ & _ & _ & Hb1 & _).
  assert (w_WorkID w' = w_WorkID w) as Ew by (destruct (ww_item _ Hwf _ _ _ (rd_item _ _ _ _ _ _ Hr)) as (_ & E & _); done). split; [|congruence]. exists g. destruct Hsame as (Ew' & Hsame). rewrite Ew.
  eapply (spec_moves (event_of m r g) (store, w_WorkID w) w w' new kind s s1 s'); try done; [congruence|].
  rewrite Hi2, (wn_items _ _ _ _ _ Hw). by rewrite Ew', Ew.
Qed.
End mutation.
Lemma apply_refines store m r now now_send print s res s' : validate r = true → r_op r ≠ "work-list"%string → work_inv now s →
  apply json_float processStart store l m r now now_send print s = Ok (res, s') →
  (∃ g, spec_step (store, wr_WorkID res) (event_of m r g) s s') ∧ (r_op r ≠ "work-create"%string → wr_WorkID res = text r "work_id").
Proof.
  intros Hval Hop Hs H. pose proof (apply_inv json_float processStart store l m r now now_send print Hval Hop s res s' Hs H) as [[Hl' _] _].
  destruct (decide (r_op r = "work-create"%string)) as [E|Hop1]; [split; [|done]; exists 0; rewrite (event_of_op _ _ _ _ E); by eapply create_refines|].
  destruct (decide (r_op r = "claim-renew"%string)) as [E|Hop2]; [destruct (renew_refines store m r now now_send print s res s') as [H1 H2]; [done..|]; split; [|done]; exists 0; by rewrite (event_of_op _ _ _ _ E)|].
  destruct (change_refines store m r now now_send print s res s') as [[g Hg] Hid]; [done..|]. by split; [exists g|].
Qed.

(** *** Due transitions and clean-ups *)

Lemma same_holders_delete store g s s' : (∀ b, claim_bundles s !! (store, g) = Some b → b_active b = false) →
  claim_bundles s' = delete (store, g) (claim_bundles s) → same_holders s s'.
Proof.
  intros Hg E k who g'. unfold holds_item. rewrite E. split.
  - intros (b & [_ Hb]%lookup_delete_Some & H). by exists b.
  - intros (b & Hb & Hi & Ha & Hc). exists b. split; [|done]. apply lookup_delete_Some. split; [|done]. intros Ek. rewrite <-Ek in Hb.
    pose proof (Hg _ Hb). congruence.
Qed.
Lemma reconcile_refines repo w g held now store s u s' b : work_items s !! (store, w_WorkID w) = Some w →
  claim_bundles s !! (store, g) = Some b → b_work_id b = w_WorkID w → work_inv now s →
  reconcileTx json_float repo w g held now store s = Ok (u, s') → same_items s s' ∨ spec_step (store, w_WorkID w) Lapsed s s'.
Proof.
  intros Hi Hb Hbw Hs H. pose proof (reconcile_inv _ _ _ _ _ _ _ _ _ _ _ Hi Hb Hbw Hs H) as [[Hl' _] _].
  destruct (reconcile_steps _ _ _ _ _ _ _ _ _ _ _ Hi Hb Hbw Hs H) as (kind & w' & w2 & s1 & Hr & Hl1 & Hd & E1 & E2 & He). destruct Hs as [[Hl _] Hwf].
  destruct (event_written _ _ _ _ _ _ _ _ _ _ _ _ Hwf Hr He) as (new & e & Hw & (F1 & _ & F2 & F3 & _) & _ & _ & _ & Hb1 & _).
  destruct (ww_item _ Hwf _ _ _ Hi) as ([Hc Hrow] & _). assert (w_WorkID w' = w_WorkID w) as Ew.
  { destruct (ww_item _ Hwf _ _ _ (rd_item _ _ _ _ _ _ Hr)) as (_ & E & _). done. }
  assert (phase_of new = phase_of w) as Hph.
  { unfold phase_of. rewrite F2, E1, F3, E2. assert (nullif (w_ReportConsumer w) = w_ReportConsumer w) as -> by (by rewrite <-Hrow at 2). done. }
  assert (work_items s' = <[(store, w_WorkID w) := new]> (work_items s)) as Hi' by (by rewrite (wn_items _ _ _ _ _ Hw), F1, Ew).
  assert (same_holders s s1 → same_items s s') as Hsame.
  { intros Hsh k. unfold item_of. rewrite Hi'. assert (holder_of k s' = holder_of k s) as ->.
    { apply holder_same; [done..|]. intros who g'. by rewrite (same_holders_bundles _ _ Hb1 k who g'), (Hsh k who g'). }
    destruct (decide (k = (store, w_WorkID w))) as [->|]; [rewrite lookup_insert_eq, Hi; cbn; by rewrite Hph|by rewrite lookup_insert_ne]. }
  destruct Hd as [->|[[Hend Hact]| ->]]; [left; by apply Hsame| |left; apply Hsame; by eapply same_holders_alter].
  pose proof (freed_end _ _ _ _ _ _ Hl Hb Hbw Hend) as Hf. right. split; unfold item_of; rewrite Hi'.
  - rewrite lookup_insert_eq, Hi. cbn. rewrite Hph. destruct (unfinished (mkItem (phase_of w) (holder_of (store, w_WorkID w) s))) eqn:Eu.
    + cbn. do 3 f_equal. symmetry. apply holder_None; [done|]. intros who g' [_ Hne]%(same_holders_bundles _ _ Hb1)%Hf. done.
    + exfalso. assert (ongoing (w_Lifecycle w) = true) as Ho by (eapply (holder_ongoing (store, w_WorkID w)); [done|exact Hi|exists b; eauto]).
      destruct (phase_of_lifecycle w) as (_ & P2 & _). by rewrite (P2 Ho) in Eu.
  - intros k' Hne. rewrite lookup_insert_ne by done. rewrite (holder_same k' s s'); [done..|]. intros who g'. rewrite (same_holders_bundles _ _ Hb1 k' who g'), (Hf k' who g').
    naive_solver.
Qed.

Lemma same_items_refl s : same_items s s.
Proof. by intros k. Qed.
#[local] Hint Resolve same_items_refl : core.
Lemma reclaimInactive_items workID store s u s' : leases_wf s → leases_wf s' → reclaimInactiveTx workID store s = Ok (u, s') → same_items s s'.
Proof.
  intros Hl Hl' H. unfold reclaimInactiveTx in H. apply bind_Ok in H as (o & s1 & [= -> ->]%gets_Ok & H).
  destruct (bundleFor store workID s) as [[g b]|] eqn:E; [|by run H]. unfold when in H. destruct (b_active b) eqn:Ea; cbn in H; [by run H|].
  unfold delete_bundle in H. apply modify_Ok in H as [= -> ->]. apply same_items_intro; [done..|]. apply bundleFor_Some in E as [Hb _]; [|done].
  eapply (same_holders_delete store g); [|reflexivity]. intros c Hc. congruence.
Qed.
Lemma reclaimOne_items store s u s' : leases_wf s → leases_wf s' → reclaimOne store s = Ok (u, s') → same_items s s'.
Proof.
  intros Hl Hl' H. unfold reclaimOne in H. run H. destruct (head _) as [[g b]|] eqn:E; [|by run H].
  assert ((g, b) ∈ filter (λ gb : Z * BundleRow, b_active gb.2 = false) (bundles_of store s)) as Hin by (destruct (filter (λ gb : Z * BundleRow, b_active gb.2 = false) (bundles_of store s)); [done|injection E as ->; left]).
  run H. unfold delete_bundle in R. apply modify_Ok in R as [= -> ->].
  apply list_elem_of_filter in Hin as [Ha Hin%elem_of_bundles_of]. apply same_items_intro; [done..|]. eapply (same_holders_delete store g); [|reflexivity].
  intros c Hc. cbn in Ha. congruence.
Qed.
Lemma protect_items ms id c repository s u s' : leases_wf s → leases_wf s' → protectCycleClaims ms id c repository s = Ok (u, s') → same_items s s'.
Proof.
  intros Hl Hl' H. unfold protectCycleClaims in H. destruct (seqb repository ""); [by run H|]. run H. destruct (seqb _ ""); [by run H|]. run H.
  apply same_items_intro; [done..|]. intros k who g. unfold holds_item. cbn. split.
  - intros (b' & (b & Hb & ->)%lookup_update_where_Some & H). exists b. split; [done|]. by destruct (_ && _).
  - intros (b & Hb & H). eexists. rewrite lookup_update_where, Hb. split; [reflexivity|]. by destruct (_ && _).
Qed.
Lemma reclaimFinished_Ok repo workID at_ store s u s' : reclaimFinishedTx l repo workID at_ store s = Ok (u, s') → s' = s ∨
  ∃ w, work_items s !! (store, workID) = Some w ∧ w_Lifecycle w = "finished"%string ∧ bundleFor store workID s = None ∧
    work_items s' = delete (store, workID) (work_items s) ∧ claim_bundles s' = claim_bundles s.
Proof.
  intros H. unfold reclaimFinishedTx in H. apply bind_Ok in H as (o & s1 & [= -> ->]%gets_Ok & H).
  destruct (work_items s !! (store, workID)) as [w|] eqn:Ew; [|left; by run H].
  destruct (seqb (w_Lifecycle w) "finished" && expires_by at_ w) eqn:Ef; cbn in H; [|left; by run H].
  apply andb_true_iff in Ef as [Ef%seqb_true _].
  apply bind_Ok in H as (h & s1 & [= -> ->]%gets_Ok & H). destruct (bundleFor store workID s) as [[g b]|] eqn:Eb; [left; destruct (b_active b); by run H|].
  right. exists w. run H. unfold update_store in R. run R. done.
Qed.
Lemma reclaimFinished_refines repo workID at_ store s u s' : leases_wf s → leases_wf s' → reclaimFinishedTx l repo workID at_ store s = Ok (u, s') →
  same_items s s' ∨ spec_step (store, workID) Forgotten s s'.
Proof.
  intros Hl Hl' H. apply reclaimFinished_Ok in H as [->|(w & Ew & Ef & Eb & Hi & Hc)]; [by left|right].
  assert (same_holders s s') as Hs by by apply same_holders_bundles. split; unfold item_of; rewrite Hi.
  - rewrite Ew, lookup_delete_eq. cbn. unfold holder_of. cbn. rewrite Eb. by destruct (phase_of_lifecycle w) as (_ & _ & _ & ->).
  - intros k' Hne. rewrite lookup_delete_ne by done. by rewrite (holder_same k' s s' Hl Hl' (Hs k')).
Qed.

(** *** What a step does, and what it may do to the items *)

(** A mutation of a caller with its request, in a store, for an item; the due transition and the
    clean-up of an item; or anything else. *)
Inductive act :=
| Mutated (store : string) (m : MemoryCaller) (r : workRequest) (id : string)
| Due (store id : string)
| Expired (id : string)
| Apart.
(** The store of a call: that of its repository, or the one that its first write makes *)
Definition store_of_call (repo fresh : string) (s : State) : string := default fresh (storeOf repo s).
(** The steps of the installation ([work_step]), each with its act *)
Inductive work_act : act → float * State → float * State → Prop :=
| wa_tick now now' s : fleb now now' = true → work_act Apart (now, s) (now', s)
| wa_mutation now now_send fresh m r print class s res s' : validate r = true → r_op r ≠ "work-list"%string → unused fresh s →
    workTx json_float l (mc_Repository m) fresh class (λ store, apply json_float processStart store l m r now now_send print) s = Ok (res, s') →
    work_act (Mutated (store_of_call (mc_Repository m) fresh s) m r (wr_WorkID res)) (now, s) (now, s')
| wa_due now repo fresh store workID w g held s0 s u s' : storeOf repo s = Some store → due_of store workID now s0 = Ok (Some (w, g, held)) →
    waited s0 s → workTx json_float l repo fresh control (reconcileTx json_float repo w g held now) s = Ok (u, s') → work_act (Due store workID) (now, s) (now, s')
| wa_clear now repo fresh workID class s u s' : unused fresh s → workTx json_float l repo fresh class (reclaimInactiveTx workID) s = Ok (u, s') →
    work_act Apart (now, s) (now, s')
| wa_reclaim now repo fresh class s u s' : unused fresh s → workTx json_float l repo fresh class reclaimOne s = Ok (u, s') → work_act Apart (now, s) (now, s')
| wa_expire now repo fresh workID at_ class s u s' : unused fresh s →
    workTx json_float l repo fresh class (reclaimFinishedTx l repo workID at_) s = Ok (u, s') → work_act (Expired workID) (now, s) (now, s')
| wa_protect now ms id c repository s u s' : protectCycleClaims ms id c repository s = Ok (u, s') →
    (∀ k b, claim_bundles s !! k = Some b → fltb (fdiv (of_int ms) (of_int 1000)) (b_expires_at b) = true → fltb now (b_expires_at b) = true) →
    work_act Apart (now, s) (now, s')
| wa_other now A (m : tx A) s a s' : Keeps claims_view m → m s = Ok (a, s') → work_act Apart (now, s) (now, s').
Lemma work_step_act c c' : work_step json_float processStart l c c' → ∃ a, work_act a c c'.
Proof. intros H. destruct H; eexists; [by eapply wa_tick|by eapply wa_mutation|by eapply wa_due|by eapply wa_clear|by eapply wa_reclaim|by eapply wa_expire|by eapply wa_protect|by eapply wa_other]. Qed.
Lemma work_act_step a c c' : work_act a c c' → work_step json_float processStart l c c'.
Proof. intros H. destruct H; [by eapply ws_tick|by eapply ws_mutation|by eapply ws_due|by eapply ws_clear|by eapply ws_reclaim|by eapply ws_expire|by eapply ws_protect|by eapply ws_other]. Qed.

(** The items under an act: a mutation is exactly the event of its request, by its caller, of the
    item that it names (the new item of a creation); a due transition may take the holder of its
    item; a clean-up may forget its finished item; nothing else moves an item. *)
Definition act_on (a : act) (s s' : State) : Prop :=
  match a with
  | Mutated store m r id => (∃ g, spec_step (store, id) (event_of m r g) s s') ∧ (r_op r ≠ "work-create"%string → id = text r "work_id")
  | Due store id => same_items s s' ∨ spec_step (store, id) Lapsed s s'
  | Expired id => same_items s s' ∨ ∃ store, spec_step (store, id) Forgotten s s'
  | Apart => same_items s s'
  end.

Lemma same_items_spec k ev s s' s'' : same_items s s' → spec_step k ev s' s'' → spec_step k ev s s''.
Proof. intros H [E Ho]. split; [by rewrite <-(H k)|]. intros k' Hne. by rewrite Ho, (H k'). Qed.
Lemma same_items_trans s s' s'' : same_items s s' → same_items s' s'' → same_items s s''.
Proof. intros H1 H2 k. by rewrite (H2 k), (H1 k). Qed.
Lemma act_on_after a s s1 s' : same_items s s1 → act_on a s1 s' → act_on a s s'.
Proof.
  intros H. destruct a; cbn.
  - intros [[g Hg] Hid]. split; [|done]. exists g. by eapply same_items_spec.
  - intros [H'|H']; [left; by eapply same_items_trans|right; by eapply same_items_spec].
  - intros [H'|[store H']]; [left; by eapply same_items_trans|right; exists store; by eapply same_items_spec].
  - by apply same_items_trans.
Qed.
Lemma workTx_acts {A} now repo fresh class (body : string → tx A) s a s' (act_of : string → act) : unused fresh s → work_inv now s →
  (∀ store s1, store = store_of_call repo fresh s → work_inv now s1 → body store s1 = Ok (a, s') → act_on (act_of store) s1 s') →
  workTx json_float l repo fresh class body s = Ok (a, s') → act_on (act_of (store_of_call repo fresh s)) s s'.
Proof.
  intros Hf Hs Hb H. apply workTx_Ok in H as (store & s1 & H & [[-> Est]|(r & Hn & Hr & -> & ->)]).
  - assert (store = store_of_call repo fresh s) as Es by (unfold store_of_call; by rewrite Est). rewrite <-Es. by eapply Hb.
  - assert (fresh = store_of_call repo fresh s) as Es by (unfold store_of_call, storeOf; by rewrite Hn). rewrite <-Es. eapply act_on_after; [|eapply Hb; [done| |exact H]; by eapply new_store_inv].
    apply same_items_intro; [apply Hs|by eapply new_store_inv|done|]. by apply same_holders_bundles.
Qed.
Lemma work_inv_leases now s : work_inv now s → leases_wf s.
Proof. intros [[H _] _]. exact H. Qed.

(** Every step does to the items what its act says. *)
Lemma work_act_items a c c' : work_act a c c' → work_inv c.1 c.2 → work_inv c'.1 c'.2 ∧ act_on a c.2 c'.2.
Proof.
  intros Hc Hs. pose proof (work_step_inv _ _ _ _ _ (work_act_step _ _ _ Hc) Hs) as Hs'. split; [exact Hs'|]. pose proof (work_inv_leases _ _ Hs) as Hl. pose proof (work_inv_leases _ _ Hs') as Hl'.
  destruct Hc as [now now' s Ht|now now_send fresh m r print class s res s' H H0 Hf H1|now repo fresh store workID w g held s0 s u s' H H0 H1 H2|
    now repo fresh workID class s u s' Hf H|now repo fresh class s u s' Hf H|now repo fresh workID at_ class s u s' Hf H|now ms id c repository s u s' H Hc|now A m s a s' Hk H]; cbn [fst snd] in *.
  - done.
  - eapply (workTx_acts _ _ _ _ _ _ _ _ (λ store, Mutated store m r (wr_WorkID res)) Hf Hs); [|exact H1]. intros store s1 _ Hs1 Ha. exact (apply_refines store m r now now_send print s1 res s' H H0 Hs1 Ha).
  - destruct (due_run _ _ _ _ _ _ _ _ _ _ _ _ _ _ (proj2 Hs) H H0 H1 H2) as (b & Hi & Hb & Hbw & Hrec). apply due_of_Ok in H0 as (Hi0 & _).
    assert (w_WorkID w = workID) as <- by (destruct H1 as [[= R1 R2 R3 R4] _]; by destruct (ww_item _ (proj2 Hs) store workID w ltac:(by rewrite R1)) as (_ & -> & _)).
    eapply reconcile_refines; [exact Hi|exact Hb|exact Hbw|exact Hs|exact Hrec].
  - eapply (workTx_acts _ _ _ _ _ _ _ _ (λ _, Apart) Hf Hs); [|exact H]. intros store s1 _ Hs1 Ha. eapply reclaimInactive_items; [by eapply work_inv_leases|done|exact Ha].
  - eapply (workTx_acts _ _ _ _ _ _ _ _ (λ _, Apart) Hf Hs); [|exact H]. intros store s1 _ Hs1 Ha. eapply reclaimOne_items; [by eapply work_inv_leases|done|exact Ha].
  - eapply (workTx_acts _ _ _ _ _ _ _ _ (λ _, Expired workID) Hf Hs); [|exact H]. intros store s1 _ Hs1 Ha.
    destruct (reclaimFinished_refines _ _ _ _ _ _ _ (work_inv_leases _ _ Hs1) Hl' Ha) as [He|He]; [by left|right; by exists store].
  - by eapply protect_items.
  - assert (claims_view s' = claims_view s) as Hv by (by eapply keeps_run). injection Hv as V1 _ _ V2 _ _ _ _.
    apply same_items_intro; [done..| |]. 2: apply same_holders_bundles. all: congruence.
Qed.

(** *** The machine of all items *)

Abbreviation machine := (gmap (string * string) item).
Definition items (s : State) : machine := map_imap (λ k w, Some (mkItem (phase_of w) (holder_of k s))) (work_items s).
(** One event of an item *)
Definition moved_by (k : string * string) (ev : item_event) (M M' : machine) : Prop := ∃ i, spec ev (M !! k) = Some i ∧ M' = partial_alter (λ _, i) k M.
Definition machine_act (a : act) (M M' : machine) : Prop :=
  match a with
  | Mutated store m r id => (∃ g, moved_by (store, id) (event_of m r g) M M') ∧ (r_op r ≠ "work-create"%string → id = text r "work_id")
  | Due store id => M' = M ∨ moved_by (store, id) Lapsed M M'
  | Expired id => M' = M ∨ ∃ store, moved_by (store, id) Forgotten M M'
  | Apart => M' = M
  end.
Lemma items_lookup s k : items s !! k = item_of k s.
Proof. unfold items, item_of. rewrite map_lookup_imap. by destruct (work_items s !! k). Qed.
Lemma same_items_machine s s' : same_items s s' → items s' = items s.
Proof. intros H. apply map_eq. intros k. by rewrite !items_lookup. Qed.
Lemma spec_step_machine k ev s s' : spec_step k ev s s' → moved_by k ev (items s) (items s').
Proof.
  intros [E Ho]. exists (item_of k s'). split; [by rewrite items_lookup|]. apply map_eq. intros k'. rewrite items_lookup.
  destruct (decide (k' = k)) as [->|Hne]; [by rewrite lookup_partial_alter_eq|]. rewrite lookup_partial_alter_ne by done. by rewrite items_lookup, Ho.
Qed.
Lemma act_on_machine a s s' : act_on a s s' → machine_act a (items s) (items s').
Proof.
  destruct a; cbn.
  - intros [[g Hg] Hid]. split; [|done]. exists g. by apply spec_step_machine.
  - intros [H|H]; [left; by apply same_items_machine|right; by apply spec_step_machine].
  - intros [H|[store H]]; [left; by apply same_items_machine|right; exists store; by apply spec_step_machine].
  - apply same_items_machine.
Qed.

(** Every schedule has its acts. *)
Lemma schedule_acts c c' : rtc (work_step json_float processStart l) c c' → ∃ acts, trace_of work_act c acts c'.
Proof. apply run_covers, work_step_act. Qed.
End operations.
