(* ===== verification/WorkOutcomes.v ===== *)
(** * What a work operation promises its caller

    Every accepted change is one new revision with one new event, over the revision that the
    caller saw; a verdict is never the reporter's; a retry never runs twice. *)

From S2P Require Import Prelude GoString GoFloat Schema Sql Label Fixture Storage Names Messages Cycles Sessions Inboxes Participants Leases LeaseProps WorkViews MemoryLimits MemoryExpiry WorkItems WorkOps Works WorkRequests WorkFacts WorkProps WorkSteps.
Open Scope Z_scope.

Section outcomes.
Context `{SHA : Sha256}.
Variable json_float : float → string.
Variable processStart : Z → ProcessStart.
Variable json_library : string → option string.
Variable l : memoryLimits.

(** The changes of an existing item *)
Definition changes_item (r : workRequest) : Prop := r_op r ≠ "work-create"%string ∧ r_op r ≠ "claim-renew"%string ∧ r_op r ≠ "work-list"%string.

(** Optimistic concurrency: an accepted change was made over the revision that its caller
    named; it writes that item's next revision and one event, the latest of the store, and
    touches no other item and no other event (it may write claims, retries and hand-off messages); a second change over the same revision is
    refused, whoever sends it. *)
Theorem mutation_spec store m r now now_send print s res s' : validate r = true → changes_item r → work_inv now s →
  apply json_float processStart store l m r now now_send print s = Ok (res, s') →
  ∃ w new e, work_items s !! (store, text r "work_id") = Some w ∧ w_Revision w = int_ r "if_revision" ∧
    work_items s' = <[(store, text r "work_id") := new]> (work_items s) ∧ w_Revision new = w_Revision w + 1 ∧
    work_events s' = <[(store, w_LatestSeq new) := e]> (work_events s) ∧ (∀ q x, work_events s !! (store, q) = Some x → q < w_LatestSeq new) ∧
    we_work_id e = text r "work_id" ∧ we_revision e = w_Revision new ∧ wr_Revision res = w_Revision new ∧ wr_Seq res = Some (w_LatestSeq new) ∧
    ∀ m2 r2 now2 now_send2 print2, changes_item r2 → text r2 "work_id" = text r "work_id" → int_ r2 "if_revision" = int_ r "if_revision" →
      ∃ err, apply json_float processStart store l m2 r2 now2 now_send2 print2 s' = Err err.
Proof.
  intros Hval (Hop1 & Hop2 & Hop) Hs H. destruct (apply_change _ _ _ _ _ _ _ _ _ _ _ _ Hval Hop Hop1 Hop2 Hs H) as (w & actor & kind & w' & s1 & [Hi Et _ Hrev _ Hr Hco]).
  apply complete_Ok in Hco as (w2 & s2 & He & [= V1 V2 _ _ _ _ _ _] & _ & R2 & R3 & _).
  destruct (event_written _ _ _ _ _ _ _ _ _ _ _ _ (proj2 Hs) Hr He) as (new & e & Hw & (S1 & S2 & _) & Hq & _).
  assert (w_WorkID w' = w_WorkID w) as Ew by (destruct (ww_item _ (proj2 Hs) _ _ _ (rd_item _ _ _ _ _ _ Hr)) as (_ & E & _); done).
  pose proof (rd_revision _ _ _ _ _ _ Hr) as Hn. cbn in Hn.
  assert (work_items s' = <[(store, text r "work_id") := new]> (work_items s)) as Hit by (by rewrite V1, (wn_items _ _ _ _ _ Hw), S1, Ew, Et).
  exists w, new, e. rewrite Et in Hi. split_and!; try done; try congruence.
  - by rewrite V2, (wn_events _ _ _ _ _ Hw).
  - exact (wn_last _ _ _ _ _ Hw).
  - destruct (wn_event _ _ _ _ _ Hw) as [-> _]. congruence.
  - apply (wn_event _ _ _ _ _ Hw).
  - intros m2 r2 now2 now_send2 print2 (Ho1 & Ho2 & _) E1 E2. destruct (apply json_float processStart store l m2 r2 now2 now_send2 print2 s') as [[res2 s3]|err] eqn:E; [|by exists err].
    destruct (apply_parts _ _ _ _ _ _ _ _ _ _ _ _ Ho1 Ho2 E) as (w3 & _ & _ & _ & _ & Hi3 & _ & Hr3 & _). rewrite E1, Hit, lookup_insert_eq in Hi3. injection Hi3 as <-.
    exfalso. lia.
Qed.

(** ** Verdicts *)

Definition verdict_of (op : string) : string := if seqb op "work-accept" then "accepted" else "rejected".
Lemma verdict_change store m r now actor w s kind w' s1 : workVerdict (r_op r) = true →
  change json_float store l m r now actor w s = Ok ((kind, w'), s1) → kind = verdict_of (r_op r) ∧ w_ReportSeq w' = w_ReportSeq w ∧ w_WorkID w' = w_WorkID w ∧
    w_Lifecycle w' = (if seqb (r_op r) "work-accept" then "finished" else "open")%string ∧ w_Verdict w' = Some kind ∧ w_VerdictCredit w' = false ∧
    w_evidence w' = w_ReportSeq w ∧ w_References w' = r_refs r.
Proof.
  intros Hv H. unfold workVerdict in Hv. unfold change, verdict_of in *. apply orb_true_iff in Hv as [Eop%seqb_true|Eop%seqb_true]; rewrite Eop in *; cbn in H.
  - apply bind_Ok in H as (w2 & s2 & H & [= -> -> ->]%ret_Ok). unfold accept in H. by apply ret_Ok in H as [= -> ->].
  - apply bind_Ok in H as (w2 & s2 & H & [= -> -> ->]%ret_Ok). unfold reject in H. apply bind_Ok in H as (u & s3 & _ & H). by apply ret_Ok in H as [= -> ->].
Qed.
Lemma verdict_refused m r w s : workVerdict (r_op r) = true → lifecycle_refusal m r w s = None →
  w_Lifecycle w = "reported"%string ∧ own_report m w = false ∧ w_ReportSeq w = Some (int_ r "report_seq").
Proof.
  unfold lifecycle_refusal, requireVerdictCaller. intros ->. destruct (seqb (w_Lifecycle w) "finished"); [done|]. rewrite andb_false_r.
  destruct (seqb (w_Lifecycle w) "reported") eqn:E; [|done]. apply seqb_true in E. cbn. destruct (own_report m w); [done|].
  destruct (bool_decide _) eqn:Es; [|done]. by apply bool_decide_eq_true in Es.
Qed.
Lemma reported_credit w : item_checks w = true → w_Lifecycle w = "reported"%string → w_VerdictCredit w = true.
Proof. unfold item_checks. rewrite !andb_true_iff. intros ((_ & H) & _) E. rewrite E in H. apply bool_decide_eq_true in H. by rewrite <-H. Qed.

Lemma numbered_references kind seq w : w_References (numbered kind seq w) = w_References w.
Proof. unfold numbered. destruct (seqb kind "reported"); [done|]. by destruct (_ || _). Qed.

(** C27: separation of duties: an accepted verdict is that of another consumer and another
    native actor than the report's, over the latest report, which exists; it spends the verdict
    credit of the report and closes or reopens the item; its event names that report, and the
    references that the verdict gave become those of the item and of the event, as its evidence. *)
Theorem verdict_spec store m r now now_send print s res s' : validate r = true → workVerdict (r_op r) = true → work_inv now s →
  apply json_float processStart store l m r now now_send print s = Ok (res, s') →
  ∃ w new reported judged, work_items s !! (store, text r "work_id") = Some w ∧ w_Lifecycle w = "reported"%string ∧ w_VerdictCredit w = true ∧
    w_ReportConsumer w ≠ Some (mc_Consumer m) ∧ (w_ReportActor w ≠ ""%string → w_ReportActor w ≠ nativeWorkActor m) ∧
    w_ReportSeq w = Some (int_ r "report_seq") ∧ work_events s !! (store, int_ r "report_seq") = Some reported ∧
    we_kind reported = "reported"%string ∧ we_work_id reported = text r "work_id" ∧
    work_items s' !! (store, text r "work_id") = Some new ∧ w_Lifecycle new = (if seqb (r_op r) "work-accept" then "finished" else "open")%string ∧
    w_Verdict new = Some (verdict_of (r_op r)) ∧ w_VerdictCredit new = false ∧ w_VerdictSeq new = Some (w_LatestSeq new) ∧
    work_events s' !! (store, w_LatestSeq new) = Some judged ∧ we_kind judged = verdict_of (r_op r) ∧ v_VerdictEvidence (we_payload judged) = w_ReportSeq w ∧
    w_References new = Some (default [] (r_refs r)) ∧ w_References (v_item (we_payload judged)) = r_refs r.
Proof.
  intros Hval Hv Hs H. assert (r_op r ≠ "work-list"%string ∧ r_op r ≠ "work-create"%string ∧ r_op r ≠ "claim-renew"%string) as (Hop & Hop1 & Hop2).
  { split_and!; intros E; by rewrite E in Hv. }
  destruct (apply_change _ _ _ _ _ _ _ _ _ _ _ _ Hval Hop Hop1 Hop2 Hs H) as (w & actor & kind & w' & s1 & [Hi Et Href _ Hc Hr Hco]).
  destruct (verdict_refused _ _ _ _ Hv Href) as (Hl & Hown & Hseq). destruct (verdict_change _ _ _ _ _ _ _ _ _ _ Hv Hc) as (-> & C1 & C2 & C3 & C4 & C5 & C6 & C7). cbn in C1, C2, C6, C7.
  apply complete_Ok in Hco as (w2 & s2 & He & [= V1 V2 _ _ _ _ _ _] & _). destruct (ww_item _ (proj2 Hs) _ _ _ Hi) as ([Hchk _] & _).
  destruct (ww_report _ (proj2 Hs) _ _ _ _ Hi Hseq) as (x & rp & Hx & Hxi & Hxk & _).
  destruct (rd_items _ _ _ _ _ _ Hr) as [_ [old Hold]]. destruct (re_items _ _ _ _ _ _ _ _ _ _ He _ Hold) as (new & Hit & _ & Hnew).
  destruct (re_events _ _ _ _ _ _ _ _ _ _ He) as (payload & Hpi & _ & Hp & Hev). pose proof (re_item _ _ _ _ _ _ _ _ _ _ He) as Hw2.
  assert (w_VerdictSeq w2 = Some (w_LatestSeq w2)) as Hvs.
  { rewrite Hw2 at 1. unfold numbered, verdict_of. by destruct (seqb (r_op r) "work-accept"). }
  destruct (numbered_same (verdict_of (r_op r)) (w_LatestSeq w2) w') as (N1 & _). destruct (numbered_report (verdict_of (r_op r)) (w_LatestSeq w2) w') as (_ & _ & N2 & N3).
  cbn in N1, N2, N3. rewrite <-Hw2 in N1, N2, N3. assert (w_References w2 = w_References w') as N4 by (rewrite Hw2; apply numbered_references). unfold own_report in Hown. apply orb_false_iff in Hown as [Hown1%bool_decide_eq_false Hown2].
  exists w, new, x, (mkWorkEventRow (w_WorkID w') (w_Revision w') (verdict_of (r_op r)) payload (nativeActor m)). rewrite <-Et.
  assert (w_LatestSeq new = w_LatestSeq w2) as -> by (by rewrite Hnew).
  split_and!; try done.
  - by eapply reported_credit.
  - intros Hne Heq. apply andb_false_iff in Hown2 as [E|E]; [by apply negb_false_iff, seqb_true in E|]. by rewrite Heq, (proj2 (seqb_true _ _) eq_refl) in E.
  - by rewrite V1, Hit, C2, lookup_insert_eq.
  - rewrite Hnew. cbn. congruence.
  - rewrite Hnew. cbn. congruence.
  - rewrite Hnew. cbn. congruence.
  - rewrite Hnew. cbn. congruence.
  - by rewrite V2, Hev, lookup_insert_eq.
  - cbn. congruence.
  - rewrite Hnew. cbn. by rewrite N4, C7.
  - cbn. rewrite Hpi. cbn. congruence.
Qed.

(** ** Retries *)

(** The retry record that a mutation leaves *)
Lemma apply_record store m r now now_send print s res s' : keyed r = true → apply json_float processStart store l m r now now_send print s = Ok (res, s') →
  ∃ actor, work_replays s' !! (store, mc_Consumer m, text r "key") =
    Some (mkWorkReplayRow (r_op r) fingerprintScheme print (wr_Seq res) now (number r "deadline") res actor).
Proof.
  intros Hk H. assert (∀ actor res0 s0 u s1, storeReplay json_float store m r actor print res0 now s0 = Ok (u, s1) →
    work_replays s1 !! (store, mc_Consumer m, text r "key") = Some (mkWorkReplayRow (r_op r) fingerprintScheme print (wr_Seq res0) now (number r "deadline") res0 actor)) as Hrec.
  { intros actor res0 s0 u s1 Hr%storeReplay_Ok. rewrite Hk in Hr. destruct Hr as [_ ->]. cbn. by rewrite lookup_insert_eq. }
  assert (∀ actor kind w s0, complete json_float processStart store m r now now_send actor print kind w s0 = Ok (res, s') →
    work_replays s' !! (store, mc_Consumer m, text r "key") = Some (mkWorkReplayRow (r_op r) fingerprintScheme print (wr_Seq res) now (number r "deadline") res actor)) as Hcom.
  { intros actor kind w s0 Hc. unfold complete in Hc. apply bind_Ok in Hc as (w' & s1 & _ & Hc). apply bind_Ok in Hc as (o & s2 & _ & Hc).
    apply bind_Ok in Hc as (b & s3 & _ & Hc). apply bind_Ok in Hc as (u & s4 & Hr & Hc). apply ret_Ok in Hc as [= -> ->]. by eapply Hrec. }
  unfold apply in H. apply bind_Ok in H as (u & s0 & _ & H). destruct (seqb (r_op r) "work-create").
  - apply bind_Ok in H as (w & s1 & _ & H). eauto.
  - apply bind_Ok in H as (w & s1 & _ & H). apply bind_Ok in H as (u1 & s2 & _ & H). apply bind_Ok in H as (held & s3 & _ & H).
    apply bind_Ok in H as (actor & s4 & _ & H). destruct (seqb (r_op r) "claim-renew").
    + unfold renew_claim in H. apply bind_Ok in H as (le & s5 & _ & H). apply bind_Ok in H as (u2 & s6 & Hr & H). apply ret_Ok in H as [= -> ->]. eauto.
    + apply bind_Ok in H as (u2 & s5 & _ & H). apply bind_Ok in H as (u3 & s6 & _ & H). apply bind_Ok in H as ([kind w'] & s7 & _ & H). eauto.
Qed.

(** A caller that the checks before a retry record let pass *)
Definition retry_allowed (m : MemoryCaller) (r : workRequest) (now : float) (now_ms : Z) (q : WorkReplayRow) (s : State) : Prop :=
  verdict_refusal m r now s = None ∧ requireParticipantCaller now_ms m s = None ∧ fleb (number r "deadline") now = false ∧
  fltb (fadd now (l_idemTTL l)) (number r "deadline") = false ∧ requireNativeWorkCaller m (wq_native_actor q) now s = None.

(** at most once: while the record of a keyed mutation lives, the same request of the same
    consumer returns the original result as a duplicate and writes nothing, whatever happened to
    the item since, and another request under that key is refused and writes nothing. *)
Theorem retry_returns store m r now now_send s res s' : keyed r = true →
  apply json_float processStart store l m r now now_send (fingerprint json_float (mc_Consumer m) r) s = Ok (res, s') →
  ∃ q, work_replays s' !! (store, mc_Consumer m, text r "key") = Some q ∧
  ∀ fresh m2 r2 now2 now_ms at_ audit fuel ens last st, mc_Repository m2 = mc_Repository m → mc_Consumer m2 = mc_Consumer m →
    keyed r2 = true → text r2 "key" = text r "key" → storeOf (mc_Repository m) (tables st) = Some store →
    work_replays (tables st) !! (store, mc_Consumer m, text r "key") = Some q → retry_allowed m2 r2 now2 now_ms q (tables st) →
    workMutation json_float processStart json_library l fresh m2 r2 now2 now_ms at_ audit fuel ens last st =
      (if decide (fingerprint json_float (mc_Consumer m) r2 = fingerprint json_float (mc_Consumer m) r ∧ r_op r2 = r_op r)
       then Ok (res <| wr_Duplicate := true |>) else Err (workError "idempotency_conflict"), st, last).
Proof.
  intros Hk H. destruct (apply_record _ _ _ _ _ _ _ _ _ Hk H) as [actor Hq]. eexists. split; [exact Hq|].
  intros fresh m2 r2 now2 now_ms at_ audit fuel ens last st E1 E2 Hk2 E3 Hst Hrec (A1 & A2 & A3 & A4 & A5).
  unfold workMutation, replay. rewrite A1, Hk2, A2, A3, A4, E1, E2, E3, Hst, Hrec. cbn [negb]. rewrite A5. cbn.
  destruct (decide _) as [[F1 F2]|Hn].
  - by rewrite F1, F2, !(proj2 (seqb_true _ _) eq_refl).
  - destruct (seqb (fingerprint json_float (mc_Consumer m) r) _) eqn:F1; cbn; [|by rewrite andb_false_r].
    destruct (seqb (r_op r) (r_op r2)) eqn:F2; cbn; [|by rewrite andb_false_r].
    apply seqb_true in F1, F2. by destruct Hn.
Qed.
End outcomes.
