(* ===== verification/WorkCases.v ===== *)
(** * Work items on concrete stores

    The witnesses of the properties of work items, on the runs of WorkFixture. *)

From S2P Require Import Prelude GoString GoFloat Schema Sql Label Fixture Storage Names Messages Cycles Sessions Inboxes Participants Leases LeaseProps WorkViews MemoryLimits MemoryExpiry WorkItems WorkOps Works WorkRequests WorkFixture WorkFacts WorkProps WorkSteps WorkSpec WorkOutcomes.
Open Scope Z_scope.

Lemma small_work_inv now : work_inv now small_state.
Proof.
  split; [by apply no_leases|]. split; intros *; cbn; rewrite ?lookup_empty; done.
Qed.

#[local] Abbreviation steps := (@work_step length_sum no_float no_process defaultMemoryLimits).
Lemma mutation_step fresh m r now s : validate r = true → r_op r ≠ "work-list"%string → unused fresh s → mc_Repository m = work_repo →
  succeeds (mutation fresh m r now) s = true → steps (of_int now, s) (of_int now, after (mutation fresh m r now) s).
Proof.
  intros Hv Hop Hu Hm Hs. destruct (run_after _ _ Hs) as [res E]. eapply (@ws_mutation length_sum); [exact Hv|exact Hop|exact Hu|rewrite Hm; exact E].
Qed.
(** The store IDs of a state, to evaluate *)
Definition unused_b (fresh : string) (s : State) : bool := negb (exists_where (λ _ r, seqb (sto_store_id r) fresh) (memory_stores s)).
Lemma unused_true fresh s : unused_b fresh s = true → unused fresh s.
Proof. unfold unused_b. rewrite negb_true_iff. intros H repo r Hl. apply seqb_false. exact (proj1 (exists_where_false _ _) H _ _ Hl). Qed.
Lemma later_step s now now' : fleb (of_int now) (of_int now') = true → steps (of_int now, s) (of_int now', s).
Proof. apply ws_tick. Qed.

Lemma step_made : steps (of_int 1, small_state) (of_int 1, made).
Proof.
  exact (mutation_step "store" caller_a create_request 1 small_state ltac:(vm_compute; reflexivity) ltac:(vm_compute; discriminate)
    (unused_true "store" small_state ltac:(vm_compute; reflexivity)) eq_refl ltac:(vm_compute; reflexivity)).
Qed.
Lemma step_started : steps (of_int 2, made) (of_int 2, started).
Proof.
  exact (mutation_step "other" caller_a start_request 2 made ltac:(vm_compute; reflexivity) ltac:(vm_compute; discriminate)
    (unused_true "other" made ltac:(vm_compute; reflexivity)) eq_refl ltac:(vm_compute; reflexivity)).
Qed.
Lemma step_reported : steps (of_int 3, started) (of_int 3, reported).
Proof.
  exact (mutation_step "other" caller_a report_request 3 started ltac:(vm_compute; reflexivity) ltac:(vm_compute; discriminate)
    (unused_true "other" started ltac:(vm_compute; reflexivity)) eq_refl ltac:(vm_compute; reflexivity)).
Qed.
Lemma step_accepted : steps (of_int 4, reported) (of_int 4, accepted).
Proof.
  exact (mutation_step "other" caller_b accept_request 4 reported ltac:(vm_compute; reflexivity) ltac:(vm_compute; discriminate)
    (unused_true "other" reported ltac:(vm_compute; reflexivity)) eq_refl ltac:(vm_compute; reflexivity)).
Qed.
Lemma made_steps : rtc steps (of_int 1, small_state) (of_int 2, made).
Proof. apply (rtc_l _ _ _ _ step_made), (rtc_l _ _ _ _ (later_step made 1 2 ltac:(vm_compute; reflexivity))), rtc_refl. Qed.
Lemma reported_steps : rtc steps (of_int 1, small_state) (of_int 4, reported).
Proof.
  transitivity (of_int 2, made); [exact made_steps|].
  apply (rtc_l _ _ _ _ step_started), (rtc_l _ _ _ _ (later_step started 2 3 ltac:(vm_compute; reflexivity))),
    (rtc_l _ _ _ _ step_reported), (rtc_l _ _ _ _ (later_step reported 3 4 ltac:(vm_compute; reflexivity))), rtc_refl.
Qed.
Lemma accepted_steps : rtc steps (of_int 1, small_state) (of_int 4, accepted).
Proof. transitivity (of_int 4, reported); [exact reported_steps|]. apply (rtc_l _ _ _ _ step_accepted), rtc_refl. Qed.
Lemma work_invariant_witness : count_where (λ _ _, true) (work_events accepted) = 4 ∧ work_inv (of_int 4) accepted.
Proof.
  split; [vm_compute; reflexivity|].
  exact (@work_invariant length_sum no_float no_process defaultMemoryLimits (of_int 1) small_state (of_int 4) accepted (small_work_inv (of_int 1)) accepted_steps).
Defined.

#[local] Abbreviation acting := (@work_act length_sum no_float no_process defaultMemoryLimits).
Lemma mutation_act fresh m r now s store id : validate r = true → r_op r ≠ "work-list"%string → unused fresh s → mc_Repository m = work_repo →
  store_of_call work_repo fresh s = store → match mutation fresh m r now s with Ok (res, _) => seqb (wr_WorkID res) id | Err _ => false end = true →
  acting (Mutated store m r id) (of_int now, s) (of_int now, after (mutation fresh m r now) s).
Proof.
  intros Hv Hop Hu Hm <- Hs. unfold after. destruct (mutation fresh m r now s) as [[res s']|e] eqn:E; [|done]. apply seqb_true in Hs as <-. rewrite <-Hm.
  eapply (@wa_mutation length_sum); [exact Hv|exact Hop|exact Hu|rewrite Hm; exact E].
Qed.
Definition accepted_acts : list act :=
  [Mutated "store" caller_a create_request item_id; Apart; Mutated "store" caller_a start_request item_id; Apart; Mutated "store" caller_a report_request item_id; Apart;
   Mutated "store" caller_b accept_request item_id].
Lemma accepted_run : trace_of acting (of_int 1, small_state) accepted_acts (of_int 4, accepted).
Proof.
  assert (∀ s now now', fleb (of_int now) (of_int now') = true → acting Apart (of_int now, s) (of_int now', s)) as Ht by (intros; by apply wa_tick).
  eapply run_cons; [exact (mutation_act "store" caller_a create_request 1 small_state "store" item_id ltac:(vm_compute; reflexivity) ltac:(vm_compute; discriminate)
    (unused_true "store" small_state ltac:(vm_compute; reflexivity)) eq_refl ltac:(vm_compute; reflexivity) ltac:(vm_compute; reflexivity))|].
  eapply run_cons; [exact (Ht made 1 2 ltac:(vm_compute; reflexivity))|].
  eapply run_cons; [exact (mutation_act "other" caller_a start_request 2 made "store" item_id ltac:(vm_compute; reflexivity) ltac:(vm_compute; discriminate)
    (unused_true "other" made ltac:(vm_compute; reflexivity)) eq_refl ltac:(vm_compute; reflexivity) ltac:(vm_compute; reflexivity))|].
  eapply run_cons; [exact (Ht started 2 3 ltac:(vm_compute; reflexivity))|].
  eapply run_cons; [exact (mutation_act "other" caller_a report_request 3 started "store" item_id ltac:(vm_compute; reflexivity) ltac:(vm_compute; discriminate)
    (unused_true "other" started ltac:(vm_compute; reflexivity)) eq_refl ltac:(vm_compute; reflexivity) ltac:(vm_compute; reflexivity))|].
  eapply run_cons; [exact (Ht reported 3 4 ltac:(vm_compute; reflexivity))|].
  eapply run_cons; [exact (mutation_act "other" caller_b accept_request 4 reported "store" item_id ltac:(vm_compute; reflexivity) ltac:(vm_compute; discriminate)
    (unused_true "other" reported ltac:(vm_compute; reflexivity)) eq_refl ltac:(vm_compute; reflexivity) ltac:(vm_compute; reflexivity))|]. apply run_nil.
Qed.

(** ** One operation *)

Lemma small_inv n s : rtc steps (of_int 1, small_state) (of_int n, s) → work_inv (of_int n) s.
Proof.
  intros H. change (work_inv (of_int n, s).1 (of_int n, s).2). remember (of_int n, s) as c eqn:E. clear E. revert H.
  generalize (small_work_inv (of_int 1)). change (work_inv (of_int 1) small_state) with (work_inv (of_int 1, small_state).1 (of_int 1, small_state).2).
  intros Hs H. induction H as [|c1 c2 c3 Hc _ IH]; [exact Hs|]. apply IH. eapply work_step_inv; [exact Hc|exact Hs].
Qed.
#[local] Abbreviation run_apply := (@apply length_sum no_float no_process "store" defaultMemoryLimits).
Lemma start_changes : changes_item start_request.
Proof. split_and!; vm_compute; discriminate. Qed.

(** A start over the revision of another start is refused. *)
Lemma mutation_spec_witness : succeeds (work_body caller_a start_request 2 "store") made = true ∧
  ∃ err, run_apply caller_b start_request (of_int 3) 3000 "again" (after (work_body caller_a start_request 2 "store") made) = Err err.
Proof.
  split; [vm_compute; reflexivity|]. destruct (run_after (work_body caller_a start_request 2 "store") made) as [res E]; [vm_compute; reflexivity|].
  destruct (@mutation_spec length_sum no_float no_process defaultMemoryLimits "store" caller_a start_request (of_int 2) 2000 "print" made res _
    ltac:(vm_compute; reflexivity) start_changes (small_inv 2 made made_steps) E) as (w & new & e & _ & _ & _ & _ & _ & _ & _ & _ & _ & _ & Hno).
  exact (Hno caller_b start_request (of_int 3) 3000 "again" start_changes eq_refl eq_refl).
Defined.
Lemma verdict_spec_witness : succeeds (work_body caller_b accept_request 4 "store") reported = true ∧
  ∃ new, work_items (after (work_body caller_b accept_request 4 "store") reported) !! ("store"%string, text accept_request "work_id") = Some new ∧
    w_Verdict new = Some "accepted"%string ∧ w_VerdictCredit new = false ∧ w_References new = Some (default [] (r_refs accept_request)).
Proof.
  split; [vm_compute; reflexivity|]. destruct (run_after (work_body caller_b accept_request 4 "store") reported) as [res E]; [vm_compute; reflexivity|].
  destruct (@verdict_spec length_sum no_float no_process defaultMemoryLimits "store" caller_b accept_request (of_int 4) 4000 "print" reported res _
    ltac:(vm_compute; reflexivity) ltac:(vm_compute; reflexivity) (small_inv 4 reported reported_steps) E)
    as (w & new & x & y & _ & _ & _ & _ & _ & _ & _ & _ & _ & H1 & _ & H2 & H3 & _ & _ & _ & _ & H4 & _).
  exists new. split; [exact H1|split; [exact H2|split; [exact H3|exact H4]]].
Defined.

(** The create again, with its key *)
Definition keyed_create : tx WorkResult :=
  run_apply caller_a create_request (of_int 1) 1000 (@fingerprint length_sum no_float (mc_Consumer caller_a) create_request).
Definition opened : State := after (ensure_store work_repo "store") small_state.
Definition created : State := after keyed_create opened.
Definition retry_row : option WorkReplayRow := work_replays created !! ("store"%string, mc_Consumer caller_a, text create_request "key").
Definition engines_ok : Engines := mkEngines (λ _, engine_ok) engine_ok engine_ok engine_ok engine_ok.
#[local] Abbreviation again st := (@workMutation length_sum no_float no_process (λ _, None) defaultMemoryLimits "" caller_a create_request (of_int 5) 5000 0 None 0 engines_ok ∅ st).
Lemma retry_checks : match retry_row with Some q => @retry_allowed length_sum defaultMemoryLimits caller_a create_request (of_int 5) 5000 q created | None => False end.
Proof. vm_compute. split_and!; reflexivity. Qed.
Lemma retry_of q : retry_row = Some q → @retry_allowed length_sum defaultMemoryLimits caller_a create_request (of_int 5) 5000 q created.
Proof. pose proof retry_checks as H. intros E. rewrite E in H. exact H. Qed.
Lemma retry_returns_witness : succeeds keyed_create opened = true ∧ ∃ res, again (mkStore created 1000 defaultMaxPages None) =
  (Ok (res <| wr_Duplicate := true |>), mkStore created 1000 defaultMaxPages None, ∅).
Proof.
  assert (succeeds keyed_create opened = true) as Hs by (vm_compute; reflexivity). split; [exact Hs|].
  destruct (run_after keyed_create opened Hs) as [res E].
  destruct (@retry_returns length_sum no_float no_process (λ _, None) defaultMemoryLimits "store" caller_a create_request (of_int 1) 1000 opened res created
    ltac:(vm_compute; reflexivity) E) as (q & Hq & Hr). exists res.
  pose proof (Hr "" caller_a create_request (of_int 5) 5000 0 None 0%nat engines_ok ∅ (mkStore created 1000 defaultMaxPages None) eq_refl eq_refl
    ltac:(vm_compute; reflexivity) eq_refl ltac:(vm_compute; reflexivity) Hq (retry_of q Hq)) as H.
  rewrite H. destruct (decide _) as [_|Hn]; [reflexivity|]. destruct (Hn (conj eq_refl eq_refl)).
Defined.
