(* ===== verification/Library.v ===== *)
(** * The library catalog and its decisions (internal/library)

    The items that the binary carries, what a family reads of them, and the reported outcome of
    an adoption.  The decoding of JSON texts is a parameter; the encodings are written out. *)

From S2P Require Import Prelude GoString GoFloat Schema Sql Label Storage Names Cycles Launches Leases.
Open Scope Z_scope.

(** ** The catalog (catalog.go) *)

Record FactField := mkFactField { ff_Heading : string; ff_Required : bool; ff_Default : option string }.
Record Facts := mkFacts { fa_Version : Z; fa_Filename : string; fa_Fields : list FactField }.
Record Destination := mkDestination {
  de_Family : string; de_Scope : string; de_Root : string; de_Path : string; de_Discovery : string; de_Evidence : string }.
Record Item := mkItem {
  it_ID : string; it_Kind : string; it_Name : string; it_Description : string; it_Purpose : string; it_RequiringRelease : string;
  it_FeatureRequirements : list string; it_Destinations : list Destination; it_Facts : option Facts; it_Content : string; it_ContentDigest : string }.
#[export] Instance Item_eta : Eta Item := λ r,
  mkItem (it_ID r) (it_Kind r) (it_Name r) (it_Description r) (it_Purpose r) (it_RequiringRelease r) (it_FeatureRequirements r) (it_Destinations r)
    (it_Facts r) (it_Content r) (it_ContentDigest r).
Record Catalog := mkCatalog { ca_Version : Z; ca_Items : list Item; ca_Digest : string }.
Record Link := mkLink { li_Path : string; li_Target : string }.
Record Command := mkCommand { cm_Path : string; cm_Content : string }.

Definition MaxItems : Z := 32.
Definition MaxItemBytes : Z := Z.shiftl 64 10.
Definition MaxDecisionBytes : Z := 8192.
Definition MaxTargets : Z := 32.
Definition DefaultPageSize : Z := 16.
Definition MaxPageBytes : Z := Z.shiftl 1 20.
Definition Families : list string := ["agy"; "claude"; "codex"; "deepseek"; "grok"; "opencode"]%string.
Definition Features : list string := ["peer-messaging"; "work-claims"]%string.

(** [digest] *)
Definition digest `{Sha256} (data : bytes) : string := of_bytes (hex_encode (sha256 data)).

(** *** The patterns of names *)

Definition lower_digit_hyphen (a : ascii) : bool := is_lower a || is_digit a || is_hyphen a.
(** [itemID]: (skill|setup) and a name of at most 64 characters *)
Definition itemID (id : string) : bool :=
  let name_ok (name : bytes) := (1 <=? Z.of_nat (length name)) && (Z.of_nat (length name) <=? 64) && forallb lower_digit_hyphen name in
  let b := to_bytes id in
  bool_decide (take 6 b = to_bytes "skill.") && name_ok (drop 6 b) || bool_decide (take 6 b = to_bytes "setup.") && name_ok (drop 6 b).
(** [targetPattern]: one or two such names with a leading letter *)
Definition target_name (b : bytes) : bool :=
  match b with a :: r => is_lower a && (Z.of_nat (length r) <=? 63) && forallb lower_digit_hyphen r | [] => false end.
Fixpoint cut_dot (b : bytes) : bytes * option bytes :=
  match b with
  | [] => ([], None)
  | a :: r => if code a =? 46 then ([], Some r) else let '(x, rest) := cut_dot r in (a :: x, rest)
  end.
Definition targetPattern (id : string) : bool :=
  let '(x, rest) := cut_dot (to_bytes id) in target_name x && match rest with Some y => target_name y | None => true end.
Definition ValidDigest (value : string) : bool := (len value =? 64) && forallb is_lower_hex (to_bytes value).

(** ** Reading (query.go) *)

Definition forFamily (item : Item) (family : string) : Item :=
  item <| it_Destinations := filter (λ d, seqb (de_Family d) family = true) (it_Destinations item) |>.
Inductive library_error := ErrInvalidQuery | ErrItemNotFound | ErrUnsupportedScope | ErrInvalidDecision.
(** [Catalog.Read], the item of the answer *)
Definition Read (c : Catalog) (family id : string) : result library_error Item :=
  if negb (one_of family Families) || negb (itemID id) then Err ErrInvalidQuery
  else match head (filter (λ item, seqb (it_ID item) id = true) (ca_Items c)) with
       | Some item => Ok (forFamily item family)
       | None => Err ErrItemNotFound
       end.

(** *** Encodings *)

Local Open Scope string_scope.
Definition omit_empty_text (name v : string) : list (string * string) := if seqb v "" then [] else [(name, json_string v)].
Definition encoded_field (f : FactField) : string := json_object (
  [("heading", json_string (ff_Heading f)); ("required", json_bool (ff_Required f))] ++
  match ff_Default f with Some v => [("default", json_string v)] | None => [] end).
Definition encoded_facts (f : Facts) : string := json_object
  [("version", itoa (fa_Version f)); ("filename", json_string (fa_Filename f)); ("fields", json_array (encoded_field <$> fa_Fields f))].
Definition encoded_destination (d : Destination) : string := json_object (
  [("family", json_string (de_Family d)); ("scope", json_string (de_Scope d))] ++ omit_empty_text "root" (de_Root d) ++
  omit_empty_text "path" (de_Path d) ++ [("discovery", json_string (de_Discovery d)); ("evidence", json_string (de_Evidence d))]).
Definition encoded_item (i : Item) : string := json_object (
  [("id", json_string (it_ID i)); ("kind", json_string (it_Kind i)); ("name", json_string (it_Name i)); ("description", json_string (it_Description i));
   ("purpose", json_string (it_Purpose i)); ("requiring_release", json_string (it_RequiringRelease i));
   ("feature_requirements", json_array (json_string <$> it_FeatureRequirements i));
   ("destinations", json_array (encoded_destination <$> it_Destinations i))] ++
  match it_Facts i with Some f => [("repository_facts", encoded_facts f)] | None => [] end ++ omit_empty_text "content" (it_Content i) ++
  [("content_digest", json_string (it_ContentDigest i))]).
Local Close Scope string_scope.

(** *** Pages *)

Record Page := mkPage { pg_Digest : string; pg_Items : list Item; pg_More : bool; pg_NextAfter : string }.
(** The items that fit one page; [None] is an item that fits no page. *)
Fixpoint page_items (family : string) (used : Z) (items : list Item) : option (list Item) :=
  match items with
  | [] => Some []
  | item :: items =>
      let item := (forFamily item family) <| it_Content := ""%string |> in
      let size := len (encoded_item item) in
      if MaxPageBytes - 4096 <? size then None
      else if MaxPageBytes - 4096 <? used + size + 1 then Some []
      else rest ← page_items family (used + size + 1) items; Some (item :: rest)
  end.
Fixpoint index_of (id : string) (items : list Item) : option nat :=
  match items with
  | [] => None
  | item :: items => if seqb (it_ID item) id then Some 0%nat else S <$> index_of id items
  end.
(** [Catalog.List] *)
Definition List (c : Catalog) (family after : string) (limit : Z) : result library_error Page :=
  if negb (one_of family Families) || (limit <? 0) || (MaxItems <? limit) then Err ErrInvalidQuery
  else
    let limit := if limit =? 0 then DefaultPageSize else limit in
    match (if seqb after "" then Some 0%nat
           else if negb (itemID after) then None else S <$> index_of after (ca_Items c)) with
    | None => Err ErrInvalidQuery
    | Some start =>
        match page_items family 0 (take (Z.to_nat limit) (drop start (ca_Items c))) with
        | None => Err ErrInvalidQuery
        | Some items =>
            let end_ := (start + length items)%nat in
            let more := bool_decide (end_ < length (ca_Items c))%nat in
            Ok (mkPage (ca_Digest c) items more
                  (if more then match ca_Items c !! (end_ - 1)%nat with Some item => it_ID item | None => ""%string end else ""%string))
        end
    end.

(** ** Targets (targets.go) *)

Record Target := mkTarget { ta_ID : string; ta_Path : string; ta_Kind : string; ta_Expected : string }.
Definition safeCatalogPath (name : string) : bool :=
  negb (seqb name "") && negb (seqb name ".") && negb (has_prefix name "/") && seqb (of_bytes (clean (to_bytes name))) name &&
  negb (seqb name "..") && negb (has_prefix name "../") && negb (contains_any name [chr 92; chr 0; chr 13; chr 10]).

Section decoded.
(** The decoding of the link and command descriptors of a setup item *)
Variable decode_links : string → option (list Link).
Variable decode_commands : string → option (list Command).

Definition link_target (link : Link) : option Target :=
  name ← (if seqb (li_Path link) ".agents/skills" then Some "link.agents"%string
          else if seqb (li_Path link) ".codex/skills" then Some "link.codex"%string
          else if seqb (li_Path link) ".claude/skills" then Some "link.claude"%string else None);
  if seqb (li_Target link) "../agents/skills" then Some (mkTarget name (li_Path link) "link" (li_Target link)) else None.
Fixpoint command_targets (seen : list string) (commands : list Command) : option (list Target) :=
  match commands with
  | [] => Some []
  | command :: commands =>
      let name := trim_suffix (of_bytes (base (to_bytes (cm_Path command)))) ".md" in
      let id := "command." +:+ name in
      if negb (targetPattern id) || negb (seqb (cm_Path command) (".opencode/commands/" +:+ name +:+ ".md")) || one_of id seen ||
         seqb (cm_Content command) "" || (MaxItemBytes <? len (cm_Content command)) then None
      else rest ← command_targets (id :: seen) commands; Some (mkTarget id (cm_Path command) "file" (cm_Content command) :: rest)
  end.
(** [Catalog.Targets] *)
Definition Targets (c : Catalog) (family scope id : string) : result library_error (list Target) :=
  match Read c family id with
  | Err e => Err e
  | Ok item =>
      match head (filter (λ d, seqb (de_Scope d) scope && negb (seqb (de_Discovery d) "collision-only") = true) (it_Destinations item)) with
      | None => Err ErrUnsupportedScope
      | Some destination =>
          if seqb scope "machine" && (negb (seqb (de_Discovery destination) "verified") || negb (seqb (de_Root destination) "codex-home"))
          then Err ErrUnsupportedScope
          else if negb (safeCatalogPath (de_Path destination)) then Err ErrInvalidQuery
          else if seqb (it_Kind item) "skill" then Ok [mkTarget "skill" (de_Path destination) "file" (it_Content item)]
          else if seqb (it_ID item) "setup.discovery-links" then
            match decode_links (it_Content item) with
            | Some links =>
                if (Z.of_nat (length links) =? 0) || (MaxTargets <? Z.of_nat (length links)) then Err ErrInvalidQuery
                else match mapM link_target links with Some l => Ok l | None => Err ErrInvalidQuery end
            | None => Err ErrInvalidQuery
            end
          else if seqb (it_ID item) "setup.opencode-commands" then
            match decode_commands (it_Content item) with
            | Some commands =>
                if (Z.of_nat (length commands) =? 0) || (MaxTargets <? Z.of_nat (length commands)) then Err ErrInvalidQuery
                else match command_targets [] commands with Some l => Ok l | None => Err ErrInvalidQuery end
            | None => Err ErrInvalidQuery
            end
          else if seqb (it_ID item) "setup.guidance" then Ok [mkTarget "fragment" (de_Path destination) "fragment" (it_Content item)]
          else if seqb (it_ID item) "setup.shared-instructions" || seqb (it_ID item) "setup.permissions"
          then Ok [mkTarget "file" (de_Path destination) "file" (it_Content item)]
          else Err ErrInvalidQuery
      end
  end.
End decoded.

(** ** Decisions (decision.go, decision_current.go) *)

Definition DecisionMarker : string := "koinon-library-decision".
Definition DecisionVersion : Z := 1.
Record TargetDigest := mkTargetDigest { td_ID : string; td_Digest : string }.
#[export] Instance TargetDigest_eq_dec : EqDecision TargetDigest.
Proof. solve_decision. Defined.
(** The three lists of targets are nil ([None]) or a slice. *)
Record Decision := mkDecision {
  d_Marker : string; d_Version : Z; d_ItemID : string; d_Family : string; d_Scope : string; d_ScopeDigest : string; d_CatalogDigest : string;
  d_ItemDigest : string; d_Kind : string; d_Choice : string; d_Evidence : string;
  d_Before : option (list TargetDigest); d_Result : option (list TargetDigest); d_Adopted : option (list TargetDigest); d_SchemaDigest : string }.
#[export] Instance Decision_eta : Eta Decision := λ r,
  mkDecision (d_Marker r) (d_Version r) (d_ItemID r) (d_Family r) (d_Scope r) (d_ScopeDigest r) (d_CatalogDigest r) (d_ItemDigest r) (d_Kind r)
    (d_Choice r) (d_Evidence r) (d_Before r) (d_Result r) (d_Adopted r) (d_SchemaDigest r).

Abbreviation targets_of o := (default (@nil TargetDigest) o).
(** [CheckTargets] *)
Definition CheckTargets (declared : list string) (recorded : list TargetDigest) : bool := forallb (λ t, one_of (td_ID t) declared) recorded.
Fixpoint distinct_targets (seen : list string) (l : list TargetDigest) : bool :=
  match l with
  | [] => true
  | t :: l => targetPattern (td_ID t) && negb (one_of (td_ID t) seen) && (seqb (td_Digest t) "" || ValidDigest (td_Digest t)) &&
              distinct_targets (td_ID t :: seen) l
  end.
Definition validTargets (l : list TargetDigest) : bool := (Z.of_nat (length l) <=? MaxTargets) && distinct_targets [] l.
(** [Decision.Validate] *)
Definition Validate (d : Decision) : bool :=
  seqb (d_Marker d) DecisionMarker && (d_Version d =? DecisionVersion) && itemID (d_ItemID d) && one_of (d_Family d) Families &&
  one_of (d_Scope d) ["machine"; "project"]%string && ValidDigest (d_ScopeDigest d) && ValidDigest (d_CatalogDigest d) && ValidDigest (d_ItemDigest d) &&
  one_of (d_Choice d) ["adopted"; "declined"]%string && one_of (d_Kind d) ["item"; "repository-facts"]%string &&
  negb (seqb (d_Kind d) "repository-facts" && (negb (seqb (d_Scope d) "project") || negb (ValidDigest (d_SchemaDigest d)))) &&
  negb (seqb (d_Kind d) "item" && negb (seqb (d_SchemaDigest d) "")) &&
  valid_string (d_Evidence d) && negb (blank (d_Evidence d)) && (len (d_Evidence d) <=? 512) && negb (existsb is_control (runes (d_Evidence d))) &&
  validTargets (targets_of (d_Before d)) && validTargets (targets_of (d_Result d)) && validTargets (targets_of (d_Adopted d)) &&
  negb (seqb (d_Choice d) "adopted" && bool_decide (length (targets_of (d_Result d)) = 0%nat)).

(** [OrderedTargets], [slices.Clone]: a stable order of names that are distinct where it counts *)
Definition OrderedTargets (o : option (list TargetDigest)) : list TargetDigest := order_by_name td_ID (targets_of o).

Local Open Scope string_scope.
Definition encoded_target (t : TargetDigest) : string := json_object [("id", json_string (td_ID t)); ("digest", json_string (td_Digest t))].
Definition encoded_targets (o : option (list TargetDigest)) : string := json_or_null (λ l, json_array (encoded_target <$> l)) o.
Definition encoded_decision (d : Decision) : string := json_object (
  [("library", json_string (d_Marker d)); ("version", itoa (d_Version d)); ("item_id", json_string (d_ItemID d)); ("family", json_string (d_Family d));
   ("scope", json_string (d_Scope d)); ("scope_digest", json_string (d_ScopeDigest d)); ("catalog_digest", json_string (d_CatalogDigest d));
   ("item_digest", json_string (d_ItemDigest d)); ("kind", json_string (d_Kind d)); ("decision", json_string (d_Choice d));
   ("evidence", json_string (d_Evidence d)); ("pre_edit", encoded_targets (d_Before d)); ("result", encoded_targets (d_Result d));
   ("adopted", encoded_targets (d_Adopted d))] ++ omit_empty_text "schema_digest" (d_SchemaDigest d)).
Local Close Scope string_scope.
Definition too_large (d : Decision) (data : string) : bool := (MaxItemBytes <? len data) || seqb (d_Scope d) "machine" && (MaxDecisionBytes <? len data).
(** [Decision.Encode]: the canonical text of a valid decision *)
Definition ordered (d : Decision) : Decision :=
  d <| d_Before := Some (OrderedTargets (d_Before d)) |> <| d_Result := Some (OrderedTargets (d_Result d)) |> <| d_Adopted := Some (OrderedTargets (d_Adopted d)) |>.
Definition Encode (d : Decision) : option string :=
  if negb (Validate d) then None
  else let data := encoded_decision (ordered d) in if too_large d data then None else Some data.
(** [PreserveBaseline] *)
Definition PreserveBaseline (d : Decision) (previous : option Decision) : Decision :=
  d <| d_Adopted := if seqb (d_Choice d) "adopted" then d_Result d else previous ≫= d_Adopted |>.

Section current.
Context `{SHA : Sha256}.
Variable decode_links : string → option (list Link).
Variable decode_commands : string → option (list Command).
(** A strict decoding of one JSON value into a decision *)
Variable decode_decision : string → option Decision.

(** [ParseDecision] *)
Definition ParseDecision (data : string) : option Decision :=
  if (len data =? 0) || (MaxItemBytes <? len data) || negb (valid_string data) then None
  else d ← decode_decision data;
       if Validate d && negb (seqb (d_Scope d) "machine" && (MaxDecisionBytes <? len data)) then Some d else None.

(** [FactsDigest], [ScopeDigest] *)
Definition FactsDigest (f : Facts) : string := digest (to_bytes (encoded_facts f)).
Definition ScopeDigest (scope root : string) : string := digest (to_bytes (json_array [json_string scope; json_string root])).

(** [ValidateCurrent] *)
Definition all_targets (d : Decision) (declared : list string) : bool :=
  CheckTargets declared (targets_of (d_Before d)) && CheckTargets declared (targets_of (d_Result d)) && CheckTargets declared (targets_of (d_Adopted d)).
Definition ValidateCurrent (c : Catalog) (d : Decision) (family scope scopeDigest : string) : bool :=
  Validate d && seqb (d_Family d) family && seqb (d_Scope d) scope && seqb (d_ScopeDigest d) scopeDigest && seqb (d_CatalogDigest d) (ca_Digest c) &&
  match Read c family (d_ItemID d) with
  | Err _ => false
  | Ok item =>
      seqb (d_ItemDigest d) (it_ContentDigest item) &&
      if seqb (d_Kind d) "repository-facts" then
        match it_Facts item with Some f => seqb (d_SchemaDigest d) (FactsDigest f) | None => false end && all_targets d ["facts"%string]
      else
        match Targets decode_links decode_commands c family scope (d_ItemID d) with
        | Err _ => false
        | Ok targets => all_targets d (ta_ID <$> targets) &&
                        negb (seqb (d_Choice d) "adopted" && negb (bool_decide (length (targets_of (d_Result d)) = length targets)))
        end
  end.
End current.
