(* ===== verification/Markdown.v ===== *)
(** * The text of a card as HTML (internal/core/markdown.go)

    The dashboard shows the text of a decision card through a small renderer of its own.  The
    writer of a card is an agent, so what the renderer writes must be the fixed tags around
    escaped text, whatever the text is. *)

From S2P Require Import Prelude GoString.
Open Scope Z_scope.

(** ** What it uses of strings, unicode/utf8 and html/template *)

(** utf8.DecodeRuneInString and utf8.DecodeLastRuneInString; the last rune is the one whose bytes
    end the string. *)
Definition first_rune (b : bytes) : Z :=
  match b with
  | [] => 65533
  | a :: _ => if code a <? 128 then code a else match rune_len b with O => 65533 | n => rune_value (take n b) end
  end.
Definition tail_bytes (n : nat) (b : bytes) : bytes := drop (length b - n) b.
Definition multi_len (b : bytes) : nat := match b with a :: _ => if code a <? 128 then 0 else rune_len b | [] => 0 end.
Definition last_len (b : bytes) : nat :=
  match last b with
  | None => 0
  | Some a => if code a <? 128 then 1 else from_option id 1%nat (list_find (λ n, multi_len (tail_bytes n b) = n) [2; 3; 4]%nat ≫= λ p, Some p.2)
  end.
Definition last_rune (b : bytes) : Z := first_rune (tail_bytes (last_len b) b).
Definition first_len (b : bytes) : nat :=
  match b with [] => 0 | a :: _ => if code a <? 128 then 1 else Nat.max 1 (rune_len b) end.
(** strings.TrimSpace *)
Fixpoint trim_left_space (fuel : nat) (b : bytes) : bytes :=
  match fuel with
  | O => b
  | S fuel => match b with [] => [] | _ => if is_unicode_space (first_rune b) then trim_left_space fuel (drop (first_len b) b) else b end
  end.
Fixpoint trim_right_space (fuel : nat) (b : bytes) : bytes :=
  match fuel with
  | O => b
  | S fuel => match b with [] => [] | _ => if is_unicode_space (last_rune b) then trim_right_space fuel (take (length b - last_len b) b) else b end
  end.
Definition trim_space (b : bytes) : bytes := let b := trim_left_space (length b) b in trim_right_space (length b) b.
(** strings.Split(text, a) for one byte, and strings.Join *)
Fixpoint split_at (a : ascii) (b : bytes) : list bytes :=
  match b with
  | [] => [[]]
  | c :: b => if bool_decide (c = a) then [] :: split_at a b else match split_at a b with x :: l => (c :: x) :: l | [] => [[c]] end
  end.
Fixpoint join_with (a : ascii) (l : list bytes) : bytes :=
  match l with [] => [] | [x] => x | x :: l => x ++ a :: join_with a l end.
(** strings.Index *)
Fixpoint index (sub b : bytes) : option nat :=
  match drop_prefix sub b with
  | Some _ => Some 0%nat
  | None => match b with [] => None | _ :: b => S <$> index sub b end
  end.
(** The number of bytes [a] that [b] starts with *)
Fixpoint run_of (a : ascii) (b : bytes) : nat :=
  match b with c :: b => if bool_decide (c = a) then S (run_of a b) else 0%nat | [] => 0%nat end.
(** template.HTMLEscape *)
Definition html_byte (a : ascii) : bytes :=
  if code a =? 0 then [chr 239; chr 191; chr 189]
  else if code a =? 34 then to_bytes "&#34;"
  else if code a =? 39 then to_bytes "&#39;"
  else if code a =? 38 then to_bytes "&amp;"
  else if code a =? 60 then to_bytes "&lt;"
  else if code a =? 62 then to_bytes "&gt;"
  else [a].
Definition html_escape (b : bytes) : bytes := b ≫= html_byte.

Example go_text_examples :
  of_bytes (trim_space (to_bytes "  a b " ++ [chr 194; chr 160])) = "a b"%string ∧ index (to_bytes "b") (to_bytes "abab") = Some 1%nat ∧
  of_bytes (html_escape (to_bytes "a<b>&'")) = "a&lt;b&gt;&amp;&#39;"%string ∧ length (split_at "a"%char (to_bytes "xaya")) = 3%nat.
Proof. vm_compute. done. Qed.

Definition tick : ascii := "`"%char.
Definition space : ascii := " "%char.
Definition newline : ascii := chr 10.

Section markdown.
(** unicode.IsLetter or unicode.IsDigit, of a rune outside ASCII *)
Variable word : Z → bool.

Definition wordRune (r : Z) : bool :=
  (r =? 95) || (if r <? 128 then ((48 <=? r) && (r <=? 57)) || ((65 <=? r) && (r <=? 90)) || ((97 <=? r) && (r <=? 122)) else word r).

(** ** Lines *)

Fixpoint closing (fuel : nat) (s : bytes) (n : nat) (from : nat) : option nat :=
  match fuel with
  | O => None
  | S fuel =>
      match index (replicate n tick) (drop from s) with
      | None => None
      | Some j =>
          let j := (from + j)%nat in
          let k := (j + n + run_of tick (drop (j + n) s))%nat in
          if bool_decide (k - j = n)%nat then Some j else closing fuel s n k
      end
  end.
(** [closingTicks]: each run that is longer than [n] is passed, so the length is enough fuel. *)
Definition closingTicks (s : bytes) (n : nat) (missing : gset bytes) : option nat * gset bytes :=
  if bool_decide (replicate n tick ∈ missing) then (None, missing)
  else match closing (S (length s)) s n 0 with Some j => (Some j, missing) | None => (None, {[replicate n tick]} ∪ missing) end.

(** One turn of the loop of [emphasis]: the offset of the closing delimiter *)
Definition emphasis_of (n : nat) (s : bytes) (prev : Z) (missing : gset bytes) : option nat * gset bytes :=
  match s with
  | [] => (None, missing)
  | c :: _ =>
      if bool_decide (length s < 2 * n + 1)%nat || negb (bool_decide (run_of c (take n s) = n)) then (None, missing)
      else
        let delim := take n s in
        let next := drop n s in
        if bool_decide (delim ∈ missing) || bool_decide (head next = Some space) || bool_decide (head next = Some c) || (bool_decide (c = "_"%char) && wordRune prev) then (None, missing)
        else match index delim next with
             | None => (None, {[delim]} ∪ missing)
             | Some e =>
                 if bool_decide (e = 0%nat) || bool_decide (next !! (e - 1)%nat = Some space) then (None, missing)
                 else if bool_decide (c = "_"%char) && wordRune (first_rune (drop (n + e + n) s)) then (None, missing)
                 else (Some e, missing)
             end
  end.
Definition emphasis (s : bytes) (prev : Z) (missing : gset bytes) : option (nat * nat) * gset bytes :=
  match emphasis_of 2 s prev missing with
  | (Some e, missing) => (Some (2, e)%nat, missing)
  | (None, missing) => match emphasis_of 1 s prev missing with (Some e, missing) => (Some (1, e)%nat, missing) | (None, missing) => (None, missing) end
  end.
(** The spaces at the ends of a code span *)
Definition code_span (b : bytes) : bytes :=
  if bool_decide (1 < length b)%nat && bool_decide (head b = Some space) && bool_decide (last b = Some space) && negb (bool_decide (drop_while (λ a, bool_decide (a = space)) b = []))
  then take (length b - 2) (drop 1 b) else b.
Definition tag_name (n : nat) : bytes := to_bytes (if bool_decide (n = 2%nat) then "strong" else "em").
Definition open_tag (t : bytes) : bytes := "<"%char :: t ++ [">"%char].
Definition close_tag (t : bytes) : bytes := to_bytes "</" ++ t ++ [">"%char].
Definition is_mark (a : ascii) : bool := bool_decide (a ∈ [tick; "*"%char; "_"%char]).
(** strings.IndexAny: the text before the first mark *)
Fixpoint plain_len (b : bytes) : nat := match b with [] => 0%nat | a :: b => if is_mark a then 0%nat else S (plain_len b) end.
(** [writeInline]: every turn and every line within consumes a byte at least. *)
Fixpoint writeInline (fuel : nat) (missing : gset bytes) (prev : Z) (s : bytes) : bytes :=
  match fuel with
  | O => []
  | S fuel =>
      let i := plain_len s in
      let prev := if bool_decide (i = 0%nat) then prev else last_rune (take i s) in
      html_escape (take i s) ++
      match drop i s with
      | [] => []
      | (c :: _) as s =>
          if bool_decide (c = tick) then
            let n := run_of tick s in
            match closingTicks (drop n s) n missing with
            | (Some e, missing) =>
                open_tag (to_bytes "code") ++ html_escape (code_span (take e (drop n s))) ++ close_tag (to_bytes "code") ++ writeInline fuel missing (code tick) (drop (n + e + n) s)
            | (None, missing) => take n s ++ writeInline fuel missing (code tick) (drop n s)
            end
          else
            match emphasis s prev missing with
            | (Some (n, e), missing) =>
                open_tag (tag_name n) ++ writeInline fuel ∅ 0 (take e (drop n s)) ++ close_tag (tag_name n) ++ writeInline fuel missing (code c) (drop (n + e + n) s)
            | (None, missing) => c :: writeInline fuel missing (code c) (drop 1 s)
            end
      end
  end.
Definition write_line (s : bytes) : bytes := writeInline (S (length s)) ∅ 0 s.
(** [writeLines] *)
Fixpoint writeLines (lines : list bytes) : bytes :=
  match lines with
  | [] => []
  | [line] => write_line line
  | line :: lines => write_line line ++ to_bytes "<br>" ++ writeLines lines
  end.

(** ** Blocks *)

Record markdownList := mkList { ml_ordered : bool; ml_start : Z; ml_items : list (list bytes) }.
Definition start_tag (n : Z) : bytes := to_bytes "<ol start=" ++ [chr 34] ++ to_bytes (itoa n) ++ [chr 34] ++ to_bytes ">".
(** [write] *)
Definition write_list (l : markdownList) : bytes :=
  (if ml_ordered l then if ml_start l =? 1 then to_bytes "<ol>" else start_tag (ml_start l) else to_bytes "<ul>") ++
  (ml_items l ≫= λ item, to_bytes "<li>" ++ writeLines item ++ to_bytes "</li>") ++
  (if ml_ordered l then to_bytes "</ol>" else to_bytes "</ul>").
(** [fenceOf] *)
Definition fence_with (c : ascii) (line : bytes) : option bytes :=
  let n := run_of c line in
  if bool_decide (3 <= n)%nat && (negb (bool_decide (c = tick)) || negb (bool_decide (tick ∈ drop n line))) then Some (take n line) else None.
Definition fenceOf (line : bytes) : option bytes :=
  match fence_with tick line with Some f => Some f | None => fence_with "~"%char line end.
(** [listItem] *)
Fixpoint digits_len (n : nat) (b : bytes) : nat :=
  match n, b with S n, a :: b => if is_digit a then S (digits_len n b) else 0%nat | _, _ => 0%nat end.
Definition listItem (line : bytes) : option (bool * Z * bytes) :=
  match line with
  | a :: b :: rest =>
      if bool_decide (a ∈ ["-"; "*"; "+"]%char) && bool_decide (b = space) then Some (false, 0, trim_space rest)
      else
        let n := digits_len 9 line in
        match drop n line with
        | m :: b :: rest => if bool_decide (0 < n)%nat && bool_decide (m ∈ ["."; ")"]%char) && bool_decide (b = space) then Some (true, digits_value (take n line), trim_space rest) else None
        | _ => None
        end
  | _ => None
  end.
(** The code of a fenced block and the lines after it; a block without its end goes to the end of
    the text. *)
Definition closes (fence : bytes) (line : bytes) : bool :=
  let close := trim_space line in
  match fence with c :: _ => bool_decide (is_Some (drop_prefix fence close)) && bool_decide (run_of c close = length close) | [] => true end.
Fixpoint code_block (fence : bytes) (lines : list bytes) : list bytes * list bytes :=
  match lines with
  | [] => ([], [])
  | line :: lines => if closes fence line then ([], lines) else let '(code, rest) := code_block fence lines in (line :: code, rest)
  end.
Definition flushPara (para : list bytes) : bytes := match para with [] => [] | _ => to_bytes "<p>" ++ writeLines para ++ to_bytes "</p>" end.
Definition flushList (l : option markdownList) : bytes := match l with Some l => write_list l | None => [] end.
Definition add_item (ordered : bool) (start : Z) (rest : bytes) (l : markdownList) : markdownList := mkList (ml_ordered l) (ml_start l) (ml_items l ++ [[rest]]).
(** A following line continues the last item. *)
Definition continue_item (line : bytes) (l : markdownList) : markdownList :=
  mkList (ml_ordered l) (ml_start l) (match last (ml_items l) with Some item => take (length (ml_items l) - 1) (ml_items l) ++ [item ++ [line]] | None => [] end).
Definition indent (line : bytes) : nat := run_of space line.
(** The loop over the lines; every turn consumes one at least. *)
Fixpoint render_lines (fuel : nat) (para : list bytes) (l : option markdownList) (lines : list bytes) : bytes :=
  match fuel, lines with
  | S fuel, line :: lines =>
      let trimmed := drop (indent line) line in
      let shallow := bool_decide (indent line < 4)%nat in
      match (if shallow then fenceOf trimmed else None) with
      | Some fence =>
          let '(code, rest) := code_block fence lines in
          flushPara para ++ flushList l ++ to_bytes "<pre><code>" ++ html_escape (join_with newline code) ++ to_bytes "</code></pre>" ++ render_lines fuel [] None rest
      | None =>
          if bool_decide (trim_space line = []) then flushPara para ++ flushList l ++ render_lines fuel [] None lines
          else match (if shallow then listItem trimmed else None) with
               | Some (ordered, start, rest) =>
                   match l with
                   | Some o => if Bool.eqb (ml_ordered o) ordered then flushPara para ++ render_lines fuel [] (Some (add_item ordered start rest o)) lines
                               else flushPara para ++ flushList l ++ render_lines fuel [] (Some (mkList ordered start [[rest]])) lines
                   | None => flushPara para ++ render_lines fuel [] (Some (mkList ordered start [[rest]])) lines
                   end
               | None =>
                   match l with
                   | Some o => render_lines fuel para (Some (continue_item (trim_space line) o)) lines
                   | None => render_lines fuel (para ++ [line]) None lines
                   end
               end
      end
  | _, _ => flushPara para ++ flushList l
  end.
Definition renderMarkdown (text : string) : string :=
  let lines := split_at newline (to_bytes text) in
  of_bytes (render_lines (length lines) [] None lines).
End markdown.

Definition no_letters (_ : Z) : bool := false.
Example render_examples :
  renderMarkdown no_letters "a **b** <i>_c_</i> `x  y`" = "<p>a <strong>b</strong> &lt;i&gt;<em>c</em>&lt;/i&gt; <code>x  y</code></p>"%string ∧
  renderMarkdown no_letters (of_bytes (join_with newline (to_bytes <$> ["2. one"; "more"; "3. two"; "```go"; "<x>"; "```"; "t **u"]%string))) =
    of_bytes (to_bytes "<ol start=" ++ [chr 34; "2"%char; chr 34] ++ to_bytes "><li>one<br>more</li><li>two</li></ol><pre><code>&lt;x&gt;</code></pre><p>t **u</p>").
Proof. vm_compute. done. Qed.

(** ** What the renderer may write

    Escaped text with the text that it shows; the spans, items and blocks that the dashboard is
    allowed to show, each with its text.  No other byte sequence belongs to them. *)

Definition entities : list (ascii * bytes) :=
  [(chr 0, [chr 239; chr 191; chr 189]); (chr 34, to_bytes "&#34;"); (chr 39, to_bytes "&#39;"); ("&"%char, to_bytes "&amp;"); ("<"%char, to_bytes "&lt;"); (">"%char, to_bytes "&gt;")].
Inductive escaped : bytes → bytes → Prop :=
| escaped_nil : escaped [] []
| escaped_plain a t b : a ∉ entities.*1 → escaped t b → escaped (a :: t) (a :: b)
| escaped_entity a e t b : (a, e) ∈ entities → escaped t b → escaped (a :: t) (e ++ b).
Inductive spans : bytes → bytes → Prop :=
| spans_nil : spans [] []
| spans_text t b t' b' : escaped t b → spans t' b' → spans (t ++ t') (b ++ b')
| spans_break t b : spans t b → spans t (to_bytes "<br>" ++ b)
| spans_code t b t' b' : escaped t b → spans t' b' → spans (t ++ t') (to_bytes "<code>" ++ b ++ to_bytes "</code>" ++ b')
| spans_em t b t' b' : spans t b → spans t' b' → spans (t ++ t') (to_bytes "<em>" ++ b ++ to_bytes "</em>" ++ b')
| spans_strong t b t' b' : spans t b → spans t' b' → spans (t ++ t') (to_bytes "<strong>" ++ b ++ to_bytes "</strong>" ++ b').
Inductive items : bytes → bytes → Prop :=
| items_nil : items [] []
| items_one t b t' b' : spans t b → items t' b' → items (t ++ t') (to_bytes "<li>" ++ b ++ to_bytes "</li>" ++ b').
Inductive blocks : bytes → bytes → Prop :=
| blocks_nil : blocks [] []
| blocks_para t b t' b' : spans t b → blocks t' b' → blocks (t ++ t') (to_bytes "<p>" ++ b ++ to_bytes "</p>" ++ b')
| blocks_ul t b t' b' : items t b → blocks t' b' → blocks (t ++ t') (to_bytes "<ul>" ++ b ++ to_bytes "</ul>" ++ b')
| blocks_ol t b t' b' : items t b → blocks t' b' → blocks (t ++ t') (to_bytes "<ol>" ++ b ++ to_bytes "</ol>" ++ b')
| blocks_start n t b t' b' : 0 ≤ n → items t b → blocks t' b' →
    blocks (t ++ t') (start_tag n ++ b ++ to_bytes "</ol>" ++ b')
| blocks_pre t b t' b' : escaped t b → blocks t' b' → blocks (t ++ t') (to_bytes "<pre><code>" ++ b ++ to_bytes "</code></pre>" ++ b').

Lemma html_escape_escaped b : escaped b (html_escape b).
Proof.
  induction b as [|a b IH]; [constructor|]. change (html_escape (a :: b)) with (html_byte a ++ html_escape b).
  unfold html_byte. assert (∀ n, 0 ≤ n < 256 → code a = n → a = chr n) as Hc.
  { intros n Hn <-. unfold code, chr. by rewrite N2Z.id, ascii_N_embedding. }
  repeat match goal with |- context [code a =? ?n] => destruct (Z.eqb_spec (code a) n) as [E|?]; [apply Hc in E; [subst a|lia]; apply escaped_entity; [|exact IH]; apply (bool_decide_unpack _); vm_compute; exact I|] end.
  apply escaped_plain; [|exact IH]. cbn. rewrite !elem_of_cons, elem_of_nil. intros H. repeat (destruct H as [->|H]; [by cbn in *|]). done.
Qed.
Lemma escaped_marks b : Forall (λ a, is_mark a = true) b → escaped b b.
Proof.
  induction 1 as [|a b Ha _ IH]; constructor; [|done]. unfold is_mark in Ha. apply bool_decide_eq_true in Ha. rewrite !elem_of_cons, elem_of_nil in Ha.
  destruct Ha as [->|[->|[->|[]]]]; apply (bool_decide_unpack _); vm_compute; exact I.
Qed.
Lemma escaped_spans t b : escaped t b → spans t b.
Proof. intros H. rewrite <-(app_nil_r t), <-(app_nil_r b). by apply spans_text; [|constructor]. Qed.
Lemma spans_app t b t' b' : spans t b → spans t' b' → spans (t ++ t') (b ++ b').
Proof. intros H H'. induction H; cbn [app]; rewrite <-?app_assoc; [done|by apply spans_text|by apply spans_break|by apply spans_code|by apply spans_em|by apply spans_strong]. Qed.
Lemma items_app t b t' b' : items t b → items t' b' → items (t ++ t') (b ++ b').
Proof. intros H H'. induction H; cbn [app]; rewrite <-?app_assoc; [done|by constructor]. Qed.
Lemma blocks_app t b t' b' : blocks t b → blocks t' b' → blocks (t ++ t') (b ++ b').
Proof. intros H H'. induction H; cbn [app]; rewrite <-?app_assoc; [done|..].
  - by apply blocks_para.
  - by apply blocks_ul.
  - by apply blocks_ol.
  - by apply blocks_start.
  - by apply blocks_pre.
Qed.

Lemma run_of_take a b : take (run_of a b) b = replicate (run_of a b) a.
Proof. induction b as [|c b IH]; cbn; [done|]. case_bool_decide as E; cbn; [by rewrite IH, E|done]. Qed.
Lemma plain_len_mark b c r : drop (plain_len b) b = c :: r → is_mark c = true.
Proof. induction b as [|a b IH]; cbn; [done|]. destruct (is_mark a) eqn:E; [intros [= -> ->]; done|exact IH]. Qed.
Lemma pieces_sublist {A} n e m (s : list A) : take e (drop n s) ++ drop (n + e + m) s `sublist_of` s.
Proof.
  transitivity (take e (drop n s) ++ drop e (drop n s)).
  - apply sublist_app; [done|]. rewrite drop_drop. rewrite <-drop_drop. apply sublist_drop.
  - rewrite take_drop. apply sublist_drop.
Qed.

(** *** The letters that are shown *)


(** The ASCII bytes that are never markup of the subset: no white space, no mark of emphasis or code, no
    fence and no marker of a list; the letters and the brackets of HTML are among them. *)
Definition is_letter (a : ascii) : bool :=
  (code a <? 128) && negb (is_digit a) && negb (bool_decide (a ∈ [chr 9; newline; chr 11; chr 12; chr 13; space; tick; "*"; "_"; "~"; "-"; "+"; "."; ")"]%char)).
Definition letters (b : bytes) : bytes := filter (λ a, is_letter a = true) b.
#[global] Arguments letters : simpl never.
Lemma letter_ascii a : ((128 <=? code a) || (code a <? 128) && is_unicode_space (code a) || is_mark a || is_digit a || bool_decide (a ∈ ["-"; "*"; "+"; "."; ")"; "~"; newline; space]%char)) && is_letter a = false.
Proof. by destruct a as [[] [] [] [] [] [] [] []]; vm_compute. Qed.
Lemma no_letter a : 128 ≤ code a ∨ (code a < 128 ∧ is_unicode_space (code a) = true) ∨ is_mark a = true ∨ is_digit a = true ∨ a ∈ ["-"; "*"; "+"; "."; ")"; "~"; newline; space]%char → is_letter a = false.
Proof.
  intros H. pose proof (letter_ascii a) as Hl. destruct (is_letter a); [|done]. rewrite andb_true_r, !orb_false_iff, andb_false_iff, bool_decide_eq_false, Z.leb_gt, Z.ltb_ge in Hl.
  destruct Hl as [[[[H1 H2] H3] H4] H5]. destruct H as [H|[[Ha Hb]|[H|[H|H]]]]; [lia| |congruence|congruence|done]. destruct H2 as [H2|H2]; [lia|congruence].
Qed.
Lemma letters_app b c : letters (b ++ c) = letters b ++ letters c.
Proof. apply filter_app. Qed.
Lemma letters_none b : Forall (λ a, is_letter a = false) b → letters b = [].
Proof. induction 1 as [|a b Ha _ IH]; [done|]. unfold letters. rewrite filter_cons, decide_False by congruence. exact IH. Qed.
Lemma letters_marks n c : is_mark c = true → letters (replicate n c) = [].
Proof.
  intros Hc. apply letters_none, Forall_replicate, no_letter. by right; right; left.
Qed.
Lemma letters_take_drop n b : letters (take n b) ++ letters (drop n b) = letters b.
Proof. by rewrite <-letters_app, take_drop. Qed.
Lemma drop_prefix_app p b r : drop_prefix p b = Some r → b = p ++ r.
Proof.
  revert b. induction p as [|a p IH]; intros [|c b]; cbn; [by intros [= ->]|by intros [= ->]|done|]. destruct (Ascii.ascii_dec a c) as [->|]; [|done]. by intros ->%IH.
Qed.
Lemma index_app sub b j : index sub b = Some j → ∃ r, drop j b = sub ++ r.
Proof.
  revert j. induction b as [|c b IH]; intros j; cbn [index].
  - destruct (drop_prefix sub []) as [r|] eqn:E; [|done]. intros [= <-]. exists r. by apply drop_prefix_app.
  - destruct (drop_prefix sub (c :: b)) as [r|] eqn:E; [intros [= <-]; exists r; by apply drop_prefix_app|]. intros (j' & H & ->)%fmap_Some. by apply IH.
Qed.
(** The bytes of a space are no letters. *)
Lemma rune_len_high a r n : 128 ≤ code a → rune_len (a :: r) = n → Forall (λ c, 128 ≤ code c) (take n (a :: r)).
Proof.
  intros Ha <-. unfold rune_len.
  destruct r as [|a1 [|a2 [|a3 r]]]; cbn [take valid_utf8 length]; rewrite (proj2 (Z.ltb_ge (code a) 128)) by lia; repeat case_match; cbn [take]; repeat constructor;
    unfold cont in *; rewrite ?negb_true_iff, ?negb_false_iff, ?andb_true_iff, ?andb_false_iff, ?bool_decide_eq_true in *; cbn in *; try lia; try done.
Qed.

Lemma letters_high b : Forall (λ c, 128 ≤ code c) b → letters b = [].
Proof. intros H. apply letters_none. eapply Forall_impl; [exact H|]. intros c Hc. apply no_letter. by left. Qed.
Lemma space_no_letter a r : is_unicode_space (first_rune (a :: r)) = true → letters (take (first_len (a :: r)) (a :: r)) = [].
Proof.
  cbn [first_rune first_len]. destruct (Z.ltb_spec (code a) 128) as [Hlt|Hge].
  - intros Hs. apply letters_none. repeat constructor. apply no_letter. by right; left.
  - destruct (rune_len (a :: r)) as [|n] eqn:En; [done|]. intros _. replace (Nat.max 1 (S n)) with (S n) by lia. apply letters_high. by apply rune_len_high.
Qed.
Lemma last_space_no_letter b : b ≠ [] → is_unicode_space (last_rune b) = true → letters (tail_bytes (last_len b) b) = [].
Proof.
  intros Hb. unfold last_rune. destruct (exists_last Hb) as (c & a & ->). assert (tail_bytes 1 (c ++ [a]) = [a]) as H1.
  { unfold tail_bytes. rewrite length_app. cbn. replace (length c + 1 - 1)%nat with (length c) by lia. by rewrite drop_app_length. }
  unfold last_len. rewrite last_snoc. destruct (Z.ltb_spec (code a) 128) as [Hlt|Hge].
  - rewrite H1. intros Hs%space_no_letter. cbn [first_len] in Hs. rewrite (proj2 (Z.ltb_lt _ _) Hlt) in Hs. exact Hs.
  - destruct (list_find _ _) as [[i n]|] eqn:Ef; cbn [mbind option_bind from_option id snd].
    + apply list_find_Some in Ef as (_ & Hn & _). destruct (tail_bytes n (c ++ [a])) as [|x r] eqn:Et; [done|]. intros _.
      assert (length (x :: r) ≤ n)%nat as Hlen by (rewrite <-Et; unfold tail_bytes; rewrite length_drop; lia). cbn [multi_len] in Hn.
      destruct (Z.ltb_spec (code x) 128) as [Hx|Hx]; [subst n; cbn in Hlen; lia|]. pose proof (rune_len_high _ _ _ Hx Hn) as Hall. rewrite take_ge in Hall by done. by apply letters_high.
    + rewrite H1. cbn [first_rune]. rewrite (proj2 (Z.ltb_ge _ _) Hge). assert (rune_len [a] = 0%nat) as -> by (unfold rune_len; cbn [take valid_utf8 length]; rewrite (proj2 (Z.ltb_ge _ _) Hge); reflexivity). done.
Qed.

Lemma trim_left_letters n b : letters (trim_left_space n b) = letters b.
Proof.
  revert b. induction n as [|n IH]; intros [|a b]; cbn [trim_left_space]; [done..|]. destruct (is_unicode_space _) eqn:E; [|done].
  rewrite IH, <-(letters_take_drop (first_len (a :: b)) (a :: b)). by rewrite (space_no_letter _ _ E).
Qed.
Lemma trim_right_letters n b : letters (trim_right_space n b) = letters b.
Proof.
  revert b. induction n as [|n IH]; intros [|a b]; cbn [trim_right_space]; [done..|]. destruct (is_unicode_space _) eqn:E; [|done].
  rewrite IH, <-(letters_take_drop (length (a :: b) - last_len (a :: b)) (a :: b)). pose proof (last_space_no_letter (a :: b) ltac:(done) E) as Hl. unfold tail_bytes in Hl. by rewrite Hl, app_nil_r.
Qed.
Lemma trim_space_letters b : letters (trim_space b) = letters b.
Proof. unfold trim_space. by rewrite trim_right_letters, trim_left_letters. Qed.
Ltac listed := apply (bool_decide_unpack _); vm_compute; exact I.
Lemma letters_cons a b : letters (a :: b) = letters [a] ++ letters b.
Proof. exact (letters_app [a] b). Qed.
Lemma letters_one a : a ∈ ["-"; "*"; "+"; "."; ")"; "~"; newline; space]%char → letters [a] = [].
Proof. intros Ha. apply letters_none. repeat constructor. apply no_letter. by do 4 right. Qed.
Lemma letters_concat l : letters (concat l) = concat (letters <$> l).
Proof. induction l as [|x l IH]; [done|]. cbn. by rewrite letters_app, IH. Qed.
Lemma letters_join l : letters (join_with newline l) = letters (concat l).
Proof.
  induction l as [|x l IH]; [done|]. destruct l as [|y l]; [cbn; by rewrite app_nil_r|]. change (join_with newline (x :: y :: l)) with (x ++ newline :: join_with newline (y :: l)).
  rewrite letters_app, letters_cons, (letters_one newline) by listed. rewrite IH. cbn [concat]. by rewrite !letters_app.
Qed.
Lemma indent_letters b : letters (drop (indent b) b) = letters b.
Proof.
  unfold indent. rewrite <-(letters_take_drop (run_of space b) b) at 1. rewrite run_of_take. assert (letters (replicate (run_of space b) space) = []) as ->; [|done].
  apply letters_none, Forall_replicate, no_letter. do 4 right. listed.
Qed.
Lemma code_span_letters b : letters (code_span b) = letters b.
Proof.
  unfold code_span. case_match eqn:E; [|done]. rewrite !andb_true_iff, !bool_decide_eq_true in E. destruct E as [[[Hl Hh] Hla] _].
  destruct b as [|a b]; [done|]. injection Hh as ->. destruct b as [|x b _] using rev_ind; [cbn in Hl; lia|]. rewrite app_comm_cons, last_snoc in Hla. injection Hla as ->.
  rewrite length_cons, length_app. cbn [length drop]. replace (S (length b + 1) - 2)%nat with (length b) by lia. rewrite drop_0, take_app_length, letters_cons, letters_app, (letters_one space) by listed. by rewrite app_nil_r.
Qed.
Lemma closing_found fuel s n from e : closing fuel s n from = Some e → ∃ r, drop e s = replicate n tick ++ r.
Proof.
  revert from. induction fuel as [|fuel IH]; intros from; cbn [closing]; [done|]. destruct (index _ _) as [j|] eqn:E; [|done]. apply index_app in E as [r Hr]. rewrite drop_drop in Hr.
  case_bool_decide; [intros [= <-]; by exists r|apply IH].
Qed.
Lemma closingTicks_found s n missing e m : closingTicks s n missing = (Some e, m) → ∃ r, drop e s = replicate n tick ++ r.
Proof. unfold closingTicks. case_bool_decide; [done|]. destruct (closing _ _ _ _) as [j|] eqn:E; [|done]. intros [= <- _]. by eapply closing_found. Qed.
(** A text between two delimiters, and the text after them *)
Lemma delimited_letters n e s c r : is_mark c = true → take n s = replicate n c → drop (n + e) s = replicate n c ++ r → letters s = letters (take e (drop n s)) ++ letters (drop (n + e + n) s).
Proof.
  intros Hc Ht Hd. rewrite <-(letters_take_drop n s), Ht, (letters_marks n c Hc), <-(letters_take_drop e (drop n s)). cbn [app]. f_equal. rewrite drop_drop, Hd, letters_app, (letters_marks n c Hc). cbn [app].
  rewrite <-drop_drop, Hd. rewrite drop_app_length'; [done|by rewrite length_replicate].
Qed.
Lemma run_of_length a b : (run_of a b ≤ length b)%nat.
Proof. induction b as [|c b IH]; cbn; [done|]. case_bool_decide; cbn; lia. Qed.

Section render.
Variable word : Z → bool.
#[local] Abbreviation line := (writeInline word).

Lemma emphasis_length s prev missing n e m : emphasis word s prev missing = (Some (n, e), m) → n = 1%nat ∨ n = 2%nat.
Proof. unfold emphasis. destruct (emphasis_of word 2 s prev missing) as [[?|] ?]; [naive_solver|]. destruct (emphasis_of word 1 s prev g) as [[?|] ?]; naive_solver. Qed.
Lemma emphasis_of_found n c u prev missing e m : emphasis_of word n (c :: u) prev missing = (Some e, m) → take n (c :: u) = replicate n c ∧ ∃ r, drop (n + e) (c :: u) = replicate n c ++ r.
Proof.
  unfold emphasis_of. case_match eqn:E1; [done|]. apply orb_false_iff in E1 as [E1 E2]. apply bool_decide_eq_false in E1. apply negb_false_iff, bool_decide_eq_true in E2.
  assert (take n (c :: u) = replicate n c) as Ht. { pose proof (run_of_take c (take n (c :: u))) as H. rewrite E2 in H. rewrite <-H. symmetry. apply take_ge. rewrite length_take. lia. }
  cbv zeta. case_match; [done|]. rewrite Ht. destruct (index _ _) as [j|] eqn:Ei; [|done]. case_match; [done|]. case_match; [done|]. intros [= <- _]. split; [done|].
  apply index_app in Ei as [r Hr]. exists r. by rewrite drop_drop in Hr.
Qed.
Lemma emphasis_found c u prev missing n e m : emphasis word (c :: u) prev missing = (Some (n, e), m) → take n (c :: u) = replicate n c ∧ ∃ r, drop (n + e) (c :: u) = replicate n c ++ r.
Proof.
  unfold emphasis. destruct (emphasis_of word 2 _ _ _) as [[?|] ?] eqn:E2; [intros [= <- <- _]; by eapply emphasis_of_found|].
  destruct (emphasis_of word 1 _ _ _) as [[?|] ?] eqn:E1; [|done]. intros [= <- <- _]. by eapply emphasis_of_found.
Qed.
Lemma writeInline_spans fuel missing prev s : ∃ t, spans t (line fuel missing prev s) ∧ t `sublist_of` s ∧ ((length s < fuel)%nat → letters t = letters s).
Proof.
  revert missing prev s. induction fuel as [|fuel IH]; intros missing prev s; [exists []; split; [constructor|split; [apply sublist_nil_l|lia]]|]. cbn [writeInline].
  set (i := plain_len s). set (prev' := if bool_decide _ then _ else _). clearbody prev'.
  assert (∃ t, spans t (match drop i s with [] => [] | (c :: _) as s =>
     if bool_decide (c = tick) then let n := run_of tick s in
       match closingTicks (drop n s) n missing with
       | (Some e, missing) => open_tag (to_bytes "code") ++ html_escape (code_span (take e (drop n s))) ++ close_tag (to_bytes "code") ++ line fuel missing (code tick) (drop (n + e + n) s)
       | (None, missing) => take n s ++ line fuel missing (code tick) (drop n s) end
     else match emphasis word s prev' missing with
       | (Some (n, e), missing) => open_tag (tag_name n) ++ line fuel ∅ 0 (take e (drop n s)) ++ close_tag (tag_name n) ++ line fuel missing (code c) (drop (n + e + n) s)
       | (None, missing) => c :: line fuel missing (code c) (drop 1 s) end end) ∧ t `sublist_of` drop i s ∧ ((length (drop i s) ≤ fuel)%nat → letters t = letters (drop i s))) as (t & Ht & Hs & Hl).
  2:{ exists (take i s ++ t). split; [apply spans_text; [apply html_escape_escaped|exact Ht]|]. split; [rewrite <-(take_drop i s) at 2; by apply sublist_app|].
      intros Hf. rewrite letters_app, Hl by (rewrite length_drop; lia). apply letters_take_drop. }
  destruct (drop i s) as [|c r] eqn:E; [exists []; split; [constructor|done]|]. assert (is_mark c = true) as Hc by (by eapply plain_len_mark).
  cbv zeta. set (u := c :: r) in *. case_bool_decide as Et.
  - set (n := run_of tick u). assert (take n u = replicate n tick) as Hn by apply run_of_take. assert (1 ≤ n)%nat as Hn1 by (unfold n, u; cbn; rewrite bool_decide_true by done; lia).
    assert (n ≤ length u)%nat as Hn2 by apply run_of_length. destruct (closingTicks (drop n u) n missing) as [[e|] m] eqn:Ec.
    + destruct (IH m (code tick) (drop (n + e + n) u)) as (t & Ht & Hs & Hl). eexists. split; [apply spans_code; [apply html_escape_escaped|exact Ht]|]. split.
      * transitivity (take e (drop n u) ++ drop (n + e + n) u); [|apply pieces_sublist]. apply sublist_app; [|done]. unfold code_span. case_match; [|done].
        etrans; [apply sublist_take|apply sublist_drop].
      * intros Hf. apply closingTicks_found in Ec as [q Hq]. rewrite drop_drop in Hq. rewrite letters_app, code_span_letters, Hl by (rewrite length_drop; lia).
        symmetry. by eapply (delimited_letters n e u tick q).
    + destruct (IH m (code tick) (drop n u)) as (t & Ht & Hs & Hl). exists (take n u ++ t). split; [|split; [rewrite <-(take_drop n u) at 2; by apply sublist_app|]].
      * apply spans_text; [|done]. apply escaped_marks. rewrite Hn. by apply Forall_replicate.
      * intros Hf. rewrite letters_app, Hl by (rewrite length_drop; lia). apply letters_take_drop.
  - destruct (emphasis word u prev' missing) as [[[n e]|] m] eqn:Ee.
    + destruct (IH ∅ 0 (take e (drop n u))) as (t1 & Ht1 & Hs1 & Hl1), (IH m (code c) (drop (n + e + n) u)) as (t2 & Ht2 & Hs2 & Hl2). exists (t1 ++ t2).
      pose proof (emphasis_found _ _ _ _ _ _ _ Ee) as (Htk & q & Hq). apply emphasis_length in Ee. split; [by destruct Ee as [->| ->]; [by apply spans_em|by apply spans_strong]|].
      split; [etrans; [by apply sublist_app|apply pieces_sublist]|]. intros Hf. assert (1 ≤ n)%nat as Hn1 by lia. assert (0 < length u)%nat by (unfold u; cbn; lia).
      rewrite letters_app, Hl1, Hl2; [symmetry; by eapply (delimited_letters n e u c q)|rewrite length_drop; lia|rewrite length_take, length_drop; lia].
    + destruct (IH m (code c) (drop 1 u)) as (t & Ht & Hs & Hl). exists ([c] ++ t). split; [|split; [by apply sublist_skip|]].
      * apply (spans_text [c] [c]); [|exact Ht]. apply escaped_marks. by repeat constructor.
      * intros Hf. assert (0 < length u)%nat by (unfold u; cbn; lia). rewrite letters_app, Hl by (rewrite length_drop; lia). symmetry. apply letters_cons.
Qed.
Lemma writeLines_spans lines : ∃ t, spans t (writeLines word lines) ∧ t `sublist_of` concat lines ∧ letters t = letters (concat lines).
Proof.
  induction lines as [|x lines IH]; [exists []; split; [constructor|done]|]. destruct (writeInline_spans (S (length x)) ∅ 0 x) as (t & Ht & Hs & Hl). specialize (Hl ltac:(lia)).
  destruct lines as [|y lines]; [exists t; cbn; by rewrite app_nil_r|]. destruct IH as (t' & Ht' & Hs' & Hl'). exists (t ++ t'). split; [|split; [by apply sublist_app|]].
  - apply (spans_app t (write_line word x)); [exact Ht|]. by apply (spans_break t').
  - change (concat (x :: y :: lines)) with (x ++ concat (y :: lines)). by rewrite !letters_app, Hl, Hl'.
Qed.
Lemma items_of l : ∃ t, items t (l ≫= λ item, to_bytes "<li>" ++ writeLines word item ++ to_bytes "</li>") ∧ t `sublist_of` concat (concat l) ∧ letters t = letters (concat (concat l)).
Proof.
  induction l as [|x l (t & Ht & Hs & Hl)]; [exists []; split; [constructor|done]|]. destruct (writeLines_spans x) as (t1 & Ht1 & Hs1 & Hl1). exists (t1 ++ t). split; [|cbn; rewrite concat_app; split].
  - rewrite bind_cons, <-!app_assoc. by apply items_one.
  - by apply sublist_app.
  - by rewrite !letters_app, Hl, Hl1.
Qed.
(** A block before others *)
Lemma flushPara_blocks para : ∃ t, blocks t (flushPara word para) ∧ t `sublist_of` concat para ∧ letters t = letters (concat para).
Proof.
  destruct para as [|x para]; [exists []; split; [constructor|done]|]. destruct (writeLines_spans (x :: para)) as (t & Ht & Hs). exists (t ++ []). split; [|by rewrite app_nil_r].
  unfold flushPara. rewrite <-(app_nil_r (to_bytes "</p>")). by apply blocks_para; [|constructor].
Qed.
Definition list_text (l : option markdownList) : bytes := match l with Some l => concat (concat (ml_items l)) | None => [] end.
Definition list_wf (l : option markdownList) : Prop := match l with Some l => 0 ≤ ml_start l ∧ ml_items l ≠ [] | None => True end.
Lemma flushList_blocks l : list_wf l → ∃ t, blocks t (flushList word l) ∧ t `sublist_of` list_text l ∧ letters t = letters (list_text l).
Proof.
  destruct l as [l|]; [|exists []; split; [constructor|done]]. intros [Hp _]. destruct (items_of (ml_items l)) as (t & Ht & Hs). exists (t ++ []). split; [|by rewrite app_nil_r].
  cbn. unfold write_list. destruct (ml_ordered l); [destruct (ml_start l =? 1)|].
  - rewrite <-(app_nil_r (to_bytes "</ol>")). by apply blocks_ol; [|constructor].
  - rewrite <-(app_nil_r (to_bytes "</ol>")). by apply blocks_start; [| |constructor].
  - rewrite <-(app_nil_r (to_bytes "</ul>")). by apply blocks_ul; [|constructor].
Qed.

(** ** The loop over the lines *)

Lemma trim_left_space_sublist n b : trim_left_space n b `sublist_of` b.
Proof. revert b. induction n as [|n IH]; intros [|a b]; cbn [trim_left_space]; [done..|]. case_match; [|done]. etrans; [apply IH|apply sublist_drop]. Qed.
Lemma trim_right_space_sublist n b : trim_right_space n b `sublist_of` b.
Proof. revert b. induction n as [|n IH]; intros [|a b]; cbn [trim_right_space]; [done..|]. case_match; [|done]. etrans; [apply IH|apply sublist_take]. Qed.
Lemma trim_space_sublist b : trim_space b `sublist_of` b.
Proof. unfold trim_space. etrans; [apply trim_right_space_sublist|apply trim_left_space_sublist]. Qed.
Lemma join_with_cons a x l : x ++ join_with a l `sublist_of` join_with a (x :: l).
Proof. destruct l as [|y l]; cbn [join_with]; [by rewrite app_nil_r|]. apply sublist_app; [done|]. by apply sublist_cons. Qed.
Lemma join_with_app a l1 l2 : join_with a l1 ++ join_with a l2 `sublist_of` join_with a (l1 ++ l2).
Proof.
  induction l1 as [|x l1 IH]; [done|]. destruct l1 as [|y l1]; [apply join_with_cons|]. change ((x :: y :: l1) ++ l2) with (x :: y :: l1 ++ l2).
  cbn [join_with]. rewrite <-app_assoc. apply sublist_app; [done|]. cbn [app]. apply sublist_skip. exact IH.
Qed.
Lemma join_with_split a b : join_with a (split_at a b) = b.
Proof.
  induction b as [|c b IH]; [done|]. cbn [split_at]. case_bool_decide as E.
  - subst c. destruct (split_at a b) as [|x l] eqn:Es; [destruct b; cbn in Es; [done|]; repeat case_match; done|]. cbn [join_with]. cbn in IH. by rewrite IH.
  - destruct (split_at a b) as [|x l] eqn:Es; [destruct b; cbn in Es; [done|]; repeat case_match; done|]. destruct l; cbn [join_with app] in *; by rewrite IH.
Qed.
Lemma code_block_lines fence lines : let '(c, rest) := code_block fence lines in join_with newline c ++ join_with newline rest `sublist_of` join_with newline lines.
Proof.
  assert (let '(c, rest) := code_block fence lines in ∃ mid, lines = c ++ mid ++ rest) as H.
  { induction lines as [|x lines IH]; [by exists []|]. cbn [code_block]. destruct (closes fence x); [by exists [x]|]. destruct (code_block fence lines) as [c rest]. destruct IH as [mid ->]. by exists mid. }
  destruct (code_block fence lines) as [c rest]. destruct H as [mid ->]. etrans; [|apply join_with_app]. apply sublist_app; [done|]. etrans; [|apply join_with_app]. by apply sublist_inserts_l.
Qed.
Lemma digits_of n b : forallb is_digit (take (digits_len n b) b) = true.
Proof. revert b. induction n as [|n IH]; intros [|a b]; cbn [digits_len]; [done..|]. destruct (is_digit a) eqn:E; [|done]. cbn [take forallb]. by rewrite E, IH. Qed.
Lemma digits_value_nonneg b : forallb is_digit b = true → 0 ≤ digits_value b.
Proof.
  unfold digits_value. assert (∀ acc, 0 ≤ acc → forallb is_digit b = true → 0 ≤ foldl (λ acc a, acc * 10 + (code a - 48)) acc b) as H; [|by apply H].
  induction b as [|a b IH]; intros acc Ha; [done|]. cbn. intros [Hd Hb]%andb_true_iff. apply IH; [|done]. unfold is_digit in Hd. lia.
Qed.
Lemma listItem_sublist l ordered start rest : listItem l = Some (ordered, start, rest) → rest `sublist_of` l ∧ 0 ≤ start.
Proof.
  unfold listItem. destruct l as [|a [|b l]]; [done..|]. case_match.
  - intros [= _ <- <-]. split; [|done]. etrans; [apply trim_space_sublist|]. by do 2 apply sublist_cons.
  - destruct (drop _ _) as [|m [|c r]] eqn:E; [done..|]. case_match; [|done]. intros [= _ <- <-]. split; [|apply digits_value_nonneg; exact (digits_of 9 (a :: b :: l))].
    etrans; [apply trim_space_sublist|]. trans (m :: c :: r); [by do 2 apply sublist_cons|]. rewrite <-E. apply sublist_drop.
Qed.
Lemma listItem_letters l ordered start rest : listItem l = Some (ordered, start, rest) → letters rest = letters l.
Proof.
  unfold listItem. destruct l as [|a [|b l]]; [done..|]. case_match eqn:E.
  - apply andb_true_iff in E as [Ea%bool_decide_eq_true Eb%bool_decide_eq_true]. intros [= _ _ <-]. subst b.
    rewrite trim_space_letters, (letters_cons a), (letters_cons space), (letters_one space) by listed. rewrite (letters_one a); [done|]. set_solver.
  - destruct (drop _ _) as [|m [|c r]] eqn:Ed; [done..|]. case_match eqn:Em; [|done]. intros [= _ _ <-].
    apply andb_true_iff in Em as [[_ Em%bool_decide_eq_true]%andb_true_iff Ec%bool_decide_eq_true]. subst c. rewrite trim_space_letters.
    rewrite <-(letters_take_drop (digits_len 9 (a :: b :: l)) (a :: b :: l)), Ed, (letters_cons m), (letters_cons space), (letters_one space) by listed.
    rewrite (letters_one m) by set_solver. assert (letters (take (digits_len 9 (a :: b :: l)) (a :: b :: l)) = []) as ->; [|done].
    apply letters_none, Forall_forall. intros x Hx%list_elem_of_In. apply no_letter. do 3 right. left. by apply (proj1 (forallb_forall _ _) (digits_of 9 (a :: b :: l))).
Qed.
Lemma continue_text x l : ml_items l ≠ [] → list_text (Some (continue_item x l)) = list_text (Some l) ++ x.
Proof.
  intros Hne. cbn. unfold continue_item. cbn. destruct (ml_items l) as [|y items _] using rev_ind; [done|]. rewrite last_snoc, length_app. cbn [length].
  replace (length items + 1 - 1)%nat with (length items) by lia. rewrite take_app_length, !concat_app. cbn. rewrite !app_nil_r, !concat_app. cbn. by rewrite app_nil_r, app_assoc.
Qed.
Lemma continue_items x l : ml_items l ≠ [] → ml_items (continue_item x l) ≠ [].
Proof. intros Hne. unfold continue_item. cbn. destruct (ml_items l) as [|y items _] using rev_ind; [done|]. rewrite last_snoc. by destruct (take _ _). Qed.

(** The fence that a line opens, and the lines without those that open or close a fence: only they
    are not shown. *)
Definition opens (line : bytes) : option bytes := if bool_decide (indent line < 4)%nat then fenceOf (drop (indent line) line) else None.
Fixpoint shown_lines (fuel : nat) (lines : list bytes) : list bytes :=
  match fuel, lines with
  | S fuel, line :: lines =>
      match opens line with
      | Some fence => (code_block fence lines).1 ++ shown_lines fuel (code_block fence lines).2
      | None => line :: shown_lines fuel lines
      end
  | _, _ => []
  end.
Lemma code_block_length fence lines : (length (code_block fence lines).2 ≤ length lines)%nat.
Proof. induction lines as [|x lines IH]; cbn [code_block]; [done|]. destruct (closes fence x); [cbn; lia|]. destruct (code_block fence lines). cbn in *. lia. Qed.

Lemma render_lines_blocks fuel para l lines : list_wf l → (length lines ≤ fuel)%nat →
  ∃ t, blocks t (render_lines word fuel para l lines) ∧ t `sublist_of` concat para ++ list_text l ++ join_with newline lines ∧
    letters t = letters (concat para) ++ letters (list_text l) ++ letters (concat (shown_lines fuel lines)).
Proof.
  revert para l lines. induction fuel as [|fuel IH]; intros para l lines Hl Hf; destruct (flushPara_blocks para) as (tp & Hp & Sp & Lp), (flushList_blocks l Hl) as (tl & Hb & Sl & Ll).
  { exists (tp ++ tl). cbn. split; [by apply blocks_app|]. split; [apply sublist_app; [done|]; by apply sublist_inserts_r|]. by rewrite letters_app, app_nil_r, Lp, Ll. }
  destruct lines as [|x lines]; [exists (tp ++ tl); cbn; split; [by apply blocks_app|]; split; [rewrite app_nil_r; by apply sublist_app|by rewrite letters_app, app_nil_r, Lp, Ll]|].
  cbn [render_lines shown_lines]. cbv zeta. fold (opens x). cbn in Hf.
  assert (∀ y, y `sublist_of` x → y ++ join_with newline lines `sublist_of` join_with newline (x :: lines)) as Hx.
  { intros y Hy. etrans; [|apply join_with_cons]. by apply sublist_app. }
  destruct (opens x) as [fence|] eqn:Eo.
  { pose proof (code_block_length fence lines) as Hlen. pose proof (code_block_lines fence lines) as Hc. destruct (code_block fence lines) as [code rest]. cbn [fst snd] in *.
    destruct (IH [] None rest I ltac:(lia)) as (t & Ht & Hs & Lt). exists (tp ++ tl ++ (join_with newline code ++ t)). split; [|split].
    - apply blocks_app; [done|]. apply blocks_app; [done|]. by apply blocks_pre; [apply html_escape_escaped|].
    - apply sublist_app; [done|]. apply sublist_app; [done|]. cbn in Hs.
      etrans; [|apply (Hx [] (sublist_nil_l _))]. etrans; [|exact Hc]. by apply sublist_app.
    - rewrite concat_app, !letters_app, letters_join, Lp, Ll, Lt. done. }
  cbn [concat]. case_bool_decide as Eb.
  { destruct (IH [] None lines I ltac:(lia)) as (t & Ht & Hs & Lt). exists (tp ++ tl ++ t). split; [by apply blocks_app; [|apply blocks_app]|]. split.
    - apply sublist_app; [done|]. apply sublist_app; [done|]. etrans; [exact Hs|]. apply (Hx [] (sublist_nil_l _)).
    - rewrite !letters_app, Lp, Ll, Lt, <-(trim_space_letters x), Eb. done. }
  destruct (if bool_decide (indent x < 4)%nat then listItem (drop (indent x) x) else None) as [[[ordered start] rest]|] eqn:Ei.
  - assert (rest `sublist_of` x ∧ 0 ≤ start ∧ letters rest = letters x) as (Hr & Hstart & Lr).
    { destruct (bool_decide _); [|done]. pose proof (listItem_letters _ _ _ _ Ei) as Hll. rewrite indent_letters in Hll. apply listItem_sublist in Ei as [H1 H2].
      split; [|done]. etrans; [exact H1|apply sublist_drop]. }
    destruct (IH [] (Some (mkList ordered start [[rest]])) lines ltac:(by split) ltac:(lia)) as (t & Ht & Hs & Lt). cbn in Hs, Lt. rewrite app_nil_r in Hs, Lt.
    assert (t `sublist_of` join_with newline (x :: lines)) as Hs' by (etrans; [exact Hs|]; by apply Hx). rewrite Lr in Lt.
    destruct l as [o|]; [|exists (tp ++ t); split; [by apply blocks_app|]; split; [by apply sublist_app|by rewrite !letters_app, Lp, Lt]].
    destruct (Bool.eqb _ _).
    2:{ exists (tp ++ tl ++ t). split; [by apply blocks_app; [|apply blocks_app]|]. split; [by apply sublist_app; [|apply sublist_app]|by rewrite !letters_app, Lp, Ll, Lt]. }
    clear t Ht Hs Lt Hs'. destruct (IH [] (Some (add_item ordered start rest o)) lines ltac:(split; [apply Hl|cbn; by destruct (ml_items o)]) ltac:(lia)) as (t & Ht & Hs & Lt).
    cbn in Hs, Lt. rewrite !concat_app in Hs, Lt. cbn in Hs, Lt. rewrite app_nil_r in Hs, Lt. exists (tp ++ t). split; [by apply blocks_app|]. split.
    + apply sublist_app; [done|]. rewrite <-app_assoc in Hs. etrans; [exact Hs|]. apply sublist_app; [done|]. by apply Hx.
    + cbn. by rewrite !letters_app, Lp, Lt, !letters_app, Lr, <-app_assoc.
  - destruct l as [o|].
    + destruct Hl as [Hl Hne]. destruct (IH para (Some (continue_item (trim_space x) o)) lines ltac:(split; [done|by apply continue_items]) ltac:(lia)) as (t & Ht & Hs & Lt).
      rewrite continue_text in Hs, Lt by done. exists t. split; [done|]. split.
      * etrans; [exact Hs|]. apply sublist_app; [done|]. rewrite <-app_assoc. apply sublist_app; [done|]. apply Hx, trim_space_sublist.
      * by rewrite Lt, !letters_app, trim_space_letters, <-app_assoc.
    + destruct (IH (para ++ [x]) None lines I ltac:(lia)) as (t & Ht & Hs & Lt). exists t. rewrite !concat_app in Hs, Lt. cbn in Hs, Lt. rewrite app_nil_r in Hs, Lt. split; [done|]. split.
      * etrans; [exact Hs|]. rewrite <-app_assoc. apply sublist_app; [done|]. by apply Hx.
      * by rewrite Lt, !letters_app, <-app_assoc.
Qed.

(** C34: whatever the text of a card is, the renderer writes only the fixed tags, balanced, around
    escaped text.  That text is part of the card's, in order, and leaves out nothing but markup:
    every ASCII byte that is no white space, mark, fence, digit or marker of a list is shown, in
    every line but those that open or close a fenced block. *)
Theorem markdown_safe text : ∃ shown, blocks shown (to_bytes (renderMarkdown word text)) ∧ shown `sublist_of` to_bytes text ∧
  letters shown = letters (concat (shown_lines (length (split_at newline (to_bytes text))) (split_at newline (to_bytes text)))).
Proof.
  unfold renderMarkdown. rewrite to_of_bytes. destruct (render_lines_blocks (length (split_at newline (to_bytes text))) [] None (split_at newline (to_bytes text)) I (le_n _)) as (t & Ht & Hs & Hl).
  exists t. cbn in Hs. rewrite join_with_split in Hs. done.
Qed.
End render.
