(* ===== verification/Decisions.v ===== *)
(** * Decision items (internal/core/decisions.go, and the item operations of decision_verdicts.go and decision_archive.go)

    The cards of the maintainer's board: their creation, edits, withdrawals, closes and reopens by
    agents, the reads, and the retry records.  [is_print] is unicode.IsPrint and [format_float]
    the shortest text of a float64. *)

From S2P Require Import Prelude GoString GoFloat Schema Sql Label Storage Names Messages Cycles Launches Leases WorkViews BoardText.
Open Scope Z_scope.

(** ** Rows *)

Definition on_board (f : Board → Board) : tx unit := modify (λ s, s <| board := f (board s) |>).
(** Rows in the order of their ID, and the latest *)
Definition by_id {V} (P : Z → V → bool) (m : gmap Z V) : list (Z * V) := order_by fst (select P m).
Definition latest {V} (P : Z → V → bool) (m : gmap Z V) : option (Z * V) := last (by_id P m).

Definition with_reference (reference : string) (_ : Z) (r : DecisionItemRow) : bool := seqb (di_reference r) reference.
Definition item_at (reference : string) (s : State) : option (Z * DecisionItemRow) := head (select (with_reference reference) (decision_items (board s))).
Definition of_item {V} (get : V → Z) (item : Z) (_ : Z) (v : V) : bool := get v =? item.
Definition verdict_of : Z → Z → VerdictRow → bool := of_item ve_item_id.
Definition withdrawal_of : Z → Z → WithdrawalRow → bool := of_item dw_item_id.
Definition update_item (id : Z) (f : DecisionItemRow → DecisionItemRow) : tx unit :=
  on_board (λ b, b <| decision_items := alter f id (decision_items b) |>).
(** [UPDATE decision_verdicts SET superseded_at=? WHERE item_id=? AND superseded_at=0] *)
Definition supersede (now item : Z) : tx unit := on_board (λ b, b <| decision_verdicts :=
  update_where (λ i v, verdict_of item i v && (ve_superseded_at v =? 0)) (λ v, v <| ve_superseded_at := now |>) (decision_verdicts b) |>).
(** The end of a withdrawal by a reopen *)
Definition end_withdrawals (now : Z) (by_ : string) (P : Z → WithdrawalRow → bool) : tx unit := on_board (λ b, b <| decision_withdrawals :=
  update_where P (λ w, w <| dw_reopened_at := now |> <| dw_reopened_by := by_ |>) (decision_withdrawals b) |>).
(** The columns of a reopened item *)
Definition reopened_row (r : DecisionItemRow) : DecisionItemRow :=
  r <| di_state := "active"%string |> <| di_archived_at := 0 |> <| di_mark_revision := 0 |> <| di_mark_file := ""%string |> <| di_mark_offset := 0 |>.

(** [decisionRow]: the stored fields, or why there are none *)
Definition decisionRow (reference : string) : tx (Z * DecisionItemRow) := λ s,
  match item_at reference s with
  | Some ir => Ok (ir, s)
  | None => match decision_deep_archive (board s) !! reference with
            | Some l => Err (WorkRefusal "deep_archived" (MovedAt (dl_moved_at l)))
            | None => Err (workError "not_found")
            end
  end.
Definition stale_revision (current : Z) : error := WorkRefusal "stale_revision" (CurrentRevision current).

(** *** Recipients *)

(** [resolveRecipient], [decisionRecipients] *)
Definition resolveRecipient (s : State) (name : string) : DecisionRecipient :=
  match names s !! name with
  | None => mkDecisionRecipient name "" false "unknown_name"
  | Some n => mkDecisionRecipient name (match n_kind n with Alias => "participant" | Peer => "peer" end) true ""
  end.
Definition of_first (item : Z) {V} (k : Z * Z) (_ : V) : bool := k.1 =? item.
(** [storeRecipients] *)
Definition recipient_rows (item : Z) (l : list DecisionRecipient) : list ((Z * Z) * RecipientRow) :=
  imap (λ i r, ((item, Z.of_nat i), mkRecipientRow (dr_Name r) (dr_Kind r) (dr_Reason r))) l.
Definition storeRecipients (item : Z) (l : list DecisionRecipient) : tx unit := on_board (λ b, b <| decision_recipients :=
  list_to_map (recipient_rows item l) ∪ filter (λ kr, of_first item kr.1 kr.2 = false) (decision_recipients b) |>).
(** [recipientNames] *)
Definition recipientNames (item : Z) (s : State) : list string :=
  (λ kr, dp_name kr.2) <$> order_by (λ kr : (Z * Z) * RecipientRow, kr.1.2) (select (of_first item) (decision_recipients (board s))).

(** *** Callers *)

(** char(31) *)
Definition unit_separator : string := of_bytes [chr 31].
Definition participant_identity (family repository role : string) : string :=
  family +:+ unit_separator +:+ repository +:+ unit_separator +:+ role.
(** [authorParticipantOf], [participantRepository] *)
Definition authorParticipantOf (caller : Key) (s : State) : string :=
  match sessions s !! caller with
  | Some r => if negb (s_subagent r) && negb (seqb (s_repository r) "") && participantQualifier caller r
              then participant_identity (Family caller) (s_repository r) (s_role r) else ""
  | None => ""
  end.
Definition participantRepository (participant : string) : string :=
  match split_on 31 (to_bytes participant) with [_; repository; _] => of_bytes repository | _ => "" end.
(** [callerNames]: the caller's peer name and the address that it holds *)
Definition callerNames (now : Z) (caller : Key) (s : State) : list string :=
  filter (λ name, name ≠ ""%string) [peerOf (Family caller) (ID caller) s; heldAddress now caller s].
Definition names_recipient (item : Z) (s : State) (name : string) : bool :=
  exists_where (λ k r, of_first item k r && seqb (dp_name r) name) (decision_recipients (board s)).
(** [itemParty] *)
Definition itemParty (now : Z) (caller : Key) (item : Z) (r : DecisionItemRow) (s : State) : option string :=
  let peer := peerOf (Family caller) (ID caller) s in
  let participant := authorParticipantOf caller s in
  if seqb (Family caller) (di_author_family r) && negb (seqb peer "") && seqb peer (di_author_name r) then Some peer
  else if negb (seqb participant "") && seqb participant (di_author_participant r) then Some peer
  else if existsb (names_recipient item s) (callerNames now caller s) then Some peer
  else None.

(** ** Reads *)

(** [verdictDeliveries], [currentVerdict] *)
Definition delivery_rows (verdict : Z) (s : State) : list ((Z * Z) * VerdictDeliveryRow) :=
  order_by (λ kd : (Z * Z) * VerdictDeliveryRow, kd.1.2) (select (of_first verdict) (decision_deliveries (board s))).
Definition delivery_view (d : VerdictDeliveryRow) : DecisionDelivery :=
  mkDecisionDelivery (vd_name d) (vd_kind d) (vd_outcome d) (vd_reason d) (vd_acknowledged_at d).
Definition verdict_view (via : VerdictRow → string) (deliveries : list DecisionDelivery) (iv : Z * VerdictRow) : DecisionVerdictView :=
  let v := iv.2 in
  mkDecisionVerdict iv.1 (ve_revision v) (ve_verdict v) (ve_note v) (ve_created_at v) (ve_superseded_at v) (ve_snapshot v) deliveries (via v).
Definition currentVerdict (item : Z) (s : State) : option DecisionVerdictView :=
  match latest (verdict_of item) (decision_verdicts (board s)) with
  | Some (id, v) => if ve_superseded_at v =? 0 then Some (verdict_view (λ _, ""%string) ((λ kd, delivery_view kd.2) <$> delivery_rows id s) (id, v)) else None
  | None => None
  end.
(** [decisionWithdrawals]: the newest, and their number *)
Definition decisionWithdrawalItems : nat := 8.
Definition withdrawal_view (iw : Z * WithdrawalRow) : DecisionWithdrawal :=
  let w := iw.2 in mkDecisionWithdrawal iw.1 (dw_revision w) (dw_name w) (dw_family w) (dw_reason w) (dw_at w) (dw_reopened_at w) (dw_reopened_by w).
Definition decisionWithdrawals (item : Z) (s : State) : list DecisionWithdrawal * Z :=
  let all := by_id (withdrawal_of item) (decision_withdrawals (board s)) in
  (withdrawal_view <$> take decisionWithdrawalItems (reverse all), Z.of_nat (length all)).
Definition withdrawn (item : Z) (r : DecisionItemRow) (s : State) : bool :=
  seqb (di_state r) "archived" &&
  match latest (withdrawal_of item) (decision_withdrawals (board s)) with Some (_, w) => dw_reopened_at w =? 0 | None => false end.

Section decisions.
Context `{SHA : Sha256}.
Variable is_print : Z → bool.
Variable format_float : float → string.

(** [decisionItem] *)
Definition decision_view (id : Z) (r : DecisionItemRow) (s : State) : DecisionItem :=
  let shown := filter (λ c, printableCommand c = true) (di_commands r) in
  let verdict := currentVerdict id s in
  let '(ws, count) := decisionWithdrawals id s in
  mkDecisionItem (di_reference r) (di_order r) (di_title r) (di_location r) (di_agent_text r) (di_context r) (di_recommendation r) (di_kind r) (di_state r)
    (di_revision r) shown (Z.of_nat (length (di_commands r)) - Z.of_nat (length shown)) (resolveRecipient s <$> recipientNames id s)
    (di_author_family r) (di_author_name r) (participantRepository (di_author_participant r)) (di_created_at r) (di_updated_at r) (di_archived_at r)
    (di_closed_by r) (di_closed_at r) (di_outcome_note r) verdict (di_verdict_count r) ws count
    (v ← verdict; if recordedVerdict (dv_Verdict v)
                  then Some (mkDecisionRecord decisionRecordInstruction (DecisionVerdictText is_print (di_location r) v)) else None)
    (withdrawn id r s).
Definition decisionItem (reference : string) : tx DecisionItem :=
  ir ← decisionRow reference;
  gets (decision_view (ir : Z * DecisionItemRow).1 ir.2).
Definition decisionRead (reference : string) (st : Store) : result error DecisionItem := read (decisionItem reference) st.
Definition DecisionGet (now : Z) (caller : Key) (reference : string) (st : Store) : result error DecisionItem :=
  match checkReference reference with
  | Some e => Err e
  | None => read (_ ← check (active now caller); decisionItem reference) st
  end.

(** ** Retries *)

(** [decisionFingerprint] *)
Definition json_texts (l : list string) : string := json_array (json_string <$> l).
Definition encoded_fields (f : DecisionFields) : string := json_object
  [("order", json_or_null itoa (f_Order f)); ("title", json_or_null json_string (f_Title f)); ("where", json_or_null json_string (f_Where f));
   ("agent_text", json_or_null json_string (f_AgentText f)); ("context", json_or_null json_string (f_Context f));
   ("recommendation", json_or_null json_string (f_Recommendation f)); ("kind", json_or_null json_string (f_Kind f));
   ("commands", json_or_null json_texts (f_Commands f)); ("recipients", json_or_null json_texts (f_Recipients f))]%string.
Definition decisionFingerprint (reference : string) (f : DecisionFields) (deadline : float) : string :=
  hex_sum (to_bytes (json_object [("reference", json_string reference); ("fields", encoded_fields f); ("deadline", json_string (format_float deadline))]%string)).

(** The checks of a retry deadline *)
Definition deadline_refused (clock idemTTL deadline : float) : option error :=
  if negb (is_finite deadline) || fltb (fadd clock idemTTL) deadline then Some invalid
  else if fleb deadline clock then Some (workError "retry_deadline_expired") else None.

(** A receipt as a create, or a close, reads it: encoding/json ignores the other fields. *)
Definition as_created (r : DecisionReceipt) : DecisionCreated :=
  match r with
  | CreatedReceipt c => c
  | ItemReceipt i => mkDecisionCreated (de_Reference i) (de_Revision i) (de_State i) (de_Recipients i) false
  end.
Definition as_item (r : DecisionReceipt) : DecisionItem :=
  match r with
  | ItemReceipt i => i
  | CreatedReceipt c => mkDecisionItem (dc_Reference c) 0 "" "" "" "" "" "" (dc_State c) (dc_Revision c) [] 0 (dc_Recipients c) "" "" "" 0 0 0 "" 0 "" None 0 [] 0 None false
  end.
(** [decisionRepeat], [closeRepeat]: the first result under a key *)
Definition repeat_of {A} (as_ : DecisionReceipt → A) (now : Z) (caller : Key) (key print : string) : tx (option A) :=
  _ ← check (active now caller);
  o ← gets (λ s, decision_replays (board s) !! (caller, key));
  match (o : option DecisionReplayRow) with
  | None => mret None
  | Some q => _ ← ensure (seqb (dq_fingerprint q) print) (workError "idempotency_conflict"); mret (Some (as_ (dq_result q)))
  end.
Definition decisionRepeat : Z → Key → string → string → tx (option DecisionCreated) :=
  repeat_of (λ r, (as_created r) <| dc_Duplicate := true |>).
Definition closeRepeat : Z → Key → string → string → tx (option DecisionItem) := repeat_of as_item.
(** [INSERT INTO decision_replays] *)
Definition insert_replay (caller : Key) (key : string) (q : DecisionReplayRow) : tx unit := λ s,
  match decision_replays (board s) !! (caller, key) with
  | Some _ => Err Constraint
  | None => Ok (tt, s <| board := (board s) <| decision_replays := <[(caller, key) := q]> (decision_replays (board s)) |> |>)
  end.

(** A keyed write: a repeat is answered from a read of [st0]; one that committed in between rolls
    the write back and is answered as well. *)
Definition plain : Write := mkWrite ordinary false 0 None (λ _, None).
Definition keyed_write {A} (repeat : Z → tx (option A)) (now_read now : Z) (body : tx A) (en : Engine) (st0 st : Store) : result error A * Store :=
  match read (repeat now_read) st0 with
  | Err e => (Err e, st)
  | Ok (Some original) => (Ok original, st)
  | Ok None =>
      match write plain en (o ← repeat now; match (o : option A) with Some _ => throw Declined | None => body end) st with
      | (Err Declined, st') => (match read (repeat now) st' with Ok (Some original) => Ok original | Ok None => Err Declined | Err e => Err e end, st')
      | answer => answer
      end
  end.

(** ** Creation *)

Definition taken (reference : string) (s : State) : bool :=
  bool_decide (is_Some (item_at reference s)) || bool_decide (is_Some (decision_deep_archive (board s) !! reference)).
(** [INSERT INTO decision_items]: an automatic ID; the reference is unique. *)
Definition insert_item (r : DecisionItemRow) : tx Z := λ s,
  match item_at (di_reference r) s with
  | Some _ => Err Constraint
  | None =>
      let id := decision_items_issued (board s) + 1 in
      Ok (id, s <| board := (board s) <| decision_items := <[id := r]> (decision_items (board s)) |> <| decision_items_issued := id |> |>)
  end.
Definition new_item (now : Z) (caller : Key) (reference : string) (f : DecisionFields) (author participant : string) : DecisionItemRow :=
  let text o := default ""%string (o f : option string) in
  mkDecisionItemRow reference (default 0 (f_Order f)) (text f_Title) (text f_Where) (text f_AgentText) (text f_Context) (text f_Recommendation) (text f_Kind)
    "active" (default [] (f_Commands f)) 1 (Family caller) author now now 0 "" 0 "" 0 "" 0 0 participant.
Definition createTx (now : Z) (caller : Key) (reference : string) (f : DecisionFields) (key print : string) (deadline : float) : tx DecisionCreated :=
  used ← gets (taken reference);
  _ ← ensure (negb used) (workError "reference_in_use");
  author ← gets (peerOf (Family caller) (ID caller));
  participant ← gets (authorParticipantOf caller);
  recipients ← gets (λ s, resolveRecipient s <$> default [] (f_Recipients f));
  id ← insert_item (new_item now caller reference f author participant);
  _ ← storeRecipients id recipients;
  _ ← bumpChange changeDecisions;
  let created := mkDecisionCreated reference 1 "active" recipients false in
  _ ← insert_replay caller key (mkDecisionReplayRow print deadline (CreatedReceipt created));
  mret created.
Definition create_checks (clock idemTTL : float) (caller : Key) (reference : string) (f : DecisionFields) (key : string) (deadline : float) : option error :=
  first_error [refuse (negb (validKey (Family caller) (ID caller))) ErrInvalid; checkReference reference; validate true f;
               checkLine key decisionKeyLimit true; deadline_refused clock idemTTL deadline].
Definition DecisionCreate (clock idemTTL : float) (now_read now : Z) (en : Engine) (caller : Key) (reference : string) (f : DecisionFields) (key : string)
    (deadline : float) (st0 st : Store) : result error DecisionCreated * Store :=
  match create_checks clock idemTTL caller reference f key deadline with
  | Some e => (Err e, st)
  | None =>
      let print := decisionFingerprint reference f deadline in
      keyed_write (λ n, decisionRepeat n caller key print) now_read now (createTx now caller reference f key print deadline) en st0 st
  end.

(** ** Edits *)

(** What a reopen does to a card that is not waiting: its verdict is superseded, its deep-archive
    mark cleared and its withdrawal ended. *)
Definition reopen (now : Z) (caller : Key) (id : Z) : tx unit :=
  _ ← supersede now id;
  _ ← update_item id reopened_row;
  editor ← gets (peerOf (Family caller) (ID caller));
  end_withdrawals now editor (λ i w, withdrawal_of id i w && (dw_reopened_at w =? 0)).
Definition edited (now : Z) (f : DecisionFields) (r : DecisionItemRow) : DecisionItemRow :=
  r <| di_order := default (di_order r) (f_Order f) |> <| di_title := default (di_title r) (f_Title f) |> <| di_location := default (di_location r) (f_Where f) |>
    <| di_agent_text := default (di_agent_text r) (f_AgentText f) |> <| di_context := default (di_context r) (f_Context f) |>
    <| di_recommendation := default (di_recommendation r) (f_Recommendation f) |> <| di_kind := default (di_kind r) (f_Kind f) |>
    <| di_commands := default (di_commands r) (f_Commands f) |> <| di_revision := di_revision r + 1 |> <| di_updated_at := now |>.
Definition editTx (now : Z) (caller : Key) (reference : string) (ifRevision : Z) (f : DecisionFields) : tx unit :=
  _ ← check (active now caller);
  ir ← decisionRow reference;
  let '(id, item) := (ir : Z * DecisionItemRow) in
  _ ← ensure (di_revision item =? ifRevision) (stale_revision (di_revision item));
  _ ← when (negb (seqb (di_state item) "active")) (reopen now caller id);
  _ ← update_item id (edited now f);
  _ ← bumpChange changeDecisions;
  match f_Recipients f with
  | None => mret tt
  | Some l => recipients ← gets (λ s, resolveRecipient s <$> l); storeRecipients id recipients
  end.
Definition DecisionEdit (now : Z) (en : Engine) (caller : Key) (reference : string) (ifRevision : Z) (f : DecisionFields) (st : Store) :
    result error DecisionItem * Store :=
  match first_error [refuse (negb (validKey (Family caller) (ID caller))) ErrInvalid; checkReference reference; refuse (bool_decide (f = no_fields)) invalid;
                     validate false f] with
  | Some e => (Err e, st)
  | None => match write plain en (editTx now caller reference ifRevision f) st with
            | (Err e, st') => (Err e, st')
            | (Ok _, st') => (decisionRead reference st', st')
            end
  end.

(** ** Closes and withdrawals *)

Definition act_checks (clock idemTTL : float) (caller : Key) (reference key : string) (deadline : float) (text : list (option error)) : option error :=
  first_error ([refuse (negb (validKey (Family caller) (ID caller))) ErrInvalid; checkReference reference] ++ text ++
               [checkLine key decisionKeyLimit true; deadline_refused clock idemTTL deadline]).
(** The receipt of a close or a withdrawal is the item itself. *)
Definition receipt (caller : Key) (reference key print : string) (deadline : float) : tx DecisionItem :=
  item ← decisionItem reference;
  _ ← insert_replay caller key (mkDecisionReplayRow print deadline (ItemReceipt item));
  mret item.
Definition nul_key (op key : string) : string := op +:+ of_bytes [nul] +:+ key.
Definition act_fields (ifRevision : Z) (text : string) : DecisionFields := mkFields (Some ifRevision) None None None (Some text) None None None None.

Definition archived_row (now : Z) (r : DecisionItemRow) : DecisionItemRow :=
  r <| di_state := "archived"%string |> <| di_archived_at := now |> <| di_updated_at := now |>.
Definition closeTx (now : Z) (caller : Key) (reference : string) (ifRevision : Z) (note key print : string) (deadline : float) : tx DecisionItem :=
  ir ← decisionRow reference;
  let '(id, item) := (ir : Z * DecisionItemRow) in
  _ ← ensure (di_revision item =? ifRevision) (stale_revision (di_revision item));
  _ ← ensure (seqb (di_state item) "in_progress") (workError "not_in_progress");
  closer ← gets (peerOf (Family caller) (ID caller));
  _ ← update_item id (λ r, (archived_row now r) <| di_closed_by := closer |> <| di_closed_at := now |> <| di_outcome_note := note |>);
  _ ← bumpChange changeDecisions;
  receipt caller reference key print deadline.
Definition DecisionClose (clock idemTTL : float) (now_read now : Z) (en : Engine) (caller : Key) (reference : string) (ifRevision : Z) (note key : string)
    (deadline : float) (st0 st : Store) : result error DecisionItem * Store :=
  match act_checks clock idemTTL caller reference key deadline [checkMarkdown note decisionNoteLimit; checkCredentials note] with
  | Some e => (Err e, st)
  | None =>
      let print := decisionFingerprint (nul_key "close" reference) (act_fields ifRevision note) deadline in
      let key := nul_key "close" key in
      keyed_write (λ n, closeRepeat n caller key print) now_read now (closeTx now caller reference ifRevision note key print deadline) en st0 st
  end.

(** [INSERT INTO decision_withdrawals] *)
Definition insert_withdrawal (w : WithdrawalRow) : tx unit := on_board (λ b,
  let id := decision_withdrawals_issued b + 1 in b <| decision_withdrawals := <[id := w]> (decision_withdrawals b) |> <| decision_withdrawals_issued := id |>).
Definition withdrawTx (now : Z) (caller : Key) (reference : string) (ifRevision : Z) (reason key print : string) (deadline : float) : tx DecisionItem :=
  ir ← decisionRow reference;
  let '(id, item) := (ir : Z * DecisionItemRow) in
  _ ← ensure (di_revision item =? ifRevision) (stale_revision (di_revision item));
  _ ← ensure (seqb (di_state item) "active" || seqb (di_state item) "returned") (workError "not_active");
  party ← gets (itemParty now caller id item);
  peer ← row (party : option string) (workError "not_item_party");
  _ ← supersede now id;
  _ ← update_item id (archived_row now);
  _ ← insert_withdrawal (mkWithdrawalRow id (di_revision item) (Family caller) peer reason now 0 "");
  _ ← bumpChange changeDecisions;
  receipt caller reference key print deadline.
Definition DecisionWithdraw (clock idemTTL : float) (now_read now : Z) (en : Engine) (caller : Key) (reference : string) (ifRevision : Z) (reason key : string)
    (deadline : float) (st0 st : Store) : result error DecisionItem * Store :=
  match act_checks clock idemTTL caller reference key deadline
          [checkLine reason decisionWithdrawReasonLimit true; refuse (blank reason) invalid; checkCredentials reason] with
  | Some e => (Err e, st)
  | None =>
      let print := decisionFingerprint (nul_key "withdraw" reference) (act_fields ifRevision reason) deadline in
      let key := nul_key "withdraw" key in
      keyed_write (λ n, closeRepeat n caller key print) now_read now (withdrawTx now caller reference ifRevision reason key print deadline) en st0 st
  end.

(** [reopenWithdrawn], inside its transaction: an archived item whose latest withdrawal stands is
    active again; [Declined] leaves any other item to the deep archive. *)
Definition reopenTx (now : Z) (caller : Key) (reference : string) (ifRevision : Z) : tx unit :=
  _ ← check (active now caller);
  o ← gets (item_at reference);
  match (o : option (Z * DecisionItemRow)) with
  | None => throw Declined
  | Some (id, item) =>
      stands ← gets (withdrawn id item);
      _ ← ensure stands Declined;
      _ ← ensure (negb (ifRevision =? 0)) invalid;
      _ ← ensure (di_revision item =? ifRevision) (stale_revision (di_revision item));
      party ← gets (itemParty now caller id item);
      peer ← row (party : option string) (workError "not_item_party");
      last ← gets (λ s, fst <$> latest (withdrawal_of id) (decision_withdrawals (board s)));
      _ ← update_item id (λ r, (reopened_row r) <| di_revision := di_revision r + 1 |> <| di_updated_at := now |>);
      _ ← end_withdrawals now peer (λ i _, bool_decide ((last : option Z) = Some i));
      bumpChange changeDecisions
  end.

(** [cullDecisionReplays] *)
Definition cullDecisionBatch : nat := 500.
Definition cullDecisionReplaysTx (clock : float) : tx unit := on_board (λ b,
  let gone := take cullDecisionBatch (fst <$> select (λ _ q, fltb (dq_deadline q) clock) (decision_replays b)) in
  b <| decision_replays := filter (λ kq, kq.1 ∉ gone) (decision_replays b) |>).
Definition cullDecisionReplays (clock : float) (en : Engine) (st : Store) : result error unit * Store :=
  write (mkWrite control false 0 None (λ _, None)) en (cullDecisionReplaysTx clock) st.
End decisions.
