(* ===== verification/Verdicts.v ===== *)
(** * Verdicts and their deliveries (internal/core/decision_verdicts.go)

    The maintainer's verdict on the revision that the page showed, one delivery for each
    recipient, the acknowledgements, and the bounded pages of pending deliveries, of a history
    and of the board. *)

From S2P Require Import Prelude GoString GoFloat Schema Sql Label Storage Names Messages Cycles Launches Leases WorkViews BoardText Decisions.
Open Scope Z_scope.

Definition decisionVerdictKind : string := "decision_verdict".
Definition decisionAckIDs : Z := 32.

(** [kindVerdicts], [verdictState] *)
Definition kindVerdicts (kind : string) : list string :=
  if seqb kind "decision" then ["approved"; "declined"; "feedback"]%string
  else if seqb kind "task" then ["completed"; "declined"; "feedback"]%string
  else if seqb kind "fyi" then ["acknowledged"]%string else [].
Definition known_verdict (verdict : string) : bool := existsb (λ kind, one_of verdict (kindVerdicts kind)) decisionKinds.
Definition verdictState (verdict : string) : string :=
  if seqb verdict "approved" then "in_progress" else if seqb verdict "feedback" then "returned" else "archived".

(** ** Deliveries *)

(** The address of the author's participant *)
Definition has_identity (participant : string) (_ : string) (n : NameRow) : bool :=
  bool_decide (n_kind n = Alias) && seqb (participant_identity (n_family n) (n_repository n) (n_role n)) participant.
Definition author_address (r : DecisionItemRow) (s : State) : string :=
  if seqb (di_author_participant r) "" then "" else default ""%string (first_key (has_identity (di_author_participant r)) (names s)).
(** A name reaches the author at an address: it is the address, or the peer name of an active
    session that holds it. *)
Definition reaches (now : Z) (address : string) (s : State) (name : string) : bool :=
  seqb name address ||
  match names s !! name, names s !! address with
  | Some p, Some a =>
      bool_decide (n_kind p = Peer) && bool_decide (n_kind a = Alias) && seqb (n_family a) (n_family p) && seqb (n_holder_id a) (n_session_id p) &&
      match sessions s !! mkKey (n_family p) (n_session_id p) with Some r => active_row now r | None => false end
  | _, _ => false
  end.
(** [withAuthor] *)
Definition withAuthor (now : Z) (r : DecisionItemRow) (s : State) (l : list string) : list string :=
  let address := author_address r s in
  if seqb address "" then if one_of (di_author_name r) l || seqb (di_author_name r) "" then l else l ++ [di_author_name r]
  else if existsb (reaches now address s) l then l else l ++ [address].

(** [INSERT INTO decision_deliveries], whose key is the verdict and the ordinal *)
Definition insert_delivery (verdict ordinal : Z) (d : VerdictDeliveryRow) : tx unit := λ s,
  match decision_deliveries (board s) !! (verdict, ordinal) with
  | Some _ => Err Constraint
  | None => Ok (tt, s <| board := (board s) <| decision_deliveries := <[(verdict, ordinal) := d]> (decision_deliveries (board s)) |> |>)
  end.
Definition verdict_message (recipient : Key) (seq now verdict : Z) (body : string) : MessageRow :=
  (new_message recipient seq maintainerKey "maintainer" body now) <| m_system_kind := decisionVerdictKind |> <| m_decision_verdict := verdict |>.

(** How a name resolves now: the inbox that it names with the kind of the recipient, or the
    reason why it has none *)
Definition delivery_target (now : Z) (name : string) : tx (string * (string + Key)) :=
  o ← gets (λ s, names s !! name);
  match (o : option NameRow) with
  | None => mret (""%string, inl "unknown_name"%string)
  | Some n =>
      if seqb (n_family n) (Family maintainerKey) then mret (""%string, inl "maintainer"%string)
      else match n_kind n with
           | Alias => _ ← ensureParticipantInbox now name; mret ("participant"%string, inr (mkKey (n_family n) (participantKey name)))
           | Peer => mret ("peer"%string, inr (mkKey (n_family n) (n_session_id n)))
           end
  end.
(** [deliverVerdict] *)
Definition deliverVerdict (now verdictID ordinal : Z) (body : string) (name : string) : tx DecisionDelivery :=
  '(kind, target) ← delivery_target now name;
  answer ← (match (target : string + Key) with
            | inl reason => mret ("skipped"%string, reason, 0)
            | inr inbox =>
                seq ← take_seq inbox now;
                match (seq : option Z) with
                | None => mret ("skipped"%string, "recipient_inactive"%string, 0)
                | Some seq => id ← insert_message (verdict_message inbox seq now verdictID body); mret ("queued"%string, ""%string, id)
                end
            end);
  let '(outcome, reason, message) := (answer : string * string * Z) in
  _ ← insert_delivery verdictID ordinal (mkVerdictDeliveryRow kind name outcome reason message 0);
  mret (mkDecisionDelivery name kind outcome reason 0).
Fixpoint deliver_all (now verdictID : Z) (body : string) (ordinal : Z) (l : list string) : tx (list DecisionDelivery) :=
  match l with
  | [] => mret []
  | name :: l => d ← deliverVerdict now verdictID ordinal body name; rest ← deliver_all now verdictID body (ordinal + 1) l; mret (d :: rest)
  end.

(** ** The verdict *)

(** [INSERT INTO decision_verdicts] *)
Definition insert_verdict (v : VerdictRow) : tx Z := λ s,
  let id := decision_verdicts_issued (board s) + 1 in
  Ok (id, s <| board := (board s) <| decision_verdicts := <[id := v]> (decision_verdicts (board s)) |> <| decision_verdicts_issued := id |> |>).
Definition snapshot_of (r : DecisionItemRow) : DecisionSnapshot :=
  mkDecisionSnapshot (di_title r) (di_location r) (di_context r) (di_recommendation r) (di_commands r).
Definition judged_row (now : Z) (verdict : string) (r : DecisionItemRow) : DecisionItemRow :=
  r <| di_state := verdictState verdict |> <| di_archived_at := if seqb (verdictState verdict) "archived" then now else 0 |> <| di_updated_at := now |>
    <| di_mark_revision := 0 |> <| di_mark_file := ""%string |> <| di_mark_offset := 0 |> <| di_verdict_count := di_verdict_count r + 1 |>.

Section verdicts.
Context `{SHA : Sha256}.
Variable is_print : Z → bool.
Variable format_float : float → string.

(** The transaction of [Store.DecisionVerdict]; [via] is the client of the request. *)
Definition verdictTx (now : Z) (via reference : string) (revision : Z) (verdict note : string) : tx DecisionVerdictView :=
  ir ← decisionRow reference;
  let '(id, item) := (ir : Z * DecisionItemRow) in
  _ ← ensure (di_revision item =? revision) (stale_revision (di_revision item));
  _ ← ensure (seqb (di_state item) "active") (workError "decided");
  _ ← ensure (one_of verdict (kindVerdicts (di_kind item))) (workError "invalid_verdict");
  _ ← ensure (negb (seqb verdict "approved") || forallb printableCommand (di_commands item)) (workError "hidden_command");
  vid ← insert_verdict (mkVerdictRow id revision verdict note now (snapshot_of item) 0 via);
  _ ← update_item id (judged_row now verdict);
  _ ← bumpChange changeDecisions;
  let result := mkDecisionVerdict vid revision verdict note now 0 (snapshot_of item) [] "" in
  l ← gets (λ s, withAuthor now item s (recipientNames id s));
  let entry := if recordedVerdict verdict then DecisionVerdictText is_print (di_location item) result else ""%string in
  ds ← deliver_all now vid (verdictMessageBody reference verdict vid entry) 0 l;
  _ ← setAuditTarget ("decision " +:+ reference +:+ " revision " +:+ itoa revision +:+ " " +:+ verdict +:+ " verdict " +:+ itoa vid);
  mret (result <| dv_Deliveries := ds |>).
Definition verdict_checks (reference : string) (revision : Z) (verdict note : string) : option error := first_error
  [refuse (bool_decide (is_Some (checkReference reference)) || (revision <? 1)) ErrInvalid; refuse (negb (known_verdict verdict)) ErrInvalid;
   checkMarkdown note decisionNoteLimit; refuse (seqb verdict "feedback" && blank note) (workError "feedback_required"); checkCredentials note].
(** [Store.DecisionVerdict] *)
Definition give_verdict (now at_ : Z) (audit : option PendingAudit) (en : Engine) (via reference : string) (revision : Z) (verdict note : string) (st : Store) :
    result error DecisionVerdictView * Store :=
  match verdict_checks reference revision verdict note with
  | Some e => (Err e, st)
  | None => write (mkWrite ordinary true at_ audit (λ _, None)) en (verdictTx now via reference revision verdict note) st
  end.

(** ** Acknowledgements *)

Definition queued_for (verdict : Z) (name : string) (k : Z * Z) (d : VerdictDeliveryRow) : bool :=
  (k.1 =? verdict) && seqb (vd_name d) name && seqb (vd_outcome d) "queued".
Definition acknowledged_row (now : Z) (d : VerdictDeliveryRow) : VerdictDeliveryRow :=
  d <| vd_outcome := "acknowledged"%string |> <| vd_acknowledged_at := now |>.
(** One verdict for the caller's names; whether a delivery changed *)
Definition ack_verdict (now : Z) (l : list string) (verdict : Z) : tx bool :=
  changed ← gets (λ s, existsb (λ name, exists_where (queued_for verdict name) (decision_deliveries (board s))) l);
  _ ← each l (λ name, on_board (λ b, b <| decision_deliveries := update_where (queued_for verdict name) (acknowledged_row now) (decision_deliveries b) |>));
  mret changed.
Fixpoint ack_all (now : Z) (l : list string) (verdicts : list Z) : tx (list Z) :=
  match verdicts with
  | [] => mret []
  | v :: verdicts => changed ← ack_verdict now l v; rest ← ack_all now l verdicts; mret (if changed : bool then v :: rest else rest)
  end.
Definition ackTx_ (now : Z) (caller : Key) (verdicts : list Z) : tx (list Z) :=
  _ ← check (active now caller);
  l ← gets (callerNames now caller);
  ack_all now l verdicts.
Definition DecisionAck (now : Z) (en : Engine) (caller : Key) (verdicts : list Z) (st : Store) : result error (list Z) * Store :=
  if negb (validKey (Family caller) (ID caller)) then (Err ErrInvalid, st)
  else if bool_decide (verdicts = []) || (decisionAckIDs <? Z.of_nat (length verdicts)) then (Err invalid, st)
  else write plain en (ackTx_ now caller verdicts) st.

(** ** Pages *)

(** The longest prefix within a limit and a budget of serialized bytes, but at least one entry;
    whether more remain.  [get] reads the row of an entry, [cost] is its size as the first entry
    of the page or as a later one. *)
Fixpoint fit {A B} (get : A → option B) (cost : bool → B → Z) (limit : nat) (budget used : Z) (first : bool) (l : list A) {struct l} : option (list B * bool) :=
  match l with
  | [] => Some ([], false)
  | x :: l =>
      y ← get x;
      match limit with
      | O => Some ([], true)
      | S limit =>
          if negb first && (budget <? used + cost first y) then Some ([], true)
          else '(page, more) ← fit get cost limit budget (used + cost first y) false l; Some (y :: page, more)
      end
  end.
Definition page_limit (limit most : Z) : nat := Z.to_nat (if (limit =? 0) || (most <? limit) then most else limit).

Local Open Scope string_scope.
Definition largest : string := itoa (2 ^ 63 - 1).
Definition envelope (result : string) : string := json_object [("ok", "true"); ("result", result)].
Definition opt_text (name v : string) : list (string * string) := omit_empty name (json_string v) (seqb v "").
Definition opt_int (name : string) (v : Z) : list (string * string) := omit_empty name (itoa v) (v =? 0)%Z.
Local Close Scope string_scope.

(** *** Pending deliveries *)

Record DecisionPendingEntry := mkPending {
  pn_VerdictID : Z; pn_Reference : string; pn_Verdict : string; pn_Revision : Z; pn_At : Z; pn_SupersededAt : Z; pn_Entry : string }.
Local Open Scope string_scope.
Definition encoded_pending (p : DecisionPendingEntry) : string := json_object (
  [("verdict_id", itoa (pn_VerdictID p)); ("reference", json_string (pn_Reference p)); ("verdict", json_string (pn_Verdict p));
   ("revision", itoa (pn_Revision p)); ("at", itoa (pn_At p))] ++ opt_int "superseded_at" (pn_SupersededAt p) ++ opt_text "entry" (pn_Entry p)).
Definition encoded_record (r : DecisionRecord) : string :=
  json_object ([("instruction", json_string (re_Instruction r))] ++ opt_text "entry" (re_Entry r)).
Local Close Scope string_scope.
Definition pending_envelope : Z := len (envelope (json_object [("deliveries", "[]"); ("record", encoded_record (mkDecisionRecord decisionRecordInstruction ""));
  ("more", "true"); ("next_after", largest)]%string)) + 1.
(** The verdicts whose queued deliveries name one of the names, after a verdict, at most
    [limit + 1] for each name *)
Definition queued_verdicts (after : Z) (limit : nat) (name : string) (s : State) : list Z :=
  take (S limit) (order_by id (remove_dups ((λ kd, kd.1.1) <$>
    select (λ k d, seqb (vd_name d) name && seqb (vd_outcome d) "queued" && (after <? k.1)) (decision_deliveries (board s))))).
Definition pending_ids (after : Z) (limit : nat) (l : list string) (s : State) : list Z :=
  order_by id (remove_dups (l ≫= λ name, queued_verdicts after limit name s)).
(** The row of a verdict joined with its item; the entry of a recorded verdict *)
Definition pending_entry (s : State) (id : Z) : option DecisionPendingEntry :=
  v ← decision_verdicts (board s) !! id;
  i ← decision_items (board s) !! ve_item_id v;
  Some (mkPending id (di_reference i) (ve_verdict v) (ve_revision v) (ve_created_at v) (ve_superseded_at v)
    (if recordedVerdict (ve_verdict v)
     then DecisionVerdictText is_print (di_location i)
            (mkDecisionVerdict 0 (ve_revision v) (ve_verdict v) (ve_note v) (ve_created_at v) 0 (ve_snapshot v) [] "")
     else ""%string)).
Record DecisionPendingPage := mkPendingPage {
  pp_Deliveries : list DecisionPendingEntry; pp_Record : option DecisionRecord; pp_More : bool; pp_NextAfter : option Z }.
Definition pendingTx (now : Z) (caller : Key) (after : Z) (limit : nat) : tx DecisionPendingPage :=
  _ ← check (active now caller);
  l ← gets (callerNames now caller);
  o ← gets (λ s, fit (pending_entry s) (λ _ p, len (encoded_pending p) + 1) limit decisionPendingBytes pending_envelope true (pending_ids after limit l s));
  '(page, more) ← row (o : option (list DecisionPendingEntry * bool)) NoRows;
  mret (mkPendingPage page (if existsb (λ p, recordedVerdict (pn_Verdict p)) page then Some (mkDecisionRecord decisionRecordInstruction "") else None)
          more (if more then pn_VerdictID <$> last page else None)).
Definition DecisionPending (now : Z) (caller : Key) (after limit : Z) (st : Store) : result error DecisionPendingPage :=
  if (after <? 0) || (limit <? 0) then Err invalid else read (pendingTx now caller after (page_limit limit decisionPageItems)) st.

(** *** History *)

Local Open Scope string_scope.
Definition encoded_delivery (d : DecisionDelivery) : string := json_object (
  [("name", json_string (dy_Name d))] ++ opt_text "kind" (dy_Kind d) ++ [("outcome", json_string (dy_Outcome d))] ++ opt_text "reason" (dy_Reason d) ++
  opt_int "acknowledged_at" (dy_AcknowledgedAt d)).
Definition encoded_snapshot (sn : DecisionSnapshot) : string := json_object (
  [("title", json_string (ds_Title sn))] ++ opt_text "where" (ds_Where sn) ++
  [("context", json_string (ds_Context sn)); ("recommendation", json_string (ds_Recommendation sn)); ("commands", json_texts (ds_Commands sn))]).
Definition encoded_verdict (v : DecisionVerdictView) : string := json_object (
  [("verdict_id", itoa (dv_ID v)); ("revision", itoa (dv_Revision v)); ("verdict", json_string (dv_Verdict v))] ++ opt_text "note" (dv_Note v) ++
  [("at", itoa (dv_At v))] ++ opt_int "superseded_at" (dv_SupersededAt v) ++ [("snapshot", encoded_snapshot (dv_Snapshot v))] ++
  omit_empty "deliveries" (json_array (encoded_delivery <$> dv_Deliveries v)) (bool_decide (dv_Deliveries v = [])) ++ opt_text "via" (dv_Via v)).
Local Close Scope string_scope.
Record DecisionHistoryPage := mkHistoryPage {
  hp_Reference : string; hp_Verdicts : list DecisionVerdictView; hp_Withdrawals : list DecisionWithdrawal; hp_More : bool; hp_NextAfter : option Z }.
Definition history_envelope (reference : string) : Z :=
  len (envelope (json_object [("reference", json_string reference); ("verdicts", "[]"); ("more", "true"); ("next_after", largest)]%string)) + 1.
(** [decisionHistory] *)
Definition decisionHistory (reference : string) (after : Z) (limit : nat) (withVia : bool) : tx DecisionHistoryPage :=
  ir ← decisionRow reference;
  rows ← gets (λ s, take (S limit) (by_id (λ i v, verdict_of (ir : Z * DecisionItemRow).1 i v && (after <? i)) (decision_verdicts (board s))));
  let views := verdict_view (λ v, if withVia then ve_via v else ""%string) [] <$> (rows : list (Z * VerdictRow)) in
  '(page, more) ← row (fit Some (λ _ v, len (encoded_verdict v) + 1) limit decisionHistoryBytes (history_envelope reference) true views) NoRows;
  mret (mkHistoryPage reference page [] more (if more then dv_ID <$> last page else None)).
(** [withdrawalHistory] *)
Definition withdrawalHistory (reference : string) (after : Z) (limit : nat) : tx DecisionHistoryPage :=
  ir ← decisionRow reference;
  rows ← gets (λ s, by_id (λ i w, withdrawal_of (ir : Z * DecisionItemRow).1 i w && (after <? i)) (decision_withdrawals (board s)));
  let ws := withdrawal_view <$> (rows : list (Z * WithdrawalRow)) in
  let more := bool_decide (limit < length ws)%nat in
  mret (mkHistoryPage reference [] (take limit ws) more (if more then wd_ID <$> last (take limit ws) else None)).
Definition DecisionHistory (now : Z) (caller : Key) (reference : string) (after limit : Z) (of_withdrawals : bool) (st : Store) : result error DecisionHistoryPage :=
  match checkReference reference with
  | Some e => Err e
  | None =>
      if (after <? 0) || (limit <? 0) then Err invalid
      else let n := page_limit limit decisionHistoryItems in
           read (_ ← check (active now caller);
                 if of_withdrawals then withdrawalHistory reference after n else decisionHistory reference after n false) st
  end.

(** *** The board *)

Record DecisionSummary := mkSummary {
  su_Reference : string; su_Title : string; su_Kind : string; su_State : string; su_Revision : Z; su_Order : Z; su_Verdict : string;
  su_Withdrawn : bool; su_AuthorRepository : string; su_id : Z }.
Record DecisionPage := mkDecisionPage { dp_Items : list DecisionSummary; dp_More : bool; dp_NextAfter : option Z }.
(** [decisionSummaryColumns] *)
Definition summary (s : State) (ir : Z * DecisionItemRow) : DecisionSummary :=
  let '(id, r) := ir in
  mkSummary (di_reference r) (di_title r) (di_kind r) (di_state r) (di_revision r) (di_order r)
    (match latest (verdict_of id) (decision_verdicts (board s)) with Some (_, v) => if ve_superseded_at v =? 0 then ve_verdict v else "" | None => "" end)
    (withdrawn id r s) (participantRepository (di_author_participant r)) id.
Local Open Scope string_scope.
Definition encoded_summary (u : DecisionSummary) : string := json_object (
  [("reference", json_string (su_Reference u)); ("title", json_string (su_Title u)); ("kind", json_string (su_Kind u)); ("state", json_string (su_State u));
   ("revision", itoa (su_Revision u)); ("order", itoa (su_Order u))] ++ opt_text "verdict" (su_Verdict u) ++
  omit_empty "withdrawn" "true" (negb (su_Withdrawn u)) ++ opt_text "author_repository" (su_AuthorRepository u)).
Local Close Scope string_scope.
Definition board_envelope : Z := len (envelope (json_object [("items", "[]"); ("more", "true"); ("next_after", largest)]%string)) + 1.
Definition decisionFilters : list string := ["waiting"; "active"; "returned"; "in_progress"; "archived"; "mine"]%string.
Definition listed (filter_ : string) (after id : Z) (r : DecisionItemRow) : bool :=
  (if seqb filter_ "waiting" then seqb (di_state r) "active" && negb (seqb (di_kind r) "fyi") else seqb (di_state r) filter_) && (after <? id).
(** The items that name one of the names, after an item, at most [limit + 1] for each name *)
Definition named_items (after : Z) (limit : nat) (name : string) (s : State) : list Z :=
  take (S limit) (order_by id (remove_dups ((λ kr, kr.1.1) <$>
    select (λ k r, seqb (dp_name r) name && (after <? k.1)) (decision_recipients (board s))))).
Definition mine_ids (after : Z) (limit : nat) (l : list string) (s : State) : list Z :=
  take (S limit) (order_by id (remove_dups (l ≫= λ name, named_items after limit name s))).
(** [decisionPage] *)
Definition decisionPage (filter_ : string) (targets : list string) (after : Z) (limit : nat) : tx DecisionPage :=
  o ← gets (λ s, if seqb filter_ "mine"
                 then mapM (λ id, r ← decision_items (board s) !! id; Some (summary s (id, r))) (mine_ids after limit targets s)
                 else Some (summary s <$> take (S limit) (by_id (listed filter_ after) (decision_items (board s)))));
  summaries ← row (o : option (list DecisionSummary)) NoRows;
  '(page, more) ← row (fit Some (λ first u, len (encoded_summary u) + if first : bool then 0 else 1) limit decisionPageBytes board_envelope true
                           (summaries : list DecisionSummary)) NoRows;
  mret (mkDecisionPage page more (if more then su_id <$> last page else None)).
Definition DecisionList (now : Z) (caller : Key) (filter_ : string) (after limit : Z) (st : Store) : result error DecisionPage :=
  if negb (one_of filter_ decisionFilters) || (after <? 0) || (limit <? 0) then Err invalid
  else read (_ ← check (active now caller);
             targets ← gets (λ s, if seqb filter_ "mine" then callerNames now caller s else []);
             decisionPage filter_ targets after (page_limit limit decisionPageItems)) st.
End verdicts.
