(* ===== verification/DeepArchive.v ===== *)
(** * The deep archive of the board (internal/core/decision_archive.go)

    The move of an old card to an append-only monthly log, the move's completion after a crash,
    and the restore.  A log file is the list of its lines, each with its length in bytes and the
    record that it decodes to, and an unfinished last line, which only lacks its newline when its
    bytes decode to a record; [encoded_archive] is the
    line's text.  Other transactions run between the transactions of a move: they are the
    functions on stores in [MoveRun] and the arguments [other]. *)

From S2P Require Import Prelude GoString GoFloat Schema Sql Label Storage Names Messages Cycles Launches Leases WorkViews BoardText Decisions Verdicts.
Open Scope Z_scope.

Definition decisionArchiveAfter : Z := 30 * 24 * 60 * 60 * 1000.
Definition decisionArchiveBatch : nat := 64.
Definition decisionArchiveWindow : nat := 256.

(** ** Records *)

(** [decisionRecord]: every row of one item *)
Record decisionRecord := mkArchiveRecord {
  ar_ID : Z; ar_Reference : string; ar_Revision : Z; ar_Item : DecisionItemRow; ar_Recipients : list ((Z * Z) * RecipientRow);
  ar_Verdicts : list (Z * VerdictRow); ar_Deliveries : list ((Z * Z) * VerdictDeliveryRow); ar_Withdrawals : list (Z * WithdrawalRow); ar_MovedAt : Z }.
#[export] Instance decisionRecord_eta : Eta decisionRecord := λ r,
  mkArchiveRecord (ar_ID r) (ar_Reference r) (ar_Revision r) (ar_Item r) (ar_Recipients r) (ar_Verdicts r) (ar_Deliveries r) (ar_Withdrawals r) (ar_MovedAt r).

(** [readDecisionRecord] *)
Definition of_verdicts (l : list (Z * VerdictRow)) (k : Z * Z) (_ : VerdictDeliveryRow) : bool := existsb (λ iv, k.1 =? iv.1) l.
Definition readDecisionRecord (id : Z) (b : Board) : option decisionRecord :=
  r ← decision_items b !! id;
  let vs := by_id (verdict_of id) (decision_verdicts b) in
  Some (mkArchiveRecord id (di_reference r) (di_revision r) r
    (order_by (λ kr : (Z * Z) * RecipientRow, kr.1.2) (select (of_first id) (decision_recipients b))) vs
    (vs ≫= λ iv, order_by (λ kd : (Z * Z) * VerdictDeliveryRow, kd.1.2) (select (of_first iv.1) (decision_deliveries b)))
    (by_id (withdrawal_of id) (decision_withdrawals b)) 0).

(** *** Encodings: encoding/json sorts the columns of a row, which is a map. *)

Local Open Scope string_scope.
Definition encoded_item_row (id : Z) (r : DecisionItemRow) : string := json_object
  [("agent_text", json_string (di_agent_text r)); ("archived_at", itoa (di_archived_at r)); ("author_family", json_string (di_author_family r));
   ("author_name", json_string (di_author_name r)); ("author_participant", json_string (di_author_participant r)); ("closed_at", itoa (di_closed_at r));
   ("closed_by", json_string (di_closed_by r)); ("commands", json_string (json_texts (di_commands r))); ("context", json_string (di_context r));
   ("created_at", itoa (di_created_at r)); ("id", itoa id); ("item_order", itoa (di_order r)); ("kind", json_string (di_kind r));
   ("location", json_string (di_location r)); ("mark_file", json_string (di_mark_file r)); ("mark_offset", itoa (di_mark_offset r));
   ("mark_revision", itoa (di_mark_revision r)); ("outcome_note", json_string (di_outcome_note r)); ("recommendation", json_string (di_recommendation r));
   ("reference", json_string (di_reference r)); ("revision", itoa (di_revision r)); ("state", json_string (di_state r)); ("title", json_string (di_title r));
   ("updated_at", itoa (di_updated_at r)); ("verdict_count", itoa (di_verdict_count r))].
Definition encoded_recipient_row (kr : (Z * Z) * RecipientRow) : string := json_object
  [("item_id", itoa kr.1.1); ("kind", json_string (dp_kind kr.2)); ("name", json_string (dp_name kr.2)); ("ordinal", itoa kr.1.2);
   ("reason", json_string (dp_reason kr.2))].
Definition encoded_verdict_row (iv : Z * VerdictRow) : string := json_object
  [("created_at", itoa (ve_created_at iv.2)); ("id", itoa iv.1); ("item_id", itoa (ve_item_id iv.2)); ("note", json_string (ve_note iv.2));
   ("revision", itoa (ve_revision iv.2)); ("snapshot", json_string (encoded_snapshot (ve_snapshot iv.2))); ("superseded_at", itoa (ve_superseded_at iv.2));
   ("verdict", json_string (ve_verdict iv.2)); ("via", json_string (ve_via iv.2))].
Definition encoded_delivery_row (kd : (Z * Z) * VerdictDeliveryRow) : string := json_object
  [("acknowledged_at", itoa (vd_acknowledged_at kd.2)); ("kind", json_string (vd_kind kd.2)); ("message_id", itoa (vd_message_id kd.2));
   ("name", json_string (vd_name kd.2)); ("ordinal", itoa kd.1.2); ("outcome", json_string (vd_outcome kd.2)); ("reason", json_string (vd_reason kd.2));
   ("verdict_id", itoa kd.1.1)].
Definition encoded_withdrawal_row (iw : Z * WithdrawalRow) : string := json_object
  [("at", itoa (dw_at iw.2)); ("family", json_string (dw_family iw.2)); ("id", itoa iw.1); ("item_id", itoa (dw_item_id iw.2));
   ("name", json_string (dw_name iw.2)); ("reason", json_string (dw_reason iw.2)); ("reopened_at", itoa (dw_reopened_at iw.2));
   ("reopened_by", json_string (dw_reopened_by iw.2)); ("revision", itoa (dw_revision iw.2))].
Definition encoded_archive (a : decisionRecord) : string := json_object (
  [("record", json_string "koinon.decision.v1"); ("id", itoa (ar_ID a)); ("reference", json_string (ar_Reference a)); ("revision", itoa (ar_Revision a));
   ("item", encoded_item_row (ar_ID a) (ar_Item a)); ("recipients", json_array (encoded_recipient_row <$> ar_Recipients a));
   ("verdicts", json_array (encoded_verdict_row <$> ar_Verdicts a)); ("deliveries", json_array (encoded_delivery_row <$> ar_Deliveries a))] ++
  omit_empty "withdrawals" (json_array (encoded_withdrawal_row <$> ar_Withdrawals a)) (bool_decide (length (ar_Withdrawals a) = 0%nat)) ++
  [("moved_at", itoa (ar_MovedAt a))]).
Local Close Scope string_scope.

(** ** Log files *)

Record LogLine := mkLine { ln_length : Z; ln_record : option decisionRecord }.
Record LogFile := mkLog { lf_lines : list LogLine; lf_partial : Z; lf_tail : option decisionRecord }.
Abbreviation Logs := (gmap string LogFile).
Definition lines_length (l : list LogLine) : Z := foldr (λ x acc, ln_length x + acc) 0 l.
Definition log_of (logs : Logs) (name : string) : LogFile := default (mkLog [] 0 None) (logs !! name).
(** [openDecisionLog]: a partial line becomes a line of its own, and the next line starts at the
    end of the file. *)
Definition open_log (logs : Logs) (name : string) : Logs * Z :=
  let f := log_of logs name in
  let lines := if lf_partial f =? 0 then lf_lines f else lf_lines f ++ [mkLine (lf_partial f + 1) (lf_tail f)] in
  (<[name := mkLog lines 0 None]> logs, lines_length lines).
(** [readDecisionLine]: the complete line at an offset.  Inside a line it is the line's rest, which
    is no record. *)
Fixpoint line_at (offset : Z) (l : list LogLine) : option LogLine :=
  match l with
  | [] => None
  | x :: l => if offset =? 0 then Some x else if offset <? ln_length x then Some (mkLine (ln_length x - offset) None) else line_at (offset - ln_length x) l
  end.
Definition read_line (logs : Logs) (name : string) (offset : Z) : option LogLine := f ← logs !! name; line_at offset (lf_lines f).
(** A write to the log that is complete, that failed after some bytes, or whose sync failed.  A
    proper prefix of a record decodes to nothing. *)
Inductive Append := Written | WriteFailed (bytes : nat) | SyncFailed.
Definition record_line (a : decisionRecord) : LogLine := mkLine (len (encoded_archive a) + 1) (Some a).
Definition append_line (logs : Logs) (name : string) (a : decisionRecord) (w : Append) : Logs :=
  let f := log_of logs name in
  let complete := mkLog (lf_lines f ++ [record_line a]) 0 None in
  let size := len (encoded_archive a) in
  <[name := match w with
            | WriteFailed bytes => let n := Z.of_nat bytes in if n <=? size then mkLog (lf_lines f) n (if n =? size then Some a else None) else complete
            | _ => complete
            end]> logs.
(** decisions/YYYY-MM.jsonl *)
Definition log_name (now : Z) : string :=
  let '(y, m, _) := civil (now / 1000 / 86400) in
  "decisions/" +:+ of_bytes (fixed_digits 4 y) +:+ "-" +:+ of_bytes (fixed_digits 2 m) +:+ ".jsonl".

(** ** The move *)

(** [UPDATE decision_items SET mark_... WHERE id=? AND P]: whether a row changed *)
Definition update_card (id : Z) (P : DecisionItemRow → bool) (f : DecisionItemRow → DecisionItemRow) : tx bool := λ s,
  match decision_items (board s) !! id with
  | Some r => if P r then Ok (true, s <| board := (board s) <| decision_items := <[id := f r]> (decision_items (board s)) |> |>) else Ok (false, s)
  | None => Ok (false, s)
  end.
Definition marked_row (name : string) (offset : Z) (r : DecisionItemRow) : DecisionItemRow :=
  r <| di_mark_revision := di_revision r |> <| di_mark_file := name |> <| di_mark_offset := offset |>.
Definition markTx (name : string) (offset id : Z) : tx bool :=
  update_card id (λ r, seqb (di_state r) "archived" && (di_mark_revision r =? 0)) (marked_row name offset).
Definition remarkTx (name : string) (offset end_ id revision : Z) : tx bool :=
  update_card id (λ r, (di_mark_revision r =? revision) && seqb (di_mark_file r) name && (di_mark_offset r =? offset)) (λ r, r <| di_mark_offset := end_ |>).
(** The rows of an item, gone *)
Definition without_item (id : Z) (b : Board) : Board :=
  let vs := fst <$> by_id (verdict_of id) (decision_verdicts b) in
  b <| decision_deliveries := filter (λ kd, kd.1.1 ∉ vs) (decision_deliveries b) |>
    <| decision_verdicts := filter (λ iv, ve_item_id iv.2 ≠ id) (decision_verdicts b) |>
    <| decision_recipients := filter (λ kr, kr.1.1 ≠ id) (decision_recipients b) |>
    <| decision_withdrawals := filter (λ iw, dw_item_id iw.2 ≠ id) (decision_withdrawals b) |>
    <| decision_items := delete id (decision_items b) |>.
Definition insert_locator (reference : string) (l : LocatorRow) : tx unit := λ s,
  match decision_deep_archive (board s) !! reference with
  | Some _ => Err Constraint
  | None => Ok (tt, s <| board := (board s) <| decision_deep_archive := <[reference := l]> (decision_deep_archive (board s)) |> |>)
  end.
(** [deleteMoved], inside its transaction: an item whose mark changed keeps its rows. *)
Definition is_marked (name : string) (offset revision : Z) (r : DecisionItemRow) : bool :=
  seqb (di_state r) "archived" && (di_revision r =? revision) && (di_mark_revision r =? revision) && seqb (di_mark_file r) name && (di_mark_offset r =? offset).
Definition deleteMovedTx (id : Z) (reference : string) (revision : Z) (name : string) (offset length_ at_ : Z) : tx unit :=
  o ← gets (λ s, decision_items (board s) !! id);
  _ ← ensure (from_option (is_marked name offset revision) false (o : option DecisionItemRow)) Declined;
  _ ← on_board (without_item id);
  _ ← insert_locator reference (mkLocatorRow name offset length_ at_);
  bumpChange changeDecisions.
(** [begin] or [Commit] refused for capacity, and a lost mark, leave the item for a later sweep; a
    statement that found the database full is an error. *)
Definition full_in_body (en : Engine) (st : Store) : bool :=
  en_full_body en && match enter ordinary en st with (Ok _, _) => true | (Err _, _) => false end.
Definition lenient {A} (full_ : bool) (default_ : A) (answer : result error A * Store) : result error A * Store :=
  match answer with
  | (Err e, st) => if bool_decide (e = ErrCapacity) && negb full_ || bool_decide (e = Declined) then (Ok default_, st) else (Err e, st)
  | answer => answer
  end.
Definition deleteMoved (en : Engine) (id : Z) (reference : string) (revision : Z) (name : string) (offset length_ at_ : Z) (st : Store) : result error unit * Store :=
  lenient (full_in_body en st) tt (write plain en (deleteMovedTx id reference revision name offset length_ at_) st).
(** [appendAndDelete]; [other] runs between the append and the deletion. *)
Definition appendAndDelete (now : Z) (w : Append) (en : Engine) (other : Store → Store) (a : decisionRecord) (name : string) (offset : Z) (logs : Logs) (st : Store) :
    result error unit * Store * Logs :=
  let a := a <| ar_MovedAt := now |> in
  let logs := append_line logs name a w in
  match w with
  | Written => (deleteMoved en (ar_ID a) (ar_Reference a) (ar_Revision a) name offset (ln_length (record_line a)) now (other st), logs)
  | _ => (Err EngineError, st, logs)
  end.
(** [moveDecision] *)
Record MoveRun := mkMoveRun {
  mv_mark : Engine; mv_delete : Engine; mv_append : Append; mv_before_mark : Store → Store; mv_after_mark : Store → Store; mv_after_append : Store → Store }.
Definition moveDecision (now now_append : Z) (run_ : MoveRun) (id : Z) (logs : Logs) (st : Store) : result error unit * Store * Logs :=
  let name := log_name now in
  let '(logs, offset) := open_log logs name in
  let st0 := mv_before_mark run_ st in
  match lenient (full_in_body (mv_mark run_) st0) false (write plain (mv_mark run_) (changed ← markTx name offset id; if changed : bool then mret true else throw Declined) st0) with
  | (Err e, st1) => (Err e, st1, logs)
  | (Ok false, st1) => (Ok tt, st1, logs)
  | (Ok true, st1) =>
      let st2 := mv_after_mark run_ st1 in
      match readDecisionRecord id (board (tables st2)) with
      | None => (Ok tt, st2, logs)
      | Some a => appendAndDelete now_append (mv_append run_) (mv_delete run_) (mv_after_append run_) a name offset logs st2
      end
  end.
(** [finishMove] *)
Definition finishMove (now : Z) (run_ : MoveRun) (id : Z) (logs : Logs) (st : Store) : result error unit * Store * Logs :=
  match decision_items (board (tables st)) !! id with
  | None => (Ok tt, st, logs)
  | Some r =>
      if di_mark_revision r <=? 0 then (Ok tt, st, logs)
      else
        let name := di_mark_file r in
        let offset := di_mark_offset r in
        let revision := di_mark_revision r in
        match l ← read_line logs name offset; a ← ln_record l; if (ar_ID a =? id) && (ar_Revision a =? revision) then Some (ln_length l, a) else None with
        | Some (n, a) => (deleteMoved (mv_delete run_) id (di_reference r) revision name offset n (ar_MovedAt a) (mv_after_append run_ st), logs)
        | None =>
            let '(logs, end_) := open_log logs name in
            let st0 := mv_before_mark run_ st in
            match lenient (full_in_body (mv_mark run_) st0) false (write plain (mv_mark run_) (changed ← remarkTx name offset end_ id revision; if changed : bool then mret true else throw Declined) st0) with
            | (Err e, st1) => (Err e, st1, logs)
            | (Ok false, st1) => (Ok tt, st1, logs)
            | (Ok true, st1) =>
                let st2 := mv_after_mark run_ st1 in
                match readDecisionRecord id (board (tables st2)) with
                | None => (Ok tt, st2, logs)
                | Some a => appendAndDelete now (mv_append run_) (mv_delete run_) (mv_after_append run_) a name end_ logs st2
                end
            end
        end
  end.

(** ** The sweep *)

(** The cursor of the walk ([decisionState]) *)
Definition marked_ids (b : Board) : list Z := take decisionArchiveBatch (fst <$> by_id (λ _ r, 0 <? di_mark_revision r) (decision_items b)).
Definition archive_key (ir : Z * DecisionItemRow) : Z * Z := (di_archived_at ir.2, ir.1).
Definition archive_le (x y : Z * DecisionItemRow) : Prop := (archive_key x).1 < (archive_key y).1 ∨ (archive_key x).1 = (archive_key y).1 ∧ (archive_key x).2 ≤ (archive_key y).2.
#[export] Instance archive_le_dec : RelDecision archive_le.
Proof. intros x y. unfold archive_le. apply _. Defined.
Definition candidate (cutoff : Z) (cursor : Z * Z) (id : Z) (r : DecisionItemRow) : bool :=
  seqb (di_state r) "archived" && (di_archived_at r <? cutoff) && ((cursor.1 <? di_archived_at r) || (di_archived_at r =? cursor.1) && (cursor.2 <? id)).
Definition candidates (cutoff : Z) (cursor : Z * Z) (b : Board) : list (Z * DecisionItemRow) :=
  take decisionArchiveWindow (merge_sort archive_le (select (candidate cutoff cursor) (decision_items b))).
Definition waits_for_ack (id : Z) (b : Board) : bool :=
  exists_where (λ k d, seqb (vd_outcome d) "queued" && match decision_verdicts b !! k.1 with Some v => ve_item_id v =? id | None => false end) (decision_deliveries b).

Fixpoint finish_all (now : Z) (runs : Z → MoveRun) (ids : list Z) (logs : Logs) (st : Store) : result error unit * Store * Logs :=
  match ids with
  | [] => (Ok tt, st, logs)
  | id :: ids => match finishMove now (runs id) id logs st with
                 | (Ok _, st1, logs1) => finish_all now runs ids logs1 st1
                 | answer => answer
                 end
  end.
Fixpoint move_all (now : Z) (runs : Z → MoveRun) (budget : nat) (l : list (Z * DecisionItemRow)) (cursor : Z * Z) (logs : Logs) (st : Store) :
    result error unit * Store * Logs * (Z * Z) :=
  match l with
  | [] => (Ok tt, st, logs, cursor)
  | (id, r) :: l =>
      let cursor := archive_key (id, r) in
      if waits_for_ack id (board (tables st)) then move_all now runs budget l cursor logs st
      else match moveDecision now now (runs id) id logs st with
           | (Ok _, st1, logs1) => match budget with
                                   | S (S budget) => move_all now runs (S budget) l cursor logs1 st1
                                   | _ => (Ok tt, st1, logs1, cursor)
                                   end
           | (Err e, st1, logs1) => (Err e, st1, logs1, cursor)
           end
  end.
(** [archiveDecisions] *)
Definition archiveDecisions (now : Z) (finishes runs : Z → MoveRun) (cursor : Z * Z) (logs : Logs) (st : Store) : result error unit * Store * Logs * (Z * Z) :=
  match finish_all now finishes (marked_ids (board (tables st))) logs st with
  | (Err e, st1, logs1) => (Err e, st1, logs1, cursor)
  | (Ok _, st1, logs1) =>
      let l := candidates (now - decisionArchiveAfter) cursor (board (tables st1)) in
      let '(answer, st2, logs2, cursor2) := move_all now runs decisionArchiveBatch l cursor logs1 st1 in
      (answer, st2, logs2, if bool_decide (length l < decisionArchiveWindow)%nat then (0, 0) else cursor2)
  end.

(** ** The restore *)

(** [insertRow]: a violated key is a refusal. *)
Definition reference_in_use : error := workError "reference_in_use".
Definition insert_rows {K V} `{Countable K} (get : Board → gmap K V) (put : gmap K V → Board → Board) (rows : list (K * V)) : tx unit :=
  each rows (λ kv s, match get (board s) !! kv.1 with
                     | Some _ => Err reference_in_use
                     | None => Ok (tt, s <| board := put (<[kv.1 := kv.2]> (get (board s))) (board s) |>)
                     end).
Definition restored_row (now : Z) (a : decisionRecord) : DecisionItemRow :=
  (ar_Item a) <| di_state := "archived"%string |> <| di_archived_at := now |> <| di_updated_at := now |> <| di_mark_revision := 0 |> <| di_mark_file := ""%string |>
    <| di_mark_offset := 0 |> <| di_verdict_count := Z.of_nat (length (ar_Verdicts a)) |>.
Definition restoreTx (now : Z) (caller : Key) (reference name : string) (offset : Z) (a : decisionRecord) : tx unit :=
  _ ← check (active now caller);
  o ← gets (λ s, decision_deep_archive (board s) !! reference);
  _ ← ensure (match (o : option LocatorRow) with Some l => seqb (dl_file l) name && (dl_offset l =? offset) | None => false end) (workError "not_found");
  _ ← on_board (λ b, b <| decision_deep_archive := delete reference (decision_deep_archive b) |>);
  used ← gets (item_at (di_reference (ar_Item a)));
  _ ← ensure (negb (bool_decide (is_Some (used : option (Z * DecisionItemRow))))) reference_in_use;
  _ ← insert_rows decision_items (λ m b, b <| decision_items := m |>) [(ar_ID a, restored_row now a)];
  _ ← insert_rows decision_recipients (λ m b, b <| decision_recipients := m |>) (ar_Recipients a);
  _ ← insert_rows decision_verdicts (λ m b, b <| decision_verdicts := m |>) (ar_Verdicts a);
  _ ← insert_rows decision_deliveries (λ m b, b <| decision_deliveries := m |>) (ar_Deliveries a);
  _ ← insert_rows decision_withdrawals (λ m b, b <| decision_withdrawals := m |>) (ar_Withdrawals a);
  bumpChange changeDecisions.

Section restore.
Variable is_print : Z → bool.
(** [DecisionRestore]: a withdrawn item is reopened, another comes back from the log.  [st0] is
    the state of the read of the locator. *)
Definition DecisionRestore (now_reopen now : Z) (en_reopen en : Engine) (other : Store → Store) (caller : Key) (reference : string) (ifRevision : Z) (logs : Logs) (st : Store) :
    result error DecisionItem * Store :=
  match first_error [refuse (negb (validKey (Family caller) (ID caller)) || (ifRevision <? 0)) ErrInvalid; checkReference reference] with
  | Some e => (Err e, st)
  | None =>
      match write plain en_reopen (reopenTx now_reopen caller reference ifRevision) st with
      | (Ok _, st1) => (decisionRead is_print reference st1, st1)
      | (Err e, st1) =>
          if negb (bool_decide (e = Declined)) then (Err e, st1)
          else
            let st2 := other st1 in
            match decision_deep_archive (board (tables st2)) !! reference with
            | None => (Err (workError "not_found"), st2)
            | Some l =>
                match x ← read_line logs (dl_file l) (dl_offset l); a ← ln_record x;
                      if (ln_length x =? dl_length l) && seqb (ar_Reference a) reference then Some a else None with
                | None => (Err (workError "decision_unavailable"), st2)
                | Some a =>
                    match write plain en (restoreTx now caller reference (dl_file l) (dl_offset l) a) st2 with
                    | (Err e, st3) => (Err e, st3)
                    | (Ok _, st3) => (decisionRead is_print reference st3, st3)
                    end
                end
            end
      end
  end.
End restore.
