(* ===== verification/Sweeps.v ===== *)
(** * The maintenance sweep (internal/core/retention.go)

    The purge of the sessions that the maintainer marked, with the release of their claims, and
    the whole sweep in its order: purges, acknowledged messages, room posts, retry records of the
    board, the deep archive, inactive sessions. *)

From S2P Require Import Prelude GoString GoFloat Schema Sql Label Fixture Storage Names Messages Sessions Cycles Launches Registrations Retention Participants Rooms RoomPosts Leases WorkViews MemoryLimits MemoryExpiry WorkItems WorkOps Works WorkRequests BoardText Decisions Verdicts DeepArchive.
Open Scope Z_scope.

Definition purgeCheckpoint : string := "Released by the maintainer's purge of the session".

(** [purgeClaim]: a live claim of a marked session, as the sweep read it *)
Record purgeClaim := mkPurgeClaim { pc_repository : string; pc_workID : string; pc_consumer : string; pc_revision : Z; pc_generation : Z; pc_expires : float }.

Section purge.
Context `{SHA : Sha256}.
Variable json_float : float → string.
Variable processStart : Z → ProcessStart.
Variable json_library : string → option string.
Variable l : memoryLimits.

Definition claim_rows (s : State) (kb : (string * Z) * BundleRow) : list purgeClaim :=
  match work_items s !! (kb.1.1, b_work_id kb.2) with
  | Some w => (λ mr, mkPurgeClaim mr.1 (b_work_id kb.2) (b_consumer kb.2) (w_Revision w) kb.1.2 (b_expires_at kb.2)) <$>
                select (λ _ m, seqb (sto_store_id m) kb.1.1) (memory_stores s)
  | None => []
  end.
Definition purgeClaims (k : Key) (s : State) : list purgeClaim :=
  order_by (λ kb : (string * Z) * BundleRow, kb.1.2) (select (λ _ b, holds_bundle k b) (claim_bundles s)) ≫= claim_rows s.

(** The arguments of one release: the clock that the expiry is compared with, what ran before the
    release, the clocks of the operation, and its other arguments *)
Record ReleaseTurn := mkReleaseTurn {
  rt_seen : float; rt_other : Store → Store; rt_clock : float; rt_ms : Z; rt_at : Z; rt_fresh : string; rt_fuel : nat; rt_engines : Engines }.
Definition release_fields (c : purgeClaim) : gmap string raw := list_to_map
  [("work_id", RText (pc_workID c)); ("if_revision", RNumber (Some (pc_revision c)) (Some (of_int (pc_revision c))));
   ("claim_generation", RNumber (Some (pc_generation c)) (Some (of_int (pc_generation c)))); ("checkpoint", RText purgeCheckpoint)]%string.
Definition maintainer_caller (repository consumer : string) : MemoryCaller := mkMemoryCaller repository (Family maintainerKey) "maintainer" consumer (mkKey "" "") false.
(** [Work] of the maintainer, whose calls have no guard *)
Definition maintainerWork (m : MemoryCaller) (op : string) (fields : gmap string raw) (t : ReleaseTurn) (last : gmap string float) (st : Store) :
    result error WorkResult * Store * gmap string float :=
  match parseWork op fields with
  | Err e => (Err e, st, last)
  | Ok r => workMutation json_float processStart json_library l (rt_fresh t) m r (rt_clock t) (rt_ms t) (rt_at t) None (rt_fuel t) (rt_engines t) last st
  end.
(** [releaseMarked]: whether the session is still marked, and whether its claim was released *)
Definition releaseMarked (k : Key) (c : purgeClaim) (t : ReleaseTurn) (last : gmap string float) (st : Store) : result error (bool * bool) * Store * gmap string float :=
  let st := rt_other t st in
  if negb (purgeMarkStands k (tables st)) then (Ok (false, false), st, last)
  else match maintainerWork (maintainer_caller (pc_repository c) (pc_consumer c)) "work-release" (release_fields c) t last st with
       | (Ok _, st', last') => (Ok (true, true), st', last')
       | (Err (WorkRefusal _ _), st', last') => (Ok (true, false), st', last')
       | (Err e, st', last') => (Err e, st', last')
       end.
(** The loop of [releasePurged] *)
Fixpoint release_all (k : Key) (turns : nat → ReleaseTurn) (claims : list purgeClaim) (all : bool) (last : gmap string float) (st : Store) :
    result error (bool * bool) * Store * gmap string float :=
  match claims with
  | [] => let st := rt_other (turns 0%nat) st in (Ok (all, purgeMarkStands k (tables st)), st, last)
  | c :: claims =>
      let t := turns (length claims) in
      if fleb (pc_expires c) (rt_seen t) then release_all k turns claims false last st
      else match releaseMarked k c t last st with
           | (Err e, st', last') => (Err e, st', last')
           | (Ok (false, _), st', last') => (Ok (false, false), st', last')
           | (Ok (true, released), st', last') => release_all k turns claims (all && released) last' st'
           end
  end.
Definition releasePurged (k : Key) (turns : nat → ReleaseTurn) (last : gmap string float) (st : Store) : result error (bool * bool) * Store * gmap string float :=
  release_all k turns (purgeClaims k (tables st)) true last st.

(** One marked session: the budget that is left, the counts and whether the budget ended the purge *)
Record PurgeTurn := mkPurgeTurn { pt_release : nat → ReleaseTurn; pt_batch : nat → Turn; pt_delete : Turn }.
Definition purge_one (k : Key) (t : PurgeTurn) (budget : Z) (counts : RetentionCounts) (last : gmap string float) (st : Store) :
    result error (Z * RetentionCounts * bool) * Store * gmap string float :=
  match releasePurged k (pt_release t) last st with
  | (Err e, st1, last1) => (Err e, st1, last1)
  | (Ok (_, false), st1, last1) => (Ok (budget, counts, false), st1, last1)
  | (Ok (false, true), st1, last1) => (Ok (budget, counts <| HeldClaims := HeldClaims counts + 1 |>, false), st1, last1)
  | (Ok (true, true), st1, last1) =>
      match drain (deletePurgedBatch k) (Z.to_nat budget) (pt_batch t) budget 0 st1 with
      | (Err e, st2) => (Err e, st2, last1)
      | (Ok (budget, deleted), st2) =>
          let counts := counts <| MessagesByPurge := MessagesByPurge counts + deleted |> in
          if budget <=? 0 then (Ok (budget, counts, true), st2, last1)
          else match deleteSession (pt_delete t) k (λ r, negb (s_purge_at r =? 0)) st2 with
               | (Err e, st3) => (Err e, st3, last1)
               | (Ok gone, st3) => (Ok (budget, if gone : bool then counts <| SessionsByPurge := SessionsByPurge counts + 1 |> else counts, false), st3, last1)
               end
      end
  end.
Fixpoint purge_all (turns : Key → PurgeTurn) (keys : list Key) (budget : Z) (counts : RetentionCounts) (last : gmap string float) (st : Store) :
    result error (Z * RetentionCounts) * Store * gmap string float :=
  match keys with
  | [] => (Ok (budget, counts), st, last)
  | k :: keys =>
      match purge_one k (turns k) budget counts last st with
      | (Err e, st', last') => (Err e, st', last')
      | (Ok (budget, counts, true), st', last') => (Ok (budget, counts), st', last')
      | (Ok (budget, counts, false), st', last') => purge_all turns keys budget counts last' st'
      end
  end.
(** [purgeMarked] *)
Definition purgeMarked (turns : Key → PurgeTurn) (budget : Z) (counts : RetentionCounts) (last : gmap string float) (st : Store) :
    result error (Z * RetentionCounts) * Store * gmap string float :=
  purge_all turns (sessionKeys s_purge_at (λ k r, negb (s_purge_at r =? 0) && no_maintainer k) (tables st)) budget counts last st.

(** ** The sweep *)

(** The arguments of a sweep, part by part *)
Record SweepTurns := mkSweepTurns {
  st_purge : Key → PurgeTurn;
  st_now : Z; st_due : Key → nat → Turn; st_mark : Turn;
  st_posts : nat → Z * Z * Engine; st_clock : float; st_replays_at : Z; st_replays : Engine;
  st_board_clock : float; st_board : Engine;
  st_archive_now : Z; st_finishes : Z → MoveRun; st_moves : Z → MoveRun;
  st_idle_now : Z; st_idle : Key → Turn }.
(** What a sweep carries: the store, the log files and the cursor of the deep archive, and the
    times of the last expiries *)
Record World := mkWorld { wo_store : Store; wo_logs : Logs; wo_cursor : Z * Z; wo_last : gmap string float }.
#[export] Instance World_eta : Eta World := λ w, mkWorld (wo_store w) (wo_logs w) (wo_cursor w) (wo_last w).

(** [cull] *)
Definition cull (p : Periods) (t : SweepTurns) (w : World) : result error RetentionCounts * World :=
  match purgeMarked (st_purge t) cullBudget (mkCounts 0 0 0 0 0 0) (wo_last w) (wo_store w) with
  | (Err e, st1, last1) => (Err e, w <| wo_store := st1 |> <| wo_last := last1 |>)
  | (Ok (budget, counts), st1, last1) =>
  let w := w <| wo_last := last1 |> in
  match deleteAcknowledged p (st_now t) (st_due t) (st_mark t) budget st1 with
  | (Err e, st2) => (Err e, w <| wo_store := st2 |>)
  | (Ok (budget, deleted), st2) =>
  let counts := counts <| MessagesByRetention := MessagesByRetention counts + deleted |> in
  match cullRoomPosts budget (st_posts t) (st_clock t) (st_replays_at t) (st_replays t) st2 with
  | (Err e, st3) => (Err e, w <| wo_store := st3 |>)
  | (Ok _, st3) =>
  match cullDecisionReplays (st_board_clock t) (st_board t) st3 with
  | (Err e, st4) => (Err e, w <| wo_store := st4 |>)
  | (Ok _, st4) =>
  match archiveDecisions (st_archive_now t) (st_finishes t) (st_moves t) (wo_cursor w) (wo_logs w) st4 with
  | (Err e, st5, logs, cursor) => (Err e, w <| wo_store := st5 |> <| wo_logs := logs |> <| wo_cursor := cursor |>)
  | (Ok _, st5, logs, cursor) =>
  let w := w <| wo_logs := logs |> <| wo_cursor := cursor |> in
  match deleteInactive p (st_idle_now t) (st_idle t) st5 with
  | (Err e, st6) => (Err e, w <| wo_store := st6 |>)
  | (Ok (unacknowledged, claims, gone), st6) =>
      (Ok (counts <| HeldUnacknowledged := unacknowledged |> <| HeldClaims := claims |> <| SessionsByRetention := SessionsByRetention counts + gone |>),
       w <| wo_store := st6 |>)
  end end end end end end.
End purge.

(** The result of the last sweeps ([retentionState]) *)
Record retentionState := mkRetention { re_lastSweep : option Z; re_last : option RetentionCounts; re_fault : option error; re_faultAt : option Z }.
#[export] Instance retentionState_eta : Eta retentionState := λ r, mkRetention (re_lastSweep r) (re_last r) (re_fault r) (re_faultAt r).
(** [Cull]: a failed sweep keeps the last good one and reports its fault. *)
Definition swept (now : Z) (answer : result error RetentionCounts) (r : retentionState) : retentionState :=
  match answer with
  | Err e => r <| re_fault := Some e |> <| re_faultAt := Some now |>
  | Ok counts => mkRetention (Some now) (Some counts) None None
  end.

(** What the counts of a whole sweep say of held claims: the sessions that the purge kept, which
    [purge_one] counted, are not among them, since they are marked. *)
Lemma cull_held_claims `{SHA : Sha256} jf ps jl l p t w counts w' : cull jf ps jl l p t w = (Ok counts, w') → ∃ st,
  let s := tables st in HeldClaims counts = count_where (λ k r, no_maintainer k && ((s_purge_at r =? 0) && inactiveSince (st_idle_now t - snd (retentionPeriods p)) r) && liveClaim k s) (sessions s).
Proof.
  unfold cull. destruct (purgeMarked _ _ _ _ _ _ _ _ _) as [[[[b c]|e] st1] l1]; [|done]. destruct (deleteAcknowledged _ _ _ _ _ _) as [[[b2 d]|e] st2]; [|done].
  destruct (cullRoomPosts _ _ _ _ _ _) as [[r|e] st3]; [|done]. destruct (cullDecisionReplays _ _ _) as [[u|e] st4]; [|done].
  destruct (archiveDecisions _ _ _ _ _ _) as [[[[v|e] st5] logs] cursor]; [|done]. destruct (deleteInactive _ _ _ _) as [[[[x y] g]|e] st6] eqn:E; [|done].
  intros [= <- <-]. exists st5. cbn. unfold deleteInactive in E. destruct (delete_all _ _ _ _ _) as [[n|e] st7]; [|done]. injection E as <- <- <- <-. done.
Qed.
