(* ===== verification/BoardProps.v ===== *)
(** * The life of a card

    Every card of the board is in one of five phases: it waits, its approved work is in progress,
    it was returned with feedback, it is done, or an agent withdrew it.  This file states what a
    card's row, its verdicts and its withdrawals say in each phase, that every transaction of the
    board keeps it, and which moves between phases there are. *)

From S2P Require Import Prelude GoString GoFloat Schema Sql Label Storage Names Messages Cycles Launches Leases WorkViews BoardText Decisions Verdicts.
Open Scope Z_scope.

(** ** One card *)

Section card.
Implicit Types (vs : gmap Z VerdictRow) (ws : gmap Z WithdrawalRow) (r : DecisionItemRow).

Definition below {V} (m : gmap Z V) (n : Z) : Prop := ∀ i v, m !! i = Some v → i ≤ n.
(** The verdict in force, and the withdrawal that stands: both are the latest of their table. *)
Definition in_force vs (i : Z) (v : VerdictRow) : Prop := vs !! i = Some v ∧ ve_superseded_at v = 0 ∧ below vs i.
Definition stands ws (i : Z) (w : WithdrawalRow) : Prop := ws !! i = Some w ∧ dw_reopened_at w = 0 ∧ below ws i.
Definition no_verdict vs : Prop := ∀ i v, vs !! i = Some v → ve_superseded_at v ≠ 0.
Definition no_withdrawal ws : Prop := ∀ i w, ws !! i = Some w → dw_reopened_at w ≠ 0.

(** The verdict was given on the card as it is: on its revision, with its text, and one that
    its kind takes. *)
Definition on_card r (v : VerdictRow) : Prop :=
  ve_revision v = di_revision r ∧ ve_snapshot v = snapshot_of r ∧ ve_verdict v ∈ kindVerdicts (di_kind r).

Inductive phase := Waiting_ | InProgress (v : string) | Returned | Done (v : string) | Withdrawn.
(** What the tables say of a card in a phase *)
Definition phase_is r vs ws (p : phase) : Prop :=
  match p with
  | Waiting_ => di_state r = "active"%string ∧ di_archived_at r = 0 ∧ no_verdict vs ∧ no_withdrawal ws
  | InProgress v => di_state r = "in_progress"%string ∧ di_archived_at r = 0 ∧ v = "approved"%string ∧
      (∃ i row, in_force vs i row ∧ ve_verdict row = v ∧ on_card r row) ∧ no_withdrawal ws
  | Returned => di_state r = "returned"%string ∧ di_archived_at r = 0 ∧
      (∃ i row, in_force vs i row ∧ ve_verdict row = "feedback"%string ∧ on_card r row) ∧ no_withdrawal ws
  | Done v => di_state r = "archived"%string ∧ di_archived_at r ≠ 0 ∧ (verdictState v = "archived"%string ∨ v = "approved"%string ∧ di_closed_at r ≠ 0) ∧
      (∃ i row, in_force vs i row ∧ ve_verdict row = v ∧ on_card r row) ∧ no_withdrawal ws
  | Withdrawn => di_state r = "archived"%string ∧ di_archived_at r ≠ 0 ∧ no_verdict vs ∧
      ∃ i w, stands ws i w ∧ dw_revision w = di_revision r
  end.

Record card_ok r vs ws : Prop := {
  co_revision : 1 ≤ di_revision r;
  co_kind : di_kind r ∈ decisionKinds;
  co_count : di_verdict_count r = Z.of_nat (size vs);
  co_verdicts : ∀ i v, vs !! i = Some v → 1 ≤ ve_revision v ≤ di_revision r ∧ (ve_superseded_at v = 0 → below vs i);
  co_withdrawals : ∀ i w, ws !! i = Some w → 1 ≤ dw_revision w ≤ di_revision r ∧ (dw_reopened_at w = 0 → below ws i);
  co_mark : di_mark_revision r = 0 ∨ di_state r = "archived"%string ∧ di_mark_revision r = di_revision r;
  co_phase : ∃ p, phase_is r vs ws p }.

Lemma in_force_unique vs i v j w : in_force vs i v → in_force vs j w → i = j ∧ v = w.
Proof. intros (Hi & _ & Hbi) (Hj & _ & Hbj). assert (i = j) as -> by (pose proof (Hbi _ _ Hj); pose proof (Hbj _ _ Hi); lia). split; congruence. Qed.
Lemma phase_functional r vs ws p q : phase_is r vs ws p → phase_is r vs ws q → p = q.
Proof.
  destruct p, q; cbn; intros; destruct_and?; try congruence;
    repeat match goal with H : ∃ _ _, in_force _ _ _ ∧ _ |- _ => destruct H as (? & ? & ? & ? & ?) end;
    repeat match goal with H : ∃ _ _, stands _ _ _ ∧ _ |- _ => destruct H as (? & ? & ? & ?) end;
    try (match goal with H1 : in_force ?vs ?i ?v, H2 : in_force ?vs ?j ?w |- _ => destruct (in_force_unique _ _ _ _ _ H1 H2) as [-> ->] end; congruence);
    exfalso; match goal with
    | H1 : no_verdict _, H2 : in_force _ _ _ |- _ => destruct H2 as (Hl & Hz & _); exact (H1 _ _ Hl Hz)
    | H1 : no_withdrawal _, H2 : stands _ _ _ |- _ => destruct H2 as (Hl & Hz & _); exact (H1 _ _ Hl Hz)
    end.
Qed.

(** *** The moves *)

Definition superseded_in (now : Z) vs : gmap Z VerdictRow := update_where (λ _ v, ve_superseded_at v =? 0) (λ v, v <| ve_superseded_at := now |>) vs.
Definition ended_in (now : Z) (by_ : string) ws : gmap Z WithdrawalRow :=
  update_where (λ _ w, dw_reopened_at w =? 0) (λ w, w <| dw_reopened_at := now |> <| dw_reopened_by := by_ |>) ws.

Lemma size_update_where {K V} `{Countable K} (P : K → V → bool) f (m : gmap K V) : size (update_where P f m) = size m.
Proof.
  rewrite <-!(size_dom (D := gset K)). f_equal. apply set_eq. intros k. rewrite !elem_of_dom, lookup_update_where.
  by destruct (m !! k).
Qed.
Lemma superseded_lookup now vs i v : superseded_in now vs !! i = Some v → ∃ v0, vs !! i = Some v0 ∧ ve_revision v = ve_revision v0 ∧
  (now ≠ 0 → ve_superseded_at v ≠ 0).
Proof.
  intros (v0 & Hl & ->)%lookup_update_where_Some. exists v0. split; [done|]. destruct (Z.eqb_spec (ve_superseded_at v0) 0); [|done]. by destruct v0.
Qed.
Lemma ended_lookup now by_ ws i w : ended_in now by_ ws !! i = Some w → ∃ w0, ws !! i = Some w0 ∧ dw_revision w = dw_revision w0 ∧
  (now ≠ 0 → dw_reopened_at w ≠ 0).
Proof.
  intros (w0 & Hl & ->)%lookup_update_where_Some. exists w0. split; [done|]. destruct (Z.eqb_spec (dw_reopened_at w0) 0); [|done]. by destruct w0.
Qed.
Lemma no_verdict_superseded now vs : now ≠ 0 → no_verdict (superseded_in now vs).
Proof. intros Hn i v (v0 & _ & _ & Hs)%superseded_lookup. by apply Hs. Qed.
Lemma no_withdrawal_ended now by_ ws : now ≠ 0 → no_withdrawal (ended_in now by_ ws).
Proof. intros Hn i w (w0 & _ & _ & Hs)%ended_lookup. by apply Hs. Qed.
Lemma below_insert {V} (m : gmap Z V) n i v : below m n → i ≤ n → below (<[i:=v]> m) n.
Proof. intros Hb Hi j w [[-> _]|[_ Hj]]%lookup_insert_Some; [done|by eapply Hb]. Qed.

(** A new card *)
Lemma new_card now caller reference f author participant : from_option (λ k, k ∈ decisionKinds) False (f_Kind f) →
  card_ok (new_item now caller reference f author participant) ∅ ∅.
Proof.
  intros Hk. split; cbn; try done; [by destruct (f_Kind f)|by left|]. exists Waiting_. by repeat split.
Qed.

(** The maintainer's verdict on a waiting card *)
Lemma judged_card now r vs ws id verdict note via vid : now ≠ 0 → card_ok r vs ws → phase_is r vs ws Waiting_ →
  verdict ∈ kindVerdicts (di_kind r) → below vs (vid - 1) →
  let v := mkVerdictRow id (di_revision r) verdict note now (snapshot_of r) 0 via in
  card_ok (judged_row now verdict r) (<[vid := v]> vs) ws ∧
  phase_is (judged_row now verdict r) (<[vid := v]> vs) ws
    (if seqb verdict "approved" then InProgress verdict else if seqb verdict "feedback" then Returned else Done verdict).
Proof.
  intros Hn Hc (Hst & Ha & Hv & Hw) Hk Hb v. destruct Hc as [H1 Hkd H2 H3 H4 H5 _].
  assert (vs !! vid = None) as Hf by (destruct (vs !! vid) eqn:E; [pose proof (Hb _ _ E); lia|done]).
  assert (in_force (<[vid := v]> vs) vid v) as Hin.
  { split_and!; [apply lookup_insert_eq|done|]. apply below_insert; [|lia]. intros i w Hi. pose proof (Hb _ _ Hi). lia. }
  assert (phase_is (judged_row now verdict r) (<[vid := v]> vs) ws
    (if seqb verdict "approved" then InProgress verdict else if seqb verdict "feedback" then Returned else Done verdict)) as Hp.
  { unfold judged_row. assert (on_card (judged_row now verdict r) v) as Hon by by split_and!.
    assert (∃ i row, in_force (<[vid:=v]> vs) i row ∧ ve_verdict row = verdict ∧ on_card (judged_row now verdict r) row) as Hex by by exists vid, v.
    unfold judged_row in *. unfold verdictState in *. destruct (seqb verdict "approved") eqn:Ea; [apply seqb_true in Ea as ->; by split_and!|].
    destruct (seqb verdict "feedback") eqn:Ef; [apply seqb_true in Ef as ->; by split_and!|].
    cbn. split_and!; try done. left. unfold verdictState. by rewrite Ea, Ef. }
  split; [|done]. split; cbn; try done; [| |by left|by eexists].
  - rewrite map_size_insert_None by done. lia.
  - intros i w [[<- <-]|[Hi Hl]]%lookup_insert_Some; cbn.
    + split; [lia|]. intros _. apply Hin.
    + destruct (H3 _ _ Hl) as [? _]. split; [done|]. intros Hz. by destruct (Hv _ _ Hl).
Qed.

(** The close of approved work *)
Lemma closed_card now r vs ws v closer note : now ≠ 0 → card_ok r vs ws → phase_is r vs ws (InProgress v) →
  let r' := (archived_row now r) <| di_closed_by := closer |> <| di_closed_at := now |> <| di_outcome_note := note |> in
  card_ok r' vs ws ∧ phase_is r' vs ws (Done v).
Proof.
  intros Hn [H1 Hkd H2 H3 H4 H5 _] (Hst & Ha & -> & Hex & Hw) r'.
  assert (phase_is r' vs ws (Done "approved")) as Hp by (split_and!; try done; right; done).
  split; [|done]. split; cbn; try done; [destruct H5 as [H5|[H5 _]]; [by left|congruence]|by eexists].
Qed.

(** A withdrawal of a waiting or returned card *)
Lemma withdrawn_card now r vs ws id family peer reason wid : now ≠ 0 → card_ok r vs ws → phase_is r vs ws Waiting_ ∨ phase_is r vs ws Returned →
  below ws (wid - 1) →
  let w := mkWithdrawalRow id (di_revision r) family peer reason now 0 "" in
  card_ok (archived_row now r) (superseded_in now vs) (<[wid := w]> ws) ∧
  phase_is (archived_row now r) (superseded_in now vs) (<[wid := w]> ws) Withdrawn.
Proof.
  intros Hn [H1 Hkd H2 H3 H4 H5 _] Hp Hb w.
  assert (di_state r ≠ "archived"%string ∧ no_withdrawal ws) as [Hst Hnw].
  { destruct Hp as [(E & _ & _ & Hw)|(E & _ & _ & Hw)]; by rewrite E. }
  assert (stands (<[wid := w]> ws) wid w) as Hin.
  { split_and!; [apply lookup_insert_eq|done|]. apply below_insert; [|lia]. intros i x Hi. pose proof (Hb _ _ Hi). lia. }
  assert (phase_is (archived_row now r) (superseded_in now vs) (<[wid := w]> ws) Withdrawn) as Hp'.
  { split_and!; try done; [by apply no_verdict_superseded|]. by exists wid, w. }
  split; [|done]. split; cbn; try done; [| | | |by eexists].
  - unfold superseded_in. by rewrite size_update_where.
  - intros i v (v0 & Hl & -> & Hs)%superseded_lookup. destruct (H3 _ _ Hl) as [? _]. split; [done|]. intros Hz. by destruct (Hs Hn).
  - intros i x [[<- <-]|[Hi Hl]]%lookup_insert_Some; cbn.
    + split; [lia|]. intros _. apply Hin.
    + destruct (H4 _ _ Hl) as [? _]. split; [done|]. intros Hz. by destruct (Hnw _ _ Hl).
  - destruct H5 as [H5|[H5 _]]; [by left|done].
Qed.

(** A reopen by an edit or a restore: the card waits again, at the next revision *)
Lemma reopened_card now by_ r r' vs ws : now ≠ 0 → card_ok r vs ws → di_state r' = "active"%string → di_archived_at r' = 0 →
  di_mark_revision r' = 0 → di_revision r' = di_revision r + 1 → di_verdict_count r' = di_verdict_count r → di_kind r' ∈ decisionKinds →
  card_ok r' (superseded_in now vs) (ended_in now by_ ws) ∧ phase_is r' (superseded_in now vs) (ended_in now by_ ws) Waiting_.
Proof.
  intros Hn [H1 Hkd H2 H3 H4 H5 _] E1 E2 E3 E4 E5 E6.
  assert (phase_is r' (superseded_in now vs) (ended_in now by_ ws) Waiting_) as Hp.
  { split_and!; try done; [by apply no_verdict_superseded|by apply no_withdrawal_ended]. }
  split; [|done]. split; try done; [lia| | | |by left|by eexists].
  - unfold superseded_in. by rewrite size_update_where, E5.
  - intros i v (v0 & Hl & -> & Hs)%superseded_lookup. destruct (H3 _ _ Hl) as [? _]. split; [lia|]. intros Hz. by destruct (Hs Hn).
  - intros i w (w0 & Hl & -> & Hs)%ended_lookup. destruct (H4 _ _ Hl) as [? _]. split; [lia|]. intros Hz. by destruct (Hs Hn).
Qed.
End card.
