(* ===== verification/BoardSteps.v ===== *)
(** * The board over any sequence of transactions

    The tables of the board agree with each other and with the phase of every card, whatever
    transactions run in whatever order; and between two states a card moves only along the
    arrows of its life. *)

From S2P Require Import Prelude GoString GoFloat Schema Sql Label Storage Names Messages Inboxes Cycles Launches Leases WorkViews BoardText Decisions Verdicts BoardProps.
Open Scope Z_scope.

(** ** Rows by their ID *)

Lemma latest_Some {V} (P : Z → V → bool) (m : gmap Z V) k v : latest P m = Some (k, v) →
  m !! k = Some v ∧ P k v = true ∧ ∀ k' v', m !! k' = Some v' → P k' v' = true → k' ≤ k.
Proof.
  intros E. unfold latest in E. apply last_Some in E as (l & E). pose proof (order_by_sorted fst (select P m)) as Hs. unfold by_id in E. rewrite E in Hs.
  apply StronglySorted_app in Hs as (Hle & _ & _).
  assert (∀ x, x ∈ select P m ↔ x ∈ l ++ [(k, v)]) as Hin by (intros x; by rewrite <-E, elem_of_order_by).
  assert ((k, v) ∈ select P m) as [Hl Hp]%elem_of_select by (apply Hin; set_solver). split_and!; [done..|]. intros k' v' Hl' Hp'.
  assert ((k', v') ∈ l ++ [(k, v)]) as [Hk|Hk]%elem_of_app by by apply Hin, elem_of_select.
  - exact (Hle _ _ Hk (list_elem_of_here _ _)).
  - apply list_elem_of_singleton in Hk as [= -> ->]. lia.
Qed.
Lemma latest_None {V} (P : Z → V → bool) (m : gmap Z V) : latest P m = None → ∀ k v, m !! k = Some v → P k v = false.
Proof.
  intros E. unfold latest in E. apply last_None in E. unfold by_id in E. intros k v Hl. destruct (P k v) eqn:Hp; [|done].
  assert ((k, v) ∈ order_by fst (select P m)) as Hin by by apply elem_of_order_by, elem_of_select. rewrite E in Hin. by apply elem_of_nil in Hin.
Qed.

Section mine.
Context {V : Type} (get : V → Z).
(** The rows of one item *)
Definition mine (id : Z) (m : gmap Z V) : gmap Z V := filter (λ iv, get iv.2 = id) m.
Lemma lookup_mine id m i v : mine id m !! i = Some v ↔ m !! i = Some v ∧ get v = id.
Proof. unfold mine. by rewrite map_lookup_filter_Some. Qed.
Lemma mine_insert id m i v : m !! i = None → mine id (<[i := v]> m) = if decide (get v = id) then <[i := v]> (mine id m) else mine id m.
Proof.
  intros Hf. unfold mine. case_decide; [by apply map_filter_insert_True|]. apply map_filter_insert_not'; [done|]. intros y Hy. congruence.
Qed.
Lemma mine_update id id' (Q : V → bool) f m : (∀ v, get (f v) = get v) →
  mine id (update_where (λ i v, of_item get id' i v && Q v) f m) = if decide (id = id') then update_where (λ _ v, Q v) f (mine id m) else mine id m.
Proof.
  intros Hf. apply map_eq. intros i. apply option_eq. intros v. rewrite lookup_mine, lookup_update_where_Some. unfold of_item. case_decide as E.
  - subst id'. rewrite lookup_update_where_Some. split.
    + intros ((v0 & Hl & ->) & Hg). exists v0. assert (get v0 = id) as Hg0 by (destruct (_ && _) in Hg; [by rewrite Hf in Hg|done]).
      rewrite lookup_mine. split; [done|]. by rewrite Hg0, Z.eqb_refl.
    + intros (v0 & [Hl Hg]%lookup_mine & ->). split; [|destruct (Q v0); by rewrite ?Hf]. exists v0. split; [done|]. by rewrite Hg, Z.eqb_refl.
  - rewrite lookup_mine. split.
    + intros ((v0 & Hl & ->) & Hg). assert (get v0 = id) as Hg0 by (destruct (_ && _) in Hg; [by rewrite Hf in Hg|done]).
      rewrite Hg0, (proj2 (Z.eqb_neq id id')) by done. done.
    + intros [Hl Hg]. split; [|done]. exists v. split; [done|]. by rewrite Hg, (proj2 (Z.eqb_neq id id')).
Qed.
Lemma mine_empty id m : (∀ i v, m !! i = Some v → get v ≠ id) → mine id m = ∅.
Proof. intros Hn. apply map_empty. intros i. apply eq_None_not_Some. intros [v [Hl Hg]%lookup_mine]. by eapply Hn. Qed.
End mine.
Arguments mine_empty {V} get id m.

Abbreviation verdicts_of b id := (mine ve_item_id id (decision_verdicts b)).
Abbreviation withdrawals_of b id := (mine dw_item_id id (decision_withdrawals b)).

(** ** The invariant *)

Definition delivery_outcomes : list string := ["queued"; "skipped"; "acknowledged"]%string.
Record board_ok (b : Board) : Prop := {
  bo_issued : 0 ≤ decision_items_issued b;
  bo_items : ∀ id r, decision_items b !! id = Some r → 1 ≤ id ≤ decision_items_issued b ∧ card_ok r (verdicts_of b id) (withdrawals_of b id);
  bo_references : ∀ i j r r', decision_items b !! i = Some r → decision_items b !! j = Some r' → di_reference r = di_reference r' → i = j;
  bo_reserved : ∀ i r, decision_items b !! i = Some r → decision_deep_archive b !! di_reference r = None;
  bo_verdicts : ∀ i v, decision_verdicts b !! i = Some v → i ≤ decision_verdicts_issued b ∧ is_Some (decision_items b !! ve_item_id v);
  bo_withdrawals : ∀ i w, decision_withdrawals b !! i = Some w → i ≤ decision_withdrawals_issued b ∧ is_Some (decision_items b !! dw_item_id w);
  bo_recipients : ∀ k r, decision_recipients b !! k = Some r → is_Some (decision_items b !! k.1);
  bo_deliveries : ∀ k d, decision_deliveries b !! k = Some d → is_Some (decision_verdicts b !! k.1) ∧ vd_outcome d ∈ delivery_outcomes ∧
    (vd_outcome d = "skipped"%string ↔ vd_reason d ≠ ""%string) }.

(** A board on which one card changed *)
Record one_card (b b' : Board) (id : Z) (r' : DecisionItemRow) : Prop := {
  oc_items : decision_items b' = <[id := r']> (decision_items b);
  oc_issued : decision_items_issued b' = decision_items_issued b;
  oc_archive : decision_deep_archive b' = decision_deep_archive b;
  oc_verdicts : ∀ i, i ≠ id → verdicts_of b' i = verdicts_of b i;
  oc_withdrawals : ∀ i, i ≠ id → withdrawals_of b' i = withdrawals_of b i;
  oc_verdict_ids : below (verdicts_of b' id) (decision_verdicts_issued b') ∧ decision_verdicts_issued b ≤ decision_verdicts_issued b';
  oc_withdrawal_ids : below (withdrawals_of b' id) (decision_withdrawals_issued b') ∧ decision_withdrawals_issued b ≤ decision_withdrawals_issued b';
  oc_recipients : ∀ k x, decision_recipients b' !! k = Some x → k.1 = id ∨ decision_recipients b !! k = Some x;
  oc_deliveries : ∀ k d, decision_deliveries b' !! k = Some d → is_Some (decision_verdicts b' !! k.1) ∧ vd_outcome d ∈ delivery_outcomes ∧
    (vd_outcome d = "skipped"%string ↔ vd_reason d ≠ ""%string) }.
Lemma one_card_ok b b' id r r' : board_ok b → decision_items b !! id = Some r → di_reference r' = di_reference r → one_card b b' id r' →
  card_ok r' (verdicts_of b' id) (withdrawals_of b' id) → board_ok b'.
Proof.
  intros [B0 B1 B2 B3 B4 B5 B6 B7] Hi Hr [O1 O2 O3 O4 O5 [O6 O6'] [O7 O7'] O8 O9] Hc.
  assert (∀ i, is_Some (decision_items b !! i) → is_Some (decision_items b' !! i)) as Hdom by (intros i Hs; rewrite O1; apply lookup_insert_is_Some'; by right).
  assert (∀ i x, decision_items b' !! i = Some x → ∃ x0, decision_items b !! i = Some x0 ∧ di_reference x = di_reference x0) as Hold.
  { intros i x. rewrite O1, lookup_insert_Some. intros [[<- <-]|[_ Hx]]; eauto. }
  split; [by rewrite O2| | | | | | |exact O9].
  - intros i x Hx. rewrite O2. rewrite O1, lookup_insert_Some in Hx. destruct Hx as [[<- <-]|[Hne Hx]]; [by split; [eapply B1|]|].
    apply not_eq_sym in Hne. rewrite O4, O5 by exact Hne. by apply B1.
  - intros i j x y Hx Hy E. apply Hold in Hx as (x0 & Hx & Ex), Hy as (y0 & Hy & Ey). eapply B2; [exact Hx|exact Hy|congruence].
  - intros i x Hx. rewrite O3. apply Hold in Hx as (x0 & Hx & ->). by eapply B3.
  - intros i v Hv. destruct (decide (ve_item_id v = id)) as [E|E].
    + split; [eapply O6; by apply lookup_mine|]. rewrite E. apply Hdom. eauto.
    + assert (verdicts_of b' (ve_item_id v) !! i = Some v) as Hm by by apply lookup_mine.
      rewrite O4 in Hm by exact E. apply lookup_mine in Hm as [Hm _]. destruct (B4 _ _ Hm). split; [lia|by apply Hdom].
  - intros i w Hw. destruct (decide (dw_item_id w = id)) as [E|E].
    + split; [eapply O7; by apply lookup_mine|]. rewrite E. apply Hdom. eauto.
    + assert (withdrawals_of b' (dw_item_id w) !! i = Some w) as Hm by by apply lookup_mine.
      rewrite O5 in Hm by exact E. apply lookup_mine in Hm as [Hm _]. destruct (B5 _ _ Hm). split; [lia|by apply Hdom].
  - intros k x Hx. apply O8 in Hx as [->|Hx]; [apply Hdom; eauto|by eapply Hdom, B6].
Qed.
Lemma below_mine {V} (get : V → Z) (m : gmap Z V) id n : (∀ i v, m !! i = Some v → i ≤ n) → below (mine get id m) n.
Proof. intros Hb i v [Hl _]%lookup_mine. by eapply Hb. Qed.

(** ** The parts of the transactions *)

Lemma item_at_Some reference s id r : item_at reference s = Some (id, r) → decision_items (board s) !! id = Some r ∧ di_reference r = reference.
Proof. unfold item_at. intros [Hl Hr]%elem_of_first. split; [done|]. by apply seqb_true. Qed.
Lemma item_at_None reference s : item_at reference s = None → ∀ id r, decision_items (board s) !! id = Some r → di_reference r ≠ reference.
Proof. unfold item_at. intros E id r Hl. pose proof (first_None _ _ E _ _ Hl) as Hn. by apply seqb_false. Qed.
Lemma decisionRow_Ok reference s id r s' : decisionRow reference s = Ok ((id, r), s') → s' = s ∧ decision_items (board s) !! id = Some r ∧ di_reference r = reference.
Proof.
  unfold decisionRow. destruct (item_at reference s) as [[id' r']|] eqn:E; [intros [= -> -> ->]; split; [done|by apply item_at_Some]|].
  by destruct (_ !! _).
Qed.
Lemma on_board_Ok f s u s' : on_board f s = Ok (u, s') → s' = s <| board := f (board s) |>.
Proof. unfold on_board. by intros [= _ <-]%modify_Ok. Qed.
Lemma bumpChange_Ok topic s u s' : bumpChange topic s = Ok (u, s') → ∃ g, s' = s <| change_versions := g |>.
Proof. unfold bumpChange. intros [= _ ->]%modify_Ok. by eexists. Qed.

(** The board after the keyed receipt of an operation *)
Lemma board_replay_Ok caller key q s u s' : insert_replay caller key q s = Ok (u, s') →
  decision_replays (board s) !! (caller, key) = None ∧
  s' = s <| board := (board s) <| decision_replays := <[(caller, key) := q]> (decision_replays (board s)) |> |>.
Proof. unfold insert_replay. destruct (_ !! _) eqn:E; [done|]. by intros [= _ <-]. Qed.
(** What the invariant reads of the board: everything but the retry records *)
Definition board_view (b : Board) := b <| decision_replays := ∅ |>.
Lemma board_ok_view b b' : board_view b' = board_view b → board_ok b → board_ok b'.
Proof.
  intros E [B0 B1 B2 B3 B4 B5 B6 B7]. destruct b as [f1 f2 f3 f4 f5 f6 f7 f8 f9 f10], b' as [g1 g2 g3 g4 g5 g6 g7 g8 g9 g10].
  unfold board_view, upd in E. cbn in E. injection E as -> -> -> -> -> -> -> -> ->. by split.
Qed.

(** *** Texts of a request *)

Lemma first_error_None l : first_error l = None → ∀ o, o ∈ l → o = None.
Proof.
  unfold first_error. induction l as [|o l IH]; cbn; intros E x Hx; [by apply elem_of_nil in Hx|].
  destruct o as [e|]; [done|]. cbn in E. apply elem_of_cons in Hx as [->|Hx]; [done|by apply IH].
Qed.
Lemma refuse_None b e : refuse b e = None → b = false.
Proof. by destruct b. Qed.
Lemma one_of_elem x l : one_of x l = true ↔ x ∈ l.
Proof. unfold one_of. rewrite existsb_exists. split; [intros (y & Hy%list_elem_of_In & ->%seqb_true); done|]. intros Hx. exists x. split; [by apply list_elem_of_In|by apply seqb_true]. Qed.
Lemma validate_kind create f : validate create f = None → (create = true → is_Some (f_Kind f)) ∧ ∀ k, f_Kind f = Some k → k ∈ decisionKinds.
Proof.
  intros H. pose proof (first_error_None _ H) as Ha. split.
  - intros ->. assert (refuse (true && (negb (bool_decide (is_Some (f_Title f))) || negb (bool_decide (is_Some (f_Kind f))))) invalid = None) as E%refuse_None
      by (apply Ha; left). cbn in E. apply orb_false_iff in E as [_ E%negb_false_iff%bool_decide_eq_true]. done.
  - intros k Hk. assert (present (f_Kind f) (λ v, refuse (negb (one_of v decisionKinds)) invalid) = None) as E by (apply Ha, elem_of_app; left; do 6 right; left).
    rewrite Hk in E. cbn in E. apply refuse_None, negb_false_iff in E. by apply one_of_elem.
Qed.

(** ** Creation *)

Lemma storeRecipients_lookup (item : Z) (l : list DecisionRecipient) (k : Z * Z) (r : RecipientRow) (m : gmap (Z * Z) RecipientRow) :
  ((list_to_map (recipient_rows item l) : gmap (Z * Z) RecipientRow) ∪ filter (λ kr, of_first item kr.1 kr.2 = false) m) !! k = Some r → k.1 = item ∨ m !! k = Some r.
Proof.
  intros [Hl|[_ Hl]]%lookup_union_Some_raw; [left|right; by apply map_lookup_filter_Some in Hl as [? _]].
  apply elem_of_list_to_map_2 in Hl. unfold recipient_rows in Hl. apply elem_of_lookup_imap in Hl as (i & x & E & _). by injection E as -> _.
Qed.
Lemma mine_new {V} (get : V → Z) (m : gmap Z V) (items : gmap Z DecisionItemRow) n : (∀ i v, m !! i = Some v → is_Some (items !! get v)) →
  items !! n = None → mine get n m = ∅.
Proof. intros Hm Hn. apply mine_empty. intros i v Hl <-. destruct (Hm _ _ Hl). congruence. Qed.

Lemma createTx_ok now caller reference f key print deadline s a s' : is_Some (f_Kind f) → (∀ k, f_Kind f = Some k → k ∈ decisionKinds) →
  createTx now caller reference f key print deadline s = Ok (a, s') → board_ok (board s) → board_ok (board s').
Proof.
  intros [kd Hkd] Hk H Hb. specialize (Hk _ Hkd). unfold createTx in H. run H. apply negb_true_iff in G. unfold taken in G.
  apply orb_false_iff in G as [G1%bool_decide_eq_false G2%bool_decide_eq_false]. apply eq_None_not_Some in G1, G2.
  unfold insert_item in R. destruct (item_at _ s) eqn:Ei; [done|]. injection R as <- <-. unfold storeRecipients in R0. apply on_board_Ok in R0 as ->.
  apply bumpChange_Ok in R1 as [g ->]. apply board_replay_Ok in R2 as [_ ->]. cbn.
  set (b := board s) in *. destruct Hb as [B0 B1 B2 B3 B4 B5 B6 B7]. set (id := decision_items_issued b + 1). set (r := new_item now caller reference f _ _).
  assert (decision_items b !! id = None) as Hf by (destruct (decision_items b !! id) eqn:E; [destruct (B1 _ _ E); lia|done]).
  assert (∀ i x, <[id := r]> (decision_items b) !! i = Some x → i = id ∧ x = r ∨ i ≠ id ∧ decision_items b !! i = Some x) as Hl.
  { intros i x [[<- <-]|[Hne Hx]]%lookup_insert_Some; [by left|right]. by split; [apply not_eq_sym|]. }
  assert (∀ i, is_Some (decision_items b !! i) → is_Some (<[id := r]> (decision_items b) !! i)) as Hdom by (intros i Hs; apply lookup_insert_is_Some'; by right).
  split; cbn.
  - lia.
  - intros i x Hx. apply Hl in Hx as [[-> ->]|[_ Hx]]; [|destruct (B1 _ _ Hx); split; [lia|done]]. split; [lia|].
    rewrite (mine_new ve_item_id _ (decision_items b)), (mine_new dw_item_id _ (decision_items b)); [|intros; by eapply B5|exact Hf|intros; by eapply B4|exact Hf].
    apply new_card. by rewrite Hkd.
  - intros i j x y Hx Hy E. apply Hl in Hx as [[-> ->]|[_ Hx]], Hy as [[-> ->]|[_ Hy]]; [done| | |by eapply B2]; exfalso.
    + by eapply (item_at_None _ _ Ei).
    + by eapply (item_at_None _ _ Ei).
  - intros i x Hx. apply Hl in Hx as [[-> ->]|[_ Hx]]; [done|by eapply B3].
  - intros i v Hv. destruct (B4 _ _ Hv). split; [done|by apply Hdom].
  - intros i v Hv. destruct (B5 _ _ Hv). split; [done|by apply Hdom].
  - intros k x Hx. apply storeRecipients_lookup in Hx as [->|Hx]; [rewrite lookup_insert_eq; eauto|by eapply Hdom, B6].
  - exact B7.
Qed.

Lemma recipients_other (item : Z) (l : list DecisionRecipient) (k : Z * Z) (m : gmap (Z * Z) RecipientRow) : k.1 ≠ item →
  ((list_to_map (recipient_rows item l) : gmap (Z * Z) RecipientRow) ∪ filter (λ kr, of_first item kr.1 kr.2 = false) m) !! k = m !! k.
Proof.
  intros Hk. rewrite lookup_union_r.
  - destruct (m !! k) as [x|] eqn:E; [apply map_lookup_filter_Some; split; [done|]; by apply Z.eqb_neq|]. apply map_lookup_filter_None. by left.
  - apply not_elem_of_list_to_map. intros Hin. apply Hk. apply list_elem_of_fmap in Hin as ([k' r] & -> & Hin). unfold recipient_rows in Hin.
    apply elem_of_lookup_imap in Hin as (i & x & E & _). by injection E as -> _.
Qed.
(** What a creation makes of the board *)
Lemma createTx_board now caller reference f key print deadline s a s' :
  createTx now caller reference f key print deadline s = Ok (a, s') →
  taken reference s = false ∧
  decision_items (board s') = <[decision_items_issued (board s) + 1 :=
    new_item now caller reference f (peerOf (Family caller) (ID caller) s) (authorParticipantOf caller s)]> (decision_items (board s)) ∧
  decision_verdicts (board s') = decision_verdicts (board s) ∧ decision_withdrawals (board s') = decision_withdrawals (board s) ∧
  decision_deliveries (board s') = decision_deliveries (board s) ∧
  (decision_items_issued (board s') = decision_items_issued (board s) + 1 ∧ decision_verdicts_issued (board s') = decision_verdicts_issued (board s) ∧
   decision_withdrawals_issued (board s') = decision_withdrawals_issued (board s) ∧ decision_deep_archive (board s') = decision_deep_archive (board s)) ∧
  ∀ k, k.1 ≠ decision_items_issued (board s) + 1 → decision_recipients (board s') !! k = decision_recipients (board s) !! k.
Proof.
  intros H. unfold createTx in H. run H. apply negb_true_iff in G. unfold insert_item in R. destruct (item_at _ s); [done|]. injection R as <- <-.
  unfold storeRecipients in R0. apply on_board_Ok in R0 as ->. apply bumpChange_Ok in R1 as [g ->]. apply board_replay_Ok in R2 as [_ ->].
  split_and!; try done. intros k Hk. cbn. by apply recipients_other.
Qed.

(** ** Edits, closes and withdrawals *)

Lemma alter_row {V} (m : gmap Z V) i v f : m !! i = Some v → alter f i m = <[i := f v]> m.
Proof. intros Hl. apply map_eq. intros j. rewrite lookup_alter, lookup_insert. case_decide as E; [|done]. subst. by rewrite Hl. Qed.
Lemma update_where_is_Some {V} (P : Z → V → bool) f (m : gmap Z V) i : is_Some (m !! i) → is_Some (update_where P f m !! i).
Proof. rewrite lookup_update_where. by intros [v ->]. Qed.
Lemma below_update {V} (get : V → Z) (P : Z → V → bool) f (m : gmap Z V) id n : (∀ i v, m !! i = Some v → i ≤ n) → below (mine get id (update_where P f m)) n.
Proof. intros Hb i v [(v0 & Hl & _)%lookup_update_where_Some _]%lookup_mine. by eapply Hb. Qed.
Lemma mine_superseded now id id' vs :
  mine ve_item_id id (update_where (λ i v, verdict_of id' i v && (ve_superseded_at v =? 0)) (λ v, v <| ve_superseded_at := now |>) vs) =
  if decide (id = id') then superseded_in now (mine ve_item_id id vs) else mine ve_item_id id vs.
Proof. by apply (mine_update ve_item_id id id' (λ v, ve_superseded_at v =? 0)). Qed.
Lemma mine_ended now by_ id id' ws :
  mine dw_item_id id (update_where (λ i w, withdrawal_of id' i w && (dw_reopened_at w =? 0)) (λ w, w <| dw_reopened_at := now |> <| dw_reopened_by := by_ |>) ws) =
  if decide (id = id') then ended_in now by_ (mine dw_item_id id ws) else mine dw_item_id id ws.
Proof. by apply (mine_update dw_item_id id id' (λ w, dw_reopened_at w =? 0)). Qed.
Lemma superseded_none now vs : no_verdict vs → superseded_in now vs = vs.
Proof. intros Hn. apply update_where_none. intros i v Hl. apply Z.eqb_neq. by eapply Hn. Qed.
Lemma ended_none now by_ ws : no_withdrawal ws → ended_in now by_ ws = ws.
Proof. intros Hn. apply update_where_none. intros i v Hl. apply Z.eqb_neq. by eapply Hn. Qed.
Lemma card_of b id r : board_ok b → decision_items b !! id = Some r → card_ok r (verdicts_of b id) (withdrawals_of b id).
Proof. intros Hb Hi. by destruct (bo_items _ Hb _ _ Hi). Qed.
(** The phase of a card, told from its state *)
Lemma state_phase r vs ws : card_ok r vs ws →
  (di_state r = "active"%string → phase_is r vs ws Waiting_) ∧ (di_state r = "returned"%string → phase_is r vs ws Returned) ∧
  (di_state r = "in_progress"%string → phase_is r vs ws (InProgress "approved")).
Proof. intros [_ _ _ _ _ _ [p Hp]]. split_and!; intros E; destruct p; cbn in Hp; destruct_and?; subst; try congruence; done. Qed.

(** What an edit makes of the board: a card that does not wait is reopened, and only the edited
    card and its recipients change. *)
Record edit_of (now : Z) (by_ : string) (id : Z) (r r' : DecisionItemRow) (b b' : Board) : Prop := {
  eo_items : decision_items b' = <[id := r']> (decision_items b);
  eo_verdicts : decision_verdicts b' = update_where (λ i v, verdict_of id i v && (ve_superseded_at v =? 0)) (λ v, v <| ve_superseded_at := now |>) (decision_verdicts b);
  eo_withdrawals : decision_withdrawals b' = update_where (λ i w, withdrawal_of id i w && (dw_reopened_at w =? 0))
    (λ w, w <| dw_reopened_at := now |> <| dw_reopened_by := by_ |>) (decision_withdrawals b);
  eo_rest : decision_items_issued b' = decision_items_issued b ∧ decision_verdicts_issued b' = decision_verdicts_issued b ∧
    decision_withdrawals_issued b' = decision_withdrawals_issued b ∧ decision_deep_archive b' = decision_deep_archive b ∧ decision_deliveries b' = decision_deliveries b;
  eo_recipients : ∀ k, k.1 ≠ id → decision_recipients b' !! k = decision_recipients b !! k;
  eo_row : di_state r' = "active"%string ∧ di_archived_at r' = 0 ∧ di_mark_revision r' = 0 ∧ di_revision r' = di_revision r + 1 ∧
    di_verdict_count r' = di_verdict_count r ∧ di_reference r' = di_reference r }.
Lemma edit_of_card now by_ id r r' b b' : edit_of now by_ id r r' b b' →
  verdicts_of b' id = superseded_in now (verdicts_of b id) ∧ withdrawals_of b' id = ended_in now by_ (withdrawals_of b id) ∧
  ∀ i, i ≠ id → verdicts_of b' i = verdicts_of b i ∧ withdrawals_of b' i = withdrawals_of b i.
Proof.
  intros [_ -> -> _ _ _]. rewrite mine_superseded, mine_ended, !decide_True by done. split_and!; [done..|]. intros i Hi.
  by rewrite mine_superseded, mine_ended, !decide_False.
Qed.
Lemma edit_of_ok now by_ id r r' b b' : now ≠ 0 → board_ok b → decision_items b !! id = Some r → di_kind r' ∈ decisionKinds → edit_of now by_ id r r' b b' →
  board_ok b' ∧ phase_is r' (verdicts_of b' id) (withdrawals_of b' id) Waiting_.
Proof.
  intros Hn Hb Hi Hk He. pose proof (edit_of_card _ _ _ _ _ _ _ He) as (Ev & Ew & Eo). destruct He as [E1 E2 E3 (E4 & E5 & E6 & E7 & E8) E9 (R1 & R2 & R3 & R4 & R5 & R6)].
  destruct (reopened_card now by_ r r' (verdicts_of b id) (withdrawals_of b id) Hn (card_of _ _ _ Hb Hi)) as [Hc Hp]; try done.
  rewrite <-Ev, <-Ew in Hc, Hp. split; [|exact Hp]. eapply one_card_ok; [exact Hb|exact Hi|exact R6| |exact Hc].
  split; [done..| | | | | |].
  - intros i Hne. by apply Eo.
  - intros i Hne. by apply Eo.
  - rewrite E2, E5. split; [|done]. apply below_update. intros i v Hl. by destruct (bo_verdicts _ Hb _ _ Hl).
  - rewrite E3, E6. split; [|done]. apply below_update. intros i v Hl. by destruct (bo_withdrawals _ Hb _ _ Hl).
  - intros k x Hx. destruct (decide (k.1 = id)) as [|Hk']; [by left|right]. by rewrite <-E9.
  - intros k d Hd. rewrite E8 in Hd. destruct (bo_deliveries _ Hb _ _ Hd) as [Hv Ho]. split; [|exact Ho]. rewrite E2. by apply update_where_is_Some.
Qed.

Lemma editTx_Ok now caller reference ifRevision f s u s' : (∀ k, f_Kind f = Some k → k ∈ decisionKinds) → board_ok (board s) →
  editTx now caller reference ifRevision f s = Ok (u, s') →
  ∃ id r r', decision_items (board s) !! id = Some r ∧ di_reference r = reference ∧ di_revision r = ifRevision ∧ active now caller s = None ∧
    edit_of now (peerOf (Family caller) (ID caller) s) id r r' (board s) (board s') ∧ di_kind r' ∈ decisionKinds ∧
    snapshot_of r' = mkDecisionSnapshot (default (di_title r) (f_Title f)) (default (di_location r) (f_Where f)) (default (di_context r) (f_Context f))
      (default (di_recommendation r) (f_Recommendation f)) (default (di_commands r) (f_Commands f)).
Proof.
  intros Hk Hb H. unfold editTx in H. apply bind_Ok in H as (u0 & s0 & [Ha [= -> ->]]%check_Ok & H). apply bind_Ok in H as ([id r] & s0 & H0 & H).
  apply decisionRow_Ok in H0 as (-> & Hi & Hr). apply bind_Ok in H as (u1 & s0 & [Hrev%Z.eqb_eq [= -> ->]]%ensure_Ok & H).
  apply bind_Ok in H as (u2 & s1 & Hre & H). apply bind_Ok in H as (u3 & s2 & ->%on_board_Ok & H). apply bind_Ok in H as (u4 & s3 & [g Es]%bumpChange_Ok & H).
  pose proof (card_of _ _ _ Hb Hi) as Hc.
  assert (∃ r', edit_of now (peerOf (Family caller) (ID caller) s) id r r' (board s) (board s3) ∧ r' = edited now f (r <| di_state := di_state r' |>
            <| di_archived_at := di_archived_at r' |> <| di_mark_revision := di_mark_revision r' |> <| di_mark_file := di_mark_file r' |>
            <| di_mark_offset := di_mark_offset r' |>)) as (r' & Hs3 & Er').
  { rewrite Es. cbn. unfold when in Hre. destruct (negb (seqb (di_state r) "active")) eqn:Ea.
    - unfold reopen, supersede, end_withdrawals in Hre. apply bind_Ok in Hre as (x & t & ->%on_board_Ok & Hre). apply bind_Ok in Hre as (x1 & t & ->%on_board_Ok & Hre).
      apply bind_Ok in Hre as (x2 & t & [= -> ->]%gets_Ok & Hre). apply on_board_Ok in Hre as ->. exists (edited now f (reopened_row r)). cbn. split; [|done].
      split; cbn; try done.
      rewrite (alter_row _ _ _ reopened_row Hi), (alter_row _ _ (reopened_row r)) by apply lookup_insert_eq. by rewrite insert_insert_eq.
    - apply ret_Ok in Hre as [= -> ->]. apply negb_false_iff, seqb_true in Ea. destruct (state_phase _ _ _ Hc) as [Hw _]. destruct (Hw Ea) as (_ & Har & Hv & Hwd).
      exists (edited now f r). cbn. split; [|by destruct r]. split; cbn; try done; [| | |].
      + by rewrite (alter_row _ _ _ (edited now f) Hi).
      + rewrite update_where_none; [done|]. intros i v Hl. apply andb_false_iff. destruct (verdict_of id i v) eqn:Eo; [right|by left].
        apply Z.eqb_neq. apply (Hv i v), lookup_mine. split; [done|]. by apply Z.eqb_eq.
      + rewrite update_where_none; [done|]. intros i v Hl. apply andb_false_iff. destruct (withdrawal_of id i v) eqn:Eo; [right|by left].
        apply Z.eqb_neq. apply (Hwd i v), lookup_mine. split; [done|]. by apply Z.eqb_eq.
      + split_and!; try done. destruct (co_mark _ _ _ Hc) as [?|[? _]]; [done|congruence]. }
  exists id, r, r'. split_and!; [done..| | |].
  - destruct (f_Recipients f) as [l|]; [|apply ret_Ok in H as [= -> ->]; done].
    apply bind_Ok in H as (x & t & [= -> ->]%gets_Ok & H). unfold storeRecipients in H. apply on_board_Ok in H as ->. destruct Hs3 as [E1 E2 E3 E4 E5 E6].
    split; cbn; [done..| |done]. intros k Hne. rewrite recipients_other by done. by apply E5.
  - rewrite Er'. cbn. destruct (f_Kind f) as [k|] eqn:Ek; [by apply Hk|apply (co_kind _ _ _ Hc)].
  - by rewrite Er'.
Qed.

(** The close of approved work, and a withdrawal *)
Lemma archive_one b b' id r r' : board_ok b → decision_items b !! id = Some r → decision_items b' = <[id := r']> (decision_items b) →
  decision_items_issued b' = decision_items_issued b → decision_deep_archive b' = decision_deep_archive b → decision_recipients b' = decision_recipients b →
  decision_deliveries b' = decision_deliveries b → decision_verdicts_issued b' = decision_verdicts_issued b →
  decision_verdicts b' = decision_verdicts b ∨
    (∃ now, decision_verdicts b' = update_where (λ i v, verdict_of id i v && (ve_superseded_at v =? 0)) (λ v, v <| ve_superseded_at := now |>) (decision_verdicts b)) →
  decision_withdrawals b' = decision_withdrawals b ∧ decision_withdrawals_issued b' = decision_withdrawals_issued b ∨
    (∃ w, dw_item_id w = id ∧ decision_withdrawals b' = <[decision_withdrawals_issued b + 1 := w]> (decision_withdrawals b) ∧
          decision_withdrawals_issued b' = decision_withdrawals_issued b + 1) →
  one_card b b' id r'.
Proof.
  intros Hb Hi E1 E2 E3 E4 E5 E6 Ev Ew.
  assert (∀ i v, decision_withdrawals b !! i = Some v → i ≤ decision_withdrawals_issued b) as Hwi by (intros i v Hl; by destruct (bo_withdrawals _ Hb _ _ Hl)).
  assert (∀ i v, decision_verdicts b !! i = Some v → i ≤ decision_verdicts_issued b) as Hvi by (intros i v Hl; by destruct (bo_verdicts _ Hb _ _ Hl)).
  assert (∀ w, decision_withdrawals b !! (decision_withdrawals_issued b + 1) = Some w → False) as Hf by (intros w Hl; specialize (Hwi _ _ Hl); lia).
  split; [done..| | | | | |].
  - intros i Hne. destruct Ev as [->|[now ->]]; [done|]. by rewrite mine_superseded, decide_False.
  - intros i Hne. destruct Ew as [[-> _]|(w & <- & -> & _)]; [done|]. rewrite mine_insert by (apply eq_None_not_Some; intros [w' Hw]; by eapply Hf).
    by rewrite decide_False.
  - rewrite E6. split; [|done]. destruct Ev as [->|[now ->]]; [by apply below_mine|by apply below_update].
  - destruct Ew as [[-> ->]|(w & <- & -> & ->)]; [split; [by apply below_mine|done]|]. split; [|lia].
    rewrite mine_insert, decide_True; [|done|apply eq_None_not_Some; intros [w' Hw]; by eapply Hf]. apply below_insert; [|lia].
    intros i v [Hl _]%lookup_mine. specialize (Hwi _ _ Hl). lia.
  - rewrite E4. intros k x Hx. by right.
  - intros k d Hd. rewrite E5 in Hd. destruct (bo_deliveries _ Hb _ _ Hd) as [Hv Ho]. split; [|exact Ho].
    destruct Ev as [->|[now ->]]; [done|by apply update_where_is_Some].
Qed.

Section acts.
Context `{SHA : Sha256}.
Variable is_print : Z → bool.

Lemma receipt_Ok caller reference key print deadline s item s' : receipt is_print caller reference key print deadline s = Ok (item, s') →
  ∃ q, decision_replays (board s) !! (caller, key) = None ∧ s' = s <| board := (board s) <| decision_replays := <[(caller, key) := q]> (decision_replays (board s)) |> |> ∧
    dq_fingerprint q = print ∧ dq_deadline q = deadline ∧ dq_result q = ItemReceipt item ∧ decisionItem is_print reference s = Ok (item, s).
Proof.
  unfold receipt. intros H. apply bind_Ok in H as (i & s0 & H0 & H). assert (s0 = s) as ->.
  { unfold decisionItem in H0. apply bind_Ok in H0 as ([id r] & s1 & (-> & _)%decisionRow_Ok & H0). by apply gets_Ok in H0 as [= _ ->]. }
  apply bind_Ok in H as (u & s1 & [Hf ->]%board_replay_Ok & [= -> ->]%ret_Ok). eauto 10.
Qed.

Lemma closeTx_Ok now caller reference ifRevision note key print deadline s a s' : now ≠ 0 → board_ok (board s) →
  closeTx is_print now caller reference ifRevision note key print deadline s = Ok (a, s') →
  ∃ id r, decision_items (board s) !! id = Some r ∧ di_reference r = reference ∧ di_revision r = ifRevision ∧ di_state r = "in_progress"%string ∧
    let r' := (archived_row now r) <| di_closed_by := peerOf (Family caller) (ID caller) s |> <| di_closed_at := now |> <| di_outcome_note := note |> in
    board_view (board s') = board_view ((board s) <| decision_items := <[id := r']> (decision_items (board s)) |>) ∧ board_ok (board s').
Proof.
  intros Hn Hb H. unfold closeTx in H. apply bind_Ok in H as ([id r] & s0 & (-> & Hi & Hr)%decisionRow_Ok & H).
  apply bind_Ok in H as (u1 & s0 & [Hrev%Z.eqb_eq [= -> ->]]%ensure_Ok & H). apply bind_Ok in H as (u2 & s0 & [Hst%seqb_true [= -> ->]]%ensure_Ok & H).
  apply bind_Ok in H as (c & s0 & [= -> ->]%gets_Ok & H). apply bind_Ok in H as (u3 & s1 & ->%on_board_Ok & H).
  apply bind_Ok in H as (u4 & s2 & [g ->]%bumpChange_Ok & H). apply receipt_Ok in H as (q & _ & -> & _). cbn.
  rewrite (alter_row _ _ _ _ Hi). exists id, r. set (r' := (archived_row now r) <| di_closed_by := _ |> <| di_closed_at := now |> <| di_outcome_note := note |>).
  split_and!; [done..|by destruct (board s)|].
  apply (board_ok_view ((board s) <| decision_items := <[id := r']> (decision_items (board s)) |>)); [by destruct (board s)|].
  eapply (one_card_ok _ _ id r r'); [exact Hb|exact Hi|done|eapply (archive_one _ _ _ r); try done; by left|]. cbn.
  pose proof (card_of _ _ _ Hb Hi) as Hc. destruct (state_phase _ _ _ Hc) as (_ & _ & Hp). by destruct (closed_card now r _ _ _ (peerOf (Family caller) (ID caller) s) note Hn Hc (Hp Hst)).
Qed.

Lemma withdrawTx_Ok now caller reference ifRevision reason key print deadline s a s' : now ≠ 0 → board_ok (board s) →
  withdrawTx is_print now caller reference ifRevision reason key print deadline s = Ok (a, s') →
  ∃ id r peer, decision_items (board s) !! id = Some r ∧ di_reference r = reference ∧ di_revision r = ifRevision ∧
    (di_state r = "active"%string ∨ di_state r = "returned"%string) ∧ itemParty now caller id r s = Some peer ∧ board_ok (board s') ∧
    decision_items (board s') = <[id := archived_row now r]> (decision_items (board s)) ∧
    (decision_recipients (board s') = decision_recipients (board s) ∧ decision_deliveries (board s') = decision_deliveries (board s) ∧
     decision_items_issued (board s') = decision_items_issued (board s) ∧ decision_verdicts_issued (board s') = decision_verdicts_issued (board s) ∧
     decision_withdrawals_issued (board s') = decision_withdrawals_issued (board s) + 1 ∧ decision_deep_archive (board s') = decision_deep_archive (board s)) ∧
    verdicts_of (board s') id = superseded_in now (verdicts_of (board s) id) ∧
    (∀ i, i ≠ id → verdicts_of (board s') i = verdicts_of (board s) i ∧ withdrawals_of (board s') i = withdrawals_of (board s) i) ∧
    phase_is (archived_row now r) (verdicts_of (board s') id) (withdrawals_of (board s') id) Withdrawn.
Proof.
  intros Hn Hb H. unfold withdrawTx in H. apply bind_Ok in H as ([id r] & s0 & (-> & Hi & Hr)%decisionRow_Ok & H).
  apply bind_Ok in H as (u1 & s0 & [Hrev%Z.eqb_eq [= -> ->]]%ensure_Ok & H). apply bind_Ok in H as (u2 & s0 & [Hst [= -> ->]]%ensure_Ok & H).
  apply orb_true_iff in Hst. rewrite !seqb_true in Hst. apply bind_Ok in H as (p & s0 & [= -> ->]%gets_Ok & H).
  apply bind_Ok in H as (peer & s0 & (x & Hp & [= -> ->])%row_Ok & H). apply bind_Ok in H as (u3 & s1 & ->%on_board_Ok & H).
  apply bind_Ok in H as (u4 & s2 & ->%on_board_Ok & H). apply bind_Ok in H as (u5 & s3 & ->%on_board_Ok & H).
  apply bind_Ok in H as (u6 & s4 & [g ->]%bumpChange_Ok & H). apply receipt_Ok in H as (q & _ & -> & _). cbn.
  rewrite (alter_row _ _ _ _ Hi). set (w := mkWithdrawalRow id _ _ _ _ _ _ _). set (b := board s) in *. exists id, r, x.
  pose proof (card_of _ _ _ Hb Hi) as Hc. destruct (state_phase _ _ _ Hc) as (Hp1 & Hp2 & _).
  assert (∀ w, decision_withdrawals b !! (decision_withdrawals_issued b + 1) = Some w → False) as Hf by (intros y Hl; destruct (bo_withdrawals _ Hb _ _ Hl); lia).
  apply (λ H, eq_None_ne_Some_2 _ H) in Hf.
  assert (mine dw_item_id id (<[decision_withdrawals_issued b + 1 := w]> (decision_withdrawals b)) = <[decision_withdrawals_issued b + 1 := w]> (withdrawals_of b id)) as Ew
    by (rewrite mine_insert by exact Hf; by rewrite decide_True).
  destruct (withdrawn_card now r (verdicts_of b id) (withdrawals_of b id) id (Family caller) x reason (decision_withdrawals_issued b + 1) Hn Hc) as [Hc' Hp'];
    [destruct Hst; [left|right]; auto|apply below_mine; intros i y Hl; destruct (bo_withdrawals _ Hb _ _ Hl); lia|].
  set (b' := mkBoard (<[id := archived_row now r]> (decision_items b)) (decision_items_issued b) (decision_recipients b)
    (update_where (λ i v, verdict_of id i v && (ve_superseded_at v =? 0)) (λ v, v <| ve_superseded_at := now |>) (decision_verdicts b)) (decision_verdicts_issued b)
    (decision_deliveries b) (<[decision_withdrawals_issued b + 1 := w]> (decision_withdrawals b)) (decision_withdrawals_issued b + 1) (decision_replays b) (decision_deep_archive b)).
  assert (verdicts_of b' id = superseded_in now (verdicts_of b id)) as Ev by (cbn; by rewrite mine_superseded, decide_True).
  assert (one_card b b' id (archived_row now r)) as Hone by (eapply (archive_one _ _ _ r); try done; [right; by exists now|right; by exists w]).
  do 3 (split; [done|]). split; [exact Hst|]. split; [exact Hp|]. split; [|split; [done|split; [done|split; [exact Ev|split]]]].
  - apply (board_ok_view b'); [done|]. eapply (one_card_ok _ _ id r); [exact Hb|exact Hi| |exact Hone|]; [done|].
    rewrite Ev. exact (eq_ind_r (card_ok _ _) Hc' Ew).
  - intros i Hne. split; [by apply (oc_verdicts _ _ _ _ Hone)|by apply (oc_withdrawals _ _ _ _ Hone)].
  - change (phase_is (archived_row now r) (verdicts_of b' id) (withdrawals_of b' id) Withdrawn). rewrite Ev. exact (eq_ind_r (λ m, phase_is _ _ m Withdrawn) Hp' Ew).
Qed.

(** A withdrawn card that an agent reopens *)
Lemma withdrawn_phase b id r s : board s = b → board_ok b → decision_items b !! id = Some r → withdrawn id r s = true →
  phase_is r (verdicts_of b id) (withdrawals_of b id) Withdrawn ∧
  ∃ i w, latest (withdrawal_of id) (decision_withdrawals b) = Some (i, w) ∧ stands (withdrawals_of b id) i w.
Proof.
  intros <- Hb Hi. unfold withdrawn. rewrite andb_true_iff, seqb_true. intros [Hst Hl]. pose proof (card_of _ _ _ Hb Hi) as Hc.
  destruct (latest _ _) as [[i w]|] eqn:El; [|done]. apply Z.eqb_eq in Hl. apply latest_Some in El as (Hw & Hp & Hmax). apply Z.eqb_eq in Hp.
  assert (stands (withdrawals_of (board s) id) i w) as Hs.
  { split_and!; [by apply lookup_mine|done|]. intros j x [Hj Hx]%lookup_mine. apply (Hmax j x Hj). by apply Z.eqb_eq. }
  split; [|by exists i, w]. destruct (co_phase _ _ _ Hc) as [p Hp']. destruct p; cbn in Hp'; destruct_and?; try congruence; [|done].
  exfalso. destruct Hs as (Hl1 & Hl2 & _). match goal with H : no_withdrawal _ |- _ => exact (H _ _ Hl1 Hl2) end.
Qed.
Lemma reopenTx_Ok now caller reference ifRevision s u s' : now ≠ 0 → board_ok (board s) → reopenTx now caller reference ifRevision s = Ok (u, s') →
  ∃ id r r' peer, decision_items (board s) !! id = Some r ∧ di_reference r = reference ∧ di_revision r = ifRevision ∧ active now caller s = None ∧
    itemParty now caller id r s = Some peer ∧ phase_is r (verdicts_of (board s) id) (withdrawals_of (board s) id) Withdrawn ∧
    r' = (reopened_row r) <| di_revision := di_revision r + 1 |> <| di_updated_at := now |> ∧ edit_of now peer id r r' (board s) (board s').
Proof.
  intros Hn Hb H. unfold reopenTx in H. apply bind_Ok in H as (u0 & s0 & [Ha [= -> ->]]%check_Ok & H). apply bind_Ok in H as (o & s0 & [= -> ->]%gets_Ok & H).
  destruct (item_at reference s) as [[id r]|] eqn:Ei; [|by apply throw_Ok in H]. apply item_at_Some in Ei as [Hi Hr].
  apply bind_Ok in H as (st & s0 & [= -> ->]%gets_Ok & H). apply bind_Ok in H as (u1 & s0 & [Hw [= -> ->]]%ensure_Ok & H).
  apply bind_Ok in H as (u2 & s0 & [_ [= -> ->]]%ensure_Ok & H). apply bind_Ok in H as (u3 & s0 & [Hrev%Z.eqb_eq [= -> ->]]%ensure_Ok & H).
  apply bind_Ok in H as (p & s0 & [= -> ->]%gets_Ok & H). apply bind_Ok in H as (peer & s0 & (x & Hp & [= -> ->])%row_Ok & H).
  apply bind_Ok in H as (last & s0 & [= -> ->]%gets_Ok & H). apply bind_Ok in H as (u4 & s1 & ->%on_board_Ok & H).
  apply bind_Ok in H as (u5 & s2 & ->%on_board_Ok & H). apply bumpChange_Ok in H as [g ->]. cbn.
  destruct (withdrawn_phase _ _ _ _ eq_refl Hb Hi Hw) as [Hph (i & w & El & Hs)]. rewrite El. cbn. exists id, r, ((reopened_row r) <| di_revision := di_revision r + 1 |> <| di_updated_at := now |>), x.
  pose proof (card_of _ _ _ Hb Hi) as Hc. pose proof Hph as (_ & _ & Hnv & _). do 3 (split; [done|]). split; [exact Ha|]. split; [exact Hp|]. split; [exact Hph|]. split; [done|].
  split; cbn; try done; [| | ].
  - by rewrite (alter_row _ _ _ _ Hi).
  - rewrite update_where_none; [done|]. intros j v Hl. apply andb_false_iff. destruct (verdict_of id j v) eqn:Eo; [right|by left].
    apply Z.eqb_neq. apply (Hnv j v), lookup_mine. split; [done|]. by apply Z.eqb_eq.
  - apply map_eq. intros j. rewrite !lookup_update_where. destruct (decision_withdrawals (board s) !! j) as [y|] eqn:Ey; [|done]. cbn. f_equal.
    destruct Hs as ((Hl1 & Hl2)%lookup_mine & Hz & Hbw). destruct (decide (i = j)) as [->|Hne].
    + rewrite bool_decide_true by done. assert (y = w) as -> by congruence. unfold withdrawal_of, of_item. by rewrite Hl2, Z.eqb_refl, Hz.
    + rewrite bool_decide_false by congruence. destruct (withdrawal_of id j y) eqn:Eo; [|done]. apply Z.eqb_eq in Eo. cbn.
      destruct (Z.eqb_spec (dw_reopened_at y) 0) as [Hz'|]; [|done]. assert (withdrawals_of (board s) id !! j = Some y) as Hm by by apply lookup_mine.
      destruct (co_withdrawals _ _ _ Hc _ _ Hm) as [_ Hb2]. specialize (Hb2 Hz'). pose proof (Hbw _ _ Hm).
      assert (i ≤ j) by (eapply Hb2; by apply lookup_mine). lia.
Qed.
End acts.
