(* ===== verification/VerdictProps.v ===== *)
(** * What a verdict does

    A verdict is recorded on exactly the card that the maintainer saw, moves it to the phase of
    the verdict, and makes one delivery for each entry of the recipients of the card and one for
    the author, unless a listed name reaches the author already: with one message in the inbox
    that the name has now, or with the reason why it has none. *)

From S2P Require Import Prelude GoString GoFloat Schema Sql Label Storage Names Messages Inboxes Cycles Launches InboxProps Leases WorkViews BoardText Decisions Verdicts BoardProps BoardSteps.
Open Scope Z_scope.

(** ** One delivery *)

(** The inbox of a name *)
Definition inbox_named (name : string) (n : NameRow) : Key :=
  mkKey (n_family n) (match n_kind n with Alias => participantKey name | Peer => n_session_id n end).
Definition inactive_inbox (now : Z) (k : Key) (s : State) : Prop := ∀ r, sessions s !! k = Some r → active_row now r = false.
(** Why a name has no inbox, or none that takes messages *)
Inductive skip_reason (now : Z) (s : State) (name : string) : string → Prop :=
| skip_unknown : names s !! name = None → skip_reason now s name "unknown_name"
| skip_maintainer n : names s !! name = Some n → n_family n = Family maintainerKey → skip_reason now s name "maintainer"
| skip_inactive n : names s !! name = Some n → inactive_inbox now (inbox_named name n) s → skip_reason now s name "recipient_inactive".

(** The states before and after one delivery.  A participant's inbox is made when it is missing. *)
Record delivered (now vid ordinal : Z) (body name : string) (row : VerdictDeliveryRow) (s s' : State) : Prop := {
  de_fresh : decision_deliveries (board s) !! (vid, ordinal) = None;
  de_board : board s' = (board s) <| decision_deliveries := <[(vid, ordinal) := row]> (decision_deliveries (board s)) |>;
  de_names : names s' = names s;
  de_row : vd_name row = name ∧ vd_acknowledged_at row = 0;
  de_sessions : ∀ k r, sessions s !! k = Some r → ∃ q, sessions s' !! k = Some (r <| s_last_seq := q |>);
  de_effect :
    (vd_outcome row = "skipped"%string ∧ vd_message_id row = 0 ∧ messages s' = messages s ∧ messages_issued s' = messages_issued s ∧
      skip_reason now s name (vd_reason row)) ∨
    (vd_outcome row = "queued"%string ∧ vd_reason row = ""%string ∧ ∃ n q, names s !! name = Some n ∧ n_family n ≠ Family maintainerKey ∧
      vd_message_id row = messages_issued s + 1 ∧ messages_issued s' = messages_issued s + 1 ∧
      messages s' = <[messages_issued s + 1 := verdict_message (inbox_named name n) q now vid body]> (messages s)) }.

Lemma verdict_delivery_Ok vid ordinal d s u s' : insert_delivery vid ordinal d s = Ok (u, s') → decision_deliveries (board s) !! (vid, ordinal) = None ∧
  s' = s <| board := (board s) <| decision_deliveries := <[(vid, ordinal) := d]> (decision_deliveries (board s)) |> |>.
Proof. unfold insert_delivery. destruct (_ !! _) eqn:E; [done|]. by intros [= _ <-]. Qed.
Lemma same_session s : ∀ k r, sessions s !! k = Some r → ∃ q, sessions s !! k = Some (r <| s_last_seq := q |>).
Proof. intros k r Hr. exists (s_last_seq r). rewrite Hr. by destruct r. Qed.
(** The delivery to the inbox of a name, once it exists *)
Lemma deliver_inbox now vid body name n kind s : names s !! name = Some n → n_family n ≠ Family maintainerKey →
  ∀ s1 outcome reason message s2, names s1 = names s → board s1 = board s → messages s1 = messages s → messages_issued s1 = messages_issued s →
  (∀ k r, sessions s !! k = Some r → sessions s1 !! k = Some r) → (sessions s1 = sessions s ∨ active_row now (inbox_row now n) = true ∧ sessions s1 = <[inbox_named name n := inbox_row now n]> (sessions s)) →
  (seq ← take_seq (inbox_named name n) now;
   match (seq : option Z) with
   | None => mret ("skipped"%string, "recipient_inactive"%string, 0)
   | Some seq => id ← insert_message (verdict_message (inbox_named name n) seq now vid body); mret ("queued"%string, ""%string, id)
   end) s1 = Ok ((outcome, reason, message), s2) →
  ∀ ordinal s' u, insert_delivery vid ordinal (mkVerdictDeliveryRow kind name outcome reason message 0) s2 = Ok (u, s') →
  delivered now vid ordinal body name (mkVerdictDeliveryRow kind name outcome reason message 0) s s'.
Proof.
  intros Hn Hf s1 outcome reason message s2 E1 E2 E3 E4 E5 E6 H ordinal s' u Hd. apply verdict_delivery_Ok in Hd as [Hfresh ->].
  apply bind_Ok in H as (q & t & [(r & Hr & Ha & -> & ->)|(-> & -> & Hna)]%take_seq_Ok & H).
  - apply bind_Ok in H as (id & t2 & (-> & -> & _)%insert_message_Ok & [= -> -> -> ->]%ret_Ok). cbn in *. rewrite E2 in Hfresh. split; cbn; [done|by rewrite E2|done|done| |].
    + intros k x Hx. rewrite lookup_insert. apply E5 in Hx. case_decide as Ek; [|exists (s_last_seq x); rewrite Hx; by destruct x]. subst. rewrite Hr in Hx. injection Hx as ->. by eexists.
    + right. split_and!; [done..|]. exists n, (s_last_seq r + 1). by rewrite E3, E4.
  - apply ret_Ok in H as [= -> -> -> ->]. rewrite E2 in Hfresh. split; cbn; [done|by rewrite E2|done|done| |].
    + intros k x Hx. apply E5 in Hx. exists (s_last_seq x). rewrite Hx. by destruct x.
    + left. split_and!; [done..|]. eapply skip_inactive; [exact Hn|]. intros r Hr. apply Hna. by apply E5.
Qed.
Lemma deliverVerdict_Ok now vid ordinal body name s d s' : deliverVerdict now vid ordinal body name s = Ok (d, s') → now < never →
  ∃ row, d = delivery_view row ∧ delivered now vid ordinal body name row s s'.
Proof.
  intros H Hnow. unfold deliverVerdict in H. apply bind_Ok in H as ([kind target] & s1 & H1 & H). apply bind_Ok in H as ([[outcome reason] message] & s2 & H2 & H).
  apply bind_Ok in H as (u & s3 & H3 & [= -> ->]%ret_Ok). exists (mkVerdictDeliveryRow kind name outcome reason message 0). split; [done|].
  unfold delivery_target in H1. apply bind_Ok in H1 as (o & s0 & [= -> ->]%gets_Ok & H1). destruct (names s !! name) as [n|] eqn:En.
  - destruct (seqb (n_family n) (Family maintainerKey)) eqn:Ef; [apply seqb_true in Ef|apply seqb_false in Ef].
    + apply ret_Ok in H1 as [= -> -> ->]. apply ret_Ok in H2 as [= -> -> -> ->]. apply verdict_delivery_Ok in H3 as [Hfresh ->].
      split; cbn; try done; [by apply same_session|]. left. split_and!; try done. by eapply skip_maintainer.
    + assert (inbox_named name n = mkKey (n_family n) (match n_kind n with Alias => participantKey name | Peer => n_session_id n end)) as Ei by done.
      destruct (n_kind n) eqn:Ek; cbn in *.
      * apply ret_Ok in H1 as [= -> -> ->]. rewrite <-Ei in H2. refine (deliver_inbox now vid body name n _ s En Ef _ _ _ _ s2 _ _ _ _ _ _ H2 _ _ _ H3); try done. by left.
      * apply bind_Ok in H1 as (v & t & He & [= -> -> ->]%ret_Ok). rewrite <-Ei in H2.
        apply ensureParticipantInbox_Ok in He as (n' & Hn' & _ & He). assert (n' = n) as -> by congruence.
        assert (mkKey (n_family n) (participantKey name) = inbox_named name n) as Ei' by done. rewrite Ei' in He.
        destruct He as [->|[Hfr ->]]; [refine (deliver_inbox now vid body name n _ s En Ef _ _ _ _ s2 _ _ _ _ _ _ H2 _ _ _ H3); try done; by left|]. refine (deliver_inbox now vid body name n _ s En Ef _ _ _ _ s2 _ _ _ _ _ _ H2 _ _ _ H3); try done; cbn.
        -- intros k r Hr. rewrite lookup_insert_ne; [done|]. intros E. rewrite <-E in Hr. congruence.
        -- right. split; [|done]. unfold active_row, inbox_row. cbn. by apply Z.ltb_lt.
  - apply ret_Ok in H1 as [= -> -> ->]. apply ret_Ok in H2 as [= -> -> -> ->]. apply verdict_delivery_Ok in H3 as [Hfresh ->].
    split; cbn; try done; [by apply same_session|]. left. split_and!; try done. by apply skip_unknown.
Qed.

(** ** All deliveries of a verdict *)

Definition ids_below (s : State) : Prop := ∀ i m, messages s !! i = Some m → i ≤ messages_issued s.

(** What became of the deliveries to a list of names: each name has its row, in order, and a queued
    one its message; no other delivery and no other message changes. *)
Record all_delivered (now vid ordinal : Z) (body : string) (l : list string) (rows : list VerdictDeliveryRow) (s s' : State) : Prop := {
  ad_names : vd_name <$> rows = l;
  ad_rows : ∀ i row, rows !! i = Some row → decision_deliveries (board s') !! (vid, ordinal + Z.of_nat i) = Some row;
  ad_others : ∀ k d, decision_deliveries (board s') !! k = Some d →
    decision_deliveries (board s) !! k = Some d ∨ ∃ i, rows !! i = Some d ∧ k = (vid, ordinal + Z.of_nat i);
  ad_kept : ∀ k d, decision_deliveries (board s) !! k = Some d → decision_deliveries (board s') !! k = Some d;
  ad_state : names s' = names s ∧ messages_issued s ≤ messages_issued s' ∧ ids_below s';
  ad_sessions : ∀ k r, sessions s !! k = Some r → ∃ q, sessions s' !! k = Some (r <| s_last_seq := q |>);
  ad_messages : ∀ i m, messages s !! i = Some m → messages s' !! i = Some m;
  ad_new : ∀ i m, messages s' !! i = Some m → messages s !! i = Some m ∨
    ∃ j row, rows !! j = Some row ∧ vd_outcome row = "queued"%string ∧ vd_message_id row = i;
  ad_own : ∀ i j x y, rows !! i = Some x → rows !! j = Some y → (i < j)%nat → vd_outcome x = "queued"%string → vd_outcome y = "queued"%string →
    vd_message_id x < vd_message_id y;
  ad_effects : ∀ i row, rows !! i = Some row → vd_acknowledged_at row = 0 ∧
    ((vd_outcome row = "queued"%string ∧ vd_reason row = ""%string ∧ ∃ n q, names s !! vd_name row = Some n ∧ n_family n ≠ Family maintainerKey ∧
        messages_issued s < vd_message_id row ∧ messages s' !! vd_message_id row = Some (verdict_message (inbox_named (vd_name row) n) q now vid body)) ∨
     (vd_outcome row = "skipped"%string ∧ vd_message_id row = 0 ∧ skip_reason now s (vd_name row) (vd_reason row))) }.

Lemma skip_reason_before now s s1 name reason : names s1 = names s →
  (∀ k r, sessions s !! k = Some r → ∃ q, sessions s1 !! k = Some (r <| s_last_seq := q |>)) → skip_reason now s1 name reason → skip_reason now s name reason.
Proof.
  intros En Hs [Hn|n Hn Hf|n Hn Hi]; rewrite En in Hn; [by apply skip_unknown|by eapply skip_maintainer|].
  eapply skip_inactive; [exact Hn|]. intros r Hr. destruct (Hs _ _ Hr) as [q Hq]. specialize (Hi _ Hq). done.
Qed.
Lemma delivered_below now vid ordinal body name row s s' : ids_below s → delivered now vid ordinal body name row s s' →
  ids_below s' ∧ messages_issued s ≤ messages_issued s' ∧ (∀ i m, messages s !! i = Some m → messages s' !! i = Some m) ∧
  ∀ i m, messages s' !! i = Some m → messages s !! i = Some m ∨ vd_outcome row = "queued"%string ∧ vd_message_id row = i.
Proof.
  intros Hb [_ _ _ _ _ [(_ & _ & Em & Ei & _)|(Ho & _ & n & q & _ & _ & Eid & Ei & Em)]].
  - unfold ids_below. rewrite Em, Ei. split_and!; try done. intros i m Hl. by left.
  - unfold ids_below. rewrite Em, Ei. split_and!; [|lia| |].
    + intros i m [[<- _]|[_ Hl]]%lookup_insert_Some; [lia|]. specialize (Hb _ _ Hl). lia.
    + intros i m Hl. specialize (Hb _ _ Hl). rewrite lookup_insert_ne by lia. done.
    + intros i m [[<- _]|[_ Hl]]%lookup_insert_Some; [by right|by left].
Qed.

Lemma deliver_all_Ok now vid body l : now < never → ∀ ordinal s ds s', ids_below s → deliver_all now vid body ordinal l s = Ok (ds, s') →
  ∃ rows, ds = delivery_view <$> rows ∧ all_delivered now vid ordinal body l rows s s' ∧ ∃ x, board s' = (board s) <| decision_deliveries := x |>.
Proof.
  intros Hnow. induction l as [|name l IH]; intros ordinal s ds s' Hb H; cbn in H.
  - apply ret_Ok in H as [= -> ->]. exists []. split; [done|]. split; [|exists (decision_deliveries (board s)); by destruct (board s)].
    split; try done; [by left|by apply same_session|by left].
  - apply bind_Ok in H as (d & s1 & (row & -> & Hd)%deliverVerdict_Ok & H); [|done]. apply bind_Ok in H as (rest & s2 & H2 & [= -> ->]%ret_Ok).
    destruct (delivered_below _ _ _ _ _ _ _ _ Hb Hd) as (Hb1 & Hi1 & Hk1 & Hn1). destruct (IH _ _ _ _ Hb1 H2) as (rows & -> & [A1 A3 A4 A5 (A6 & A6' & A6'') A7 A8 A9 A11 A10] & ds & A2).
    destruct Hd as [D1 D2 D3 [D4 D4'] D5 D6]. exists (row :: rows). split; [done|].
    assert (∀ k, decision_deliveries (board s1) !! k = <[(vid, ordinal) := row]> (decision_deliveries (board s)) !! k) as Hds by (intros k; by rewrite D2).
    assert (∀ i : nat, ordinal + 1 + Z.of_nat i = ordinal + Z.of_nat (S i)) as Hord by lia.
    split; [split|exists ds; rewrite A2, D2; by destruct (board s)].
    + cbn. by rewrite D4, A1.
    + intros [|i] row' Hr; cbn in Hr; [|rewrite <-Hord; by apply A3]. injection Hr as ->. rewrite Z.add_0_r. apply A5. by rewrite Hds, lookup_insert_eq.
    + intros k x [Hx|(i & Hi & ->)]%A4; [|right; exists (S i); by rewrite <-Hord]. rewrite Hds in Hx. apply lookup_insert_Some in Hx as [[<- <-]|[_ Hx]]; [|by left].
      right. exists 0%nat. by rewrite Z.add_0_r.
    + intros k x Hx. apply A5. rewrite Hds, lookup_insert_ne; [done|]. intros <-. congruence.
    + split_and!; [congruence|lia|done].
    + intros k r Hr. destruct (D5 _ _ Hr) as [q Hq]. destruct (A7 _ _ Hq) as [q' Hq']. exists q'. rewrite Hq'. by destruct r.
    + intros i m Hm. apply A8, Hk1, Hm.
    + intros i m [Hm|(j & row' & Hj & Hq)]%A9; [|right; by exists (S j), row']. destruct (Hn1 _ _ Hm) as [?|[? ?]]; [by left|right; by exists 0%nat, row].
    + intros [|i] [|j] x y Hx Hy Hlt Qx Qy; cbn in Hx, Hy; [lia| |lia|by eapply (A11 i j); [..|lia|done|done]].
      injection Hx as <-. destruct (A10 _ _ Hy) as (_ & [(_ & _ & n & q & _ & _ & O5 & _)|(O1 & _)]); [|congruence].
      destruct D6 as [(O1 & _)|(_ & _ & n' & q' & _ & _ & -> & O6 & _)]; [congruence|lia].
    + intros [|i] row' Hr; cbn in Hr.
      * injection Hr as <-. split; [done|]. destruct D6 as [(O1 & O2 & _ & _ & O3)|(O1 & O2 & n & q & O3 & O4 & O5 & O6 & O7)]; [right|left]; rewrite D4; [done|].
        split_and!; [done..|]. exists n, q. split_and!; [done..|lia|]. apply A8. by rewrite O7, O5, lookup_insert_eq.
      * destruct (A10 _ _ Hr) as (O0 & [(O1 & O2 & n & q & O3 & O4 & O5 & O6)|(O1 & O2 & O3)]); (split; [done|]); [left|right].
        -- split_and!; [done..|]. exists n, q. rewrite <-D3. split_and!; [done..|lia|done].
        -- split_and!; [done..|]. by eapply skip_reason_before.
Qed.

(** ** The verdict *)

Section verdict.
Variable is_print : Z → bool.

Definition verdict_phase (verdict : string) : phase :=
  if seqb verdict "approved" then InProgress verdict else if seqb verdict "feedback" then Returned else Done verdict.
(** An address of the author: an alias of the identity that the author had.  An empty name, which
    no table has, counts as no address. *)
Definition author_at (r : DecisionItemRow) (s : State) (address : string) : Prop := di_author_participant r ≠ ""%string ∧
  ∃ n, names s !! address = Some n ∧ n_kind n = Alias ∧ participant_identity (n_family n) (n_repository n) (n_role n) = di_author_participant r.
Definition no_address (r : DecisionItemRow) (s : State) : Prop := ∀ a, author_at r s a → author_at r s "".
(** A name reaches an address: it is the address, or the peer name of the active session that holds
    it. *)
Definition reaches_address (now : Z) (s : State) (address name : string) : Prop := name = address ∨
  ∃ p a q, names s !! name = Some p ∧ n_kind p = Peer ∧ names s !! address = Some a ∧ n_kind a = Alias ∧ n_family a = n_family p ∧ n_holder_id a = n_session_id p ∧
    sessions s !! mkKey (n_family p) (n_session_id p) = Some q ∧ active_row now q = true.
(** What a verdict adds to the listed recipients for the author: nothing when one of them reaches
    the author or the author has no name; else the author's address, or without one the peer name. *)
Inductive author_extra (now : Z) (r : DecisionItemRow) (s : State) (l : list string) : list string → Prop :=
| ax_reached address name : address ≠ ""%string → author_at r s address → name ∈ l → reaches_address now s address name → author_extra now r s l []
| ax_address address : address ≠ ""%string → author_at r s address → (∀ name, name ∈ l → ¬ reaches_address now s address name) → author_extra now r s l [address]
| ax_listed : no_address r s → di_author_name r ∈ l → author_extra now r s l []
| ax_nameless : no_address r s → di_author_name r = ""%string → author_extra now r s l []
| ax_peer : no_address r s → di_author_name r ∉ l → di_author_name r ≠ ""%string → author_extra now r s l [di_author_name r].

Lemma reaches_spec now address s name : reaches now address s name = true ↔ reaches_address now s address name.
Proof.
  unfold reaches, reaches_address. rewrite orb_true_iff, seqb_true. apply or_iff_compat_l. split.
  - destruct (names s !! name) as [p|] eqn:Ep; [|done]. destruct (names s !! address) as [a|] eqn:Ea; [|done].
    intros [[[[Hp%bool_decide_eq_true Ha%bool_decide_eq_true]%andb_true_iff Hf%seqb_true]%andb_true_iff Hh%seqb_true]%andb_true_iff H]%andb_true_iff.
    destruct (sessions s !! _) as [q|] eqn:Eq; [|done]. by exists p, a, q.
  - intros (p & a & q & -> & Hp & -> & Ha & Hf & Hh & -> & Hq). rewrite !andb_true_iff, !bool_decide_eq_true, !seqb_true. done.
Qed.
Lemma author_at_spec r s address n : di_author_participant r ≠ ""%string → names s !! address = Some n → has_identity (di_author_participant r) address n = true → author_at r s address.
Proof. intros Hne Hn [Hk%bool_decide_eq_true He%seqb_true]%andb_true_iff. split; [done|]. by exists n. Qed.
Lemma author_address_spec r s : if seqb (author_address r s) "" then no_address r s else author_at r s (author_address r s).
Proof.
  unfold author_address. destruct (seqb (di_author_participant r) "") eqn:E.
  - apply seqb_true in E. by intros a [? _].
  - apply seqb_false in E. destruct (first_key _ _) as [a|] eqn:Ef; cbn.
    + apply first_key_Some in Ef as (n & Hn & Hi). pose proof (author_at_spec _ _ _ _ E Hn Hi). destruct (seqb a "") eqn:Ea; [|done]. apply seqb_true in Ea as ->. by intros b _.
    + intros a [_ (n & Hn & Hk & He)]. pose proof (first_key_None _ _ Ef _ _ Hn) as Hi. unfold has_identity in Hi.
      by rewrite (bool_decide_eq_true_2 _ Hk), (proj2 (seqb_true _ _) He) in Hi.
Qed.
Lemma withAuthor_spec now r s l : ∃ extra, withAuthor now r s l = l ++ extra ∧ author_extra now r s l extra.
Proof.
  pose proof (author_address_spec r s) as Ha. unfold withAuthor. cbv zeta. destruct (seqb (author_address r s) "") eqn:E.
  - destruct (one_of (di_author_name r) l) eqn:El; [|destruct (seqb (di_author_name r) "") eqn:En]; cbn.
    + exists []. rewrite app_nil_r. split; [done|]. apply ax_listed; [done|]. by apply one_of_elem.
    + exists []. rewrite app_nil_r. split; [done|]. apply ax_nameless; [done|]. by apply seqb_true.
    + eexists. split; [done|]. apply ax_peer; [done| |by apply seqb_false]. intros Hin%one_of_elem. congruence.
  - apply seqb_false in E. destruct (existsb _ l) eqn:Ex.
    + apply existsb_exists in Ex as (name & Hin%list_elem_of_In & Hr%reaches_spec). exists []. rewrite app_nil_r. split; [done|]. by eapply ax_reached.
    + eexists. split; [done|]. apply ax_address; [done..|]. intros name Hin%list_elem_of_In Hr%reaches_spec.
      assert (existsb (reaches now (author_address r s) s) l = true); [|congruence]. apply existsb_exists. by exists name.
Qed.
Definition message_of (reference verdict : string) (vid : Z) (r : DecisionItemRow) (v : DecisionVerdictView) : string :=
  verdictMessageBody reference verdict vid (if recordedVerdict verdict then DecisionVerdictText is_print (di_location r) v else "").

(** The board and the inboxes before and after an accepted verdict *)
Record judged (now : Z) (via reference : string) (revision : Z) (verdict note : string) (v : DecisionVerdictView) (id : Z) (r : DecisionItemRow) (s s' : State) : Prop := {
  jd_item : decision_items (board s) !! id = Some r ∧ di_reference r = reference ∧ di_revision r = revision;
  jd_waiting : phase_is r (verdicts_of (board s) id) (withdrawals_of (board s) id) Waiting_;
  jd_allowed : verdict ∈ kindVerdicts (di_kind r) ∧ (verdict = "approved"%string → Forall (λ c, printableCommand c = true) (di_commands r));
  jd_id : dv_ID v = decision_verdicts_issued (board s) + 1;
  jd_verdict : decision_verdicts (board s') = <[dv_ID v := mkVerdictRow id revision verdict note now (snapshot_of r) 0 via]> (decision_verdicts (board s));
  jd_items : decision_items (board s') = <[id := judged_row now verdict r]> (decision_items (board s));
  jd_same : decision_withdrawals (board s') = decision_withdrawals (board s) ∧ decision_recipients (board s') = decision_recipients (board s) ∧
    decision_items_issued (board s') = decision_items_issued (board s) ∧ decision_verdicts_issued (board s') = dv_ID v ∧
    decision_withdrawals_issued (board s') = decision_withdrawals_issued (board s) ∧ decision_deep_archive (board s') = decision_deep_archive (board s) ∧
    decision_replays (board s') = decision_replays (board s);
  jd_view : v = mkDecisionVerdict (dv_ID v) revision verdict note now 0 (snapshot_of r) (dv_Deliveries v) "";
  jd_delivered : ∃ extra rows, author_extra now r s (recipientNames id s) extra ∧ dv_Deliveries v = delivery_view <$> rows ∧
    all_delivered now (dv_ID v) 0 (message_of reference verdict (dv_ID v) r (v <| dv_Deliveries := [] |>)) (recipientNames id s ++ extra) rows s s' }.

Lemma setAuditTarget_Ok t s u s' : setAuditTarget t s = Ok (u, s') → ∃ p, s' = s <| pending := p |>.
Proof. unfold setAuditTarget. intros [= _ ->]%modify_Ok. by eexists. Qed.
Lemma verdictTx_Ok now via reference revision verdict note s v s' : now < never → ids_below s → board_ok (board s) →
  verdictTx is_print now via reference revision verdict note s = Ok (v, s') → ∃ id r, judged now via reference revision verdict note v id r s s'.
Proof.
  intros Hnow Hb Hok H. unfold verdictTx in H. apply bind_Ok in H as ([id r] & s0 & (-> & Hi & Hr)%decisionRow_Ok & H).
  apply bind_Ok in H as (u1 & s0 & [Hrev%Z.eqb_eq [= -> ->]]%ensure_Ok & H). apply bind_Ok in H as (u2 & s0 & [Hst%seqb_true [= -> ->]]%ensure_Ok & H).
  apply bind_Ok in H as (u3 & s0 & [Hkd%one_of_elem [= -> ->]]%ensure_Ok & H). apply bind_Ok in H as (u4 & s0 & [Hcm [= -> ->]]%ensure_Ok & H).
  apply bind_Ok in H as (vid & s1 & H1 & H). unfold insert_verdict in H1. injection H1 as <- <-. apply bind_Ok in H as (u5 & s2 & ->%on_board_Ok & H).
  apply bind_Ok in H as (u6 & s3 & [g Es]%bumpChange_Ok & H). apply bind_Ok in H as (l & s0 & [= -> ->]%gets_Ok & H).
  apply bind_Ok in H as (ds & s4 & H4 & H). apply bind_Ok in H as (u7 & s5 & [p ->]%setAuditTarget_Ok & [= -> ->]%ret_Ok).
  set (vid := decision_verdicts_issued (board s) + 1) in *. assert (ids_below s3) as Hb3 by (rewrite Es; exact Hb).
  apply deliver_all_Ok in H4 as (rows & -> & Hd & x & Ex); [|done|done].
  destruct (withAuthor_spec now r s (recipientNames id s)) as (extra & El & Hx).
  assert (withAuthor now r s3 (recipientNames id s3) = recipientNames id s ++ extra) as El' by (by rewrite <-El, Es).
  rewrite El' in Hd. rewrite Es in Ex. cbn in Ex. rewrite (alter_row _ _ _ _ Hi) in Ex. destruct (state_phase _ _ _ (card_of _ _ _ Hok Hi)) as [Hw _].
  exists id, r. split; cbn.
  - done.
  - exact (Hw Hst).
  - split; [done|]. intros ->. rewrite (proj2 (seqb_true _ _) eq_refl) in Hcm. cbn in Hcm. apply Forall_forall. intros c Hc%list_elem_of_In.
    exact (proj1 (forallb_forall _ _) Hcm c Hc).
  - done.
  - by rewrite Ex.
  - by rewrite Ex.
  - by rewrite Ex.
  - done.
  - exists extra, rows. split; [exact Hx|]. split; [done|]. destruct Hd as [A1 A3 A4 A5 (A6 & A6' & A6'') A7 A8 A9 A11 A10]. subst s3. cbn in *. split; try done.
    intros i row Hrow. destruct (A10 _ _ Hrow) as (O0 & [O|(O1 & O2 & O3)]); (split; [done|]); [by left|right]. split_and!; [done..|].
    eapply skip_reason_before; [| |exact O3]; [done|]. cbn. apply same_session.
Qed.

Lemma judged_ok now via reference revision verdict note v id r s s' : now ≠ 0 → board_ok (board s) →
  judged now via reference revision verdict note v id r s s' →
  board_ok (board s') ∧ (∀ i, i ≠ id → verdicts_of (board s') i = verdicts_of (board s) i ∧ withdrawals_of (board s') i = withdrawals_of (board s) i) ∧
  phase_is (judged_row now verdict r) (verdicts_of (board s') id) (withdrawals_of (board s') id) (verdict_phase verdict).
Proof.
  intros Hn Hok [(Hi & Hr & Hrev) Hw (Hk & _) Hid Hv Hit (E1 & E2 & E3 & E4 & E5 & E6 & _) _ (extra & rows & _ & _ & Hd)].
  assert (∀ i x, decision_verdicts (board s) !! i = Some x → i ≤ decision_verdicts_issued (board s)) as Hvi by (intros i x Hl; by destruct (bo_verdicts _ Hok _ _ Hl)).
  assert (decision_verdicts (board s) !! dv_ID v = None) as Hf by (apply eq_None_not_Some; intros [x Hx%Hvi]; lia).
  set (row := mkVerdictRow id revision verdict note now (snapshot_of r) 0 via) in *.
  assert (∀ i, verdicts_of (board s') i = if decide (id = i) then <[dv_ID v := row]> (verdicts_of (board s) i) else verdicts_of (board s) i) as Hvs
    by (intros i; rewrite Hv; by apply mine_insert).
  destruct (judged_card now r (verdicts_of (board s) id) (withdrawals_of (board s) id) id verdict note via (dv_ID v) Hn (card_of _ _ _ Hok Hi) Hw Hk) as [Hc Hp].
  { apply below_mine. intros i x Hl. specialize (Hvi _ _ Hl). lia. }
  rewrite Hrev in Hc, Hp. fold row in Hc, Hp.
  assert (verdicts_of (board s') id = <[dv_ID v := row]> (verdicts_of (board s) id)) as Ev by (by rewrite Hvs, decide_True).
  assert (withdrawals_of (board s') id = withdrawals_of (board s) id) as Ew by (by rewrite E1).
  assert (∀ i, i ≠ id → verdicts_of (board s') i = verdicts_of (board s) i) as Eo by (intros i Hne; rewrite Hvs, decide_False; congruence).
  split; [|split; [intros i Hne; split; [by apply Eo|by rewrite E1]|rewrite Ev, Ew; exact Hp]].
  eapply (one_card_ok _ _ id r); [exact Hok|exact Hi| | |rewrite Ev, Ew; exact Hc]; [done|]. split; try done.
  - intros i _. by rewrite E1.
  - rewrite E4, Ev. split; [|lia]. apply below_insert; [|done]. apply below_mine. intros i x Hl. specialize (Hvi _ _ Hl). lia.
  - rewrite E5, Ew. split; [|done]. apply below_mine. intros i x Hl. by destruct (bo_withdrawals _ Hok _ _ Hl).
  - rewrite E2. intros k x Hx. by right.
  - intros k d [Hx|(i & Hx & ->)]%(ad_others _ _ _ _ _ _ _ _ Hd).
    + destruct (bo_deliveries _ Hok _ _ Hx) as [? Ho]. split; [|exact Ho]. rewrite Hv. by apply lookup_insert_is_Some'; right.
    + rewrite Hv. split; [apply lookup_insert_is_Some'; by left|].
      destruct (ad_effects _ _ _ _ _ _ _ _ Hd _ _ Hx) as (_ & [(-> & -> & _)|(-> & _ & Hs)]); [split; [set_solver|done]|].
      split; [set_solver|]. split; [|done]. intros _. by destruct Hs.
Qed.

(** The inboxes stay well formed. *)
Lemma verdictTx_inbox now via reference revision verdict note : Maintains inbox_wf (verdictTx is_print now via reference revision verdict note).
Proof.
  unfold verdictTx. apply maintains_bind; [apply wf_of_keeps; intros s [i r] s' (-> & _)%decisionRow_Ok; done|]. intros [id r].
  do 4 (apply maintains_bind; [maintains|intros _]). apply maintains_bind; [apply wf_of_keeps; intros s x s' [= <- <-]; done|]. intros vid.
  apply maintains_bind; [apply wf_of_keeps; intros s x s' ->%on_board_Ok; done|intros _]. apply maintains_bind; [maintains|intros _].
  apply maintains_bind; [maintains|intros l]. apply maintains_bind; [|intros ds; apply maintains_bind; maintains].
  set (body := verdictMessageBody _ _ _ _). clearbody body. generalize 0. induction l as [|name l IH]; intros ordinal; cbn; [maintains|]. apply maintains_bind; [|intros d; apply maintains_bind; [apply IH|maintains]].
  unfold deliverVerdict. apply maintains_bind.
  - unfold delivery_target. apply maintains_bind; [maintains|]. intros [n|]; [|maintains]. destruct (seqb _ _); [maintains|].
    destruct (n_kind n); [maintains|]. apply maintains_bind; [apply wf_ensureParticipantInbox|maintains].
  - intros [kind [reason|inbox]]; (apply maintains_bind; [|intros [[? ?] ?]; apply maintains_bind; [apply wf_of_keeps; intros t x t' [_ ->]%verdict_delivery_Ok; done|maintains]]); [maintains|].
    by apply (send_copy_wf inbox now (λ q, verdict_message inbox q now vid body) _ (λ id, ("queued"%string, ""%string, id))).
Qed.
End verdict.
