(* ===== verification/BoardInvariant.v ===== *)
(** * The board over any sequence of transactions

    The invariant of the board's tables, and the refinement of its transactions to the moves of
    one card: a card waits until the maintainer's verdict on exactly its revision, approved work
    is closed once, and only an edit or a reopen, which takes the next revision, lets it wait
    again. *)

From S2P Require Import Prelude GoString GoFloat Schema Sql Label Storage Names Messages Inboxes Cycles Launches Leases WorkViews BoardText Decisions Verdicts BoardProps BoardSteps VerdictProps.
Open Scope Z_scope.

(** ** Acknowledgements *)

(** A queued delivery becomes acknowledged; everything else stays. *)
Definition acked (now : Z) (d d' : VerdictDeliveryRow) : Prop := d' = d ∨ vd_outcome d = "queued"%string ∧ d' = acknowledged_row now d.
Record acks (now : Z) (s s' : State) : Prop := {
  ak_board : ∃ x, s' = s <| board := (board s) <| decision_deliveries := x |> |>;
  ak_old : ∀ k d, decision_deliveries (board s) !! k = Some d → ∃ d', decision_deliveries (board s') !! k = Some d' ∧ acked now d d';
  ak_new : ∀ k d', decision_deliveries (board s') !! k = Some d' → ∃ d, decision_deliveries (board s) !! k = Some d ∧ acked now d d' }.
Lemma acked_trans now d d1 d2 : acked now d d1 → acked now d1 d2 → acked now d d2.
Proof. intros [->|[H ->]] [->|[H' ->]]; [by left|by right|by right|]. by cbn in H'. Qed.
#[export] Instance acks_preorder now : PreOrder (acks now).
Proof.
  split.
  - intros s. split; [exists (decision_deliveries (board s)); destruct s as [? ? ? ? ? ? ? ? ? ? ? ? ? ? ? ? ? ? ? ? ? ? ? ? ? ? ? ? ? ? ? ? ? ? ? b ? ?]; by destruct b| |];
      intros k d Hd; exists d; (split; [done|by left]).
  - intros s1 s2 s3 [[x ->] A2 A3] [[y ->] B2 B3]. split; [by exists y| |]; cbn in *.
    + intros k d (d1 & H1 & Ha)%A2. destruct (B2 _ _ H1) as (d2 & H2 & Hb). exists d2. split; [done|by eapply acked_trans].
    + intros k d2 (d1 & H1 & Hb)%B3. destruct (A3 _ _ H1) as (d & H2 & Ha). exists d. split; [done|by eapply acked_trans].
Qed.
Lemma ack_verdict_acks now l v s c s' : ack_verdict now l v s = Ok (c, s') → acks now s s'.
Proof.
  unfold ack_verdict. intros H. apply bind_Ok in H as (x & s0 & [= -> ->]%gets_Ok & H). apply bind_Ok in H as (u & s1 & H1 & [= -> ->]%ret_Ok).
  revert H1. apply each_preserves; [apply acks_preorder|]. intros name t t' w _ ->%on_board_Ok. split; cbn; [by eexists| |].
  - intros k d Hd. rewrite lookup_update_where, Hd. cbn. eexists. split; [done|]. destruct (queued_for v name k d) eqn:E; [right|by left].
    unfold queued_for in E. rewrite !andb_true_iff, !seqb_true in E. split; [apply E|done].
  - intros k d' (d & Hd & ->)%lookup_update_where_Some. exists d. split; [done|]. destruct (queued_for v name k d) eqn:E; [right|by left].
    unfold queued_for in E. rewrite !andb_true_iff, !seqb_true in E. split; [apply E|done].
Qed.
Lemma ack_all_acks now l vs : ∀ s c s', ack_all now l vs s = Ok (c, s') → acks now s s'.
Proof.
  induction vs as [|v vs IH]; cbn; intros s c s' H; [apply ret_Ok in H as [= -> ->]; reflexivity|].
  apply bind_Ok in H as (x & s1 & H1%ack_verdict_acks & H). apply bind_Ok in H as (rest & s2 & H2%IH & H). etrans; [exact H1|].
  destruct x; by apply ret_Ok in H as [= -> ->].
Qed.
Lemma ackTx_acks now caller vs s c s' : ackTx_ now caller vs s = Ok (c, s') → acks now s s'.
Proof.
  unfold ackTx_. intros H. apply bind_Ok in H as (u & s0 & [_ [= -> ->]]%check_Ok & H). apply bind_Ok in H as (l & s0 & [= -> ->]%gets_Ok & H).
  by eapply ack_all_acks.
Qed.
Lemma acks_ok now s s' : acks now s s' → board_ok (board s) → board_ok (board s').
Proof.
  intros [[x ->] _ Hnew] [B0 B1 B2 B3 B4 B5 B6 B7]. cbn in *. split; try done. cbn. intros k d' (d & Hd & Ha)%Hnew. destruct (B7 _ _ Hd) as (Hv & Ho & Hs).
  split; [done|]. destruct Ha as [->|[Hq ->]]; [done|]. cbn. split; [by apply one_of_elem|]. rewrite Hq in Hs. split; [done|]. intros Hr. by apply Hs in Hr.
Qed.

(** ** The machine of cards *)

(** The cards of a board, each with its phase and its revision *)
Abbreviation cards := (gmap Z (phase * Z)).
Definition decisionVerdicts : list string := decisionKinds ≫= kindVerdicts.
(** What an actor does with a card, at the revision that the actor names *)
Inductive deed := Make | Edit (n : Z) | Judge (n : Z) (verdict : string) | Close (n : Z) | Withdraw (n : Z) | Reopen (n : Z).
(** The card before and after a deed *)
Inductive card_deed : deed → option (phase * Z) → phase * Z → Prop :=
| cd_make : card_deed Make None (Waiting_, 1)
| cd_edit p n : card_deed (Edit n) (Some (p, n)) (Waiting_, n + 1)
| cd_judge v n : v ∈ decisionVerdicts → card_deed (Judge n v) (Some (Waiting_, n)) (verdict_phase v, n)
| cd_close n : card_deed (Close n) (Some (InProgress "approved", n)) (Done "approved", n)
| cd_withdraw p n : p = Waiting_ ∨ p = Returned → card_deed (Withdraw n) (Some (p, n)) (Withdrawn, n)
| cd_reopen n : card_deed (Reopen n) (Some (Withdrawn, n)) (Waiting_, n + 1).
(** A transaction is one deed with one card, or moves no card. *)
Inductive board_act := On (id : Z) (d : deed) | Elsewhere.
Definition cards_act (a : board_act) (m m' : cards) : Prop :=
  match a with On id d => ∃ c, card_deed d (m !! id) c ∧ m' = <[id := c]> m | Elsewhere => m' = m end.

(** The cards that the tables hold *)
Definition shown_as (b : Board) (id : Z) (c : option (phase * Z)) : Prop :=
  match decision_items b !! id, c with
  | Some r, Some (p, n) => phase_is r (verdicts_of b id) (withdrawals_of b id) p ∧ n = di_revision r
  | None, None => True
  | _, _ => False
  end.
Definition shows (b : Board) (m : cards) : Prop := ∀ id, shown_as b id (m !! id).
Definition same_card (b b' : Board) (id : Z) : Prop := decision_items b' !! id = decision_items b !! id ∧
  verdicts_of b' id = verdicts_of b id ∧ withdrawals_of b' id = withdrawals_of b id.
Lemma same_card_shown b b' id c : same_card b b' id → shown_as b id c → shown_as b' id c.
Proof. intros (E0 & E1 & E2). unfold shown_as. by rewrite E0, E1, E2. Qed.
Lemma shows_move d b b' m id c c' : shows b m → (∀ i, i ≠ id → same_card b b' i) → m !! id = c → card_deed d c c' → shown_as b' id (Some c') →
  ∃ m', cards_act (On id d) m m' ∧ shows b' m'.
Proof.
  intros Hm Hs Hc Hmv Hid. exists (<[id := c']> m). split; [exists c'; by rewrite Hc|]. intros i. destruct (decide (id = i)) as [<-|Hne].
  - by rewrite lookup_insert_eq.
  - rewrite lookup_insert_ne by done. by eapply same_card_shown, Hm; apply Hs.
Qed.
Lemma shows_stay b b' m : shows b m → (∀ i, same_card b b' i) → ∃ m', cards_act Elsewhere m m' ∧ shows b' m'.
Proof. intros Hm Hs. exists m. split; [done|]. intros i. eapply same_card_shown; [apply Hs|apply Hm]. Qed.
(** The card of an item is in one phase. *)
Lemma shown_phase b m id r p : shows b m → decision_items b !! id = Some r → phase_is r (verdicts_of b id) (withdrawals_of b id) p →
  m !! id = Some (p, di_revision r).
Proof.
  intros Hm Hi Hp. specialize (Hm id). unfold shown_as in Hm. rewrite Hi in Hm. destruct (m !! id) as [[q n]|]; [|done].
  destruct Hm as [Hq ->]. by rewrite (phase_functional _ _ _ _ _ Hp Hq).
Qed.
Lemma shown_some b m id r : shows b m → decision_items b !! id = Some r → ∃ p, m !! id = Some (p, di_revision r) ∧ phase_is r (verdicts_of b id) (withdrawals_of b id) p.
Proof.
  intros Hm Hi. specialize (Hm id). unfold shown_as in Hm. rewrite Hi in Hm. destruct (m !! id) as [[q n]|]; [|done]. destruct Hm as [Hq ->]. eauto.
Qed.
Lemma board_shows b : board_ok b → ∃ m, shows b m.
Proof.
  intros Hb. assert (∀ l : list Z, ∃ m : cards, (∀ id, id ∈ l → shown_as b id (m !! id)) ∧ ∀ id, id ∉ l → m !! id = None) as H.
  { induction l as [|i l (m & H1 & H2)]; [exists ∅; split; [intros id Hid; by apply elem_of_nil in Hid|done]|]. destruct (decision_items b !! i) as [r|] eqn:E.
    - destruct (co_phase _ _ _ (card_of _ _ _ Hb E)) as [p Hp]. exists (<[i := (p, di_revision r)]> m). split.
      + intros id Hid. destruct (decide (i = id)) as [<-|Hne]; [rewrite lookup_insert_eq; unfold shown_as; by rewrite E|]. rewrite lookup_insert_ne by done.
        apply H1. apply elem_of_cons in Hid as [->|Hid]; done.
      + intros id Hid. apply not_elem_of_cons in Hid as [Hne Hid]. rewrite lookup_insert_ne by congruence. by apply H2.
    - exists (delete i m). split.
      + intros id Hid. destruct (decide (i = id)) as [<-|Hne]; [rewrite lookup_delete_eq; unfold shown_as; by rewrite E|]. rewrite lookup_delete_ne by done.
        apply H1. apply elem_of_cons in Hid as [->|Hid]; done.
      + intros id Hid. apply not_elem_of_cons in Hid as [Hne Hid]. apply lookup_delete_None. right. by apply H2. }
  destruct (H (elements (dom (decision_items b)))) as (m & H1 & H2). exists m. intros id.
  destruct (decide (id ∈ elements (dom (decision_items b)))) as [Hid|Hid]; [by apply H1|]. rewrite H2 by done.
  rewrite elem_of_elements, not_elem_of_dom in Hid. unfold shown_as. by rewrite Hid.
Qed.

(** ** Steps *)

Section steps.
Context `{SHA : Sha256}.
Variable is_print : Z → bool.

Definition board_inv (s : State) : Prop := board_ok (board s) ∧ inbox_wf s.
(** One committed transaction of the board, or of another part: it leaves the board alone and
    keeps the inboxes.  The clock is after 1970 and before the year 287396. *)
Definition clock_ok (now : Z) : Prop := 0 < now < never.
Inductive board_step (s s' : State) : Prop :=
| bs_create now caller reference f key print deadline a : clock_ok now → validate true f = None →
    createTx now caller reference f key print deadline s = Ok (a, s') → board_step s s'
| bs_edit now caller reference ifRevision f u : clock_ok now → validate false f = None → editTx now caller reference ifRevision f s = Ok (u, s') → board_step s s'
| bs_close now caller reference ifRevision note key print deadline a : clock_ok now →
    closeTx is_print now caller reference ifRevision note key print deadline s = Ok (a, s') → board_step s s'
| bs_withdraw now caller reference ifRevision reason key print deadline a : clock_ok now →
    withdrawTx is_print now caller reference ifRevision reason key print deadline s = Ok (a, s') → board_step s s'
| bs_reopen now caller reference ifRevision u : clock_ok now → reopenTx now caller reference ifRevision s = Ok (u, s') → board_step s s'
| bs_verdict now via reference revision verdict note v : clock_ok now → verdictTx is_print now via reference revision verdict note s = Ok (v, s') → board_step s s'
| bs_ack now caller vs c : ackTx_ now caller vs s = Ok (c, s') → board_step s s'
| bs_cull clock u : cullDecisionReplaysTx clock s = Ok (u, s') → board_step s s'
| bs_other {A} (m : tx A) a : Keeps board m → Maintains inbox_wf m → m s = Ok (a, s') → board_step s s'.

(** *** The inboxes are kept *)

Lemma keeps_on_board f : Keeps inbox_view (on_board f).
Proof. by intros s u s' ->%on_board_Ok. Qed.
Lemma keeps_decisionRow reference : Keeps inbox_view (decisionRow reference).
Proof. by intros s [i r] s' [-> _]%decisionRow_Ok. Qed.
Lemma keeps_bump topic : Keeps inbox_view (bumpChange topic).
Proof. by intros s u s' [g ->]%bumpChange_Ok. Qed.
Lemma keeps_replay caller key q : Keeps inbox_view (insert_replay caller key q).
Proof. by intros s u s' [_ ->]%board_replay_Ok. Qed.
Lemma keeps_insert_item r : Keeps inbox_view (insert_item r).
Proof. intros s u s'. unfold insert_item. destruct (item_at _ s); [done|]. by intros [= _ <-]. Qed.
Lemma keeps_receipt caller reference key print deadline : Keeps inbox_view (receipt is_print caller reference key print deadline).
Proof. by intros s u s' (q & _ & -> & _)%receipt_Ok. Qed.
#[local] Hint Resolve keeps_on_board keeps_decisionRow keeps_bump keeps_replay keeps_insert_item keeps_receipt : frame.
Ltac inboxes := apply wf_of_keeps; keeps.
Lemma board_step_inbox s s' : board_step s s' → inbox_wf s → inbox_wf s'.
Proof.
  intros Hst Hwf. destruct Hst as [now caller reference f key print deadline a _ _ H|now caller reference ir f u _ _ H|now caller reference ir note key print deadline a _ H|
    now caller reference ir reason key print deadline a _ H|now caller reference ir u _ H|now via reference revision verdict note v _ H|now caller vs c H|clock u H|A m a _ Hm H].
  - assert (Maintains inbox_wf (createTx now caller reference f key print deadline)) as Hm by (unfold createTx, storeRecipients; inboxes). by eapply Hm.
  - assert (Maintains inbox_wf (editTx now caller reference ir f)) as Hm by (unfold editTx, reopen, supersede, end_withdrawals, Decisions.update_item, storeRecipients; inboxes). by eapply Hm.
  - assert (Maintains inbox_wf (closeTx is_print now caller reference ir note key print deadline)) as Hm by (unfold closeTx, Decisions.update_item; inboxes). by eapply Hm.
  - assert (Maintains inbox_wf (withdrawTx is_print now caller reference ir reason key print deadline)) as Hm
      by (unfold withdrawTx, supersede, insert_withdrawal, Decisions.update_item; inboxes). by eapply Hm.
  - assert (Maintains inbox_wf (reopenTx now caller reference ir)) as Hm by (unfold reopenTx, end_withdrawals, Decisions.update_item; inboxes). by eapply Hm.
  - by eapply verdictTx_inbox.
  - apply ackTx_acks in H as [[x ->] _ _]. by apply (inbox_wf_view s).
  - apply on_board_Ok in H as ->. by apply (inbox_wf_view s).
  - by eapply Hm.
Qed.

(** *** The cards move *)

Lemma view_same_card b b' : board_view b' = board_view b → ∀ i, same_card b b' i.
Proof.
  intros E i. assert (decision_items b' = decision_items b ∧ decision_verdicts b' = decision_verdicts b ∧ decision_withdrawals b' = decision_withdrawals b) as (E1 & E2 & E3).
  { destruct b, b'. unfold board_view, upd in E. cbn in E. by injection E as -> -> -> -> -> -> -> -> ->. }
  unfold same_card. by rewrite E1, E2, E3.
Qed.
(** The card with a reference *)
Definition named (b : Board) (reference : string) (id : Z) : Prop := ∃ r, decision_items b !! id = Some r ∧ di_reference r = reference.
Lemma edit_move d now by_ id r r' b b' m : now ≠ 0 → board_ok b → decision_items b !! id = Some r → di_kind r' ∈ decisionKinds → edit_of now by_ id r r' b b' →
  shows b m → (∀ p, phase_is r (verdicts_of b id) (withdrawals_of b id) p → card_deed d (Some (p, di_revision r)) (Waiting_, di_revision r + 1)) →
  board_ok b' ∧ ∃ m', cards_act (On id d) m m' ∧ shows b' m'.
Proof.
  intros Hn Hb Hi Hk He Hm Hd. destruct (edit_of_ok _ _ _ _ _ _ _ Hn Hb Hi Hk He) as [Hb' Hp]. split; [done|].
  destruct (shown_some _ _ _ _ Hm Hi) as (p & Hid & Hph). destruct (edit_of_card _ _ _ _ _ _ _ He) as (_ & _ & Ho).
  eapply (shows_move d _ _ _ id _ (Waiting_, di_revision r + 1)); [exact Hm| |exact Hid|by apply Hd|].
  - intros i Hne. destruct (Ho _ Hne) as [E1 E2]. split; [|done]. by rewrite (eo_items _ _ _ _ _ _ _ He), lookup_insert_ne.
  - unfold shown_as. rewrite (eo_items _ _ _ _ _ _ _ He), lookup_insert_eq. split; [exact Hp|]. by destruct (eo_row _ _ _ _ _ _ _ He) as (_ & _ & _ & -> & _).
Qed.
Lemma create_move now caller reference f key print deadline s a s' m : is_Some (f_Kind f) → board_ok (board s) →
  createTx now caller reference f key print deadline s = Ok (a, s') → shows (board s) m → ∃ m', cards_act (On (decision_items_issued (board s) + 1) Make) m m' ∧ shows (board s') m'.
Proof.
  intros [k Hk] Hb H Hm. apply createTx_board in H as (_ & E1 & E2 & E3 & _). set (id := decision_items_issued (board s) + 1) in *.
  assert (decision_items (board s) !! id = None) as Hf by (destruct (decision_items _ !! id) eqn:E; [destruct (bo_items _ Hb _ _ E); lia|done]).
  assert (m !! id = None) as Hid by (specialize (Hm id); unfold shown_as in Hm; rewrite Hf in Hm; by destruct (m !! id)).
  eapply (shows_move Make _ _ _ id _ (Waiting_, 1)); [exact Hm| |exact Hid|apply cd_make|].
  - intros i Hne. unfold same_card. by rewrite E1, E2, E3, lookup_insert_ne.
  - unfold shown_as. rewrite E1, E2, E3, lookup_insert_eq.
    rewrite (mine_new ve_item_id _ (decision_items (board s))), (mine_new dw_item_id _ (decision_items (board s)));
      [|intros; by eapply (bo_withdrawals _ Hb)|exact Hf|intros; by eapply (bo_verdicts _ Hb)|exact Hf]. by repeat split.
Qed.
Lemma judge_move now via reference revision verdict note v id r s s' m : now ≠ 0 → board_ok (board s) →
  judged is_print now via reference revision verdict note v id r s s' → shows (board s) m →
  board_ok (board s') ∧ ∃ m', cards_act (On id (Judge revision verdict)) m m' ∧ shows (board s') m'.
Proof.
  intros Hn Hb Hj Hm. destruct (judged_ok _ _ _ _ _ _ _ _ _ _ _ _ Hn Hb Hj) as (Hb' & Ho & Hp). split; [done|].
  destruct Hj as [(Hi & _ & <-) Hw (Hk & _) _ _ Hit _ _ _]. pose proof (shown_phase _ _ _ _ _ Hm Hi Hw) as Hid.
  eapply (shows_move (Judge (di_revision r) verdict) _ _ _ id _ (verdict_phase verdict, di_revision r)); [exact Hm| |exact Hid| |].
  - intros i Hne. destruct (Ho _ Hne) as [E1 E2]. split; [|done]. by rewrite Hit, lookup_insert_ne.
  - apply cd_judge. unfold decisionVerdicts. apply list_elem_of_bind. exists (di_kind r). split; [done|]. exact (co_kind _ _ _ (card_of _ _ _ Hb Hi)).
  - unfold shown_as. rewrite Hit, lookup_insert_eq. done.
Qed.
Lemma close_move now caller reference ifRevision note key print deadline s a s' m : now ≠ 0 → board_ok (board s) →
  closeTx is_print now caller reference ifRevision note key print deadline s = Ok (a, s') → shows (board s) m →
  board_ok (board s') ∧ ∃ id m', named (board s) reference id ∧ cards_act (On id (Close ifRevision)) m m' ∧ shows (board s') m'.
Proof.
  intros Hn Hb H Hm. apply closeTx_Ok in H as (id & r & Hi & Hname & <- & Hst & Hv & Hb'); [|done|done]. split; [done|]. exists id.
  cut (∃ m', cards_act (On id (Close (di_revision r))) m m' ∧ shows (board s') m'); [intros (m' & H1 & H2); exists m'; split; [by exists r|done]|].
  pose proof (card_of _ _ _ Hb Hi) as Hc. destruct (state_phase _ _ _ Hc) as (_ & _ & Hp). specialize (Hp Hst).
  pose proof (shown_phase _ _ _ _ _ Hm Hi Hp) as Hid.
  assert (∀ i, same_card ((board s) <| decision_items := <[id := (archived_row now r) <| di_closed_by := peerOf (Family caller) (ID caller) s |>
    <| di_closed_at := now |> <| di_outcome_note := note |>]> (decision_items (board s)) |>) (board s') i) as Hs by (by apply view_same_card).
  eapply (shows_move (Close (di_revision r)) _ _ _ id _ (Done "approved", di_revision r)); [exact Hm| |exact Hid|apply cd_close|].
  - intros i Hne. destruct (Hs i) as (E1 & E2 & E3). unfold same_card. rewrite E1, E2, E3. cbn. by rewrite lookup_insert_ne.
  - eapply same_card_shown; [apply Hs|]. unfold shown_as. cbn. rewrite lookup_insert_eq. split; [|done].
    by destruct (closed_card now r _ _ _ (peerOf (Family caller) (ID caller) s) note Hn Hc Hp).
Qed.
Lemma withdraw_move now caller reference ifRevision reason key print deadline s a s' m : now ≠ 0 → board_ok (board s) →
  withdrawTx is_print now caller reference ifRevision reason key print deadline s = Ok (a, s') → shows (board s) m →
  board_ok (board s') ∧ ∃ id m', named (board s) reference id ∧ cards_act (On id (Withdraw ifRevision)) m m' ∧ shows (board s') m'.
Proof.
  intros Hn Hb H Hm. apply withdrawTx_Ok in H as (id & r & peer & Hi & Hname & <- & Hst & _ & Hb' & Hit & _ & _ & Ho & Hp); [|done|done]. split; [done|]. exists id.
  cut (∃ m', cards_act (On id (Withdraw (di_revision r))) m m' ∧ shows (board s') m'); [intros (m' & H1 & H2); exists m'; split; [by exists r|done]|].
  destruct (state_phase _ _ _ (card_of _ _ _ Hb Hi)) as (Hp1 & Hp2 & _).
  assert (∃ q, (q = Waiting_ ∨ q = Returned) ∧ m !! id = Some (q, di_revision r)) as (q & Hq & Hid)
    by (destruct Hst as [Hst|Hst]; eexists; (split; [|eapply shown_phase; [exact Hm|exact Hi|by auto]]); auto).
  eapply (shows_move (Withdraw (di_revision r)) _ _ _ id _ (Withdrawn, di_revision r)); [exact Hm| |exact Hid|by apply cd_withdraw|].
  - intros i Hne. destruct (Ho _ Hne) as [E1 E2]. split; [|done]. by rewrite Hit, lookup_insert_ne.
  - unfold shown_as. by rewrite Hit, lookup_insert_eq.
Qed.
Lemma acks_move now s s' m : acks now s s' → board_ok (board s) → shows (board s) m → board_ok (board s') ∧ ∃ m', cards_act Elsewhere m m' ∧ shows (board s') m'.
Proof. intros Ha Hb Hm. split; [by eapply acks_ok|]. destruct Ha as [[x ->] _ _]. eapply shows_stay; [done|intros i; by repeat split]. Qed.

(** The transactions of [board_step], each with its deed and the card that its reference names *)
Inductive board_does : board_act → State → State → Prop :=
| bd_create now caller reference f key print deadline a id s s' : clock_ok now → validate true f = None →
    createTx now caller reference f key print deadline s = Ok (a, s') → named (board s') reference id → board_does (On id Make) s s'
| bd_edit now caller reference ifRevision f u id s s' : clock_ok now → validate false f = None → editTx now caller reference ifRevision f s = Ok (u, s') →
    named (board s) reference id → board_does (On id (Edit ifRevision)) s s'
| bd_close now caller reference ifRevision note key print deadline a id s s' : clock_ok now →
    closeTx is_print now caller reference ifRevision note key print deadline s = Ok (a, s') → named (board s) reference id → board_does (On id (Close ifRevision)) s s'
| bd_withdraw now caller reference ifRevision reason key print deadline a id s s' : clock_ok now →
    withdrawTx is_print now caller reference ifRevision reason key print deadline s = Ok (a, s') → named (board s) reference id → board_does (On id (Withdraw ifRevision)) s s'
| bd_reopen now caller reference ifRevision u id s s' : clock_ok now → reopenTx now caller reference ifRevision s = Ok (u, s') →
    named (board s) reference id → board_does (On id (Reopen ifRevision)) s s'
| bd_verdict now via reference revision verdict note v id s s' : clock_ok now → verdictTx is_print now via reference revision verdict note s = Ok (v, s') →
    named (board s) reference id → board_does (On id (Judge revision verdict)) s s'
| bd_ack now caller vs c s s' : ackTx_ now caller vs s = Ok (c, s') → board_does Elsewhere s s'
| bd_cull clock u s s' : cullDecisionReplaysTx clock s = Ok (u, s') → board_does Elsewhere s s'
| bd_other {A} (m : tx A) a s s' : Keeps board m → Maintains inbox_wf m → m s = Ok (a, s') → board_does Elsewhere s s'.
Lemma board_does_step a s s' : board_does a s s' → board_step s s'.
Proof. intros H. destruct H; [by eapply bs_create|by eapply bs_edit|by eapply bs_close|by eapply bs_withdraw|by eapply bs_reopen|by eapply bs_verdict|by eapply bs_ack|by eapply bs_cull|by eapply bs_other]. Qed.
Lemma named_unique b reference i j : board_ok b → named b reference i → named b reference j → i = j.
Proof. intros Hb (r & Hr & <-) (q & Hq & E). by apply (bo_references _ Hb i j r q). Qed.

(** Every deed moves its card as the machine says. *)
Lemma board_does_cards a s s' m : board_does a s s' → board_inv s → shows (board s) m → board_inv s' ∧ ∃ m', cards_act a m m' ∧ shows (board s') m'.
Proof.
  intros Hst [Hb Hw] Hm. assert (inbox_wf s') as Hw' by (eapply board_step_inbox; [by eapply board_does_step|done]).
  cut (board_ok (board s') ∧ ∃ m', cards_act a m m' ∧ shows (board s') m'); [intros [Hb1 Hm1]; split; [by split|exact Hm1]|].
  assert (∀ now, clock_ok now → now ≠ 0) as Hn by (unfold clock_ok; lia).
  destruct Hst as [now caller reference f key print deadline a id s s' Hc Hv H Hid|now caller reference ir f u id s s' Hc Hv H Hid|now caller reference ir note key print deadline a id s s' Hc H Hid|
    now caller reference ir reason key print deadline a id s s' Hc H Hid|now caller reference ir u id s s' Hc H Hid|now via reference revision verdict note v id s s' Hc H Hid|now caller vs c s s' H|clock u s s' H|A x a s s' Hk _ H].
  - apply validate_kind in Hv as [Hk Hv]. specialize (Hk eq_refl). assert (board_ok (board s')) as Hb' by by eapply createTx_ok. split; [done|].
    replace id with (decision_items_issued (board s) + 1); [by eapply create_move|]. apply createTx_board in H as (_ & E1 & _). eapply named_unique; [exact Hb'| |exact Hid].
    eexists. rewrite E1, lookup_insert_eq. done.
  - apply validate_kind in Hv as [_ Hv]. apply editTx_Ok in H as (j & r & r' & Hi & Hr & Hrev & _ & He & Hk & _); [|done|done]. assert (id = j) as -> by (eapply named_unique; [exact Hb|exact Hid|by exists r]).
    eapply (edit_move (Edit ir) now); [by apply Hn|exact Hb|exact Hi|exact Hk|exact He|exact Hm|]. intros p _. rewrite Hrev. apply cd_edit.
  - eapply close_move in H as (Hb' & j & m' & Hj & H); [|by apply (Hn now)|done|exact Hm]. split; [done|]. assert (id = j) as -> by (eapply named_unique; [exact Hb|exact Hid|exact Hj]). by exists m'.
  - eapply withdraw_move in H as (Hb' & j & m' & Hj & H); [|by apply (Hn now)|done|exact Hm]. split; [done|]. assert (id = j) as -> by (eapply named_unique; [exact Hb|exact Hid|exact Hj]). by exists m'.
  - apply reopenTx_Ok in H as (j & r & r' & peer & Hi & Hr & Hrev & _ & _ & Hwd & -> & He); [|by apply (Hn now)|done]. assert (id = j) as -> by (eapply named_unique; [exact Hb|exact Hid|by exists r]).
    eapply (edit_move (Reopen ir) now); [by apply Hn|exact Hb|exact Hi| |exact He|exact Hm|]; [exact (co_kind _ _ _ (card_of _ _ _ Hb Hi))|].
    intros p Hp. rewrite (phase_functional _ _ _ _ _ Hp Hwd), Hrev. apply cd_reopen.
  - assert (ids_below s) as Hi by (intros i y Hy; by destruct (wf_ids _ Hw _ _ Hy)).
    apply verdictTx_Ok in H as (j & r & Hj); [|apply Hc|done|done]. assert (id = j) as -> by (eapply named_unique; [exact Hb|exact Hid|]; destruct Hj as [(H1 & H2 & _)]; by exists r).
    eapply judge_move; [by apply (Hn now)|exact Hb|exact Hj|exact Hm].
  - apply ackTx_acks in H. by eapply acks_move.
  - apply on_board_Ok in H as ->. split; [by apply (board_ok_view (board s))|]. eapply shows_stay; [done|intros i; by repeat split].
  - specialize (Hk _ _ _ H). rewrite Hk. split; [done|]. eapply shows_stay; [done|intros i; by repeat split].
Qed.
(** Every step is a deed. *)
Lemma board_step_does s s' : board_inv s → board_step s s' → ∃ a, board_does a s s'.
Proof.
  intros [Hb Hw] Hst. assert (∀ now, clock_ok now → now ≠ 0) as Hn by (unfold clock_ok; lia).
  destruct Hst as [now caller reference f key print deadline a Hc Hv H|now caller reference ir f u Hc Hv H|now caller reference ir note key print deadline a Hc H|
    now caller reference ir reason key print deadline a Hc H|now caller reference ir u Hc H|now via reference revision verdict note v Hc H|now caller vs c H|clock u H|A x a Hk Hi H].
  - pose proof H as (_ & E1 & _)%createTx_board. eexists. eapply bd_create; [done|done|exact H|]. eexists. rewrite E1, lookup_insert_eq. done.
  - pose proof Hv as [_ Hv']%validate_kind. pose proof H as (j & r & r' & Hi & Hr & _)%editTx_Ok; [|done|done]. eexists. eapply bd_edit; [done|done|exact H|by exists r].
  - pose proof H as (j & r & Hi & Hr & _)%closeTx_Ok; [|by apply (Hn now)|done]. eexists. eapply bd_close; [done|exact H|by exists r].
  - pose proof H as (j & r & peer & Hi & Hr & _)%withdrawTx_Ok; [|by apply (Hn now)|done]. eexists. eapply bd_withdraw; [done|exact H|by exists r].
  - pose proof H as (j & r & r' & peer & Hi & Hr & _)%reopenTx_Ok; [|by apply (Hn now)|done]. eexists. eapply bd_reopen; [done|exact H|by exists r].
  - assert (ids_below s) as Hi by (intros i y Hy; by destruct (wf_ids _ Hw _ _ Hy)). pose proof H as (j & r & Hj)%verdictTx_Ok; [|apply Hc|done|done].
    destruct Hj as [(H1 & H2 & _)]. eexists. eapply bd_verdict; [done|exact H|by exists r].
  - eexists. by eapply bd_ack.
  - eexists. by eapply bd_cull.
  - eexists. by eapply bd_other.
Qed.
Lemma board_step_cards s s' m : board_step s s' → board_inv s → shows (board s) m → board_inv s' ∧ ∃ a m', board_does a s s' ∧ cards_act a m m' ∧ shows (board s') m'.
Proof. intros Hst Hi Hm. destruct (board_step_does _ _ Hi Hst) as [a Ha]. destruct (board_does_cards _ _ _ _ Ha Hi Hm) as (Hi' & m' & H). split; [done|]. by exists a, m'. Qed.
End steps.
