(* ===== verification/BoardLife.v ===== *)
(** * Cards of the small installation, and what holds of any card

    The theorems of the board, with a card that peer a creates for peer b and the maintainer
    judges. *)

From S2P Require Import Prelude GoString GoFloat Schema Sql Label Fixture Storage Names Messages Inboxes InboxProps Cycles Launches Leases WorkViews BoardText Decisions Verdicts BoardProps BoardSteps VerdictProps BoardInvariant.
Open Scope Z_scope.

(** ** The card *)

Section fixture.
Definition printable (_ : Z) : bool := true.
Definition card_fields : DecisionFields :=
  mkFields (Some 1) (Some "Drop the table") (Some "src/db") (Some "please") (Some "it is unused") (Some "drop it") (Some "decision") (Some ["make drop"]) (Some ["codex-x-0b"])%string.
Definition card_name : string := "drop-table".
Definition edit_fields : DecisionFields := mkFields None (Some "Keep the table"%string) None None None None None None None.
Definition card_made : State := after (createTx 20 peer_a card_name card_fields "k" "print" (of_int 50)) small_state.
Definition card_edited : State := after (editTx 21 peer_a card_name 1 edit_fields) card_made.
Definition card_judged : State := after (verdictTx printable 22 "page" card_name 2 "approved" "") card_edited.
Definition the_card : Z := 1.
End fixture.

Lemma small_board : board_inv small_state.
Proof.
  split; [|by apply quiet_wf; vm_compute]. split; try done.
Qed.
Lemma small_shows : shows (board small_state) ∅.
Proof. intros id. done. Qed.
Lemma card_steps : board_step printable small_state card_made ∧ board_step printable card_made card_edited ∧ board_step printable card_edited card_judged.
Proof.
  destruct (run_after (createTx 20 peer_a card_name card_fields "k" "print" (of_int 50)) small_state) as [a E]; [by vm_compute|].
  destruct (run_after (editTx 21 peer_a card_name 1 edit_fields) card_made) as [b E1]; [by vm_compute|].
  destruct (run_after (verdictTx printable 22 "page" card_name 2 "approved" "") card_edited) as [c E2]; [by vm_compute|].
  assert (∀ n, 0 < n < 100 → clock_ok n) as Hc by (unfold clock_ok, never; lia). split; [|split].
  - eapply bs_create; [|  |exact E]; [apply Hc; lia|vm_compute; reflexivity].
  - eapply bs_edit; [| |exact E1]; [apply Hc; lia|vm_compute; reflexivity].
  - eapply bs_verdict; [|exact E2]. apply Hc; lia.
Qed.

(** ** Refinement *)

Section life.
Context `{SHA : Sha256}.
Variable is_print : Z → bool.

(** C7: Over every sequence of transactions of decisions.go and decision_verdicts.go, with those of
    the other parts between them, the tables of the board stay well formed (a card has exactly one
    of five phases, told by its row, its latest verdict and its withdrawals; references, verdict and
    withdrawal IDs are unique; no delivery outlives its verdict), and the cards move exactly as the
    transactions say: a creation makes the card of its reference, waiting at revision 1; a verdict
    judges the card that it names, while it waits, at the revision that the maintainer named; a
    close ends approved work, a withdrawal only a waiting or returned card, at the named revision;
    an edit, and a reopening of a withdrawn card, let it wait at the next revision; and no other
    transaction moves any card. *)
Theorem board_refines s acts s' m : board_inv s → shows (board s) m → trace_of (board_does is_print) s acts s' →
  board_inv s' ∧ ∃ m', trace_of cards_act m acts m' ∧ shows (board s') m'.
Proof.
  intros Hi Hm Hst. revert m Hi Hm. induction Hst as [s|a s s1 acts s2 Hst _ IH]; intros m Hi Hm; [split; [done|]; exists m; split; [constructor|done]|].
  destruct (board_does_cards _ _ _ _ _ Hst Hi Hm) as (Hi1 & m1 & Hc & Hm1). destruct (IH _ Hi1 Hm1) as (Hi2 & m2 & Hcs & Hm2).
  split; [done|]. exists m2. split; [by eapply run_cons|done].
Qed.
(** Every schedule is such a run. *)
Lemma board_schedule s s' : board_inv s → rtc (board_step is_print) s s' → ∃ acts, trace_of (board_does is_print) s acts s'.
Proof.
  intros Hi H. induction H as [s|s s1 s' Hs _ IH]; [exists []; constructor|]. destruct (board_shows _ (proj1 Hi)) as [m Hm].
  destruct (board_step_cards _ _ _ _ Hs Hi Hm) as (Hi1 & a & _ & Ha & _). destruct (IH Hi1) as [acts Hr]. exists (a :: acts). by eapply run_cons.
Qed.

Lemma board_steps_inv s s' : board_inv s → rtc (board_step is_print) s s' → board_inv s'.
Proof.
  intros Hi H. induction H as [|s s1 s' Hs _ IH]; [done|]. apply IH. destruct (board_shows _ (proj1 Hi)) as [m Hm]. apply (board_step_cards _ _ _ _ Hs Hi Hm).
Qed.

(** ** Acts on the revision that the actor saw *)

Lemma item_at_unique s id r : board_ok (board s) → decision_items (board s) !! id = Some r → item_at (di_reference r) s = Some (id, r).
Proof.
  intros Hb Hi. destruct (item_at (di_reference r) s) as [[j q]|] eqn:E; [|by destruct (item_at_None _ _ E _ _ Hi)].
  apply item_at_Some in E as [Hj E]. rewrite (bo_references _ Hb _ _ _ _ Hi Hj) in Hi |- * by done. congruence.
Qed.
Lemma decisionRow_at s id r reference : board_ok (board s) → decision_items (board s) !! id = Some r → di_reference r = reference →
  decisionRow reference s = Ok ((id, r), s).
Proof. intros Hb Hi <-. unfold decisionRow. by rewrite (item_at_unique _ _ _ Hb Hi). Qed.


(** C16: An accepted edit changed the card over the revision that its author named and left it
    waiting at the next one with the edited text; from then on every act over the old revision,
    a verdict, a close, a withdrawal or another edit, is refused with the current revision. *)
Theorem edit_supersedes now caller reference n f s u s' : board_inv s → clock_ok now → validate false f = None →
  editTx now caller reference n f s = Ok (u, s') →
  (∃ id r r', decision_items (board s) !! id = Some r ∧ di_reference r = reference ∧ di_revision r = n ∧
    decision_items (board s') !! id = Some r' ∧ di_revision r' = n + 1 ∧
    phase_is r' (verdicts_of (board s') id) (withdrawals_of (board s') id) Waiting_ ∧
    snapshot_of r' = mkDecisionSnapshot (default (di_title r) (f_Title f)) (default (di_location r) (f_Where f)) (default (di_context r) (f_Context f))
      (default (di_recommendation r) (f_Recommendation f)) (default (di_commands r) (f_Commands f)) ∧
    ∀ i, i ≠ id → same_card (board s) (board s') i) ∧
  (∀ now via verdict note, verdictTx is_print now via reference n verdict note s' = Err (stale_revision (n + 1))) ∧
  (∀ now caller note key print deadline, closeTx is_print now caller reference n note key print deadline s' = Err (stale_revision (n + 1))) ∧
  (∀ now caller reason key print deadline, withdrawTx is_print now caller reference n reason key print deadline s' = Err (stale_revision (n + 1))) ∧
  (∀ now caller f, active now caller s' = None → editTx now caller reference n f s' = Err (stale_revision (n + 1))).
Proof.
  intros [Hb Hw] Hc [_ Hk]%validate_kind H. assert (now ≠ 0) as Hn by (unfold clock_ok in Hc; lia).
  apply editTx_Ok in H as (id & r & r' & Hi & Hr & Hrev & _ & He & Hk' & Hs); [|done|done].
  destruct (edit_of_ok _ _ _ _ _ _ _ Hn Hb Hi Hk' He) as [Hb' Hp]. destruct (edit_of_card _ _ _ _ _ _ _ He) as (_ & _ & Ho).
  assert (decision_items (board s') !! id = Some r') as Hl by (by rewrite (eo_items _ _ _ _ _ _ _ He), lookup_insert_eq).
  destruct (eo_row _ _ _ _ _ _ _ He) as (_ & _ & _ & Hr1 & _ & Hr2). assert (decisionRow reference s' = Ok ((id, r'), s')) as Hrow by (apply decisionRow_at; congruence).
  assert (di_revision r' = n + 1) as Hrn by congruence. assert ((di_revision r' =? n) = false) as Hneq by (apply Z.eqb_neq; lia). split.
  - exists id, r, r'. do 6 (split; [done|]). split; [exact Hs|]. intros i Hne. destruct (Ho _ Hne). split; [|done].
    by rewrite (eo_items _ _ _ _ _ _ _ He), lookup_insert_ne.
  - split; [|split; [|split]]; intros; unfold verdictTx, closeTx, withdrawTx, editTx, mbind, M_bind;
      [..|unfold check; match goal with H : active _ _ _ = None |- _ => rewrite H end]; rewrite Hrow; unfold ensure; by rewrite Hneq, Hrn.
Qed.
End life.

(** ** The card of the small installation *)

Definition judged_view : DecisionVerdictView := match verdictTx printable 22 "page" card_name 2 "approved" "" card_edited with Ok (v, _) => v | Err _ => mkDecisionVerdict 0 0 "" "" 0 0 (mkDecisionSnapshot "" "" "" "" []) [] "" end.
Definition card_acts : list board_act := [On the_card Make; On the_card (Edit 1); On the_card (Judge 2 "approved")].
Lemma card_run : trace_of (board_does printable) small_state card_acts card_judged.
Proof.
  destruct (run_after (createTx 20 peer_a card_name card_fields "k" "print" (of_int 50)) small_state) as [a E]; [by vm_compute|].
  destruct (run_after (editTx 21 peer_a card_name 1 edit_fields) card_made) as [b E1]; [by vm_compute|].
  destruct (run_after (verdictTx printable 22 "page" card_name 2 "approved" "") card_edited) as [c E2]; [by vm_compute|].
  assert (∀ n, 0 < n < 100 → clock_ok n) as Hc by (unfold clock_ok, never; lia).
  eapply run_cons; [eapply bd_create; [| |exact E|]; [apply Hc; lia|vm_compute; reflexivity|eexists; split; vm_compute; reflexivity]|].
  eapply run_cons; [eapply bd_edit; [| |exact E1|]; [apply Hc; lia|vm_compute; reflexivity|eexists; split; vm_compute; reflexivity]|].
  eapply run_cons; [eapply bd_verdict; [|exact E2|]; [apply Hc; lia|eexists; split; vm_compute; reflexivity]|]. apply run_nil.
Qed.
Lemma board_refines_witness : ∃ m, trace_of cards_act ∅ card_acts m ∧ shows (board card_judged) m ∧ m !! the_card = Some (InProgress "approved", 2).
Proof.
  destruct (board_refines printable small_state card_acts card_judged ∅ small_board small_shows card_run) as ([Hb _] & m & Hc & Hm).
  exists m. split; [done|]. split; [done|].
  assert (∃ r, decision_items (board card_judged) !! the_card = Some r ∧ di_state r = "in_progress"%string ∧ di_revision r = 2) as (r & Hr & Hst & Hrev)
    by (eexists; split; [vm_compute; reflexivity|by split]).
  rewrite <-Hrev. apply (shown_phase _ _ _ _ _ Hm Hr). exact (proj2 (proj2 (state_phase _ _ _ (card_of _ _ _ Hb Hr))) Hst).
Defined.
Lemma card_inv : board_inv card_made ∧ board_inv card_edited ∧ board_inv card_judged.
Proof.
  destruct card_steps as (S1 & S2 & S3). destruct (board_shows _ (proj1 small_board)) as [m Hm].
  destruct (board_step_cards _ _ _ _ S1 small_board Hm) as (H1 & a1 & m1 & _ & _ & Hm1). destruct (board_step_cards _ _ _ _ S2 H1 Hm1) as (H2 & a2 & m2 & _ & _ & Hm2).
  by destruct (board_step_cards _ _ _ _ S3 H2 Hm2) as (H3 & _).
Qed.
Lemma edit_supersedes_witness : verdictTx printable 23 "page" card_name 1 "approved" "" card_edited = Err (stale_revision 2).
Proof.
  destruct (run_after (editTx 21 peer_a card_name 1 edit_fields) card_made) as [b E]; [by vm_compute|].
  destruct (edit_supersedes printable 21 peer_a card_name 1 edit_fields card_made b card_edited (proj1 card_inv)) as (_ & H & _).
  - unfold clock_ok, never. lia.
  - vm_compute. reflexivity.
  - exact E.
  - apply H.
Defined.
