(* ===== verification/PendingProps.v ===== *)
(** * Pending verdicts and their acknowledgements

    Which verdicts wait for a caller, that its pages show exactly these in their order, and that
    an acknowledgement removes exactly what it names. *)

From S2P Require Import Prelude GoString GoFloat Schema Sql Label Fixture Storage Names Messages Inboxes Cycles Launches Leases WorkViews BoardText Decisions Verdicts BoardProps BoardSteps VerdictProps BoardInvariant BoardLife.
Open Scope Z_scope.

(** ** Sorted lists of IDs *)

Abbreviation ascending := (StronglySorted Z.lt).
Lemma ids_sorted (l : list Z) : ascending (order_by id (remove_dups l)).
Proof.
  assert (NoDup (order_by id (remove_dups l))) as Hn by (unfold order_by; rewrite merge_sort_Permutation; apply NoDup_remove_dups).
  pose proof (order_by_sorted id (remove_dups l)) as Hs. induction Hs as [|x k Hs IH Hx]; [constructor|]. apply NoDup_cons in Hn as [Hx' Hn].
  constructor; [by apply IH|]. rewrite Forall_forall in Hx |- *. intros y Hy. specialize (Hx y Hy). unfold by_Z in Hx. cbn in Hx.
  assert (x ≠ y) by (by intros ->). lia.
Qed.
Lemma elem_of_ids (l : list Z) x : x ∈ order_by id (remove_dups l) ↔ x ∈ l.
Proof. by rewrite elem_of_order_by, elem_of_remove_dups. Qed.
Lemma ascending_cons x l : ascending (x :: l) ↔ ascending l ∧ ∀ y, y ∈ l → x < y.
Proof. split; [intros [? Hf]%StronglySorted_inv; by rewrite Forall_forall in Hf|intros [? ?]; constructor; [done|by apply Forall_forall]]. Qed.
(** A member among the first [k] of a list is among the first [k] of any part of it. *)
Lemma ascending_part A : ∀ B k a, ascending A → ascending B → B ⊆ A → a ∈ B → a ∈ take k A → a ∈ take k B.
Proof.
  induction A as [|x A IH]; intros B k a HA HB Hsub Ha Hk; [by destruct k; apply elem_of_nil in Hk|].
  destruct k as [|k]; [by apply elem_of_nil in Hk|]. apply ascending_cons in HA as [HA Hx]. destruct B as [|b B]; [by apply elem_of_nil in Ha|].
  apply ascending_cons in HB as [HB Hb]. cbn in Hk |- *. apply elem_of_cons in Hk as [->|Hk].
  - apply elem_of_cons in Ha as [->|Ha]; [left|]. specialize (Hb _ Ha). assert (b ∈ x :: A) as [->|Hin]%elem_of_cons by (apply Hsub; left); [lia|]. specialize (Hx _ Hin). lia.
  - assert (x < a) as Hxa by (by apply Hx, (subseteq_take k A)). apply elem_of_cons in Ha as [->|Ha]; [left|]. right. apply (IH B k a HA HB); [|done|done].
    intros y Hy. assert (y ∈ x :: A) as [->|Hin]%elem_of_cons by (by apply Hsub; right); [|done].
    assert (b ∈ x :: A) as [->|Hin]%elem_of_cons by (apply Hsub; left); [by specialize (Hb _ Hy); lia|]. specialize (Hx _ Hin). specialize (Hb _ Hy). lia.
Qed.
(** A part that has the first [k] members begins with them. *)
Lemma ascending_prefix A : ∀ L k, ascending A → ascending L → L ⊆ A → (∀ a, a ∈ take k A → a ∈ L) → take k L = take k A.
Proof.
  induction A as [|x A IH]; intros L k HA HL Hsub Hk.
  - destruct L as [|y L]; [done|]. assert (y ∈ []) as Hy by (apply Hsub; left). by apply elem_of_nil in Hy.
  - destruct k as [|k]; [done|]. apply ascending_cons in HA as [HA Hx]. destruct L as [|y L]; [assert (x ∈ []) as Hx' by (apply Hk; left); by apply elem_of_nil in Hx'|].
    apply ascending_cons in HL as [HL Hy]. assert (y = x) as ->.
    { assert (y ∈ x :: A) as [->|Hin]%elem_of_cons by (apply Hsub; left); [done|]. specialize (Hx _ Hin).
      assert (x ∈ y :: L) as [->|Hin']%elem_of_cons by (apply Hk; left); [done|]. specialize (Hy _ Hin'). lia. }
    cbn. f_equal. apply IH; [done|done| |].
    + intros z Hz. assert (z ∈ x :: A) as [->|Hin]%elem_of_cons by (apply Hsub; by right); [by specialize (Hy _ Hz); lia|done].
    + intros a Ha. assert (a ∈ x :: L) as [->|Hin]%elem_of_cons by (apply Hk; by right); [|done]. assert (x < x) by (by apply Hx, (subseteq_take k A)). lia.
Qed.
Lemma ascending_eq A L : ascending A → ascending L → (∀ a, a ∈ A ↔ a ∈ L) → L = A.
Proof.
  intros HA HL He. assert (take (length A + length L) L = take (length A + length L) A) as E.
  { apply ascending_prefix; [done|done|intros a; by rewrite He|]. intros a Ha. apply He. by apply (subseteq_take (length A + length L) A). }
  by rewrite !take_ge in E by lia.
Qed.

(** ** Pages *)

Lemma fit_prefix {A B} (get : A → option B) cost budget : ∀ l limit used first page more, fit get cost limit budget used first l = Some (page, more) →
  mapM get (take (length page) l) = Some page ∧ (length page ≤ limit)%nat ∧ more = bool_decide (length page < length l)%nat ∧
  (first = true → limit ≠ 0%nat → l ≠ [] → page ≠ []).
Proof.
  induction l as [|x l IH]; intros limit used first page more H; cbn in H; [injection H as <- <-; cbn; split_and!; [done|lia|done|done]|].
  apply bind_Some in H as (y & Hy & H). cbn in H. destruct limit as [|limit]; [injection H as <- <-; cbn; split_and!; [done|lia|done|done]|].
  destruct (negb first && _) eqn:E.
  - injection H as <- <-. cbn. split_and!; [done|lia|done|]. intros ->. done.
  - apply bind_Some in H as ([p m] & H & [= <- <-]). destruct (IH _ _ _ _ _ H) as (H1 & H2 & H3 & _). cbn [length take mapM].
    split_and!; [|lia| |done].
    + cbn. rewrite Hy. cbn. by rewrite H1.
    + rewrite H3. apply bool_decide_ext. cbn. lia.
Qed.
Lemma fit_total {A B} (get : A → option B) cost budget : ∀ l limit used first, (∀ x, x ∈ l → is_Some (get x)) →
  ∃ page more, fit get cost limit budget used first l = Some (page, more).
Proof.
  induction l as [|x l IH]; intros limit used first Hg; cbn; [by eexists _, _|].
  destruct (Hg x (list_elem_of_here _ _)) as [y ->]. cbn. destruct limit as [|limit]; [by eexists _, _|].
  destruct (negb first && _); [by eexists _, _|]. destruct (IH limit (used + cost first y) false) as (p & m & ->); [intros z Hz; apply Hg; by right|]. cbn. by eexists _, _.
Qed.

(** ** What waits for a caller *)

Section pending.
Variable is_print : Z → bool.

(** The verdicts with a queued delivery to one of the names, after a verdict *)
Definition awaits (l : list string) (after : Z) (k : Z * Z) (d : VerdictDeliveryRow) : bool :=
  one_of (vd_name d) l && seqb (vd_outcome d) "queued" && (after <? k.1).
Definition awaiting (l : list string) (after : Z) (s : State) : list Z :=
  order_by id (remove_dups ((λ kd, kd.1.1) <$> select (awaits l after) (decision_deliveries (board s)))).
Lemma elem_of_awaiting l after s v : v ∈ awaiting l after s ↔
  after < v ∧ ∃ o d, decision_deliveries (board s) !! (v, o) = Some d ∧ vd_outcome d = "queued"%string ∧ vd_name d ∈ l.
Proof.
  unfold awaiting. rewrite elem_of_ids, list_elem_of_fmap. split.
  - intros ([[v' o] d] & -> & [Hl Ha]%elem_of_select). unfold awaits in Ha. rewrite !andb_true_iff, seqb_true, one_of_elem, Z.ltb_lt in Ha. cbn in *.
    destruct Ha as [[? ?] ?]. eauto 10.
  - intros (Hv & o & d & Hl & Ho & Hn). exists ((v, o), d). split; [done|]. apply elem_of_select. split; [done|]. unfold awaits.
    by rewrite !andb_true_iff, seqb_true, one_of_elem, Z.ltb_lt.
Qed.
Lemma elem_of_queued after limit name s : queued_verdicts after limit name s = take (S limit) (awaiting [name] after s).
Proof.
  unfold queued_verdicts. f_equal. apply ascending_eq; [apply ids_sorted..|]. intros a. rewrite elem_of_awaiting, elem_of_ids, list_elem_of_fmap. split.
  - intros (Hv & o & d & Hl & Ho & Hn%list_elem_of_singleton). exists ((a, o), d). split; [done|]. apply elem_of_select. split; [done|]. cbn.
    by rewrite !andb_true_iff, !seqb_true, Z.ltb_lt.
  - intros ([[v' o] d] & -> & [Hl Ha]%elem_of_select). cbn in *. rewrite !andb_true_iff, !seqb_true, Z.ltb_lt in Ha. destruct Ha as [[Hn Ho] Hv].
    split; [done|]. exists o, d. by rewrite list_elem_of_singleton.
Qed.
Lemma pending_ids_prefix after limit l s : take (S limit) (pending_ids after limit l s) = take (S limit) (awaiting l after s).
Proof.
  assert (∀ v, v ∈ pending_ids after limit l s ↔ ∃ name, name ∈ l ∧ v ∈ take (S limit) (awaiting [name] after s)) as He.
  { intros v. unfold pending_ids. rewrite elem_of_ids, list_elem_of_bind. setoid_rewrite elem_of_queued. naive_solver. }
  assert (∀ name, name ∈ l → awaiting [name] after s ⊆ awaiting l after s) as Hp.
  { intros name Hn v. rewrite !elem_of_awaiting. intros (Hv & o & d & Hl & Ho & Hd%list_elem_of_singleton). rewrite <-Hd in Hn. eauto 10. }
  apply ascending_prefix; [apply ids_sorted..| |].
  - intros v (name & Hn & Hv)%He. apply (Hp name Hn). by apply (subseteq_take (S limit)).
  - intros v Hv. apply He. assert (v ∈ awaiting l after s) as Ha by by apply (subseteq_take (S limit)). apply elem_of_awaiting in Ha as (Hlt & o & d & Hl & Ho & Hn).
    exists (vd_name d). split; [done|]. apply (ascending_part (awaiting l after s)); [apply ids_sorted..|by apply Hp| |done].
    apply elem_of_awaiting. split; [done|]. exists o, d. by rewrite list_elem_of_singleton.
Qed.
Lemma take_same {A} (l1 l2 : list A) n k : take n l1 = take n l2 → (k < n)%nat →
  take k l1 = take k l2 ∧ ((k < length l1)%nat ↔ (k < length l2)%nat).
Proof.
  intros E Hk. split; [replace k with (k `min` n)%nat by lia; by rewrite <-!take_take, E|].
  pose proof (f_equal length E) as El. rewrite !length_take in El. lia.
Qed.
Lemma pending_entry_id s v p : pending_entry is_print s v = Some p → pn_VerdictID p = v.
Proof. unfold pending_entry. intros (x & _ & H)%bind_Some. cbn in H. apply bind_Some in H as (i & _ & [= <-]). done. Qed.
Lemma entries_ids s l page : mapM (pending_entry is_print s) l = Some page → pn_VerdictID <$> page = l.
Proof. intros H%mapM_Some. induction H as [|v p l page Hv _ IH]; cbn; [done|]. by rewrite IH, (pending_entry_id _ _ _ Hv). Qed.

(** C17: The pending verdicts of a caller, page by page: a page of an active caller is exactly the
    first entries, in the order of the verdicts, of those with a queued delivery to its peer name
    or its address; each shows the verdict with its recorded text; the page is never empty while
    something waits, and its more flag and next position say exactly whether entries remain. *)
Theorem pending_complete now caller after limit s : board_inv s → active now caller s = None → ∃ page,
  pendingTx is_print now caller after limit s = Ok (page, s) ∧
  let all := awaiting (callerNames now caller s) after s in let shown := pp_Deliveries page in
  mapM (pending_entry is_print s) (take (length shown) all) = Some shown ∧ pn_VerdictID <$> shown = take (length shown) all ∧ (length shown ≤ limit)%nat ∧
  (limit ≠ 0%nat → all ≠ [] → shown ≠ []) ∧ pp_More page = bool_decide (length shown < length all)%nat ∧
  pp_NextAfter page = if pp_More page then last (pn_VerdictID <$> shown) else None.
Proof.
  intros [Hb _] Ha. set (l := callerNames now caller s). set (ids := pending_ids after limit l s).
  assert (∀ v, v ∈ ids → is_Some (pending_entry is_print s v)) as Hg.
  { intros v Hv. unfold ids, pending_ids in Hv. rewrite elem_of_ids, list_elem_of_bind in Hv. destruct Hv as (name & Hq & _). rewrite elem_of_queued in Hq.
    apply subseteq_take in Hq. apply elem_of_awaiting in Hq as (_ & o & d & Hl & _). destruct (bo_deliveries _ Hb _ _ Hl) as [[x Hx] _]. cbn in Hx.
    destruct (bo_verdicts _ Hb _ _ Hx) as [_ [i Hi]]. unfold pending_entry. rewrite Hx. cbn. rewrite Hi. cbn. eauto. }
  destruct (fit_total (pending_entry is_print s) (λ _ p, len (encoded_pending p) + 1) decisionPendingBytes ids limit pending_envelope true Hg) as (shown & more & Hf).
  destruct (fit_prefix _ _ _ _ _ _ _ _ _ Hf) as (H1 & H2 & H3 & H4). pose proof (pending_ids_prefix after limit l s) as Hp. fold ids in Hp.
  destruct (take_same _ _ _ (length shown) Hp) as [Ht Hl]; [lia|]. rewrite Ht in H1. eexists. split.
  - unfold pendingTx, mbind, M_bind, check. rewrite Ha. unfold gets at 1. fold l. unfold gets. fold ids. rewrite Hf. cbn. unfold mret, M_ret. reflexivity.
  - cbn. rewrite H3. split; [exact H1|]. split; [by apply (entries_ids s)|]. split; [done|]. split; [|split].
    + intros Hlim Hne. apply H4; [done|done|]. intros E. rewrite E in Hp. destruct (awaiting l after s) eqn:Ea; [by apply Hne|discriminate Hp].
    + apply bool_decide_ext. exact Hl.
    + destruct (bool_decide _); [|done]. by rewrite fmap_last.
Qed.
End pending.

(** ** Acknowledgements *)

(** The rows that an acknowledgement of some verdicts by some names takes *)
Definition taken_by (l : list string) (vs : list Z) (k : Z * Z) (d : VerdictDeliveryRow) : bool :=
  bool_decide (k.1 ∈ vs) && one_of (vd_name d) l && seqb (vd_outcome d) "queued".
Lemma taken_by_true l vs k d : taken_by l vs k d = true ↔ k.1 ∈ vs ∧ vd_name d ∈ l ∧ vd_outcome d = "queued"%string.
Proof. unfold taken_by. rewrite !andb_true_iff, bool_decide_eq_true, one_of_elem, seqb_true. tauto. Qed.
(** Two updates that acknowledge *)
Lemma ack_twice (P Q R : Z * Z → VerdictDeliveryRow → bool) (now : Z) (m : gmap (Z * Z) VerdictDeliveryRow) :
  (∀ k d, Q k d = true → vd_outcome d = "queued"%string) → (∀ k d, R k d = P k d || Q k d) →
  update_where Q (acknowledged_row now) (update_where P (acknowledged_row now) m) = update_where R (acknowledged_row now) m.
Proof.
  intros HQ HR. apply map_eq. intros k. rewrite !lookup_update_where. destruct (m !! k) as [d|]; [|done]. cbn. f_equal. rewrite HR.
  destruct (P k d) eqn:EP; cbn; [|done]. destruct (Q k (acknowledged_row now d)) eqn:EQ; [|done]. by apply HQ in EQ.
Qed.
Lemma on_board_id s : s <| board := (board s) <| decision_deliveries := decision_deliveries (board s) |> |> = s.
Proof. destruct s as [? ? ? ? ? ? ? ? ? ? ? ? ? ? ? ? ? ? ? ? ? ? ? ? ? ? ? ? ? ? ? ? ? ? ? b ? ?]; by destruct b. Qed.
Lemma each_ack now v l : ∀ s u s',
  each l (λ name, on_board (λ b, b <| decision_deliveries := update_where (queued_for v name) (acknowledged_row now) (decision_deliveries b) |>)) s = Ok (u, s') →
  decision_deliveries (board s') = update_where (taken_by l [v]) (acknowledged_row now) (decision_deliveries (board s)).
Proof.
  induction l as [|name l IH]; cbn; intros s u s' H.
  - injection H as _ <-. symmetry. apply update_where_none. intros k d _. unfold taken_by. cbn. by rewrite andb_false_r.
  - apply bind_Ok in H as (x & s1 & ->%on_board_Ok & H%IH). rewrite H. cbn. apply ack_twice.
    + intros k d Hd. by apply taken_by_true in Hd as (_ & _ & ?).
    + intros k d. apply eq_true_iff_eq. rewrite orb_true_iff, !taken_by_true, list_elem_of_singleton, elem_of_cons. unfold queued_for.
      rewrite !andb_true_iff, !seqb_true, Z.eqb_eq. tauto.
Qed.
Lemma ack_all_spec now l vs : ∀ s c s', ack_all now l vs s = Ok (c, s') →
  decision_deliveries (board s') = update_where (taken_by l vs) (acknowledged_row now) (decision_deliveries (board s)) ∧
  (∀ v, v ∈ c ↔ v ∈ vs ∧ exists_where (taken_by l [v]) (decision_deliveries (board s)) = true) ∧ NoDup c.
Proof.
  induction vs as [|v vs IH]; cbn; intros s c s' H.
  - apply ret_Ok in H as [= -> ->]. split; [|split; [|constructor]].
    + symmetry. apply update_where_none. intros k d _. unfold taken_by. by rewrite bool_decide_false by (by intros ?%elem_of_nil).
    + intros x. split; [by intros ?%elem_of_nil|by intros [?%elem_of_nil _]].
  - apply bind_Ok in H as (x & s1 & H1 & H). apply bind_Ok in H as (rest & s2 & H2 & H). apply IH in H2 as (Ed & Hc & Hnd).
    unfold ack_verdict in H1. apply bind_Ok in H1 as (y & s0 & [= -> ->]%gets_Ok & H1). apply bind_Ok in H1 as (u & s3 & H1%each_ack & [= -> ->]%ret_Ok).
    rewrite H1 in Ed, Hc. set (D := decision_deliveries (board s)) in *.
    assert (existsb (λ name, exists_where (queued_for v name) D) l = exists_where (taken_by l [v]) D) as Ex.
    { apply eq_true_iff_eq. rewrite existsb_exists, exists_where_true. split.
      - intros (name & Hn%list_elem_of_In & (k & d & Hl & Hq)%exists_where_true). exists k, d. split; [done|]. unfold queued_for in Hq.
        rewrite !andb_true_iff, !seqb_true, Z.eqb_eq in Hq. destruct Hq as [[<- <-] Hq]. apply taken_by_true. by rewrite list_elem_of_singleton.
      - intros (k & d & Hl & (Hk%list_elem_of_singleton & Hn & Hq)%taken_by_true). exists (vd_name d). split; [by apply list_elem_of_In|].
        apply exists_where_true. exists k, d. split; [done|]. unfold queued_for. by rewrite !andb_true_iff, !seqb_true, Z.eqb_eq. }
    rewrite Ex in H.
    assert (∀ w, exists_where (taken_by l [w]) (update_where (taken_by l [v]) (acknowledged_row now) D) = true ↔ w ≠ v ∧ exists_where (taken_by l [w]) D = true) as Hw.
    { intros w. rewrite !exists_where_true. split.
      - intros (k & d & (d0 & Hl & ->)%lookup_update_where_Some & Ht). destruct (taken_by l [v] k d0) eqn:E.
        + by apply taken_by_true in Ht as (_ & _ & ?).
        + split; [|eauto]. intros ->. congruence.
      - intros (Hne & k & d & Hl & Ht). exists k, d. split; [|done]. apply lookup_update_where_Some. exists d. split; [done|].
        destruct (taken_by l [v] k d) eqn:E; [|done]. apply taken_by_true in Ht as (Hk & _), E as (Hk' & _). rewrite list_elem_of_singleton in Hk, Hk'. congruence. }
    split; [|split].
    + assert (s' = s2) as -> by (destruct (exists_where _ _); by apply ret_Ok in H as [= _ ->]). rewrite Ed. apply ack_twice.
      * intros k d Hd. by apply taken_by_true in Hd as (_ & _ & ?).
      * intros k d. apply eq_true_iff_eq. rewrite orb_true_iff, !taken_by_true, list_elem_of_singleton, elem_of_cons. tauto.
    + intros w. setoid_rewrite Hw in Hc. destruct (exists_where (taken_by l [v]) D) eqn:E; apply ret_Ok in H as [= -> _].
      * rewrite !elem_of_cons, Hc. destruct (decide (w = v)) as [->|]; naive_solver.
      * rewrite elem_of_cons, Hc. destruct (decide (w = v)) as [->|]; [|naive_solver]. rewrite E. naive_solver.
    + destruct (exists_where (taken_by l [v]) D); apply ret_Ok in H as [= -> _]; [|done]. constructor; [|done]. intros Hv%Hc. destruct Hv as [_ Hv%Hw]. by destruct Hv.
Qed.

(** A verdict that waits for none of the names is left alone. *)
Lemma ack_verdict_none now l v s : exists_where (taken_by l [v]) (decision_deliveries (board s)) = false → ack_verdict now l v s = Ok (false, s).
Proof.
  intros Hn. assert (∀ name, name ∈ l → ∀ k d, decision_deliveries (board s) !! k = Some d → queued_for v name k d = false) as Hq.
  { intros name Hname k d Hl. destruct (queued_for v name k d) eqn:E; [|done]. unfold queued_for in E. rewrite !andb_true_iff, !seqb_true, Z.eqb_eq in E.
    destruct E as [[Hk <-] Ho]. rewrite <-(proj1 (exists_where_false _ _) Hn k d Hl). symmetry. apply taken_by_true. by rewrite list_elem_of_singleton. }
  unfold ack_verdict, mbind, M_bind, gets. assert (existsb (λ name, exists_where (queued_for v name) (decision_deliveries (board s))) l = false) as ->.
  { apply not_true_is_false. rewrite existsb_exists. intros (name & Hi%list_elem_of_In & (k & d & Hl & Ht)%exists_where_true). by rewrite (Hq _ Hi _ _ Hl) in Ht. }
  cut (each l (λ name, on_board (λ b, b <| decision_deliveries := update_where (queued_for v name) (acknowledged_row now) (decision_deliveries b) |>)) s = Ok (tt, s));
    [by intros ->|]. clear Hn. induction l as [|name l IH]; [done|]. cbn. unfold mbind, M_bind, on_board, modify at 1.
  rewrite update_where_none by (apply Hq; left). rewrite on_board_id. apply IH. intros n Hn. apply Hq. by right.
Qed.

(** An acknowledgement takes exactly the queued deliveries of the named verdicts to the names
    of its caller: they no longer wait for these names, every other wait stays, for other
    verdicts and for other names, and nothing but these rows changes; the answer names each
    verdict once that did wait, so that a repeat answers none and changes nothing. *)
Theorem ack_exact now caller vs s c s' : ackTx_ now caller vs s = Ok (c, s') →
  let l := callerNames now caller s in
  acks now s s' ∧ NoDup c ∧ (∀ after v, v ∈ c ∧ after < v ↔ v ∈ vs ∧ v ∈ awaiting l after s) ∧
  (∀ after v, v ∈ awaiting l after s' ↔ v ∈ awaiting l after s ∧ v ∉ vs) ∧
  (∀ l' after, (∀ name, name ∈ l' → name ∉ l) → awaiting l' after s' = awaiting l' after s) ∧
  ackTx_ now caller vs s' = Ok ([], s').
Proof.
  intros H l. assert (acks now s s') as Ha by by eapply ackTx_acks. assert (callerNames now caller s' = l) as El by (by destruct Ha as [[x ->] _ _]).
  assert (active now caller s' = active now caller s) as Eact by (by destruct Ha as [[x ->] _ _]).
  unfold ackTx_ in H. apply bind_Ok in H as (u & s0 & [Hact [= -> ->]]%check_Ok & H). apply bind_Ok in H as (l0 & s0 & [= -> ->]%gets_Ok & H). fold l in H.
  destruct (ack_all_spec _ _ _ _ _ _ H) as (Ed & Hc & Hnd).
  assert (∀ l' after v, v ∈ awaiting l' after s' ↔ after < v ∧ ∃ o d, decision_deliveries (board s) !! (v, o) = Some d ∧ vd_outcome d = "queued"%string ∧ vd_name d ∈ l' ∧
            ¬ (v ∈ vs ∧ vd_name d ∈ l)) as Haw.
  { intros l' after v. rewrite elem_of_awaiting, Ed. split.
    - intros (Hv & o & d & (d0 & Hl & ->)%lookup_update_where_Some & Ho & Hn). destruct (taken_by l vs (v, o) d0) eqn:E; [done|]. split; [done|].
      exists o, d0. split_and!; [done..|]. intros [H1 H2]. assert (taken_by l vs (v, o) d0 = true) by (by apply taken_by_true). congruence.
    - intros (Hv & o & d & Hl & Ho & Hn & Hno). split; [done|]. exists o, d. split; [|done]. apply lookup_update_where_Some. exists d. split; [done|].
      destruct (taken_by l vs (v, o) d) eqn:E; [|done]. apply taken_by_true in E as (? & ? & _). by destruct Hno. }
  split; [done|]. split; [done|]. split; [|split; [|split]].
  - intros after v. rewrite Hc, elem_of_awaiting, exists_where_true. split.
    + intros [[Hv ([v' o] & d & Hl & (Hk%list_elem_of_singleton & Hn & Ho)%taken_by_true)] Hlt]. cbn in Hk. subst v'. eauto 10.
    + intros (Hv & Hlt & o & d & Hl & Ho & Hn). split; [|done]. split; [done|]. exists (v, o), d. split; [done|]. apply taken_by_true. by rewrite list_elem_of_singleton.
  - intros after v. rewrite Haw, elem_of_awaiting. split.
    + intros (Hv & o & d & Hl & Ho & Hn & Hno). split; [eauto 10|]. intros Hvs. by destruct Hno.
    + intros [(Hv & o & d & Hl & Ho & Hn) Hvs]. split; [done|]. exists o, d. split_and!; [done..|]. by intros [? _].
  - intros l' after Hd. apply ascending_eq; [apply ids_sorted..|]. intros v. rewrite Haw, elem_of_awaiting. split.
    + intros (Hv & o & d & Hl & Ho & Hn). split; [done|]. exists o, d. split_and!; [done..|]. intros [_ Hn']. by apply (Hd _ Hn).
    + intros (Hv & o & d & Hl & Ho & Hn & _). eauto 10.
  - assert (∀ v, v ∈ vs → exists_where (taken_by l [v]) (decision_deliveries (board s')) = false) as Hnone.
    { intros v Hv. apply exists_where_false. intros k d Hl. destruct (taken_by l [v] k d) eqn:E; [|done]. apply taken_by_true in E as (Hk%list_elem_of_singleton & Hn & Ho).
      rewrite Ed in Hl. apply lookup_update_where_Some in Hl as (d0 & Hl & ->). destruct (taken_by l vs k d0) eqn:E; [done|].
      assert (taken_by l vs k d0 = true) by (apply taken_by_true; by rewrite Hk). congruence. }
    unfold ackTx_, mbind, M_bind, check. rewrite Eact, Hact. unfold gets at 1. rewrite El. clearbody l. clear -Hnone.
    induction vs as [|v vs IH]; [done|]. cbn. unfold mbind, M_bind. rewrite (ack_verdict_none now l v s') by (apply Hnone; left).
    rewrite IH by (intros w Hw; apply Hnone; by right). done.
Qed.

(** ** The verdict of the small installation waits for peer b *)

Lemma pending_complete_witness : active 23 peer_b card_judged = None ∧ awaiting (callerNames 23 peer_b card_judged) 0 card_judged = [1] ∧
  ∃ page, pendingTx printable 23 peer_b 0 16 card_judged = Ok (page, card_judged) ∧ pp_Deliveries page ≠ [].
Proof.
  assert (active 23 peer_b card_judged = None) as Ha by (vm_compute; reflexivity).
  assert (awaiting (callerNames 23 peer_b card_judged) 0 card_judged = [1]) as Hw by (vm_compute; reflexivity).
  destruct (pending_complete printable 23 peer_b 0 16 card_judged (proj2 (proj2 card_inv)) Ha) as (page & E & H).
  split; [exact Ha|]. split; [exact Hw|]. exists page. split; [exact E|]. destruct H as (_ & _ & _ & H & _). apply H; [done|]. by rewrite Hw.
Defined.
Definition card_acked : State := after (ackTx_ 24 peer_b [1]) card_judged.
Lemma ack_exact_witness : 1 ∈ awaiting (callerNames 24 peer_b card_judged) 0 card_judged ∧ ¬ (1 ∈ awaiting (callerNames 24 peer_b card_judged) 0 card_acked) ∧
  ackTx_ 24 peer_b [1] card_acked = Ok ([], card_acked).
Proof.
  assert (awaiting (callerNames 24 peer_b card_judged) 0 card_judged = [1]) as Hw by (vm_compute; reflexivity).
  destruct (run_after (ackTx_ 24 peer_b [1]) card_judged) as [c E]; [by vm_compute|]. destruct (ack_exact 24 peer_b [1] card_judged c card_acked E) as (_ & _ & _ & H1 & _ & H2).
  split; [rewrite Hw; left|]. split; [|exact H2]. intros H. apply H1 in H as [_ H]. apply H. left.
Defined.
