(* ===== verification/Retries.v ===== *)
(** * Retries of keyed acts on the board

    A create, a close or a withdrawal under a key happens once: while its retry record lives, the
    same request answers the first result and another one under the key is refused. *)

From S2P Require Import Prelude GoString GoFloat Schema Sql Label Fixture Storage Names Messages Inboxes Cycles Launches InboxProps Leases WorkViews BoardText Decisions Verdicts BoardProps BoardSteps VerdictProps BoardInvariant BoardLife.
Open Scope Z_scope.

(** ** Refusals of the store leave the tables alone *)

(** A body that fails with its own error: the store answers it, or its own refusal. *)
Lemma write_fails {A} en (body : tx A) e st : body ((tables st) <| pending := None |>) = Err e →
  ∃ e' st', write plain en body st = (Err e', st') ∧ tables st' = tables st ∧ (e' = e ∨ e' ≠ Declined).
Proof.
  intros H. destruct (write plain en body st) as [[a|e'] st'] eqn:Hw; [apply write_Ok in Hw as (s & Hb & _); cbn in Hb; congruence|].
  pose proof (write_Err _ _ _ _ _ _ Hw) as (Et & _). exists e', st'. split; [done|]. split; [done|].
  unfold write, plain in Hw. cbn in Hw. destruct (enter ordinary en st) as [[u|e1] st1] eqn:E.
  - apply enter_spec in E as (Et1 & _). destruct (en_full_body en); [right; by injection Hw as <- _|]. rewrite Et1, H in Hw. left. by injection Hw as <- _.
  - injection Hw as <- _. right. unfold enter, reclaim, prove_log in E. repeat case_match; simplify_eq; done.
Qed.

(** ** The record of an act *)

Section retries.
Context `{SHA : Sha256}.
Variable is_print : Z → bool.
Variable format_float : float → string.

(** A keyed act that committed its change with its receipt *)
Inductive keyed_act (caller : Key) : string → string → float → DecisionReceipt → State → State → Prop :=
| ka_create now reference f key deadline a s s' :
    createTx now caller reference f key (decisionFingerprint format_float reference f deadline) deadline s = Ok (a, s') →
    keyed_act caller key (decisionFingerprint format_float reference f deadline) deadline (CreatedReceipt a) s s'
| ka_close now reference n note key print deadline a s s' :
    closeTx is_print now caller reference n note key print deadline s = Ok (a, s') → keyed_act caller key print deadline (ItemReceipt a) s s'
| ka_withdraw now reference n reason key print deadline a s s' :
    withdrawTx is_print now caller reference n reason key print deadline s = Ok (a, s') → keyed_act caller key print deadline (ItemReceipt a) s s'.
Lemma keyed_act_record caller key print deadline r s s' : keyed_act caller key print deadline r s s' →
  decision_replays (board s') !! (caller, key) = Some (mkDecisionReplayRow print deadline r).
Proof.
  intros [now reference f k d a t t' H|now reference n note k p d a t t' H|now reference n reason k p d a t t' H].
  - unfold createTx in H. run H. apply board_replay_Ok in R2 as [_ ->]. cbn. by rewrite lookup_insert_eq.
  - unfold closeTx in H. apply bind_Ok in H as ([i x] & s0 & _ & H). do 5 (apply bind_Ok in H as (? & ? & _ & H)).
    apply receipt_Ok in H as (q & _ & -> & E1 & E2 & E3 & _). cbn. rewrite lookup_insert_eq. destruct q. cbn in *. congruence.
  - unfold withdrawTx in H. apply bind_Ok in H as ([i x] & s0 & _ & H). do 8 (apply bind_Ok in H as (? & ? & _ & H)).
    apply receipt_Ok in H as (q & _ & -> & E1 & E2 & E3 & _). cbn. rewrite lookup_insert_eq. destruct q. cbn in *. congruence.
Qed.

(** *** The record is kept *)

Definition records (s : State) := decision_replays (board s).
Definition has_record (k : Key * string) (q : DecisionReplayRow) (s : State) : Prop := records s !! k = Some q.
Lemma record_of_keeps k q {A} (m : tx A) : Keeps records m → Maintains (has_record k q) m.
Proof. apply maintains_keeps. unfold has_record. by intros s s' ->. Qed.
Lemma record_insert k q caller key x : Maintains (has_record k q) (insert_replay caller key x).
Proof. intros s u s' Hq [Hf ->]%board_replay_Ok. unfold has_record, records in *. cbn. rewrite lookup_insert_ne; [done|]. intros <-. congruence. Qed.
Lemma records_decisionRow reference : Keeps records (decisionRow reference).
Proof. by intros s [i r] s' [-> _]%decisionRow_Ok. Qed.
Lemma records_insert_item r : Keeps records (insert_item r).
Proof. intros s u s'. unfold insert_item. destruct (item_at _ s); [done|]. by intros [= _ <-]. Qed.
Lemma records_insert_verdict v : Keeps records (insert_verdict v).
Proof. by intros s u s' [= _ <-]. Qed.
Lemma records_insert_delivery v o d : Keeps records (insert_delivery v o d).
Proof. by intros s u s' [_ ->]%verdict_delivery_Ok. Qed.
#[local] Hint Resolve records_decisionRow records_insert_item records_insert_verdict records_insert_delivery keeps_check : frame.
Lemma records_ensureParticipantInbox now a : Keeps records (ensureParticipantInbox now a).
Proof. intros s u s' (n & _ & _ & [->|[_ ->]])%ensureParticipantInbox_Ok; done. Qed.
#[local] Hint Resolve records_ensureParticipantInbox : frame.
Lemma records_deliver_all now v body l : ∀ o, Keeps records (deliver_all now v body o l).
Proof. induction l as [|name l IH]; intros o; cbn; [keeps|]. apply keeps_bind; [unfold deliverVerdict, delivery_target; keeps|]. intros d. apply keeps_bind; [apply IH|keeps]. Qed.
#[local] Hint Resolve records_deliver_all : frame.
Ltac kept := repeat first [ solve [apply record_of_keeps; keeps] | apply record_insert | maintains_step ].

(** A transaction that is no removal of records past this deadline *)
Definition timely (deadline : float) (s s' : State) : Prop :=
  board_step is_print s s' ∧ ∀ clock u, cullDecisionReplaysTx clock s = Ok (u, s') → fltb deadline clock = false.
Lemma timely_record k q s s' : timely (dq_deadline q) s s' → has_record k q s → has_record k q s'.
Proof.
  intros [Hst Ht] Hq. destruct Hst as [now caller reference f key print deadline a _ _ H|now caller reference ir f u _ _ H|now caller reference ir note key print deadline a _ H|
    now caller reference ir reason key print deadline a _ H|now caller reference ir u _ H|now via reference revision verdict note v _ H|now caller vs c H|clock u H|A m a Hk _ H].
  - assert (Maintains (has_record k q) (createTx now caller reference f key print deadline)) as Hm by (unfold createTx, storeRecipients, on_board; kept). by eapply Hm.
  - assert (Maintains (has_record k q) (editTx now caller reference ir f)) as Hm
      by (unfold editTx, reopen, supersede, end_withdrawals, Decisions.update_item, storeRecipients, on_board; kept). by eapply Hm.
  - assert (Maintains (has_record k q) (closeTx is_print now caller reference ir note key print deadline)) as Hm
      by (unfold closeTx, receipt, decisionItem, Decisions.update_item, on_board; kept). by eapply Hm.
  - assert (Maintains (has_record k q) (withdrawTx is_print now caller reference ir reason key print deadline)) as Hm
      by (unfold withdrawTx, receipt, decisionItem, supersede, insert_withdrawal, Decisions.update_item, on_board; kept). by eapply Hm.
  - assert (Maintains (has_record k q) (reopenTx now caller reference ir)) as Hm by (unfold reopenTx, end_withdrawals, Decisions.update_item, on_board; kept). by eapply Hm.
  - assert (Maintains (has_record k q) (verdictTx is_print now via reference revision verdict note)) as Hm
      by (unfold verdictTx, Decisions.update_item, on_board; kept). by eapply Hm.
  - apply ackTx_acks in H as [[x ->] _ _]. done.
  - specialize (Ht _ _ H). apply on_board_Ok in H as ->. unfold has_record, records in *. cbn. apply map_lookup_filter_Some. split; [done|]. cbn.
    intros Hin%subseteq_take. apply list_elem_of_fmap in Hin as ([k' q'] & E & [Hl Hd]%elem_of_select). cbn in *. subst k'. congruence.
  - specialize (Hk _ _ _ H). unfold has_record, records. by rewrite Hk.
Qed.

(** ** Once *)

Lemma repeat_at {A} (as_ : DecisionReceipt → A) now caller key print q s : active now caller s = None → has_record (caller, key) q s →
  repeat_of as_ now caller key print s = if seqb (dq_fingerprint q) print then Ok (Some (as_ (dq_result q)), s) else Err (workError "idempotency_conflict").
Proof.
  intros Ha Hq. unfold has_record, records in Hq. unfold repeat_of, mbind, M_bind, check. rewrite Ha. unfold gets. rewrite Hq. unfold ensure. by destruct (seqb _ _).
Qed.
(** A keyed write with the record in its read, and one whose record was committed after it *)
Lemma keyed_answers {A} (as_ : DecisionReceipt → A) now now' caller key print q (body : tx A) en st0 st : active now caller (tables st0) = None →
  has_record (caller, key) q (tables st0) →
  keyed_write (λ n, repeat_of as_ n caller key print) now now' body en st0 st =
    (if seqb (dq_fingerprint q) print then Ok (as_ (dq_result q)) else Err (workError "idempotency_conflict"), st).
Proof. intros Ha Hq. unfold keyed_write, read. rewrite (repeat_at _ _ _ _ _ _ _ Ha Hq). by destruct (seqb _ _). Qed.
Lemma keyed_late {A} (as_ : DecisionReceipt → A) now now' caller key q (body : tx A) en st0 st r st' : active now' caller (tables st) = None →
  has_record (caller, key) q (tables st) → read (repeat_of as_ now caller key (dq_fingerprint q)) st0 = Ok None →
  keyed_write (λ n, repeat_of as_ n caller key (dq_fingerprint q)) now now' body en st0 st = (r, st') →
  tables st' = tables st ∧ ∀ a, r = Ok a → a = as_ (dq_result q).
Proof.
  intros Ha Hq H0 H. unfold keyed_write in H. rewrite H0 in H. set (m := o ← repeat_of as_ now' caller key (dq_fingerprint q); _) in H.
  assert (m ((tables st) <| pending := None |>) = Err Declined) as Hm.
  { unfold m, mbind at 1, M_bind. rewrite (repeat_at as_ now' caller key _ q) by done. by rewrite (proj2 (seqb_true _ _) eq_refl). }
  destruct (write_fails en m Declined st Hm) as (e & st1 & Hw & Et & He). rewrite Hw in H.
  destruct (decide (e = Declined)) as [->|Hne].
  - unfold read in H. rewrite (repeat_at as_ now' caller key _ q) in H by (by rewrite Et). rewrite (proj2 (seqb_true _ _) eq_refl) in H. injection H as <- <-.
    split; [done|]. by intros a [= <-].
  - assert ((Err e, st1) = (r, st')) as [= <- <-] by (destruct e; done). done.
Qed.

End retries.

(** ** The creation of the card, retried *)

Definition constant_text (_ : float) : string := "50".
Definition retried : State := after (createTx 20 peer_a card_name card_fields "k" (@decisionFingerprint zero_sum constant_text card_name card_fields (of_int 50)) (of_int 50)) small_state.
Definition retried_store : Store := mkStore retried 1000 defaultMaxPages None.
Definition card_print : string := @decisionFingerprint zero_sum constant_text card_name card_fields (of_int 50).
Definition again : tx DecisionCreated := createTx 22 peer_a card_name card_fields "k" card_print (of_int 50).
