(* ===== verification/ArchiveSteps.v ===== *)
(** * The deep archive as a machine

    The states of a move, its steps interleaved with the transactions of the board, with crashes
    and with restores, and the invariant that keeps every card either on the board or in a log
    line that its locator finds. *)

From S2P Require Import Prelude GoString GoFloat Schema Sql Label Storage Names Messages Inboxes Cycles Launches Leases WorkViews BoardText Decisions Verdicts DeepArchive BoardProps BoardSteps VerdictProps BoardInvariant.
Open Scope Z_scope.

(** ** The rows of one card

    Which rows a card has, that the record of the deep archive is a function of these alone, and
    that a transaction of the board leaves the rows of an archived and marked card as they are. *)

(** ** Selections that agree *)

Lemma select_order_eq {K V} `{Countable K} (f : K * V → Z) (P P' : K → V → bool) (m m' : gmap K V) :
  (∀ k v, m' !! k = Some v ∧ P' k v = true ↔ m !! k = Some v ∧ P k v = true) →
  (∀ x y, x ∈ select P m → y ∈ select P m → f x = f y → x = y) → order_by f (select P' m') = order_by f (select P m).
Proof.
  intros He Hi. assert (∀ x, x ∈ select P' m' ↔ x ∈ select P m) as Hx by (intros [k v]; by rewrite !elem_of_select).
  apply (StronglySorted_unique_strong (by_Z f)); [|apply order_by_sorted..|].
  - intros x y Hx1 Hy1 H1 H2. rewrite elem_of_order_by in Hx1, Hy1. apply Hi; [by apply Hx|done|]. unfold by_Z in *. lia.
  - unfold order_by. rewrite !merge_sort_Permutation. apply NoDup_Permutation; [apply NoDup_filter, NoDup_map_to_list..|done].
Qed.
Lemma list_bind_same {A B} (f g : A → list B) l : (∀ x, x ∈ l → f x = g x) → l ≫= f = l ≫= g.
Proof. induction l as [|x l IH]; intros Hf; [done|]. rewrite !bind_cons, (Hf x) by left. f_equal. apply IH. intros y Hy. apply Hf. by right. Qed.

(** ** The rows *)

Record rows_same (id : Z) (b b' : Board) : Prop := {
  rs_item : decision_items b' !! id = decision_items b !! id;
  rs_verdicts : verdicts_of b' id = verdicts_of b id;
  rs_withdrawals : withdrawals_of b' id = withdrawals_of b id;
  rs_recipients : ∀ o, decision_recipients b' !! (id, o) = decision_recipients b !! (id, o);
  rs_deliveries : ∀ v o, is_Some (verdicts_of b id !! v) → decision_deliveries b' !! (v, o) = decision_deliveries b !! (v, o) }.
Lemma mine_select {V} (get : V → Z) id (m m' : gmap Z V) : mine get id m' = mine get id m →
  by_id (of_item get id) m' = by_id (of_item get id) m.
Proof.
  intros E. unfold by_id. apply select_order_eq.
  - intros i v. unfold of_item. rewrite Z.eqb_eq, <-!lookup_mine. by rewrite E.
  - intros [i v] [j w] [Hi _]%elem_of_select [Hj _]%elem_of_select. cbn. intros <-. congruence.
Qed.
Lemma first_inj {V} (id : Z) (m : gmap (Z * Z) V) (x y : (Z * Z) * V) : x ∈ select (of_first id) m → y ∈ select (of_first id) m → x.1.2 = y.1.2 → x = y.
Proof.
  destruct x as [[a o] v], y as [[c p] w]. intros [Hx Ex]%elem_of_select [Hy Ey]%elem_of_select. unfold of_first in *. cbn in *.
  apply Z.eqb_eq in Ex, Ey. intros <-. subst. congruence.
Qed.
Lemma first_order {V} (id : Z) (m m' : gmap (Z * Z) V) : (∀ o, m' !! (id, o) = m !! (id, o)) →
  order_by (λ kv : (Z * Z) * V, kv.1.2) (select (of_first id) m') = order_by (λ kv : (Z * Z) * V, kv.1.2) (select (of_first id) m).
Proof.
  intros E. apply select_order_eq; [|apply first_inj]. intros [a o] v. unfold of_first. cbn. rewrite Z.eqb_eq. split; intros [Hl ->]; (split; [|done]); congruence.
Qed.
Lemma rows_same_record id b b' : rows_same id b b' → readDecisionRecord id b' = readDecisionRecord id b.
Proof.
  intros [E1 E2 E3 E4 E5]. unfold readDecisionRecord. rewrite E1. destruct (decision_items b !! id) as [r|]; [|done]. cbn.
  unfold verdict_of, withdrawal_of. rewrite (mine_select _ _ _ _ E2), (mine_select _ _ _ _ E3), (first_order id _ _ E4).
  rewrite (list_bind_same _ (λ iv, order_by (λ kd : (Z * Z) * VerdictDeliveryRow, kd.1.2) (select (of_first iv.1) (decision_deliveries b)))); [done|].
  intros [v x] Hv. cbn. apply first_order. intros o. apply E5. unfold by_id in Hv. apply elem_of_order_by, elem_of_select in Hv as [Hl Hi%Z.eqb_eq].
  exists x. by apply lookup_mine.
Qed.
Lemma rows_same_refl id b : rows_same id b b.
Proof. by split. Qed.
Lemma same_tables_rows id b b' : board_view b' = board_view b → rows_same id b b'.
Proof.
  intros E. destruct b, b'. unfold board_view, upd in E. cbn in E. injection E as -> -> -> -> -> -> -> -> ->. by split.
Qed.

(** ** What a transaction does to the rows of the cards that it does not move *)

(** Only one card changed, and that one carries no mark. *)
Definition one_changed (b b' : Board) (c : Z) : Prop :=
  (∀ j, j ≠ c → rows_same j b b') ∧ ∀ r, decision_items b' !! c = Some r → di_mark_revision r = 0.
Lemma edit_changed now by_ id r r' b b' : edit_of now by_ id r r' b b' → one_changed b b' id.
Proof.
  intros He. pose proof (edit_of_card _ _ _ _ _ _ _ He) as (_ & _ & Ho). destruct He as [E1 E2 E3 (_ & _ & _ & _ & E4) E5 (_ & _ & Hm & _)]. split.
  - intros j Hj. destruct (Ho _ Hj) as [Ev Ew]. split; [by rewrite E1, lookup_insert_ne|done|done|intros o; by apply E5|by rewrite E4].
  - intros x. rewrite E1, lookup_insert_eq. by intros [= <-].
Qed.
Lemma unmarked_card b id r : board_ok b → decision_items b !! id = Some r → di_state r ≠ "archived"%string → di_mark_revision r = 0.
Proof. intros Hb Hi Hs. by destruct (co_mark _ _ _ (card_of _ _ _ Hb Hi)) as [?|[? _]]. Qed.
Section rows.
Variable is_print : Z → bool.
Lemma step_changed s s' : board_inv s → board_step is_print s s' → (∃ now, acks now s s') ∨ ∃ c, one_changed (board s) (board s') c.
Proof.
  intros [Hb Hw] Hst. assert (∀ now, clock_ok now → now ≠ 0) as Hn by (unfold clock_ok; lia).
  assert (∀ b', board_view b' = board_view (board s) → ∃ c, one_changed (board s) b' c) as Hsame.
  { intros b' E. exists 0. split; [intros j _; by apply same_tables_rows|]. intros r Hr. rewrite (rs_item _ _ _ (same_tables_rows 0 _ _ E)) in Hr.
    by destruct (bo_items _ Hb _ _ Hr) as [[? _] _]. }
  destruct Hst as [now caller reference f key print deadline a Hc Hv H|now caller reference ir f u Hc Hv H|now caller reference ir note key print deadline a Hc H|
    now caller reference ir reason key print deadline a Hc H|now caller reference ir u Hc H|now via reference revision verdict note v Hc H|now caller vs c H|clock u H|A x a Hk _ H].
  - right. apply createTx_board in H as (_ & E1 & E2 & E3 & E4 & _ & E5). exists (decision_items_issued (board s) + 1). split.
    + intros j Hj. split; [by rewrite E1, lookup_insert_ne|by rewrite E2|by rewrite E3|intros o; by apply E5|by rewrite E4].
    + intros r. rewrite E1, lookup_insert_eq. by intros [= <-].
  - right. apply validate_kind in Hv as [_ Hv]. apply editTx_Ok in H as (id & r & r' & _ & _ & _ & _ & He & _); [|done|done]. exists id. by eapply edit_changed.
  - right. apply closeTx_Ok in H as (id & r & Hi & _ & _ & Hs & E & _); [|by apply (Hn now)|done]. exists id.
    pose proof (same_tables_rows id _ _ E) as [Ei _ _ _ _]. cbn in Ei. split.
    + intros j Hj. destruct (same_tables_rows j _ _ E) as [E1 E2 E3 E4 E5]. cbn in *. split; try done. by rewrite E1, lookup_insert_ne.
    + intros x. rewrite Ei, lookup_insert_eq. intros [= <-]. cbn. apply (unmarked_card _ _ _ Hb Hi). by rewrite Hs.
  - right. apply withdrawTx_Ok in H as (id & r & peer & Hi & _ & _ & Hs & _ & _ & E1 & (E2 & E3 & _) & _ & Ho & _); [|by apply (Hn now)|done]. exists id. split.
    + intros j Hj. destruct (Ho _ Hj). split; [by rewrite E1, lookup_insert_ne|done|done|by rewrite E2|by rewrite E3].
    + intros x. rewrite E1, lookup_insert_eq. intros [= <-]. cbn. apply (unmarked_card _ _ _ Hb Hi). by destruct Hs as [->| ->].
  - right. apply reopenTx_Ok in H as (id & r & r' & peer & _ & _ & _ & _ & _ & _ & _ & He); [|by apply (Hn now)|done]. exists id. by eapply edit_changed.
  - right. assert (ids_below s) as Hi by (intros i y Hy; by destruct (wf_ids _ Hw _ _ Hy)). apply verdictTx_Ok in H as (id & r & Hj); [|apply Hc|done|done]. exists id.
    destruct (judged_ok _ _ _ _ _ _ _ _ _ _ _ _ (Hn _ Hc) Hb Hj) as (_ & Ho & _). destruct Hj as [_ _ _ Hid Hvs Hit (E1 & E2 & _) _ (extra & rows & _ & _ & Hd)]. split.
    + intros j Hne. destruct (Ho _ Hne). split; [by rewrite Hit, lookup_insert_ne|done|done|by rewrite E2|]. intros w o [y Hy].
      apply lookup_mine in Hy as [Hy _]. destruct (bo_verdicts _ Hb _ _ Hy) as [Hle _]. apply option_eq. intros d. split.
      * intros [Hl|(i & _ & [= -> _])]%(ad_others _ _ _ _ _ _ _ _ Hd); [done|lia].
      * apply (ad_kept _ _ _ _ _ _ _ _ Hd).
    + intros x. rewrite Hit, lookup_insert_eq. by intros [= <-].
  - left. exists now. by eapply ackTx_acks.
  - right. apply on_board_Ok in H as ->. by apply Hsame.
  - right. specialize (Hk _ _ _ H). rewrite Hk. by apply Hsame.
Qed.

(** The counters never go back, and the locators stay. *)
Definition counted (b b' : Board) : Prop := decision_items_issued b ≤ decision_items_issued b' ∧ decision_verdicts_issued b ≤ decision_verdicts_issued b' ∧
  decision_withdrawals_issued b ≤ decision_withdrawals_issued b'.
Lemma step_counted s s' : board_inv s → board_step is_print s s' → counted (board s) (board s') ∧ decision_deep_archive (board s') = decision_deep_archive (board s).
Proof.
  intros [Hb Hw] Hst. assert (∀ now, clock_ok now → now ≠ 0) as Hn by (unfold clock_ok; lia).
  assert (∀ b', board_view b' = board_view (board s) → counted (board s) b' ∧ decision_deep_archive b' = decision_deep_archive (board s)) as Hsame.
  { intros b' E. destruct (board s), b'. unfold board_view, upd in E. cbn in E. injection E as -> -> -> -> -> -> -> -> ->. unfold counted. cbn. split; [lia|done]. }
  destruct Hst as [now caller reference f key print deadline a Hc Hv H|now caller reference ir f u Hc Hv H|now caller reference ir note key print deadline a Hc H|
    now caller reference ir reason key print deadline a Hc H|now caller reference ir u Hc H|now via reference revision verdict note v Hc H|now caller vs c H|clock u H|A x a Hk _ H].
  - apply createTx_board in H as (_ & _ & _ & _ & _ & (E1 & E2 & E3 & E4) & _). unfold counted. rewrite E1, E2, E3. split; [lia|done].
  - apply validate_kind in Hv as [_ Hv]. apply editTx_Ok in H as (id & r & r' & _ & _ & _ & _ & He & _); [|done|done].
    destruct (eo_rest _ _ _ _ _ _ _ He) as (E1 & E2 & E3 & E4 & _). unfold counted. rewrite E1, E2, E3. split; [lia|done].
  - apply closeTx_Ok in H as (id & r & Hi & _ & _ & Hs & E & _); [|by apply (Hn now)|done]. destruct (board s), (board s'). unfold board_view, upd in E. cbn in E.
    injection E as -> -> -> -> -> -> -> -> ->. unfold counted. cbn. split; [lia|done].
  - apply withdrawTx_Ok in H as (id & r & peer & _ & _ & _ & _ & _ & _ & _ & (_ & _ & E1 & E2 & E3 & E4) & _); [|by apply (Hn now)|done].
    unfold counted. rewrite E1, E2, E3. split; [lia|done].
  - apply reopenTx_Ok in H as (id & r & r' & peer & _ & _ & _ & _ & _ & _ & _ & He); [|by apply (Hn now)|done].
    destruct (eo_rest _ _ _ _ _ _ _ He) as (E1 & E2 & E3 & E4 & _). unfold counted. rewrite E1, E2, E3. split; [lia|done].
  - assert (ids_below s) as Hi by (intros i y Hy; by destruct (wf_ids _ Hw _ _ Hy)). apply verdictTx_Ok in H as (id & r & Hj); [|apply Hc|done|done].
    destruct Hj as [_ _ _ Hid _ _ (_ & _ & E1 & E2 & E3 & E4 & _) _ _]. unfold counted. rewrite E1, E2, E3. split; [lia|done].
  - apply ackTx_acks in H as [[x ->] _ _]. unfold counted. cbn. split; [lia|done].
  - apply on_board_Ok in H as ->. by apply Hsame.
  - specialize (Hk _ _ _ H). rewrite Hk. by apply Hsame.
Qed.

(** No delivery of the card waits for an acknowledgement. *)
Definition no_wait (id : Z) (b : Board) : Prop := ∀ v o d, is_Some (verdicts_of b id !! v) → decision_deliveries b !! (v, o) = Some d → vd_outcome d ≠ "queued"%string.
Lemma waits_no_wait id b : waits_for_ack id b = false ↔ no_wait id b.
Proof.
  unfold waits_for_ack, no_wait. rewrite exists_where_false. split.
  - intros H v o d [x [Hx Hi]%lookup_mine] Hd Hq. specialize (H (v, o) d Hd). cbn in H. rewrite Hx, Hq, Hi, Z.eqb_refl in H. done.
  - intros H [v o] d Hd. cbn. destruct (seqb (vd_outcome d) "queued") eqn:Eq; [|done]. apply seqb_true in Eq. cbn.
    destruct (decision_verdicts b !! v) as [x|] eqn:Ex; [|done]. apply Z.eqb_neq. intros Hi. apply (H v o d); [|done|done]. exists x. by apply lookup_mine.
Qed.
Lemma no_wait_same id b b' : rows_same id b b' → no_wait id b → no_wait id b'.
Proof. intros [_ E2 _ _ E5] H v o d Hv Hd. rewrite E2 in Hv. rewrite E5 in Hd by done. by eapply H. Qed.
(** A marked card whose deliveries do not wait keeps all its rows, whatever runs. *)
Lemma marked_rows s s' id r' : board_inv s → board_step is_print s s' → decision_items (board s') !! id = Some r' → di_mark_revision r' ≠ 0 →
  no_wait id (board s) → rows_same id (board s) (board s').
Proof.
  intros Hi Hst Hr Hm Hq. destruct (step_changed _ _ Hi Hst) as [[now Ha]|(c & Hs & Hc)].
  - destruct Ha as [[x ->] Hold Hnew]. split; try done. cbn in *. intros v o Hv. apply option_eq. intros d. split.
    + intros (d0 & Hl & [->|[Ho _]])%Hnew; [done|]. by destruct (Hq v o d0 Hv Hl).
    + intros Hl. destruct (Hold _ _ Hl) as (d' & Hl' & [->|[Ho _]]); [done|]. by destruct (Hq v o d Hv Hl).
  - destruct (decide (id = c)) as [->|Hne]; [by rewrite (Hc _ Hr) in Hm|by apply Hs].
Qed.
End rows.


(** ** Log files only grow *)

Lemma line_at_app l : ∀ o m x, line_at o l = Some x → line_at o (l ++ m) = Some x.
Proof. induction l as [|y l IH]; intros o m x; [done|]. cbn. destruct (o =? 0); [done|]. destruct (o <? ln_length y); [done|]. apply IH. Qed.
Lemma lines_length_app l m : lines_length (l ++ m) = lines_length l + lines_length m.
Proof. induction l as [|y l IH]; cbn; [done|]. unfold lines_length in *. rewrite IH. lia. Qed.
Abbreviation sized := (Forall (λ x, 0 < ln_length x)).
Lemma lines_length_nonneg l : sized l → 0 ≤ lines_length l.
Proof. induction 1; cbn; [done|]. unfold lines_length in *. lia. Qed.
(** The end of a file is the start of its next line. *)
Lemma line_at_end l m : sized l → line_at (lines_length l) (l ++ m) = line_at 0 m.
Proof.
  induction 1 as [|y l Hy Hl IH]; cbn; [done|]. pose proof (lines_length_nonneg l Hl) as Hn. unfold lines_length in *.
  rewrite (proj2 (Z.eqb_neq _ 0)) by lia. rewrite (proj2 (Z.ltb_ge _ _)) by lia. rewrite <-IH. f_equal. lia.
Qed.
Lemma line_at_record l : ∀ o x a, sized l → line_at o l = Some x → ln_record x = Some a → x ∈ l.
Proof.
  induction l as [|y l IH]; intros o x a Hs H Ha; [done|]. apply Forall_cons in Hs as [_ Hs]. cbn in H. destruct (o =? 0); [injection H as <-; left|].
  destruct (o <? ln_length y); [by injection H as <-|]. right. by eapply IH.
Qed.
(** A record line that an append adds is at the end, or it was there. *)
Lemma line_at_snoc l : ∀ o y x, sized l → line_at o (l ++ [y]) = Some x → line_at o l = Some x ∨ (o = lines_length l ∧ x = y) ∨ ln_record x = None.
Proof.
  induction l as [|z l IH]; intros o y x Hs; cbn.
  - destruct (o =? 0) eqn:E; [intros [= ->]; right; left; split; [lia|done]|]. destruct (o <? ln_length y); [|done]. intros [= <-]. by right; right.
  - apply Forall_cons in Hs as [_ Hs]. destruct (o =? 0); [by left|]. destruct (o <? ln_length z); [by left|]. intros [H|[[H1 H2]|H]]%(IH _ _ _ Hs); [by left| |by right; right].
    right; left. unfold lines_length in *. split; [lia|done].
Qed.

(** The lines of a file once its unfinished line has its newline *)
Definition full_lines (f : LogFile) : list LogLine := if lf_partial f =? 0 then lf_lines f else lf_lines f ++ [mkLine (lf_partial f + 1) (lf_tail f)].
Definition full_line (logs : Logs) (name : string) (offset : Z) : option LogLine := line_at offset (full_lines (log_of logs name)).
Lemma read_line_at logs name offset : read_line logs name offset = line_at offset (lf_lines (log_of logs name)).
Proof. unfold read_line, log_of. by destruct (logs !! name). Qed.
Lemma read_full logs name offset x : read_line logs name offset = Some x → full_line logs name offset = Some x.
Proof. rewrite read_line_at. unfold full_line, full_lines. destruct (_ =? 0); [done|]. apply line_at_app. Qed.
Lemma log_of_insert logs n f name : log_of (<[n := f]> logs) name = if decide (n = name) then f else log_of logs name.
Proof. unfold log_of. rewrite lookup_insert. by case_decide. Qed.

(** An open makes the unfinished line a line of its own. *)
Lemma open_log_spec logs name : let '(logs', o) := open_log logs name in
  (∀ n k, full_line logs' n k = full_line logs n k) ∧ (∀ n k x, read_line logs n k = Some x → read_line logs' n k = Some x) ∧
  (∀ n, n ≠ name → logs' !! n = logs !! n) ∧ log_of logs' name = mkLog (full_lines (log_of logs name)) 0 None ∧ o = lines_length (full_lines (log_of logs name)).
Proof.
  unfold open_log. fold (full_lines (log_of logs name)). cbn. split_and!; [| | |by rewrite log_of_insert, decide_True|done].
  - intros n k. unfold full_line. rewrite log_of_insert. case_decide as E; [by subst|done].
  - intros n k x. rewrite !read_line_at, log_of_insert. case_decide as E; [subst|done]. cbn. intros H. unfold full_lines.
    destruct (_ =? 0); [done|]. by apply line_at_app.
  - intros n Hn. by rewrite lookup_insert_ne.
Qed.

(** ** Records *)

Definition unmarked (r : DecisionItemRow) : DecisionItemRow := r <| di_mark_revision := 0 |> <| di_mark_file := ""%string |> <| di_mark_offset := 0 |>.
(** A record without the columns of its move *)
Definition core (a : decisionRecord) : decisionRecord := a <| ar_Item := unmarked (ar_Item a) |> <| ar_MovedAt := 0 |>.
Definition verdict_map (a : decisionRecord) : gmap Z VerdictRow := list_to_map (ar_Verdicts a).
Definition withdrawal_map (a : decisionRecord) : gmap Z WithdrawalRow := list_to_map (ar_Withdrawals a).
(** A record whose rows a restore can put back *)
Record record_ok (b : Board) (a : decisionRecord) : Prop := {
  ro_id : 1 ≤ ar_ID a ≤ decision_items_issued b;
  ro_named : ar_Reference a = di_reference (ar_Item a) ∧ ar_Revision a = di_revision (ar_Item a) ∧ di_state (ar_Item a) = "archived"%string;
  ro_card : card_ok (unmarked (ar_Item a)) (verdict_map a) (withdrawal_map a);
  ro_unique : NoDup (ar_Verdicts a).*1 ∧ NoDup (ar_Withdrawals a).*1;
  ro_verdicts : ∀ i v, (i, v) ∈ ar_Verdicts a → ve_item_id v = ar_ID a ∧ i ≤ decision_verdicts_issued b;
  ro_withdrawals : ∀ i w, (i, w) ∈ ar_Withdrawals a → dw_item_id w = ar_ID a ∧ i ≤ decision_withdrawals_issued b;
  ro_recipients : ∀ k r, (k, r) ∈ ar_Recipients a → k.1 = ar_ID a;
  ro_deliveries : ∀ k d, (k, d) ∈ ar_Deliveries a → k.1 ∈ (ar_Verdicts a).*1 ∧ vd_outcome d ∈ delivery_outcomes ∧ (vd_outcome d = "skipped"%string ↔ vd_reason d ≠ ""%string) }.
Lemma record_ok_counted b b' a : counted b b' → record_ok b a → record_ok b' a.
Proof.
  intros (H1 & H2 & H3) [R1 R2 R3 R4 R5 R6 R7 R8]. split; try done; [lia| |].
  - intros i v Hv. destruct (R5 _ _ Hv). split; [done|lia].
  - intros i v Hv. destruct (R6 _ _ Hv). split; [done|lia].
Qed.
Lemma record_ok_moved b a now : record_ok b a → record_ok b (a <| ar_MovedAt := now |>).
Proof. by intros [R1 R2 R3 R4 R5 R6 R7 R8]; split. Qed.
(** The rows of the record are those of the board. *)
Definition matches (b : Board) (a : decisionRecord) : Prop := core <$> readDecisionRecord (ar_ID a) b = Some (core a).
Lemma matches_moved b a now : matches b (a <| ar_MovedAt := now |>) ↔ matches b a.
Proof. done. Qed.
Lemma matches_same b b' a : rows_same (ar_ID a) b b' → matches b a → matches b' a.
Proof. intros H. unfold matches. by rewrite (rows_same_record _ _ _ H). Qed.

Lemma unmarked_ok r vs ws : card_ok r vs ws → card_ok (unmarked r) vs ws.
Proof. intros [C1 C2 C3 C4 C5 C6 [p Hp]]. split; try done; [by left|]. exists p. by destruct p. Qed.
Lemma record_ok_core b a a' : core a' = core a → record_ok b a' → record_ok b a.
Proof.
  intros E [R1 (R2 & R3 & R4) R5 R6 R7 R8 R9 R10]. pose proof (f_equal ar_ID E : ar_ID a' = ar_ID a) as E1. pose proof (f_equal ar_Reference E : ar_Reference a' = ar_Reference a) as E2.
  pose proof (f_equal ar_Revision E : ar_Revision a' = ar_Revision a) as E3. pose proof (f_equal ar_Item E : unmarked (ar_Item a') = unmarked (ar_Item a)) as E4.
  pose proof (f_equal ar_Verdicts E : ar_Verdicts a' = ar_Verdicts a) as E5. pose proof (f_equal ar_Withdrawals E : ar_Withdrawals a' = ar_Withdrawals a) as E6.
  pose proof (f_equal ar_Recipients E : ar_Recipients a' = ar_Recipients a) as E7. pose proof (f_equal ar_Deliveries E : ar_Deliveries a' = ar_Deliveries a) as E8.
  pose proof (f_equal di_reference E4 : di_reference (ar_Item a') = di_reference (ar_Item a)) as F1. pose proof (f_equal di_revision E4 : di_revision (ar_Item a') = di_revision (ar_Item a)) as F2.
  pose proof (f_equal di_state E4 : di_state (ar_Item a') = di_state (ar_Item a)) as F3. clear E.
  unfold verdict_map, withdrawal_map in R5. rewrite E4, E5, E6 in R5. rewrite E1 in R1, R7, R8, R9. rewrite E2, F1 in R2. rewrite E3, F2 in R3. rewrite F3 in R4.
  rewrite E5, E6 in R6. rewrite E5 in R7, R10. rewrite E6 in R8. rewrite E7 in R9. rewrite E8 in R10. by split.
Qed.
Lemma by_id_map {V} (get : V → Z) id (m : gmap Z V) : list_to_map (by_id (of_item get id) m) = mine get id m ∧ NoDup (by_id (of_item get id) m).*1.
Proof.
  assert (∀ i v, (i, v) ∈ by_id (of_item get id) m ↔ mine get id m !! i = Some v) as He.
  { intros i v. unfold by_id. rewrite elem_of_order_by, elem_of_select, lookup_mine. unfold of_item. by rewrite Z.eqb_eq. }
  assert (NoDup (by_id (of_item get id) m).*1) as Hn.
  { unfold by_id, order_by. rewrite merge_sort_Permutation. unfold select. apply NoDup_fmap_fst; [|apply NoDup_filter, NoDup_map_to_list].
    intros x y1 y2 [_ H1%elem_of_map_to_list]%list_elem_of_filter [_ H2%elem_of_map_to_list]%list_elem_of_filter. congruence. }
  split; [|done]. apply map_eq. intros i. apply option_eq. intros v. rewrite <-He. symmetry. by apply elem_of_list_to_map.
Qed.
(** The record of a card on a well-formed board *)
Lemma read_record_ok b id a : board_ok b → readDecisionRecord id b = Some a → (∃ r, decision_items b !! id = Some r ∧ di_state r = "archived"%string) →
  ar_ID a = id ∧ decision_items b !! id = Some (ar_Item a) ∧ record_ok b a.
Proof.
  intros Hb H (r & Hr & Hs). unfold readDecisionRecord in H. rewrite Hr in H. cbn in H. injection H as <-. cbn. split; [done|]. split; [done|].
  destruct (bo_items _ Hb _ _ Hr) as [Hid Hc]. destruct (by_id_map ve_item_id id (decision_verdicts b)) as [Ev Nv]. destruct (by_id_map dw_item_id id (decision_withdrawals b)) as [Ew Nw].
  assert (∀ i v, (i, v) ∈ by_id (verdict_of id) (decision_verdicts b) ↔ decision_verdicts b !! i = Some v ∧ ve_item_id v = id) as He.
  { intros i v. unfold by_id, verdict_of, of_item. by rewrite elem_of_order_by, elem_of_select, Z.eqb_eq. }
  split; cbn; try done.
  - unfold verdict_map, withdrawal_map. cbn. unfold verdict_of, withdrawal_of. rewrite Ev, Ew. by apply unmarked_ok.
  - intros i v [Hl Hi]%He. split; [done|]. by destruct (bo_verdicts _ Hb _ _ Hl).
  - intros i v. unfold by_id, withdrawal_of, of_item. rewrite elem_of_order_by, elem_of_select, Z.eqb_eq. intros [Hl Hi]. split; [done|]. by destruct (bo_withdrawals _ Hb _ _ Hl).
  - intros k x. rewrite elem_of_order_by, elem_of_select. unfold of_first. by intros [_ ?%Z.eqb_eq].
  - intros k d. rewrite list_elem_of_bind. intros ([v x] & Hd & Hv). rewrite elem_of_order_by, elem_of_select in Hd. unfold of_first in Hd. cbn in Hd.
    destruct Hd as [Hl Hk%Z.eqb_eq]. split; [|by destruct (bo_deliveries _ Hb _ _ Hl)]. apply list_elem_of_fmap. by exists (v, x).
Qed.
Lemma matches_ok b a : board_ok b → matches b a → di_state (ar_Item a) = "archived"%string → record_ok b a.
Proof.
  intros Hb Hm Hs. unfold matches in Hm. apply fmap_Some in Hm as (a' & Ha & E). symmetry in E. assert (di_state (ar_Item a') = "archived"%string) as Hs'
    by (rewrite <-Hs; exact (f_equal (λ a, di_state (ar_Item a)) E)).
  apply (record_ok_core _ _ a'); [done|]. eapply read_record_ok; [done|exact Ha|]. unfold readDecisionRecord in Ha.
  destruct (decision_items b !! ar_ID a) as [r|] eqn:Er; [|done]. cbn in Ha. injection Ha as <-. cbn in Hs'. by exists r.
Qed.

(** ** The machine *)

Inductive Mover :=
| Idle
| Opened (name : string) (offset : Z)
| Marked (id : Z) (name : string) (offset : Z)
| Holding (a : decisionRecord) (name : string) (offset : Z)
| Appended (a : decisionRecord) (length_ : Z) (name : string) (offset : Z).
Record world := mkWorld { w_state : State; w_logs : Logs; w_mover : Mover }.

Section machine.
Variable is_print : Z → bool.

(** The steps of the mover, which is one at a time.  [mv_stop] is a crash, or any refusal that ends
    the pass. *)
Inductive move_step : world → world → Prop :=
| mv_open s l name : move_step (mkWorld s l Idle) (mkWorld s (open_log l name).1 (Opened name (open_log l name).2))
| mv_marks s s' l name offset id : waits_for_ack id (board s) = false → markTx name offset id s = Ok (true, s') →
    move_step (mkWorld s l (Opened name offset)) (mkWorld s' l (Marked id name offset))
| mv_remarks s s' l name old offset id revision : 0 < revision → remarkTx name old offset id revision s = Ok (true, s') →
    move_step (mkWorld s l (Opened name offset)) (mkWorld s' l (Marked id name offset))
| mv_read s l id name offset a : readDecisionRecord id (board s) = Some a →
    move_step (mkWorld s l (Marked id name offset)) (mkWorld s l (Holding a name offset))
| mv_appends s l a name offset now w : let a' := a <| ar_MovedAt := now |> in
    move_step (mkWorld s l (Holding a name offset)) (mkWorld s (append_line l name a' w)
      (match w with Written => Appended a' (ln_length (record_line a')) name offset | _ => Idle end))
| mv_found s l id r x a : decision_items (board s) !! id = Some r → 0 < di_mark_revision r → read_line l (di_mark_file r) (di_mark_offset r) = Some x →
    ln_record x = Some a → ar_ID a = id → ar_Revision a = di_mark_revision r →
    move_step (mkWorld s l Idle) (mkWorld s l (Appended a (ln_length x) (di_mark_file r) (di_mark_offset r)))
| mv_deletes s s' l a n name offset u :
    deleteMovedTx (ar_ID a) (ar_Reference a) (ar_Revision a) name offset n (ar_MovedAt a) s = Ok (u, s') →
    move_step (mkWorld s l (Appended a n name offset)) (mkWorld s' l Idle)
| mv_stop s l m : move_step (mkWorld s l m) (mkWorld s l Idle).
(** What runs: the mover, and between its steps the transactions of the board and restores *)
Inductive arch_step : world → world → Prop :=
| as_move w w' : move_step w w' → arch_step w w'
| as_board s s' l m : board_step is_print s s' → arch_step (mkWorld s l m) (mkWorld s' l m)
| as_restore s s' l m now caller reference name offset x a u : clock_ok now → read_line l name offset = Some x → ln_record x = Some a →
    ar_Reference a = reference → restoreTx now caller reference name offset a s = Ok (u, s') → arch_step (mkWorld s l m) (mkWorld s' l m).

(** ** The invariant *)

Definition at_end (l : Logs) (name : string) (offset : Z) : Prop := lf_partial (log_of l name) = 0 ∧ offset = lines_length (lf_lines (log_of l name)).
(** While the card carries the mark of its move, the record holds its rows. *)
Definition frozen (b : Board) (a : decisionRecord) (name : string) (offset : Z) : Prop :=
  ∀ r, decision_items b !! ar_ID a = Some r → is_marked name offset (ar_Revision a) r = true → matches b a.
Definition mover_ok (b : Board) (l : Logs) (m : Mover) : Prop :=
  match m with
  | Idle => True
  | Opened name offset | Marked _ name offset => at_end l name offset
  | Holding a name offset => at_end l name offset ∧ frozen b a name offset
  | Appended a n name offset => (∃ x, read_line l name offset = Some x ∧ ln_length x = n ∧ ln_record x = Some a) ∧ frozen b a name offset
  end.
Definition marks_ok (b : Board) (l : Logs) : Prop := ∀ id r, decision_items b !! id = Some r → di_mark_revision r ≠ 0 →
  no_wait id b ∧ ∀ x a, full_line l (di_mark_file r) (di_mark_offset r) = Some x → ln_record x = Some a → ar_ID a = id → ar_Revision a = di_mark_revision r → matches b a.
Definition located (b : Board) (l : Logs) (reference : string) (lo : LocatorRow) : Prop := ∃ x a,
  read_line l (dl_file lo) (dl_offset lo) = Some x ∧ ln_length x = dl_length lo ∧ ln_record x = Some a ∧ ar_Reference a = reference ∧ record_ok b a.
Record archive_ok (w : world) : Prop := {
  ao_board : board_inv (w_state w);
  ao_sized : ∀ name, sized (full_lines (log_of (w_logs w) name)) ∧ 0 ≤ lf_partial (log_of (w_logs w) name);
  ao_located : ∀ reference lo, decision_deep_archive (board (w_state w)) !! reference = Some lo → located (board (w_state w)) (w_logs w) reference lo;
  ao_marks : marks_ok (board (w_state w)) (w_logs w);
  ao_mover : mover_ok (board (w_state w)) (w_logs w) (w_mover w) }.
End machine.
