(* ===== verification/ArchiveProps.v ===== *)
(** * The steps of the deep archive keep every card

    Each step of the machine of ArchiveSteps keeps its invariant, and no step of a move loses a
    row of a card. *)

From S2P Require Import Prelude GoString GoFloat Schema Sql Label Storage Names Messages Inboxes Cycles Launches Leases WorkViews BoardText Decisions Verdicts DeepArchive BoardProps BoardSteps VerdictProps BoardInvariant BoardLife ArchiveSteps.
Open Scope Z_scope.

(** ** Marks *)

Lemma update_card_Ok id P f s s' : update_card id P f s = Ok (true, s') → ∃ r, decision_items (board s) !! id = Some r ∧ P r = true ∧
  s' = s <| board := (board s) <| decision_items := <[id := f r]> (decision_items (board s)) |> |>.
Proof. unfold update_card. destruct (_ !! id) as [r|]; [|done]. destruct (P r) eqn:E; [|done]. intros [= <-]. by exists r. Qed.

(** A change of the mark of one archived card *)
Lemma mark_change b id r r' : board_ok b → decision_items b !! id = Some r → di_state r = "archived"%string → di_mark_revision r' = di_revision r →
  unmarked r' = unmarked r → let b' := b <| decision_items := <[id := r']> (decision_items b) |> in
  board_ok b' ∧ (∀ j, j ≠ id → rows_same j b b') ∧ (∀ a, matches b' a ↔ matches b a) ∧ (no_wait id b → no_wait id b').
Proof.
  intros Hb Hi Hs Hm E b'. assert (di_reference r' = di_reference r) as Er by exact (f_equal di_reference E).
  assert (∀ j, j ≠ id → rows_same j b b') as Ho by (intros j Hj; split; try done; cbn; by rewrite lookup_insert_ne).
  split; [|split; [exact Ho|split; [|done]]].
  - eapply (one_card_ok b b' id r r'); [done|done|done| |].
    + apply (archive_one b b' id r r' Hb Hi); try done; by left.
    + change (card_ok r' (verdicts_of b id) (withdrawals_of b id)). pose proof (unmarked_ok _ _ _ (card_of _ _ _ Hb Hi)) as Hc. rewrite <-E in Hc.
      assert (di_state r' = "archived"%string ∧ di_revision r' = di_revision r) as [F1 F2] by (split; [rewrite <-Hs; exact (f_equal di_state E)|exact (f_equal di_revision E)]).
      destruct Hc as [C1 C2 C3 C4 C5 _ [p Hp]]. split; try done; [right; split; [done|congruence]|]. exists p. by destruct p.
  - intros a. unfold matches. destruct (decide (ar_ID a = id)) as [Ea|Hne]; [|by rewrite (rows_same_record _ _ _ (Ho _ Hne))].
    rewrite Ea. unfold readDecisionRecord. cbn. rewrite lookup_insert_eq, Hi. cbn. unfold core, upd. cbn. by rewrite E, (f_equal di_revision E : di_revision r' = di_revision r), Er.
Qed.

(** ** Deletion *)

Lemma mine_delete {V} (get : V → Z) id j (m : gmap Z V) : j ≠ id → mine get j (filter (λ iv, get iv.2 ≠ id) m) = mine get j m.
Proof.
  intros Hj. apply map_eq. intros i. apply option_eq. intros v. rewrite !lookup_mine, map_lookup_filter_Some. cbn. split; [by intros [[? _] ?]|].
  intros [Hl Hg]. split; [|done]. split; [done|congruence].
Qed.
Lemma verdict_ids id b v : v ∈ (by_id (verdict_of id) (decision_verdicts b)).*1 ↔ is_Some (verdicts_of b id !! v).
Proof.
  rewrite list_elem_of_fmap. split.
  - intros ([i x] & -> & Hv). unfold by_id, verdict_of, of_item in Hv. rewrite elem_of_order_by, elem_of_select, Z.eqb_eq in Hv. exists x. by apply lookup_mine.
  - intros [x [Hl Hi]%lookup_mine]. exists (v, x). split; [done|]. unfold by_id, verdict_of, of_item. by rewrite elem_of_order_by, elem_of_select, Z.eqb_eq.
Qed.
Lemma without_item_rows id j b : j ≠ id → rows_same j b (without_item id b).
Proof.
  intros Hj. unfold without_item. split; cbn.
  - by rewrite lookup_delete_ne.
  - by apply mine_delete.
  - by apply mine_delete.
  - intros o. apply option_eq. intros x. rewrite map_lookup_filter_Some. cbn. split; [by intros [? _]|by split].
  - intros v o [x [Hl Hi]%lookup_mine]. apply option_eq. intros d. rewrite map_lookup_filter_Some. cbn. split; [by intros [? _]|]. intros Hd. split; [done|].
    intros [y [Hl' Hi']%lookup_mine]%verdict_ids. congruence.
Qed.
Lemma deleteMovedTx_Ok id reference revision name offset n at_ s u s' : deleteMovedTx id reference revision name offset n at_ s = Ok (u, s') →
  ∃ r g, decision_items (board s) !! id = Some r ∧ is_marked name offset revision r = true ∧ decision_deep_archive (board s) !! reference = None ∧
    s' = s <| board := (without_item id (board s)) <| decision_deep_archive := <[reference := mkLocatorRow name offset n at_]> (decision_deep_archive (board s)) |> |>
           <| change_versions := g |>.
Proof.
  unfold deleteMovedTx. intros H. apply bind_Ok in H as (o & s0 & [= -> ->]%gets_Ok & H). apply bind_Ok in H as (x & s0 & [He [= -> ->]]%ensure_Ok & H).
  destruct (decision_items (board s) !! id) as [r|] eqn:Er; [|done]. cbn in He. apply bind_Ok in H as (y & s1 & ->%on_board_Ok & H).
  apply bind_Ok in H as (z & s2 & H2 & [g ->]%bumpChange_Ok). unfold insert_locator in H2. cbn in H2.
  destruct (decision_deep_archive (board s) !! reference) eqn:Ed; [done|]. injection H2 as _ <-. exists r, g. by split_and!.
Qed.
Lemma deleted_board_ok b id r reference lo : board_ok b → decision_items b !! id = Some r → di_reference r = reference →
  board_ok ((without_item id b) <| decision_deep_archive := <[reference := lo]> (decision_deep_archive b) |>).
Proof.
  intros [B0 B1 B2 B3 B4 B5 B6 B7] Hi Hr. set (b' := _ <| decision_deep_archive := _ |>).
  assert (∀ j, j ≠ id → rows_same j b b') as Ho by (intros j Hj; destruct (without_item_rows id j b Hj) as [E1 E2 E3 E4 E5]; by split).
  assert (∀ j x, decision_items b' !! j = Some x → j ≠ id ∧ decision_items b !! j = Some x) as Hd by (intros j x Hl; cbn in Hl; apply lookup_delete_Some in Hl as [Hne Hl]; by split; [apply not_eq_sym|]).
  assert (∀ j, j ≠ id → is_Some (decision_items b !! j) → is_Some (decision_items b' !! j)) as Hdom by (intros j Hj; by rewrite (rs_item _ _ _ (Ho _ Hj))).
  split.
  - done.
  - intros j x [Hj Hx]%Hd. destruct (B1 _ _ Hx) as [Hid Hc]. destruct (Ho _ Hj) as [_ -> -> _ _]. by split.
  - intros i j x y [_ Hx]%Hd [_ Hy]%Hd. by apply B2.
  - intros j x [Hj Hx]%Hd. cbn. rewrite lookup_insert_ne; [by eapply B3|]. intros E. apply Hj. eapply B2; [exact Hx|exact Hi|]. congruence.
  - intros i v Hl. cbn in Hl. apply map_lookup_filter_Some in Hl as [Hl Hne]. cbn in Hne. destruct (B4 _ _ Hl). split; [done|by apply Hdom].
  - intros i w Hl. cbn in Hl. apply map_lookup_filter_Some in Hl as [Hl Hne]. cbn in Hne. destruct (B5 _ _ Hl). split; [done|by apply Hdom].
  - intros k x Hl. cbn in Hl. apply map_lookup_filter_Some in Hl as [Hl Hne]. cbn in Hne. apply Hdom; [done|by eapply B6].
  - intros k d Hl. cbn in Hl. apply map_lookup_filter_Some in Hl as [Hl Hne]. cbn in Hne. destruct (B7 _ _ Hl) as [[v Hv] Ho']. split; [|exact Ho']. exists v. cbn.
    apply map_lookup_filter_Some. split; [done|]. cbn. intros E. apply Hne. apply verdict_ids. exists v. by apply lookup_mine.
Qed.

(** ** Restores *)

Lemma insert_rows_Ok {K V} `{Countable K} (get : Board → gmap K V) (put : gmap K V → Board → Board) :
  (∀ m b, get (put m b) = m) → (∀ m m' b, put m (put m' b) = put m b) → (∀ b, put (get b) b = b) →
  ∀ rows s u s', insert_rows get put rows s = Ok (u, s') →
  board s' = put (list_to_map rows ∪ get (board s)) (board s) ∧ (∀ k, k ∈ rows.*1 → get (board s) !! k = None) ∧ NoDup rows.*1 ∧ ∃ x, s' = s <| board := x |>.
Proof.
  intros L1 L2 L3. unfold insert_rows. induction rows as [|[k v] rows IH]; intros s u s' Hrun; cbn in Hrun.
  - injection Hrun as _ <-. cbn. rewrite (left_id_L ∅ (∪)), L3. split_and!; [done|by intros k ?%elem_of_nil|constructor|].
    exists (board s). by destruct s.
  - apply bind_Ok in Hrun as (x & s1 & H1 & H2%IH). destruct (get (board s) !! k) eqn:Ek; [done|]. injection H1 as _ <-. cbn in H2.
    destruct H2 as (E & Hf & Hn & y & ->). cbn in *. rewrite L1 in E, Hf. rewrite L2 in E.
    assert (k ∉ rows.*1) as Hk by (intros Hk%Hf; by rewrite lookup_insert_eq in Hk).
    split_and!; [|intros j [->|Hj]%elem_of_cons; [done|]|by constructor|by exists y].
    + rewrite E. f_equal. rewrite <-insert_union_r by (by apply not_elem_of_list_to_map). by rewrite insert_union_l.
    + specialize (Hf _ Hj). rewrite lookup_insert_ne in Hf by (by intros ->). done.
Qed.

(** The board after a restore *)
Definition restored_board (now : Z) (a : decisionRecord) (reference : string) (b : Board) : Board :=
  mkBoard (<[ar_ID a := restored_row now a]> (decision_items b)) (decision_items_issued b) (list_to_map (ar_Recipients a) ∪ decision_recipients b)
    (verdict_map a ∪ decision_verdicts b) (decision_verdicts_issued b) (list_to_map (ar_Deliveries a) ∪ decision_deliveries b)
    (withdrawal_map a ∪ decision_withdrawals b) (decision_withdrawals_issued b) (decision_replays b) (delete reference (decision_deep_archive b)).
Record restored (now : Z) (a : decisionRecord) (b : Board) : Prop := {
  rd_item : decision_items b !! ar_ID a = None;
  rd_reference : ∀ j r, decision_items b !! j = Some r → di_reference r ≠ di_reference (ar_Item a);
  rd_recipients : ∀ k, k ∈ (ar_Recipients a).*1 → decision_recipients b !! k = None;
  rd_verdicts : ∀ k, k ∈ (ar_Verdicts a).*1 → decision_verdicts b !! k = None;
  rd_deliveries : ∀ k, k ∈ (ar_Deliveries a).*1 → decision_deliveries b !! k = None;
  rd_withdrawals : ∀ k, k ∈ (ar_Withdrawals a).*1 → decision_withdrawals b !! k = None;
  rd_unique : NoDup (ar_Recipients a).*1 ∧ NoDup (ar_Deliveries a).*1 }.
Lemma restoreTx_Ok now caller reference name offset a s u s' : restoreTx now caller reference name offset a s = Ok (u, s') →
  active now caller s = None ∧ (∃ lo, decision_deep_archive (board s) !! reference = Some lo ∧ dl_file lo = name ∧ dl_offset lo = offset) ∧
  restored now a (board s) ∧ ∃ g, s' = s <| board := restored_board now a reference (board s) |> <| change_versions := g |>.
Proof.
  unfold restoreTx. intros H. apply bind_Ok in H as (x0 & s0 & [Ha [= -> ->]]%check_Ok & H). apply bind_Ok in H as (o & s0 & [= -> ->]%gets_Ok & H).
  apply bind_Ok in H as (x1 & s0 & [Hl [= -> ->]]%ensure_Ok & H). apply bind_Ok in H as (x2 & s1 & ->%on_board_Ok & H).
  apply bind_Ok in H as (used & s0 & [= -> ->]%gets_Ok & H). apply bind_Ok in H as (x3 & s0 & [Hu [= -> ->]]%ensure_Ok & H).
  apply negb_true_iff, bool_decide_eq_false, eq_None_not_Some in Hu.
  apply bind_Ok in H as (x4 & s2 & H1 & H). apply insert_rows_Ok in H1 as (E1 & F1 & _ & b1 & ->); [|done..|by intros []].
  apply bind_Ok in H as (x5 & s3 & H2 & H). apply insert_rows_Ok in H2 as (E2 & F2 & N2 & b2 & ->); [|done..|by intros []].
  apply bind_Ok in H as (x6 & s4 & H3 & H). apply insert_rows_Ok in H3 as (E3 & F3 & _ & b3 & ->); [|done..|by intros []].
  apply bind_Ok in H as (x7 & s5 & H4 & H). apply insert_rows_Ok in H4 as (E4 & F4 & N4 & b4 & ->); [|done..|by intros []].
  apply bind_Ok in H as (x8 & s6 & H5 & H). apply insert_rows_Ok in H5 as (E5 & F5 & _ & b5 & ->); [|done..|by intros []].
  apply bumpChange_Ok in H as [g ->]. cbn in *. subst b1 b2 b3 b4 b5. cbn in *. split; [done|]. split; [|split; [|exists g]].
  - destruct (decision_deep_archive (board s) !! reference) as [lo|]; [|done]. apply andb_true_iff in Hl as [Hl1%seqb_true Hl2%Z.eqb_eq]. eauto.
  - split; try done; [apply F1; left|]. intros j r Hj. exact (item_at_None _ _ Hu j r Hj).
  - assert (restored_board now a reference (board s) = mkBoard (list_to_map [(ar_ID a, restored_row now a)] ∪ decision_items (board s)) (decision_items_issued (board s))
      (list_to_map (ar_Recipients a) ∪ decision_recipients (board s)) (verdict_map a ∪ decision_verdicts (board s)) (decision_verdicts_issued (board s))
      (list_to_map (ar_Deliveries a) ∪ decision_deliveries (board s)) (withdrawal_map a ∪ decision_withdrawals (board s)) (decision_withdrawals_issued (board s))
      (decision_replays (board s)) (delete reference (decision_deep_archive (board s)))) as -> by (unfold restored_board; f_equal; cbn [list_to_map foldr fmap list_fmap uncurry]; rewrite <-insert_union_l; by rewrite (left_id_L ∅ (∪))).
    reflexivity.
Qed.

Lemma map_union_lookup {K V} `{Countable K} (l : list (K * V)) (m : gmap K V) k v : NoDup l.*1 → (∀ k, k ∈ l.*1 → m !! k = None) →
  ((list_to_map l : gmap K V) ∪ m) !! k = Some v ↔ (k, v) ∈ l ∨ m !! k = Some v.
Proof.
  intros Hn Hf. rewrite lookup_union_Some; [by rewrite <-elem_of_list_to_map by done|]. apply map_disjoint_spec. intros j x y Hx Hy.
  apply elem_of_list_to_map_2 in Hx. assert (j ∈ l.*1) as Hj%Hf by (apply list_elem_of_fmap; by exists (j, x)). congruence.
Qed.
Lemma restored_lookup now a reference b : record_ok b a → restored now a b → let b' := restored_board now a reference b in
  (∀ j x, decision_items b' !! j = Some x ↔ j = ar_ID a ∧ x = restored_row now a ∨ j ≠ ar_ID a ∧ decision_items b !! j = Some x) ∧
  (∀ i v, decision_verdicts b' !! i = Some v ↔ (i, v) ∈ ar_Verdicts a ∨ decision_verdicts b !! i = Some v) ∧
  (∀ i v, decision_withdrawals b' !! i = Some v ↔ (i, v) ∈ ar_Withdrawals a ∨ decision_withdrawals b !! i = Some v) ∧
  (∀ k d, decision_deliveries b' !! k = Some d ↔ (k, d) ∈ ar_Deliveries a ∨ decision_deliveries b !! k = Some d) ∧
  (∀ k d, decision_recipients b' !! k = Some d ↔ (k, d) ∈ ar_Recipients a ∨ decision_recipients b !! k = Some d).
Proof.
  intros [_ _ _ [R4 R4'] _ _ _ _] [D1 D2 D3 D4 D5 D6 [D7 D8]] b'. split; [|split; [|split; [|split]]]; [|intros; by apply map_union_lookup..].
  intros j x. cbn. rewrite lookup_insert_Some. naive_solver.
Qed.
(** The restored card and the others *)
Lemma restored_rows now a reference b : board_ok b → record_ok b a → restored now a b → let b' := restored_board now a reference b in
  (∀ j, j ≠ ar_ID a → rows_same j b b') ∧ verdicts_of b' (ar_ID a) = verdict_map a ∧ withdrawals_of b' (ar_ID a) = withdrawal_map a.
Proof.
  intros Hb Ha Hre b'. destruct (restored_lookup now a reference b Ha Hre) as (_ & Hv & Hw & Hd & Hr). fold b' in Hv, Hw, Hd, Hr.
  destruct Ha as [R1 R2 R3 [R4 R4'] R5 R6 R7 R8], Hre as [D1 D2 D3 D4 D5 D6 [D7 D8]].
  split; [|split].
  - intros j Hj. split.
    + cbn. by rewrite lookup_insert_ne.
    + apply map_eq. intros i. apply option_eq. intros v. rewrite !lookup_mine, Hv. split; [|tauto]. intros [[Hin|?] Hi]; [|done]. destruct (R5 _ _ Hin). congruence.
    + apply map_eq. intros i. apply option_eq. intros v. rewrite !lookup_mine, Hw. split; [|tauto]. intros [[Hin|?] Hi]; [|done]. destruct (R6 _ _ Hin). congruence.
    + intros o. apply option_eq. intros x. rewrite Hr. split; [|tauto]. intros [Hin|?]; [|done]. by apply R7 in Hin.
    + intros v o [x [Hl _]%lookup_mine]. apply option_eq. intros d. rewrite Hd. split; [|tauto]. intros [Hin|?]; [|done]. destruct (R8 _ _ Hin) as [Hk _]. cbn in Hk.
      apply D4 in Hk. congruence.
  - apply map_eq. intros i. apply option_eq. intros v. rewrite lookup_mine, Hv. unfold verdict_map. rewrite <-elem_of_list_to_map by done. split; [|intros Hin; split; [by left|by apply (R5 _ _ Hin)]].
    intros [[?|Hl] Hi]; [done|]. destruct (bo_verdicts _ Hb _ _ Hl) as [_ [r Hx]]. congruence.
  - apply map_eq. intros i. apply option_eq. intros v. rewrite lookup_mine, Hw. unfold withdrawal_map. rewrite <-elem_of_list_to_map by done. split; [|intros Hin; split; [by left|by apply (R6 _ _ Hin)]].
    intros [[?|Hl] Hi]; [done|]. destruct (bo_withdrawals _ Hb _ _ Hl) as [_ [r Hx]]. congruence.
Qed.
Lemma restored_card now a b : now ≠ 0 → record_ok b a → card_ok (restored_row now a) (verdict_map a) (withdrawal_map a).
Proof.
  intros Hn [_ (_ & _ & Hs) [C1 C2 C3 C4 C5 _ [p Hp]] [Nv _] _ _ _ _]. split; try done; [|by left|].
  - cbn. unfold verdict_map. by rewrite map_size_list_to_map.
  - exists p. destruct p; cbn in *; rewrite ?Hs in Hp; destruct_and?; try done; split_and!; done.
Qed.
Lemma restored_board_ok now a reference b : now ≠ 0 → board_ok b → record_ok b a → ar_Reference a = reference → restored now a b →
  board_ok (restored_board now a reference b).
Proof.
  intros Hn Hb Ha Hr Hre. destruct (restored_rows now a reference b Hb Ha Hre) as (Ho & Ev & Ew). pose proof (restored_card now a b Hn Ha) as Hc.
  destruct (restored_lookup now a reference b Ha Hre) as (Hl & Hv & Hw & Hd & Hx').
  destruct Hb as [B0 B1 B2 B3 B4 B5 B6 B7]. pose proof Ha as [R1 (R2 & _) _ _ R5 R6 R7 R8]. pose proof (rd_reference _ _ _ Hre) as D2.
  set (b' := restored_board now a reference b) in *.
  assert (∀ j, is_Some (decision_items b !! j) → is_Some (decision_items b' !! j)) as Hdom by (intros j Hj; apply lookup_insert_is_Some'; by right).
  assert (is_Some (decision_items b' !! ar_ID a)) as Hme by (apply lookup_insert_is_Some'; by left).
  split.
  - done.
  - intros j x [[-> ->]|[Hj Hx]]%Hl; [split; [done|by rewrite Ev, Ew]|]. destruct (Ho _ Hj) as [_ -> -> _ _]. by apply B1.
  - intros i j x y [[-> ->]|[_ Hx]]%Hl [[-> ->]|[_ Hy]]%Hl E; [done| | |by eapply B2]; exfalso.
    + by apply (D2 _ _ Hy).
    + by apply (D2 _ _ Hx).
  - intros j x [[-> ->]|[_ Hx]]%Hl; [cbn; by rewrite <-Hr, R2, lookup_delete_eq|]. apply lookup_delete_None. right. by eapply B3.
  - intros i v [Hin|Hx]%Hv; [destruct (R5 _ _ Hin) as [-> ?]; done|]. destruct (B4 _ _ Hx). split; [done|by apply Hdom].
  - intros i v [Hin|Hx]%Hw; [destruct (R6 _ _ Hin) as [-> ?]; done|]. destruct (B5 _ _ Hx). split; [done|by apply Hdom].
  - intros k x [Hin|Hx]%Hx'; [by rewrite (R7 _ _ Hin)|]. by eapply Hdom, B6.
  - intros k d [Hin|Hx]%Hd.
    + destruct (R8 _ _ Hin) as [Hk Hq]. split; [|exact Hq]. apply list_elem_of_fmap in Hk as ([v x] & -> & Hx). exists x. apply Hv. by left.
    + destruct (B7 _ _ Hx) as [[v Hv'] Hq]. split; [|exact Hq]. exists v. apply Hv. by right.
Qed.
