(* ===== verification/ArchiveInvariant.v ===== *)
(** * The invariant of the deep archive

    It holds after every step of the machine, and the history of every card is kept. *)

From S2P Require Import Prelude GoString GoFloat Schema Sql Label Fixture Storage Names Messages Inboxes Cycles Launches Leases WorkViews BoardText Decisions Verdicts DeepArchive BoardProps BoardSteps VerdictProps BoardInvariant BoardLife ArchiveSteps ArchiveProps.
Open Scope Z_scope.

(** ** Parts of the invariant that a step keeps *)

(** The cards that carry a mark are those that did, with all their rows. *)
Definition marks_from (b b' : Board) : Prop := ∀ id r, decision_items b' !! id = Some r → di_mark_revision r ≠ 0 → decision_items b !! id = Some r ∧ rows_same id b b'.
(** No record appears at an offset. *)
Definition lines_from (l l' : Logs) : Prop := ∀ n k x a, full_line l' n k = Some x → ln_record x = Some a → full_line l n k = Some x.
Definition reads_kept (l l' : Logs) : Prop := ∀ n k x, read_line l n k = Some x → read_line l' n k = Some x.
Lemma marks_kept b b' l l' : marks_from b b' → lines_from l l' → marks_ok b l → marks_ok b' l'.
Proof.
  intros Hb Hl Hm id r Hi Hr. destruct (Hb _ _ Hi Hr) as [Hi' Hs]. destruct (Hm _ _ Hi' Hr) as [Hq Hx]. split; [by eapply no_wait_same|].
  intros x a H1 H2 <- H4. eapply matches_same; [exact Hs|]. eapply Hx; [by eapply Hl|done..].
Qed.
Lemma is_marked_spec name offset revision r : is_marked name offset revision r = true ↔
  di_state r = "archived"%string ∧ di_revision r = revision ∧ di_mark_revision r = revision ∧ di_mark_file r = name ∧ di_mark_offset r = offset.
Proof. unfold is_marked. rewrite !andb_true_iff, !seqb_true, !Z.eqb_eq. tauto. Qed.
Lemma marked_nonzero b id name offset revision r : board_ok b → decision_items b !! id = Some r → is_marked name offset revision r = true → di_mark_revision r ≠ 0.
Proof. intros Hb Hi (_ & H1 & H2 & _)%is_marked_spec. pose proof (co_revision _ _ _ (card_of _ _ _ Hb Hi)). lia. Qed.
Lemma frozen_kept b b' a name offset : board_ok b' → marks_from b b' → frozen b a name offset → frozen b' a name offset.
Proof.
  intros Hb Hm Hf r Hi Hr. destruct (Hm _ _ Hi (marked_nonzero _ _ _ _ _ _ Hb Hi Hr)) as [Hi' Hs]. eapply matches_same; [exact Hs|]. by eapply Hf.
Qed.
Lemma mover_kept b b' l m : board_ok b' → marks_from b b' → mover_ok b l m → mover_ok b' l m.
Proof. intros Hb Hm. destruct m; cbn; try done; (intros [? ?]; split; [done|]); by eapply frozen_kept. Qed.
Lemma located_kept b b' l l' reference lo : counted b b' → reads_kept l l' → located b l reference lo → located b' l' reference lo.
Proof. intros Hc Hl (x & a & H1 & H2 & H3 & H4 & H5). exists x, a. split_and!; [by apply Hl|done..|by eapply record_ok_counted]. Qed.
Lemma counted_refl b : counted b b.
Proof. unfold counted. lia. Qed.

Lemma append_spec l name offset a w : at_end l name offset → sized (full_lines (log_of l name)) → let l' := append_line l name a w in
  (∀ n, n ≠ name → log_of l' n = log_of l n) ∧ reads_kept l l' ∧ (sized (full_lines (log_of l' name)) ∧ 0 ≤ lf_partial (log_of l' name)) ∧
  (∀ k x a', full_line l' name k = Some x → ln_record x = Some a' → full_line l name k = Some x ∨ k = offset ∧ a' = a) ∧
  (w = Written → read_line l' name offset = Some (record_line a)).
Proof.
  intros [Hp ->] Hs l'. unfold full_line, full_lines in *. rewrite Hp in *. cbn in Hs. set (ls := lf_lines (log_of l name)) in *.
  assert (0 < ln_length (record_line a)) as Hlen by (unfold record_line, len; cbn; lia).
  assert (∀ n, n ≠ name → log_of l' n = log_of l n) as Ho by (intros n Hn; unfold l', append_line; by rewrite log_of_insert, decide_False).
  assert (log_of l' name = mkLog (ls ++ [record_line a]) 0 None ∨
          w ≠ Written ∧ ∃ n t, log_of l' name = mkLog ls n t ∧ 0 ≤ n ∧ (t = None ∨ t = Some a)) as Hl.
  { unfold l', append_line. rewrite log_of_insert, decide_True by done. destruct w as [|n|]; [by left| |by left].
    destruct (Z.of_nat n <=? _); [right|by left]. split; [done|]. eexists _, _. split; [done|]. split; [lia|]. destruct (_ =? _); auto. }
  assert (reads_kept l l') as Hrk.
  { intros n k x. rewrite !read_line_at. destruct (decide (n = name)) as [->|Hne]; [|by rewrite Ho].
    destruct Hl as [->|(_ & m & t & -> & _)]; cbn; [by apply line_at_app|done]. }
  split; [done|]. split; [done|]. destruct Hl as [E|(Hw & n & t & E & Hn & Ht)]; rewrite !E; cbn.
  - split; [split; [|done]; apply Forall_app; by rewrite Forall_singleton|]. split.
    + intros k x a' Hx Ha. destruct (line_at_snoc _ _ _ _ Hs Hx) as [?|[[-> ->]|Hno]]; [by left|right|congruence]. split; [done|]. cbn in Ha. congruence.
    + intros _. rewrite read_line_at, E. cbn. by rewrite line_at_end.
  - destruct (n =? 0) eqn:En; cbn.
    + split; [done|]. split; [|done]. intros k x a' Hx _. by left.
    + split; [split; [|done]; apply Forall_app; rewrite Forall_singleton; cbn; split; [done|lia]|]. split; [|done].
      intros k x a' Hx Ha. destruct (line_at_snoc _ _ _ _ Hs Hx) as [?|[[-> ->]|Hno]]; [by left|right|congruence]. cbn in Ha. split; [done|]. destruct Ht; congruence.
Qed.

(** ** Each step *)

Section steps.
Variable is_print : Z → bool.

Lemma board_keeps_inv s s' : board_inv s → board_step is_print s s' → board_inv s'.
Proof. intros Hi Hst. destruct (board_shows _ (proj1 Hi)) as [m Hm]. by destruct (board_step_cards _ _ _ _ Hst Hi Hm) as [? _]. Qed.
Lemma board_marks_from s s' l : board_inv s → marks_ok (board s) l → board_step is_print s s' → marks_from (board s) (board s').
Proof.
  intros Hi Hm Hst id r Hr Hn. assert (decision_items (board s) !! id = Some r) as Hr0.
  { destruct (step_changed _ _ _ Hi Hst) as [[now [[x ->] _ _]]|(c & Hs & Hc)]; [done|]. destruct (decide (id = c)) as [->|Hne]; [by rewrite (Hc _ Hr) in Hn|].
    by rewrite <-(rs_item _ _ _ (Hs _ Hne)). }
  split; [done|]. by eapply marked_rows; [done..|apply (Hm _ _ Hr0 Hn)].
Qed.
Lemma archive_board s s' l m : archive_ok (mkWorld s l m) → board_step is_print s s' → archive_ok (mkWorld s' l m).
Proof.
  intros [A1 A2 A3 A4 A5] Hst. cbn [w_state w_logs w_mover] in *. pose proof (board_keeps_inv _ _ A1 Hst) as Hi'. pose proof (board_marks_from _ _ _ A1 A4 Hst) as Hm.
  destruct (step_counted _ _ _ A1 Hst) as [Hc Hl]. split; cbn [w_state w_logs w_mover]; [done|done| | |].
  - intros reference lo Hlo. rewrite Hl in Hlo. eapply located_kept; [exact Hc| |by apply A3]. by intros n k x.
  - eapply marks_kept; [exact Hm| |done]. by intros n k x a.
  - eapply mover_kept; [apply Hi'|done..].
Qed.

Lemma archive_open s l name : archive_ok (mkWorld s l Idle) → archive_ok (mkWorld s (open_log l name).1 (Opened name (open_log l name).2)).
Proof.
  intros [A1 A2 A3 A4 _]. cbn [w_state w_logs w_mover] in *. pose proof (open_log_spec l name) as Ho. destruct (open_log l name) as [l' o]. destruct Ho as (H1 & H2 & H3 & H4 & H5). cbn.
  split; cbn [w_state w_logs w_mover]; [done| | | |].
  - intros n. destruct (decide (n = name)) as [->|Hn]; [rewrite H4; cbn; split; [apply A2|done]|]. unfold log_of. rewrite H3 by done. apply A2.
  - intros reference lo Hlo. eapply located_kept; [apply counted_refl|exact H2|by apply A3].
  - eapply marks_kept; [| |exact A4]; [|by intros n k x a; rewrite H1]. intros id r Hi _. split; [done|apply rows_same_refl].
  - cbn [mover_ok]. unfold at_end. by rewrite H4.
Qed.

(** The card [id] gets the mark of the end of a file. *)
Lemma archive_marked s s' l name offset id r r' : archive_ok (mkWorld s l (Opened name offset)) → decision_items (board s) !! id = Some r →
  di_state r = "archived"%string → no_wait id (board s) → unmarked r' = unmarked r → di_mark_revision r' = di_revision r → di_mark_file r' = name → di_mark_offset r' = offset →
  s' = s <| board := (board s) <| decision_items := <[id := r']> (decision_items (board s)) |> |> → archive_ok (mkWorld s' l (Marked id name offset)).
Proof.
  intros [[Hb Hw] A2 A3 A4 A5] Hi Hs Hq E1 E2 E3 E4 ->. cbn [w_state w_logs w_mover] in *. destruct (mark_change _ id r r' Hb Hi Hs E2 E1) as (Hb' & Ho & Hm & Hnw). split; cbn [w_state w_logs w_mover]; try done.
  - split; [done|]. by apply (inbox_wf_view s).
  - intros reference lo Hlo. apply (located_kept (board s) _ l l); [unfold counted; cbn; lia|by intros n k x|by apply A3].
  - intros j x Hx Hr. change (<[id := r']> (decision_items (board s)) !! j = Some x) in Hx. destruct (decide (j = id)) as [->|Hne].
    + rewrite lookup_insert_eq in Hx. injection Hx as <-. split; [by apply Hnw|]. intros x a Hx _ _ _. exfalso.
      rewrite E3, E4 in Hx. destruct A5 as [Hp Hoff]. unfold full_line, full_lines in Hx. rewrite Hp in Hx. cbn in Hx. subst offset.
      destruct (A2 name) as [Hsz _]. unfold full_lines in Hsz. rewrite Hp in Hsz. cbn in Hsz. rewrite <-(app_nil_r (lf_lines _)) in Hx at 2. by rewrite line_at_end in Hx.
    + rewrite lookup_insert_ne in Hx by done. destruct (A4 _ _ Hx Hr) as [Hq' Hl]. split; [by eapply no_wait_same; [apply Ho|]|]. intros y a H1 H2 H3 H4.
      apply Hm. by eapply Hl.
Qed.
Lemma archive_mark s s' l name offset id : archive_ok (mkWorld s l (Opened name offset)) → waits_for_ack id (board s) = false →
  markTx name offset id s = Ok (true, s') → archive_ok (mkWorld s' l (Marked id name offset)).
Proof.
  intros Ha Hq%waits_no_wait (r & Hi & Hp & ->)%update_card_Ok. apply andb_true_iff in Hp as [Hs%seqb_true _].
  eapply archive_marked; [exact Ha|exact Hi|exact Hs|exact Hq|..|reflexivity]; reflexivity.
Qed.
Lemma archive_remark s s' l name old offset id revision : archive_ok (mkWorld s l (Opened name offset)) → 0 < revision →
  remarkTx name old offset id revision s = Ok (true, s') → archive_ok (mkWorld s' l (Marked id name offset)).
Proof.
  intros Ha Hrev (r & Hi & Hp & ->)%update_card_Ok. rewrite !andb_true_iff, !Z.eqb_eq, seqb_true in Hp. destruct Hp as [[H1 H2] H3].
  pose proof Ha as [[Hb _] _ _ Hm _]. cbn [w_state w_logs w_mover] in *. destruct (co_mark _ _ _ (card_of _ _ _ Hb Hi)) as [Hz|[Hs Hr]]; [lia|].
  eapply archive_marked; [exact Ha|exact Hi|exact Hs|eapply Hm; [exact Hi|lia]| | | | |reflexivity]; [reflexivity|cbn; congruence|cbn; congruence|reflexivity].
Qed.
Lemma archive_read s l id name offset a : archive_ok (mkWorld s l (Marked id name offset)) → readDecisionRecord id (board s) = Some a →
  archive_ok (mkWorld s l (Holding a name offset)).
Proof.
  intros [A1 A2 A3 A4 A5] Ha. cbn [w_state w_logs w_mover] in *. split; cbn [w_state w_logs w_mover]; try done. split; [done|]. intros r _ _. unfold matches.
  assert (ar_ID a = id) as -> by (unfold readDecisionRecord in Ha; destruct (_ !! id); [|done]; cbn in Ha; by injection Ha as <-). by rewrite Ha.
Qed.
Lemma archive_found s l id r x a : archive_ok (mkWorld s l Idle) → decision_items (board s) !! id = Some r → 0 < di_mark_revision r →
  read_line l (di_mark_file r) (di_mark_offset r) = Some x → ln_record x = Some a → ar_ID a = id → ar_Revision a = di_mark_revision r →
  archive_ok (mkWorld s l (Appended a (ln_length x) (di_mark_file r) (di_mark_offset r))).
Proof.
  intros [A1 A2 A3 A4 A5] Hi Hr Hx Ha <- Hrev. cbn [w_state w_logs w_mover] in *. split; cbn [w_state w_logs w_mover]; try done. split; [by exists x|]. intros r' Hi' _. assert (r' = r) as -> by congruence.
  eapply A4; [exact Hi|lia|by apply read_full|done..].
Qed.
Lemma archive_append s l a name offset now w : archive_ok (mkWorld s l (Holding a name offset)) → let a' := a <| ar_MovedAt := now |> in
  archive_ok (mkWorld s (append_line l name a' w) (match w with Written => Appended a' (ln_length (record_line a')) name offset | _ => Idle end)).
Proof.
  intros [A1 A2 A3 A4 [A5 A6]] a'. cbn [w_state w_logs w_mover] in *. destruct (append_spec l name offset a' w A5 (proj1 (A2 name))) as (H1 & H2 & H3 & H4 & H5).
  split; cbn [w_state w_logs w_mover]; [done| | | |].
  - intros n. destruct (decide (n = name)) as [->|Hn]; [done|]. rewrite H1 by done. apply A2.
  - intros reference lo Hlo. eapply located_kept; [apply counted_refl|exact H2|by apply A3].
  - intros id r Hi Hr. destruct (A4 _ _ Hi Hr) as [Hq Hx]. split; [done|]. intros x y Hl Hy E1 E2.
    assert (full_line l (di_mark_file r) (di_mark_offset r) = Some x ∨ di_mark_file r = name ∧ di_mark_offset r = offset ∧ y = a') as [?|(F1 & F2 & ->)].
    { destruct (decide (di_mark_file r = name)) as [<-|Hn].
      - destruct (H4 _ _ _ Hl Hy) as [?|[? ?]]; [by left|by right].
      - left. unfold full_line in *. by rewrite H1 in Hl. }
    + by eapply Hx.
    + apply (A6 r); [by rewrite <-E1 in Hi|]. apply is_marked_spec. destruct (co_mark _ _ _ (card_of _ _ _ (proj1 A1) Hi)) as [Hz|[Hs Hm]]; [done|].
      change (ar_Revision a') with (ar_Revision a) in E2. split_and!; congruence.
  - destruct w; [|done|done]. split; [|exact A6]. exists (record_line a'). split; [by apply H5|done].
Qed.
(** The deletion of the rows of the card whose record is in the log *)
Lemma archive_delete s s' l a n name offset u : archive_ok (mkWorld s l (Appended a n name offset)) →
  deleteMovedTx (ar_ID a) (ar_Reference a) (ar_Revision a) name offset n (ar_MovedAt a) s = Ok (u, s') →
  archive_ok (mkWorld s' l Idle) ∧ matches (board s) a ∧ di_state (ar_Item a) = "archived"%string.
Proof.
  intros [[Hb Hw] A2 A3 A4 [(x & Hx & Hn & Hxa) A6]] (r & g & Hi & Hm & Hd & ->)%deleteMovedTx_Ok. cbn [w_state w_logs w_mover] in *.
  pose proof (A6 _ Hi Hm) as Hmt. apply is_marked_spec in Hm as (Hst & Hrev & _).
  assert (di_state (ar_Item a) = "archived"%string ∧ ar_Reference a = di_reference r) as [Hs Href].
  { unfold matches in Hmt. unfold readDecisionRecord in Hmt. rewrite Hi in Hmt. apply (inj Some) in Hmt.
    exact (conj (eq_trans (eq_sym (f_equal (λ a, di_state (ar_Item a)) Hmt)) Hst) (eq_sym (f_equal ar_Reference Hmt))). }
  pose proof (matches_ok _ _ Hb Hmt Hs) as Hok. split; [|done].
  set (lo := mkLocatorRow name offset n (ar_MovedAt a)). set (b' := (without_item (ar_ID a) (board s)) <| decision_deep_archive := <[ar_Reference a := lo]> (decision_deep_archive (board s)) |>).
  assert (∀ j, j ≠ ar_ID a → rows_same j (board s) b') as Ho by (intros j Hj; destruct (without_item_rows (ar_ID a) j (board s) Hj) as [E1 E2 E3 E4 E5]; by split).
  assert (marks_from (board s) b') as Hmf.
  { intros j y Hy _. change (delete (ar_ID a) (decision_items (board s)) !! j = Some y) in Hy. apply lookup_delete_Some in Hy as [Hj Hy].
    split; [done|]. apply Ho. by apply not_eq_sym. }
  split; cbn [w_state w_logs w_mover].
  - split; [by eapply deleted_board_ok|by apply (inbox_wf_view s)].
  - done.
  - intros reference lo' Hlo. change (<[ar_Reference a := lo]> (decision_deep_archive (board s)) !! reference = Some lo') in Hlo.
    apply (located_kept (board s) _ l l); [unfold counted; cbn; lia|by intros k1 k2 y|]. apply lookup_insert_Some in Hlo as [[<- <-]|[_ Hlo]]; [|by apply A3].
    exists x, a. by split_and!.
  - eapply (marks_kept (board s)); [exact Hmf|by intros k1 k2 y z|done].
  - done.
Qed.
Lemma archive_restore s s' l m now caller reference name offset x a u : clock_ok now → archive_ok (mkWorld s l m) → read_line l name offset = Some x →
  ln_record x = Some a → ar_Reference a = reference → restoreTx now caller reference name offset a s = Ok (u, s') →
  archive_ok (mkWorld s' l m) ∧ record_ok (board s) a ∧ restored now a (board s) ∧ board s' = restored_board now a reference (board s) ∧
  ∃ lo, decision_deep_archive (board s) !! reference = Some lo ∧ dl_file lo = name ∧ dl_offset lo = offset.
Proof.
  intros Hc [[Hb Hw] A2 A3 A4 A5] Hx Hxa Href (_ & (lo & Hlo & Hf & Ho) & Hre & g & ->)%restoreTx_Ok. cbn [w_state w_logs w_mover] in *.
  assert (now ≠ 0) as Hn by (unfold clock_ok in Hc; lia).
  assert (record_ok (board s) a) as Hok. { destruct (A3 _ _ Hlo) as (x' & a' & H1 & _ & H2 & _ & H3). rewrite Hf, Ho in H1. congruence. }
  split; [|split; [done|split; [done|split; [done|by exists lo]]]]. destruct (restored_rows now a reference (board s) Hb Hok Hre) as (Hoth & _ & _).
  destruct (restored_lookup now a reference (board s) Hok Hre) as (Hl & _). set (b' := restored_board now a reference (board s)) in *.
  assert (marks_from (board s) b') as Hmf.
  { intros j y Hy Hr. apply Hl in Hy as [[_ ->]|[Hj Hy]]; [done|]. split; [done|by apply Hoth]. }
  assert (board_ok b') as Hb' by by apply restored_board_ok.
  split; cbn [w_state w_logs w_mover].
  - split; [done|by apply (inbox_wf_view s)].
  - done.
  - intros reference' lo' Hlo'. change (delete reference (decision_deep_archive (board s)) !! reference' = Some lo') in Hlo'. apply lookup_delete_Some in Hlo' as [_ Hlo'].
    apply (located_kept (board s) _ l l); [unfold counted; cbn; lia|by intros k1 k2 y|by apply A3].
  - eapply (marks_kept (board s)); [exact Hmf|by intros k1 k2 y z|done].
  - eapply (mover_kept (board s)); [done|exact Hmf|done].
Qed.
Lemma archive_stop s l m : archive_ok (mkWorld s l m) → archive_ok (mkWorld s l Idle).
Proof. by intros [A1 A2 A3 A4 A5]. Qed.
Lemma move_step_ok w w' : move_step w w' → archive_ok w → archive_ok w'.
Proof.
  intros Hst Ha. destruct Hst as [s l name|s s' l name o id Hq H|s s' l name old o id rev Hr H|s l id name o a H|s l a name o now w a'|s l id r x a H1 H2 H3 H4 H5 H6|s s' l a n name o u H|s l m].
  - by apply archive_open.
  - by eapply archive_mark.
  - by eapply archive_remark.
  - by eapply archive_read.
  - by apply archive_append.
  - by eapply archive_found.
  - by eapply archive_delete.
  - by eapply archive_stop.
Qed.
Lemma arch_step_ok w w' : arch_step is_print w w' → archive_ok w → archive_ok w'.
Proof.
  intros [x y H|s s' l m H|s s' l m now c ref name o x a u H1 H2 H3 H4 H5] Ha; [by eapply move_step_ok|by eapply archive_board|by eapply archive_restore].
Qed.
End steps.
