(* ===== verification/ArchiveLife.v ===== *)
(** * No card is lost

    The history of a reference, wherever its card is, the passes of the sweep and the restore as
    runs of the machine, and a run in which a verdict lands between the check of the sweep and its
    mark. *)

From S2P Require Import Prelude GoString GoFloat Schema Sql Label Fixture Storage Names Messages Inboxes Cycles Launches Leases WorkViews BoardText Decisions Verdicts DeepArchive BoardProps BoardSteps VerdictProps BoardInvariant BoardLife ArchiveSteps ArchiveProps ArchiveInvariant PendingProps.
Open Scope Z_scope.

(** ** The history of a card *)

(** All rows of a card, without the columns of a move *)
Definition rows_of (a : decisionRecord) :
    Z * DecisionItemRow * gmap (Z * Z) RecipientRow * gmap Z VerdictRow * gmap (Z * Z) VerdictDeliveryRow * gmap Z WithdrawalRow :=
  (ar_ID a, unmarked (ar_Item a), list_to_map (ar_Recipients a), verdict_map a, list_to_map (ar_Deliveries a), withdrawal_map a).
(** The rows of the card with a reference: on the board, or in the line that its locator names *)
Definition history (w : world) (reference : string) :=
  match item_at reference (w_state w) with
  | Some (id, _) => rows_of <$> readDecisionRecord id (board (w_state w))
  | None => lo ← decision_deep_archive (board (w_state w)) !! reference;
            x ← read_line (w_logs w) (dl_file lo) (dl_offset lo);
            rows_of <$> ln_record x
  end.
Lemma rows_of_core a a' : core a' = core a → rows_of a' = rows_of a.
Proof. intros E. exact (f_equal rows_of E). Qed.
Lemma matches_rows b a : matches b a → rows_of <$> readDecisionRecord (ar_ID a) b = Some (rows_of a).
Proof. unfold matches. intros (a' & -> & E)%fmap_Some. cbn. f_equal. by apply rows_of_core. Qed.
Lemma history_item s l m id r reference : board_ok (board s) → decision_items (board s) !! id = Some r → di_reference r = reference →
  history (mkWorld s l m) reference = rows_of <$> readDecisionRecord id (board s).
Proof. intros Hb Hi <-. unfold history. cbn. by rewrite (item_at_unique _ _ _ Hb Hi). Qed.
Lemma item_at_absent s reference : (∀ id r, decision_items (board s) !! id = Some r → di_reference r ≠ reference) → item_at reference s = None.
Proof. intros H. destruct (item_at reference s) as [[id r]|] eqn:E; [|done]. apply item_at_Some in E as [Hi Hr]. by destruct (H _ _ Hi). Qed.
Lemma history_archived s l m reference lo : board_ok (board s) → decision_deep_archive (board s) !! reference = Some lo →
  history (mkWorld s l m) reference = x ← read_line l (dl_file lo) (dl_offset lo); rows_of <$> ln_record x.
Proof.
  intros Hb Hl. unfold history. cbn. rewrite item_at_absent, Hl; [done|]. intros id r Hi <-. by rewrite (bo_reserved _ Hb _ _ Hi) in Hl.
Qed.
Lemma history_unknown s l m reference : decision_deep_archive (board s) !! reference = None → item_at reference s = None → history (mkWorld s l m) reference = None.
Proof. intros H1 H2. unfold history. cbn. by rewrite H2, H1. Qed.
(** Two states with the same cards and locators agree on the history of a reference. *)
Lemma history_same s s' l l' m m' reference : board_ok (board s) → board_ok (board s') →
  (∀ lo, decision_deep_archive (board s) !! reference = Some lo → located (board s) l reference lo) → reads_kept l l' →
  decision_deep_archive (board s') !! reference = decision_deep_archive (board s) !! reference →
  (∀ id r, decision_items (board s) !! id = Some r → di_reference r = reference → ∃ r', decision_items (board s') !! id = Some r' ∧ di_reference r' = reference ∧
     rows_of <$> readDecisionRecord id (board s') = rows_of <$> readDecisionRecord id (board s)) →
  (item_at reference s = None → item_at reference s' = None) →
  history (mkWorld s' l' m') reference = history (mkWorld s l m) reference.
Proof.
  intros Hb Hb' Hl Hrk Ed Hi Hn. destruct (item_at reference s) as [[id r]|] eqn:E.
  - apply item_at_Some in E as [Hid Href]. destruct (Hi _ _ Hid Href) as (r' & Hid' & Href' & Er). by rewrite (history_item _ _ _ _ _ _ Hb Hid Href), (history_item _ _ _ _ _ _ Hb' Hid' Href').
  - specialize (Hn eq_refl). destruct (decision_deep_archive (board s) !! reference) as [lo|] eqn:El.
    + rewrite (history_archived _ _ _ _ _ Hb El), (history_archived _ _ _ _ _ Hb' Ed). destruct (Hl _ eq_refl) as (x & a & Hx & _). by rewrite Hx, (Hrk _ _ _ Hx).
    + rewrite !history_unknown; done.
Qed.

(** *** The rows that a record reads *)

Lemma map_of_list {K V} `{Countable K} (l : list (K * V)) (m : gmap K V) : (∀ k v, (k, v) ∈ l ↔ m !! k = Some v) → list_to_map l = m.
Proof.
  intros He. apply map_eq. intros k. apply option_eq. intros v. rewrite <-He. split; [apply elem_of_list_to_map_2|].
  intros Hin. apply elem_of_list_to_map_1'; [|done]. intros v' Hin'. apply He in Hin, Hin'. congruence.
Qed.
Lemma read_rows b id r : decision_items b !! id = Some r → rows_of <$> readDecisionRecord id b =
  Some (id, unmarked r, filter (λ kr, kr.1.1 = id) (decision_recipients b), verdicts_of b id,
        filter (λ kd, is_Some (verdicts_of b id !! kd.1.1)) (decision_deliveries b), withdrawals_of b id).
Proof.
  intros Hi. unfold readDecisionRecord. rewrite Hi. cbn. unfold rows_of, verdict_map, withdrawal_map. cbn. unfold verdict_of, withdrawal_of.
  rewrite (proj1 (by_id_map ve_item_id id _)), (proj1 (by_id_map dw_item_id id _)). do 3 f_equal; [|apply map_of_list].
  - do 2 f_equal. apply map_of_list. intros k x. rewrite elem_of_order_by, elem_of_select, map_lookup_filter_Some. unfold of_first. by rewrite Z.eqb_eq.
  - intros k d. rewrite list_elem_of_bind, map_lookup_filter_Some. cbn. split.
    + intros ([v x] & Hd & Hv). rewrite elem_of_order_by, elem_of_select in Hd. unfold of_first in Hd. rewrite Z.eqb_eq in Hd. cbn in Hd. destruct Hd as [Hl ->].
      split; [done|]. unfold by_id, of_item in Hv. rewrite elem_of_order_by, elem_of_select, Z.eqb_eq in Hv. exists x. by apply lookup_mine.
    + intros [Hl [x [Hx Hid]%lookup_mine]]. exists (k.1, x). rewrite elem_of_order_by, elem_of_select. unfold of_first. cbn. rewrite Z.eqb_refl. split; [done|].
      unfold by_id, of_item. by rewrite elem_of_order_by, elem_of_select, Z.eqb_eq.
Qed.

(** ** No step loses a row *)

Section life.
Variable is_print : Z → bool.

Lemma history_logs s l l' m m' reference : archive_ok (mkWorld s l m) → reads_kept l l' → history (mkWorld s l' m') reference = history (mkWorld s l m) reference.
Proof.
  intros [[Hb _] _ A3 _ _] Hrk. cbn [w_state w_logs w_mover] in *. apply history_same; [exact Hb|exact Hb|intros lo; apply A3|exact Hrk|reflexivity| |done]. intros id r Hi Hr. by exists r.
Qed.
Lemma history_mark s s' l m m' id r r' reference : archive_ok (mkWorld s l m) → board_ok (board s') → decision_items (board s) !! id = Some r →
  unmarked r' = unmarked r → s' = s <| board := (board s) <| decision_items := <[id := r']> (decision_items (board s)) |> |> →
  history (mkWorld s' l m') reference = history (mkWorld s l m) reference.
Proof.
  intros [[Hb _] _ A3 _ _] Hb' Hi E ->. cbn [w_state w_logs w_mover] in *. assert (di_reference r' = di_reference r) as Er by exact (f_equal di_reference E).
  apply history_same; [exact Hb|exact Hb'|intros lo; apply A3|by intros n k x|reflexivity| |].
  - intros j x Hj Hx. cbn. destruct (decide (j = id)) as [->|Hne].
    + assert (x = r) as -> by congruence. exists r'. rewrite lookup_insert_eq. split; [done|]. split; [congruence|].
      rewrite (read_rows _ _ r') by apply lookup_insert_eq. rewrite (read_rows _ _ r) by done. cbn. by rewrite E.
    + exists x. rewrite lookup_insert_ne by done. split; [done|]. split; [done|]. rewrite (read_rows _ _ x) by (cbn; by rewrite lookup_insert_ne). by rewrite (read_rows _ _ x).
  - intros Hn. apply item_at_absent. intros j x Hj. cbn in Hj. apply lookup_insert_Some in Hj as [[<- <-]|[_ Hj]]; [rewrite Er; by apply (item_at_None _ _ Hn id)|by apply (item_at_None _ _ Hn j)].
Qed.
Lemma history_delete s s' l a n name offset u m reference : archive_ok (mkWorld s l (Appended a n name offset)) →
  deleteMovedTx (ar_ID a) (ar_Reference a) (ar_Revision a) name offset n (ar_MovedAt a) s = Ok (u, s') →
  history (mkWorld s' l m) reference = history (mkWorld s l (Appended a n name offset)) reference.
Proof.
  intros Ha H. destruct (archive_delete _ _ _ _ _ _ _ _ Ha H) as (Ha' & Hmt & Hs). destruct Ha as [[Hb Hw] A2 A3 A4 [(x & Hx & Hn & Hxa) A6]], Ha' as [[Hb' _] _ _ _ _].
  cbn [w_state w_logs w_mover] in *. apply deleteMovedTx_Ok in H as (r & g & Hi & Hm & Hd & ->).
  assert (ar_Reference a = di_reference r) as Href by (unfold matches, readDecisionRecord in Hmt; rewrite Hi in Hmt; apply (inj Some) in Hmt; exact (eq_sym (f_equal ar_Reference Hmt))).
  set (b' := _ <| decision_deep_archive := _ |>) in *.
  destruct (decide (reference = ar_Reference a)) as [->|Hne].
  - rewrite (history_archived _ _ _ _ (mkLocatorRow name offset n (ar_MovedAt a)) Hb') by apply lookup_insert_eq. cbn. rewrite Hx. cbn. rewrite Hxa. cbn.
    rewrite (history_item _ _ _ _ r _ Hb Hi) by done. symmetry. by apply matches_rows.
  - apply history_same; [exact Hb|exact Hb'|intros lo; apply A3|by intros n' k y| | |].
    + change (<[ar_Reference a := mkLocatorRow name offset n (ar_MovedAt a)]> (decision_deep_archive (board s)) !! reference = decision_deep_archive (board s) !! reference).
      apply lookup_insert_ne. by apply not_eq_sym.
    + intros j y Hj Hy. assert (j ≠ ar_ID a) as Hja by (intros ->; congruence). destruct (without_item_rows (ar_ID a) j (board s) Hja) as [E1 E2 E3 E4 E5].
      assert (rows_same j (board s) b') as Hs' by by split. exists y. change (decision_items b' !! j = Some y ∧ di_reference y = reference ∧ rows_of <$> readDecisionRecord j b' = rows_of <$> readDecisionRecord j (board s)).
      rewrite (rs_item _ _ _ Hs'). split; [done|]. split; [done|]. by rewrite (rows_same_record _ _ _ Hs').
    + intros Hnone. apply item_at_absent. intros j y Hj. change (delete (ar_ID a) (decision_items (board s)) !! j = Some y) in Hj. apply lookup_delete_Some in Hj as [_ Hj].
      by apply (item_at_None _ _ Hnone j).
Qed.
(** A restore brings back exactly the rows of the line. *)
Lemma history_restore s s' l m now caller reference name offset x a u : clock_ok now → archive_ok (mkWorld s l m) → read_line l name offset = Some x →
  ln_record x = Some a → ar_Reference a = reference → restoreTx now caller reference name offset a s = Ok (u, s') →
  history (mkWorld s l m) reference = Some (rows_of a) ∧ history (mkWorld s' l m) reference = Some (rows_of (a <| ar_Item := restored_row now a |>)) ∧
  ∀ other, other ≠ reference → history (mkWorld s' l m) other = history (mkWorld s l m) other.
Proof.
  intros Hc Ha Hx Hxa Href H. destruct (archive_restore _ _ _ _ _ _ _ _ _ _ _ _ Hc Ha Hx Hxa Href H) as ([[Hb' _] _ _ _ _] & Hok & Hre & Eb & lo & Hlo & Hf & Ho).
  destruct Ha as [[Hb _] _ A3 _ _]. cbn [w_state w_logs w_mover] in *. destruct (restored_lookup now a reference (board s) Hok Hre) as (Hl & Hv & Hw & Hd & Hr).
  destruct (restored_rows now a reference (board s) Hb Hok Hre) as (Hoth & Ev & Ew). rewrite <-Eb in Hl, Hv, Hw, Hd, Hr, Hoth, Ev, Ew.
  assert (decision_items (board s') !! ar_ID a = Some (restored_row now a)) as Hi by (apply Hl; by left).
  assert (di_reference (ar_Item a) = reference) as Hir by (destruct (ro_named _ _ Hok) as [<- _]; done).
  destruct Hre as [D1 D2 D3 D4 D5 D6 [D7 D8]], Hok as [R1 _ _ [R4 R4'] R5 R6 R7 R8]. split; [|split].
  - rewrite (history_archived _ _ _ _ _ Hb Hlo), Hf, Ho, Hx. cbn. by rewrite Hxa.
  - rewrite (history_item _ _ _ _ _ _ Hb' Hi Hir), (read_rows _ _ _ Hi), Ev, Ew.
    assert (filter (λ kr, kr.1.1 = ar_ID a) (decision_recipients (board s')) = list_to_map (ar_Recipients a)) as ->.
    { symmetry. apply map_of_list. intros k y. rewrite map_lookup_filter_Some, Hr. cbn. split; [intros Hin; split; [by left|by eapply R7]|].
      intros [[?|Hl'] Hk]; [done|]. destruct (bo_recipients _ Hb _ _ Hl') as [z Hz]. rewrite Hk in Hz. congruence. }
    assert (filter (λ kd, is_Some (verdict_map a !! kd.1.1)) (decision_deliveries (board s')) = list_to_map (ar_Deliveries a)) as ->; [|done].
    symmetry. apply map_of_list. intros k d. rewrite map_lookup_filter_Some, Hd. cbn. split.
    + intros Hin. split; [by left|]. destruct (R8 _ _ Hin) as [Hk _]. unfold verdict_map. apply list_elem_of_fmap in Hk as ([v y] & -> & Hk). exists y. by apply elem_of_list_to_map.
    + intros [[?|Hl'] [y Hy]]; [done|]. destruct (bo_deliveries _ Hb _ _ Hl') as [[z Hz] _]. unfold verdict_map in Hy. apply elem_of_list_to_map_2 in Hy.
      assert (k.1 ∈ (ar_Verdicts a).*1) as Hk%D4 by (apply list_elem_of_fmap; by exists (k.1, y)). congruence.
  - intros other Hne. apply history_same; [done|done|intros lo'; apply A3|by intros n k y| | |].
    + rewrite Eb. apply lookup_delete_ne. by apply not_eq_sym.
    + intros j y Hj Hy. assert (j ≠ ar_ID a) as Hja by (intros ->; congruence). exists y. rewrite (rs_item _ _ _ (Hoth _ Hja)), (rows_same_record _ _ _ (Hoth _ Hja)). done.
    + intros Hnone. apply item_at_absent. intros j y [[-> ->]|[_ Hj]]%Hl; [change (di_reference (ar_Item a) ≠ other); congruence|by apply (item_at_None _ _ Hnone j)].
Qed.

(** C8: Nothing of a card is lost by the deep archive: every step of a move (its mark, the read of
    its record, the append, complete or cut short, a crash at any point, the completion in a later
    pass, and the deletion of its rows) keeps the whole history of every reference, on the board or
    in the line that its locator names, and keeps the invariant of the archive, provided that the
    card that it marks has no delivery that waits to be acknowledged: the sweep checks that before
    the transaction of the mark, which does not ([late_ack]). *)
Theorem archive_lossless w w' : archive_ok w → move_step w w' → archive_ok w' ∧ ∀ reference, history w' reference = history w reference.
Proof.
  intros Ha Hst. pose proof (move_step_ok _ _ Hst Ha) as Ha'. split; [done|]. intros reference.
  destruct Hst as [s l name|s s' l name o id Hq H|s s' l name old o id rev Hr H|s l id name o a H|s l a name o now v a'|s l id r x a H1 H2 H3 H4 H5 H6|s s' l a n name o u H|s l m].
  - apply history_logs; [done|]. pose proof (open_log_spec l name) as Ho. by destruct (open_log l name) as [l' k], Ho as (_ & Hk & _).
  - apply update_card_Ok in H as (r & Hi & _ & ->). eapply history_mark; [exact Ha|apply (ao_board _ Ha')|exact Hi| |reflexivity]. done.
  - apply update_card_Ok in H as (r & Hi & _ & ->). eapply history_mark; [exact Ha|apply (ao_board _ Ha')|exact Hi| |reflexivity]. done.
  - apply history_logs; [exact Ha|by intros n1 k1 y1].
  - apply history_logs; [done|]. destruct (ao_mover _ Ha) as [He _]. by destruct (append_spec l name o a' v He (proj1 (ao_sized _ Ha name))) as (_ & Hk & _).
  - apply history_logs; [exact Ha|by intros n1 k1 y1].
  - by eapply history_delete.
  - apply history_logs; [exact Ha|by intros n1 k1 y1].
Qed.
(** No transaction of the board touches the history of an archived reference. *)
Lemma board_history s s' l m reference : archive_ok (mkWorld s l m) → board_step is_print s s' → is_Some (decision_deep_archive (board s) !! reference) →
  history (mkWorld s' l m) reference = history (mkWorld s l m) reference.
Proof.
  intros Ha H [lo Hlo]. pose proof (archive_board _ _ _ _ _ Ha H) as Ha'. destruct (step_counted _ _ _ (ao_board _ Ha) H) as [_ Hd]. cbn in Hd.
  rewrite (history_archived _ _ _ _ _ (proj1 (ao_board _ Ha)) Hlo). by rewrite (history_archived s' _ _ _ lo (proj1 (ao_board _ Ha'))) by (by rewrite Hd).
Qed.

(** ** The code's runs *)

(** What the code runs between its own transactions is transactions of the board and others. *)
Definition calm (f : Store → Store) : Prop := ∀ st, rtc (board_step is_print) (tables st) (tables (f st)).
Record calm_run (r : MoveRun) : Prop := {
  cr_before_mark : calm (mv_before_mark r);
  cr_after_mark : calm (mv_after_mark r);
  cr_after_append : calm (mv_after_append r) }.
(** No verdict that waits for an acknowledgement lands between the check of the sweep and the
    mark of the move. *)
Definition none_judged (id : Z) (r : MoveRun) : Prop :=
  ∀ st, waits_for_ack id (board (tables st)) = false → waits_for_ack id (board (tables (mv_before_mark r st))) = false.
Abbreviation arch_steps := (rtc (arch_step is_print)).
Lemma lift_board s s' l m : rtc (board_step is_print) s s' → arch_steps (mkWorld s l m) (mkWorld s' l m).
Proof. induction 1 as [|x y z Hxy _ IH]; [done|]. eapply rtc_l; [by apply as_board|done]. Qed.
Lemma pending_step s p l m : arch_steps (mkWorld s l m) (mkWorld (s <| pending := p |>) l m).
Proof.
  apply rtc_once, as_board. eapply (bs_other _ _ _ (modify (λ s, s <| pending := p |>)) tt); [by intros t u t' [= _ <-]| |done].
  apply wf_of_keeps. by intros t u t' [= _ <-].
Qed.
Lemma write_plain {A} en (body : tx A) st r st' l m m' : write plain en body st = (r, st') →
  (∀ s0 a s1, s0 = (tables st) <| pending := None |> → body s0 = Ok (a, s1) → r = Ok a → arch_steps (mkWorld s0 l m) (mkWorld s1 l m')) →
  (∀ e s0, r = Err e → arch_steps (mkWorld s0 l m) (mkWorld s0 l m')) → arch_steps (mkWorld (tables st) l m) (mkWorld (tables st') l m').
Proof.
  intros Hw Hok Herr. destruct r as [a|e].
  - apply write_Ok in Hw as (s1 & Hb & -> & _). cbn in Hb. etrans; [apply (pending_step _ None)|]. etrans; [by eapply (Hok _ _ s1)|].
    unfold writeAudit. cbn. destruct (pending s1); apply pending_step.
  - apply write_Err in Hw as (-> & _). by eapply Herr.
Qed.
Lemma stop_steps s l m : arch_steps (mkWorld s l m) (mkWorld s l Idle).
Proof. apply rtc_once, as_move, mv_stop. Qed.
Lemma deleteMoved_steps en a n name offset st r st' l :
  deleteMoved en (ar_ID a) (ar_Reference a) (ar_Revision a) name offset n (ar_MovedAt a) st = (r, st') →
  arch_steps (mkWorld (tables st) l (Appended a n name offset)) (mkWorld (tables st') l Idle).
Proof.
  unfold deleteMoved, lenient. destruct (write plain en _ st) as [q st1] eqn:Hw. intros H. assert (st1 = st') as -> by (destruct q; [|destruct (_ || _)]; by injection H as _ <-).
  eapply write_plain; [exact Hw| |].
  - intros s0 x s1 _ Hb _. apply rtc_once, as_move. by eapply mv_deletes.
  - intros e s0 _. apply stop_steps.
Qed.
Lemma appendAndDelete_steps now w en other a name offset l st r st' l' : calm other → appendAndDelete now w en other a name offset l st = (r, st', l') →
  arch_steps (mkWorld (tables st) l (Holding a name offset)) (mkWorld (tables st') l' Idle).
Proof.
  intros Hc. unfold appendAndDelete. intros H. eapply rtc_l; [apply as_move, (mv_appends _ _ a name offset now w)|]. destruct w as [|n|].
  - destruct (deleteMoved _ _ _ _ _ _ _ _ _) as [q st1] eqn:Hd. injection H as <- <- <-. etrans; [apply lift_board, (Hc st)|]. by eapply deleteMoved_steps.
  - by injection H as <- <- <-.
  - by injection H as <- <- <-.
Qed.
(** A mark, by a move or by the completion of one, and what follows it *)
Lemma mark_steps {A} en (mark : tx bool) st l name offset id (k : bool → Store → result error A * Store * Logs) r st' l' :
  (∀ s0 s1, s0 = (tables st) <| pending := None |> → mark s0 = Ok (true, s1) → arch_steps (mkWorld s0 l (Opened name offset)) (mkWorld s1 l (Marked id name offset))) →
  (∀ st1 r st' l', k false st1 = (r, st', l') → st' = st1 ∧ l' = l) →
  (∀ st1 r st' l', k true st1 = (r, st', l') → arch_steps (mkWorld (tables st1) l (Marked id name offset)) (mkWorld (tables st') l' Idle)) →
  (match lenient (full_in_body en st) false (write plain en (changed ← mark; if changed : bool then mret true else throw Declined) st) with
   | (Err e, st1) => (Err e, st1, l)
   | (Ok b, st1) => k b st1
   end) = (r, st', l') →
  arch_steps (mkWorld (tables st) l (Opened name offset)) (mkWorld (tables st') l' Idle).
Proof.
  intros Hm Hf Ht. destruct (write plain en _ st) as [[b|e] st1] eqn:Hw; cbn.
  - intros H. assert (b = true) as ->. { apply write_Ok in Hw as (s1 & Hb & _). cbn in Hb. apply bind_Ok in Hb as (c & s2 & _ & Hb). destruct c; [|done]. by apply ret_Ok in Hb as [= ->]. }
    etrans; [|by eapply Ht]. eapply write_plain; [exact Hw| |done]. intros s0 x s1 E Hb _. apply bind_Ok in Hb as (c & s2 & Hc & Hb). destruct c; [|done]. apply ret_Ok in Hb as [= _ ->]. by apply Hm.
  - apply write_Err in Hw as (Et & _). intros H. destruct (_ || _).
    + apply Hf in H as [-> ->]. rewrite Et. apply stop_steps.
    + injection H as _ <- <-. rewrite Et. apply stop_steps.
Qed.

Lemma moveDecision_steps now now' run_ id l st r st' l' : calm_run run_ → none_judged id run_ → waits_for_ack id (board (tables st)) = false →
  moveDecision now now' run_ id l st = (r, st', l') → arch_steps (mkWorld (tables st) l Idle) (mkWorld (tables st') l' Idle).
Proof.
  intros [C1 C2 C3] Hn Hq H. unfold moveDecision in H. set (name := log_name now) in H. clearbody name. pose proof (as_move is_print _ _ (mv_open (tables st) l name)) as Ho. destruct (open_log l name) as [l1 o]. cbn in Ho.
  eapply rtc_l; [exact Ho|]. etrans; [apply lift_board, (C1 st)|]. specialize (Hn _ Hq).
  eapply (mark_steps (mv_mark run_) (markTx name o id) _ _ _ _ id
    (λ b st1, if b : bool then let st2 := mv_after_mark run_ st1 in
       match readDecisionRecord id (board (tables st2)) with
       | None => (Ok tt, st2, l1)
       | Some a => appendAndDelete now' (mv_append run_) (mv_delete run_) (mv_after_append run_) a name o l1 st2
       end else (Ok tt, st1, l1))); [| | |].
  4: { etrans; [|exact H]. destruct (lenient _ _ _) as [[b|e] st1]; [|done]. by destruct b. }
  - intros s0 s1 -> Hm. apply rtc_once, as_move. by apply mv_marks.
  - cbn. by intros st1 q st2 l2 [= _ <- <-].
  - cbn. intros st1 q st2 l2 Hk. etrans; [apply lift_board, (C2 st1)|]. destruct (readDecisionRecord id (board (tables (mv_after_mark run_ st1)))) as [a|] eqn:Er.
    + eapply rtc_l; [by apply as_move, mv_read|]. by eapply appendAndDelete_steps.
    + injection Hk as _ <- <-. apply stop_steps.
Qed.
Lemma finishMove_steps now run_ id l st r st' l' : calm_run run_ → archive_ok (mkWorld (tables st) l Idle) →
  finishMove now run_ id l st = (r, st', l') → arch_steps (mkWorld (tables st) l Idle) (mkWorld (tables st') l' Idle).
Proof.
  intros [C1 C2 C3] Ha H. unfold finishMove in H. destruct (decision_items (board (tables st)) !! id) as [x|] eqn:Hi; [|by injection H as _ <- <-].
  destruct (Z.leb_spec (di_mark_revision x) 0) as [|Hm]; [by injection H as _ <- <-|].
  destruct (y ← read_line l (di_mark_file x) (di_mark_offset x); _) as [[n a]|] eqn:Hl.
  - apply bind_Some in Hl as (y & Hy & Hl). apply bind_Some in Hl as (a' & Hya & Hl). destruct (_ && _) eqn:E; [|done]. injection Hl as <- <-.
    apply andb_true_iff in E as [<-%Z.eqb_eq E2%Z.eqb_eq].
    assert (di_reference x = ar_Reference a') as Href.
    { destruct (ao_marks _ Ha _ _ Hi) as [_ Hmt]; [lia|]. specialize (Hmt _ _ (read_full _ _ _ _ Hy) Hya eq_refl E2). unfold matches, readDecisionRecord in Hmt.
      cbn [w_state] in Hmt. rewrite Hi in Hmt. apply (inj Some) in Hmt. exact (f_equal ar_Reference Hmt). }
    eapply rtc_l; [by eapply as_move, mv_found|]. destruct (deleteMoved _ _ _ _ _ _ _ _ _) as [q st1] eqn:Hd. injection H as _ <- <-. etrans; [apply lift_board, (C3 st)|].
    rewrite Href, <-E2 in Hd. by eapply deleteMoved_steps.
  - pose proof (as_move is_print _ _ (mv_open (tables st) l (di_mark_file x))) as Ho. destruct (open_log l (di_mark_file x)) as [l1 o]. cbn in Ho.
    eapply rtc_l; [exact Ho|]. etrans; [apply lift_board, (C1 st)|].
    eapply (mark_steps (mv_mark run_) (remarkTx (di_mark_file x) (di_mark_offset x) o id (di_mark_revision x)) _ _ _ _ id
      (λ b st1, if b : bool then let st2 := mv_after_mark run_ st1 in
         match readDecisionRecord id (board (tables st2)) with
         | None => (Ok tt, st2, l1)
         | Some a => appendAndDelete now (mv_append run_) (mv_delete run_) (mv_after_append run_) a (di_mark_file x) o l1 st2
         end else (Ok tt, st1, l1))); [| | |].
    4: { etrans; [|exact H]. destruct (lenient _ _ _) as [[b|e] st1]; [|done]. by destruct b. }
    + intros s0 s1 -> Hr. apply rtc_once, as_move. by eapply mv_remarks.
    + cbn. by intros st1 q st2 l2 [= _ <- <-].
    + cbn. intros st1 q st2 l2 Hk. etrans; [apply lift_board, (C2 st1)|]. destruct (readDecisionRecord id (board (tables (mv_after_mark run_ st1)))) as [a|] eqn:Er.
      * eapply rtc_l; [by apply as_move, mv_read|]. by eapply appendAndDelete_steps.
      * injection Hk as _ <- <-. apply stop_steps.
Qed.
Lemma arch_steps_ok w w' : arch_steps w w' → archive_ok w → archive_ok w'.
Proof. induction 1 as [|x y z Hxy _ IH]; intros Ha; [done|]. by eapply IH, arch_step_ok. Qed.
Lemma finish_all_steps now runs : (∀ id, calm_run (runs id)) → ∀ ids l st r st' l', archive_ok (mkWorld (tables st) l Idle) →
  finish_all now runs ids l st = (r, st', l') → arch_steps (mkWorld (tables st) l Idle) (mkWorld (tables st') l' Idle).
Proof.
  intros Hc. induction ids as [|id ids IH]; intros l st r st' l' Ha H; cbn in H; [by injection H as _ <- <-|].
  destruct (finishMove now (runs id) id l st) as [[q st1] l1] eqn:E. pose proof (finishMove_steps _ _ _ _ _ _ _ _ (Hc id) Ha E) as Hs.
  destruct q as [u|e]; [|by injection H as _ <- <-]. etrans; [exact Hs|]. eapply IH; [by eapply arch_steps_ok|done].
Qed.
Lemma move_all_steps now runs : (∀ id, calm_run (runs id) ∧ none_judged id (runs id)) → ∀ cs budget cursor l st r st' l' cursor',
  move_all now runs budget cs cursor l st = (r, st', l', cursor') → arch_steps (mkWorld (tables st) l Idle) (mkWorld (tables st') l' Idle).
Proof.
  intros Hc. induction cs as [|[id x] cs IH]; intros budget cursor l st r st' l' cursor' H; cbn [move_all] in H; [by injection H as _ <- <- _|].
  destruct (waits_for_ack id (board (tables st))) eqn:Hq; [by eapply IH|]. destruct (moveDecision now now (runs id) id l st) as [[q st1] l1] eqn:E.
  destruct (Hc id) as [Hc1 Hc2]. pose proof (moveDecision_steps _ _ _ _ _ _ _ _ _ Hc1 Hc2 Hq E) as Hs. destruct q as [u|e]; [|by injection H as _ <- <- _].
  destruct budget as [|[|budget]]; [by injection H as _ <- <- _..|]. etrans; [exact Hs|]. by eapply IH.
Qed.

(** C9: A pass of the sweep, whatever transactions of the board run between its own (none of them
    gives a card a waiting delivery between its check and its mark), whatever write fails, and wherever an append is cut short, is a run of the machine and keeps its
    invariant: every locator names a complete line with the whole record of its card, a marked
    card has no delivery that waits and agrees with any line at its mark, and the references of
    cards and locators are disjoint. *)
Theorem sweep_invariant now finishes runs cursor l st r st' l' cursor' :
  (∀ id, calm_run (finishes id)) → (∀ id, calm_run (runs id) ∧ none_judged id (runs id)) → archive_ok (mkWorld (tables st) l Idle) →
  archiveDecisions now finishes runs cursor l st = (r, st', l', cursor') →
  archive_ok (mkWorld (tables st') l' Idle) ∧ arch_steps (mkWorld (tables st) l Idle) (mkWorld (tables st') l' Idle).
Proof.
  intros Hf Hr Ha H. assert (arch_steps (mkWorld (tables st) l Idle) (mkWorld (tables st') l' Idle)) as Hs; [|split; [by eapply arch_steps_ok|done]].
  unfold archiveDecisions in H. destruct (finish_all _ _ _ _ _) as [[q st1] l1] eqn:E. pose proof (finish_all_steps _ _ Hf _ _ _ _ _ _ Ha E) as Hs.
  destruct q as [u|e]; [|by injection H as _ <- <- _]. destruct (move_all _ _ _ _ _ _ _) as [[[answer st2] l2] c2] eqn:E2. injection H as _ <- <- _.
  etrans; [exact Hs|]. by eapply move_all_steps.
Qed.

(** C10: A restore of a reference in the deep archive brings the card back with exactly the rows
    that it had, archived now, and frees its locator; every other reference keeps its history. *)
Theorem restore_roundtrip now_reopen now enr en other caller reference ifRevision l st item st' : calm other →
  archive_ok (mkWorld (tables st) l Idle) → clock_ok now →
  DecisionRestore is_print now_reopen now enr en other caller reference ifRevision l st = (Ok item, st') →
  fst (write plain enr (reopenTx now_reopen caller reference ifRevision) st) = Err Declined →
  ∃ a st2, rtc (board_step is_print) (tables st) (tables st2) ∧ history (mkWorld (tables st2) l Idle) reference = Some (rows_of a) ∧
    history (mkWorld (tables st') l Idle) reference = Some (rows_of (a <| ar_Item := restored_row now a |>)) ∧
    (∀ ref, ref ≠ reference → history (mkWorld (tables st') l Idle) ref = history (mkWorld (tables st2) l Idle) ref) ∧
    decision_deep_archive (board (tables st')) !! reference = None ∧ archive_ok (mkWorld (tables st') l Idle).
Proof.
  intros Hc Ha Hclk H Hd. unfold DecisionRestore in H. destruct (first_error _); [done|].
  destruct (write plain enr (reopenTx now_reopen caller reference ifRevision) st) as [q st1] eqn:Hw. cbn in Hd. subst q. rewrite bool_decide_true in H by done. cbn [negb] in H. apply write_Err in Hw as (Et & _).
  set (st2 := other st1) in *. assert (rtc (board_step is_print) (tables st) (tables st2)) as Hst by (rewrite <-Et; apply Hc).
  assert (archive_ok (mkWorld (tables st2) l Idle)) as Ha2 by (eapply arch_steps_ok; [by apply lift_board|done]).
  destruct (decision_deep_archive (board (tables st2)) !! reference) as [lo|]; [|done].
  destruct (x ← read_line l (dl_file lo) (dl_offset lo); _) as [a|] eqn:Hl; [|done].
  apply bind_Some in Hl as (x & Hx & Hl). apply bind_Some in Hl as (a' & Hxa & Hl). destruct (_ && _) eqn:E; [|done]. injection Hl as <-.
  apply andb_true_iff in E as [_ Href%seqb_true]. destruct (write plain en _ st2) as [[u|e] st3] eqn:Hw2; [|done]. injection H as _ <-.
  apply write_Ok in Hw2 as (s1 & Hb & Et3 & _). cbn in Hb.
  set (s0 := (tables st2) <| pending := None |>) in *. pose proof (arch_steps_ok _ _ (pending_step (tables st2) None l Idle) Ha2) as Ha0. fold s0 in Ha0.
  destruct (history_restore _ _ _ _ _ _ _ _ _ _ _ _ Hclk Ha0 Hx Hxa Href Hb) as (H1 & H2 & H3).
  destruct (archive_restore _ _ _ _ _ _ _ _ _ _ _ _ Hclk Ha0 Hx Hxa Href Hb) as (Ha1 & _ & _ & Eb & _).
  assert (∃ p, tables st3 = s1 <| pending := p |>) as [p Ep] by (rewrite Et3; unfold writeAudit; cbn; destruct (pending s1); eauto).
  exists a', st2. split; [done|]. split; [exact H1|]. rewrite Ep. split; [exact H2|]. split; [exact H3|]. split.
  - change (decision_deep_archive (board s1) !! reference = None). rewrite Eb. apply lookup_delete_eq.
  - exact (arch_steps_ok _ _ (pending_step s1 p l Idle) Ha1).
Qed.
End life.
