(* ===== verification/ArchiveCases.v ===== *)
(** * The card of the small installation in the deep archive

    A declined card whose deliveries are acknowledged, its move by a pass of the sweep a month
    later, its restore, and a pass in which an edit and a new verdict land between the check of
    the sweep and its mark, with an acknowledgement that such a pass loses. *)

From S2P Require Import Prelude GoString GoFloat Schema Sql Label Fixture Storage Names Messages Inboxes InboxProps Cycles Launches Leases WorkViews BoardText Decisions Verdicts DeepArchive BoardProps BoardSteps VerdictProps BoardInvariant BoardLife ArchiveSteps ArchiveProps ArchiveInvariant PendingProps ArchiveLife.
Open Scope Z_scope.

(** ** The states *)

Definition declined : State := after (verdictTx printable 22 "page" card_name 1 "declined" "") card_made.
Definition acked_by_b : State := after (ackTx_ 24 peer_b [1]) declined.
Definition settled : State := after (ackTx_ 25 peer_a [1]) acked_by_b.
Definition settled_store : Store := small_store <| tables := settled |>.
Definition month_later : Z := 22 + decisionArchiveAfter + 1.
Definition quiet_move (_ : Z) : MoveRun := mkMoveRun engine_ok engine_ok Written id id id.
Definition swept := archiveDecisions month_later quiet_move quiet_move (0, 0) ∅ settled_store.
Definition swept_store : Store := (swept.1.1).2.
Definition swept_logs : Logs := (swept.1).2.

Lemma settled_steps : rtc (board_step printable) small_state settled.
Proof.
  destruct (run_after (verdictTx printable 22 "page" card_name 1 "declined" "") card_made) as [v E1]; [by vm_compute|].
  destruct (run_after (ackTx_ 24 peer_b [1]) declined) as [c E2]; [by vm_compute|]. destruct (run_after (ackTx_ 25 peer_a [1]) acked_by_b) as [d E3]; [by vm_compute|].
  destruct card_steps as (S1 & _). eapply rtc_l; [exact S1|]. eapply rtc_l; [eapply bs_verdict; [|exact E1]; unfold clock_ok, never; lia|].
  eapply rtc_l; [eapply bs_ack, E2|]. eapply rtc_once, bs_ack, E3.
Qed.
Lemma fresh_archive_ok s : board_inv s → decision_deep_archive (board s) = ∅ → (∀ id r, decision_items (board s) !! id = Some r → (di_mark_revision r =? 0) = true) →
  archive_ok (mkWorld s ∅ Idle).
Proof.
  intros Hi Ed Hm. split; cbn [w_state w_logs w_mover].
  - exact Hi.
  - intros name. unfold log_of. rewrite lookup_empty. cbn. split; [constructor|lia].
  - intros reference lo. rewrite Ed, lookup_empty. discriminate.
  - intros id r Hr Hn. by apply Hm, Z.eqb_eq in Hr.
  - exact I.
Qed.
Lemma settled_ok : archive_ok (mkWorld settled ∅ Idle).
Proof.
  apply fresh_archive_ok; [exact (board_steps_inv printable _ _ small_board settled_steps)|vm_compute; reflexivity|].
  apply (all_rows (λ _ r, di_mark_revision r =? 0)). vm_compute. reflexivity.
Qed.
Lemma quiet_calm id : calm_run printable (quiet_move id) ∧ none_judged id (quiet_move id).
Proof. split; [split; intros st; apply rtc_refl|by intros st]. Qed.
Lemma swept_moved : archiveDecisions month_later quiet_move quiet_move (0, 0) ∅ settled_store = (Ok tt, swept_store, swept_logs, (0, 0)) ∧
  decision_items (board (tables swept_store)) = ∅ ∧ size (decision_deep_archive (board (tables swept_store))) = 1%nat.
Proof. vm_compute. split_and!; reflexivity. Qed.

(** ** The move, step by step *)

Definition file_name : string := log_name month_later.
Definition marked_state : State := after (markTx file_name 0 the_card) settled.
Definition the_record : decisionRecord := 
  (default (mkArchiveRecord 0 "" 0 (new_item 0 peer_a "" no_fields "" "") [] [] [] [] 0) (readDecisionRecord the_card (board marked_state))) <| ar_MovedAt := month_later |>.
Definition opened_logs : Logs := (open_log ∅ file_name).1.
Definition written_logs : Logs := append_line opened_logs file_name the_record Written.
Definition deleted_state : State := after (deleteMovedTx (ar_ID the_record) (ar_Reference the_record) (ar_Revision the_record) file_name 0 (ln_length (record_line the_record)) month_later) marked_state.
Abbreviation appended_world := (mkWorld marked_state written_logs (Appended the_record (ln_length (record_line the_record)) file_name 0)).
Lemma appended_ok : archive_ok appended_world.
Proof.
  eapply (arch_steps_ok printable); [|exact settled_ok].
  eapply rtc_l; [apply as_move, (mv_open settled ∅ file_name)|].
  assert ((open_log ∅ file_name).2 = 0) as -> by (vm_compute; reflexivity).
  assert (markTx file_name 0 the_card settled = Ok (true, marked_state)) as Hm by (vm_compute; reflexivity).
  eapply rtc_l; [apply as_move, (mv_marks settled marked_state opened_logs file_name 0 the_card); [vm_compute; reflexivity|exact Hm]|].
  assert (∃ a, readDecisionRecord the_card (board marked_state) = Some a ∧ the_record = a <| ar_MovedAt := month_later |>) as (a & Ha & Er)
    by (eexists; split; [vm_compute; reflexivity|vm_compute; reflexivity]).
  eapply rtc_l; [apply as_move, (mv_read marked_state opened_logs the_card file_name 0 a), Ha|]. pose proof (mv_appends marked_state opened_logs a file_name 0 month_later Written) as H. cbv zeta in H.
  rewrite <-Er in H. by apply rtc_once, as_move.
Qed.
Lemma archive_lossless_witness : item_at card_name marked_state ≠ None ∧ item_at card_name deleted_state = None ∧
  history (mkWorld deleted_state written_logs Idle) card_name = history appended_world card_name ∧ is_Some (history appended_world card_name).
Proof.
  assert (deleteMovedTx (ar_ID the_record) (ar_Reference the_record) (ar_Revision the_record) file_name 0 (ln_length (record_line the_record)) (ar_MovedAt the_record) marked_state =
    Ok (tt, deleted_state)) as Hd by (vm_compute; reflexivity).
  assert (bool_decide (is_Some (history appended_world card_name)) = true) as Hs by (vm_compute; reflexivity). apply bool_decide_eq_true in Hs.
  split; [vm_compute; discriminate|]. split; [vm_compute; reflexivity|]. split; [|exact Hs].
  exact (proj2 (archive_lossless _ _ appended_ok (mv_deletes _ _ _ _ _ _ _ _ Hd)) card_name).
Defined.
Lemma sweep_invariant_witness : archive_ok (mkWorld (tables swept_store) swept_logs Idle) ∧ decision_items (board (tables swept_store)) = ∅ ∧
  size (decision_deep_archive (board (tables swept_store))) = 1%nat.
Proof.
  destruct swept_moved as (E & H1 & H2). split; [|split; [exact H1|exact H2]].
  exact (proj1 (sweep_invariant printable month_later quiet_move quiet_move (0, 0) ∅ settled_store (Ok tt) swept_store swept_logs (0, 0)
    (λ id, proj1 (quiet_calm id)) quiet_calm settled_ok E)).
Defined.

(** ** The restore *)

Definition restore_answer := DecisionRestore printable 30 30 engine_ok engine_ok id peer_a card_name 0 swept_logs swept_store.
Lemma restore_roundtrip_witness : ∃ item st' a, restore_answer = (Ok item, st') ∧
  history (mkWorld (tables st') swept_logs Idle) card_name = Some (rows_of (a <| ar_Item := restored_row 30 a |>)) ∧
  decision_deep_archive (board (tables st')) !! card_name = None.
Proof.
  assert (match restore_answer with (Ok _, _) => true | _ => false end = true) as Hr by (vm_compute; reflexivity).
  destruct restore_answer as [[item|e] st'] eqn:E; [|discriminate Hr]. exists item, st'.
  destruct sweep_invariant_witness as (Ha & _).
  destruct (restore_roundtrip printable 30 30 engine_ok engine_ok id peer_a card_name 0 swept_logs swept_store item st') as (a & st2 & _ & H1 & H2 & _ & H3 & _).
  - intros st. apply rtc_refl.
  - exact Ha.
  - unfold clock_ok, never. lia.
  - exact E.
  - vm_compute. reflexivity.
  - exists a. split; [reflexivity|].
    split; [exact H2|exact H3].
Defined.

(** ** A verdict between the check of the sweep and the mark *)

(** Peer a edits the settled card and the maintainer declines it again, after the sweep saw that no
    delivery waits and before it marks the card. *)
Definition edit_and_judge (st : Store) : Store :=
  st <| tables := after (verdictTx printable 41 "page" card_name 2 "declined" "") (after (editTx 40 peer_a card_name 1 edit_fields) (tables st)) |>.
Definition hasty_move (_ : Z) : MoveRun := mkMoveRun engine_ok engine_ok Written edit_and_judge id id.
Definition hasty := archiveDecisions month_later quiet_move hasty_move (0, 0) ∅ settled_store.
Definition hasty_store : Store := (hasty.1.1).2.
(** The pass moves the card that was judged just now: the new verdict waits for peer b before the
    mark, and after the pass nothing waits for peer b although it never acknowledged the verdict. *)
Lemma judged_before_mark : hasty.1.1.1 = Ok tt ∧ callerNames 42 peer_b (tables (edit_and_judge settled_store)) = ["codex-x-0b"]%string ∧
  awaiting ["codex-x-0b"]%string 0 (tables (edit_and_judge settled_store)) = [2] ∧
  decision_items (board (tables hasty_store)) = ∅ ∧ awaiting ["codex-x-0b"]%string 0 (tables hasty_store) = [].
Proof. vm_compute. split_and!; reflexivity. Qed.
(** When peer b acknowledges that verdict after the pass read the record of the card, the archive
    ends as if it had not. *)
Definition acknowledge (st : Store) : Store := st <| tables := after (ackTx_ 50 peer_b [2]) (tables st) |>.
Definition late_move (_ : Z) : MoveRun := mkMoveRun engine_ok engine_ok Written edit_and_judge id acknowledge.
Definition late := archiveDecisions month_later quiet_move late_move (0, 0) ∅ settled_store.
Lemma late_ack : (vd_acknowledged_at <$> decision_deliveries (board (tables (acknowledge (edit_and_judge settled_store)))) !! (2, 0)) = Some 50 ∧ late.1.1.1 = Ok tt ∧
  decision_items (board (tables (late.1.1).2)) = ∅ ∧ is_Some (history (mkWorld (tables (late.1.1).2) late.1.2 Idle) card_name) ∧
  history (mkWorld (tables (late.1.1).2) late.1.2 Idle) card_name = history (mkWorld (tables hasty_store) hasty.1.2 Idle) card_name.
Proof.
  split; [vm_compute; reflexivity|]. split; [vm_compute; reflexivity|]. split; [vm_compute; reflexivity|]. split; [|vm_compute; reflexivity].
  apply (bool_decide_unpack _). vm_compute. exact I.
Qed.
