(* ===== verification/LibraryDecisions.v ===== *)
(** * Reported library decisions (internal/core/library_decision.go, internal/core/library_project.go)

    The outcome of an adoption that a session reports: the compared-revision state of a machine,
    and the receipt of a project, which is a memory note.  The strict decoding of a stored
    decision and of the descriptors of a catalog item are parameters; the catalog is an
    argument, as the binary embeds it. *)

From S2P Require Import Prelude GoString GoFloat Schema Sql Label Fixture Storage Names Messages Cycles Participants Leases WorkViews MemoryLimits MemoryExpiry Library BoardText Decisions.
Open Scope Z_scope.

Definition maxMachineDecisions : Z := 256.
Definition maxMachineDecisionBodies : Z := Z.shiftl 2 20.

Record LibraryDecisionRecord := mkLibraryRecord { lr_Revision : Z; lr_Decision : Decision; lr_Unchanged : bool }.

Section machine.
Context `{SHA : Sha256}.
Variable decode_links : string → option (list Link).
Variable decode_commands : string → option (list Command).
Variable decode_decision : string → option Decision.

(** [machineDecision] *)
Definition machineDecision (family root item : string) (s : State) : result error (option LibraryDecisionRecord) :=
  match library_decisions s !! (family, root, item) with
  | None => Ok None
  | Some r => match ParseDecision decode_decision (lb_body r) with
              | Some d => Ok (Some (mkLibraryRecord (lb_revision r) d false))
              | None => Err (Refusal "decision_unavailable")
              end
  end.
(** [LibraryDecisionRead] *)
Definition LibraryDecisionRead (now : Z) (caller : Key) (root item : string) (st : Store) : result error (option LibraryDecisionRecord) :=
  if negb (ValidDigest root) || seqb item "" || (128 <? len item) then Err ErrInvalid
  else read (_ ← check (active now caller); (λ s, match machineDecision (Family caller) root item s with Ok r => Ok (r, s) | Err e => Err e end) : tx _) st.

(** The write of a decision: the room for a new row and for the bytes of all bodies, and the row *)
Definition body_bytes (s : State) : Z := sum_of (λ r, len (lb_body r)) (library_decisions s).
Definition decisionTx (now : Z) (clock : float) (caller : Key) (root item body : string) (current : option LibraryDecisionRecord) : tx unit :=
  _ ← check (active now caller);
  rows ← gets (λ s, Z.of_nat (size (library_decisions s)));
  bytes ← gets body_bytes;
  _ ← ensure (bool_decide (is_Some current) || (rows <? maxMachineDecisions)) (Refusal "decision_capacity");
  let bytes := match current with Some r => bytes - len (default ""%string (Encode (lr_Decision r))) | None => bytes end in
  _ ← ensure (bytes + len body <=? maxMachineDecisionBodies) (Refusal "decision_capacity");
  let actual := from_option lr_Revision 0 current in
  modify (λ s, s <| library_decisions :=
    <[(Family caller, root, item) := mkLibraryRow (actual + 1) body (nativeWorkActorForKey caller) clock]> (library_decisions s) |>).
Definition decision_refused : error := Refusal "invalid_library_decision".
(** [LibraryDecision].  Its lock admits one such call at a time, so nothing else changes the table
    between the read of the current decision in [st0] and the write in [st]. *)
Definition LibraryDecision (now_read now : Z) (clock : float) (en : Engine) (caller : Key) (catalog : Catalog) (root : string) (compared : Z) (d : Decision)
    (st0 st : Store) : result error LibraryDecisionRecord * Store :=
  if (compared <? 0) || negb (ValidDigest root) || negb (ValidateCurrent decode_links decode_commands catalog d (Family caller) "machine" root)
  then (Err decision_refused, st)
  else match active now_read caller (tables st0) with
  | Some e => (Err e, st)
  | None =>
      match machineDecision (Family caller) root (d_ItemID d) (tables st0) with
      | Err e => (Err e, st)
      | Ok current =>
          let d := PreserveBaseline d (lr_Decision <$> current) in
          match Encode d with
          | None => (Err decision_refused, st)
          | Some body =>
              match (match current with
                     | Some r => match Encode (lr_Decision r) with
                                 | None => Err EngineError
                                 | Some old => Ok (if seqb old body then Some (mkLibraryRecord (lr_Revision r) (lr_Decision r) true) else None)
                                 end
                     | None => Ok None
                     end) with
              | Err e => (Err e, st)
              | Ok (Some unchanged) => (Ok unchanged, st)
              | Ok None =>
                  let actual := from_option lr_Revision 0 current in
                  if negb (actual =? compared) then (Err (WorkRefusal "decision_conflict" (CurrentDecision (lr_Revision <$> current))), st)
                  else match write plain en (decisionTx now clock caller root (d_ItemID d) body current) st with
                       | (Ok _, st') => (Ok (mkLibraryRecord (actual + 1) d false), st')
                       | (Err e, st') => (Err e, st')
                       end
              end
          end
      end
  end.

(** ** Receipts of a project *)

(** json.Unmarshal of a note's body into the marker's struct ([libraryDecisionMarked]) *)
Variable json_library : string → option string.
(** SQLite's LIKE, with its escape character, of a text with a pattern *)
Variable like : option ascii → string → string → bool.

(** [validateProjectDecision]; [libraryCatalog] is the catalog or the failure to load it. *)
Definition same_receipt (m : MemoryCaller) (d old : Decision) (family : string) : bool :=
  seqb family (mc_Family m) && seqb (d_Family old) family && seqb (d_ScopeDigest old) (d_ScopeDigest d) && seqb (d_ItemID old) (d_ItemID d) &&
  seqb (d_Kind old) (d_Kind d).
Definition validateProjectDecision (libraryCatalog : result error Catalog) (m : MemoryCaller) (type_ scope body : string) (supersedes : option Z)
    (s : State) : option error :=
  if negb (libraryDecisionMarked json_library body) then None
  else match ParseDecision decode_decision body with
  | None => Some decision_refused
  | Some d =>
      if negb (seqb type_ "decision") || negb (seqb scope "repo") || negb (seqb (mc_Family m) (d_Family d)) || negb (seqb (d_Scope d) "project")
      then Some decision_refused
      else match libraryCatalog with
      | Err e => Some e
      | Ok c =>
          if negb (ValidateCurrent decode_links decode_commands c d (mc_Family m) "project" (ScopeDigest "project" (mc_Repository m))) then Some decision_refused
          else
            match (match supersedes with
                   | None => Ok None
                   | Some seq =>
                       match memory_entries s !! (mc_Repository m, seq) with
                       | None => Err (Refusal "decision_unavailable")
                       | Some e => match ParseDecision decode_decision (en_body e) with
                                   | Some old => if same_receipt m d old (en_writer_family e) then Ok (Some old) else Err decision_refused
                                   | None => Err decision_refused
                                   end
                       end
                   end) with
            | Err e => Some e
            | Ok previous =>
                if bool_decide (OrderedTargets (d_Adopted d) = OrderedTargets (d_Adopted (PreserveBaseline d previous))) then None
                else Some decision_refused
            end
      end
  end.

(** [libraryReceiptHistory]: the receipts that are gone, the newest of each item first *)
Record libraryUnavailableReceipt := mkUnavailable { un_ItemID : string; un_Family : string; un_ScopeDigest : string; un_Kind : string; un_Reason : string }.
Definition gone_receipt (repo : string) (clock : float) (k : string * Z) (e : EntryRow) : bool :=
  seqb k.1 repo && seqb (en_type e) "decision" && bool_decide (en_superseded_by e = None) &&
  (bool_decide (is_Some (en_revoked_by e)) || match en_expires e with Some x => fleb x clock | None => false end) &&
  like None ("%" +:+ DecisionMarker +:+ "%") (en_body e).
Definition receipt_of (e : EntryRow) : option libraryUnavailableReceipt :=
  d ← ParseDecision decode_decision (en_body e);
  if negb (seqb (d_Family d) (en_writer_family e)) || negb (seqb (d_Scope d) "project") then None
  else Some (mkUnavailable (d_ItemID d) (en_writer_family e) (d_ScopeDigest d) (d_Kind d)
               (if bool_decide (is_Some (en_revoked_by e)) then "decision_revoked" else "decision_expired")).
Definition receipt_key (u : libraryUnavailableReceipt) : string * string * string * string := (un_ItemID u, un_Family u, un_ScopeDigest u, un_Kind u).
(** The first receipt of each key, at most [room]; whether one more was there *)
Fixpoint first_receipts (room : nat) (seen : list (string * string * string * string)) (l : list libraryUnavailableReceipt) : list libraryUnavailableReceipt * bool :=
  match l with
  | [] => ([], false)
  | u :: l =>
      if bool_decide (receipt_key u ∈ seen) then first_receipts room seen l
      else match room with
           | O => ([], true)
           | S room => let '(rest, over) := first_receipts room (receipt_key u :: seen) l in (u :: rest, over)
           end
  end.
Record LibraryHistory := mkLibraryHistory { lh_floor : Z; lh_unavailable : list libraryUnavailableReceipt; lh_incomplete : bool }.
Definition libraryReceiptHistory (m : MemoryCaller) (clock : float) (s : State) : LibraryHistory :=
  let rows := rev (order_by (λ ke : (string * Z) * EntryRow, ke.1.2) (select (gone_receipt (mc_Repository m) clock) (memory_entries s))) in
  let '(l, over) := first_receipts (Z.to_nat (MaxItems * 2)) [] (omap (λ ke, receipt_of ke.2) rows) in
  mkLibraryHistory (from_option sto_library_floor 0 (memory_stores s !! mc_Repository m)) l over.
End machine.
