(* ===== verification/LibraryProps.v ===== *)
(** * The compared-revision state of machine decisions (internal/core/library_decision.go)

    Every stored decision is canonical, an accepted report makes the next revision over the one it
    was compared with, and an identical report changes nothing. *)

From stdpp Require Import sorting strings.
From S2P Require Import Prelude GoString GoFloat Schema Sql Label Fixture Storage Names Messages Inboxes Cycles Leases Library Decisions LibraryDecisions.
Open Scope Z_scope.

(** ** Canonical order *)

#[export] Instance by_string_trans {A} (f : A → string) : Transitive (by_string f).
Proof. intros x y z H1 H2. apply Is_true_true. etrans; [by apply Is_true_true, H1|by apply Is_true_true, H2]. Qed.
#[export] Instance by_string_total {A} (f : A → string) : Total (by_string f).
Proof. intros x y. apply String.leb_total. Qed.

Lemma OrderedTargets_perm o : OrderedTargets o ≡ₚ targets_of o.
Proof. apply merge_sort_Permutation. Qed.
Lemma OrderedTargets_length o : length (OrderedTargets o) = length (targets_of o).
Proof. by rewrite OrderedTargets_perm. Qed.

Definition target_ok (t : TargetDigest) : bool := targetPattern (td_ID t) && (seqb (td_Digest t) "" || ValidDigest (td_Digest t)).
Lemma distinct_targets_spec l : ∀ seen, distinct_targets seen l = true ↔ Forall (λ t, target_ok t = true) l ∧ NoDup (td_ID <$> l) ∧ ∀ t, t ∈ l → td_ID t ∉ seen.
Proof.
  induction l as [|t l IH]; intros seen; cbn.
  - split; [|done]. intros _. split; [constructor|]. split; [constructor|]. by intros t ?%elem_of_nil.
  - unfold target_ok. rewrite !andb_true_iff, negb_true_iff, IH, Forall_cons, NoDup_cons, andb_true_iff.
    assert (one_of (td_ID t) seen = false ↔ td_ID t ∉ seen) as E.
    { by rewrite <-not_true_iff_false, one_of_true. }
    rewrite E, list_elem_of_fmap. split.
    + intros [[[H1 H2] H3] (H4 & H5 & H6)]. split_and!; [done..| | |].
      * intros (x & Hx & Hin). apply (H6 _ Hin). rewrite <-Hx. left.
      * done.
      * intros x [->|Hx]%elem_of_cons; [done|]. intros Hs. apply (H6 _ Hx). by right.
    + intros ([[H1 H3] H4] & [H5 H6] & H7). split_and!; [done|by apply H7; left|done..|]. intros x Hx [Heq|Hs]%elem_of_cons; [apply H5; by exists x|]. apply (H7 x); [by right|done].
Qed.
Lemma validTargets_spec l : validTargets l = true ↔ Z.of_nat (length l) ≤ MaxTargets ∧ Forall (λ t, target_ok t = true) l ∧ NoDup (td_ID <$> l).
Proof.
  unfold validTargets. rewrite andb_true_iff, Z.leb_le, distinct_targets_spec. split; [tauto|]. intros (H1 & H2 & H3). split_and!; [done..|]. by intros t _ ?%elem_of_nil.
Qed.
Lemma validTargets_ordered o : validTargets (OrderedTargets o) = validTargets (targets_of o).
Proof. apply eq_true_iff_eq. rewrite !validTargets_spec. by rewrite OrderedTargets_perm. Qed.
(** A canonical list stays as it is. *)
Lemma OrderedTargets_ordered o : validTargets (targets_of o) = true → OrderedTargets (Some (OrderedTargets o)) = OrderedTargets o.
Proof.
  intros (_ & _ & Hn)%validTargets_spec. apply (StronglySorted_unique_strong (by_string td_ID)).
  - intros x y Hx Hy H1 H2. apply elem_of_order_by_name in Hx, Hy. cbn in Hx. apply elem_of_order_by_name in Hx. assert (td_ID x = td_ID y) as E by (by apply String.leb_antisym).
    apply list_elem_of_lookup in Hx as [i Hi]. apply list_elem_of_lookup in Hy as [j Hj].
    assert (i = j) as ->; [|congruence]. eapply NoDup_lookup; [exact Hn|by rewrite list_lookup_fmap, Hi|by rewrite list_lookup_fmap, Hj, E].
  - apply StronglySorted_merge_sort; apply _.
  - apply StronglySorted_merge_sort; apply _.
  - apply OrderedTargets_perm.
Qed.

Lemma Validate_ordered d : Validate (ordered d) = Validate d.
Proof. unfold Validate. cbn -[validTargets OrderedTargets]. by rewrite !validTargets_ordered, OrderedTargets_length. Qed.
Lemma Validate_targets d : Validate d = true →
  validTargets (targets_of (d_Before d)) = true ∧ validTargets (targets_of (d_Result d)) = true ∧ validTargets (targets_of (d_Adopted d)) = true.
Proof. unfold Validate. rewrite !andb_true_iff. tauto. Qed.
Lemma ordered_ordered d : Validate d = true → ordered (ordered d) = ordered d.
Proof. intros (H1 & H2 & H3)%Validate_targets. unfold ordered. cbn -[OrderedTargets]. by rewrite !OrderedTargets_ordered. Qed.
Lemma Encode_Some d body : Encode d = Some body ↔ Validate d = true ∧ body = encoded_decision (ordered d) ∧ too_large d body = false.
Proof.
  unfold Encode. destruct (Validate d); cbn -[too_large encoded_decision]; [|split; [done|by intros [? _]]].
  destruct (too_large d _) eqn:E; split; try done; [by intros (_ & -> & ?); congruence|by intros [= <-]|by intros (_ & -> & _)].
Qed.
Lemma Encode_ordered d : Validate d = true → Encode (ordered d) = Encode d.
Proof. intros H. unfold Encode. by rewrite Validate_ordered, ordered_ordered. Qed.

(** ** The table *)

(** The receipt of the row: its stored body is the canonical text of a valid decision of the row's
    family, root and item, at a positive revision. *)
Definition row_ok (decode_decision : string → option Decision) (k : string * string * string) (r : LibraryRow) (d : Decision) : Prop :=
  ParseDecision decode_decision (lb_body r) = Some d ∧ Encode d = Some (lb_body r) ∧ d_Family d = k.1.1 ∧ d_ScopeDigest d = k.1.2 ∧ d_ItemID d = k.2 ∧
  d_Scope d = "machine"%string ∧ 1 ≤ lb_revision r ∧
  (d_Choice d = "adopted"%string → OrderedTargets (d_Adopted d) = OrderedTargets (d_Result d)).
Definition library_ok (decode_decision : string → option Decision) (s : State) : Prop :=
  (∀ k r, library_decisions s !! k = Some r → ∃ d, row_ok decode_decision k r d) ∧
  Z.of_nat (size (library_decisions s)) ≤ maxMachineDecisions ∧ body_bytes s ≤ maxMachineDecisionBodies.

Section library.
Context `{SHA : Sha256}.
Variable decode_links : string → option (list Link).
Variable decode_commands : string → option (list Command).
Variable decode_decision : string → option Decision.

(** The text of a decision is valid and decodes to the decision. *)
Definition decodes (d : Decision) : Prop :=
  valid_string (encoded_decision (ordered d)) = true ∧ decode_decision (encoded_decision (ordered d)) = Some (ordered d).

Lemma json_object_len l : 0 < len (json_object l).
Proof. unfold json_object, len. generalize (comma_sep ((λ kv, json_string kv.1 +:+ ":" +:+ kv.2) <$> l) +:+ "}"). intros x. change (0 < Z.of_nat (S (String.length x))). lia. Qed.
Lemma encoded_small d body : Encode d = Some body → decodes d → ParseDecision decode_decision body = Some (ordered d).
Proof.
  intros (Hv & -> & Ht)%Encode_Some [Hs Hd]. unfold too_large in Ht. apply orb_false_iff in Ht as [H1 H2]. unfold ParseDecision.
  assert ((len (encoded_decision (ordered d)) =? 0) = false) as -> by (apply Z.eqb_neq, Z.neq_sym, Z.lt_neq, json_object_len).
  rewrite H1, Hs. cbn [orb negb]. rewrite Hd. cbn [mbind option_bind]. rewrite Validate_ordered, Hv. cbn [andb].
  change (d_Scope (ordered d)) with (d_Scope d). by rewrite H2.
Qed.
Lemma PreserveBaseline_fields d p : d_Family (PreserveBaseline d p) = d_Family d ∧ d_ScopeDigest (PreserveBaseline d p) = d_ScopeDigest d ∧
  d_ItemID (PreserveBaseline d p) = d_ItemID d ∧ d_Scope (PreserveBaseline d p) = d_Scope d ∧ d_Choice (PreserveBaseline d p) = d_Choice d ∧
  d_Result (PreserveBaseline d p) = d_Result d.
Proof. done. Qed.
(** The same report over the state that it made is the same text. *)
Lemma repeat_same d p body : Encode (PreserveBaseline d p) = Some body → Encode (PreserveBaseline d (Some (ordered (PreserveBaseline d p)))) = Some body.
Proof.
  intros H. pose proof (proj1 (Encode_Some _ _) H) as (Hv & _ & _). set (d1 := PreserveBaseline d p) in *.
  assert (ordered (PreserveBaseline d (Some (ordered d1))) = ordered d1) as Ho.
  { unfold PreserveBaseline at 1. destruct (seqb (d_Choice d) "adopted") eqn:E.
    - unfold d1, PreserveBaseline. by rewrite E.
    - unfold ordered. cbn -[OrderedTargets]. rewrite OrderedTargets_ordered; [done|]. exact (proj2 (proj2 (Validate_targets _ Hv))). }
  rewrite <-(Encode_ordered d1), <-Ho in H by done. rewrite Encode_ordered in H; [done|].
  by rewrite <-Validate_ordered, Ho, Validate_ordered.
Qed.

Lemma ValidateCurrent_fields c d family root : ValidateCurrent decode_links decode_commands c d family "machine" root = true →
  d_Family d = family ∧ d_Scope d = "machine"%string ∧ d_ScopeDigest d = root.
Proof. unfold ValidateCurrent. rewrite !andb_true_iff, !seqb_true. tauto. Qed.

(** The decision that a report replaces *)
Definition current_of (k : string * string * string) (s : State) : option LibraryDecisionRecord :=
  match machineDecision decode_decision k.1.1 k.1.2 k.2 s with Ok o => o | Err _ => None end.
Definition reported (k : string * string * string) (d : Decision) (s : State) : Decision := PreserveBaseline d (lr_Decision <$> current_of k s).
Lemma machineDecision_ok k s : library_ok decode_decision s → machineDecision decode_decision k.1.1 k.1.2 k.2 s = Ok (current_of k s) ∧
  match current_of k s with
  | Some r => ∃ row, library_decisions s !! k = Some row ∧ lr_Revision r = lb_revision row ∧ row_ok decode_decision k row (lr_Decision r) ∧ lr_Unchanged r = false
  | None => library_decisions s !! k = None
  end.
Proof.
  intros (Hr & _ & _). destruct k as [[family root] item]. unfold current_of, machineDecision. cbn [fst snd].
  destruct (library_decisions s !! (family, root, item)) as [row|] eqn:E; [|done]. destruct (Hr _ _ E) as [d Hd]. rewrite (proj1 Hd). split; [done|]. by exists row.
Qed.
(** A report that the stored text already holds *)
Lemma unchanged_report now_read now clock en caller c root compared d st0 st body r :
  library_ok decode_decision (tables st0) → 0 ≤ compared → ValidDigest root = true → ValidateCurrent decode_links decode_commands c d (Family caller) "machine" root = true →
  active now_read caller (tables st0) = None → current_of (Family caller, root, d_ItemID d) (tables st0) = Some r →
  Encode (lr_Decision r) = Some body → Encode (PreserveBaseline d (Some (lr_Decision r))) = Some body →
  LibraryDecision decode_links decode_commands decode_decision now_read now clock en caller c root compared d st0 st = (Ok (mkLibraryRecord (lr_Revision r) (lr_Decision r) true), st).
Proof.
  intros Hok Hc Hroot Hv Ha Hcur H1 H2. unfold LibraryDecision. rewrite (proj2 (Z.ltb_ge _ _) Hc), Hroot, Hv, Ha. cbn [orb negb].
  destruct (machineDecision_ok (Family caller, root, d_ItemID d) _ Hok) as [Hm _]. cbn [fst snd] in Hm. rewrite Hm, Hcur. change (lr_Decision <$> Some r) with (Some (lr_Decision r)).
  by rewrite H2, H1, (proj2 (seqb_true body body) eq_refl).
Qed.
Lemma decisionTx_Ok now clock caller root item body current s u s' : decisionTx now clock caller root item body current s = Ok (u, s') →
  (is_Some current ∨ Z.of_nat (size (library_decisions s)) < maxMachineDecisions) ∧
  match current with Some r => body_bytes s - len (default ""%string (Encode (lr_Decision r))) | None => body_bytes s end + len body ≤ maxMachineDecisionBodies ∧
  s' = s <| library_decisions := <[(Family caller, root, item) := mkLibraryRow (from_option lr_Revision 0 current + 1) body (nativeWorkActorForKey caller) clock]> (library_decisions s) |>.
Proof.
  unfold decisionTx. intros H. apply bind_Ok in H as (? & ? & [_ [= -> ->]]%check_Ok & H). apply bind_Ok in H as (? & ? & [= -> ->]%gets_Ok & H).
  apply bind_Ok in H as (? & ? & [= -> ->]%gets_Ok & H). apply bind_Ok in H as (? & ? & [H1 [= -> ->]]%ensure_Ok & H). apply bind_Ok in H as (? & ? & [H2 [= -> ->]]%ensure_Ok & H).
  injection H as _ <-. split; [|split; [by apply Z.leb_le|done]]. apply orb_true_iff in H1 as [?%bool_decide_eq_true|?%Z.ltb_lt]; auto.
Qed.

Lemma current_of_same k s s' : library_decisions s = library_decisions s' → current_of k s = current_of k s'.
Proof. intros E. unfold current_of, machineDecision. by rewrite E. Qed.
Lemma cleared_library s w a : library_decisions ((writeAudit w a s) <| pending := None |>) = library_decisions s.
Proof. unfold writeAudit. by destruct (pending s); [destruct w|]. Qed.

(** The state after a write, with the row that it made *)
Lemma written_row k body cur row s s' d1 :
  library_ok decode_decision s → decodes d1 → Encode d1 = Some body → d_Family d1 = k.1.1 → d_ScopeDigest d1 = k.1.2 → d_ItemID d1 = k.2 → d_Scope d1 = "machine"%string →
  (d_Choice d1 = "adopted"%string → d_Adopted d1 = d_Result d1) → lb_body row = body → lb_revision row = from_option lr_Revision 0 cur + 1 → cur = current_of k s →
  (is_Some cur ∨ Z.of_nat (size (library_decisions s)) < maxMachineDecisions) →
  match cur with Some r => body_bytes s - len (default ""%string (Encode (lr_Decision r))) | None => body_bytes s end + len body ≤ maxMachineDecisionBodies →
  library_decisions s' = <[k := row]> (library_decisions s) →
  library_ok decode_decision s' ∧ current_of k s' = Some (mkLibraryRecord (lb_revision row) (ordered d1) false).
Proof.
  intros Hok Hdec He H1 H2 H3 H4 H5 <- Hrev -> Hrows Hbytes Hs'. destruct (machineDecision_ok k s Hok) as [_ Hcur]. destruct Hok as (Hr & Hn & Hb).
  pose proof (proj1 (Encode_Some _ _) He) as (Hv & _ & _). pose proof (encoded_small _ _ He Hdec) as Hp. split; [split; [|split]|].
  - intros k' row' [[<- <-]|[Hne Hl]]%(eq_ind_r (λ m, m !! k' = Some row' → _) (λ H, proj1 (lookup_insert_Some _ _ _ _ _) H) Hs'); [|by apply (Hr k')]. exists (ordered d1). split_and!; try done.
    + by rewrite Encode_ordered.
    + rewrite Hrev. destruct (current_of k s) as [r|]; [|cbn; lia]. destruct Hcur as (w & _ & Ew & (_ & _ & _ & _ & _ & _ & Hw & _) & _). cbn. lia.
    + intros Hc. unfold ordered. cbn -[OrderedTargets]. by rewrite H5.
  - rewrite Hs'. destruct (current_of k s) as [r|]; [destruct Hcur as (w & Hl & _); by rewrite map_size_insert_Some|].
    destruct Hrows as [[? ?]|Hlt]; [done|]. rewrite map_size_insert_None by done. lia.
  - unfold body_bytes in *. rewrite Hs', sum_of_change. destruct (current_of k s) as [r|]; [|rewrite Hcur; cbn; lia].
    destruct Hcur as (w & Hl & _ & (_ & Hw & _) & _). rewrite Hl. rewrite Hw in Hbytes. cbn in *. lia.
  - unfold current_of, machineDecision. destruct k as [[family root] item]. cbn [fst snd] in *. rewrite Hs', lookup_insert_eq. by rewrite Hp.
Qed.

(** C26: The decision of a machine is compared-revision state: an accepted report either made the
    next revision over the very one it was compared with, with its canonical text and the kept
    baseline, or was the outcome that is stored and wrote nothing; no other row changes, the table
    keeps its invariant and its bounds, and the same report again, whatever revision it is
    compared with after a lost reply, answers that revision and writes nothing. *)
Theorem library_compared now_read now clock en caller c root compared d st0 st r st' :
  let k := (Family caller, root, d_ItemID d) in
  library_ok decode_decision (tables st0) → library_decisions (tables st) = library_decisions (tables st0) → decodes (reported k d (tables st0)) →
  LibraryDecision decode_links decode_commands decode_decision now_read now clock en caller c root compared d st0 st = (Ok r, st') →
  library_ok decode_decision (tables st') ∧ (∀ k', k' ≠ k → library_decisions (tables st') !! k' = library_decisions (tables st) !! k') ∧
  (if lr_Unchanged r then st' = st
   else from_option lb_revision 0 (library_decisions (tables st) !! k) = compared ∧ lr_Revision r = compared + 1 ∧ lr_Decision r = reported k d (tables st0)) ∧
  (∃ row, library_decisions (tables st') !! k = Some row ∧ lb_revision row = lr_Revision r ∧ Encode (reported k d (tables st0)) = Some (lb_body row)) ∧
  (∀ now_read' now' clock' en' compared' st1, tables st1 = tables st' → active now_read' caller (tables st') = None → 0 ≤ compared' → ∃ r',
     LibraryDecision decode_links decode_commands decode_decision now_read' now' clock' en' caller c root compared' d st1 st1 = (Ok r', st1) ∧
     lr_Unchanged r' = true ∧ lr_Revision r' = lr_Revision r).
Proof.
  intros k Hok Hsame Hdec. unfold LibraryDecision. destruct (_ || _) eqn:E0; [done|]. apply orb_false_iff in E0 as [[E1%Z.ltb_ge Hroot%negb_false_iff]%orb_false_iff Hv%negb_false_iff].
  destruct (active now_read caller (tables st0)) eqn:Ha; [done|]. destruct (machineDecision_ok k _ Hok) as [Hm Hcur]. cbn [k fst snd] in Hm. rewrite Hm. clear Hm. fold k.
  set (cur := current_of k (tables st0)) in *. change (PreserveBaseline d (lr_Decision <$> cur)) with (reported k d (tables st0)).
  assert (reported k d (tables st0) = PreserveBaseline d (lr_Decision <$> cur)) as Er by done. set (d1 := reported k d (tables st0)) in *. clearbody d1.
  destruct (Encode d1) as [body|] eqn:Eb; [|done]. rewrite Er in Eb.
  assert (library_ok decode_decision (tables st)) as Hokst by (unfold library_ok, body_bytes; by rewrite Hsame).
  match goal with |- _ → ?G => assert ((if negb (from_option lr_Revision 0 cur =? compared) then (Err (WorkRefusal "decision_conflict" (CurrentDecision (lr_Revision <$> cur))), st)
    else match write plain en (decisionTx now clock caller root (d_ItemID d1) body cur) st with
         | (Ok _, st2) => (Ok (mkLibraryRecord (from_option lr_Revision 0 cur + 1) d1 false), st2)
         | (Err e, st2) => (Err e, st2)
         end) = (Ok r, st') → G) as Hchanged end.
  { destruct (_ =? compared) eqn:Ec; cbn [negb]; [|done]. apply Z.eqb_eq in Ec. destruct (write plain en _ st) as [[u|e] st2] eqn:Hw; [|done]. intros [= <- <-].
    apply write_Ok in Hw as (s1 & Hb & Ht & _). apply decisionTx_Ok in Hb as (Hrows & Hbytes & ->). apply (f_equal library_decisions) in Ht. rewrite cleared_library in Ht. cbn in Ht.
    destruct (ValidateCurrent_fields _ _ _ _ Hv) as (F1 & F2 & F3). assert (d_ItemID d1 = d_ItemID d) as Hid by by rewrite Er. rewrite Hid in Ht.
    set (row := mkLibraryRow (from_option lr_Revision 0 cur + 1) body (nativeWorkActorForKey caller) clock) in *.
    assert (cur = current_of k (tables st)) as Hc by by apply current_of_same.
    destruct (written_row k body cur row (tables st) (tables st2) d1) as [Hok2 Hcur2]; try done; try (by rewrite Er); [intros Hch; rewrite Er in Hch |- *; change (d_Choice d = "adopted"%string) in Hch; unfold PreserveBaseline; cbn; by rewrite (proj2 (seqb_true _ _) Hch)|].
    assert (from_option lb_revision 0 (library_decisions (tables st) !! k) = from_option lr_Revision 0 cur) as Erev.
    { rewrite Hsame. destruct cur as [r0|]; [destruct Hcur as (w & -> & Ew & _); cbn; lia|by rewrite Hcur]. }
    split; [done|]. split; [intros k' Hk'; by rewrite Ht, lookup_insert_ne|]. split; [cbn; by rewrite Erev, Ec|]. split; [exists row; rewrite Ht, lookup_insert_eq; by rewrite Er|].
    intros nr' n' ck' en' cmp' st1 Et Hact Hcmp. exists (mkLibraryRecord (lb_revision row) (ordered d1) true). split; [|done].
    pose proof (unchanged_report nr' n' ck' en' caller c root cmp' d st1 st1 body (mkLibraryRecord (lb_revision row) (ordered d1) false)) as Hu. cbn [lr_Revision lr_Decision] in Hu.
    apply Hu; rewrite ?Et; try done.
    - rewrite Encode_ordered; rewrite Er; [done|]. by apply Encode_Some in Eb as (? & _).
    - rewrite Er. by apply repeat_same. }
  destruct cur as [r0|] eqn:Ecur; [|exact Hchanged].
  destruct Hcur as (row & Hl & Erow & (Hp & He & Hrow) & _). rewrite He. destruct (seqb (lb_body row) body) eqn:Es; [|exact Hchanged].
  apply seqb_true in Es. subst body. intros [= <- <-]. split; [done|]. split; [done|]. split; [done|]. split; [exists row; by rewrite Hsame|].
  intros nr' n' ck' en' cmp' st1 Et Hact Hcmp. exists (mkLibraryRecord (lr_Revision r0) (lr_Decision r0) true). split; [|done].
  apply (unchanged_report nr' n' ck' en' caller c root cmp' d st1 st1 (lb_body row)); rewrite ?Et; try done. by rewrite (current_of_same k _ (tables st0)).
Qed.
End library.

(** ** A first report *)

Definition hex_of (a : string) : string := of_bytes (replicate 64 (default (chr 97) (head (to_bytes a)))).
Definition skill_item : Item := mkItem "skill.pair" "skill" "pair" "" "" "" [] [mkDestination "codex" "machine" "codex-home" "skills/pair/SKILL.md" "verified" "probe"] None "text" (hex_of "b").
Definition one_item : Catalog := mkCatalog 1 [skill_item] (hex_of "c").
Definition skill_report : Decision := mkDecision DecisionMarker 1 "skill.pair" "codex" "machine" (hex_of "a") (hex_of "c") (hex_of "b") "item" "adopted" "read and adopted"
  None (Some [mkTargetDigest "skill" (hex_of "d")]) None "".
Definition stored_report : Decision := ordered (PreserveBaseline skill_report None).
Definition decode_one (data : string) : option Decision := if seqb data (encoded_decision stored_report) then Some stored_report else None.
Definition report_skill (compared : Z) (st : Store) : result error LibraryDecisionRecord * Store :=
  @LibraryDecision zero_sum (λ _, None) (λ _, None) decode_one 20 21 (of_int 21) engine_ok peer_b one_item (hex_of "a") compared skill_report st st.
Definition reported_store : Store := snd (report_skill 0 small_store).
Lemma library_empty_ok decode : library_ok decode small_state.
Proof.
  assert (library_decisions small_state = ∅) as E by reflexivity. unfold library_ok, body_bytes. rewrite E. split; [intros k r; by rewrite lookup_empty|]. vm_compute. done.
Qed.
Lemma library_compared_witness : (∃ row, library_decisions (tables reported_store) !! ("codex", hex_of "a", "skill.pair")%string = Some row ∧ lb_revision row = 1) ∧
  ∃ r, report_skill 0 reported_store = (Ok r, reported_store) ∧ lr_Unchanged r = true ∧ lr_Revision r = 1.
Proof.
  destruct (answers (report_skill 0 small_store) (λ r, negb (lr_Unchanged r) && (lr_Revision r =? 1))) as (r & E & [_ Hr%Z.eqb_eq]%andb_true_iff); [vm_compute; reflexivity|].
  assert (decodes decode_one (reported decode_one ("codex", hex_of "a", "skill.pair")%string skill_report small_state)) as Hd by (vm_compute; split; reflexivity).
  destruct (@library_compared zero_sum (λ _, None) (λ _, None) decode_one 20 21 (of_int 21) engine_ok peer_b one_item (hex_of "a") 0 skill_report small_store small_store r (snd (report_skill 0 small_store))
              (library_empty_ok decode_one) eq_refl Hd E) as (_ & _ & _ & (row & Hrow & Hrev & _) & Hrep).
  split; [exists row; split; [exact Hrow|by rewrite Hrev, Hr]|].
  assert (active 20 peer_b (tables reported_store) = None) as Ha by (vm_compute; reflexivity).
  destruct (Hrep 20 21 (of_int 21) engine_ok 0 reported_store eq_refl Ha (Z.le_refl 0)) as (r' & E' & Hu' & Hr'). exists r'. split; [exact E'|]. split; [exact Hu'|by rewrite Hr', Hr].
Defined.
