(* ===== verification/Notes.v ===== *)
(** * Notes of a memory store (internal/core/memory.go)

    The write that every memory operation goes through, with its admission, its one expiry on a
    refusal and its check at the end; and the record of a note, with its retries and its
    replacement or withdrawal of an older one.  The operations hold the lock of memory
    operations, so no other one comes between.  [clock] gives the readings of the clock in one
    call. *)

From S2P Require Import Prelude GoString GoFloat Schema Sql Label Fixture Storage Names Messages Cycles Participants Leases WorkViews MemoryLimits MemoryExpiry WorkItems Works Library LibraryDecisions.
Open Scope Z_scope.

(** ** Entries *)

Definition memoryTypes : list string := ["directive"; "decision"; "gotcha"; "handoff"; "finding"; "status"]%string.
Definition memoryTails (type_ : string) : option nat :=
  if seqb type_ "finding" || seqb type_ "handoff" then Some 25%nat else if seqb type_ "status" then Some 10%nat else None.

(** [MemoryRecordRequest] *)
Record MemoryRecordRequest := mkNote {
  rq_Type : string; rq_Body : string; rq_Scope : string; rq_ScopeTarget : option string; rq_Path : option string; rq_Author : option string;
  rq_Supersedes : option Z; rq_Revokes : option Z; rq_Expires : option float; rq_Key : option string; rq_Deadline : option float }.
#[export] Instance MemoryRecordRequest_eta : Eta MemoryRecordRequest := λ r,
  mkNote (rq_Type r) (rq_Body r) (rq_Scope r) (rq_ScopeTarget r) (rq_Path r) (rq_Author r) (rq_Supersedes r) (rq_Revokes r) (rq_Expires r) (rq_Key r) (rq_Deadline r).
Record MemoryRecordResult := mkNoteResult {
  nr_Seq : Z; nr_Duplicate : bool; nr_ConflictsWith : option Z; nr_Deadline : option float; nr_IdempotencyHorizon : option float }.

Section notes.
Context `{SHA : Sha256}.
(** The JSON text of a float64; the decodings of JSON texts; the catalog or the failure to load it *)
Variable json_float : float → string.
Variable json_library : string → option string.
Variable decode_links : string → option (list Link).
Variable decode_commands : string → option (list Command).
Variable decode_decision : string → option Decision.
Variable libraryCatalog : result error Catalog.
Variable l : memoryLimits.

Local Open Scope string_scope.
(** The JSON of [MemoryEntry]; a work event carries its kind, item, payload and actor. *)
Definition encoded_entry (seq : Z) (e : EntryRow) (work : option WorkEventRow) : string := json_object (
  [("seq", itoa seq); ("ts", json_float (en_ts e)); ("type", json_string (en_type e)); ("scope", json_string (en_scope e));
   ("scope_target", json_or_null json_string (en_scope_target e)); ("path", json_or_null json_string (en_path e)); ("body", json_string (en_body e));
   ("author", json_or_null json_string (en_author e)); ("writer_family", json_string (en_writer_family e)); ("writer_name", json_string (en_writer_name e));
   ("consumer", json_string (en_consumer e)); ("revision", itoa (en_revision e)); ("supersedes", json_or_null itoa (en_supersedes e));
   ("revokes", json_or_null itoa (en_revokes e)); ("superseded_by", json_or_null itoa (en_superseded_by e)); ("revoked_by", json_or_null itoa (en_revoked_by e));
   ("conflicts_with", json_or_null itoa (en_conflicts_with e)); ("expires", json_or_null json_float (en_expires e))] ++
  match work with
  | Some we => omit_empty "event_kind" (json_string (we_kind we)) (seqb (we_kind we) "") ++
               omit_empty "work_id" (json_string (nullable (en_scope_target e))) (seqb (nullable (en_scope_target e)) "") ++
               [("payload", encoded_view json_float (we_payload we))] ++ omit_empty "actor" (json_string (we_actor we)) (seqb (we_actor we) "")
  | None => []
  end).
(** The fields of a note that a retry repeats; encoding/json sorts the keys of a map. *)
Definition encoded_note (r : MemoryRecordRequest) : string := json_object
  [("author", json_or_null json_string (rq_Author r)); ("body", json_string (rq_Body r)); ("expires", json_or_null json_float (rq_Expires r));
   ("path", json_or_null json_string (rq_Path r)); ("revokes", json_or_null itoa (rq_Revokes r)); ("scope", json_string (rq_Scope r));
   ("scope_target", json_or_null json_string (rq_ScopeTarget r)); ("supersedes", json_or_null itoa (rq_Supersedes r)); ("type", json_string (rq_Type r))].
Local Close Scope string_scope.
(** [fingerprint] *)
Definition note_print (r : MemoryRecordRequest) : string := hex_sum (to_bytes (encoded_note r)).

(** ** A memory write *)

(** The guard that a participant's call puts into the context ([participantCall]) *)
Definition guard_of (m : MemoryCaller) : option MemoryCaller :=
  if isParticipantID (mc_Consumer m) && negb (seqb (mc_Family m) (Family maintainerKey)) then Some m else None.
Definition guard_check (now_ms : Z) (guard : option MemoryCaller) (s : State) : option error := m ← guard; requireParticipantCaller now_ms m s.
Definition update_cursor (repo consumer : string) (f : CursorRow → CursorRow) : tx unit :=
  modify (λ s, s <| memory_cursors := alter f (repo, consumer) (memory_cursors s) |>).
(** The transaction: the store, the body, the actor of a guarded reader, and [enforce] *)
Definition memoryTx {A} (repo fresh : string) (class : writeClass) (guard : option MemoryCaller) (body : tx A) : tx A :=
  _ ← ensure_store repo fresh;
  a ← body;
  _ ← match guard with Some m => update_cursor repo (mc_Consumer m) (λ c, c <| cu_actor := nativeActor m |>) | None => mret tt end;
  _ ← check (enforced json_float l class repo);
  mret a.
(** The admission of a write that needs more bytes and entries *)
Definition refused (repo : string) (class : writeClass) (need slots : Z) (s : State) : option error :=
  exceeded l (usage json_float repo s) (caps l class (storeDebt repo s)) need slots.
(** The caller of a write: its guard, the time of the guard and the random ID of a new store *)
Record Caller := mkCaller { ca_guard : option MemoryCaller; ca_now : Z; ca_fresh : string }.
Record Sweep := mkSweep { sw_fuel : nat; sw_engine : nat → Engine }.
(** [memoryWrite]: a refused admission expires the store once and is tried again. *)
Definition memoryWrite {A} (repo : string) (c : Caller) (class : writeClass) (need slots : Z) (audited : bool) (at_ : Z) (audit : option PendingAudit)
    (clock : float) (sweep : Sweep) (en : Engine) (body : tx A) (st : Store) : result error A * Store :=
  let main st := write (mkWrite class audited at_ audit (guard_check (ca_now c) (ca_guard c))) en (memoryTx repo (ca_fresh c) class (ca_guard c) body) st in
  match refused repo class need slots (tables st) with
  | None => main st
  | Some _ =>
      match expireMemory json_library (sw_fuel sweep) l repo clock true (sw_engine sweep) st with
      | (Err e, st1) => (Err e, st1)
      | (Ok _, st1) => match refused repo class need slots (tables st1) with
                       | Some e => (Err e, st1)
                       | None => main st1
                       end
      end
  end.

(** ** Retries *)

(** [duplicate]: a keyed retry within its deadline *)
Definition duplicate (m : MemoryCaller) (key : string) (deadline : float) (print : string) (s : State) : result error (option MemoryRecordResult) :=
  match memory_idem s !! (mc_Repository m, mc_Consumer m, key) with
  | None => Ok None
  | Some q =>
      if negb (seqb (id_scheme q) fingerprintScheme) || negb (seqb (id_fingerprint q) print) then Err (Refusal "idempotency_conflict")
      else if negb (bool_decide (id_deadline q = deadline)) then Err (Refusal "idempotency_conflict")
      else Ok (Some (mkNoteResult (id_seq q) true None (Some deadline) None))
  end.

(** ** The record of a note *)

Definition drop_zero (o : option Z) : option Z := match o with Some 0 => None | o => o end.
Definition normal_note (r : MemoryRecordRequest) : MemoryRecordRequest :=
  r <| rq_Scope := if seqb (rq_Scope r) "" then "repo"%string else rq_Scope r |> <| rq_Supersedes := drop_zero (rq_Supersedes r) |> <| rq_Revokes := drop_zero (rq_Revokes r) |>.
(** The entry of a note *)
Definition note_entry (now : float) (m : MemoryCaller) (r : MemoryRecordRequest) (revision : Z) (conflict : option Z) : EntryRow :=
  mkEntryRow now (rq_Type r) (rq_Scope r) (rq_ScopeTarget r) (rq_Path r) (rq_Body r) (rq_Author r) (mc_Family m) (mc_Name m) (mc_Consumer m) revision
    (rq_Supersedes r) (rq_Revokes r) None None conflict (rq_Expires r).
Definition note_checks (m : MemoryCaller) (r0 : MemoryRecordRequest) : option error :=
  let r := normal_note r0 in
  if negb (one_of (rq_Type r) memoryTypes) then Some (Refusal "invalid_request")
  else if negb (one_of (rq_Scope r) ["repo"; "task"; "session"]%string) then Some (Refusal "invalid_request")
  else if negb (seqb (rq_Scope r) "repo") && seqb (nullable (rq_ScopeTarget r)) "" then Some (Refusal "invalid_request")
  else if blank (rq_Body r) then Some (Refusal "invalid_request")
  else if l_body l <? len (rq_Body r) then Some (Refusal "entry_too_large")
  else if bool_decide (is_Some (rq_Supersedes r)) && bool_decide (is_Some (rq_Revokes r)) then Some (Refusal "invalid_request")
  else if l_frameBudget l <? len (encoded_entry 0 (note_entry (of_int 0) m r 1 None) None) + 1 then Some (Refusal "entry_too_large")
  else None.
(** The checks of a key and its deadline *)
Definition key_checks (now : float) (r : MemoryRecordRequest) : option error :=
  match rq_Key r with
  | None => None
  | Some key =>
      if seqb key "" || (256 <? len key) then Some (Refusal "invalid_request")
      else match rq_Deadline r with
           | None => Some (Refusal "invalid_request")
           | Some d =>
               if negb (is_finite d) then Some (Refusal "invalid_request")
               else if fltb (fadd now (l_idemTTL l)) d then Some (Refusal "invalid_request")
               else if fleb d now then Some (Refusal "retry_deadline_expired") else None
           end
  end.
Definition keyed_duplicate (m : MemoryCaller) (r : MemoryRecordRequest) (s : State) : result error (option MemoryRecordResult) :=
  match rq_Key r with
  | None => Ok None
  | Some key => duplicate m key (default (of_int 0) (rq_Deadline r)) (note_print r) s
  end.
Definition note_need (m : MemoryCaller) (r : MemoryRecordRequest) : Z :=
  len (rq_Body r) + len (mc_Consumer m) + entryOverhead + text_bytes [nullable (rq_Path r); nullable (rq_Author r); nullable (rq_ScopeTarget r)] +
  match rq_Key r with Some key => len key + len (mc_Consumer m) + 64 | None => 0 end.
Definition note_target (r : MemoryRecordRequest) : option Z := match rq_Revokes r with Some t => Some t | None => rq_Supersedes r end.

Definition next_note (repo : string) : tx Z :=
  o ← gets (λ s, memory_stores s !! repo);
  r ← row (o : option StoreRow) NoRows;
  _ ← modify (λ s, s <| memory_stores := <[repo := r <| sto_head := sto_head r + 1 |>]> (memory_stores s) |>);
  mret (sto_head r + 1).
Definition insert_idem (repo consumer key : string) (q : IdemRow) : tx unit := λ s,
  match memory_idem s !! (repo, consumer, key) with
  | Some _ => Err Constraint
  | None => Ok (tt, s <| memory_idem := <[(repo, consumer, key) := q]> (memory_idem s) |>)
  end.
(** The revision of a note over its target, and the replacement that came first *)
Definition target_state (repo : string) (target : option Z) (s : State) : result error (Z * option Z) :=
  match target with
  | None => Ok (1, None)
  | Some t =>
      match memory_entries s !! (repo, t) with
      | None => Err (Refusal "no_such_entry")
      | Some e => if seqb (en_type e) workEventType then Err (Refusal "invalid_request")
                  else Ok (en_revision e + 1, match en_superseded_by e with Some x => Some x | None => en_revoked_by e end)
      end
  end.
Definition replaced_entry (r : MemoryRecordRequest) (seq : Z) (e : EntryRow) : EntryRow :=
  match rq_Revokes r with Some _ => e <| en_revoked_by := Some seq |> | None => e <| en_superseded_by := Some seq |> end.
(** [MemoryRecord], inside its transaction *)
Definition recordTx (now : float) (m : MemoryCaller) (r : MemoryRecordRequest) : tx MemoryRecordResult :=
  let repo := mc_Repository m in
  o ← gets (keyed_duplicate m r);
  found ← lift o;
  match (found : option MemoryRecordResult) with
  | Some original => mret original
  | None =>
      o ← gets (target_state repo (note_target r));
      '(revision, conflict) ← lift o;
      seq ← next_note repo;
      _ ← insert_entry repo seq (note_entry now m r revision conflict);
      _ ← match note_target r, conflict with
          | Some t, None => modify (λ s, s <| memory_entries := alter (replaced_entry r seq) (repo, t) (memory_entries s) |>)
          | _, _ => mret tt
          end;
      _ ← match rq_Key r with
          | Some key => insert_idem repo (mc_Consumer m) key (mkIdemRow fingerprintScheme (note_print r) seq now (default (of_int 0) (rq_Deadline r)))
          | None => mret tt
          end;
      mret (mkNoteResult seq false conflict (rq_Deadline r) (Some (l_idemTTL l)))
  end.
Definition MemoryRecord (m : MemoryCaller) (r0 : MemoryRecordRequest) (fresh : string) (clock : nat → float) (now_ms at_ : Z) (audit : option PendingAudit)
    (sweep retry_sweep : Sweep) (en : Engine) (last : gmap string float) (st : Store) : result error MemoryRecordResult * Store * gmap string float :=
  let repo := mc_Repository m in
  let guard := guard_of m in
  match guard_check now_ms guard (tables st) with
  | Some e => (Err e, st, last)
  | None =>
      let now := clock 0%nat in
      let r := normal_note r0 in
      match (match note_checks m r0 with Some e => Some e | None => key_checks now r end) with
      | Some e => (Err e, st, last)
      | None =>
          match keyed_duplicate m r (tables st) with
          | Err e => (Err e, st, last)
          | Ok (Some original) => (Ok original, st, last)
          | Ok None =>
              match validateProjectDecision decode_links decode_commands decode_decision json_library libraryCatalog m (rq_Type r) (rq_Scope r) (rq_Body r) (rq_Supersedes r) (tables st) with
              | Some e => (Err e, st, last)
              | None =>
                  match maybeExpire json_library (sw_fuel sweep) l repo (clock 1%nat) (sw_engine sweep) last st with
                  | (Err e, st1, last1) => (Err e, st1, last1)
                  | (Ok _, st1, last1) =>
                      let class := match note_target r with Some _ => control | None => ordinary end in
                      (memoryWrite repo (mkCaller guard now_ms fresh) class (note_need m r) 1 true at_ audit (clock 2%nat) retry_sweep en (recordTx now m r) st1, last1)
                  end
              end
          end
      end
  end.
End notes.
