(* ===== verification/Readers.v ===== *)
(** * Readers of a memory store (internal/core/memory.go)

    A consumer's cursor, its snapshots and its deltas: the first page of a store and of a reader
    that fell behind the floor comes from a frozen snapshot, every later one is a run of the
    stream.  A sync moves no cursor; an acknowledgement moves it over what was issued.  The
    operations hold the lock of memory operations; [clock] gives the readings of the clock in one
    call. *)

From S2P Require Import Prelude GoString GoFloat Schema Sql Label Fixture Storage Names Messages Cycles Participants Leases WorkViews MemoryLimits MemoryExpiry WorkItems Works Library LibraryDecisions Notes.
Open Scope Z_scope.

Section readers.
Context `{SHA : Sha256}.
(** The JSON text of a float64; the JSON of a library decision *)
Variable json_float : float → string.
Variable json_library : string → option string.
Variable l : memoryLimits.
Local Abbreviation write_ := (memoryWrite json_float json_library l).

(** The caller, the time of its guard, the sweeps of its writes and the engine's answers *)
Record Call := mkCall { cl_m : MemoryCaller; cl_fresh : string; cl_now : Z; cl_sweep : Sweep; cl_retry : nat → Sweep; cl_engine : nat → Engine }.
Definition caller_of (c : Call) : Caller := mkCaller (guard_of (cl_m c)) (cl_now c) (cl_fresh c).
(** [memoryProgress]; the [n]th write of a call *)
Definition memoryProgress (c : Call) (n : nat) (clock : float) (body : tx unit) (st : Store) : result error unit * Store :=
  write_ (mc_Repository (cl_m c)) (caller_of c) control 0 0 false 0 None clock (cl_retry c n) (cl_engine c n) body st.
Definition next {A B} (answer : result error A * Store) (k : A → Store → result error B * Store) : result error B * Store :=
  match answer with (Ok a, st) => k a st | (Err e, st) => (Err e, st) end.

(** ** Registration *)

Definition cursor_of (m : MemoryCaller) (s : State) : option CursorRow := memory_cursors s !! (mc_Repository m, mc_Consumer m).
Definition fresh_cursor (now : float) : CursorRow := mkCursorRow 0 0 None false false now "".
Definition insert_cursor (m : MemoryCaller) (now : float) : tx unit :=
  modify (λ s, match cursor_of m s with
               | Some _ => s
               | None => s <| memory_cursors := <[(mc_Repository m, mc_Consumer m) := fresh_cursor now]> (memory_cursors s) |>
               end).
(** [register] *)
Definition register (c : Call) (clock : nat → float) (st : Store) : result error CursorRow * Store :=
  let m := cl_m c in
  match cursor_of m (tables st) with
  | Some cu => (Ok cu, st)
  | None =>
      if bool_decide (is_Some (memory_retired (tables st) !! (mc_Repository m, mc_Consumer m))) then (Err (Refusal "consumer_retired"), st)
      else
        let u := usage json_float (mc_Repository m) (tables st) in
        if (l_consumers l <=? u_Consumers u) || (l_consumers l + l_retired l <=? u_Consumers u + u_Retired u) then (Err (Refusal "capacity"), st)
        else next (write_ (mc_Repository m) (caller_of c) ordinary (2 * (len (mc_Consumer m) + 64) + len (nativeActor m)) 0 false 0 None (clock 3%nat)
                     (cl_retry c 0%nat) (cl_engine c 0%nat) (insert_cursor m (clock 2%nat)) st)
               (λ _ st1, (Ok (default (mkCursorRow 0 0 None false false (of_int 0) "") (cursor_of m (tables st1))), st1))
  end.
(** [touch]: the time of the reader and, for a session of the repository, its actor *)
Definition actor_session (now : Z) (m : MemoryCaller) (s : State) : bool :=
  validKey (Family (mc_Native m)) (ID (mc_Native m)) && seqb (Family (mc_Native m)) (mc_Family m) &&
  match sessions s !! mc_Native m with Some r => seqb (s_repository r) (mc_Repository m) && (s_retired_at r =? 0) && (now <? s_expires_at r) | None => false end.
Definition touchTx (m : MemoryCaller) (now : Z) (clock : float) : tx unit :=
  _ ← update_cursor (mc_Repository m) (mc_Consumer m) (λ c, c <| cu_updated := clock |>);
  eligible ← gets (actor_session now m);
  when eligible (update_cursor (mc_Repository m) (mc_Consumer m) (λ c, c <| cu_actor := nativeActor m |>)).
Definition touch (c : Call) (clock : nat → float) (st : Store) : result error unit * Store :=
  memoryProgress c 1 (clock 5%nat) (touchTx (cl_m c) (cl_now c) (clock 4%nat)) st.

(** ** Snapshots *)

(** [snapshotState]: a snapshot of the caller's repository *)
Definition snapshot_of (m : MemoryCaller) (id : string) (s : State) : option SnapshotRow :=
  match memory_snapshots s !! id with Some r => if seqb (sn_repository r) (mc_Repository m) then Some r else None | None => None end.
Definition owned (m : MemoryCaller) (r : SnapshotRow) : bool := seqb (sn_consumer r) (mc_Consumer m).
Definition too_old (now : float) (r : SnapshotRow) : bool := fltb (l_snapshotTTL l) (fsub now (sn_created r)).

(** The members of a snapshot: what is live at a head, by kind and then newest first *)
Definition type_rank (type_ : string) : Z :=
  if seqb type_ "decision" then 1 else if seqb type_ "gotcha" then 2 else if seqb type_ "handoff" then 3 else if seqb type_ "finding" then 4
  else if seqb type_ "status" then 5 else 0.
Definition later (head : Z) (by_ : option Z) : bool := match by_ with Some x => head <? x | None => true end.
Definition live_note (repo : string) (head : Z) (now : float) (k : string * Z) (e : EntryRow) : bool :=
  seqb k.1 repo && (k.2 <=? head) && negb (seqb (en_type e) workEventType) && later head (en_superseded_by e) && later head (en_revoked_by e) &&
  match en_expires e with Some x => fltb now x | None => true end.
Definition member_le (x y : Z * EntryRow) : Prop :=
  type_rank (en_type x.2) < type_rank (en_type y.2) ∨ type_rank (en_type x.2) = type_rank (en_type y.2) ∧ y.1 ≤ x.1.
#[export] Instance member_le_dec : RelDecision member_le.
Proof. intros x y. unfold member_le. apply _. Defined.
(** The newest of each capped kind; [counts] is how many of a kind came before *)
Fixpoint keep_tails (counts : string → nat) (members : list (Z * EntryRow)) : list (Z * EntryRow) :=
  match members with
  | [] => []
  | (seq, e) :: members =>
      let n := S (counts (en_type e)) in
      let rest := keep_tails (λ t, if seqb t (en_type e) then n else counts t) members in
      match memoryTails (en_type e) with
      | Some tail => if (tail <? n)%nat then rest else (seq, e) :: rest
      | None => (seq, e) :: rest
      end
  end.
Definition members (repo : string) (head : Z) (now : float) (s : State) : list (Z * EntryRow) :=
  keep_tails (λ _, 0%nat) (merge_sort member_le ((λ ke, (ke.1.2, ke.2)) <$> select (live_note repo head now) (memory_entries s))).
(** [workViews]: the retained work items, by ID *)
Definition workViews (repo : string) (now : float) (s : State) : result error (list WorkView) :=
  match storeOf repo s with
  | None => Ok []
  | Some store =>
      foldr (λ w acc, match view store w now s, acc with Ok v, Ok vs => Ok (v :: vs) | Err e, _ => Err e | _, Err e => Err e end) (Ok [])
        (order_by_name w_WorkID (snd <$> select (λ k w, seqb k.1 store && retained_at now w) (work_items s)))
  end.
Definition head_of (repo : string) (s : State) : Z := from_option sto_head 0 (memory_stores s !! repo).
Definition floor_of (repo : string) (s : State) : Z := from_option sto_floor 0 (memory_stores s !! repo).
(** The items of a snapshot: the sequence and the text of each *)
Definition frozen_items (repo : string) (now : float) (s : State) : result error (list (Z * string)) :=
  match workViews repo now s with
  | Err e => Err e
  | Ok views => Ok (((λ se, (se.1, encoded_entry json_float se.1 se.2 None)) <$> members repo (head_of repo s) now s) ++
                    ((λ v, (v_Seq v, encoded_view json_float v)) <$> views))
  end.
Definition snapshot_rows (id : string) (items : list (Z * string)) : list ((string * Z) * SnapshotItem) :=
  imap (λ i it, ((id, Z.of_nat i), mkSnapshotItem it.1 it.2 (len it.2 + 1))) items.
Definition freezeTx (m : MemoryCaller) (id : string) (head : Z) (now : float) (items : list (Z * string)) : tx unit :=
  taken ← gets (λ s, bool_decide (is_Some (memory_snapshots s !! id)) || exists_where (λ k _, seqb k.1 id) (memory_snapshot_items s));
  _ ← ensure (negb taken) Constraint;
  _ ← modify (λ s, s <| memory_snapshots :=
         <[id := mkSnapshotRow (mc_Repository m) (mc_Consumer m) head now (Z.of_nat (length items)) 0 false None]> (memory_snapshots s) |>);
  _ ← modify (λ s, s <| memory_snapshot_items := list_to_map (snapshot_rows id items) ∪ memory_snapshot_items s |>);
  update_cursor (mc_Repository m) (mc_Consumer m) (λ c, c <| cu_snapshot := Some id |>).
Definition held_snapshot (m : MemoryCaller) (now : float) (_ : string) (r : SnapshotRow) : bool :=
  seqb (sn_repository r) (mc_Repository m) && owned m r &&
  (negb (sn_acked r) && fleb (fsub now (l_snapshotTTL l)) (sn_created r) ||
   sn_acked r && match sn_acked_at r with Some t => fleb (fsub now (l_ackRetention l)) t | None => false end).
(** [freeze]; [id] is the random ID of the snapshot. *)
Definition freeze (c : Call) (id : string) (clock : nat → float) (st : Store) : result error string * Store :=
  let m := cl_m c in
  let repo := mc_Repository m in
  let now := clock 7%nat in
  if l_snapshotsPerConsumer l <=? count_where (held_snapshot m now) (memory_snapshots (tables st)) then (Err (Refusal "snapshot_capacity"), st)
  else match frozen_items repo now (tables st) with
       | Err e => (Err e, st)
       | Ok items =>
           next (write_ repo (caller_of c) ordinary (len id + len (mc_Consumer m) + 96 + foldr (λ it acc, len it.2 + 1 + acc) 0 items) 0 false 0 None
                   (clock 8%nat) (cl_retry c 3%nat) (cl_engine c 3%nat) (freezeTx m id (head_of repo (tables st)) now items) st)
             (λ _ st1, (Ok id, st1))
       end.

(** ** Pages *)

(** [bounded]: how many of the sizes fit one page; [first] holds before the first. *)
Fixpoint bounded_from (first : bool) (total budget : Z) (sizes : list Z) : result error nat :=
  match sizes with
  | [] => Ok 0%nat
  | size :: sizes =>
      if budget <? total + size then if first then Err (Refusal "entry_too_large") else Ok 0%nat
      else match bounded_from false (total + size) budget sizes with Ok n => Ok (S n) | Err e => Err e end
  end.
Definition bounded (sizes : list Z) (budget : Z) : result error nat := bounded_from true 0 budget sizes.

Record MemorySyncRequest := mkSync { sy_SnapshotID : string; sy_PageToken : Z }.
(** The answers of a sync *)
Inductive MemoryPage :=
| SnapshotPage (id : string) (head : Z) (entries : list string) (token total : Z) (more : bool)
| DeltaPage (entries : list string) (cursor next_cursor head : Z) (more : bool).

Definition items_from (id : string) (token : Z) (s : State) : list SnapshotItem :=
  snd <$> order_by (λ ki : (string * Z) * SnapshotItem, ki.1.2) (select (λ k _, seqb k.1 id && (token <=? k.2)) (memory_snapshot_items s)).
Definition issueTx (id : string) (n : Z) : tx unit :=
  modify (λ s, s <| memory_snapshots := alter (λ r, if sn_issued r <? n then r <| sn_issued := n |> else r) id (memory_snapshots s) |>).
Definition page_refusal (m : MemoryCaller) (id : string) (now : float) (r : MemorySyncRequest) (s : State) : result error SnapshotRow :=
  match snapshot_of m id s with
  | None => Err (Refusal "snapshot_expired")
  | Some st =>
      if negb (owned m st) then Err (Refusal "foreign_snapshot")
      else if negb (sn_acked st) && too_old now st then Err (Refusal "snapshot_expired")
      else if (sy_PageToken r <? 0) || negb (sy_PageToken r =? 0) && seqb (sy_SnapshotID r) "" then Err (Refusal "stale_page_token")
      else if negb (seqb (sy_SnapshotID r) "") && negb (seqb (sy_SnapshotID r) id)
      then match snapshot_of m (sy_SnapshotID r) s with
           | Some other => if negb (owned m other) then Err (Refusal "foreign_snapshot") else Err (Refusal "stale_page_token")
           | None => Err (Refusal "stale_page_token")
           end
      else if sn_issued st <? sy_PageToken r then Err (Refusal "stale_page_token")
      else Ok st
  end.
(** [snapshotPage] *)
Definition snapshotPage (c : Call) (id : string) (r : MemorySyncRequest) (clock : nat → float) (st : Store) : result error MemoryPage * Store :=
  match page_refusal (cl_m c) id (clock 9%nat) r (tables st) with
  | Err e => (Err e, st)
  | Ok sn =>
      let items := items_from id (sy_PageToken r) (tables st) in
      match bounded (si_bytes <$> items) (l_frameBudget l) with
      | Err e => (Err e, st)
      | Ok n =>
          let token := sy_PageToken r + Z.of_nat n in
          let page := SnapshotPage id (sn_head sn) (si_payload <$> take n items) token (sn_items sn) (bool_decide (n < length items)%nat || (token <? sn_items sn)) in
          if sn_issued sn <? token then next (memoryProgress c 4 (clock 10%nat) (issueTx id token) st) (λ _ st1, (Ok page, st1))
          else (Ok page, st)
      end
  end.

(** The stream after a cursor, at most one window of rows, with the payload of each work event *)
Definition stream_after (repo : string) (cursor : Z) (s : State) : list (Z * EntryRow) :=
  take (Z.to_nat (l_rowWindow l)) ((λ ke, (ke.1.2, ke.2)) <$>
    order_by (λ ke : (string * Z) * EntryRow, ke.1.2) (select (λ k _, seqb k.1 repo && (cursor <? k.2)) (memory_entries s))).
Definition stream_text (repo : string) (s : State) (se : Z * EntryRow) : option string :=
  if seqb (en_type se.2) workEventType then
    match work_events s !! (default ""%string (storeOf repo s), se.1) with
    | Some we => Some (encoded_entry json_float se.1 se.2 (Some we))
    | None => None
    end
  else Some (encoded_entry json_float se.1 se.2 None).
Definition issueDeltaTx (m : MemoryCaller) (n : Z) : tx unit :=
  update_cursor (mc_Repository m) (mc_Consumer m) (λ c, if cu_issued c <? n then c <| cu_issued := n |> else c).
(** [delta] *)
Definition delta (c : Call) (cu : CursorRow) (clock : nat → float) (st : Store) : result error MemoryPage * Store :=
  let m := cl_m c in
  let repo := mc_Repository m in
  let batch := stream_after repo (cu_seq cu) (tables st) in
  match mapM (stream_text repo (tables st)) batch with
  | None => (Err (workError "incompatible_store"), st)
  | Some texts =>
      match bounded ((λ t, len t + 1) <$> texts) (l_frameBudget l) with
      | Err e => (Err e, st)
      | Ok n =>
          let end_ := from_option fst (cu_seq cu) (last (take n batch)) in
          let page st1 := let head := head_of repo (tables st1) in
            DeltaPage (take n texts) (cu_seq cu) end_ head (bool_decide (n < length texts)%nat || (end_ <? head)) in
          if cu_issued cu <? end_ then next (memoryProgress c 4 (clock 9%nat) (issueDeltaTx m end_) st) (λ _ st1, (Ok (page st1), st1))
          else (Ok (page st), st)
      end
  end.

(** ** Synchronisation *)

(** The obligation to finish a snapshot stays; only an unusable snapshot goes. *)
Definition dropTx (m : MemoryCaller) : tx unit :=
  update_cursor (mc_Repository m) (mc_Consumer m) (λ c, c <| cu_snapshot := None |> <| cu_resnapshot := true |>).
Definition unusable (m : MemoryCaller) (now : float) (id : string) (s : State) : bool :=
  match snapshot_of m id s with Some r => negb (owned m r) || negb (sn_acked r) && too_old now r | None => true end.
(** [MemorySync] *)
Definition entered (c : Call) (clock : nat → float) (last : gmap string float) (st : Store) : result error CursorRow * Store * gmap string float :=
  match guard_check (cl_now c) (guard_of (cl_m c)) (tables st) with
  | Some e => (Err e, st, last)
  | None =>
      match maybeExpire json_library (sw_fuel (cl_sweep c)) l (mc_Repository (cl_m c)) (clock 1%nat) (sw_engine (cl_sweep c)) last st with
      | (Err e, st1, last1) => (Err e, st1, last1)
      | (Ok _, st1, last1) => (next (register c clock st1) (λ cu st2, next (touch c clock st2) (λ _ st3, (Ok cu, st3))), last1)
      end
  end.
Definition needs_snapshot (cu : CursorRow) (floor : Z) : bool :=
  bool_decide (is_Some (cu_snapshot cu)) || cu_resnapshot cu || negb (cu_bootstrapped cu) || (cu_seq cu <? floor).
Definition sync_page (c : Call) (id : string) (r : MemorySyncRequest) (clock : nat → float) (cu : CursorRow) (st : Store) : result error MemoryPage * Store :=
  if needs_snapshot cu (floor_of (mc_Repository (cl_m c)) (tables st)) then
    match cu_snapshot cu with
    | Some open => snapshotPage c open r clock st
    | None => next (freeze c id clock st) (λ id st1, snapshotPage c id r clock st1)
    end
  else delta c cu clock st.
Definition MemorySync (c : Call) (id : string) (r : MemorySyncRequest) (clock : nat → float) (last : gmap string float) (st : Store) :
    result error MemoryPage * Store * gmap string float :=
  let '(answer, last1) := match entered c clock last st with (o, st1, last1) => ((o, st1), last1) end in
  (next answer (λ cu st1,
     match cu_snapshot cu with
     | Some open =>
         if unusable (cl_m c) (clock 6%nat) open (tables st1)
         then next (memoryProgress c 2 (clock 6%nat) (dropTx (cl_m c)) st1)
                (λ _ st2, sync_page c id r clock (cu <| cu_snapshot := None |> <| cu_resnapshot := true |>) st2)
         else sync_page c id r clock cu st1
     | None => sync_page c id r clock cu st1
     end), last1).

(** ** Acknowledgement *)

Record MemoryAckRequest := mkAck { ak_SnapshotID : string; ak_Through : option Z }.
Inductive MemoryAcked := SnapshotAcked (cursor : Z) (id : string) (replayed : bool) | CursorAt (cursor : Z) | NotMonotonic (cursor : Z).
Definition ackSnapshotTx (m : MemoryCaller) (id : string) (head : Z) (now : float) : tx unit :=
  _ ← modify (λ s, s <| memory_snapshots := alter (λ r, r <| sn_acked := true |> <| sn_acked_at := Some now |>) id (memory_snapshots s) |>);
  update_cursor (mc_Repository m) (mc_Consumer m)
    (λ c, c <| cu_seq := head |> <| cu_issued := Z.max (cu_issued c) head |> <| cu_snapshot := None |> <| cu_bootstrapped := true |> <| cu_resnapshot := false |>).
Definition ackDeltaTx (m : MemoryCaller) (through : Z) : tx unit :=
  update_cursor (mc_Repository m) (mc_Consumer m) (λ c, c <| cu_seq := through |>).
Definition ack_snapshot (c : Call) (id : string) (cu : CursorRow) (clock : nat → float) (st : Store) : result error MemoryAcked * Store :=
  match snapshot_of (cl_m c) id (tables st) with
  | None => (Err (Refusal "snapshot_expired"), st)
  | Some sn =>
      if negb (owned (cl_m c) sn) then (Err (Refusal "foreign_snapshot"), st)
      else if sn_acked sn then (Ok (SnapshotAcked (sn_head sn) id true), st)
      else if negb (bool_decide (cu_snapshot cu = Some id)) then (Err (Refusal "stale_snapshot"), st)
      else if too_old (clock 6%nat) sn then (Err (Refusal "snapshot_expired"), st)
      else if sn_issued sn <? sn_items sn then (Err (Refusal "snapshot_incomplete"), st)
      else next (memoryProgress c 2 (clock 8%nat) (ackSnapshotTx (cl_m c) id (sn_head sn) (clock 7%nat)) st) (λ _ st1, (Ok (SnapshotAcked (sn_head sn) id false), st1))
  end.
Definition ack_delta (c : Call) (through : Z) (cu : CursorRow) (clock : nat → float) (st : Store) : result error MemoryAcked * Store :=
  if bool_decide (is_Some (cu_snapshot cu)) || cu_resnapshot cu then (Err (Refusal "snapshot_open"), st)
  else if negb (cu_bootstrapped cu) then (Err (Refusal "not_bootstrapped"), st)
  else if through <? cu_seq cu then (Ok (NotMonotonic (cu_seq cu)), st)
  else if cu_issued cu <? through then (Err (Refusal "not_issued"), st)
  else next (memoryProgress c 2 (clock 6%nat) (ackDeltaTx (cl_m c) through) st) (λ _ st1, (Ok (CursorAt through), st1)).
(** [MemoryAck] *)
Definition MemoryAck (c : Call) (r : MemoryAckRequest) (clock : nat → float) (last : gmap string float) (st : Store) :
    result error MemoryAcked * Store * gmap string float :=
  let '(answer, last1) := match entered c clock last st with (o, st1, last1) => ((o, st1), last1) end in
  (next answer (λ cu st1, if negb (seqb (ak_SnapshotID r) "") then ack_snapshot c (ak_SnapshotID r) cu clock st1
                          else ack_delta c (default 0 (ak_Through r)) cu clock st1), last1).

(** ** Recall and status *)

(** SQLite's LIKE, with its escape character, of a pattern and a text *)
Variable like : option ascii → string → string → bool.
Variable decode_decision : string → option Decision.

Definition escape_byte (a : ascii) : bytes := if (code a =? 92) || (code a =? 37) || (code a =? 95) then [chr 92; a] else [a].
Definition escaped (query : string) : string := of_bytes (to_bytes query ≫= escape_byte).
Definition recalled (repo pattern : string) (now : float) (before : Z) (k : string * Z) (e : EntryRow) : bool :=
  seqb k.1 repo && negb (seqb (en_type e) workEventType) && bool_decide (en_superseded_by e = None) && bool_decide (en_revoked_by e = None) &&
  match en_expires e with Some x => fltb now x | None => true end && (k.2 <? before) && like (Some (chr 92)) pattern (en_body e).
(** The newest first, and one row more than a window shows whether there are more. *)
Definition matches_before (repo query : string) (now : float) (before : Z) (s : State) : list (Z * EntryRow) :=
  take (S (Z.to_nat (l_rowWindow l))) (rev ((λ ke, (ke.1.2, ke.2)) <$> order_by (λ ke : (string * Z) * EntryRow, ke.1.2)
    (select (recalled repo ("%" +:+ escaped query +:+ "%") now before) (memory_entries s)))).
Record RecallPage := mkRecall { rc_entries : list string; rc_more : bool; rc_next_before : option Z; rc_history : option LibraryHistory }.
(** [MemoryRecall] *)
Definition MemoryRecall (m : MemoryCaller) (now_ms : Z) (clock : nat → float) (query : string) (before : Z) (st : Store) : result error RecallPage :=
  match guard_check now_ms (guard_of m) (tables st) with
  | Some e => Err e
  | None =>
      if blank query then Err (Refusal "invalid_request")
      else
        let before := if before <=? 0 then Z.shiftl 1 62 else before in
        let rows := matches_before (mc_Repository m) query (clock 0%nat) before (tables st) in
        let window := Z.to_nat (l_rowWindow l) in
        let beyond := bool_decide (window < length rows)%nat in
        let texts := (λ se, encoded_entry json_float se.1 se.2 None) <$> take window rows in
        match bounded ((λ t, len t + 1) <$> texts) (l_frameBudget l) with
        | Err e => Err e
        | Ok n =>
            let more := bool_decide (n < length texts)%nat || beyond in
            Ok (mkRecall (take n texts) more (if more then fst <$> last (take n rows) else None)
                  (if seqb query DecisionMarker then Some (libraryReceiptHistory decode_decision like m (clock 1%nat) (tables st)) else None))
        end
  end.

(** The readers of a status page ([MemoryStatus]), by their keys *)
Record Consumer := mkConsumer { co_consumer : string; co_cursor : Z; co_lag : Z; co_snapshot : option string; co_bootstrapped : bool; co_actor : string }.
Local Open Scope string_scope.
Definition encoded_consumer (c : Consumer) : string := json_object
  [("actor", json_string (co_actor c)); ("bootstrapped", json_bool (co_bootstrapped c)); ("consumer", json_string (co_consumer c));
   ("cursor", itoa (co_cursor c)); ("lag", itoa (co_lag c)); ("snapshot", json_or_null json_string (co_snapshot c))].
Local Close Scope string_scope.
Definition consumer_view (head : Z) (kc : (string * string) * CursorRow) : Consumer :=
  mkConsumer kc.1.2 (cu_seq kc.2) (head - cu_seq kc.2) (cu_snapshot kc.2) (cu_bootstrapped kc.2) (cu_actor kc.2).
Definition after_name (after name : string) : bool := String.leb after name && negb (seqb after name).
Definition status_consumers (repo after : string) (s : State) : result error (list Consumer * bool * option string) :=
  let window := Z.to_nat (l_rowWindow l) in
  let rows := take (S window) (order_by_name (λ kc, kc.1.2) (select (λ k _, seqb k.1 repo && after_name after k.2) (memory_cursors s))) in
  let beyond := bool_decide (window < length rows)%nat in
  let views := consumer_view (head_of repo s) <$> take window rows in
  match bounded ((λ c, len (encoded_consumer c) + 1) <$> views) (l_frameBudget l) with
  | Err e => Err e
  | Ok n => let more := bool_decide (n < length views)%nat || beyond in
            Ok (take n views, more, if more then co_consumer <$> last (take n views) else None)
  end.
End readers.
