(* ===== verification/Streams.v ===== *)
(** * The stream of a memory store and its readers

    The invariant of a store's stream: its entries are the sequences up to the head, without a
    gap above the floor; a work entry has its payload; no reader is ahead of what it was given,
    and no snapshot is ahead of the head.  What a write of notes or work does to it, and what an
    expiry does. *)

From S2P Require Import Prelude GoString GoFloat Schema Sql Label Fixture Storage Names Messages Cycles Sessions Inboxes Participants Leases LeaseProps WorkViews MemoryLimits MemoryExpiry WorkItems WorkOps Works WorkFacts WorkProps WorkSteps.
Open Scope Z_scope.

(** ** The invariant *)

(** What of a reader decides where it is *)
Definition place (c : CursorRow) : Z * Z * option string * bool * bool := (cu_seq c, cu_issued c, cu_snapshot c, cu_bootstrapped c, cu_resnapshot c).

Record stream_ok (s : State) : Prop := {
  so_ids : ∀ repo repo' r r', memory_stores s !! repo = Some r → memory_stores s !! repo' = Some r' → sto_store_id r = sto_store_id r' → repo = repo';
  so_floor : ∀ repo r, memory_stores s !! repo = Some r → 0 ≤ sto_floor r ≤ sto_head r;
  so_entry : ∀ repo q e, memory_entries s !! (repo, q) = Some e → ∃ r, memory_stores s !! repo = Some r ∧ 1 ≤ q ≤ sto_head r ∧
    (en_type e = workEventType → en_expires e = None ∧ is_Some (work_events s !! (sto_store_id r, q)));
  so_gapless : ∀ repo r q, memory_stores s !! repo = Some r → sto_floor r < q ≤ sto_head r → is_Some (memory_entries s !! (repo, q));
  so_cursor : ∀ repo consumer c, memory_cursors s !! (repo, consumer) = Some c → ∃ r, memory_stores s !! repo = Some r ∧ 0 ≤ cu_seq c ≤ cu_issued c ∧ cu_issued c ≤ sto_head r;
  so_snapshot : ∀ id sn, memory_snapshots s !! id = Some sn → ∃ r, memory_stores s !! sn_repository sn = Some r ∧ 0 ≤ sn_head sn ≤ sto_head r ∧ 0 ≤ sn_issued sn ≤ sn_items sn;
  so_items : ∀ id p, is_Some (memory_snapshot_items s !! (id, p)) ↔ ∃ sn, memory_snapshots s !! id = Some sn ∧ 0 ≤ p < sn_items sn;
  so_open : ∀ repo consumer c id sn, memory_cursors s !! (repo, consumer) = Some c → cu_snapshot c = Some id → memory_snapshots s !! id = Some sn →
    sn_repository sn = repo → sn_consumer sn = consumer → sn_acked sn = false ∧ cu_seq c ≤ sn_head sn }.

(** What it reads *)
Definition marks (s : State) : gmap string (string * Z * Z) := (λ r, (sto_store_id r, sto_head r, sto_floor r)) <$> memory_stores s.
Definition places (s : State) := place <$> memory_cursors s.
Definition stream_view (s : State) := (marks s, memory_entries s, work_events s, places s, memory_snapshots s, memory_snapshot_items s).

Lemma marks_lookup s s' repo r' : marks s' = marks s → memory_stores s' !! repo = Some r' →
  ∃ r, memory_stores s !! repo = Some r ∧ sto_store_id r' = sto_store_id r ∧ sto_head r' = sto_head r ∧ sto_floor r' = sto_floor r.
Proof.
  intros E Hl. assert (marks s' !! repo = Some (sto_store_id r', sto_head r', sto_floor r')) as H by (unfold marks; by rewrite lookup_fmap, Hl).
  rewrite E in H. unfold marks in H. rewrite lookup_fmap in H. destruct (memory_stores s !! repo) as [r|]; [|done]. injection H as H1 H2 H3. eauto.
Qed.
Lemma places_lookup s s' k c' : places s' = places s → memory_cursors s' !! k = Some c' → ∃ c, memory_cursors s !! k = Some c ∧ place c' = place c.
Proof.
  intros E Hl. assert (places s' !! k = Some (place c')) as H by (unfold places; by rewrite lookup_fmap, Hl).
  rewrite E in H. unfold places in H. rewrite lookup_fmap in H. destruct (memory_cursors s !! k) as [c|]; [|done]. apply (inj Some) in H. eauto.
Qed.

Lemma stream_ok_view s s' : stream_view s' = stream_view s → stream_ok s → stream_ok s'.
Proof.
  unfold stream_view. intros [= H1 H2 H3 H4 H5 H6] [A0 A1 A2 A3 A4 A5 A6 A7]. symmetry in H1.
  assert (∀ repo r, memory_stores s !! repo = Some r → ∃ r', memory_stores s' !! repo = Some r' ∧ sto_store_id r' = sto_store_id r ∧ sto_head r' = sto_head r ∧ sto_floor r' = sto_floor r) as Hf.
  { intros repo r Hl. destruct (marks_lookup _ _ _ _ H1 Hl) as (r' & Hl' & ? & ? & ?). eauto. }
  symmetry in H1. split; rewrite ?H2, ?H3, ?H5, ?H6; try done.
  - intros repo repo' r r' Hr Hr' E. destruct (marks_lookup _ _ _ _ H1 Hr) as (r0 & Hr0 & E1 & _), (marks_lookup _ _ _ _ H1 Hr') as (r1 & Hr1 & E2 & _).
    eapply A0; [done..|congruence].
  - intros repo r Hr. destruct (marks_lookup _ _ _ _ H1 Hr) as (r0 & Hr0 & _ & -> & ->). by eapply A1.
  - intros repo q e He. destruct (A2 _ _ _ He) as (r & Hr & Hq & Hp). destruct (Hf _ _ Hr) as (r' & Hr' & Ei & Eh & _). exists r'. by rewrite Ei, Eh.
  - intros repo r q Hr Hq. destruct (marks_lookup _ _ _ _ H1 Hr) as (r0 & Hr0 & _ & E1 & E2). eapply A3; [done|lia].
  - intros repo consumer c Hc. destruct (places_lookup _ _ _ _ H4 Hc) as (c0 & Hc0 & [= E1 E2 _ _ _]). destruct (A4 _ _ _ Hc0) as (r & Hr & Hq).
    destruct (Hf _ _ Hr) as (r' & Hr' & _ & Eh & _). exists r'. by rewrite E1, E2, Eh.
  - intros id sn Hs. destruct (A5 _ _ Hs) as (r & Hr & Hq). destruct (Hf _ _ Hr) as (r' & Hr' & _ & Eh & _). exists r'. by rewrite Eh.
  - intros repo consumer c id sn Hc Hid Hs E1 E2. destruct (places_lookup _ _ _ _ H4 Hc) as (c0 & Hc0 & [= F1 _ F3 _ _]). rewrite F1.
    apply (A7 repo consumer c0 id sn); [done|congruence|done..].
Qed.

(** What adds an entry after the head and moves it *)
Record appended (repo : string) (e : EntryRow) (s s' : State) : Prop := {
  ap_row : ∃ r, memory_stores s !! repo = Some r ∧ marks s' = <[repo := (sto_store_id r, sto_head r + 1, sto_floor r)]> (marks s) ∧
    memory_entries s' = <[(repo, sto_head r + 1) := e]> (memory_entries s) ∧
    (en_type e = workEventType → en_expires e = None ∧ is_Some (work_events s' !! (sto_store_id r, sto_head r + 1)));
  ap_events : work_events s ⊆ work_events s';
  ap_places : places s' = places s;
  ap_snapshots : memory_snapshots s' = memory_snapshots s ∧ memory_snapshot_items s' = memory_snapshot_items s }.
Lemma appended_stream repo e s s' : appended repo e s s' → stream_ok s → stream_ok s'.
Proof.
  intros [(r0 & Hr0 & Hm & He & Hw) Hev Hp [Hs Hi]] [A0 A1 A2 A3 A4 A5 A6 A7].
  assert (∀ repo1 r', memory_stores s' !! repo1 = Some r' → ∃ r, memory_stores s !! repo1 = Some r ∧ sto_store_id r' = sto_store_id r ∧
    sto_floor r' = sto_floor r ∧ sto_head r' = sto_head r + (if decide (repo1 = repo) then 1 else 0)) as Hb.
  { intros repo1 r' Hr'. assert (marks s' !! repo1 = Some (sto_store_id r', sto_head r', sto_floor r')) as H by (unfold marks; by rewrite lookup_fmap, Hr').
    rewrite Hm in H. apply lookup_insert_Some in H as [[-> [= E1 E2 E3]]|[Hn H]]; [exists r0; rewrite decide_True by done; split_and!; [done|congruence|lia|lia]|].
    unfold marks in H. rewrite lookup_fmap in H. destruct (memory_stores s !! repo1) as [r|]; [|done]. injection H as E1 E2 E3. exists r.
    rewrite decide_False by congruence. split_and!; [done..|lia|lia]. }
  assert (∀ repo1 r, memory_stores s !! repo1 = Some r → ∃ r', memory_stores s' !! repo1 = Some r' ∧ sto_store_id r' = sto_store_id r ∧
    sto_floor r' = sto_floor r ∧ sto_head r' = sto_head r + (if decide (repo1 = repo) then 1 else 0)) as Hf.
  { intros repo1 r Hr. assert (is_Some (marks s' !! repo1)) as H.
    { rewrite Hm. apply lookup_insert_is_Some'. right. unfold marks. by rewrite lookup_fmap, Hr. }
    unfold marks in H. rewrite lookup_fmap, fmap_is_Some in H. destruct H as [r' Hr']. exists r'. split; [done|].
    destruct (Hb _ _ Hr') as (r1 & Hr1 & H). by simplify_eq. }
  split; rewrite ?Hs, ?Hi; try done.
  - intros repo1 repo2 r1 r2 H1 H2 E. destruct (Hb _ _ H1) as (r1' & H1' & E1 & _), (Hb _ _ H2) as (r2' & H2' & E2 & _). eapply A0; [done..|congruence].
  - intros repo1 r' Hr'. destruct (Hb _ _ Hr') as (r & Hr & _ & -> & ->). pose proof (A1 _ _ Hr). case_decide; lia.
  - intros repo1 q e1 Hq. rewrite He in Hq. apply lookup_insert_Some in Hq as [[[= <- <-] <-]|[Hn Hq]].
    + destruct (Hf _ _ Hr0) as (r' & Hr' & Ei & _ & Eh). rewrite decide_True in Eh by done. pose proof (A1 _ _ Hr0). exists r'. rewrite Ei, Eh. split_and!; [done|lia|lia|done].
    + destruct (A2 _ _ _ Hq) as (r & Hr & Hlt & Hp1). destruct (Hf _ _ Hr) as (r' & Hr' & Ei & _ & Eh). exists r'. rewrite Ei. split_and!; [done|lia| |].
      * case_decide; lia.
      * intros Ht. destruct (Hp1 Ht) as [? [x Hx]]. split; [done|]. exists x. by eapply lookup_weaken.
  - intros repo1 r' q Hr' Hq. destruct (Hb _ _ Hr') as (r & Hr & _ & Ef & Eh). rewrite He. destruct (decide ((repo, sto_head r0 + 1) = (repo1, q))) as [E|Hne].
    + rewrite E, lookup_insert_eq. by eexists.
    + rewrite lookup_insert_ne by done. eapply A3; [done|]. case_decide as Ec; [|lia]. subst repo1. assert (r = r0) as -> by congruence.
      destruct (decide (q = sto_head r0 + 1)); [congruence|lia].
  - intros repo1 consumer c' Hc'. destruct (places_lookup _ _ _ _ Hp Hc') as (c & Hc & [= E1 E2 _ _ _]). destruct (A4 _ _ _ Hc) as (r & Hr & Hq1 & Hq2).
    destruct (Hf _ _ Hr) as (r' & Hr' & _ & _ & Eh). exists r'. rewrite E1, E2. split_and!; [done|lia|lia|]. case_decide; lia.
  - intros id sn Hsn. destruct (A5 _ _ Hsn) as (r & Hr & Hq1 & Hq2). destruct (Hf _ _ Hr) as (r' & Hr' & _ & _ & Eh). exists r'. split_and!; [done|lia| |lia|lia]. case_decide; lia.
  - intros repo1 consumer c id sn Hc Hid Hsn E1 E2. destruct (places_lookup _ _ _ _ Hp Hc) as (c0 & Hc0 & [= F1 _ F3 _ _]). rewrite F1. apply (A7 repo1 consumer c0 id sn); [done|congruence|done..].
Qed.

(** ** Transactions of one store

    [fresh] is the store ID that a first write of the repository takes: no other store has it. *)
Definition reserved (repo fresh : string) (s : State) : Prop := ∀ repo' r, memory_stores s !! repo' = Some r → sto_store_id r = fresh → repo' = repo.
Definition own (repo fresh : string) (s : State) : Prop := stream_ok s ∧ reserved repo fresh s.
Definition in_store (repo fresh store : string) (s : State) : Prop := own repo fresh s ∧ storeOf repo s = Some store.

Definition store_ids (s : State) : gmap string string := sto_store_id <$> memory_stores s.
Lemma storeOf_ids repo s : storeOf repo s = store_ids s !! repo.
Proof. unfold storeOf, store_ids. by rewrite lookup_fmap. Qed.
Lemma reserved_ids repo fresh s s' : store_ids s' = store_ids s → reserved repo fresh s → reserved repo fresh s'.
Proof.
  intros E H repo' r Hr Hid. assert (store_ids s' !! repo' = Some fresh) as Hl by (unfold store_ids; rewrite lookup_fmap, Hr; cbn; by rewrite Hid).
  rewrite E in Hl. unfold store_ids in Hl. rewrite lookup_fmap, fmap_Some in Hl. destruct Hl as (r0 & Hr0 & E0). by eapply H.
Qed.
Lemma marks_ids s s' : marks s' = marks s → store_ids s' = store_ids s.
Proof. intros E. transitivity ((λ x : string * Z * Z, x.1.1) <$> marks s'); [|rewrite E]; unfold marks, store_ids; rewrite <-map_fmap_compose; by apply map_fmap_ext. Qed.
Lemma in_store_ids repo fresh store s s' : store_ids s' = store_ids s → stream_ok s' → in_store repo fresh store s → in_store repo fresh store s'.
Proof. intros E Hok [[_ Hr] Hs]. split; [split; [done|by eapply reserved_ids]|]. by rewrite storeOf_ids, E, <-storeOf_ids. Qed.

Lemma in_store_view repo fresh store s s' : stream_view s' = stream_view s → in_store repo fresh store s → in_store repo fresh store s'.
Proof. intros E H. eapply in_store_ids; [|by eapply stream_ok_view, H|done]. apply marks_ids. by injection E. Qed.
Lemma in_store_keeps {A} repo fresh store (m : tx A) : Keeps stream_view m → Maintains (in_store repo fresh store) m.
Proof. apply maintains_keeps, in_store_view. Qed.
Lemma in_store_appended repo fresh store e s s' : appended repo e s s' → in_store repo fresh store s → in_store repo fresh store s'.
Proof.
  intros Ha H. eapply in_store_ids; [|by eapply appended_stream, H|done]. destruct (ap_row _ _ _ _ Ha) as (r & Hr & Hm & _).
  transitivity ((λ x : string * Z * Z, x.1.1) <$> marks s'); [unfold marks, store_ids; rewrite <-map_fmap_compose; by apply map_fmap_ext|]. rewrite Hm.
  apply map_eq. intros k. unfold marks, store_ids. rewrite !lookup_fmap. destruct (decide (k = repo)) as [->|Hn].
  - by rewrite lookup_insert_eq, Hr.
  - rewrite lookup_insert_ne by done. rewrite lookup_fmap. by destruct (memory_stores s !! k).
Qed.

Lemma mark_update P (f : StoreRow → StoreRow) s : (∀ r, sto_store_id (f r) = sto_store_id r ∧ sto_head (f r) = sto_head r ∧ sto_floor (f r) = sto_floor r) →
  marks (s <| memory_stores := update_where P f (memory_stores s) |>) = marks s.
Proof.
  intros Hf. unfold marks. cbn. apply map_eq. intros repo. rewrite !lookup_fmap, lookup_update_where. destruct (memory_stores s !! repo) as [r|]; [|done].
  cbn. destruct (P repo r); [|done]. by destruct (Hf r) as (-> & -> & ->).
Qed.
Lemma keeps_update_store store f : (∀ r, sto_store_id (f r) = sto_store_id r ∧ sto_head (f r) = sto_head r ∧ sto_floor (f r) = sto_floor r) →
  Keeps stream_view (update_store store f).
Proof. intros Hf. unfold update_store. apply keeps_modify. intros s. unfold stream_view. cbn. f_equal. do 5 f_equal. by apply (mark_update _ f). Qed.

(** *** Work *)

Section works.
Context `{SHA : Sha256}.
Variable json_float : float → string.
Variable processStart : Z → ProcessStart.
Variables (repo fresh store : string).

Lemma event_appended m w kind consumer now w' s s' : mc_Repository m = repo → storeOf repo s = Some store → stream_ok s →
  recorded_event json_float store m w kind consumer now w' s s' → ∃ e, appended repo e s s'.
Proof.
  intros Hm Hst Hok He. destruct (re_row _ _ _ _ _ _ _ _ _ _ He) as (r & Hr & Hq). apply store_row_Some in Hr as (repo1 & Hr & Hid).
  unfold storeOf in Hst. apply fmap_Some in Hst as (r0 & Hr0 & Hst). assert (repo1 = repo) as -> by (eapply (so_ids _ Hok); [done..|congruence]).
  assert (r0 = r) as -> by congruence. destruct (re_entries _ _ _ _ _ _ _ _ _ _ He) as (e & Ht & _ & _ & _ & _ & _ & _ & Hx & Hent).
  rewrite Hm, Hq in Hent. destruct (re_events _ _ _ _ _ _ _ _ _ _ He) as (payload & _ & _ & _ & Hev). rewrite Hq in Hev.
  exists e. split.
  - exists r. split; [done|]. split; [|split; [done|]].
    + apply map_eq. intros k. unfold marks. rewrite lookup_fmap, (re_stores _ _ _ _ _ _ _ _ _ _ He). unfold head_moved. rewrite lookup_update_where.
      destruct (decide (k = repo)) as [->|Hn]; [rewrite lookup_insert_eq, Hr; cbn; by rewrite (proj2 (seqb_true _ _)) by congruence|].
      rewrite lookup_insert_ne, lookup_fmap by done. destruct (memory_stores s !! k) as [rk|] eqn:Ek; [|done]. cbn.
      destruct (seqb (sto_store_id rk) store) eqn:Es; [|done]. apply seqb_true in Es. destruct Hn. eapply (so_ids _ Hok); [done..|congruence].
    + intros _. split; [done|]. rewrite Hev, <-Hst, lookup_insert_eq. by eexists.
  - rewrite Hev. apply insert_subseteq. rewrite <-Hq. apply (re_free _ _ _ _ _ _ _ _ _ _ He).
  - by rewrite (re_rest _ _ _ _ _ _ _ _ _ _ He).
  - by rewrite (re_rest _ _ _ _ _ _ _ _ _ _ He).
Qed.
Lemma event_in m w kind consumer author now : mc_Repository m = repo → Maintains (in_store repo fresh store) (event json_float store m w kind consumer author now).
Proof.
  intros Hm s w' s' Hs He%event_Ok. destruct (event_appended _ _ _ _ _ _ _ _ Hm (proj2 Hs) (proj1 (proj1 Hs)) He) as [e Ha]. by eapply in_store_appended.
Qed.

Lemma counter_stream get set_ : (∀ n r, sto_store_id (set_ n r) = sto_store_id r ∧ sto_head (set_ n r) = sto_head r ∧ sto_floor (set_ n r) = sto_floor r) →
  Keeps stream_view (counter get set_ store).
Proof. intros Hf. unfold counter. keeps. by apply keeps_update_store. Qed.
Lemma storeReplay_stream m r actor print result now : Keeps stream_view (storeReplay json_float store m r actor print result now).
Proof. intros s u s' H. apply storeReplay_Ok in H. destruct (keyed r); [destruct H as [_ ->]|subst s']; done. Qed.
Lemma scope_stream w consumer author now : Keeps stream_view (scope json_float store w consumer author now).
Proof. unfold scope. keeps. Qed.
Lemma owner_stream workID consumer g now : Keeps stream_view (owner store workID consumer g now).
Proof. unfold owner. keeps. Qed.
Lemma renew_stream workID consumer g revision now duration : Keeps stream_view (renew store workID consumer g revision now duration).
Proof. unfold renew, update_bundle. keeps; apply owner_stream. Qed.
Lemma acquire_stream workID consumer epoch optional now duration : Keeps stream_view (acquire store workID consumer epoch optional now duration).
Proof.
  unfold acquire. keeps.
  - by apply counter_stream.
  - intros s x s'. unfold insert_bundle. destruct (_ || _); [done|]. by intros [= _ <-].
  - intros s x s'. unfold insert_resource. destruct (bool_decide _); [done|]. by intros [= _ <-].
Qed.
Lemma release_stream workID consumer g now : Keeps stream_view (release store workID consumer g now).
Proof. unfold release, end_, update_bundle. keeps. apply owner_stream. Qed.
Lemma progress_stream workID consumer g epoch now : Keeps stream_view (progress store workID consumer g epoch now).
Proof. unfold progress, update_bundle. keeps. apply owner_stream. Qed.
Lemma lift_stream {A} (o : result error A) : Keeps stream_view (lift o).
Proof. intros s a s' [_ ->]%lift_Ok. done. Qed.
#[local] Hint Resolve storeReplay_stream scope_stream owner_stream renew_stream acquire_stream release_stream progress_stream lift_stream : frame.
#[local] Hint Extern 1 (Keeps stream_view (check _)) => apply check_keeps : frame.

Lemma create_stream m r now : Keeps stream_view (create json_float store m r now).
Proof.
  unfold create, work_counter. keeps; [by apply counter_stream|]. intros s x s'. unfold insert_item. destruct (_ || _); [done|]. by intros [= _ <-].
Qed.
Lemma leave_stream m r now w : Keeps stream_view (leave store m r now w).
Proof. unfold leave. keeps. Qed.
Lemma start_stream m r now actor w : Keeps stream_view (start store m r now actor w).
Proof. unfold start, bind_actor, update_bundle. keeps. Qed.
Lemma report_stream l m r now w : Keeps stream_view (report store l m r now w).
Proof. unfold report, reserveVerdict. keeps. Qed.
#[local] Hint Resolve create_stream leave_stream start_stream report_stream : frame.
Lemma change_stream l m r now actor w : Keeps stream_view (change json_float store l m r now actor w).
Proof. unfold change, propose, edit, update, release_item, finish_item, accept, reject. cbn zeta. keeps. Qed.
Lemma handoff_stream now_send m r : Keeps stream_view (notifyCheckoutHandoff processStart now_send m r).
Proof.
  assert (∀ caller to body d, Keeps stream_view (sendTx processStart now_send caller to body d)).
  { intros. unfold sendTx, check, recipient_of, ensureParticipantInbox, sender_of, bumpInbox. keeps. }
  unfold notifyCheckoutHandoff. keeps.
Qed.
#[local] Hint Resolve change_stream handoff_stream : frame.

#[local] Abbreviation held_in := (Maintains (in_store repo fresh store)).
Lemma complete_in m r now now_send actor print kind w : mc_Repository m = repo → held_in (complete json_float processStart store m r now now_send actor print kind w).
Proof.
  intros Hm. unfold complete. apply maintains_bind; [by apply event_in|]. intros w'. apply in_store_keeps. keeps.
Qed.
Lemma apply_in l m r now now_send print : mc_Repository m = repo → held_in (apply json_float processStart store l m r now now_send print).
Proof.
  intros Hm. unfold apply. apply maintains_bind; [by apply in_store_keeps, check_keeps|intros _]. case_match.
  - apply maintains_bind; [apply in_store_keeps; keeps|]. intros w. by apply complete_in.
  - apply maintains_bind; [apply in_store_keeps; unfold current; keeps|intros w]. apply maintains_bind; [by apply in_store_keeps, check_keeps|intros _].
    apply maintains_bind; [apply in_store_keeps; keeps|intros held]. apply maintains_bind; [apply in_store_keeps; unfold prove_claim; keeps|intros actor].
    case_match; [apply in_store_keeps; unfold renew_claim; keeps|]. do 2 (apply maintains_bind; [apply in_store_keeps; keeps|intros _]).
    apply maintains_bind; [apply in_store_keeps; keeps|intros [kind w']]. by apply complete_in.
Qed.
Lemma reconcile_in w g held now : held_in (reconcileTx json_float repo w g held now store).
Proof.
  unfold reconcileTx. apply maintains_bind.
  - apply in_store_keeps. unfold expire, overdue, end_, update_bundle. cbn zeta. keeps.
  - intros [kind w']. apply maintains_bind; [by apply event_in|]. intros _. apply in_store_keeps. keeps.
Qed.
Lemma reclaimInactive_in workID : held_in (reclaimInactiveTx workID store).
Proof. apply in_store_keeps. unfold reclaimInactiveTx, delete_bundle. keeps. Qed.
Lemma reclaimOne_in : held_in (reclaimOne store).
Proof. apply in_store_keeps. unfold reclaimOne, delete_bundle. keeps. Qed.
End works.

(** ** Removals *)

(** What a removal of entries below a new floor keeps *)
Record lowered (repo : string) (floor : Z) (s s' : State) : Prop := {
  lo_marks : ∃ r, memory_stores s !! repo = Some r ∧ sto_floor r ≤ floor ≤ sto_head r ∧ marks s' = <[repo := (sto_store_id r, sto_head r, floor)]> (marks s);
  lo_entries : memory_entries s' ⊆ memory_entries s ∧ ∀ repo' q e, memory_entries s !! (repo', q) = Some e → repo' ≠ repo ∨ floor < q → memory_entries s' !! (repo', q) = Some e;
  lo_events : ∀ repo' q e r x, memory_entries s' !! (repo', q) = Some e → memory_stores s !! repo' = Some r → work_events s !! (sto_store_id r, q) = Some x →
    en_type e = workEventType → work_events s' !! (sto_store_id r, q) = Some x;
  lo_places : places s' = places s;
  lo_snapshots : memory_snapshots s' = memory_snapshots s ∧ memory_snapshot_items s' = memory_snapshot_items s }.
Lemma lowered_ids repo floor s s' : lowered repo floor s s' → store_ids s' = store_ids s.
Proof.
  intros [(r & Hr & _ & Hm) _ _ _ _]. transitivity ((λ x : string * Z * Z, x.1.1) <$> marks s'); [unfold marks, store_ids; rewrite <-map_fmap_compose; by apply map_fmap_ext|]. rewrite Hm.
  apply map_eq. intros k. unfold marks, store_ids. rewrite !lookup_fmap. destruct (decide (k = repo)) as [->|Hn]; [by rewrite lookup_insert_eq, Hr|].
  rewrite lookup_insert_ne by done. rewrite lookup_fmap. by destruct (memory_stores s !! k).
Qed.
Lemma lowered_ok repo floor s s' : lowered repo floor s s' → stream_ok s → stream_ok s'.
Proof.
  intros [(r0 & Hr0 & Hfl & Hm) [Hsub Hkeep] Hev Hp [Hs Hi]] [A0 A1 A2 A3 A4 A5 A6 A7].
  assert (∀ repo1 r', memory_stores s' !! repo1 = Some r' → ∃ r, memory_stores s !! repo1 = Some r ∧ sto_store_id r' = sto_store_id r ∧
    sto_head r' = sto_head r ∧ sto_floor r' = if decide (repo1 = repo) then floor else sto_floor r) as Hb.
  { intros repo1 r' Hr'. assert (marks s' !! repo1 = Some (sto_store_id r', sto_head r', sto_floor r')) as H by (unfold marks; by rewrite lookup_fmap, Hr').
    rewrite Hm in H. apply lookup_insert_Some in H as [[-> [= E1 E2 E3]]|[Hn H]]; [exists r0; rewrite decide_True by done; split_and!; [done|congruence|lia|lia]|].
    unfold marks in H. rewrite lookup_fmap in H. destruct (memory_stores s !! repo1) as [r|]; [|done]. injection H as E1 E2 E3. exists r.
    rewrite decide_False by congruence. split_and!; [done..|lia|lia]. }
  assert (∀ repo1 r, memory_stores s !! repo1 = Some r → ∃ r', memory_stores s' !! repo1 = Some r' ∧ sto_store_id r' = sto_store_id r ∧ sto_head r' = sto_head r) as Hf.
  { intros repo1 r Hr. assert (is_Some (marks s' !! repo1)) as H.
    { rewrite Hm. apply lookup_insert_is_Some'. right. unfold marks. by rewrite lookup_fmap, Hr. }
    unfold marks in H. rewrite lookup_fmap, fmap_is_Some in H. destruct H as [r' Hr']. exists r'. split; [done|].
    destruct (Hb _ _ Hr') as (r1 & Hr1 & ? & ? & _). by simplify_eq. }
  split; rewrite ?Hs, ?Hi; try done.
  - intros repo1 repo2 r1 r2 H1 H2 E. destruct (Hb _ _ H1) as (r1' & H1' & E1 & _), (Hb _ _ H2) as (r2' & H2' & E2 & _). eapply A0; [done..|congruence].
  - intros repo1 r' Hr'. destruct (Hb _ _ Hr') as (r & Hr & _ & -> & ->). pose proof (A1 _ _ Hr). case_decide; [subst; simplify_eq; pose proof (A1 _ _ Hr0)|]; lia.
  - intros repo1 q e Hq. pose proof (lookup_weaken _ _ _ _ Hq Hsub) as Hq0. destruct (A2 _ _ _ Hq0) as (r & Hr & Hlt & Hp1). destruct (Hf _ _ Hr) as (r' & Hr' & Ei & Eh).
    exists r'. rewrite Ei, Eh. split_and!; [done|lia|lia|]. intros Ht. destruct (Hp1 Ht) as [? [x Hx]]. split; [done|]. exists x. by eapply Hev.
  - intros repo1 r' q Hr' Hq. destruct (Hb _ _ Hr') as (r & Hr & _ & Eh & Ef). destruct (A3 repo1 r q Hr) as [e He].
    { case_decide; [subst; simplify_eq; lia|lia]. }
    exists e. eapply Hkeep; [done|]. destruct (decide (repo1 = repo)); [right; lia|by left].
  - intros repo1 consumer c' Hc'. destruct (places_lookup _ _ _ _ Hp Hc') as (c & Hc & [= E1 E2 _ _ _]). destruct (A4 _ _ _ Hc) as (r & Hr & Hq).
    destruct (Hf _ _ Hr) as (r' & Hr' & _ & Eh). exists r'. by rewrite E1, E2, Eh.
  - intros id sn Hsn. destruct (A5 _ _ Hsn) as (r & Hr & Hq). destruct (Hf _ _ Hr) as (r' & Hr' & _ & Eh). exists r'. by rewrite Eh.
  - intros repo1 consumer c id sn Hc Hid Hsn E1 E2. destruct (places_lookup _ _ _ _ Hp Hc) as (c0 & Hc0 & [= F1 _ F3 _ _]). rewrite F1. apply (A7 repo1 consumer c0 id sn); [done|congruence|done..].
Qed.

(** *** A finished item *)

Lemma max_seq_ge {V} (l : list ((string * Z) * V)) a : a ≤ foldr (λ ke acc, Z.max ke.1.2 acc) a l.
Proof. induction l; cbn; lia. Qed.
Lemma max_seq_bound {V} (l : list ((string * Z) * V)) k v : (k, v) ∈ l → k.2 ≤ foldr (λ ke acc, Z.max ke.1.2 acc) 0 l.
Proof. induction l as [|x l IH]; [by intros ?%elem_of_nil|]. intros [<-|Hin]%elem_of_cons; cbn; [lia|]. specialize (IH Hin). lia. Qed.
Lemma max_seq_le {V} (l : list ((string * Z) * V)) a b : a ≤ b → (∀ k v, (k, v) ∈ l → k.2 ≤ b) → foldr (λ ke acc, Z.max ke.1.2 acc) a l ≤ b.
Proof. intros Ha H. induction l as [|[k v] l IH]; cbn; [lia|]. pose proof (H k v ltac:(left)). assert (foldr (λ ke acc, Z.max ke.1.2 acc) a l ≤ b); [|lia]. apply IH. intros k' v' Hin. apply (H k' v'). by right. Qed.

Lemma entry_agrees_entry repo s k e : entry_agrees repo s k e = true → ∃ en, memory_entries s !! (repo, k.2) = Some en.
Proof. unfold entry_agrees. destruct (memory_entries s !! (repo, k.2)); [eauto|done]. Qed.

Lemma reclaimFinished_in l repo fresh workID at_ store : Maintains (in_store repo fresh store) (reclaimFinishedTx l repo workID at_ store).
Proof.
  intros s u s' Hs H. unfold reclaimFinishedTx in H. apply bind_Ok in H as (o & s1 & [= -> ->]%gets_Ok & H).
  destruct (work_items s !! (store, workID)) as [w|]; [|by run H]. destruct (negb _); [by run H|].
  apply bind_Ok in H as (h & s1 & [= -> ->]%gets_Ok & H). destruct (bundleFor store workID s) as [[g b]|]; [destruct (b_active b); by run H|].
  run H. unfold update_store in R. run R. destruct Hs as [[Hok Hres] Hst]. pose proof Hst as Hst0. unfold storeOf in Hst. apply fmap_Some in Hst as (r & Hr & Hid).
  rewrite !andb_true_iff in G. destruct G as [_ _]. rewrite negb_true_iff, orb_false_iff in G0. destruct G0 as [G0 _].
  set (events := select (events_of_item store workID) (work_events s)) in *. set (highest := foldr _ _ events).
  assert (∀ k e, (k, e) ∈ events → entry_agrees repo s k e = true) as Hagree.
  { intros k e Hin. destruct (entry_agrees repo s k e) eqn:E; [done|]. rewrite <-not_true_iff_false in G0. destruct G0. apply existsb_exists. exists (k, e).
    split; [by apply list_elem_of_In|]. cbn. by rewrite E. }
  assert (0 ≤ highest ≤ sto_head r) as Hhigh.
  { split; [apply max_seq_ge|]. pose proof (so_floor _ Hok _ _ Hr). apply (max_seq_le events 0 (sto_head r)); [lia|]. intros k e Hin. destruct (entry_agrees_entry _ _ _ _ (Hagree _ _ Hin)) as [en He].
    destruct (so_entry _ Hok _ _ _ He) as (r1 & Hr1 & Hq & _). simplify_eq. lia. }
  match goal with |- in_store _ _ _ ?s2 => assert (lowered repo (Z.max (sto_floor r) highest) s s2) as Hlow end.
  2:{ eapply in_store_ids; [by eapply lowered_ids|by eapply lowered_ok|done]. }
  split; cbn.
  - exists r. split; [done|]. pose proof (so_floor _ Hok _ _ Hr). split; [lia|]. apply map_eq. intros k. unfold marks. cbn. rewrite lookup_fmap, lookup_update_where.
    destruct (decide (k = repo)) as [->|Hn]; [rewrite lookup_insert_eq, Hr; cbn; by rewrite (proj2 (seqb_true _ _)) by congruence|].
    rewrite lookup_insert_ne, lookup_fmap by done. destruct (memory_stores s !! k) as [rk|] eqn:Ek; [|done]. cbn.
    destruct (seqb (sto_store_id rk) store) eqn:Es; [|done]. apply seqb_true in Es. destruct Hn. eapply (so_ids _ Hok); [done..|congruence].
  - split; [apply map_filter_subseteq|]. intros repo' q e He Hq. apply map_lookup_filter_Some. split; [done|]. cbn.
    destruct (bool_decide (repo' = repo)) eqn:Eb; [|done]. apply bool_decide_eq_true in Eb as ->. cbn.
    destruct (work_events s !! (store, q)) as [x|] eqn:Ex; [|done]. destruct (seqb (we_work_id x) workID) eqn:Ew; [|done].
    assert (((store, q), x) ∈ events) as Hin by (apply elem_of_select; split; [done|]; unfold events_of_item; cbn; by rewrite Ew, (proj2 (seqb_true store store) eq_refl)).
    pose proof (max_seq_bound _ _ _ Hin) as Hle. cbn in Hle. fold highest in Hle. destruct Hq; [done|lia].
  - intros repo' q e r' x [He Hf]%map_lookup_filter_Some Hr' Hx Ht. apply map_lookup_filter_Some. split; [done|]. cbn in *. unfold events_of_item. cbn.
    destruct (seqb (sto_store_id r') store) eqn:Es; [|done]. cbn. apply seqb_true in Es. assert (repo' = repo) as -> by (eapply (so_ids _ Hok); [done..|congruence]).
    rewrite bool_decide_true in Hf by done. cbn in Hf. by rewrite <-Es, Hx in Hf.
  - done.
  - done.
Qed.

(** *** A whole transaction *)

Lemma ensure_store_own repo fresh : ∀ s store s', own repo fresh s → ensure_store repo fresh s = Ok (store, s') → in_store repo fresh store s'.
Proof.
  intros s store s' [Hok Hres] H. unfold ensure_store in H. run H. unfold storeOf. destruct (memory_stores s !! repo) as [r|] eqn:E; rewrite ?E.
  { split; [done|]. unfold storeOf. by rewrite E. }
  cbn. rewrite lookup_insert_eq. cbn. split; [|unfold storeOf; cbn; by rewrite lookup_insert_eq].
  assert (∀ repo1 r, memory_stores s !! repo1 = Some r → <[repo:=mkStoreRow fresh 0 0 0 0 0]> (memory_stores s) !! repo1 = Some r) as Hf.
  { intros repo1 r Hr. rewrite lookup_insert_ne; [done|congruence]. }
  split.
  - destruct Hok as [A0 A1 A2 A3 A4 A5 A6 A7]. split; cbn; try done.
    + intros repo1 repo2 r1 r2 [[<- <-]|[_ H1]]%lookup_insert_Some [[<- <-]|[_ H2]]%lookup_insert_Some Ei; [done|symmetry; by eapply Hres|by eapply Hres|by eapply A0].
    + intros repo1 r1 [[<- <-]|[_ H1]]%lookup_insert_Some; [done|by eapply A1].
    + intros repo1 q e He. destruct (A2 _ _ _ He) as (r & Hr & ?). exists r. split; [by apply Hf|done].
    + intros repo1 r1 q [[<- <-]|[_ H1]]%lookup_insert_Some Hq; [cbn in Hq; lia|by eapply A3].
    + intros repo1 consumer c Hc. destruct (A4 _ _ _ Hc) as (r & Hr & ?). exists r. split; [by apply Hf|done].
    + intros id sn Hs. destruct (A5 _ _ Hs) as (r & Hr & ?). exists r. split; [by apply Hf|done].
  - intros repo1 r. cbn. intros [[<- <-]|[_ H1]]%lookup_insert_Some Hid; [done|by eapply Hres].
Qed.
Section whole.
Variable json_float : float → string.
Lemma workTx_own {A} l repo fresh class (body : string → tx A) : (∀ store, Maintains (in_store repo fresh store) (body store)) → Maintains (own repo fresh) (workTx json_float l repo fresh class body).
Proof.
  intros Hb s a s' Hs H. unfold workTx in H. apply bind_Ok in H as (store & s1 & H0 & H). apply bind_Ok in H as (a' & s2 & H1 & H).
  apply bind_Ok in H as (u & s3 & [_ [= -> ->]]%check_Ok & H). apply ret_Ok in H as [= -> ->].
  eapply Hb; [|exact H1]. by eapply ensure_store_own.
Qed.
End whole.

(** ** Expiry *)

Record shrunk (s s' : State) : Prop := {
  sh_ok : stream_ok s → stream_ok s';
  sh_heads : heads s' = heads s;
  sh_cursors : memory_cursors s' ⊆ memory_cursors s;
  sh_snapshots : memory_snapshots s' ⊆ memory_snapshots s;
  sh_entries : memory_entries s' ⊆ memory_entries s }.
#[export] Instance shrunk_preorder : PreOrder shrunk.
Proof.
  split; [by intros s; split|]. intros s1 s2 s3 [A1 A2 A3 A4 A5] [B1 B2 B3 B4 B5]. split; [by auto|congruence|by etrans..].
Qed.
Lemma heads_ids s s' : heads s' = heads s → store_ids s' = store_ids s.
Proof. intros E. transitivity (fst <$> heads s'); [|rewrite E]; unfold heads, store_ids; rewrite <-map_fmap_compose; by apply map_fmap_ext. Qed.
Lemma shrunk_own repo fresh s s' : shrunk s s' → own repo fresh s → own repo fresh s'.
Proof. intros [H1 H2 _ _ _] [Hok Hr]. split; [by apply H1|]. eapply reserved_ids; [by apply heads_ids|done]. Qed.

(** The entries that are gone are of a kind [P]; the others are as they were. *)
Definition lost (P : string * Z → EntryRow → Prop) (s s' : State) : Prop := memory_entries s' ⊆ memory_entries s ∧
  ∀ k e, memory_entries s !! k = Some e → memory_entries s' !! k = None → P k e.
#[export] Instance lost_preorder P : PreOrder (lost P).
Proof.
  split; [intros s; split; [done|]; by intros k e ->|]. intros s1 s2 s3 [A1 A2] [B1 B2]. split; [by etrans|]. intros k e Hk Hn.
  destruct (memory_entries s2 !! k) as [e2|] eqn:E2; [|by eapply A2]. pose proof (lookup_weaken _ _ _ _ E2 A1). assert (e2 = e) as -> by congruence. by eapply B2.
Qed.
Lemma lost_same P s s' : memory_entries s' = memory_entries s → lost P s s'.
Proof. intros E. unfold lost. rewrite E. split; [done|]. by intros k e ->. Qed.
Lemma lost_weaken (P Q : string * Z → EntryRow → Prop) s s' : (∀ k e, P k e → Q k e) → lost P s s' → lost Q s s'.
Proof. intros HPQ [H1 H2]. split; [done|]. eauto. Qed.
Lemma lost_lookup P s s' k e : lost P s s' → memory_entries s !! k = Some e → memory_entries s' !! k = Some e ∨ memory_entries s' !! k = None ∧ P k e.
Proof. intros [H1 H2] Hk. destruct (memory_entries s' !! k) as [e'|] eqn:E; [left; pose proof (lookup_weaken _ _ _ _ E H1); congruence|right]. eauto. Qed.
Definition expires_at (repo : string) (now : float) (k : string * Z) (e : EntryRow) : Prop := expired_entry repo now k e = true.

Lemma last_seqs_max (rows : list ((string * Z) * EntryRow)) top : StronglySorted (by_Z (λ ke : (string * Z) * EntryRow, ke.1.2)) rows →
  last ((λ ke : (string * Z) * EntryRow, ke.1.2) <$> rows) = Some top → ∀ ke, ke ∈ rows → ke.1.2 ≤ top.
Proof.
  induction rows as [|x rows IH]; [done|]. intros [Hs Hf]%StronglySorted_inv Hl ke [->|Hin]%elem_of_cons.
  - destruct rows as [|y rows]; [cbn in Hl; injection Hl as ->; lia|]. apply last_Some_elem_of, list_elem_of_fmap in Hl as (z & -> & Hz).
    apply elem_of_cons in Hz as [->|Hz]; [done|]. rewrite Forall_forall in Hf. by apply Hf.
  - destruct rows as [|y rows]; [by apply elem_of_nil in Hin|]. by apply IH.
Qed.

Lemma take_sorted {A} (R : A → A → Prop) n (l : list A) : StronglySorted R l → StronglySorted R (take n l).
Proof. rewrite <-(take_drop n l) at 1. apply StronglySorted_app_1_l. Qed.

Section expiry.
Variable json_library : string → option string.

Lemma expire_batch_shrunk repo now s n s' : expire_batch json_library repo now s = Ok (n, s') → stream_ok s → shrunk s s'.
Proof.
  intros H Hok. unfold expire_batch in H. run H. set (rows := take batch_size _) in *.
  destruct (last _) as [top|] eqn:Et; [|by run H]. run H. cbn in *.
  assert (∀ ke, ke ∈ rows → memory_entries s !! ke.1 = Some ke.2 ∧ expired_entry repo now ke.1 ke.2 = true) as Hrows.
  { intros [k e] Hin. apply elem_of_take in Hin as (i & Hi & _). apply list_elem_of_lookup_2, elem_of_order_by, elem_of_select in Hi. done. }
  assert (∀ ke, ke ∈ rows → ke.1.2 ≤ top) as Htop.
  { apply last_seqs_max; [|done]. apply take_sorted, order_by_sorted. }
  apply last_Some_elem_of, list_elem_of_fmap in Et as ([[repo1 q] e] & Etop & Hin). cbn in Etop. subst q.
  destruct (Hrows _ Hin) as [He Hx]. unfold expired_entry in Hx. cbn in He, Hx. apply andb_true_iff in Hx as [->%seqb_true _].
  destruct (so_entry _ Hok _ _ _ He) as (r & Hr & Hq & _). pose proof (so_floor _ Hok _ _ Hr) as Hfl.
  match goal with |- shrunk s ?s2 => assert (lowered repo (Z.max (sto_floor r) top) s s2) as Hlow end.
  2:{ split; [by eapply lowered_ok| |done|done|apply map_filter_subseteq]. unfold heads. cbn. apply map_eq. intros k. rewrite !lookup_fmap. destruct (decide (k = repo)) as [->|Hn].
      - by rewrite lookup_alter_eq, Hr.
      - by rewrite lookup_alter_ne. }
  split; cbn; try done.
  - exists r. split; [done|]. split; [lia|]. apply map_eq. intros k. unfold marks. cbn. rewrite lookup_fmap. destruct (decide (k = repo)) as [->|Hn].
    + by rewrite lookup_alter_eq, lookup_insert_eq, Hr.
    + rewrite lookup_alter_ne, lookup_insert_ne, lookup_fmap by done. done.
  - split; [apply map_filter_subseteq|]. intros repo' q e' He' Hq'. apply map_lookup_filter_Some. split; [done|]. apply bool_decide_eq_false. cbn.
    intros [-> (ke & -> & Hke)%list_elem_of_fmap]. specialize (Htop _ Hke). destruct Hq'; [done|lia].
Qed.

Lemma expire_rest_shrunk l repo now s u s' : expire_rest l repo now s = Ok (u, s') → stream_ok s → shrunk s s'.
Proof.
  intros H [A0 A1 A2 A3 A4 A5 A6 A7]. unfold expire_rest in H. run H. cbn.
  split; [intros _; split; cbn; try done| |apply map_filter_subseteq|apply map_filter_subseteq|done]; [..|done].
  - intros repo1 consumer c [Hc _]%map_lookup_filter_Some. by eapply A4.
  - intros id sn [Hs _]%map_lookup_filter_Some. by eapply A5.
  - intros id p. split.
    + intros [x [Hx Ho]%map_lookup_filter_Some]. cbn in Ho. destruct (proj1 (A6 id p) ltac:(by eexists)) as (sn & Hs & Hp). exists sn. split; [|done].
      apply map_lookup_filter_Some. by rewrite Hs in Ho.
    + intros (sn & [Hs Ho]%map_lookup_filter_Some & Hp). destruct (proj2 (A6 id p) ltac:(by exists sn)) as [x Hx]. exists x.
      apply map_lookup_filter_Some. split; [done|]. cbn. by rewrite Hs.
  - intros repo1 consumer c id sn [Hc _]%map_lookup_filter_Some Hid [Hs _]%map_lookup_filter_Some. by eapply A7.
Qed.

(** What of the pending audit record and of the audit log the stream does not read *)
Lemma shrunk_pending s p : shrunk s (s <| pending := p |>).
Proof. split; [|done..]. by apply stream_ok_view. Qed.
Lemma shrunk_audit audited at_ s : shrunk s (writeAudit audited at_ s).
Proof. unfold writeAudit. destruct (pending s); [destruct audited|]; try done. split; [|done..]. by apply stream_ok_view. Qed.

(** A write whose transaction is of a kind [P]: nothing but the audit record comes around it. *)
Lemma write_runs {A} (w : Write) en (body : tx A) st r st' : write w en body st = (r, st') →
  match r with
  | Err _ => tables st' = tables st
  | Ok a => ∃ s, body ((tables st) <| pending := w_audit w |>) = Ok (a, s) ∧ tables st' = (writeAudit (w_audited w) (w_at w) s) <| pending := None |>
  end.
Proof. intros H. destruct r as [a|e]; [apply write_Ok in H as (s & ? & ? & _); eauto|by apply write_Err in H as [? _]]. Qed.
Lemma write_shrunk {A} (w : Write) en (body : tx A) st r st' : (∀ s a s', body s = Ok (a, s') → stream_ok s → shrunk s s') →
  write w en body st = (r, st') → stream_ok (tables st) → shrunk (tables st) (tables st').
Proof.
  intros Hb Hw%write_runs Hok. destruct r as [a|e]; [|by rewrite Hw]. destruct Hw as (s & Hs & ->).
  etrans; [|etrans; [apply shrunk_audit|apply shrunk_pending]]. etrans; [apply (shrunk_pending _ (w_audit w))|]. eapply Hb; [done|].
  by eapply (sh_ok _ _ (shrunk_pending _ (w_audit w))).
Qed.

Lemma expire_batches_shrunk fuel : ∀ repo now en st r st', expire_batches json_library fuel repo now en st = (r, st') → stream_ok (tables st) → shrunk (tables st) (tables st').
Proof.
  induction fuel as [|fuel IH]; cbn [expire_batches]; intros repo now en st r st' H Hok; [by injection H as _ <-|].
  destruct (write _ _ _ st) as [[n|e] st1] eqn:E; (pose proof (write_shrunk _ _ _ _ _ _ (expire_batch_shrunk repo now) E Hok) as H1); [|by injection H as _ <-].
  destruct (_ <? _); [by injection H as _ <-|]. etrans; [done|]. eapply IH; [done|]. by apply H1.
Qed.
Lemma reclaim_tables en st r st' : reclaim en st = (r, st') → tables st' = tables st.
Proof. unfold reclaim. intros H. apply prove_log_tables in H as (H & _). done. Qed.
Lemma expire_batch_lost repo now s n s' : expire_batch json_library repo now s = Ok (n, s') → lost (expires_at repo now) s s'.
Proof.
  intros H. unfold expire_batch in H. run H. set (rows := take batch_size _) in *. destruct (last _) as [top|]; [|by run H]. run H.
  split; [apply map_filter_subseteq|]. intros k e Hk Hn. cbn in Hn. apply map_lookup_filter_None in Hn as [Hn|Hn]; [congruence|]. specialize (Hn _ Hk). cbn in Hn.
  apply not_false_iff_true, bool_decide_eq_true in Hn as [Hr ([[k1 k2] e2] & Hq & Hke)%list_elem_of_fmap]. cbn in Hq.
  apply elem_of_take in Hke as (i & Hi & _). apply list_elem_of_lookup_2, elem_of_order_by, elem_of_select in Hi as [Hl Hx].
  pose proof Hx as Hx'. unfold expired_entry in Hx'. cbn in Hx', Hl. apply andb_true_iff in Hx' as [->%seqb_true _]. destruct k as [j1 j2]. cbn in Hr, Hq. subst. by assert (e2 = e) as -> by congruence.
Qed.
Lemma write_lost {A} P (w : Write) en (body : tx A) st r st' : (∀ s a s', body s = Ok (a, s') → lost P s s') → write w en body st = (r, st') → lost P (tables st) (tables st').
Proof.
  intros Hb Hw%write_runs. destruct r as [a|e]; [|by rewrite Hw]. destruct Hw as (s & Hs & ->). apply Hb in Hs.
  etrans; [|etrans; [exact Hs|]]; apply lost_same; [done|]. unfold writeAudit. by destruct (pending s), (w_audited w).
Qed.
Lemma expire_batches_lost fuel : ∀ repo now en st r st', expire_batches json_library fuel repo now en st = (r, st') → lost (expires_at repo now) (tables st) (tables st').
Proof.
  induction fuel as [|fuel IH]; cbn [expire_batches]; intros repo now en st r st' H; [by injection H as _ <-|].
  destruct (write _ _ _ st) as [[n|e] st1] eqn:E; (pose proof (write_lost _ _ _ _ _ _ _ (expire_batch_lost repo now) E) as H1); [|by injection H as _ <-].
  destruct (_ <? _); [by injection H as _ <-|]. etrans; [exact H1|]. by eapply IH.
Qed.
Lemma expireMemory_lost fuel l repo now reclaim_ en st r st' : expireMemory json_library fuel l repo now reclaim_ en st = (r, st') →
  lost (expires_at repo now) (tables st) (tables st').
Proof.
  unfold expireMemory. intros H. destruct (expire_batches _ _ _ _ _ st) as [[u|e] st1] eqn:E1; (pose proof (expire_batches_lost _ _ _ _ _ _ _ E1) as H1); [|by injection H as _ <-].
  assert (∀ s x s', expire_rest l repo now s = Ok (x, s') → lost (expires_at repo now) s s') as Hrest by (intros s x s' Hr; unfold expire_rest in Hr; run Hr; by apply lost_same).
  destruct (write _ _ _ st1) as [[u2|e] st2] eqn:E2; (pose proof (write_lost _ _ _ _ _ _ _ Hrest E2) as H2);
    (etrans; [exact H1|]); [|by injection H as _ <-].
  etrans; [exact H2|]. destruct (negb reclaim_); [by injection H as _ <-|]. destruct (blocked st2); [by injection H as _ <-|]. by rewrite (reclaim_tables _ _ _ _ H).
Qed.
Lemma maybeExpire_lost fuel l repo now en last st r st' last' : maybeExpire json_library fuel l repo now en last st = (r, st', last') →
  lost (expires_at repo now) (tables st) (tables st').
Proof.
  unfold maybeExpire. destruct (expiry_due _ _ _ _); [|by intros [= _ <- _]]. destruct (expireMemory _ _ _ _ _ _ _ st) as [r1 st1] eqn:E.
  intros [= _ <- _]. by eapply expireMemory_lost.
Qed.
Lemma expireMemory_shrunk fuel l repo now reclaim_ en st r st' : expireMemory json_library fuel l repo now reclaim_ en st = (r, st') →
  stream_ok (tables st) → shrunk (tables st) (tables st').
Proof.
  unfold expireMemory. intros H Hok. destruct (expire_batches _ _ _ _ _ st) as [[u|e] st1] eqn:E1; (pose proof (expire_batches_shrunk _ _ _ _ _ _ _ E1 Hok) as H1); [|by injection H as _ <-].
  destruct (write _ _ _ st1) as [[u2|e] st2] eqn:E2; (pose proof (write_shrunk _ _ _ _ _ _ (expire_rest_shrunk l repo now) E2 (sh_ok _ _ H1 Hok)) as H2);
    (etrans; [exact H1|]); [|by injection H as _ <-].
  etrans; [exact H2|]. destruct (negb reclaim_); [by injection H as _ <-|]. destruct (blocked st2); [by injection H as _ <-|]. by rewrite (reclaim_tables _ _ _ _ H).
Qed.
Lemma maybeExpire_shrunk fuel l repo now en last st r st' last' : maybeExpire json_library fuel l repo now en last st = (r, st', last') →
  stream_ok (tables st) → shrunk (tables st) (tables st').
Proof.
  unfold maybeExpire. destruct (expiry_due _ _ _ _); [|by intros [= _ <- _]]. destruct (expireMemory _ _ _ _ _ _ _ st) as [r1 st1] eqn:E.
  intros [= _ <- _]. by eapply expireMemory_shrunk.
Qed.
End expiry.
