(* ===== verification/ReaderSteps.v ===== *)
(** * The operations on notes and readers keep the stream

    Every operation of Notes and Readers, whatever it answers, keeps the invariant of Streams. *)

From S2P Require Import Prelude GoString GoFloat Schema Sql Label Fixture Storage Names Messages Cycles Sessions Inboxes Participants Leases LeaseProps WorkViews MemoryLimits MemoryExpiry WorkItems WorkOps Works WorkFacts WorkProps WorkSteps Library LibraryDecisions Notes Readers Streams.
Open Scope Z_scope.

(** ** A memory write *)

(** The state in which the body of a write begins *)
Record begun (repo fresh store : string) (s s2 : State) : Prop := {
  bg_in : in_store repo fresh store s2;
  bg_cursors : memory_cursors s2 ⊆ memory_cursors s;
  bg_snapshots : memory_snapshots s2 ⊆ memory_snapshots s;
  bg_head : ∀ repo', head_of repo' s2 = head_of repo' s;
  bg_entries : memory_entries s2 ⊆ memory_entries s }.

Lemma head_of_heads repo s : head_of repo s = from_option snd 0 (heads s !! repo).
Proof. unfold head_of, heads. rewrite lookup_fmap. by destruct (memory_stores s !! repo). Qed.
Lemma heads_head_of s s' : heads s' = heads s → ∀ repo, head_of repo s' = head_of repo s.
Proof. intros E repo. by rewrite !head_of_heads, E. Qed.

Lemma ensure_store_begun repo fresh s store s' : own repo fresh s → ensure_store repo fresh s = Ok (store, s') → begun repo fresh store s s'.
Proof.
  intros Hs H. pose proof (ensure_store_own _ _ _ _ _ Hs H) as Hin. split; [done|..]; unfold ensure_store in H; run H.
  - by destruct (memory_stores s !! repo).
  - by destruct (memory_stores s !! repo).
  - intros repo'. destruct (memory_stores s !! repo) as [r|] eqn:E; [done|]. unfold head_of. cbn. destruct (decide (repo' = repo)) as [->|Hn].
    + by rewrite lookup_insert_eq, E.
    + by rewrite lookup_insert_ne.
  - by destruct (memory_stores s !! repo).
Qed.

(** A change of the fields of a reader that do not place it *)
Lemma keeps_update_cursor repo consumer f : (∀ c, place (f c) = place c) → Keeps stream_view (update_cursor repo consumer f).
Proof.
  intros Hf. apply keeps_modify. intros s. unfold stream_view. cbn. do 2 f_equal. f_equal. unfold places. cbn. apply map_eq. intros k. rewrite !lookup_fmap.
  destruct (decide (k = (repo, consumer))) as [->|Hn]; [rewrite lookup_alter_eq|by rewrite lookup_alter_ne]. destruct (memory_cursors s !! (repo, consumer)); cbn; by rewrite ?Hf.
Qed.

Section writes.
Context `{SHA : Sha256}.
Variable json_float : float → string.
Variable json_library : string → option string.
Variable l : memoryLimits.
Variables (repo fresh : string).

Lemma memoryTx_runs {A} class guard (body : tx A) s a s' : own repo fresh s → memoryTx json_float l repo fresh class guard body s = Ok (a, s') →
  ∃ store s2 s3, begun repo fresh store s s2 ∧ body s2 = Ok (a, s3) ∧ stream_view s' = stream_view s3 ∧ memory_idem s' = memory_idem s3 ∧ memory_entries s2 = memory_entries s.
Proof.
  intros Hs H. unfold memoryTx in H. apply bind_Ok in H as (store & s2 & H0 & H). apply bind_Ok in H as (a' & s3 & H1 & H).
  apply bind_Ok in H as (u & s4 & H2 & H). apply bind_Ok in H as (u1 & s5 & [_ [= -> ->]]%check_Ok & H). apply ret_Ok in H as [= -> ->].
  assert (memory_entries s2 = memory_entries s) as He by (unfold ensure_store in H0; run H0; by destruct (memory_stores s !! repo)).
  exists store, s2, s3. split; [by apply ensure_store_begun|]. split; [done|]. destruct guard as [m|]; [|by run H2].
  split; [|split; [unfold update_cursor in H2; by run H2|done]]. by eapply (keeps_update_cursor repo (mc_Consumer m) (λ c, c <| cu_actor := nativeActor m |>)).
Qed.

Lemma begun_shrunk store s s1 s2 : shrunk s s1 → begun repo fresh store s1 s2 → begun repo fresh store s s2.
Proof. intros [_ H2 H3 H4 H5] [B1 B2 B3 B4 B5]. split; [done|by etrans|by etrans| |by etrans]. intros repo'. by rewrite B4, (heads_head_of _ _ H2). Qed.

Lemma memoryWrite_runs {A} c class need slots audited at_ audit clock sweep en (body : tx A) st r st' : ca_fresh c = fresh → own repo fresh (tables st) →
  memoryWrite json_float json_library l repo c class need slots audited at_ audit clock sweep en body st = (r, st') →
  match r with
  | Err _ => shrunk (tables st) (tables st')
  | Ok a => ∃ store s2 s3, begun repo fresh store (tables st) s2 ∧ body s2 = Ok (a, s3) ∧ stream_view (tables st') = stream_view s3 ∧ memory_idem (tables st') = memory_idem s3 ∧
      lost (expires_at repo clock) (tables st) s2
  end.
Proof.
  intros Hfr Hs H. unfold memoryWrite in H.
  assert (∀ st1, shrunk (tables st) (tables st1) → lost (expires_at repo clock) (tables st) (tables st1) → write (mkWrite class audited at_ audit (guard_check (ca_now c) (ca_guard c))) en
      (memoryTx json_float l repo (ca_fresh c) class (ca_guard c) body) st1 = (r, st') →
    match r with Err _ => shrunk (tables st) (tables st')
    | Ok a => ∃ store s2 s3, begun repo fresh store (tables st) s2 ∧ body s2 = Ok (a, s3) ∧ stream_view (tables st') = stream_view s3 ∧ memory_idem (tables st') = memory_idem s3 ∧ lost (expires_at repo clock) (tables st) s2 end) as Hmain.
  { intros st1 H1 Hl Hw%write_runs. destruct r as [a|e]; [|by rewrite Hw]. destruct Hw as (s & Hs1 & Ht). rewrite Hfr in Hs1. cbn in Hs1.
    assert (shrunk (tables st) ((tables st1) <| pending := audit |>)) as Hp by (etrans; [exact H1|apply shrunk_pending]).
    apply memoryTx_runs in Hs1 as (store & s2 & s3 & Hb & Hbody & Hv & Hi & He); [|by eapply shrunk_own]. exists store, s2, s3. split; [by eapply begun_shrunk|].
    split; [done|]. cut ((stream_view (tables st') = stream_view s3 ∧ memory_idem (tables st') = memory_idem s3) ∧ lost (expires_at repo clock) (tables st) s2); [tauto|].
    split; [|etrans; [exact Hl|by apply lost_same]]. rewrite Ht, <-Hv, <-Hi. unfold writeAudit. destruct (pending s); [|done]. by destruct audited. }
  destruct (refused _ _ _ _ _ _ (tables st)) as [e0|]; [|by apply (Hmain st)].
  destruct (expireMemory _ _ _ _ _ _ _ st) as [[u|e1] st1] eqn:E; pose proof (expireMemory_lost _ _ _ _ _ _ _ _ _ _ E) as El; (apply expireMemory_shrunk in E; [|apply Hs]); [|by injection H as <- <-].
  destruct (refused _ _ _ _ _ _ (tables st1)); [by injection H as <- <-|]. by apply (Hmain st1).
Qed.

(** What follows for a body that keeps the stream *)
Lemma memoryWrite_own {A} c class need slots audited at_ audit clock sweep en (body : tx A) st r st' : ca_fresh c = fresh → own repo fresh (tables st) →
  (∀ store s2 a s3, begun repo fresh store (tables st) s2 → body s2 = Ok (a, s3) → in_store repo fresh store s3) →
  memoryWrite json_float json_library l repo c class need slots audited at_ audit clock sweep en body st = (r, st') → own repo fresh (tables st').
Proof.
  intros Hfr Hs Hb H. apply memoryWrite_runs in H; [|done..]. destruct r as [a|e]; [|by eapply shrunk_own].
  destruct H as (store & s2 & s3 & Hbg & Hbody & Hv & _). eapply (in_store_view repo fresh store s3); [done|]. by eapply Hb.
Qed.
End writes.

(** ** Notes *)

(** A change of an entry that keeps its kind and its expiry *)
Lemma remarked_ok k (f : EntryRow → EntryRow) s : (∀ e, en_type (f e) = en_type e ∧ en_expires (f e) = en_expires e) →
  stream_ok s → stream_ok (s <| memory_entries := alter f k (memory_entries s) |>).
Proof.
  intros Hf [A0 A1 A2 A3 A4 A5 A6 A7]. split; cbn; try done.
  - intros repo q e. rewrite lookup_alter_Some. intros [(-> & e0 & He & ->)|[_ He]]; [|by eapply A2].
    destruct (A2 _ _ _ He) as (r & Hr & Hq & Hp). exists r. destruct (Hf e0) as [-> ->]. done.
  - intros repo r q Hr Hq. rewrite lookup_alter_is_Some. by eapply A3.
Qed.

(** The effect of a note that is no retry *)
Record noted `{SHA : Sha256} (json_float : float → string) (l : memoryLimits) (now : float) (m : MemoryCaller) (r : MemoryRecordRequest) (s : State) (res : MemoryRecordResult) (s' : State)
    (row : StoreRow) (revision : Z) (conflict : option Z) : Prop := {
  nt_row : memory_stores s !! mc_Repository m = Some row;
  nt_fresh : keyed_duplicate json_float m r s = Ok None;
  nt_target : target_state (mc_Repository m) (note_target r) s = Ok (revision, conflict);
  nt_free : memory_entries s !! (mc_Repository m, sto_head row + 1) = None;
  nt_key : ∀ key, rq_Key r = Some key → memory_idem s !! (mc_Repository m, mc_Consumer m, key) = None;
  nt_state : s' = s <| memory_stores := <[mc_Repository m := row <| sto_head := sto_head row + 1 |>]> (memory_stores s) |>
    <| memory_entries := let entries := <[(mc_Repository m, sto_head row + 1) := note_entry now m r revision conflict]> (memory_entries s) in
         match note_target r, conflict with Some t, None => alter (replaced_entry r (sto_head row + 1)) (mc_Repository m, t) entries | _, _ => entries end |>
    <| memory_idem := match rq_Key r with
         | Some key => <[(mc_Repository m, mc_Consumer m, key) := mkIdemRow fingerprintScheme (note_print json_float r) (sto_head row + 1) now (default (of_int 0) (rq_Deadline r))]> (memory_idem s)
         | None => memory_idem s
         end |>;
  nt_result : res = mkNoteResult (sto_head row + 1) false conflict (rq_Deadline r) (Some (l_idemTTL l)) }.

Section notes.
Context `{SHA : Sha256}.
Variable json_float : float → string.
Variable l : memoryLimits.

Lemma recordTx_Ok now m r s res s' : recordTx json_float l now m r s = Ok (res, s') →
  (keyed_duplicate json_float m r s = Ok (Some res) ∧ s' = s) ∨ ∃ row revision conflict, noted json_float l now m r s res s' row revision conflict.
Proof.
  intros H. unfold recordTx in H. apply bind_Ok in H as (o & s1 & [= -> ->]%gets_Ok & H). apply bind_Ok in H as (found & s1 & [Hk ->]%lift_Ok & H).
  destruct found as [original|]; [apply ret_Ok in H as [= -> ->]; by left|]. right.
  apply bind_Ok in H as (o & s1 & [= -> ->]%gets_Ok & H). apply bind_Ok in H as ([revision conflict] & s1 & [Ht ->]%lift_Ok & H).
  apply bind_Ok in H as (seq & s1 & H0 & H). unfold next_note in H0. run H0. rename v into row.
  apply bind_Ok in H as (u & s2 & H1 & H). unfold insert_entry in H1. cbn [memory_entries] in H1. destruct (bool_decide _) eqn:Ef; [done|]. injection H1 as _ <-.
  apply bool_decide_eq_false, eq_None_not_Some in Ef. exists row, revision, conflict.
  apply bind_Ok in H as (u1 & s3 & H1 & H). apply bind_Ok in H as (u2 & s4 & H2 & H). apply ret_Ok in H as [= -> ->].
  assert (s3 = s <| memory_stores := <[mc_Repository m := row <| sto_head := sto_head row + 1 |>]> (memory_stores s) |>
    <| memory_entries := let entries := <[(mc_Repository m, sto_head row + 1) := note_entry now m r revision conflict]> (memory_entries s) in
         match note_target r, conflict with Some t, None => alter (replaced_entry r (sto_head row + 1)) (mc_Repository m, t) entries | _, _ => entries end |>) as ->.
  { destruct (note_target r) as [t|]; [destruct conflict as [x|]|]; by run H1. }
  clear H1. destruct (rq_Key r) as [key|] eqn:Ek.
  - unfold insert_idem in H2. cbn in H2. destruct (memory_idem s !! _) as [x|] eqn:Ei; [done|]. injection H2 as _ <-. split; rewrite ?Ek; try done.
    by intros key' [= <-].
  - run H2. by split; rewrite ?Ek.
Qed.

Lemma noted_appended now m r s res s' row revision conflict : noted json_float l now m r s res s' row revision conflict → rq_Type r ≠ workEventType →
  appended (mc_Repository m) (note_entry now m r revision conflict) s (s' <| memory_entries := <[(mc_Repository m, sto_head row + 1) := note_entry now m r revision conflict]> (memory_entries s) |>).
Proof.
  intros [Hr _ _ _ _ -> _] Ht. split; cbn; try done. exists row. split; [done|]. split; [|done]. unfold marks. cbn. rewrite fmap_insert. done.
Qed.
Lemma recordTx_in repo fresh store now m r : mc_Repository m = repo → rq_Type r ≠ workEventType → Maintains (in_store repo fresh store) (recordTx json_float l now m r).
Proof.
  intros Hm Ht s res s' Hs [[_ ->]|(row & revision & conflict & Hn)]%recordTx_Ok; [done|]. pose proof (noted_appended _ _ _ _ _ _ _ _ _ Hn Ht) as Ha. rewrite Hm in Ha.
  pose proof (in_store_appended _ _ _ _ _ _ Ha Hs) as Hin. destruct Hn as [_ _ _ _ _ -> _]. rewrite Hm in *.
  set (s0 := s <| memory_stores := _ |> <| memory_entries := _ |> <| memory_idem := _ |>) in *.
  assert (∀ f, (∀ e, en_type (f e) = en_type e ∧ en_expires (f e) = en_expires e) → ∀ k, memory_entries s0 = alter f k (<[(repo, sto_head row + 1) := note_entry now m r revision conflict]> (memory_entries s)) →
    in_store repo fresh store s0) as Halter.
  { intros f Hf k E. eapply in_store_ids; [|eapply stream_ok_view; [|apply (remarked_ok k f _ Hf (proj1 (proj1 Hin)))]|exact Hin]; [done|]. unfold stream_view. by rewrite E. }
  destruct (note_target r) as [t|] eqn:Et; [destruct conflict as [x|]|].
  - exact (in_store_view _ _ _ _ s0 eq_refl Hin).
  - apply (Halter (replaced_entry r (sto_head row + 1)) ltac:(intros e; unfold replaced_entry; by destruct (rq_Revokes r)) (repo, t) eq_refl).
  - exact (in_store_view _ _ _ _ s0 eq_refl Hin).
Qed.

Lemma note_checks_type m r : note_checks json_float l m r = None → rq_Type (normal_note r) ≠ workEventType.
Proof. unfold note_checks. intros H E. rewrite E in H. done. Qed.
End notes.

(** ** Runs of rows *)

(** A query of consecutive keys gives them in order. *)
Lemma ordered_run {V} (P : string * Z → V → bool) (t : gmap (string * Z) V) name a n :
  (∀ k v, t !! k = Some v → P k v = true → k.1 = name ∧ a ≤ k.2 < a + n) → (∀ q, a ≤ q < a + n → ∃ v, t !! (name, q) = Some v ∧ P (name, q) v = true) →
  (λ kv : (string * Z) * V, kv.1.2) <$> order_by (λ kv : (string * Z) * V, kv.1.2) (select P t) = seqZ a n.
Proof.
  intros Hin Hall. apply (StronglySorted_unique Z.le).
  - pose proof (order_by_sorted (λ kv : (string * Z) * V, kv.1.2) (select P t)) as Hs. induction Hs as [|x l Hl IH Hx]; cbn; constructor; [done|]. apply Forall_fmap. exact Hx.
  - apply seqZ_sorted.
  - apply NoDup_Permutation.
    + apply NoDup_fmap_2_strong.
      * intros [[k1 k2] v] [[j1 j2] w] [Hk HP]%elem_of_order_by%elem_of_select [Hj HP']%elem_of_order_by%elem_of_select. cbn. intros ->.
        destruct (Hin _ _ Hk HP) as [E1 _], (Hin _ _ Hj HP') as [E2 _]. cbn in *. simplify_eq. done.
      * unfold order_by. rewrite merge_sort_Permutation. apply NoDup_select.
    + apply NoDup_seqZ.
    + intros q. rewrite elem_of_seqZ, list_elem_of_fmap. split.
      * intros ([k v] & -> & [Hk HP]%elem_of_order_by%elem_of_select). cbn. by destruct (Hin _ _ Hk HP) as [_ ?].
      * intros Hq. destruct (Hall q Hq) as (v & Hl & HP). exists ((name, q), v). split; [done|]. by apply elem_of_order_by, elem_of_select.
Qed.
Lemma ordered_rows {V} (P : string * Z → V → bool) (t : gmap (string * Z) V) kv : kv ∈ order_by (λ kv : (string * Z) * V, kv.1.2) (select P t) → t !! kv.1 = Some kv.2 ∧ P kv.1 kv.2 = true.
Proof. destruct kv as [k v]. by intros [? ?]%elem_of_order_by%elem_of_select. Qed.

(** [bounded] takes the longest prefix that fits, never nothing of something. *)
Lemma bounded_from_spec sizes : ∀ first total budget n, bounded_from first total budget sizes = Ok n →
  (n ≤ length sizes)%nat ∧ total + foldr Z.add 0 (take n sizes) ≤ Z.max total budget ∧ (first = true → sizes ≠ [] → n ≠ 0%nat) ∧
  (∀ x, sizes !! n = Some x → budget < total + foldr Z.add 0 (take n sizes) + x).
Proof.
  induction sizes as [|x sizes IH]; cbn; intros first total budget n H; [injection H as <-; cbn; split_and!; [lia|lia|done|done]|].
  destruct (budget <? total + x) eqn:E; [destruct first; [done|]; injection H as <-; cbn; split_and!; [lia|lia|done|]; intros y [= <-]; lia|].
  destruct (bounded_from false (total + x) budget sizes) as [n'|e] eqn:Hn; [|done]. injection H as <-. destruct (IH _ _ _ _ Hn) as (H1 & H2 & _ & H4). cbn.
  split_and!; [lia|lia|done|]. intros y Hy. specialize (H4 y Hy). lia.
Qed.
Lemma bounded_spec sizes budget n : 0 ≤ budget → bounded sizes budget = Ok n →
  (n ≤ length sizes)%nat ∧ foldr Z.add 0 (take n sizes) ≤ budget ∧ (sizes ≠ [] → n ≠ 0%nat) ∧ (∀ x, sizes !! n = Some x → budget < foldr Z.add 0 (take n sizes) + x).
Proof. intros Hb H. destruct (bounded_from_spec _ _ _ _ _ H) as (H1 & H2 & H3 & H4). split_and!; [done|lia|by apply H3|]. intros x Hx. specialize (H4 x Hx). lia. Qed.

(** The rest of a snapshot is a run of positions. *)
Lemma items_rows id token s sn : stream_ok s → memory_snapshots s !! id = Some sn → 0 ≤ token ≤ sn_items sn →
  (λ ki : (string * Z) * SnapshotItem, ki.1.2) <$> order_by (λ ki : (string * Z) * SnapshotItem, ki.1.2) (select (λ k _, seqb k.1 id && (token <=? k.2)) (memory_snapshot_items s)) =
    seqZ token (sn_items sn - token).
Proof.
  intros Hok Hs Ht. apply (ordered_run _ _ id).
  - intros [k1 k2] v Hk HP. cbn in HP. apply andb_true_iff in HP as [->%seqb_true Hle]. destruct (proj1 (so_items _ Hok id k2) ltac:(by eexists)) as (sn' & Hs' & Hp).
    assert (sn' = sn) as -> by congruence. split; [done|]. cbn. lia.
  - intros q Hq. destruct (proj2 (so_items _ Hok id q) ltac:(exists sn; split; [done|lia])) as [v Hv]. exists v. split; [done|]. cbn.
    rewrite (proj2 (seqb_true id id) eq_refl). cbn. lia.
Qed.
Lemma items_from_length id token s sn : stream_ok s → memory_snapshots s !! id = Some sn → 0 ≤ token ≤ sn_items sn → length (items_from id token s) = Z.to_nat (sn_items sn - token).
Proof. intros Hok Hs Ht. unfold items_from. rewrite length_fmap. pose proof (f_equal length (items_rows _ _ _ _ Hok Hs Ht)) as H. by rewrite length_fmap, length_seqZ in H. Qed.

(** ** Readers *)

(** What a write that places no reader does to the readers and the snapshots *)
Record quiet (s s' : State) : Prop := {
  qu_cursors : ∀ k c', memory_cursors s' !! k = Some c' → ∃ c, memory_cursors s !! k = Some c ∧ place c' = place c;
  qu_snapshots : memory_snapshots s' ⊆ memory_snapshots s;
  qu_head : ∀ repo, head_of repo s' = head_of repo s }.
#[export] Instance quiet_preorder : PreOrder quiet.
Proof.
  split; [intros s; split; eauto|]. intros s1 s2 s3 [A1 A2 A3] [B1 B2 B3]. split; [|by etrans|intros; by rewrite B3].
  intros k c' Hc. destruct (B1 _ _ Hc) as (c & Hc1 & E1). destruct (A1 _ _ Hc1) as (c0 & Hc0 & E0). exists c0. split; [done|congruence].
Qed.
Lemma shrunk_quiet s s' : shrunk s s' → quiet s s'.
Proof. intros [_ H2 H3 H4 _]. split; [|done|by apply heads_head_of]. intros k c' Hc. exists c'. split; [by eapply lookup_weaken|done]. Qed.
Lemma begun_quiet repo fresh store s s' : begun repo fresh store s s' → quiet s s'.
Proof. intros [_ H2 H3 H4 _]. split; [|done|done]. intros k c' Hc. exists c'. split; [by eapply lookup_weaken|done]. Qed.
Lemma marks_head_of s s' : marks s' = marks s → ∀ repo, head_of repo s' = head_of repo s.
Proof.
  intros E repo. unfold head_of. assert (marks s' !! repo = marks s !! repo) as H by by rewrite E. unfold marks in H. rewrite !lookup_fmap in H.
  destruct (memory_stores s' !! repo), (memory_stores s !! repo); cbn in *; congruence.
Qed.
Lemma view_quiet s s' : stream_view s' = stream_view s → quiet s s'.
Proof.
  intros [= H1 H2 H3 H4 H5 H6]. split; [|by rewrite H5|by apply marks_head_of]. intros k c' Hc. by eapply places_lookup.
Qed.

(** A reader's row [cu], as it was read: where it is still kept it is at the same place. *)
Definition at_reader (m : MemoryCaller) (cu : CursorRow) (s : State) : Prop :=
  (0 ≤ cu_seq cu ≤ cu_issued cu ∧ cu_issued cu ≤ head_of (mc_Repository m) s) ∧ ∀ c, cursor_of m s = Some c → place c = place cu.
Lemma at_reader_quiet m cu s s' : quiet s s' → at_reader m cu s → at_reader m cu s'.
Proof.
  intros [H1 _ H3] [Hb Hc]. split; [by rewrite H3|]. intros c Hl. destruct (H1 _ _ Hl) as (c0 & Hl0 & ->). by apply Hc.
Qed.
Lemma at_reader_row m cu s : stream_ok s → cursor_of m s = Some cu → at_reader m cu s.
Proof.
  intros Hok Hc. split; [|by intros c [= <-]%(eq_trans (eq_sym Hc))]. destruct (so_cursor _ Hok _ _ _ Hc) as (r & Hr & H1 & H2). unfold head_of. rewrite Hr. done.
Qed.
Lemma head_of_nonneg repo s : stream_ok s → 0 ≤ head_of repo s.
Proof. intros Hok. unfold head_of. destruct (memory_stores s !! repo) as [r|] eqn:E; [|done]. pose proof (so_floor _ Hok _ _ E). cbn. lia. Qed.

(** A change of one reader that stays within the head and behind its open snapshot *)
Lemma placed_ok repo consumer f s : stream_ok s →
  (∀ c, memory_cursors s !! (repo, consumer) = Some c → 0 ≤ cu_seq (f c) ≤ cu_issued (f c) ∧ cu_issued (f c) ≤ head_of repo s ∧
    (∀ id sn, cu_snapshot (f c) = Some id → memory_snapshots s !! id = Some sn → sn_repository sn = repo → sn_consumer sn = consumer → sn_acked sn = false ∧ cu_seq (f c) ≤ sn_head sn)) →
  stream_ok (s <| memory_cursors := alter f (repo, consumer) (memory_cursors s) |>).
Proof.
  intros [A0 A1 A2 A3 A4 A5 A6 A7] Hf. split; cbn; try done.
  - intros repo1 consumer1 c. rewrite lookup_alter_Some. intros [([= -> ->] & c0 & Hc & ->)|[_ Hc]]; [|by eapply A4].
    destruct (A4 _ _ _ Hc) as (r & Hr & _). exists r. destruct (Hf _ Hc) as (H1 & H2 & _). unfold head_of in H2. rewrite Hr in H2. done.
  - intros repo1 consumer1 c id sn. rewrite lookup_alter_Some. intros [([= -> ->] & c0 & Hc & ->)|[_ Hc]] Hid Hs E1 E2; [|by eapply A7].
    destruct (Hf _ Hc) as (_ & _ & H3). by eapply H3.
Qed.

Section readers.
Context `{SHA : Sha256}.
Variable json_float : float → string.
Variable json_library : string → option string.
Variable l : memoryLimits.
Variable c : Call.
#[local] Abbreviation m := (cl_m c).
#[local] Abbreviation repo := (mc_Repository (cl_m c)).
#[local] Abbreviation fresh := (cl_fresh c).
#[local] Abbreviation owned_ := (own repo fresh).

(** A write whose body places no reader *)
Lemma progress_quiet n clock body st r st' : owned_ (tables st) → Keeps stream_view body → memoryProgress json_float json_library l c n clock body st = (r, st') →
  owned_ (tables st') ∧ quiet (tables st) (tables st').
Proof.
  intros Hs Hk H. unfold memoryProgress in H. apply memoryWrite_runs with (fresh := fresh) in H; [|done..]. destruct r as [a|e].
  - destruct H as (store & s2 & s3 & Hb & Hbody & Hv & _). split.
    + eapply (in_store_view repo fresh store s3); [done|]. eapply in_store_keeps; [exact Hk|apply (bg_in _ _ _ _ _ Hb)|done].
    + etrans; [by eapply begun_quiet|]. etrans; [by apply view_quiet; eapply Hk|by apply view_quiet].
  - split; [by eapply shrunk_own|by apply shrunk_quiet].
Qed.
(** A write that changes the reader alone, within bounds that every earlier write keeps *)
Lemma progress_placed n clock f st r st' : owned_ (tables st) →
  (∀ s, stream_ok s → quiet (tables st) s → ∀ c0, cursor_of m s = Some c0 → 0 ≤ cu_seq (f c0) ≤ cu_issued (f c0) ∧ cu_issued (f c0) ≤ head_of repo s ∧
    (∀ id sn, cu_snapshot (f c0) = Some id → memory_snapshots s !! id = Some sn → sn_repository sn = repo → sn_consumer sn = mc_Consumer m → sn_acked sn = false ∧ cu_seq (f c0) ≤ sn_head sn)) →
  memoryProgress json_float json_library l c n clock (update_cursor repo (mc_Consumer m) f) st = (r, st') → owned_ (tables st').
Proof.
  intros Hs Hf H. unfold memoryProgress in H. eapply memoryWrite_own with (fresh := fresh) in H; [done|done|done|].
  intros store s2 a s3 Hb Hbody. unfold update_cursor in Hbody. run Hbody. pose proof (bg_in _ _ _ _ _ Hb) as Hin.
  apply (in_store_ids repo fresh store s2); [done| |exact Hin]. apply placed_ok; [apply Hin|]. apply Hf; [apply Hin|]. by eapply begun_quiet.
Qed.

Lemma touchTx_stream now clock : Keeps stream_view (touchTx m now clock).
Proof.
  unfold touchTx. apply keeps_bind; [by apply keeps_update_cursor|intros _]. apply keeps_bind; [apply keeps_gets|intros b]. apply keeps_when.
  by apply keeps_update_cursor.
Qed.

Lemma insert_cursor_in store now : Maintains (in_store repo fresh store) (insert_cursor m now).
Proof.
  intros s u s' Hs H. unfold insert_cursor in H. run H. destruct (cursor_of m s) as [c0|] eqn:Ec; [done|]. destruct Hs as [[Hok Hr] Hst].
  apply (in_store_ids repo fresh store s); [done| |by split]. destruct Hok as [A0 A1 A2 A3 A4 A5 A6 A7]. split; cbn; try done.
  - intros repo1 consumer1 c1 [[[= <- <-] <-]|[_ Hc]]%lookup_insert_Some; [|by eapply A4]. unfold storeOf in Hst. apply fmap_Some in Hst as (row & Hrow & _).
    exists row. pose proof (A1 _ _ Hrow). split_and!; cbn; [done|lia..].
  - intros repo1 consumer1 c1 id sn [[[= <- <-] <-]|[_ Hc]]%lookup_insert_Some; [done|by eapply A7].
Qed.

Lemma register_own clock st r st' : owned_ (tables st) → register json_float json_library l c clock st = (r, st') →
  owned_ (tables st') ∧ match r with
    | Ok cu => at_reader m cu (tables st') ∧ ((st' = st ∧ cursor_of m (tables st) = Some cu) ∨
                 (cursor_of m (tables st) = None ∧ place cu = (0, 0, None, false, false) ∧ ∀ k c0, k ≠ (repo, mc_Consumer m) → memory_cursors (tables st') !! k = Some c0 →
                    ∃ c1, memory_cursors (tables st) !! k = Some c1 ∧ place c0 = place c1))
    | Err _ => True
    end.
Proof.
  intros Hs H. unfold register in H. destruct (cursor_of m (tables st)) as [cu|] eqn:Ec.
  { injection H as <- <-. split; [done|]. split; [apply at_reader_row; [apply Hs|done]|by left]. }
  destruct (bool_decide _); [by injection H as <- <-|]. cbn zeta in H. destruct (_ || _); [by injection H as <- <-|]. unfold next in H.
  destruct (memoryWrite _ _ _ _ _ _ _ _ _ _ _ _ _ _ _ st) as [[u|e] st1] eqn:E.
  2:{ injection H as <- <-. split; [|done]. eapply memoryWrite_own with (fresh := fresh) in E; [done|done|done|]. intros store s2 a s3 Hb Hi. by eapply insert_cursor_in, Hi; apply (bg_in _ _ _ _ _ Hb). }
  injection H as <- <-. pose proof E as Er. apply memoryWrite_runs with (fresh := fresh) in Er as (store & s2 & s3 & Hb & Hbody & Hv & _); [|done..].
  assert (in_store repo fresh store (tables st1)) as Hin.
  { eapply (in_store_view _ _ _ s3); [done|]. by eapply insert_cursor_in, Hbody; apply (bg_in _ _ _ _ _ Hb). }
  assert (cursor_of m s2 = None) as E2.
  { destruct (cursor_of m s2) as [x|] eqn:E2; [|done]. unfold cursor_of in E2. pose proof (lookup_weaken _ _ _ _ E2 (bg_cursors _ _ _ _ _ Hb)). unfold cursor_of in Ec. congruence. }
  unfold insert_cursor in Hbody. run Hbody. rewrite E2 in *.
  assert (∀ k c0, memory_cursors (tables st1) !! k = Some c0 → ∃ c1, <[(repo, mc_Consumer m) := fresh_cursor (clock 2%nat)]> (memory_cursors s2) !! k = Some c1 ∧ place c0 = place c1) as Hrow.
  { intros k c0 Hc0. by apply (qu_cursors _ _ (view_quiet _ _ Hv)) in Hc0. }
  assert (place (default (mkCursorRow 0 0 None false false (of_int 0) "") (cursor_of m (tables st1))) = (0, 0, None, false, false)) as Hpl.
  { destruct (cursor_of m (tables st1)) as [x|] eqn:Ex; [|done]. apply Hrow in Ex as (c1 & Hc1 & E1). rewrite lookup_insert_eq in Hc1. injection Hc1 as <-. done. }
  split; [apply Hin|]. split.
  - split; [injection Hpl as -> -> _ _ _; pose proof (head_of_nonneg repo _ (proj1 (proj1 Hin))); lia|]. intros x Hx. by rewrite Hx.
  - right. split; [done|]. split; [done|]. intros k c0 Hk Hc0. apply Hrow in Hc0 as (c1 & Hc1 & E1). rewrite lookup_insert_ne in Hc1 by done.
    exists c1. split; [|done]. eapply lookup_weaken; [done|]. apply (bg_cursors _ _ _ _ _ Hb).
Qed.

Lemma register_snapshots clock st r st' : owned_ (tables st) → register json_float json_library l c clock st = (r, st') → memory_snapshots (tables st') ⊆ memory_snapshots (tables st).
Proof.
  intros Hs H. unfold register in H. destruct (cursor_of m (tables st)) as [cu|]; [by injection H as <- <-|].
  destruct (bool_decide _); [by injection H as <- <-|]. cbn zeta in H. destruct (_ || _); [by injection H as <- <-|]. unfold next in H.
  destruct (memoryWrite _ _ _ _ _ _ _ _ _ _ _ _ _ _ _ st) as [[u|e] st1] eqn:E; injection H as <- <-; (apply memoryWrite_runs with (fresh := fresh) in E; [|done..]).
  - destruct E as (store & s2 & s3 & Hb & Hbody & Hv & _). etrans; [apply (qu_snapshots _ _ (view_quiet _ _ Hv))|]. etrans; [|apply (bg_snapshots _ _ _ _ _ Hb)].
    unfold insert_cursor in Hbody. run Hbody. by destruct (cursor_of m s2).
  - apply (sh_snapshots _ _ E).
Qed.

(** The state in which the answer of a sync or an acknowledgement begins *)
Lemma entered_own clock last st r st' last' : owned_ (tables st) → entered json_float json_library l c clock last st = (r, st', last') →
  owned_ (tables st') ∧ match r with Ok cu => at_reader m cu (tables st') | Err _ => True end.
Proof.
  intros Hs H. unfold entered in H. destruct (guard_check _ _ _); [by injection H as <- <- _|].
  destruct (maybeExpire _ _ _ _ _ _ _ st) as [[r1 st1] last1] eqn:E1. pose proof (maybeExpire_shrunk _ _ _ _ _ _ _ _ _ _ _ E1 (proj1 Hs)) as H1.
  assert (owned_ (tables st1)) as Hs1 by by eapply shrunk_own. destruct r1 as [u|e]; [|by injection H as <- <- _]. unfold next in H.
  destruct (register _ _ _ _ _ st1) as [[cu|e] st2] eqn:E2; (apply register_own in E2 as [Hs2 Hcu]; [|done]); [|by injection H as <- <- _]. destruct Hcu as [Hcu _].
  destruct (touch _ _ _ _ _ st2) as [r3 st3] eqn:E3. apply progress_quiet in E3 as [Hs3 Hq]; [|done|apply touchTx_stream].
  destruct r3 as [u3|e]; injection H as <- <- _; [|done]. split; [done|]. by eapply at_reader_quiet.
Qed.

Lemma snapshot_rows_lookup id items k : is_Some ((list_to_map (snapshot_rows id items) : gmap _ _) !! k) ↔ k.1 = id ∧ 0 ≤ k.2 < Z.of_nat (length items).
Proof.
  unfold snapshot_rows. assert (∀ i (xs : list (Z * string)), is_Some ((list_to_map (imap (λ j it, ((id, Z.of_nat (i + j)), mkSnapshotItem it.1 it.2 (len it.2 + 1))) xs) : gmap (string * Z) SnapshotItem) !! k) ↔
    k.1 = id ∧ Z.of_nat i ≤ k.2 < Z.of_nat (i + length xs)) as H.
  { intros i xs. revert i. induction xs as [|x xs IH]; intros i; cbn.
    - rewrite lookup_empty. split; [by intros []|lia].
    - rewrite lookup_insert_is_Some'. destruct k as [k1 k2]; cbn in *. 
      assert (imap ((λ (j : nat) (it : Z * string), ((id, Z.of_nat (i + j)), mkSnapshotItem it.1 it.2 (len it.2 + 1))) ∘ S) xs =
        imap (λ j it, ((id, Z.of_nat (S i + j)), mkSnapshotItem it.1 it.2 (len it.2 + 1))) xs) as -> by (apply imap_ext; intros; cbn; by rewrite Nat.add_succ_r).
      rewrite IH. split; [intros [[= <- <-]|[-> Hk]]; (split; [done|lia])|]. intros [-> Hk].
      destruct (decide (k2 = Z.of_nat i)) as [->|]; [left; by rewrite Nat.add_0_r|right; split; [done|lia]]. }
  exact (H 0%nat items).
Qed.

Lemma freezeTx_in store id head now items : Maintains (λ s, in_store repo fresh store s ∧ head = head_of repo s) (freezeTx m id head now items).
Proof.
  intros s u s' [[[Hok Hr] Hst] Hh] H. unfold freezeTx, update_cursor in H. run H. rewrite negb_true_iff, orb_false_iff in G. destruct G as [G1%bool_decide_eq_false%eq_None_not_Some G2].
  split; [|done]. apply (in_store_ids repo fresh store s); [done| |by split]. pose proof (head_of_nonneg repo s Hok) as Hh.
  pose proof Hst as Hrow. unfold storeOf in Hrow. apply fmap_Some in Hrow as (row & Hrow & _). destruct Hok as [A0 A1 A2 A3 A4 A5 A6 A7].
  split; cbn; try done.
  - intros repo1 consumer1 c1. rewrite lookup_alter_Some. intros [(Hk & c0 & Hc & ->)|[_ Hc]]; [|by eapply A4]. injection Hk as <- <-. by destruct (A4 _ _ _ Hc) as (r & ? & ?); exists r.
  - intros id1 sn [[<- <-]|[_ Hs]]%lookup_insert_Some; [|by eapply A5]. cbn. exists row. unfold head_of in *. rewrite Hrow in *. cbn in *. split_and!; [done|lia..].
  - intros id1 p. rewrite lookup_union, union_is_Some, snapshot_rows_lookup, A6. cbn. destruct (decide (id1 = id)) as [->|Hn].
    + rewrite lookup_insert_eq, G1. split; [intros [[_ ?]|(sn & ? & _)]; [eexists; by split|done]|]. intros (sn & [= <-] & Hp). by left.
    + rewrite lookup_insert_ne by done. split; [by intros [[? _]|?]|by right].
  - intros repo1 consumer1 c1 id1 sn. rewrite lookup_alter_Some. intros [(Hk & c0 & Hc & ->)|[Hne Hc]].
    + injection Hk as <- <-. cbn. intros [= <-]. rewrite lookup_insert_eq. intros [= <-] _ _. cbn. split; [done|].
      destruct (A4 _ _ _ Hc) as (r & Hr1 & Hq). unfold head_of. rewrite Hr1. cbn. lia.
    + intros Hid [[<- <-]|[_ Hs]]%lookup_insert_Some E1 E2; [|by eapply A7]. cbn in E1, E2. congruence.
Qed.
Lemma freeze_own id clock st r st' : owned_ (tables st) → freeze json_float json_library l c id clock st = (r, st') → owned_ (tables st').
Proof.
  intros Hs H. unfold freeze in H. destruct (_ <=? _); [by injection H as <- <-|]. destruct (frozen_items _ _ _ _) as [items|e]; [|by injection H as <- <-]. unfold next in H.
  destruct (memoryWrite _ _ _ _ _ _ _ _ _ _ _ _ _ _ _ st) as [r1 st1] eqn:E. assert (owned_ (tables st1)) as Hs1.
  { eapply memoryWrite_own with (fresh := fresh) in E; [done|done|done|]. intros store s2 a s3 Hb Hi. eapply (freezeTx_in store _ _ _ _ s2); [|exact Hi].
    split; [apply (bg_in _ _ _ _ _ Hb)|]. by rewrite (bg_head _ _ _ _ _ Hb). }
  destruct r1; by injection H as <- <-.
Qed.

(** *** Pages *)

Lemma page_refusal_Ok id now r s sn : page_refusal l m id now r s = Ok sn →
  memory_snapshots s !! id = Some sn ∧ sn_repository sn = repo ∧ sn_consumer sn = mc_Consumer m ∧ 0 ≤ sy_PageToken r ≤ sn_issued sn.
Proof.
  unfold page_refusal, snapshot_of. destruct (memory_snapshots s !! id) as [x|]; [|done]. destruct (seqb (sn_repository x) _) eqn:E1; [|done]. apply seqb_true in E1.
  destruct (negb (owned m x)) eqn:E2; [done|]. apply negb_false_iff in E2. unfold owned in E2. apply seqb_true in E2.
  destruct (_ && _); [done|]. destruct (_ || _) eqn:E3; [done|]. apply orb_false_iff in E3 as [E3 _].
  destruct (_ && _); [by repeat case_match|]. destruct (sn_issued x <? _) eqn:E4; [done|]. intros [= <-]. split_and!; [done..|lia|lia].
Qed.
Lemma issueTx_in store id n s2 : (∀ sn, memory_snapshots s2 !! id = Some sn → 0 ≤ n ≤ sn_items sn) → in_store repo fresh store s2 →
  ∀ u s3, issueTx id n s2 = Ok (u, s3) → in_store repo fresh store s3.
Proof.
  intros Hn Hs u s3 H. unfold issueTx in H. run H. apply (in_store_ids repo fresh store s2); [done| |done]. destruct Hs as [[[A0 A1 A2 A3 A4 A5 A6 A7] _] _].
  assert (∀ id1 sn', alter (λ r, if sn_issued r <? n then r <| sn_issued := n |> else r) id (memory_snapshots s2) !! id1 = Some sn' →
    ∃ sn, memory_snapshots s2 !! id1 = Some sn ∧ sn_repository sn' = sn_repository sn ∧ sn_consumer sn' = sn_consumer sn ∧ sn_head sn' = sn_head sn ∧ sn_items sn' = sn_items sn ∧
      sn_acked sn' = sn_acked sn ∧ (sn_issued sn' = sn_issued sn ∨ id1 = id ∧ sn_issued sn' = n)) as Hb.
  { intros id1 sn'. rewrite lookup_alter_Some. intros [(<- & sn & Hs & ->)|[_ Hs]]; [|by exists sn'; auto 10]. exists sn. split; [done|]. destruct (_ <? _); cbn; auto 10. }
  split; cbn; try done.
  - intros id1 sn' Hs'. destruct (Hb _ _ Hs') as (sn & Hs & -> & _ & -> & -> & _ & Hi). destruct (A5 _ _ Hs) as (r & Hr & H1 & H2). exists r. split; [done|]. split; [done|].
    destruct Hi as [->|[-> ->]]; [done|by apply Hn].
  - intros id1 p. rewrite A6. split.
    + intros (sn & Hs & Hp). destruct (decide (id1 = id)) as [->|Hne].
      * rewrite lookup_alter_eq, Hs. eexists. split; [done|]. by destruct (_ <? _).
      * rewrite lookup_alter_ne by done. by exists sn.
    + intros (sn' & Hs' & Hp). destruct (Hb _ _ Hs') as (sn & Hs & _ & _ & _ & E & _). exists sn. by rewrite <-E.
  - intros repo1 consumer1 c1 id1 sn' Hc Hid Hs' E1 E2. destruct (Hb _ _ Hs') as (sn & Hs & F1 & F2 & -> & _ & -> & _). apply (A7 repo1 consumer1 c1 id1 sn); [done..|congruence|congruence].
Qed.
Lemma snapshotPage_own id r clock st o st' : owned_ (tables st) → snapshotPage json_float json_library l c id r clock st = (o, st') → owned_ (tables st').
Proof.
  intros Hs H. unfold snapshotPage in H. destruct (page_refusal _ _ _ _ _ _) as [sn|e] eqn:Ep; [|by injection H as <- <-]. apply page_refusal_Ok in Ep as (Hsn & _ & _ & Ht).
  destruct (bounded _ _) as [n|e] eqn:Eb; [|by injection H as <- <-]. cbn zeta in H. destruct (_ <? _); [|by injection H as <- <-]. unfold next in H.
  destruct (so_snapshot _ (proj1 Hs) _ _ Hsn) as (row & _ & _ & Hi). unfold bounded in Eb. apply bounded_from_spec in Eb as (Hn & _). rewrite length_fmap in Hn.
  rewrite (items_from_length id (sy_PageToken r) (tables st) sn (proj1 Hs) Hsn ltac:(lia)) in Hn.
  destruct (memoryProgress _ _ _ _ _ _ _ st) as [r1 st1] eqn:E. assert (owned_ (tables st1)) as Hs1.
  { unfold memoryProgress in E. eapply memoryWrite_own with (fresh := fresh) in E; [done|done|done|]. intros store s2 a s3 Hb. apply (issueTx_in store); [|apply (bg_in _ _ _ _ _ Hb)].
    intros sn2 Hsn2. pose proof (lookup_weaken _ _ _ _ Hsn2 (bg_snapshots _ _ _ _ _ Hb)). assert (sn2 = sn) as -> by congruence. lia. }
  destruct r1; by injection H as <- <-.
Qed.

Lemma stream_after_entry cursor s q e : (q, e) ∈ stream_after l repo cursor s → memory_entries s !! (repo, q) = Some e ∧ cursor < q.
Proof.
  unfold stream_after. intros (i & Hi & _)%elem_of_take. rewrite list_lookup_fmap in Hi. apply fmap_Some in Hi as ([[k1 k2] v] & Hi & [= -> ->]).
  apply list_elem_of_lookup_2, ordered_rows in Hi as [Hl HP]. cbn in *. apply andb_true_iff in HP as [->%seqb_true HP]. split; [done|lia].
Qed.
Lemma entry_head s q e : stream_ok s → memory_entries s !! (repo, q) = Some e → 1 ≤ q ≤ head_of repo s.
Proof. intros Hok He. destruct (so_entry _ Hok _ _ _ He) as (r & Hr & Hq & _). unfold head_of. by rewrite Hr. Qed.

Lemma last_batch cursor s n (batch := stream_after l repo cursor s) : stream_ok s → cursor ≤ head_of repo s → from_option fst cursor (last (take n batch)) ≤ head_of repo s ∧ cursor ≤ from_option fst cursor (last (take n batch)).
Proof.
  intros Hok Hc. destruct (last (take n batch)) as [[q e]|] eqn:E; cbn; [|lia]. apply last_Some_elem_of, elem_of_take in E as (i & Hi & _).
  apply list_elem_of_lookup_2, stream_after_entry in Hi as [He Hq]. pose proof (entry_head _ _ _ Hok He). lia.
Qed.
Lemma delta_own cu clock st o st' : owned_ (tables st) → at_reader m cu (tables st) → delta json_float json_library l c cu clock st = (o, st') → owned_ (tables st').
Proof.
  intros Hs Hcu H. unfold delta in H. cbn zeta in H. destruct (mapM _ _) as [texts|]; [|by injection H as <- <-]. destruct (bounded _ _) as [n|e]; [|by injection H as <- <-].
  destruct (_ <? _); [|by injection H as <- <-]. unfold next in H. destruct Hcu as [[Hb1 Hb2] Hpl].
  destruct (last_batch (cu_seq cu) (tables st) n (proj1 Hs) ltac:(lia)) as [Hle _]. set (end_ := from_option fst (cu_seq cu) _) in *.
  destruct (memoryProgress _ _ _ _ _ _ _ st) as [r1 st1] eqn:E. assert (owned_ (tables st1)) as Hs1.
  { eapply progress_placed in E; [done|done|]. intros s Hok Hq c0 Hc0. destruct (so_cursor _ Hok _ _ _ Hc0) as (row & Hrow & H1 & H2).
    assert (cu_issued c0 ≤ head_of repo s) as H3 by (unfold head_of; by rewrite Hrow). rewrite (qu_head _ _ Hq) in *.
    destruct (cu_issued c0 <? end_) eqn:Ei; cbn; (split_and!; [lia..|]); intros id sn Hid Hsn E1 E2;
      exact (so_open _ Hok _ _ _ id sn Hc0 Hid Hsn E1 E2). }
  destruct r1; by injection H as <- <-.
Qed.

(** *** Whole requests *)

Lemma sync_page_own id r clock cu st o st' : owned_ (tables st) → at_reader m cu (tables st) → sync_page json_float json_library l c id r clock cu st = (o, st') → owned_ (tables st').
Proof.
  intros Hs Hcu H. unfold sync_page in H. destruct (needs_snapshot _ _); [|by eapply delta_own]. destruct (cu_snapshot cu); [by eapply snapshotPage_own|].
  unfold next in H. destruct (freeze _ _ _ _ _ _ st) as [[id1|e] st1] eqn:E; apply freeze_own in E; try done; [by eapply snapshotPage_own|by injection H as <- <-].
Qed.
(** Dropping an unusable snapshot *)
Lemma dropped_own n clock st r st' : owned_ (tables st) → memoryProgress json_float json_library l c n clock (dropTx m) st = (r, st') → owned_ (tables st').
Proof.
  intros Hs. apply progress_placed; [done|]. intros s Hok _ c0 Hc0. destruct (so_cursor _ Hok _ _ _ Hc0) as (row & Hrow & H1 & H2). cbn. unfold head_of. rewrite Hrow. done.
Qed.
Lemma dropped_reader n clock st cu r st' : owned_ (tables st) → at_reader m cu (tables st) → memoryProgress json_float json_library l c n clock (dropTx m) st = (Ok r, st') →
  at_reader m (cu <| cu_snapshot := None |> <| cu_resnapshot := true |>) (tables st').
Proof.
  intros Hs [Hb Hpl] H. unfold memoryProgress in H. apply memoryWrite_runs with (fresh := fresh) in H as (store & s2 & s3 & Hbg & Hbody & Hv & _); [|done..].
  unfold dropTx, update_cursor in Hbody. run Hbody. apply view_quiet in Hv. split.
  - rewrite (qu_head _ _ Hv). change (head_of repo (s2 <| memory_cursors := _ |>)) with (head_of repo s2). rewrite (bg_head _ _ _ _ _ Hbg). exact Hb.
  - intros x Hx. destruct (qu_cursors _ _ Hv _ _ Hx) as (x1 & Hx1 & ->). cbn in Hx1. rewrite lookup_alter_eq in Hx1. apply fmap_Some in Hx1 as (x0 & Hx0 & ->).
    destruct (qu_cursors _ _ (begun_quiet _ _ _ _ _ Hbg) _ _ Hx0) as (y & Hy & E). unfold place in *. cbn. specialize (Hpl _ Hy). congruence.
Qed.
Lemma MemorySync_own id r clock last st o st' last' : owned_ (tables st) → MemorySync json_float json_library l c id r clock last st = (o, st', last') → owned_ (tables st').
Proof.
  intros Hs H. unfold MemorySync in H. destruct (entered _ _ _ _ _ _ st) as [[a st1] last1] eqn:E. apply entered_own in E as [Hs1 Hcu]; [|done].
  destruct a as [cu|e]; [|by injection H as _ <- _]. cbn [next] in H. destruct (cu_snapshot cu) as [open|].
  - destruct (unusable _ _ _ _ _); [|injection H as H _; by eapply sync_page_own]. destruct (memoryProgress _ _ _ _ _ _ _ st1) as [r2 st2] eqn:E2.
    pose proof (dropped_own _ _ _ _ _ Hs1 E2) as Hs2. destruct r2 as [u|e]; [|by injection H as _ <- _]. cbn [next] in H. injection H as H _.
    eapply sync_page_own; [exact Hs2|exact (dropped_reader _ _ _ _ _ _ Hs1 Hcu E2)|exact H].
  - injection H as H _. by eapply sync_page_own.
Qed.

(** An acknowledged snapshot places its reader at its head. *)
Lemma ackSnapshotTx_in store id head now s2 u s3 : in_store repo fresh store s2 → 0 ≤ head ≤ head_of repo s2 →
  (∀ sn, memory_snapshots s2 !! id = Some sn → sn_repository sn = repo ∧ sn_consumer sn = mc_Consumer m) → ackSnapshotTx m id head now s2 = Ok (u, s3) → in_store repo fresh store s3.
Proof.
  intros Hs Hh Hid H. unfold ackSnapshotTx, update_cursor in H. run H. apply (in_store_ids repo fresh store s2); [done| |done]. destruct Hs as [[[A0 A1 A2 A3 A4 A5 A6 A7] _] _].
  assert (∀ id1 sn', alter (λ r, r <| sn_acked := true |> <| sn_acked_at := Some now |>) id (memory_snapshots s2) !! id1 = Some sn' → ∃ sn, memory_snapshots s2 !! id1 = Some sn ∧
    sn_repository sn' = sn_repository sn ∧ sn_consumer sn' = sn_consumer sn ∧ sn_head sn' = sn_head sn ∧ sn_items sn' = sn_items sn ∧ sn_issued sn' = sn_issued sn ∧
    (sn_acked sn' = sn_acked sn ∨ id1 = id)) as Hb.
  { intros id1 sn'. rewrite lookup_alter_Some. intros [(<- & sn & Hs & ->)|[_ Hs]]; [exists sn|exists sn']; auto 10. }
  split; cbn; try done.
  - intros repo1 consumer1 c1. rewrite lookup_alter_Some. intros [(Hk & c0 & Hc & ->)|[_ Hc]]; [|by eapply A4]. injection Hk as <- <-.
    destruct (A4 _ _ _ Hc) as (r & Hr & H1 & H2). exists r. unfold head_of in Hh. rewrite Hr in Hh. cbn in *. split_and!; [done|lia..].
  - intros id1 sn' Hs'. destruct (Hb _ _ Hs') as (sn & Hs & -> & _ & -> & -> & -> & _). by eapply A5.
  - intros id1 p. rewrite A6. split.
    + intros (sn & Hs & Hp). destruct (decide (id1 = id)) as [->|Hne]; [rewrite lookup_alter_eq, Hs; by eexists|rewrite lookup_alter_ne by done; by exists sn].
    + intros (sn' & Hs' & Hp). destruct (Hb _ _ Hs') as (sn & Hs & _ & _ & _ & E & _). exists sn. by rewrite <-E.
  - intros repo1 consumer1 c1 id1 sn'. rewrite lookup_alter_Some. intros [(Hk & c0 & Hc & ->)|[Hne Hc]]; [done|]. intros Hid1 Hs' E1 E2.
    destruct (Hb _ _ Hs') as (sn & Hs & F1 & F2 & -> & _ & _ & [->| ->]); [apply (A7 repo1 consumer1 c1 id1 sn); [done..|congruence|congruence]|].
    destruct (Hid _ Hs) as [G1 G2]. destruct Hne. congruence.
Qed.
Lemma snapshot_of_Some id s sn : snapshot_of m id s = Some sn → memory_snapshots s !! id = Some sn ∧ sn_repository sn = repo.
Proof. unfold snapshot_of. destruct (memory_snapshots s !! id); [|done]. destruct (seqb _ _) eqn:E; [|done]. apply seqb_true in E. by intros [= ->]. Qed.
Lemma snapshot_head s id sn : stream_ok s → memory_snapshots s !! id = Some sn → 0 ≤ sn_head sn ≤ head_of (sn_repository sn) s.
Proof. intros Hok Hs. destruct (so_snapshot _ Hok _ _ Hs) as (r & Hr & H & _). unfold head_of. by rewrite Hr. Qed.
Lemma ack_snapshot_own id cu clock st o st' : owned_ (tables st) → ack_snapshot json_float json_library l c id cu clock st = (o, st') → owned_ (tables st').
Proof.
  intros Hs H. unfold ack_snapshot in H. destruct (snapshot_of m id (tables st)) as [sn|] eqn:Esn; [|by injection H as <- <-]. apply snapshot_of_Some in Esn as [Hsn Hr].
  destruct (negb (owned m sn)) eqn:Eo; [by injection H as <- <-|]. apply negb_false_iff in Eo. unfold owned in Eo. apply seqb_true in Eo.
  repeat (match type of H with (if ?b then _ else _) = _ => destruct b; [by injection H as <- <-|] end). unfold next in H.
  destruct (memoryProgress _ _ _ _ _ _ _ st) as [r1 st1] eqn:E. assert (owned_ (tables st1)) as Hs1; [|destruct r1; by injection H as <- <-].
  unfold memoryProgress in E. eapply memoryWrite_own with (fresh := fresh) in E; [done|done|done|]. intros store s2 a s3 Hb Hbody. eapply ackSnapshotTx_in; [apply (bg_in _ _ _ _ _ Hb)| | |exact Hbody].
  - rewrite (bg_head _ _ _ _ _ Hb), <-Hr. eapply snapshot_head; [apply Hs|done].
  - intros sn2 Hsn2. pose proof (lookup_weaken _ _ _ _ Hsn2 (bg_snapshots _ _ _ _ _ Hb)). assert (sn2 = sn) as -> by congruence. done.
Qed.
Lemma ack_delta_own through cu clock st o st' : owned_ (tables st) → at_reader m cu (tables st) → ack_delta json_float json_library l c through cu clock st = (o, st') → owned_ (tables st').
Proof.
  intros Hs [[Hb1 Hb2] Hpl] H. unfold ack_delta in H. destruct (bool_decide _ || _) eqn:Eo; [by injection H as <- <-|]. apply orb_false_iff in Eo as [Eo%bool_decide_eq_false%eq_None_not_Some _].
  destruct (negb _); [by injection H as <- <-|]. destruct (through <? _) eqn:E1; [by injection H as <- <-|]. destruct (cu_issued cu <? _) eqn:E2; [by injection H as <- <-|]. unfold next in H.
  destruct (memoryProgress _ _ _ _ _ _ _ st) as [r1 st1] eqn:E. assert (owned_ (tables st1)) as Hs1; [|destruct r1; by injection H as <- <-].
  eapply progress_placed in E; [done|done|]. intros s Hok Hq c0 Hc0. destruct (qu_cursors _ _ Hq _ _ Hc0) as (y & Hy & Ey). specialize (Hpl _ Hy). rewrite Hpl in Ey.
  injection Ey as _ F2 F3 _ _. cbn. rewrite (qu_head _ _ Hq), F2, F3, Eo. split_and!; [lia|lia|lia|done].
Qed.
Lemma MemoryAck_own r clock last st o st' last' : owned_ (tables st) → MemoryAck json_float json_library l c r clock last st = (o, st', last') → owned_ (tables st').
Proof.
  intros Hs H. unfold MemoryAck in H. destruct (entered _ _ _ _ _ _ st) as [[a st1] last1] eqn:E. apply entered_own in E as [Hs1 Hcu]; [|done].
  destruct a as [cu|e]; [|by injection H as _ <- _]. cbn [next] in H. destruct (negb _); injection H as H _; [by eapply ack_snapshot_own|by eapply ack_delta_own].
Qed.
End readers.
