(* ===== verification/ReaderProps.v ===== *)
(** * What the readers of a memory store get

    The stream stays gapless above its floor over every schedule of operations; a delta is the
    exact run of entries after the cursor, a snapshot page the exact run of its items, and an
    acknowledgement moves a reader only over what it was given. *)

From S2P Require Import Prelude GoString GoFloat Schema Sql Label Fixture Storage Names Messages Cycles Sessions Inboxes InboxProps Participants Leases LeaseProps WorkViews MemoryLimits MemoryExpiry WorkItems WorkOps Works WorkFacts WorkProps WorkSteps Library LibraryDecisions Notes Readers Streams ReaderSteps.
Open Scope Z_scope.

(** ** Notes and work keep the stream *)

Section schedule.
Context `{SHA : Sha256}.
Variable json_float : float → string.
Variable processStart : Z → ProcessStart.
Variable json_library : string → option string.
Variable decode_links : string → option (list Link).
Variable decode_commands : string → option (list Command).
Variable decode_decision : string → option Library.Decision.
Variable libraryCatalog : result error Catalog.
Variable l : memoryLimits.

Lemma MemoryRecord_own m r0 fresh clock now_ms at_ audit sweep retry en last st o st' last' : own (mc_Repository m) fresh (tables st) →
  MemoryRecord json_float json_library decode_links decode_commands decode_decision libraryCatalog l m r0 fresh clock now_ms at_ audit sweep retry en last st = (o, st', last') →
  own (mc_Repository m) fresh (tables st').
Proof.
  intros Hs H. unfold MemoryRecord in H. destruct (guard_check _ _ _); [by injection H as _ <- _|].
  destruct (note_checks _ _ _ _) eqn:Ec; [by injection H as _ <- _|]. apply note_checks_type in Ec. destruct (key_checks _ _ _); [by injection H as _ <- _|].
  destruct (keyed_duplicate _ _ _ _) as [[x|]|e]; try by injection H as _ <- _. destruct (validateProjectDecision _ _ _ _ _ _ _ _ _ _ _); [by injection H as _ <- _|].
  destruct (maybeExpire _ _ _ _ _ _ _ st) as [[r1 st1] last1] eqn:E1. apply maybeExpire_shrunk in E1; [|apply Hs]. assert (own (mc_Repository m) fresh (tables st1)) as Hs1 by by eapply shrunk_own.
  destruct r1 as [u|e]; [|by injection H as _ <- _]. cbn zeta in H. injection H as H _. eapply memoryWrite_own with (fresh := fresh) in H; [done|done|done|].
  intros store s2 a s3 Hb Hbody. eapply (recordTx_in json_float l _ fresh store); [done|exact Ec|apply (bg_in _ _ _ _ _ Hb)|exact Hbody].
Qed.

Section work.
Variables (repo fresh : string).
#[local] Abbreviation owned_ st := (own repo fresh (tables st)).

Lemma workWrite_own {A} class audited at_ audit en (body : string → tx A) st r st' : (∀ store, Maintains (in_store repo fresh store) (body store)) → owned_ st →
  workWrite json_float l repo fresh class audited at_ audit en body st = (r, st') → owned_ st'.
Proof.
  intros Hb Hs H. unfold workWrite in H. apply write_runs in H. destruct r as [a|e]; [|by rewrite H]. destruct H as (s & Hr & ->).
  eapply shrunk_own; [etrans; [apply shrunk_audit|apply shrunk_pending]|]. eapply workTx_own; [exact Hb| |exact Hr]. by eapply shrunk_own; [apply shrunk_pending|].
Qed.
Lemma reconcile_own workID now en st r st' : owned_ st → reconcile json_float l repo fresh workID now en st = (r, st') → owned_ st'.
Proof.
  intros Hs H. unfold reconcile in H. destruct (storeOf repo (tables st)) as [store|]; [|by injection H as _ <-].
  destruct (due_of _ _ _ _) as [[[[w g] held]|]|e]; try by injection H as _ <-. eapply workWrite_own; [|exact Hs|exact H]. intros st0. apply reconcile_in.
Qed.
Lemma reclaimInactive_own workID en st r st' : owned_ st → reclaimInactive json_float l repo fresh workID en st = (r, st') → owned_ st'.
Proof.
  intros Hs H. unfold reclaimInactive in H. destruct (storeOf repo (tables st)) as [store|]; [|by injection H as _ <-].
  destruct (bundleFor _ _ _) as [[g b]|]; [destruct (b_active b)|]; try by injection H as _ <-. eapply workWrite_own; [|exact Hs|exact H]. intros st0. apply reclaimInactive_in.
Qed.
Lemma reclaimFinished_own store at_ en st r st' : owned_ st → reclaimFinished json_float l repo fresh store at_ en st = (r, st') → owned_ st'.
Proof.
  intros Hs H. unfold reclaimFinished in H. destruct (oldest_finished _ _ _); [|by injection H as _ <-]. eapply workWrite_own; [|exact Hs|exact H]. intros st0. apply reclaimFinished_in.
Qed.
Lemma makeRoom_own en1 en2 st r st' : owned_ st → makeRoom json_float l repo fresh en1 en2 st = (r, st') → owned_ st'.
Proof.
  intros Hs H. unfold makeRoom in H. destruct (storeOf repo (tables st)) as [store|]; [|by injection H as _ <-]. destruct (_ <? _); [by injection H as _ <-|].
  destruct (oldest_finished _ _ _); [|by injection H as _ <-]. destruct (reclaimInactive _ _ _ _ _ _ st) as [r1 st1] eqn:E1. apply reclaimInactive_own in E1; [|done].
  destruct r1; [|by injection H as _ <-]. destruct (reclaimFinished _ _ _ _ _ _ _ st1) as [r2 st2] eqn:E2. apply reclaimFinished_own in E2; [|done]. by injection H as _ <-.
Qed.
Lemma reconcile_all_own items now en : ∀ st r st', owned_ st → reconcile_all json_float l repo fresh items now en st = (r, st') → owned_ st'.
Proof.
  induction items as [|i items IH]; cbn; intros st r st' Hs H; [by injection H as _ <-|]. destruct (reconcile _ _ _ _ _ _ _ st) as [r1 st1] eqn:E1. apply reconcile_own in E1; [|done].
  destruct r1; [by eapply IH|by injection H as _ <-].
Qed.
Lemma maintainStore_own store now en en_one en_item st r st' : owned_ st → maintainStore json_float l repo fresh store now en en_one en_item st = (r, st') → owned_ st'.
Proof.
  intros Hs H. unfold maintainStore in H. destruct (reconcile_all _ _ _ _ _ _ _ st) as [r1 st1] eqn:E1. apply reconcile_all_own in E1; [|done].
  destruct r1; [|by injection H as _ <-].
  assert (∀ r2 st2, (if exists_where (λ k b, seqb k.1 store && negb (b_active b)) (claim_bundles (tables st1)) then workWrite json_float l repo fresh control false 0 None en_one reclaimOne st1 else (Ok false, st1)) = (r2, st2) → owned_ st2) as H2.
  { intros r2 st2 E. destruct (exists_where _ _); [|by injection E as _ <-]. eapply workWrite_own; [|exact E1|exact E]. intros st0. apply reclaimOne_in. }
  destruct (if exists_where _ _ then _ else _) as [r2 st2] eqn:E2. specialize (H2 _ _ eq_refl). destruct r2; [eapply reclaimFinished_own; [|exact H]; done|by injection H as _ <-].
Qed.
End work.

Lemma workMutation_own fresh m r now now_ms at_ audit fuel ens last st o st' last' : own (mc_Repository m) fresh (tables st) →
  workMutation json_float processStart json_library l fresh m r now now_ms at_ audit fuel ens last st = (o, st', last') → own (mc_Repository m) fresh (tables st').
Proof.
  intros Hs H. unfold workMutation in H. destruct (verdict_refusal _ _ _ _); [by injection H as _ <- _|]. destruct (replay _ _ _ _ _ _ _) as [[print [x|]]|e]; try by injection H as _ <- _.
  destruct (negb _); [by injection H as _ <- _|]. destruct (known_target _ _ _ _); [by injection H as _ <- _|].
  destruct (maybeExpire _ _ _ _ _ _ _ st) as [[r1 st1] last1] eqn:E1. apply maybeExpire_shrunk in E1; [|apply Hs]. assert (own (mc_Repository m) fresh (tables st1)) as Hs1 by by eapply shrunk_own.
  destruct r1 as [u|e]; [|by injection H as _ <- _]. destruct (prepare _ _ _ _ _ _ _ st1) as [r2 st2] eqn:E2. assert (own (mc_Repository m) fresh (tables st2)) as Hs2.
  { unfold prepare in E2. destruct (seqb (r_op r) "work-create").
    - destruct (makeRoom _ _ _ _ _ _ st1) as [r3 st3] eqn:E3. apply makeRoom_own in E3; [|done]. destruct r3; [|by injection E2 as _ <-].
      destruct (seqb _ _); [eapply reclaimInactive_own; [|exact E2]; done|by injection E2 as _ <-].
    - destruct (reconcile _ _ _ _ _ _ _ st1) as [r3 st3] eqn:E3. apply reconcile_own in E3; [|done]. destruct r3; [|by injection E2 as _ <-].
      destruct (seqb _ _); [eapply reclaimInactive_own; [|exact E2]; done|by injection E2 as _ <-]. }
  destruct r2; [|by injection H as _ <- _]. injection H as H _. eapply workWrite_own; [|exact Hs2|exact H]. intros store. by apply apply_in.
Qed.

(** ** Schedules *)

(** The steps of the installation: the operations on notes and work and the sweep of the store,
    which the lock of memory operations orders; an expiry; and every write of the other
    components, which keeps the tables of the stream.  [fresh] is the store ID that the
    repository takes with its first write. *)
Inductive stream_step (st st' : Store) : Prop :=
| ss_note m r fresh clock now_ms at_ audit sweep retry en last o last' : reserved (mc_Repository m) fresh (tables st) →
    MemoryRecord json_float json_library decode_links decode_commands decode_decision libraryCatalog l m r fresh clock now_ms at_ audit sweep retry en last st = (o, st', last') → stream_step st st'
| ss_sync c id r clock last o last' : reserved (mc_Repository (cl_m c)) (cl_fresh c) (tables st) → MemorySync json_float json_library l c id r clock last st = (o, st', last') → stream_step st st'
| ss_ack c r clock last o last' : reserved (mc_Repository (cl_m c)) (cl_fresh c) (tables st) → MemoryAck json_float json_library l c r clock last st = (o, st', last') → stream_step st st'
| ss_work fresh m r now now_ms at_ audit fuel ens last o last' : reserved (mc_Repository m) fresh (tables st) →
    workMutation json_float processStart json_library l fresh m r now now_ms at_ audit fuel ens last st = (o, st', last') → stream_step st st'
| ss_maintain repo fresh store now en en_one en_item o : reserved repo fresh (tables st) → maintainStore json_float l repo fresh store now en en_one en_item st = (o, st') → stream_step st st'
| ss_due repo fresh workID now en o : reserved repo fresh (tables st) → reconcile json_float l repo fresh workID now en st = (o, st') → stream_step st st'
| ss_expire fuel repo now reclaim_ en o : expireMemory json_library fuel l repo now reclaim_ en st = (o, st') → stream_step st st'
| ss_other A (w : Write) en (body : tx A) o : Keeps stream_view body → write w en body st = (o, st') → stream_step st st'.

Lemma stream_step_ok st st' : stream_step st st' → stream_ok (tables st) → stream_ok (tables st').
Proof.
  intros H Hok. destruct H as [m r fresh clock now_ms at_ audit sweep retry en last o last' Hf H|c id r clock last o last' Hf H|c r clock last o last' Hf H|
    fresh m r now now_ms at_ audit fuel ens last o last' Hf H|repo fresh store now en en_one en_item o Hf H|repo fresh workID now en o Hf H|fuel repo now reclaim_ en o H|A w en body o Hk H].
  - by eapply (MemoryRecord_own m r fresh); [split|].
  - by eapply (MemorySync_own json_float json_library l c id); [split|].
  - by eapply (MemoryAck_own json_float json_library l c); [split|].
  - by eapply (workMutation_own fresh m r); [split|].
  - by eapply (maintainStore_own repo fresh); [split|].
  - by eapply (reconcile_own repo fresh); [split|].
  - by eapply expireMemory_shrunk.
  - apply write_runs in H. destruct o as [a|e]; [|by rewrite H]. destruct H as (s & Hr & ->). eapply sh_ok; [etrans; [apply shrunk_audit|apply shrunk_pending]|].
    eapply stream_ok_view; [by eapply Hk|]. by eapply stream_ok_view, Hok.
Qed.

(** C19: over every schedule of notes, syncs, acknowledgements, work operations, due transitions,
    sweeps, expiries and other writes, whatever each of them answers, the stream of every store
    stays whole: no entry is missing between its floor and its head, every work entry has its
    payload, no reader is past what it was issued or past the head, no snapshot has issued more
    than it holds or misses an item, and an open snapshot is not behind its reader. *)
Theorem stream_invariant st0 st : stream_ok (tables st0) → rtc stream_step st0 st → stream_ok (tables st).
Proof. intros Hok H. induction H as [|st0 st1 st2 H _ IH]; [done|]. by eapply IH, stream_step_ok. Qed.
End schedule.

(** ** Pages *)

Section pages.
Context `{SHA : Sha256}.
Variable json_float : float → string.
Variable json_library : string → option string.
Variable l : memoryLimits.
Variable c : Call.
#[local] Abbreviation m := (cl_m c).
#[local] Abbreviation repo := (mc_Repository (cl_m c)).
#[local] Abbreviation fresh := (cl_fresh c).

(** The entries after a reader that is not behind the floor *)
Lemma stream_rows cursor s : stream_ok s → floor_of repo s ≤ cursor → 0 ≤ cursor →
  fst <$> stream_after l repo cursor s = take (Z.to_nat (l_rowWindow l)) (seqZ (cursor + 1) (head_of repo s - cursor)).
Proof.
  intros Hok Hf Hc. unfold stream_after. rewrite fmap_take, <-list_fmap_compose. f_equal.
  refine (ordered_run _ _ repo (cursor + 1) (head_of repo s - cursor) _ _).
  - intros [k1 k2] v Hk HP. cbn in HP. apply andb_true_iff in HP as [->%seqb_true Hle]. cbn. pose proof (entry_head c s k2 v Hok Hk). split; [done|lia].
  - intros q Hq. unfold floor_of, head_of in *. destruct (memory_stores s !! repo) as [r|] eqn:Er; cbn in *; [|lia].
    destruct (so_gapless _ Hok _ _ q Er ltac:(lia)) as [e He]. exists e. split; [done|]. rewrite (proj2 (seqb_true repo repo) eq_refl). cbn. lia.
Qed.
Lemma run_prefix {B} (xs : list (Z * B)) a n w k : fst <$> xs = take w (seqZ a n) → fst <$> take k xs = seqZ a (Z.of_nat (length (take k xs))).
Proof.
  intros H. rewrite <-(length_fmap fst). apply (seqZ_prefix a n _ (drop (k `min` w) (seqZ a n))).
  rewrite fmap_take, H, take_take. apply take_drop.
Qed.
Lemma run_last {B} (xs : list (Z * B)) a : fst <$> xs = seqZ (a + 1) (Z.of_nat (length xs)) → from_option fst a (last xs) = a + Z.of_nat (length xs).
Proof.
  intros H. destruct xs as [|x xs] using rev_ind; [cbn; lia|]. rewrite last_snoc. cbn. assert ((fst <$> (xs ++ [x])) !! length xs = Some x.1) as Hl.
  { rewrite fmap_app. apply lookup_app_Some. right. rewrite length_fmap, Nat.sub_diag. done. }
  rewrite H in Hl. apply lookup_seqZ in Hl as [-> _]. rewrite length_app. cbn. lia.
Qed.

(** A work entry always has its payload. *)
Lemma texts_exist s q e : stream_ok s → memory_entries s !! (repo, q) = Some e → is_Some (stream_text json_float repo s (q, e)).
Proof.
  intros Hok He. unfold stream_text. cbn. destruct (seqb (en_type e) workEventType) eqn:Et; [|by eexists]. apply seqb_true in Et.
  destruct (so_entry _ Hok _ _ _ He) as (r & Hr & _ & Hp). destruct (Hp Et) as [_ [x Hx]]. unfold storeOf. rewrite Hr. cbn. rewrite Hx. by eexists.
Qed.
Lemma page_texts cursor s : stream_ok s → is_Some (mapM (stream_text json_float repo s) (stream_after l repo cursor s)).
Proof.
  intros Hok. apply mapM_is_Some_2, Forall_forall. intros [q e] Hin. apply stream_after_entry in Hin as [He _]. by eapply texts_exist.
Qed.

(** The reader's record after an issued page *)
Definition issued_at (cu : CursorRow) (n : Z) (s : State) : Prop :=
  ∀ c', cursor_of m s = Some c' → place c' = place (cu <| cu_issued := Z.max (cu_issued cu) n |>).
Lemma issued_delta k clock n st cu u st' : own repo fresh (tables st) → at_reader m cu (tables st) →
  memoryProgress json_float json_library l c k clock (issueDeltaTx m n) st = (Ok u, st') → issued_at cu n (tables st') ∧ head_of repo (tables st') = head_of repo (tables st).
Proof.
  intros Hs [_ Hpl] H. unfold memoryProgress in H. apply memoryWrite_runs with (fresh := fresh) in H as (store & s2 & s3 & Hb & Hbody & Hv & _); [|done..].
  unfold issueDeltaTx, update_cursor in Hbody. run Hbody. apply view_quiet in Hv. split.
  - intros c' Hc'. destruct (qu_cursors _ _ Hv _ _ Hc') as (c1 & Hc1 & ->). cbn in Hc1. rewrite lookup_alter_eq in Hc1. apply fmap_Some in Hc1 as (c0 & Hc0 & ->).
    destruct (qu_cursors _ _ (begun_quiet _ _ _ _ _ Hb) _ _ Hc0) as (y & Hy & E). specialize (Hpl _ Hy). rewrite Hpl in E. injection E as F1 F2 F3 F4 F5.
    unfold place. cbn. rewrite F2. destruct (Z.ltb_spec (cu_issued cu) n); cbn; rewrite ?F1, ?F2, ?F3, ?F4, ?F5; do 4 f_equal; lia.
  - rewrite (qu_head _ _ Hv), <-(bg_head _ _ _ _ _ Hb). done.
Qed.

(** C20: a delta of a reader that is not behind the floor is the exact run of entries after its
    cursor, each in its text with the payload of a work event: none is skipped or repeated, the
    page fits the frame and the window and ends early only when the next text does not fit, it is
    not empty while entries remain, [more] says exactly that, and the reader has been issued the
    page while its cursor stays. *)
Theorem delta_exact cu clock st page st' : own repo fresh (tables st) → at_reader m cu (tables st) → floor_of repo (tables st) ≤ cu_seq cu →
  0 ≤ l_frameBudget l → 1 ≤ l_rowWindow l → delta json_float json_library l c cu clock st = (Ok page, st') →
  ∃ texts, let next := cu_seq cu + Z.of_nat (length texts) in let head := head_of repo (tables st) in
    page = DeltaPage texts (cu_seq cu) next head (next <? head) ∧ next ≤ head ∧
    (∀ i t, texts !! i = Some t → ∃ e, memory_entries (tables st) !! (repo, cu_seq cu + 1 + Z.of_nat i) = Some e ∧
       stream_text json_float repo (tables st) (cu_seq cu + 1 + Z.of_nat i, e) = Some t) ∧
    foldr Z.add 0 ((λ t, len t + 1) <$> texts) ≤ l_frameBudget l ∧ Z.of_nat (length texts) ≤ l_rowWindow l ∧
    (cu_seq cu < head → texts ≠ []) ∧
    (next < head → Z.of_nat (length texts) < l_rowWindow l → ∃ e t, memory_entries (tables st) !! (repo, next + 1) = Some e ∧
       stream_text json_float repo (tables st) (next + 1, e) = Some t ∧ l_frameBudget l < foldr Z.add 0 ((λ t, len t + 1) <$> texts) + (len t + 1)) ∧
    issued_at cu next (tables st') ∧ head_of repo (tables st') = head.
Proof.
  intros Hs Hcu Hfl Hbud Hwin H. pose proof Hs as [Hok _]. pose proof Hcu as [[Hb1 Hb2] Hpl]. unfold delta in H. cbn zeta in H. set (batch := stream_after l repo (cu_seq cu) (tables st)) in *.
  pose proof (stream_rows (cu_seq cu) (tables st) Hok Hfl ltac:(lia)) as Hrows. fold batch in Hrows.
  destruct (mapM _ batch) as [all|] eqn:Em; [|done]. pose proof (proj1 (mapM_Some _ _ _) Em) as Hall. clear Em.
  destruct (bounded _ _) as [n|e] eqn:Eb; [|done]. apply bounded_spec in Eb as (Hn1 & Hn2 & Hn3 & Hn4); [|done]. rewrite length_fmap in Hn1. rewrite <-fmap_take in Hn2.
  pose proof (Forall2_length _ _ _ Hall) as Hlen. pose proof (f_equal length Hrows) as Hrl. rewrite length_fmap, length_take, length_seqZ in Hrl.
  assert (length (take n all) = n) as Hln by (rewrite length_take; lia). assert (length (take n batch) = n) as Hlb by (rewrite length_take; lia).
  pose proof (run_prefix _ _ _ _ n Hrows) as Hrun. pose proof (run_last _ _ Hrun) as Hend. rewrite Hlb in Hend.
  set (head := head_of repo (tables st)) in *. set (end_ := from_option fst (cu_seq cu) _) in *.
  exists (take n all). cbn zeta. rewrite Hln. rewrite <-Hend in *.
  assert (bool_decide (n < length all)%nat || (end_ <? head) = (end_ <? head)) as Hmore by (case_bool_decide; [|done]; cbn; lia).
  assert (page = DeltaPage (take n all) (cu_seq cu) end_ head (end_ <? head) ∧ issued_at cu end_ (tables st') ∧ head_of repo (tables st') = head) as (-> & Hi & Hh).
  { destruct (cu_issued cu <? end_) eqn:Ei.
    - unfold next in H. destruct (memoryProgress _ _ _ _ _ _ _ st) as [[u|e] st1] eqn:E; [|done]. apply (issued_delta _ _ _ _ cu) in E as [Hi Hh]; [|done..].
      injection H as <- <-. rewrite Hh. fold head. by rewrite Hmore.
    - injection H as <- <-. fold head. rewrite Hmore. split; [done|]. split; [|done]. intros c' Hc'. rewrite (Hpl _ Hc'). unfold place. cbn. by rewrite Z.max_l by lia. }
  split; [done|]. split; [lia|].
  assert (∀ i t, all !! i = Some t → ∃ e, memory_entries (tables st) !! (repo, cu_seq cu + 1 + Z.of_nat i) = Some e ∧
    stream_text json_float repo (tables st) (cu_seq cu + 1 + Z.of_nat i, e) = Some t) as Htext.
  { intros i t Ht. destruct (Forall2_lookup_r _ _ _ _ _ Hall Ht) as ([q e] & Hq & Hf). assert (q = cu_seq cu + 1 + Z.of_nat i) as ->.
    { assert ((fst <$> batch) !! i = Some q) as Hl by by rewrite list_lookup_fmap, Hq. rewrite Hrows in Hl. apply lookup_take_Some in Hl as [Hl _]. by apply lookup_seqZ in Hl as [-> _]. }
    exists e. split; [|done]. by eapply stream_after_entry, list_elem_of_lookup_2. }
  split; [intros i t [Ht _]%lookup_take_Some; by apply Htext|]. split; [done|]. split; [lia|]. split; [|split; [|done]].
  - intros Hlt. destruct all as [|t all]; [cbn in *; lia|]. destruct n as [|n]; [|done]. by destruct Hn3.
  - intros Hlt Hw. destruct (all !! n) as [t|] eqn:Et; [|apply lookup_ge_None in Et; lia]. destruct (Htext _ _ Et) as (e & He & Hte). exists e, t. rewrite Hend.
    replace (cu_seq cu + Z.of_nat n + 1) with (cu_seq cu + 1 + Z.of_nat n) by lia. split; [done|]. split; [done|]. rewrite fmap_take. apply Hn4. by rewrite list_lookup_fmap, Et.
Qed.

(** a page of a snapshot is the exact run of its items from the token, of the caller's own
    snapshot, in order and within the frame; it is not empty while items remain, its token follows
    what it holds and goes no further than what was issued, and the snapshot records the page as
    issued. *)
Theorem snapshot_page_exact id r clock st page st' : own repo fresh (tables st) → 0 ≤ l_frameBudget l → snapshotPage json_float json_library l c id r clock st = (Ok page, st') →
  ∃ sn texts, let next := sy_PageToken r + Z.of_nat (length texts) in
    memory_snapshots (tables st) !! id = Some sn ∧ sn_repository sn = repo ∧ sn_consumer sn = mc_Consumer m ∧
    page = SnapshotPage id (sn_head sn) texts next (sn_items sn) (next <? sn_items sn) ∧ 0 ≤ sy_PageToken r ≤ sn_issued sn ∧ next ≤ sn_items sn ∧
    (∀ i t, texts !! i = Some t → ∃ it, memory_snapshot_items (tables st) !! (id, sy_PageToken r + Z.of_nat i) = Some it ∧ si_payload it = t) ∧
    (sy_PageToken r < sn_items sn → texts ≠ []) ∧
    ∀ sn', memory_snapshots (tables st') !! id = Some sn' → sn' = sn <| sn_issued := Z.max (sn_issued sn) next |>.
Proof.
  intros Hs Hbud H. pose proof Hs as [Hok _]. unfold snapshotPage in H. destruct (page_refusal _ _ _ _ _ _) as [sn|e] eqn:Ep; [|done].
  apply page_refusal_Ok in Ep as (Hsn & Hr & Hc & Ht). destruct (so_snapshot _ Hok _ _ Hsn) as (row & _ & _ & Hi).
  pose proof (items_rows id (sy_PageToken r) (tables st) sn Hok Hsn ltac:(lia)) as Hrows. pose proof (items_from_length id (sy_PageToken r) (tables st) sn Hok Hsn ltac:(lia)) as Hlen.
  destruct (bounded _ _) as [n|e] eqn:Eb; [|done]. apply bounded_spec in Eb as (Hn1 & _ & Hn3 & _); [|done]. rewrite length_fmap in Hn1. cbn zeta in H.
  set (items := items_from id (sy_PageToken r) (tables st)) in *. exists sn, (si_payload <$> take n items). cbn zeta. rewrite length_fmap, length_take, Nat.min_l by done.
  set (next_ := sy_PageToken r + Z.of_nat n) in *.
  assert (bool_decide (n < length items)%nat || (next_ <? sn_items sn) = (next_ <? sn_items sn)) as Hmore by (case_bool_decide; [|done]; cbn; lia).
  rewrite Hmore in H. assert (page = SnapshotPage id (sn_head sn) (si_payload <$> take n items) next_ (sn_items sn) (next_ <? sn_items sn) ∧
    ∀ sn', memory_snapshots (tables st') !! id = Some sn' → sn' = sn <| sn_issued := Z.max (sn_issued sn) next_ |>) as [-> Hafter].
  { destruct (sn_issued sn <? next_) eqn:Ei.
    - unfold next in H. destruct (memoryProgress _ _ _ _ _ _ _ st) as [[u|e] st1] eqn:E; [|done]. injection H as <- <-. split; [done|].
      unfold memoryProgress in E. apply memoryWrite_runs with (fresh := fresh) in E as (store & s2 & s3 & Hb & Hbody & Hv & _); [|done..].
      unfold issueTx in Hbody. run Hbody. intros sn' Hsn'0. pose proof (lookup_weaken _ _ _ _ Hsn'0 (qu_snapshots _ _ (view_quiet _ _ Hv))) as Hsn'.
      cbn in Hsn'. rewrite lookup_alter_eq in Hsn'. apply fmap_Some in Hsn' as (sn2 & Hsn2 & ->).
      pose proof (lookup_weaken _ _ _ _ Hsn2 (bg_snapshots _ _ _ _ _ Hb)). assert (sn2 = sn) as -> by congruence. rewrite Ei, Z.max_r by lia. done.
    - injection H as <- <-. split; [done|]. intros sn' Hsn'. assert (sn' = sn) as -> by congruence. rewrite Z.max_l by lia. by destruct sn. }
  split_and!; try done; try lia.
  - intros i t. rewrite list_lookup_fmap. intros (it & Hit & ->)%fmap_Some. apply lookup_take_Some in Hit as [Hit _]. unfold items, items_from in Hit.
    rewrite list_lookup_fmap in Hit. apply fmap_Some in Hit as ([[k1 k2] x] & Hk & ->). exists x. split; [|done].
    assert (k2 = sy_PageToken r + Z.of_nat i) as ->.
    { pose proof (f_equal (λ xs : list Z, xs !! i) Hrows) as Hl. cbn in Hl. rewrite list_lookup_fmap, Hk in Hl. symmetry in Hl. apply lookup_seqZ in Hl as [Hl _]. exact Hl. }
    apply list_elem_of_lookup_2, ordered_rows in Hk as [Hx HP]. cbn in *. by apply andb_true_iff in HP as [->%seqb_true _].
  - intros Hlt E. apply fmap_nil_inv in E. destruct n as [|n]; [|destruct items; [cbn in *; lia|done]]. destruct items; [cbn in *; lia|]. by apply Hn3.
Qed.
End pages.
