(* ===== verification/MemoryProps.v ===== *)
(** * What the operations of the memory do

    An acknowledgement moves its reader alone; a snapshot holds the live notes.  An expiry removes
    exactly the entries of its store that have expired, however many batches that takes.  A note takes the next sequence of its store, replaces its target once, reports a competing
    replacement, and is written once for its key. *)

From S2P Require Import Prelude GoString GoFloat Schema Sql Label Fixture Storage Names Messages Cycles Sessions Inboxes Participants Leases LeaseProps WorkViews MemoryLimits MemoryExpiry WorkItems WorkOps Works WorkFacts WorkProps WorkSteps Library LibraryDecisions Notes Readers Streams ReaderSteps.
Open Scope Z_scope.

(** ** Acknowledgements *)

Section acks.
Context `{SHA : Sha256}.
Variable json_float : float → string.
Variable json_library : string → option string.
Variable l : memoryLimits.
Variable c : Call.
#[local] Abbreviation m := (cl_m c).
#[local] Abbreviation repo := (mc_Repository (cl_m c)).
#[local] Abbreviation fresh := (cl_fresh c).
#[local] Abbreviation me := (mc_Repository (cl_m c), mc_Consumer (cl_m c)).

(** The readers but the caller stay where they are, as long as they are kept. *)
Definition others_stay (s s' : State) : Prop := ∀ k c', k ≠ me → memory_cursors s' !! k = Some c' → ∃ c0, memory_cursors s !! k = Some c0 ∧ place c' = place c0.
#[local] Instance others_preorder : PreOrder others_stay.
Proof.
  split; [intros s k c' _ Hc; eauto|]. intros s1 s2 s3 H1 H2 k c' Hk Hc. destruct (H2 _ _ Hk Hc) as (c1 & Hc1 & E1). destruct (H1 _ _ Hk Hc1) as (c0 & Hc0 & E0).
  exists c0. split; [done|congruence].
Qed.
Lemma quiet_others s s' : quiet s s' → others_stay s s'.
Proof. intros H k c' _ Hc. by apply (qu_cursors _ _ H). Qed.

(** The row that a request reads: the caller's own, or a new one *)
Lemma entered_reads clock last st cu st1 last1 : own repo fresh (tables st) → entered json_float json_library l c clock last st = (Ok cu, st1, last1) →
  (cursor_of m (tables st) = Some cu ∨ place cu = (0, 0, None, false, false)) ∧ others_stay (tables st) (tables st1) ∧ memory_snapshots (tables st1) ⊆ memory_snapshots (tables st).
Proof.
  intros Hs H. unfold entered in H. destruct (guard_check _ _ _); [done|].
  destruct (maybeExpire _ _ _ _ _ _ _ st) as [[r1 st2] last2] eqn:E1. pose proof (maybeExpire_shrunk _ _ _ _ _ _ _ _ _ _ _ E1 (proj1 Hs)) as H1.
  assert (own repo fresh (tables st2)) as Hs2 by by eapply shrunk_own. destruct r1 as [u|e]; [|done]. unfold next in H.
  destruct (register _ _ _ _ _ st2) as [[cu2|e] st3] eqn:E2; [|done]. pose proof (register_snapshots json_float json_library l c _ _ _ _ Hs2 E2) as Hsn.
  apply register_own in E2 as [Hs3 [_ Hcu]]; [|done].
  destruct (touch _ _ _ _ _ st3) as [r3 st4] eqn:E3. apply progress_quiet in E3 as [_ Hq]; [|done|apply touchTx_stream]. destruct r3 as [u3|e]; [|done]. injection H as <- <- _.
  split; [|split].
  - destruct Hcu as [[_ Hcu]|(_ & Hcu & _)]; [|by right]. left. unfold cursor_of in *. eapply lookup_weaken; [done|apply (sh_cursors _ _ H1)].
  - etrans; [by apply quiet_others, shrunk_quiet|]. etrans; [|by apply quiet_others].
    destruct Hcu as [[-> _]|(_ & _ & Hcu)]; [done|]. intros k c' Hk Hc'. by apply Hcu.
  - etrans; [apply (qu_snapshots _ _ Hq)|]. etrans; [exact Hsn|]. apply (sh_snapshots _ _ H1).
Qed.

(** A change of the caller's place by [f] *)
Definition now_placed (f : CursorRow → CursorRow) (cu : CursorRow) (s : State) : Prop := ∀ c', cursor_of m s = Some c' → place c' = place (f cu).
Definition by_place (f : CursorRow → CursorRow) : Prop := ∀ x y, place x = place y → place (f x) = place (f y).
Lemma placed_runs f (before : tx unit) k clock st cu u st' : by_place f → (∀ s x s', before s = Ok (x, s') → memory_cursors s' = memory_cursors s) →
  own repo fresh (tables st) → at_reader m cu (tables st) →
  memoryProgress json_float json_library l c k clock (_ ← before; update_cursor repo (mc_Consumer m) f) st = (Ok u, st') →
  now_placed f cu (tables st') ∧ others_stay (tables st) (tables st').
Proof.
  intros Hf Hbef Hs [_ Hpl] H. unfold memoryProgress in H. apply memoryWrite_runs with (fresh := fresh) in H as (store & s2 & s3 & Hb & Hbody & Hv & _); [|done..].
  apply bind_Ok in Hbody as (x & s4 & H4 & Hbody). apply Hbef in H4. unfold update_cursor in Hbody. run Hbody. apply view_quiet in Hv. apply begun_quiet in Hb. split.
  - intros c' Hc'. destruct (qu_cursors _ _ Hv _ _ Hc') as (c1 & Hc1 & ->). cbn in Hc1. rewrite H4, lookup_alter_eq in Hc1. apply fmap_Some in Hc1 as (c0 & Hc0 & ->).
    destruct (qu_cursors _ _ Hb _ _ Hc0) as (y & Hy & E). apply Hf. rewrite E. by apply Hpl.
  - intros k' c' Hk Hc'. destruct (qu_cursors _ _ Hv _ _ Hc') as (c1 & Hc1 & ->). cbn in Hc1. rewrite H4, lookup_alter_ne in Hc1 by done. by apply (qu_cursors _ _ Hb).
Qed.

Lemma ack_delta_moves through cu clock st a st' : own repo fresh (tables st) → at_reader m cu (tables st) → ack_delta json_float json_library l c through cu clock st = (Ok a, st') →
  (cu_bootstrapped cu = true ∧ through < cu_seq cu ∧ a = NotMonotonic (cu_seq cu) ∧ st' = st) ∨
  (cu_bootstrapped cu = true ∧ cu_snapshot cu = None ∧ cu_resnapshot cu = false ∧ cu_seq cu ≤ through ≤ cu_issued cu ∧ a = CursorAt through ∧
   now_placed (λ x, x <| cu_seq := through |>) cu (tables st') ∧ others_stay (tables st) (tables st')).
Proof.
  intros Hs Hcu H. unfold ack_delta in H. destruct (bool_decide _ || _) eqn:Eo; [done|]. apply orb_false_iff in Eo as [Eo%bool_decide_eq_false%eq_None_not_Some Er].
  destruct (negb _) eqn:Eb; [done|]. apply negb_false_iff in Eb. destruct (through <? _) eqn:E1; [injection H as <- <-; left; split_and!; [done|lia|done..]|].
  destruct (cu_issued cu <? _) eqn:E2; [done|]. right. unfold next in H. destruct (memoryProgress _ _ _ _ _ _ _ st) as [[u|e] st1] eqn:E; [|done]. injection H as <- <-.
  assert (by_place (λ x, x <| cu_seq := through |>)) as Hf by (intros x y [= F1 F2 F3 F4 F5]; unfold place; cbn; congruence).
  destruct (placed_runs _ (mret tt) _ _ _ _ _ _ Hf ltac:(intros s x s' Hr; by run Hr) Hs Hcu E) as [Hp Ho]. split_and!; [done..|lia|lia|done|done|done].
Qed.
Lemma ack_snapshot_moves id cu clock st a st' : own repo fresh (tables st) → at_reader m cu (tables st) → ack_snapshot json_float json_library l c id cu clock st = (Ok a, st') →
  (st' = st ∧ ∃ sn, memory_snapshots (tables st) !! id = Some sn ∧ (sn_repository sn = repo ∧ sn_consumer sn = mc_Consumer m ∧ sn_acked sn = true) ∧ a = SnapshotAcked (sn_head sn) id true) ∨
  (∃ sn, memory_snapshots (tables st) !! id = Some sn ∧ (sn_repository sn = repo ∧ sn_consumer sn = mc_Consumer m) ∧ sn_acked sn = false ∧ sn_issued sn = sn_items sn ∧ cu_snapshot cu = Some id ∧
     a = SnapshotAcked (sn_head sn) id false ∧
     now_placed (λ x, x <| cu_seq := sn_head sn |> <| cu_issued := Z.max (cu_issued x) (sn_head sn) |> <| cu_snapshot := None |> <| cu_bootstrapped := true |> <| cu_resnapshot := false |>) cu (tables st') ∧
     others_stay (tables st) (tables st')).
Proof.
  intros Hs Hcu H. unfold ack_snapshot in H. destruct (snapshot_of m id (tables st)) as [sn|] eqn:Esn; [|done]. apply snapshot_of_Some in Esn as [Hsn Hr].
  destruct (negb (owned m sn)) eqn:Eo; [done|]. apply negb_false_iff in Eo. unfold owned in Eo. apply seqb_true in Eo.
  destruct (sn_acked sn) eqn:Ea; [injection H as <- <-; left; split; [done|]; by exists sn|]. destruct (negb (bool_decide _)) eqn:Ec; [done|]. apply negb_false_iff, bool_decide_eq_true in Ec.
  destruct (too_old _ _ _); [done|]. destruct (sn_issued sn <? _) eqn:Ei; [done|]. unfold next in H. destruct (memoryProgress _ _ _ _ _ _ _ st) as [[u|e] st1] eqn:E; [|done]. injection H as <- <-.
  right. exists sn. destruct (so_snapshot _ (proj1 Hs) _ _ Hsn) as (row & _ & _ & Hi).
  assert (by_place (λ x, x <| cu_seq := sn_head sn |> <| cu_issued := Z.max (cu_issued x) (sn_head sn) |> <| cu_snapshot := None |> <| cu_bootstrapped := true |> <| cu_resnapshot := false |>)) as Hf.
  { intros x y [= F1 F2 F3 F4 F5]. unfold place. cbn -[Z.max]. by rewrite F2. }
  pose proof (λ Hbef, placed_runs _ _ _ _ _ _ _ _ Hf Hbef Hs Hcu E) as Hpl. destruct Hpl as [Hp Ho]; [intros s x s1 Hm; by run Hm|].
  split_and!; try done; try lia.
Qed.

(** C21: an acknowledgement moves its reader, and no other, over what it was given and never
    back.  A delta is acknowledged up to an issued sequence by a reader without an open snapshot;
    a lower one is answered with the cursor and moves nothing.  A snapshot is acknowledged by its
    owner once all its items were issued, and places the reader at the head of the snapshot, not
    behind where it was; the acknowledgement of an acknowledged one is answered again and moves
    nothing. *)
Theorem ack_moves r clock last st a st' last' : own repo fresh (tables st) → MemoryAck json_float json_library l c r clock last st = (Ok a, st', last') →
  others_stay (tables st) (tables st') ∧
  match a with
  | CursorAt n => ∃ cu, cursor_of m (tables st) = Some cu ∧ cu_bootstrapped cu = true ∧ cu_snapshot cu = None ∧ cu_resnapshot cu = false ∧
      n = default 0 (ak_Through r) ∧ cu_seq cu ≤ n ≤ cu_issued cu ∧ now_placed (λ x, x <| cu_seq := n |>) cu (tables st')
  | NotMonotonic n => ∃ cu, cursor_of m (tables st) = Some cu ∧ n = cu_seq cu ∧ default 0 (ak_Through r) < n ∧ now_placed (λ x, x) cu (tables st')
  | SnapshotAcked head id false => id = ak_SnapshotID r ∧ ∃ cu sn, cursor_of m (tables st) = Some cu ∧ cu_snapshot cu = Some id ∧
      memory_snapshots (tables st) !! id = Some sn ∧ sn_repository sn = repo ∧ sn_consumer sn = mc_Consumer m ∧ sn_acked sn = false ∧ sn_issued sn = sn_items sn ∧
      head = sn_head sn ∧ cu_seq cu ≤ head ∧
      now_placed (λ x, x <| cu_seq := head |> <| cu_issued := Z.max (cu_issued x) head |> <| cu_snapshot := None |> <| cu_bootstrapped := true |> <| cu_resnapshot := false |>) cu (tables st')
  | SnapshotAcked head id true => id = ak_SnapshotID r ∧ ∃ sn, memory_snapshots (tables st) !! id = Some sn ∧ sn_repository sn = repo ∧ sn_consumer sn = mc_Consumer m ∧
      sn_acked sn = true ∧ head = sn_head sn ∧
      ∃ cu, (cursor_of m (tables st) = Some cu ∨ place cu = (0, 0, None, false, false)) ∧ now_placed (λ x, x) cu (tables st')
  end.
Proof.
  intros Hs H. unfold MemoryAck in H. destruct (entered _ _ _ _ _ _ st) as [[r1 st1] last1] eqn:E. pose proof (entered_own _ _ _ _ _ _ _ _ _ _ Hs E) as [Hs1 Hcu].
  destruct r1 as [cu|e]; [|done]. apply entered_reads in E as (Hrow & Hoth & Hsub); [|done]. cbn [next] in H.
  destruct (negb _); injection H as H _.
  - destruct (ack_snapshot_moves _ _ _ _ _ _ Hs1 Hcu H) as [(-> & sn & Hsn & Ho & ->)|(sn & Hsn & Ho & Ha & Hi & Hop & -> & Hp & Ho')].
    + split; [done|]. split; [done|]. exists sn. split_and!; [by eapply lookup_weaken|apply Ho|apply Ho|apply Ho|done|]. exists cu. split; [done|]. intros x Hx. by apply Hcu.
    + split; [by etrans|]. split; [done|]. destruct Hrow as [Hrow|Hrow]; [|unfold place in Hrow; congruence]. exists cu, sn. pose proof (lookup_weaken _ _ _ _ Hsn Hsub) as Hsn0.
      destruct (so_open _ (proj1 Hs) _ _ _ _ _ Hrow Hop Hsn0 (proj1 Ho) (proj2 Ho)) as [_ Hle]. split_and!; try apply Ho; done.
  - destruct (ack_delta_moves _ _ _ _ _ _ Hs1 Hcu H) as [(Hbt & Hn & -> & ->)|(Hbt & Hop & Hre & Hle & -> & Hp & Ho')].
    + split; [done|]. destruct Hrow as [Hrow|Hrow]; [|unfold place in Hrow; congruence]. exists cu. split_and!; try done. intros x Hx. by apply Hcu.
    + split; [by etrans|]. destruct Hrow as [Hrow|Hrow]; [|unfold place in Hrow; congruence]. exists cu. split_and!; try done; lia.
Qed.
End acks.

(** ** The members of a snapshot *)

#[local] Instance member_le_trans : Transitive member_le.
Proof. intros x y z. unfold member_le. lia. Qed.
#[local] Instance member_le_total : Total member_le.
Proof. intros x y. unfold member_le. lia. Qed.

(** How many entries of a kind a list has *)
Definition of_kind (type_ : string) (xs : list (Z * EntryRow)) : list (Z * EntryRow) := filter (λ x, en_type x.2 = type_) xs.

Lemma keep_tails_kept xs : ∀ counts l1 x l2, xs = l1 ++ x :: l2 →
  (∀ tail, memoryTails (en_type x.2) = Some tail → (counts (en_type x.2) + length (of_kind (en_type x.2) l1) < tail)%nat) → x ∈ keep_tails counts xs.
Proof.
  induction xs as [|[q e] xs IH]; intros counts l1 x l2 E Ht; [by destruct l1|]. destruct l1 as [|y l1]; injection E as <- E; cbn [keep_tails].
  - destruct (memoryTails (en_type e)) as [tail|] eqn:Em; [|left]. specialize (Ht tail Em). cbn in Ht. destruct (Nat.ltb_spec tail (S (counts (en_type e)))); [lia|left].
  - assert (x ∈ keep_tails (λ t, if seqb t (en_type e) then S (counts (en_type e)) else counts t) xs) as Hin.
    { eapply IH; [exact E|]. intros tail Em. specialize (Ht tail Em). unfold of_kind in Ht. rewrite filter_cons in Ht. cbn in Ht.
      destruct (seqb (en_type x.2) (en_type e)) eqn:Es; [apply seqb_true in Es; rewrite decide_True in Ht by done|apply seqb_false in Es; rewrite decide_False in Ht by done]; [|done].
      rewrite Es in *. cbn in Ht. unfold of_kind. lia. }
    destruct (memoryTails (en_type e)) as [tail|]; [|by right]. destruct (_ <? _)%nat; [done|by right].
Qed.
Lemma sorted_sublist {A} (R : A → A → Prop) (l1 l2 : list A) : sublist l1 l2 → StronglySorted R l2 → StronglySorted R l1.
Proof.
  induction 1 as [|x l1 l2 Hs IH|x l1 l2 Hs IH]; [done|..]; intros [Hl Hf]%StronglySorted_inv; [|by apply IH]. constructor; [by apply IH|].
  rewrite Forall_forall in Hf |- *. intros y Hy. apply Hf. by eapply elem_of_sublist.
Qed.
Lemma keep_tails_sublist xs : ∀ counts, sublist (keep_tails counts xs) xs.
Proof. induction xs as [|[q e] xs IH]; intros counts; cbn; [done|]. repeat case_match; by constructor. Qed.
Lemma keep_tails_count xs type_ tail : memoryTails type_ = Some tail → ∀ counts,
  length (of_kind type_ (keep_tails counts xs)) = ((tail - counts type_) `min` length (of_kind type_ xs))%nat.
Proof.
  intros Em. induction xs as [|[q e] xs IH]; intros counts; cbn [keep_tails]; [cbn; lia|].
  specialize (IH (λ t, if seqb t (en_type e) then S (counts (en_type e)) else counts t)). cbn beta in IH. unfold of_kind in *.
  destruct (decide (en_type e = type_)) as [<-|Hne].
  - rewrite (proj2 (seqb_true _ _) eq_refl) in IH. rewrite Em, (filter_cons _ (q, e) xs), decide_True by done. cbn [length]. destruct (Nat.ltb_spec tail (S (counts (en_type e)))); [lia|].
    rewrite filter_cons, decide_True by done. cbn [length]. lia.
  - rewrite (proj2 (seqb_false _ _)) in IH by done. rewrite (filter_cons _ (q, e) xs), decide_False by done.
    destruct (memoryTails (en_type e)) as [t|]; [destruct (_ <? _)%nat; [done|]|]; by rewrite filter_cons, decide_False.
Qed.
Lemma keep_tails_out xs : ∀ counts l1 x l2 tail, xs = l1 ++ x :: l2 → NoDup xs → memoryTails (en_type x.2) = Some tail →
  (tail ≤ counts (en_type x.2) + length (of_kind (en_type x.2) l1))%nat → x ∉ keep_tails counts xs.
Proof.
  induction xs as [|[q e] xs IH]; intros counts l1 x l2 tail E Hnd Em Ht; [by destruct l1|]. apply NoDup_cons in Hnd as [Hn Hd]. destruct l1 as [|y l1]; injection E as <- E; cbn [keep_tails].
  - cbn [snd] in *. rewrite Em. cbn in Ht. destruct (Nat.ltb_spec tail (S (counts (en_type e)))); [|lia]. intros Hin. destruct Hn. by eapply elem_of_sublist, keep_tails_sublist.
  - assert (x ∉ keep_tails (λ t, if seqb t (en_type e) then S (counts (en_type e)) else counts t) xs) as Hout.
    { eapply IH; [exact E|done|exact Em|]. unfold of_kind in Ht. rewrite filter_cons in Ht. cbn in Ht.
      destruct (seqb (en_type x.2) (en_type e)) eqn:Es; [apply seqb_true in Es; rewrite decide_True in Ht by done|apply seqb_false in Es; rewrite decide_False in Ht by done]; [|done].
      rewrite Es in *. cbn in Ht. unfold of_kind. lia. }
    assert (x ≠ (q, e)) as Hx by (intros ->; destruct Hn; rewrite E; set_solver).
    destruct (memoryTails (en_type e)); [destruct (_ <? _)%nat; [done|]|]; intros [?|?]%elem_of_cons; done.
Qed.

(** the members of a snapshot are live notes of the repository up to its head, by kind and
    newest first, at most the tail of each capped kind; a live note is left out only when the
    whole tail of newer live notes of its kind is in. *)
Theorem members_exact repo head now s (ms := members repo head now s) :
  StronglySorted member_le ms ∧ NoDup ms ∧
  (∀ q e, (q, e) ∈ ms → memory_entries s !! (repo, q) = Some e ∧ live_note repo head now (repo, q) e = true) ∧
  (∀ type_ tail, memoryTails type_ = Some tail → (length (of_kind type_ ms) ≤ tail)%nat) ∧
  (∀ q e, memory_entries s !! (repo, q) = Some e → live_note repo head now (repo, q) e = true → (q, e) ∈ ms ∨
     ∃ tail, memoryTails (en_type e) = Some tail ∧ length (of_kind (en_type e) ms) = tail ∧ ∀ x, x ∈ of_kind (en_type e) ms → q < x.1).
Proof.
  set (rows := (λ ke : (string * Z) * EntryRow, (ke.1.2, ke.2)) <$> select (live_note repo head now) (memory_entries s)). set (xs := merge_sort member_le rows).
  assert (∀ q e, (q, e) ∈ xs ↔ memory_entries s !! (repo, q) = Some e ∧ live_note repo head now (repo, q) e = true) as Hxs.
  { intros q e. unfold xs. rewrite merge_sort_Permutation. unfold rows. rewrite list_elem_of_fmap. split.
    - intros ([[k1 k2] v] & [= -> ->] & [Hl HP]%elem_of_select). cbn. assert (k1 = repo) as -> by (unfold live_note in HP; rewrite !andb_true_iff, seqb_true in HP; apply HP). done.
    - intros [Hl HP]. exists ((repo, q), e). split; [done|]. by apply elem_of_select. }
  assert (NoDup xs) as Hnd.
  { unfold xs. rewrite merge_sort_Permutation. apply NoDup_fmap_2_strong; [|apply NoDup_select]. intros [[k1 k2] v] [[j1 j2] w] [_ H1]%elem_of_select [_ H2]%elem_of_select [= -> ->].
    unfold live_note in H1, H2. rewrite !andb_true_iff, seqb_true in H1, H2. cbn in *. destruct H1 as [[[[[-> _] _] _] _] _], H2 as [[[[[-> _] _] _] _] _]. done. }
  assert (StronglySorted member_le xs) as Hso by (apply StronglySorted_merge_sort; apply _).
  assert (ms = keep_tails (λ _, 0%nat) xs) as Hms by done. pose proof (keep_tails_sublist xs (λ _, 0%nat)) as Hsub. rewrite <-Hms in Hsub. clearbody ms xs. split; [|split; [|split; [|split]]].
  - by eapply sorted_sublist.
  - by eapply sublist_NoDup.
  - intros q e Hin. apply Hxs. by eapply elem_of_sublist.
  - intros type_ tail Em. rewrite Hms, (keep_tails_count _ _ _ Em). lia.
  - intros q e Hl Hlive. destruct (list_elem_of_split _ _ (proj2 (Hxs q e) (conj Hl Hlive))) as (l1 & l2 & E).
    destruct (memoryTails (en_type e)) as [tail|] eqn:Em; [|left; rewrite Hms; eapply keep_tails_kept; [exact E|]; intros t Et; cbn in Et; congruence].
    destruct (le_lt_dec tail (length (of_kind (en_type e) l1))) as [Hcount|Hlt].
    2:{ left. rewrite Hms. eapply keep_tails_kept; [exact E|]. intros t Et. cbn in *. assert (t = tail) as -> by congruence. lia. }
    right. assert ((q, e) ∉ ms) as Hout by (rewrite Hms; by eapply keep_tails_out).
    exists tail. split; [done|]. split.
    + rewrite Hms, (keep_tails_count _ _ _ Em), E. unfold of_kind in *. rewrite filter_app, length_app. lia.
    + intros x [Hk Hin]%list_elem_of_filter. pose proof (elem_of_sublist _ _ _ Hin Hsub) as Hx. rewrite E in Hx. apply elem_of_app in Hx as [Hx|[->|Hx]%elem_of_cons]; [| by destruct Hout|].
      * rewrite E in Hso. pose proof (StronglySorted_app_1_elem_of _ _ _ _ _ Hso Hx (list_elem_of_here _ _)) as Hle. unfold member_le in Hle. cbn in Hle. rewrite Hk in Hle.
        assert (x.1 ≠ q); [|lia]. intros Eq. destruct x as [q' e']. cbn in *. subst q'. rewrite E in Hnd. apply NoDup_app in Hnd as (_ & Hd & _).
        apply (Hd _ Hx). assert (e' = e) as ->; [|left]. destruct (Hxs q e') as [Hf _]. destruct Hf as [Hf _]; [rewrite E; apply elem_of_app; by left|]. congruence.
      * apply list_elem_of_split in Hx as (l3 & l4 & ->). destruct (keep_tails_out xs (λ _, 0%nat) (l1 ++ (q, e) :: l3) x l4 tail); [by rewrite <-app_assoc|done|by rewrite Hk| |by rewrite <-Hms].
        rewrite Hk. unfold of_kind in *. rewrite filter_app, length_app. lia.
Qed.

(** ** Notes *)

Section notes.
Context `{SHA : Sha256}.
Variable json_float : float → string.
Variable json_library : string → option string.
Variable decode_links : string → option (list Link).
Variable decode_commands : string → option (list Command).
Variable decode_decision : string → option Library.Decision.
Variable libraryCatalog : result error Catalog.
Variable l : memoryLimits.
#[local] Abbreviation record_ := (MemoryRecord json_float json_library decode_links decode_commands decode_decision libraryCatalog l).

(** An entry that has expired at the time of the expiry of a call, or of its repetition *)
Definition expired_during (repo : string) (clock : nat → float) (k : string * Z) (e : EntryRow) : Prop :=
  expires_at repo (clock 1%nat) k e ∨ expires_at repo (clock 2%nat) k e.
(** The checks that a recorded note has passed, and its transaction *)
Lemma MemoryRecord_runs m r0 fresh clock now_ms at_ audit sweep retry en last st res st' last' (r := normal_note r0) : own (mc_Repository m) fresh (tables st) →
  record_ m r0 fresh clock now_ms at_ audit sweep retry en last st = (Ok res, st', last') →
  note_checks json_float l m r0 = None ∧ key_checks l (clock 0%nat) r = None ∧
  ((keyed_duplicate json_float m r (tables st) = Ok (Some res) ∧ st' = st) ∨
   keyed_duplicate json_float m r (tables st) = Ok None ∧ ∃ store s2 s3, begun (mc_Repository m) fresh store (tables st) s2 ∧ recordTx json_float l (clock 0%nat) m r s2 = Ok (res, s3) ∧
     stream_view (tables st') = stream_view s3 ∧ memory_idem (tables st') = memory_idem s3 ∧ lost (expired_during (mc_Repository m) clock) (tables st) s2).
Proof.
  intros Hs H. unfold MemoryRecord in H. fold r in H. destruct (guard_check _ _ _); [done|]. destruct (note_checks _ _ _ _); [done|]. destruct (key_checks _ _ _); [done|].
  split; [done|]. split; [done|]. destruct (keyed_duplicate _ _ _ _) as [[x|]|e]; [injection H as -> <- _; by left| |done]. right. split; [done|].
  destruct (validateProjectDecision _ _ _ _ _ _ _ _ _ _ _); [done|]. destruct (maybeExpire _ _ _ _ _ _ _ st) as [[r1 st1] last1] eqn:E1. pose proof (maybeExpire_lost _ _ _ _ _ _ _ _ _ _ _ E1) as Hl1. apply maybeExpire_shrunk in E1; [|apply Hs].
  destruct r1 as [u|e]; [|done]. cbn zeta in H. injection H as H _. assert (own (mc_Repository m) fresh (tables st1)) as Hs1 by by eapply shrunk_own.
  apply memoryWrite_runs with (fresh := fresh) in H as (store & s2 & s3 & Hb & Hbody & Hv & Hi & Hl2); [|done..].
  exists store, s2, s3. split; [by eapply begun_shrunk|]. do 3 (split; [done|]).
  etrans; (eapply lost_weaken; [|eassumption]); intros k e He; [by left|by right].
Qed.

Lemma keyed_duplicate_marked m r s x : keyed_duplicate json_float m r s = Ok (Some x) → nr_Duplicate x = true.
Proof.
  unfold keyed_duplicate, duplicate. destruct (rq_Key r); [|done]. destruct (memory_idem s !! _); [|done]. destruct (_ || _); [done|]. destruct (negb _); [done|]. by intros [= <-].
Qed.
Lemma key_checks_deadline now r key : rq_Key r = Some key → key_checks l now r = None → ∃ d, rq_Deadline r = Some d.
Proof. unfold key_checks. intros ->. destruct (_ || _); [done|]. destruct (rq_Deadline r); [eauto|done]. Qed.

End notes.

(** ** Expiry *)

Section expiry.
Variable json_library : string → option string.
Variables (repo : string) (now : float).

(** The entries that a batch may take *)
Definition due_entries (s : State) : gmap (string * Z) EntryRow := filter (λ ke, expired_entry repo now ke.1 ke.2 = true) (memory_entries s).
(** Every entry is as it was, or has expired. *)
#[local] Abbreviation only_due := (lost (expires_at repo now)).
Lemma due_entries_some s k e : due_entries s !! k = Some e ↔ memory_entries s !! k = Some e ∧ expired_entry repo now k e = true.
Proof. unfold due_entries. by rewrite map_lookup_filter_Some. Qed.
Lemma expire_batch_due s n s' : expire_batch json_library repo now s = Ok (n, s') →
  only_due s s' ∧ memory_cursors s' = memory_cursors s ∧ 0 ≤ n ∧ (n < Z.of_nat batch_size → due_entries s' = ∅) ∧ (0 < n → (size (due_entries s') < size (due_entries s))%nat).
Proof.
  intros H. pose proof (expire_batch_lost _ _ _ _ _ _ H) as Hlost. split; [exact Hlost|]. unfold expire_batch in H. run H. set (all := order_by _ _) in *. set (rows := take batch_size all) in *.
  assert (∀ ke, ke ∈ all ↔ due_entries s !! ke.1 = Some ke.2) as Hall.
  { intros [k e]. unfold all. by rewrite elem_of_order_by, elem_of_select, due_entries_some. }
  assert (∀ ke, ke ∈ rows → due_entries s !! ke.1 = Some ke.2 ∧ ke.1.1 = repo) as Hrows.
  { intros ke Hin. apply elem_of_take in Hin as (i & Hi & _). apply list_elem_of_lookup_2, Hall in Hi. split; [done|]. apply due_entries_some in Hi as [_ Hx].
    unfold expired_entry in Hx. by apply andb_true_iff in Hx as [?%seqb_true _]. }
  destruct (last _) as [top|] eqn:Et.
  2:{ run H. apply last_None, fmap_nil_inv in Et. assert (all = []) as Hnil by (unfold rows in Et; by destruct all). do 2 (split; [done|]). split; [|done]. intros _.
      apply map_empty. intros k. apply eq_None_not_Some. intros [e He]. apply (Hall (k, e)) in He. rewrite Hnil in He. by apply elem_of_nil in He. }
  run H. rewrite length_fmap. cbn.
  match type of Hlost with lost _ s ?s2 => set (s2' := s2) in * end.
  assert (due_entries s2' ⊆ due_entries s) as Hsub.
  { apply map_subseteq_spec. intros k e [[Hk _]%map_lookup_filter_Some Hx]%due_entries_some. by apply due_entries_some. }
  split; [done|split; [lia|split]].
  - intros Hlt. assert (rows = all) as Hra by (unfold rows in *; rewrite length_take in Hlt; apply take_ge; unfold batch_size in *; lia).
    apply map_empty. intros k. apply eq_None_not_Some. intros [e [[Hk Hf]%map_lookup_filter_Some Hx]%due_entries_some]. cbn in Hf. apply bool_decide_eq_false in Hf. destruct Hf.
    assert ((k, e) ∈ rows) as Hr by (rewrite Hra; by apply Hall, due_entries_some). split; [by apply (Hrows (k, e))|]. apply list_elem_of_fmap. by exists (k, e).
  - intros _. apply map_subset_size. split; [done|]. intros Hsup. apply last_Some_elem_of, list_elem_of_fmap in Et as (ke & _ & Hke). destruct (Hrows _ Hke) as [Hd Hr].
    pose proof (lookup_weaken _ _ _ _ Hd Hsup) as [[_ Hf]%map_lookup_filter_Some _]%due_entries_some. cbn in Hf. apply bool_decide_eq_false in Hf. destruct Hf.
    split; [done|]. apply list_elem_of_fmap. by exists ke.
Qed.

(** Between the tables of two writes, nothing but the audit record *)
Lemma write_due {A} (w : Write) en (body : tx A) st a st' : write w en body st = (Ok a, st') →
  ∃ s2 s3, memory_entries s2 = memory_entries (tables st) ∧ body s2 = Ok (a, s3) ∧ memory_entries (tables st') = memory_entries s3 ∧
    memory_cursors s2 = memory_cursors (tables st) ∧ memory_cursors (tables st') = memory_cursors s3 ∧ memory_snapshots (tables st') = memory_snapshots s3 ∧ memory_retired (tables st') = memory_retired s3.
Proof.
  intros (s & Hb & E)%write_runs. eexists _, s. split; [|split; [exact Hb|]]; [done|]. rewrite E. unfold writeAudit. by destruct (pending s), (w_audited w).
Qed.
Lemma due_entries_same s s' : memory_entries s' = memory_entries s → due_entries s' = due_entries s.
Proof. intros E. unfold due_entries. by rewrite E. Qed.

(** More fuel than expired entries is enough for every batch. *)
Lemma expire_batches_due fuel : ∀ en st u st', (size (due_entries (tables st)) < fuel)%nat → expire_batches json_library fuel repo now en st = (Ok u, st') →
  only_due (tables st) (tables st') ∧ memory_cursors (tables st') = memory_cursors (tables st) ∧ due_entries (tables st') = ∅.
Proof.
  induction fuel as [|fuel IH]; intros en st u st' Hf H; [lia|]. cbn [expire_batches] in H. destruct (write _ _ _ st) as [[n|e] st1] eqn:E; [|done].
  apply write_due in E as (s2 & s3 & E2 & Hb & E3 & C2 & C3 & _). apply expire_batch_due in Hb as (Ho & Hc & Hn & Hshort & Hless). rewrite (due_entries_same _ _ E2) in Hless.
  assert (only_due (tables st) (tables st1)) as H1 by (etrans; [by apply lost_same|]; etrans; [exact Ho|]; by apply lost_same).
  rewrite <-(due_entries_same _ _ E3) in *. destruct (Z.ltb_spec n (Z.of_nat batch_size)); [injection H as _ <-; split; [done|]; split; [congruence|by apply Hshort]|].
  destruct (IH en st1 u st') as (H2 & H3 & H4); [unfold batch_size in *; lia|done|]. split; [by etrans|]. split; [congruence|done].
Qed.

(** ** The whole expiry *)

Variable l : memoryLimits.
#[local] Abbreviation idle c := (fltb (cu_updated c) (fsub now (l_consumerTTL l))).
Lemma expire_rest_readers s u s' : expire_rest l repo now s = Ok (u, s') →
  memory_entries s' = memory_entries s ∧
  (∀ id sn, memory_snapshots s' !! id = Some sn → old_snapshot l repo (fsub now (l_snapshotTTL l)) (fsub now (l_ackRetention l)) sn = false) ∧
  ∀ consumer c, memory_cursors s !! (repo, consumer) = Some c →
    if idle c then memory_cursors s' !! (repo, consumer) = None ∧ memory_retired s' !! (repo, consumer) = Some (mkRetiredRow (cu_seq c) now)
    else memory_cursors s' !! (repo, consumer) = Some c.
Proof.
  unfold expire_rest. intros H. run H. cbn. split; [done|]. split.
  - by intros id sn [_ Ho]%map_lookup_filter_Some.
  - intros consumer c Hc. destruct (idle c) eqn:Ei.
    + split; [apply map_lookup_filter_None; right; intros c' Hc'; cbn; assert (c' = c) as -> by congruence; by rewrite (proj2 (seqb_true _ _) eq_refl), Ei|].
      apply lookup_union_Some_l. rewrite map_lookup_imap, Hc. cbn. by rewrite (proj2 (seqb_true _ _) eq_refl), Ei.
    + apply map_lookup_filter_Some. split; [done|]. cbn. by rewrite Ei, andb_false_r.
Qed.

(** C25: with more fuel than the store has expired entries, which is enough for every batch, an
    accepted expiry leaves no entry of the store that has expired and no snapshot past its window,
    removes no other entry, keeps every reader but the idle ones, which it retires at their
    cursor, and has raised the floor over every removed entry, so that a reader who missed one
    gets a snapshot. *)
Theorem expiry_complete fuel reclaim_ en st u st' : stream_ok (tables st) → (size (due_entries (tables st)) < fuel)%nat →
  expireMemory json_library fuel l repo now reclaim_ en st = (Ok u, st') →
  (∀ q e, memory_entries (tables st') !! (repo, q) = Some e → expired_entry repo now (repo, q) e = false) ∧
  (∀ k e, memory_entries (tables st) !! k = Some e → memory_entries (tables st') !! k = Some e ∨
     (memory_entries (tables st') !! k = None ∧ expired_entry repo now k e = true ∧ k.1 = repo ∧ k.2 ≤ floor_of repo (tables st'))) ∧
  (∀ id sn, memory_snapshots (tables st') !! id = Some sn → old_snapshot l repo (fsub now (l_snapshotTTL l)) (fsub now (l_ackRetention l)) sn = false) ∧
  ∀ consumer c, memory_cursors (tables st) !! (repo, consumer) = Some c →
    if idle c then memory_cursors (tables st') !! (repo, consumer) = None ∧ memory_retired (tables st') !! (repo, consumer) = Some (mkRetiredRow (cu_seq c) now)
    else memory_cursors (tables st') !! (repo, consumer) = Some c.
Proof.
  intros Hok Hf H. pose proof (expireMemory_shrunk _ _ _ _ _ _ _ _ _ _ H Hok) as Hsh. unfold expireMemory in H. destruct (expire_batches _ _ _ _ _ st) as [[u1|e] st1] eqn:E1; [|done].
  apply expire_batches_due in E1 as (H1 & C1 & Hnone); [|done]. destruct (write _ _ _ st1) as [[u2|e] st2] eqn:E2; [|done].
  assert (tables st' = tables st2) as Et.
  { destruct (negb reclaim_); [by injection H as _ <-|]. destruct (blocked st2); [done|]. by rewrite (reclaim_tables _ _ _ _ H). }
  clear H. apply write_due in E2 as (s2 & s3 & F1 & Hb & F2 & F3 & F4 & F5 & F6). apply expire_rest_readers in Hb as (G1 & G2 & G3). rewrite F3, C1 in G3.
  assert (memory_entries (tables st') = memory_entries (tables st1)) as Ee by (rewrite Et; congruence). destruct H1 as [Hsub Hdue]. rewrite <-Ee in Hsub, Hdue.
  split; [|split; [|split]].
  - intros q e Hl. destruct (expired_entry _ _ _ _) eqn:Ex; [|done]. rewrite Ee in Hl. assert (due_entries (tables st1) !! (repo, q) = Some e) as Hd by by apply due_entries_some. by rewrite Hnone in Hd.
  - intros k e Hl. destruct (memory_entries (tables st') !! k) as [e2|] eqn:E; [left; pose proof (lookup_weaken _ _ _ _ E Hsub); congruence|]. right. pose proof (Hdue _ _ Hl E) as Hx. split; [done|]. split; [done|].
    destruct k as [k1 q]. assert (k1 = repo) as -> by (unfold expired_entry in Hx; by apply andb_true_iff in Hx as [?%seqb_true _]). split; [done|]. cbn [snd].
    destruct (so_entry _ Hok _ _ _ Hl) as (r & Hr & Hq & _). pose proof (sh_heads _ _ Hsh) as Hh. apply (f_equal (λ m, m !! repo)) in Hh. unfold heads in Hh. rewrite !lookup_fmap, Hr in Hh.
    unfold floor_of. destruct (memory_stores (tables st') !! repo) as [r'|] eqn:Er; [|done]. injection Hh as _ Hh. cbn. destruct (Z.le_gt_cases q (sto_floor r')) as [|Hgt]; [done|exfalso].
    destruct (so_gapless _ (sh_ok _ _ Hsh Hok) _ _ q Er ltac:(lia)) as [e' He']. congruence.
  - intros id sn Hl. rewrite Et, F5 in Hl. by eapply G2.
  - intros consumer c Hc. specialize (G3 _ _ Hc). rewrite Et, F4, F6. done.
Qed.
End expiry.
