(* ===== verification/MemoryCases.v ===== *)
(** * A reader of a small store

    One consumer that records a note, takes it in a snapshot, acknowledges the snapshot, records
    a note that replaces the first, and takes that in a delta: the cases in which the theorems
    about the stream apply. *)

From S2P Require Import Prelude GoString GoFloat Schema Sql Label Fixture Storage Names Messages Cycles Sessions Inboxes Participants Leases LeaseProps WorkViews MemoryLimits MemoryExpiry WorkItems WorkOps Works WorkFacts WorkProps WorkSteps Library LibraryDecisions Notes Readers Streams ReaderSteps ReaderProps MemoryProps.
Open Scope Z_scope.

(** ** The schedule *)

Definition note_caller : MemoryCaller := mkMemoryCaller "/r/x/.git" "claude" "claude-x-0a" "reader" peer_a false.
Definition one_sweep : Sweep := mkSweep 1 (λ _, engine_ok).
Definition one_call : Call := mkCall note_caller "store" 20 one_sweep (λ _, one_sweep) (λ _, engine_ok).
Definition no_catalog : result error Catalog := Err NoRows.
Definition at_time (n : Z) (_ : nat) : float := of_int n.
Definition first_note : MemoryRecordRequest := mkNote "finding" "one" "" None None None None None None (Some "k"%string) (Some (of_int 50)).
Definition second_note : MemoryRecordRequest := mkNote "finding" "two" "" None None None (Some 1) None None None None.

#[local] Abbreviation zero_text := (λ _ : float, "0"%string).
Definition noting (r : MemoryRecordRequest) (n : Z) (st : Store) : result error MemoryRecordResult * Store * gmap string float :=
  @MemoryRecord zero_sum zero_text (λ _, None) (λ _, None) (λ _, None) (λ _, None) no_catalog defaultMemoryLimits note_caller r "store" (at_time n) 20 0 None
    one_sweep one_sweep engine_ok ∅ st.
Definition syncing (r : MemorySyncRequest) (n : Z) (st : Store) : result error MemoryPage * Store * gmap string float :=
  MemorySync zero_text (λ _, None) defaultMemoryLimits one_call "snapshot" r (at_time n) ∅ st.
Definition acking (r : MemoryAckRequest) (n : Z) (st : Store) : result error MemoryAcked * Store * gmap string float :=
  MemoryAck zero_text (λ _, None) defaultMemoryLimits one_call r (at_time n) ∅ st.
Definition noted1 : Store := (noting first_note 10 small_store).1.2.
Definition frozen1 : Store := (syncing (mkSync "" 0) 11 noted1).1.2.
Definition acked1 : Store := (acking (mkAck "snapshot" None) 12 frozen1).1.2.
Definition noted2 : Store := (noting second_note 13 acked1).1.2.
Definition synced2 : Store := (syncing (mkSync "" 0) 14 noted2).1.2.
Definition acked2 : Store := (acking (mkAck "" (Some 2)) 15 synced2).1.2.

Definition place_is (seq issued : Z) (st : Store) : bool :=
  match cursor_of note_caller (tables st) with Some c => bool_decide (place c = (seq, issued, None, true, false)) | None => false end.
Example reader_moves : place_is 1 1 acked1 = true ∧ place_is 1 2 synced2 = true ∧ place_is 2 2 acked2 = true.
Proof. split_and!; vm_compute; reflexivity. Qed.

(** ** The states of the schedule *)

Lemma small_stream : stream_ok small_state.
Proof.
  split; intros *; cbn; rewrite ?lookup_empty; try done. split; [by intros [? ?]|]. by intros (sn & H & _).
Qed.
Definition reserved_b (repo fresh : string) (s : State) : bool := negb (exists_where (λ k r, seqb (sto_store_id r) fresh && negb (seqb k repo)) (memory_stores s)).
Lemma reserved_true repo fresh s : reserved_b repo fresh s = true → reserved repo fresh s.
Proof.
  unfold reserved_b. rewrite negb_true_iff. intros H repo' r Hl E. pose proof (proj1 (exists_where_false _ _) H _ _ Hl) as Hn. cbn in Hn.
  rewrite (proj2 (seqb_true _ _) E) in Hn. cbn in Hn. by apply negb_false_iff, seqb_true in Hn.
Qed.
(** What a run of an operation answers, and the state it leaves *)
Lemma left3 {A B C} (x : A * B * C) : x = (x.1.1, x.1.2, x.2).
Proof. by destruct x as [[a b] c]. Qed.
Lemma answers3 {A B C} (x : result error A * B * C) (P : A → bool) : match x.1.1 with Ok a => P a | Err _ => false end = true → ∃ a, x = (Ok a, x.1.2, x.2) ∧ P a = true.
Proof. destruct x as [[[a|e] b] c]; [by exists a|done]. Qed.

#[local] Abbreviation steps := (stream_step (SHA := zero_sum) zero_text (λ _, ProcessGone) (λ _, None) (λ _, None) (λ _, None) (λ _, None) no_catalog defaultMemoryLimits).
Lemma noting_step r n st : reserved_b "/r/x/.git" "store" (tables st) = true → steps st (noting r n st).1.2.
Proof. intros H%reserved_true. by eapply (ss_note _ _ _ _ _ _ _ _ _ _ note_caller r "store"); [exact H|apply left3]. Qed.
Lemma syncing_step r n st : reserved_b "/r/x/.git" "store" (tables st) = true → steps st (syncing r n st).1.2.
Proof. intros H%reserved_true. by eapply (ss_sync _ _ _ _ _ _ _ _ _ _ one_call "snapshot" r); [exact H|apply left3]. Qed.
Lemma acking_step r n st : reserved_b "/r/x/.git" "store" (tables st) = true → steps st (acking r n st).1.2.
Proof. intros H%reserved_true. by eapply (ss_ack _ _ _ _ _ _ _ _ _ _ one_call r); [exact H|apply left3]. Qed.
#[local] Abbreviation taken st := (rtc steps small_store st ∧ reserved_b "/r/x/.git" "store" (tables st) = true).
Lemma small_taken : taken small_store.
Proof. split; [apply rtc_refl|vm_compute; reflexivity]. Qed.
Lemma noted1_taken : taken noted1.
Proof. split; [|vm_compute; reflexivity]. eapply rtc_r; [apply small_taken|apply (noting_step first_note 10 small_store), small_taken]. Qed.
Lemma frozen1_taken : taken frozen1.
Proof. split; [|vm_compute; reflexivity]. eapply rtc_r; [apply noted1_taken|apply (syncing_step (mkSync "" 0) 11 noted1), noted1_taken]. Qed.
Lemma acked1_taken : taken acked1.
Proof. split; [|vm_compute; reflexivity]. eapply rtc_r; [apply frozen1_taken|apply (acking_step (mkAck "snapshot" None) 12 frozen1), frozen1_taken]. Qed.
Lemma noted2_taken : taken noted2.
Proof. split; [|vm_compute; reflexivity]. eapply rtc_r; [apply acked1_taken|apply (noting_step second_note 13 acked1), acked1_taken]. Qed.
Lemma synced2_taken : taken synced2.
Proof. split; [|vm_compute; reflexivity]. eapply rtc_r; [apply noted2_taken|apply (syncing_step (mkSync "" 0) 14 noted2), noted2_taken]. Qed.
Lemma acked2_taken : taken acked2.
Proof. split; [|vm_compute; reflexivity]. eapply rtc_r; [apply synced2_taken|apply (acking_step (mkAck "" (Some 2)) 15 synced2), synced2_taken]. Qed.
Lemma taken_own st : taken st → own "/r/x/.git" "store" (tables st).
Proof.
  intros [H Hr]. split; [|by apply reserved_true]. clear Hr. revert st H. apply rtc_ind_r; [exact small_stream|]. intros st st' _ H Hok. by eapply stream_step_ok.
Qed.

(** ** The theorems at these states *)

Lemma stream_invariant_witness : place_is 2 2 acked2 = true ∧ stream_ok (tables acked2).
Proof.
  split; [vm_compute; reflexivity|].
  exact (@stream_invariant zero_sum zero_text (λ _, ProcessGone) (λ _, None) (λ _, None) (λ _, None) (λ _, None) no_catalog defaultMemoryLimits small_store acked2
    small_stream (proj1 acked2_taken)).
Defined.

(** The answer of a run that is accepted *)
Definition accepted_b {A B} (x : result error A * B) : bool := match x.1 with Ok _ => true | Err _ => false end.
Lemma accepted_answer {A B} (x : result error A * B) : accepted_b x = true → ∃ a, x = (Ok a, x.2).
Proof. destruct x as [[a|e] b]; [by exists a|done]. Qed.

Definition reader_row : CursorRow := default (fresh_cursor (of_int 0)) (cursor_of note_caller (tables noted2)).
Definition one_delta : result error MemoryPage * Store := delta zero_text (λ _, None) defaultMemoryLimits one_call reader_row (at_time 14) noted2.
Lemma delta_exact_witness : ∃ e t, memory_entries (tables noted2) !! ("/r/x/.git"%string, 2) = Some e ∧ stream_text zero_text "/r/x/.git" (tables noted2) (2, e) = Some t ∧
  one_delta = (Ok (DeltaPage [t] 1 2 2 false), one_delta.2).
Proof.
  destruct (accepted_answer one_delta) as [page E]; [vm_compute; reflexivity|]. pose proof (taken_own _ noted2_taken) as Hown.
  assert (cursor_of note_caller (tables noted2) = Some reader_row) as Hcu by (vm_compute; reflexivity).
  assert (cu_seq reader_row = 1) as Hc by (vm_compute; reflexivity). assert (head_of "/r/x/.git" (tables noted2) = 2) as Hh by (vm_compute; reflexivity).
  destruct (delta_exact zero_text (λ _, None) defaultMemoryLimits one_call reader_row (at_time 14) noted2 page one_delta.2 Hown (at_reader_row _ _ _ (proj1 Hown) Hcu)
    ltac:(vm_compute; discriminate) ltac:(vm_compute; discriminate) ltac:(vm_compute; discriminate) E) as (texts & Hpage & Hle & Htext & _ & _ & Hne & _).
  change (mc_Repository (cl_m one_call)) with "/r/x/.git"%string in *. rewrite Hc, Hh in *.
  destruct texts as [|t texts]; [by destruct Hne|]. destruct texts as [|? texts]; [|exfalso; revert Hle; clear; cbn; lia].
  destruct (Htext 0%nat t eq_refl) as (e & He & Ht). exists e, t. split; [exact He|]. split; [exact Ht|].
  assert (page = DeltaPage [t] 1 2 2 false) as Hp by exact Hpage. rewrite Hp in E. exact E.
Defined.

Definition one_page : result error MemoryPage * Store := snapshotPage zero_text (λ _, None) defaultMemoryLimits one_call "snapshot" (mkSync "" 0) (at_time 11) frozen1.
Lemma snapshot_page_exact_witness : ∃ it, memory_snapshot_items (tables frozen1) !! ("snapshot"%string, 0) = Some it ∧
  one_page = (Ok (SnapshotPage "snapshot" 1 [si_payload it] 1 1 false), one_page.2).
Proof.
  destruct (accepted_answer one_page) as [page E]; [vm_compute; reflexivity|].
  destruct (snapshot_page_exact zero_text (λ _, None) defaultMemoryLimits one_call "snapshot" (mkSync "" 0) (at_time 11) frozen1 page one_page.2 (taken_own _ frozen1_taken)
    ltac:(vm_compute; discriminate) E) as (sn & texts & Hsn & _ & _ & Hpage & _ & Hle & Htext & Hne & _).
  assert ((λ x, (sn_head x, sn_items x)) <$> memory_snapshots (tables frozen1) !! "snapshot"%string = Some (1, 1)) as Hs by (vm_compute; reflexivity).
  rewrite Hsn in Hs. cbn in Hs. injection Hs as Hh Hi.
  rewrite Hh, Hi in *. cbn [sy_PageToken] in *. destruct texts as [|t texts]; [by destruct Hne|]. destruct texts as [|? texts]; [|exfalso; revert Hle; clear; cbn; lia].
  destruct (Htext 0%nat t eq_refl) as (it & Hit & <-). exists it. split; [exact Hit|].
  assert (page = SnapshotPage "snapshot" 1 [si_payload it] 1 1 false) as Hp by exact Hpage. rewrite Hp in E. exact E.
Defined.

Lemma ack_moves_witness : ∃ cu, cursor_of note_caller (tables synced2) = Some cu ∧ 2 ≤ cu_issued cu ∧
  now_placed one_call (λ x, x <| cu_seq := 2 |>) cu (tables acked2).
Proof.
  destruct (answers3 (acking (mkAck "" (Some 2)) 15 synced2) (λ a, match a with CursorAt 2 => true | _ => false end)) as (a & E & Ha); [vm_compute; reflexivity|].
  assert (a = CursorAt 2) as Ea by (clear -Ha; by repeat case_match). rewrite Ea in E.
  destruct (ack_moves zero_text (λ _, None) defaultMemoryLimits one_call (mkAck "" (Some 2)) (at_time 15) ∅ synced2 (CursorAt 2) acked2 _ (taken_own _ synced2_taken) E)
    as (_ & cu & Hcu & _ & _ & _ & _ & [_ Hle] & Hp).
  exists cu. split; [exact Hcu|]. split; [exact Hle|exact Hp].
Defined.

(** The first note, and its retry five seconds later *)
Definition other_note : MemoryRecordRequest := mkNote "finding" "two" "" None None None None None None (Some "k"%string) (Some (of_int 49)).

(** A note that ends at 20 s is gone after the expiry at 30 s, and the reader is kept. *)
Definition short_note : MemoryRecordRequest := mkNote "status" "busy" "" None None None None None (Some (of_int 20)) None None.
Definition noted3 : Store := (noting short_note 15 acked2).1.2.
Lemma noted3_taken : taken noted3.
Proof. split; [|vm_compute; reflexivity]. eapply rtc_r; [apply acked2_taken|apply (noting_step short_note 15 acked2), acked2_taken]. Qed.
Definition expiring : result error unit * Store := expireMemory (λ _, None) 4 defaultMemoryLimits "/r/x/.git" (of_int 30) false (λ _, engine_ok) noted3.
Lemma expiry_complete_witness : is_Some (memory_entries (tables noted3) !! ("/r/x/.git"%string, 3)) ∧
  memory_entries (tables expiring.2) !! ("/r/x/.git"%string, 3) = None ∧ 3 ≤ floor_of "/r/x/.git" (tables expiring.2).
Proof.
  assert (∃ e, memory_entries (tables noted3) !! ("/r/x/.git"%string, 3) = Some e ∧ expired_entry "/r/x/.git" (of_int 30) ("/r/x/.git"%string, 3) e = true) as (e & He & Hx).
  { exists (note_entry (of_int 15) note_caller (normal_note short_note) 1 None). split; vm_compute; reflexivity. }
  split; [by exists e|]. destruct (accepted_answer expiring) as [u E]; [vm_compute; reflexivity|].
  destruct (expiry_complete (λ _, None) "/r/x/.git" (of_int 30) defaultMemoryLimits 4 false (λ _, engine_ok) noted3 u expiring.2 (proj1 (taken_own _ noted3_taken))
    ltac:(apply Nat.ltb_lt; vm_compute; reflexivity) E) as (Hleft & Hgone & _).
  destruct (Hgone _ _ He) as [Hl|(Hn & _ & _ & Hf)]; [|split; [exact Hn|exact Hf]].
  exfalso. pose proof (Hleft _ _ Hl) as H. rewrite Hx in H. discriminate.
Defined.
